(* ===== verification/_CoqProject ===== *)
-Q . S2P
Prelude.v
PyString.v
PyPath.v
PathContainment.v
ScopePaths.v
ScopeConflict.v
ScopeConfig.v
ScopeLocks.v
ScopeLockSafety.v
ScopeSpec.v
ScopeLockSpec.v
VerificationReport.v
Barriers.v
BarrierSpec.v
ToolScheduler.v
ToolSchedulerSpec.v
Sql.v
StateMachines.v
RunStore.v
RunStoreSpec.v
CostObservation.v
ProviderLedger.v
ProviderLedgerSpec.v
Records.v
PyRegex.v
PyFnmatch.v
PyYaml.v
ProtectedPaths.v
ProtectedPathsSpec.v
RiskGovernance.v
RiskGovernanceSpec.v
WorkTree.v
WorkTreeSpec.v
WorkQueueSchema.v
WorkQueue.v
WorkQueueInv.v
WorkQueueSteps.v
WorkQueueSpec.v
WorkWorker.v
WorkWorkerSpec.v
WorkQueueLedger.v
PyJson.v
Connectors.v
Grants.v
CapabilityStore.v
Broker.v
BrokerCalls.v
RunAuthorization.v
BrokerFixtures.v
GrantsSpec.v
BrokerSpec.v
BrokerStores.v
CapabilitySpec.v
RunAuthorizationSpec.v
LoopBudget.v
LoopBudgetSpec.v
WebRead.v
WebReadSpec.v
LlmCalls.v
LlmCallsSpec.v
SeamArgs.v
LoopEffects.v
LoopEffectsSpec.v
JsonText.v
Lease.v
LeaseProxy.v
LeaseLaunch.v
LeaseSpec.v
LeaseLaunchSpec.v
LeaseProxySpec.v
TaskContract.v
TaskContractSpec.v
ContractStoreSpec.v
FanIn.v
FanInSpec.v
