(* ===== verification/Prelude.v ===== *)
(** * OmniAgentOS verification library

    OmniAgentOS is an agent operating system: a queue of runs in SQLite, workers
    that claim and execute them, swarms of coding agents that write to one file
    system, and gates that decide when work may be merged.  This library models the
    part of it that must be right for the rest to be safe, as executable functions
    over explicit state, and proves what that part promises.

    ** Parts of the program and files of the library

    - Path containment, [omniagentos/path_containment.py]: [PathContainment].
      Containment of one path in another is decided by comparing inodes along the
      ancestors.  It is a client of the class [FileSystem] and provides the class
      [RealmIdentity] that the conflict matrix uses.
    - Scope algebra, [omniagentos/scope/paths.py]: [ScopePaths].  Normalization of
      relative paths, the two orders on components ([under], [overlap]) and the
      resolution of a path to its realm.
    - Claims and the conflict matrix, [omniagentos/scope/model.py] and
      [omniagentos/scope/conflict.py]: [ScopeConflict].
    - Scope-lock settings, [omniagentos/scope/config.py]: [ScopeConfig].
    - The path-lock store, [omniagentos/scope/locks.py]: [ScopeLocks].  The record
      [store] holds the rows of [resource_locks] and [scope_waiters]; each operation
      of [PathLockStore] is a function of that record.
    - Verification reports, [omniagentos/verify/report.py]: [VerificationReport],
      and the class [VerificationReportLike] that the barriers consume.
    - Release barriers, [omniagentos/swarm/barriers.py]: [Barriers].
    - The tool-call planner, [omniagentos/toolplane/scheduler.py] with the entries of
      [omniagentos/toolplane/catalog.py]: [ToolScheduler].
    - Lifecycles, [omniagentos/contracts.py] and
      [omniagentos/taskcontract/transitions.py]: [StateMachines].
    - The run store, [omniagentos/db/store.py]: [RunStore] over the rows and
      comparisons of [Sql].  The record [db] holds one table per SQL table.
    - Cost observations, the same [contracts.py]: [CostObservation]; a field map is
      validated as the pydantic model does.
    - The provider-call ledger, [omniagentos/db/store.py] with the estimates of
      [omniagentos/budget/token_pricing.py]: [ProviderLedger].  The record [ledger]
      holds the rows of [provider_call_usage].
    - The shared work queue, [omniagentos/workqueue/]: [WorkQueueSchema] has the rows
      and enumerations of [schema.py] and the migrations, [WorkQueue] every operation
      of [store.py] over the record [WorkQueue] of its five tables, and the claim route
      of [server.py].  [WorkQueueInv] has the invariant of every reachable queue, and
      [WorkQueueSteps] the life cycle of one unit, with the proof that every call is a
      step of it for every unit.
    - The worker of the queue, [worker.py], [classify.py] and [fingerprint.py] of the
      same package: [WorkWorker].  One execution is a function of the record [World],
      what git, the agent and the acceptance command did.
    - The protected-path registry, [omniagentos/policy/protected_paths.py]:
      [ProtectedPaths], over the YAML values of [PyYaml].
    - The risk classifier, [omniagentos/reliability/governance.py]: [RiskGovernance].
    - Verification of a working tree, [omniagentos/execution/verify.py]: [WorkTree].
    - The connector registry and the facts a request body states,
      [omniagentos/connectors/__init__.py] and [extractors.py]: [Connectors].
    - Campaign grants, [omniagentos/grants/store.py] and [validation.py]: [Grants], over
      the record [GrantsDb] of its two tables.
    - Standing grants, broker tokens and the call log, [connectors/store.py]:
      [CapabilityStore], over the record [CapDb] of its four tables.
    - The capability broker, [connectors/broker.py] and [connectors/oauth.py]: [Broker]
      has who may call, against the class [GrantStore] of which both stores are
      instances; [BrokerCalls] has one call with its credentials, its dispatch and its
      audit rows, in a monad over the record [World] whose events are what leaves the
      process.
    - The owner's spend instruction, [grants/run_authorization.py]: [RunAuthorization].
    - The pre-paid budget of loop instances, [omniagentos/scheduler/loop_budget.py]:
      [LoopBudget], over its table of reservations.
    - One bounded public read, [connectors/web_read.py]: [WebRead], whose calls to the
      URL parser and the address library are the record [NetLib].
    - Short model calls, [omniagentos/llm/budget.py] and [client.py]: [LlmCalls].
    - The credential seam of the loops, [omniagentos/scheduler/loop_effects.py]:
      [SeamArgs] has the failures and the typed arguments, [LoopEffects] the handlers and
      [execute], the whole path of one request, over the record [Seam] and against the
      record [SeamEnv] of what the outside answers.
    - Autonomy leases, [omniagentos/lease/]: [Lease] is [models.py], [config.py],
      [issue.py], [validate.py] and [rlimits.py] over the record [LeaseWorld], whose
      schedule is what other threads do at each read; [LeaseProxy] is [proxy.py];
      [LeaseLaunch] is [record.py], [seam.py] and the part of [adapters/common.py] that
      uses them, against the class [LaunchEnv].
    - Task contracts, [omniagentos/taskcontract/models.py] and [store.py]:
      [TaskContract], over the record [ContractDb] of its two tables and against the
      class [ContractHost].
    - Fan-in of parallel candidates, [omniagentos/fanin/types.py], [normalize.py] and
      [adjudicate.py]: [FanIn].

    [PyJson] has Python floats and the values of [json.loads], [JsonText] the text
    [json.dumps] prints and the proof that it determines the value.
    [PyString], [PyPath], [PyRegex] and [PyFnmatch] are the parts of [str], [posixpath],
    [re] and [fnmatch] the code uses; [Records] is the update of a field of a row.
    This file has results, transactions, tables, orders, sorting and automation.

    How they interact: the lock store compares claims with the conflict matrix, which
    compares realms with path containment; the barriers judge reports through the
    interface of the report module; the run store's state writes are edges of the
    run lifecycle; a plan's waves yield the claims a caller asks the lock store for.  The
    worker claims and reports through the work-queue store, and its scope check uses the
    working-tree verdict, which uses the risk classifier, which asks the registry of
    protected paths, whose location check uses path containment.  The broker asks the
    registry what a capability is, the extractors what a body states, one of the two
    stores whether it is granted, and consumes a campaign grant before it sends; the run
    authorization mints those grants.  The seam reserves from the loop budget, performs an
    effect through the broker, the web read (which goes through the broker's authorization
    and audit) or the short-call client, and disposes of the reservation by what the
    failure proves.  A launch issues a lease, validates it again at the spawn, gives the
    child the limits and the proxy the lease names, and writes the trail.  The contract
    store moves its rows by the lifecycle of [StateMachines].  The signature of a lease and
    the identity of a contract are digests of [JsonText].

    ** Groups of theorems

    - [ScopeSpec]: two claims conflict exactly when they share a path of one realm;
      normalization never escapes its root and is inverse to the text form up to the
      stated exceptions; the conflict reported does not depend on the order of rows;
      containment by inodes is sound.
    - [ScopeLockSafety], [ScopeLockSpec]: on every store the operations can reach, two
      live locks of different owners never overlap, as their rows read back; an acquire inserts all its
      claims or none; a fenced generation stays fenced; an acquire without
      conflict succeeds; resuming after a crash restores the claims exactly; waiters
      are served in order.  The remaining theorems exhibit behaviour the documentation
      does not admit: a directory whose name ends in a space, a normalized name that
      cannot be read back, the bounded reap meeting the unique index, and a
      time-to-live under one second.
    - [VerificationReport], [BarrierSpec]: the status of a report, and for each
      barrier the evidence without which it does not release.
    - [ToolSchedulerSpec]: a plan keeps every call once and in order, a concurrent wave
      holds only calls that are classified and share no resource key, its claims are
      complete, retries and cancellation groups are exact.
    - [StateMachines]: the lifecycles as relations, and the contract checks.
    - [RunStoreSpec]: claiming takes a least queued run once, and an aged run is not
      overtaken; reclaiming fences the displaced worker; a completed receipt is
      permanent; an approval is decided once; the events of an execution are numbered
      without gaps and the read cursor loses none; requeueing obeys the pause switch;
      the queue moves runs along lifecycle edges only; a step write is an upsert.
    - [ProviderLedgerSpec]: exact cost text loses nothing; a call is settled once;
      the daily cap holds however guarded writers interleave; an aggregate with
      an unknown cost has no chargeable figure.
    - [WorkQueueSpec], [WorkQueueLedger]: every reachable queue is well formed and every
      call is, for each unit, a step of its life cycle with the label of that call, and moves
      one unit at most unless it sweeps.  No two executions of a unit overlap, and a claim
      spares every live lease; a
      lease generation that ended never works again; the attempt counter counts exactly
      the verdicts about the candidate, retrying ends, and queued units are claimable; a
      claim takes the first admissible unit and respects the machine's capacity; a
      silent worker's unit comes back; a park is announced once; a refused input stays
      refused; a revoked machine is shut out within the life of the cached allowlist.
      One lemma exhibits a queued unit that no worker can ever claim.
    - [WorkWorkerSpec]: what a scope glob admits; the bytes hashed for an input
      determine it; the polling delay is bounded and monotone; a unit passes exactly
      when every step of its execution succeeded and all its writes were in scope.
    - [ProtectedPathsSpec], [RiskGovernanceSpec], [WorkTreeSpec]: no registry document
      lowers the floors, the classifier is characterized, only raises and inherits the
      floors, and a working tree is good exactly when every changed path is declared;
      an unobserved tree is never clean.

    - [GrantsSpec]: the counters of a grant are its audit trail and stay under its
      caps; one consumption is characterized on every branch; a revoked or expired grant
      is never charged again; a message passes exactly for the approved audience.
    - [BrokerSpec], [BrokerStores]: no guarded write has any effect without a durable
      grant consumed in that call, and a grant bounds the effects of every sequence of
      calls, which state their recipients and their spend; secrets stay within the
      connector's declared names; a dry run is pure; the audit rows bracket the effects; a
      standing grant confines its calls.  The examples at the end exhibit a token exchange
      behind an answer that denies it, a path the allowlist lets through, a cached token
      that skips the scope, and a refused request that costs an action.
    - [CapabilitySpec]: the standing grants are the net effect of their log; replacing a
      grant is exact; a dead token stays dead; the effective grant is an intersection.
    - [RunAuthorizationSpec]: an authorization is the owner's words, and the grants of a
      run stay under the ceiling as long as the amounts are numbers, however the minting
      ends.  Its examples
      exhibit a NaN ask and a minting that stops half-way.  [BrokerFixtures] is the small
      world these properties are evaluated in.
    - [LoopBudgetSpec]: under every interleaving of the ledger's transactions the caps of
      the instance and of the day hold up to the stated rounding, a charge is final, and
      settling, releasing and sweeping have exactly their effects.
    - [WebReadSpec]: every connection goes to an address that was found public, at most six
      of them, between two audit rows, and at most a megabyte comes back; the one exception,
      an address whose stripped text reads otherwise, is an example.
    - [LlmCallsSpec]: a call sends at most its attempts, each after a look at the ledger, and
      an unreadable ledger refuses; a sequence of calls overshoots the cap by one call at most.
      Its examples exhibit replies that are billed and not recorded, and a line that lifts the cap.
    - [LoopEffectsSpec]: no effect without a grant, validated arguments and, when paid, a
      reservation; at most one purchase; an absence is claimed only when nothing was bought,
      by a table of when each exception of the HTTP client is raised that the code does not
      read; every reservation is disposed of unless the database fails at that moment; the
      seam keeps the budget's caps; every request is answered; a stored artifact is whole
      and a failed download leaves no partial file on a disk that can unlink it.
    - [LeaseSpec]: validation is characterized; two leases with one signature have the same
      terms or exhibit a collision of the digest; a lease of a
      generation that was left behind is dead; limits of the child only tighten; an issued
      lease validates until it expires.  [LeaseLaunchSpec]: a spawn under enforcement is
      authorized by a lease that was well formed, signed, of the current generation and in its
      time at that moment, every other mode launches as if
      there were no leases, no listener is left behind, and rows of the trail are whole.
      [LeaseProxySpec]: a tunnel goes to an allowed host and port, and the slots and counters
      of the proxy balance.
    - [TaskContractSpec]: reading and writing a contract are inverse, in any order of keys, and
      equal hashes mean equal intents.  [ContractStoreSpec]: the store commits each statement
      by itself, so its calls interleave; every row re-hashes to its identity under every
      interleaving, and where calls do not overlap its log is a path of the lifecycle to its
      state, up to the rows of calls that died; a transition happens exactly when it may; an
      adoption is permanent.  Two races are examples.
    - [FanInSpec]: when no score is NaN, the outcome does not depend on the order of arrival
      and a winner is a best admissible candidate; the synthesis loses no value and fails exactly over its budget;
      shadow mode is inert.  An example exhibits the second pass that forgets the conflicts.

    ** Modelling conventions

    A Python call that may raise returns [result]; a store operation is an [op], and
    [write] is the transaction that keeps the body's changes only when it returns.  The
    contract store has no transactions: there a call is a [cursor] between its statements,
    and [store_step] interleaves the statements of several stores and their deaths.
    Writers are serialized by SQLite's write lock, so an interleaving of processes is a
    sequence of operations, and theorems about all interleavings quantify over
    sequences.  Timestamps are integers in the lock store, where they are only
    compared and shifted by a whole number of seconds, and in the work queue, and texts
    in the run store, as its statements compare them.  A list the queue stores as JSON is the
    list, and the rendered text of an alert is left out.  Characters are code points up to 255.
    Where a float decides (money caps), it is a rational, an infinity or NaN, and the
    rounding of sums is a parameter.  Of a denial the reason and the codes are kept, not
    the explanatory text.  A JSON column is the value its text reads back as.

    Recursion is structural, apart from climbing to the root of a path, which
    takes as fuel the length of the path: every step shortens it, and [PyPath] proves the
    fuel is enough.  Reading a shell pattern takes the length of its text, and
    [PyFnmatch] proves that enough; [PyRegex] proves that its matcher decides the
    relation of matching.  The polling of a prediction takes the number of its turns
    as a bound, and [LoopEffectsSpec] proves that a clock which passes the deadline ends it; the reading
    of request headers and the write loop of the trail take the length of the text, and
    [LeaseProxySpec] and [LeaseLaunchSpec] prove that enough.  Loops over rows are folds.

    Parameters stand for what the program calls: [FileSystem] and [RealmEnv] (the
    operating system, git and the environment), [RealmIdentity], identifiers from
    [uuid], SQLite's [unixepoch], SHA-256, arithmetic on doubles, the price registry
    file, the catalog of the process, the queue's escalation table, the rounding of a
    double operation, a parsed YAML document, the text git prints, the [World] of an
    execution, the reading of ISO times and of mail headers, and the [Machine] of a
    brokered call (environment, secret catalog, permission guard, token endpoint,
    provider, audit sink), [NetLib] with the answers of resolver and network, the answers
    to a model call, [SeamEnv], the double quotient and SQLite's SUM of a REAL column,
    HMAC-SHA256, the digits of a float ([FloatText] with the three laws of [repr]), and
    [LaunchEnv] (disk, locks, sandbox, listener, process).  Theorems that assume something of a parameter have a witness with a
    concrete one.

    ** Not modelled

    SQLite connections, write-ahead logging, locking with its retries, and column
    affinity; [bool] values of observations; overflow of SUM where no cap depends on
    it; the caching of realm resolution; serialization to dictionaries, contracts and
    leases apart; the construction of the tool catalog; of the worker its processes,
    threads and files, and of the queue's status its rendering; of the seam its socket
    and thread, and of the proxy the relay of an accepted tunnel and its threads; the text
    of a lease refusal; the adapters' parsing, sandbox profiles and process handling.
    The rest of the program is I/O around external tools, services and models (HTTP API,
    sessions, adapters, intake, memory, dashboards), text heuristics (the shell policy),
    scoring in floating point (routing, allocation) or glue over the stores modelled here;
    its decisions are not of the kind this library states theorems about. *)

From stdpp Require Export base tactics strings sets gmap numbers option relations list.

(** ** Results: a Python function that may raise *)

Inductive result (E A : Type) : Type :=
  | Ok (a : A)
  | Err (e : E).
Arguments Ok {E A} a.
Arguments Err {E A} e.

#[export] Instance result_mret {E} : MRet (result E) := λ A a, Ok a.
#[export] Instance result_mbind {E} : MBind (result E) := λ A B f m,
  match m with Ok a => f a | Err e => Err e end.
#[export] Instance result_fmap {E} : FMap (result E) := λ A B f m,
  match m with Ok a => Ok (f a) | Err e => Err e end.

#[export] Instance result_eq_dec {E A} `{EqDecision E, EqDecision A} :
  EqDecision (result E A).
Proof. solve_decision. Defined.

(** [try ... except]: the exception class of a callee seen by the caller. *)
Definition map_err {E F A} (f : E → F) (m : result E A) : result F A :=
  match m with Ok a => Ok a | Err e => Err (f e) end.

Definition is_ok {E A} (m : result E A) : bool :=
  match m with Ok _ => true | Err _ => false end.

(** Run an effectful function over a list, left to right, stopping at the
    first exception: a list comprehension whose body may raise. *)
Fixpoint traverse {E A B} (f : A → result E B) (l : list A) : result E (list B) :=
  match l with
  | [] => Ok []
  | x :: l => y ← f x; ys ← traverse f l; Ok (y :: ys)
  end.

Section result_lemmas.
Context {E : Type}.

Lemma bind_Ok {A B} (m : result E A) (f : A → result E B) b :
  m ≫= f = Ok b ↔ ∃ a, m = Ok a ∧ f a = Ok b.
Proof. destruct m; simpl; naive_solver. Qed.

Lemma traverse_Ok {A B} (f : A → result E B) l k :
  traverse f l = Ok k ↔ Forall2 (λ x y, f x = Ok y) l k.
Proof.
  revert k. induction l as [|x l IH]; intros k; simpl.
  - split; [intros [= <-]; constructor | by intros ->%Forall2_nil_inv_l].
  - rewrite bind_Ok. setoid_rewrite bind_Ok. setoid_rewrite IH. split.
    + intros (y & ? & ys & ? & [= <-]). by constructor.
    + inversion 1; subst. eauto 10.
Qed.

Lemma traverse_map {A B} (f : A → result E B) (g : A → B) l :
  (∀ x, x ∈ l → f x = Ok (g x)) → traverse f l = Ok (map g l).
Proof.
  intros Hf. apply traverse_Ok, Forall2_fmap_r, Forall_Forall2_diag, Forall_forall.
  auto.
Qed.
End result_lemmas.

Lemma seqZ_snoc g : (0 ≤ g)%Z → seqZ 1 (g + 1) = seqZ 1 g ++ [g + 1]%Z.
Proof. intros. rewrite seqZ_app by lia. by rewrite Z.add_comm. Qed.

(** ** SQL tables

    A table is the list of its rows in rowid order.  [UPDATE .. WHERE],
    [SELECT .. WHERE] and the row count that [cursor.rowcount] reports are
    the three operations the stores are written with. *)

Section tables.
Context {A : Type}.
Implicit Types (p q : A → bool) (f : A → A) (t : list A).

Definition select p t : list A := List.filter p t.
Definition update_where p f t : list A := map (λ r, if p r then f r else r) t.
Definition rowcount p t : nat := length (select p t).

Lemma elem_of_select p t x : x ∈ select p t ↔ x ∈ t ∧ p x = true.
Proof. unfold select. rewrite !list_elem_of_In. apply filter_In. Qed.

Lemma elem_of_update_where p f t y :
  y ∈ update_where p f t ↔ ∃ x, x ∈ t ∧ y = if p x then f x else x.
Proof. unfold update_where. rewrite list_elem_of_fmap. naive_solver. Qed.

Lemma update_where_map {B} (g : A → B) p f t :
  (∀ x, x ∈ t → p x = true → g (f x) = g x) → map g (update_where p f t) = map g t.
Proof.
  unfold update_where. induction t as [|x t IH]; intros Hg; [done|]. simpl. f_equal.
  - destruct (p x) eqn:E; [apply Hg; set_solver|done].
  - apply IH. set_solver.
Qed.

Lemma length_update_where p f t : length (update_where p f t) = length t.
Proof. apply length_map. Qed.

Lemma update_where_none p f t : rowcount p t = 0 → update_where p f t = t.
Proof.
  unfold rowcount, select, update_where. induction t as [|x t IH]; [done|]. simpl.
  destruct (p x); simpl; [done|]. intros. f_equal; auto.
Qed.

Lemma rowcount_pos p t : 0 < rowcount p t ↔ ∃ x, x ∈ t ∧ p x = true.
Proof.
  unfold rowcount. setoid_rewrite <-elem_of_select.
  destruct (select p t) as [|x l]; simpl; [|split; [|lia]; set_solver].
  split; [lia|]. set_solver.
Qed.

Lemma select_none p t : (∀ x, x ∈ t → p x = false) → select p t = [].
Proof.
  induction t as [|x t IH]; intros Hp; [done|]. simpl.
  rewrite Hp by set_solver. apply IH. set_solver.
Qed.

Lemma select_sublist p t : select p t `sublist_of` t.
Proof. induction t; simpl; [constructor|]. case_match; by constructor. Qed.
End tables.

(** Two different rows of a table disagree on a key (a UNIQUE index). *)
Lemma NoDup_map_inj {A B} (g : A → B) (t : list A) x y :
  NoDup (map g t) → x ∈ t → y ∈ t → g x = g y → x = y.
Proof.
  induction t as [|z t IH]; simpl; [set_solver|].
  rewrite NoDup_cons, !elem_of_cons. intros [Hz Ht] [->|Hx] [->|Hy] Heq; auto.
  - exfalso. apply Hz. rewrite Heq. by apply list_elem_of_fmap_2.
  - exfalso. apply Hz. rewrite <-Heq. by apply list_elem_of_fmap_2.
Qed.

(** The row a unique key picks out. *)
Lemma select_unique {A B} (g : A → B) (p : A → bool) (t : list A) x :
  NoDup (map g t) → x ∈ t → p x = true → (∀ y, y ∈ t → p y = true → g y = g x) →
  select p t = [x].
Proof.
  induction t as [|z t IH]; intros Hnd Hx Hp Hg; [set_solver|]. simpl in *.
  apply NoDup_cons in Hnd as [Hz Hnd]. apply elem_of_cons in Hx as [->|Hx].
  - rewrite Hp. f_equal. apply select_none. intros y Hy. apply not_true_iff_false. intros Hpy.
    apply Hz. rewrite <-(Hg y) by set_solver. by apply list_elem_of_fmap_2.
  - destruct (p z) eqn:Hpz; [|by apply IH; set_solver].
    exfalso. apply Hz. rewrite (Hg z) by set_solver. by apply list_elem_of_fmap_2.
Qed.

Lemma update_where_ext {A} (p q : A → bool) (f g : A → A) (t : list A) :
  (∀ x, x ∈ t → p x = q x) → (∀ x, x ∈ t → p x = true → f x = g x) →
  update_where p f t = update_where q g t.
Proof.
  unfold update_where. induction t as [|x t IH]; intros Hp Hf; [done|]. simpl. f_equal.
  - rewrite <-Hp by set_solver. destruct (p x) eqn:E; [apply Hf; set_solver|done].
  - apply IH; set_solver.
Qed.

Lemma update_where_id {A} (p : A → bool) (f : A → A) (t : list A) :
  (∀ x, x ∈ t → p x = true → f x = x) → update_where p f t = t.
Proof.
  unfold update_where. induction t as [|x t IH]; intros Hf; [done|]. simpl. f_equal.
  - destruct (p x) eqn:E; [apply Hf; set_solver|done].
  - apply IH; set_solver.
Qed.

Lemma select_update_where {A} (p q : A → bool) (f : A → A) (t : list A) :
  (∀ x, q x = true → p (f x) = p x) →
  select p (update_where q f t) = update_where q f (select p t).
Proof.
  intros Hp. unfold select, update_where. induction t as [|x t IH]; [done|]. simpl.
  destruct (q x) eqn:Eq; [rewrite (Hp x Eq)|]; destruct (p x) eqn:Ep; simpl; rewrite ?Eq, IH; done.
Qed.

Lemma NoDup_map_select {A B} (g : A → B) (p : A → bool) (t : list A) :
  NoDup (map g t) → NoDup (map g (select p t)).
Proof.
  induction t as [|x t IH]; [done|]. simpl. intros [Hx Hnd]%NoDup_cons.
  destruct (p x); [|by apply IH]. simpl. apply NoDup_cons. split; [|by apply IH].
  intros (y & Hy & Hin)%list_elem_of_fmap. apply Hx. rewrite Hy. apply elem_of_select in Hin as [? _].
  by apply list_elem_of_fmap_2.
Qed.

Lemma select_app {A} (p : A → bool) (t1 t2 : list A) :
  select p (t1 ++ t2) = select p t1 ++ select p t2.
Proof. unfold select. apply List.filter_app. Qed.

(** [List.find] is the first row that satisfies the test. *)
Lemma find_spec {A} (p : A → bool) (l : list A) x :
  List.find p l = Some x ↔
  ∃ l1 l2, l = l1 ++ x :: l2 ∧ p x = true ∧ ∀ y, y ∈ l1 → p y = false.
Proof.
  split.
  - induction l as [|z l IH]; simpl; [done|]. destruct (p z) eqn:E.
    + intros [= ->]. exists [], l. split_and!; [done|done|set_solver].
    + intros (l1 & l2 & -> & ? & Hl1)%IH. exists (z :: l1), l2. set_solver.
  - intros (l1 & l2 & -> & Hp & Hl1). induction l1 as [|z l1 IH]; simpl; [by rewrite Hp|].
    rewrite (Hl1 z) by set_solver. apply IH. set_solver.
Qed.

(** ** Transactions

    A store operation returns a result and the next database.  [write] is the
    [_write] context manager every store shares: the body's changes are kept
    when it exits normally and thrown away when it raises. *)

Definition op (S E A : Type) : Type := S → result E A * S.

Definition write {S E A} (body : S → result E (A * S)) : op S E A := λ s,
  match body s with
  | Ok (a, s') => (Ok a, s')
  | Err e => (Err e, s)
  end.

Lemma write_Err {S E A} (body : S → result E (A * S)) s e s' :
  write body s = (Err e, s') → s' = s.
Proof. unfold write. destruct (body s) as [[??]|]; naive_solver. Qed.

Lemma write_Ok {S E A} (body : S → result E (A * S)) s a s' :
  write body s = (Ok a, s') ↔ body s = Ok (a, s').
Proof. unfold write. destruct (body s) as [[??]|]; naive_solver. Qed.

(** ** Total orders on Python values *)

Class PyOrd (A : Type) := {
  py_cmp : A → A → comparison;
  py_cmp_eq x y : py_cmp x y = Eq ↔ x = y;
  py_cmp_antisym x y : py_cmp y x = CompOpp (py_cmp x y);
  py_cmp_trans x y z : py_cmp x y = Lt → py_cmp y z = Lt → py_cmp x z = Lt;
}.

Definition py_lt `{PyOrd A} (x y : A) : bool :=
  match py_cmp x y with Lt => true | _ => false end.
Definition py_le `{PyOrd A} (x y : A) : bool :=
  match py_cmp x y with Gt => false | _ => true end.

Section py_ord.
Context `{PyOrd A}.
Implicit Types x y z : A.

Lemma py_cmp_refl x : py_cmp x x = Eq.
Proof. by apply py_cmp_eq. Qed.

Lemma py_le_refl x : py_le x x = true.
Proof. unfold py_le. by rewrite py_cmp_refl. Qed.

Lemma py_le_total x y : py_le x y = true ∨ py_le y x = true.
Proof. unfold py_le. rewrite (py_cmp_antisym x y). destruct (py_cmp x y); auto. Qed.

Lemma py_le_antisym x y : py_le x y = true → py_le y x = true → x = y.
Proof.
  unfold py_le. rewrite (py_cmp_antisym x y). destruct (py_cmp x y) eqn:E; try done.
  intros _ _. by apply py_cmp_eq.
Qed.

Lemma py_le_trans x y z : py_le x y = true → py_le y z = true → py_le x z = true.
Proof.
  unfold py_le. destruct (py_cmp x y) eqn:E1; try done.
  - by apply py_cmp_eq in E1 as ->.
  - destruct (py_cmp y z) eqn:E2; try done.
    + apply py_cmp_eq in E2 as ->. by rewrite E1.
    + by rewrite (py_cmp_trans _ _ _ E1 E2).
Qed.

Lemma py_lt_le x y : py_lt x y = true → py_le x y = true.
Proof. unfold py_lt, py_le. by destruct (py_cmp x y). Qed.

Lemma py_lt_nle x y : py_lt x y = negb (py_le y x).
Proof. unfold py_lt, py_le. rewrite (py_cmp_antisym x y). by destruct (py_cmp x y). Qed.
End py_ord.

#[export] Program Instance Z_ord : PyOrd Z := {| py_cmp := Z.compare |}.
Next Obligation. apply Z.compare_eq_iff. Qed.
Next Obligation. intros; apply Z.compare_antisym. Qed.
Next Obligation. intros x y z. rewrite !Z.compare_lt_iff. lia. Qed.

#[export] Program Instance nat_ord : PyOrd nat := {| py_cmp := Nat.compare |}.
Next Obligation. apply Nat.compare_eq_iff. Qed.
Next Obligation. intros; apply Nat.compare_antisym. Qed.
Next Obligation. intros x y z. rewrite !Nat.compare_lt_iff. lia. Qed.

Lemma string_compare_trans s1 s2 s3 :
  String.compare s1 s2 = Lt → String.compare s2 s3 = Lt → String.compare s1 s3 = Lt.
Proof.
  revert s2 s3. induction s1 as [|a s1 IH]; intros [|b s2] [|c s3]; simpl; try done.
  destruct (Ascii.compare a b) eqn:Hab; try done.
  - apply Ascii.compare_eq_iff in Hab as ->. destruct (Ascii.compare b c); eauto.
  - intros _. destruct (Ascii.compare b c) eqn:Hbc; try done.
    + apply Ascii.compare_eq_iff in Hbc as ->. by rewrite Hab.
    + intros _. assert (Ascii.compare a c = Lt) as ->; [|done].
      apply N.compare_lt_iff. by etrans; apply N.compare_lt_iff.
Qed.

#[export] Program Instance string_ord : PyOrd string := {| py_cmp := String.compare |}.
Next Obligation.
  intros s1 s2. split; [apply String.compare_eq_iff|]. intros ->.
  induction s2 as [|a s IH]; simpl; [done|]. unfold Ascii.compare. by rewrite N.compare_refl.
Qed.
Next Obligation. intros; apply String.compare_antisym. Qed.
Next Obligation. intros ???. apply string_compare_trans. Qed.

(** Tuples compare lexicographically. *)
Definition cmp_then (c d : comparison) : comparison :=
  match c with Eq => d | Lt => Lt | Gt => Gt end.

#[export] Program Instance prod_ord {A B : Type} `{!PyOrd A} `{!PyOrd B} : PyOrd (A * B) := {|
  py_cmp x y := cmp_then (py_cmp x.1 y.1) (py_cmp x.2 y.2)
|}.
Next Obligation.
  intros A B ?? [x1 x2] [y1 y2]; simpl. split.
  - destruct (py_cmp x1 y1) eqn:E; try done.
    apply py_cmp_eq in E as ->. by intros ->%py_cmp_eq.
  - intros [= -> ->]. by rewrite !py_cmp_refl.
Qed.
Next Obligation.
  intros A B ?? [x1 x2] [y1 y2]; simpl.
  rewrite (py_cmp_antisym x1 y1). destruct (py_cmp x1 y1); simpl; auto using py_cmp_antisym.
Qed.
Next Obligation.
  intros A B ?? [x1 x2] [y1 y2] [z1 z2]; simpl.
  destruct (py_cmp x1 y1) eqn:E1; try done.
  - apply py_cmp_eq in E1 as ->. destruct (py_cmp y1 z1) eqn:E2; eauto using py_cmp_trans.
  - intros _. destruct (py_cmp y1 z1) eqn:E2; try done.
    + apply py_cmp_eq in E2 as ->. by rewrite E1.
    + intros _. by rewrite (py_cmp_trans _ _ _ E1 E2).
Qed.

Lemma py_le_fst {A B : Type} `{!PyOrd A} `{!PyOrd B} (x x' : A) (y y' : B) :
  py_le (x, y) (x', y') = true → py_le x x' = true.
Proof. unfold py_le. simpl. by destruct (py_cmp x x'). Qed.

Lemma py_le_snd {A B : Type} `{!PyOrd A} `{!PyOrd B} (x : A) (y y' : B) :
  py_le (x, y) (x, y') = py_le y y'.
Proof. unfold py_le. simpl. by rewrite py_cmp_refl. Qed.

(** ** [sorted(xs, key=k)]: the stable sort *)

Section sort.
Context {A K : Type} `{PyOrd K} (k : A → K).

Fixpoint insert_by (x : A) (l : list A) : list A :=
  match l with
  | [] => [x]
  | y :: l' => if py_le (k x) (k y) then x :: l else y :: insert_by x l'
  end.
Definition sort_by (l : list A) : list A := foldr insert_by [] l.

Lemma insert_by_perm x l : insert_by x l ≡ₚ x :: l.
Proof.
  induction l as [|y l IH]; simpl; [done|]. case_match; [done|].
  rewrite IH. apply Permutation_swap.
Qed.

Lemma sort_by_perm l : sort_by l ≡ₚ l.
Proof. induction l as [|x l IH]; simpl; [done|]. by rewrite insert_by_perm, IH. Qed.

Definition sorted_by (l : list A) : Prop :=
  ∀ i j x y, i < j → l !! i = Some x → l !! j = Some y → py_le (k x) (k y) = true.

Lemma sorted_by_cons x l :
  sorted_by (x :: l) ↔ (∀ y, y ∈ l → py_le (k x) (k y) = true) ∧ sorted_by l.
Proof.
  split.
  - intros Hs. split.
    + intros y [j Hj]%list_elem_of_lookup. apply (Hs 0 (S j)); simpl; auto; lia.
    + intros i j y z ? Hi Hj. apply (Hs (S i) (S j)); simpl; auto; lia.
  - intros [Hx Hs] [|i] [|j] y z ? Hi Hj; simpl in *; try lia.
    + simplify_eq. apply Hx, list_elem_of_lookup. eauto.
    + apply (Hs i j); auto; lia.
Qed.

Lemma insert_by_sorted x l : sorted_by l → sorted_by (insert_by x l).
Proof.
  induction l as [|y l IH]; simpl; intros Hl.
  - apply sorted_by_cons. split; [set_solver|]. by intros ????? [=].
  - apply sorted_by_cons in Hl as [Hy Hl]. destruct (py_le (k x) (k y)) eqn:E.
    + apply sorted_by_cons. split.
      * intros z [->|Hz]%elem_of_cons; [done|]. eapply py_le_trans; eauto.
      * by apply sorted_by_cons.
    + apply sorted_by_cons. split; [|by apply IH].
      intros z Hz. rewrite insert_by_perm in Hz. apply elem_of_cons in Hz as [->|Hz].
      * destruct (py_le_total (k x) (k y)); congruence.
      * auto.
Qed.

Lemma sort_by_sorted l : sorted_by (sort_by l).
Proof.
  induction l as [|x l IH]; simpl; [by intros ????? [=]|]. by apply insert_by_sorted.
Qed.

Lemma elem_of_sort_by x l : x ∈ sort_by l ↔ x ∈ l.
Proof. by rewrite sort_by_perm. Qed.

(** The head of a sorted list is a minimum. *)
Lemma sort_by_head_min x l r :
  sort_by l = x :: r → ∀ y, y ∈ l → py_le (k x) (k y) = true.
Proof.
  intros Hs y Hy. apply elem_of_sort_by in Hy. pose proof (sort_by_sorted l) as Hsorted.
  rewrite Hs in *. apply sorted_by_cons in Hsorted as [Hx _].
  apply elem_of_cons in Hy as [->|]; auto using py_le_refl.
Qed.
End sort.

(** Sorting a sorted list, a mapped list, and two orders of one list whose keys differ. *)
Lemma sort_by_id {A K} `{PyOrd K} (k : A → K) l : sorted_by k l → sort_by k l = l.
Proof.
  induction l as [|x l IH]; [done|]. intros [Hx Hl]%sorted_by_cons.
  change (insert_by k x (sort_by k l) = x :: l). rewrite IH by done. destruct l as [|y l]; [done|].
  cbn. by rewrite (Hx y) by by left.
Qed.
Lemma sort_by_map {A B K} `{PyOrd K} (f : A → B) (k : B → K) (k' : A → K) l :
  (∀ x, k (f x) = k' x) → sort_by k (map f l) = map f (sort_by k' l).
Proof.
  intros Hk. induction l as [|x l IH]; [done|].
  change (insert_by k (f x) (sort_by k (map f l)) = map f (insert_by k' x (sort_by k' l))).
  rewrite IH. generalize (sort_by k' l) as m. intros m. clear -Hk.
  induction m as [|y m IH]; [done|]. cbn. rewrite !Hk. destruct (py_le _ _); [done|]. cbn. by rewrite IH.
Qed.
Lemma sorted_by_eq {A K} `{PyOrd K} (k : A → K) l l' :
  sorted_by k l → sorted_by k l' → NoDup (map k l) → l ≡ₚ l' → l = l'.
Proof.
  revert l'. induction l as [|x l IH]; intros l' Hl Hl' Hnd Hp; [by apply Permutation_nil in Hp as ->|].
  destruct l' as [|y m]; [by symmetry in Hp; apply Permutation_nil in Hp|].
  assert (x = y) as <-.
  { apply sorted_by_cons in Hl as [Hx _], Hl' as [Hy _].
    assert (y ∈ x :: l) as [->|Hyl]%elem_of_cons by (rewrite Hp; by left); [done|].
    assert (x ∈ y :: m) as [->|Hxm]%elem_of_cons by (rewrite <-Hp; by left); [done|].
    exfalso. apply NoDup_cons in Hnd as [Hn _]. apply Hn.
    rewrite (py_le_antisym (k x) (k y)) by auto. by apply list_elem_of_fmap_2. }
  f_equal. apply sorted_by_cons in Hl as [_ Hl], Hl' as [_ Hl']. apply NoDup_cons in Hnd as [_ Hnd].
  apply IH; [done..|]. by apply Permutation_cons_inv in Hp.
Qed.
Lemma sort_by_order {A K} `{PyOrd K} (k : A → K) l l' : NoDup (map k l) → l ≡ₚ l' → sort_by k l = sort_by k l'.
Proof.
  intros Hnd Hp. apply (sorted_by_eq k); [apply sort_by_sorted..| |by rewrite !sort_by_perm].
  by rewrite sort_by_perm.
Qed.

(** ** Automation *)

(** Case analysis on every [match]/[if] scrutinee in sight. *)
Ltac case_all :=
  repeat (case_match; simplify_eq/=).

(** Turn boolean tests in the context into propositions. *)
Ltac bool_prop :=
  repeat match goal with
  | H : _ && _ = true |- _ => apply andb_true_iff in H as [??]
  | H : _ || _ = false |- _ => apply orb_false_iff in H as [??]
  | H : negb _ = true |- _ => apply negb_true_iff in H
  | H : negb _ = false |- _ => apply negb_false_iff in H
  | H : bool_decide _ = true |- _ => apply bool_decide_eq_true in H
  | H : bool_decide _ = false |- _ => apply bool_decide_eq_false in H
  | H : (_ <? _)%Z = true |- _ => apply Z.ltb_lt in H
  | H : (_ <? _)%Z = false |- _ => apply Z.ltb_ge in H
  | H : (_ <=? _)%Z = true |- _ => apply Z.leb_le in H
  | H : (_ <=? _)%Z = false |- _ => apply Z.leb_gt in H
  end.

Create HintDb omni.
#[export] Hint Resolve py_le_refl py_lt_le : omni.
Create Rewrite HintDb omni_rw.
#[export] Hint Rewrite @elem_of_select : omni_rw.
