(* ===== verification/PyString.v ===== *)
(** * PyString: the Python [str] operations the modelled code uses

    A [str] is a [string] whose characters are read as the code points 0-255
    (the Latin-1 range); code points above are outside the model.  Every
    operation below follows CPython on that range. *)

From Stdlib Require Import Ascii.
From stdpp Require Import pretty.
From S2P Require Import Prelude.

Abbreviation code := nat_of_ascii.

(** [str.isspace] on one character. *)
Definition is_space (c : ascii) : bool :=
  let n := code c in
  (9 <=? n) && (n <=? 13) || (28 <=? n) && (n <=? 32) || (n =? 133) || (n =? 160).

Fixpoint lstrip_by (p : ascii → bool) (s : string) : string :=
  match s with
  | EmptyString => EmptyString
  | String c s' => if p c then lstrip_by p s' else s
  end.

Fixpoint rstrip_by (p : ascii → bool) (s : string) : string :=
  match s with
  | EmptyString => EmptyString
  | String c s' =>
      match rstrip_by p s' with
      | EmptyString => if p c then EmptyString else String c EmptyString
      | r => String c r
      end
  end.

Definition strip_by (p : ascii → bool) (s : string) : string := rstrip_by p (lstrip_by p s).

(** [s.strip()] *)
Definition strip : string → string := strip_by is_space.

Fixpoint existsb_str (p : ascii → bool) (s : string) : bool :=
  match s with EmptyString => false | String c s' => p c || existsb_str p s' end.
Definition forallb_str (p : ascii → bool) (s : string) : bool :=
  negb (existsb_str (λ c, negb (p c)) s).

(** [c in s] for a one-character [c]. *)
Definition has_char (c : ascii) (s : string) : bool := existsb_str (Ascii.eqb c) s.

(** [re.sub] of a character class and [str.replace] of one character by one. *)
Fixpoint map_str (f : ascii → ascii) (s : string) : string :=
  match s with EmptyString => EmptyString | String c s' => String (f c) (map_str f s') end.
Definition replace_char (a b : ascii) : string → string :=
  map_str (λ c, if Ascii.eqb c a then b else c).

(** [s.startswith(p)] *)
Fixpoint startswith (p s : string) : bool :=
  match p, s with
  | EmptyString, _ => true
  | String a p', String b s' => Ascii.eqb a b && startswith p' s'
  | String _ _, EmptyString => false
  end.

(** [s[n:]] *)
Fixpoint drop_str (n : nat) (s : string) : string :=
  match n, s with
  | S n, String _ s' => drop_str n s'
  | _, _ => s
  end.

(** [s.split(sep)] for a one-character separator. *)
Fixpoint split (sep : ascii) (s : string) : list string :=
  match s with
  | EmptyString => [EmptyString]
  | String c s' =>
      if Ascii.eqb c sep then EmptyString :: split sep s'
      else match split sep s' with
           | [] => [String c EmptyString]
           | w :: ws => String c w :: ws
           end
  end.

(** [text.split()] *)
Fixpoint split_space (s : string) : list string :=
  match s with
  | "" => []
  | String c s' =>
      if is_space c then split_space s'
      else match s' with
           | "" => [String c ""]
           | String d _ =>
               if is_space d then String c "" :: split_space s'
               else match split_space s' with w :: ws => String c w :: ws | [] => [String c ""] end
           end
  end.

(** [sep.join(parts)] *)
Definition join (sep : string) (parts : list string) : string := String.concat sep parts.

Definition is_upper (c : ascii) : bool := (65 <=? code c) && (code c <=? 90).
Definition is_lower (c : ascii) : bool := (97 <=? code c) && (code c <=? 122).
Definition is_digit (c : ascii) : bool := (48 <=? code c) && (code c <=? 57).
Definition is_alpha (c : ascii) : bool := is_upper c || is_lower c.

(** [str.lower] and [str.casefold]: 'A'-'Z', and the Latin-1 capitals
    192-222 except the multiplication sign.  (The two code points on which
    [casefold] leaves the one-character Latin-1 range, 181 and 223, map to
    themselves: no comparison of the modelled code can tell.) *)
Definition lower_char (c : ascii) : ascii :=
  let n := code c in
  if is_upper c || ((192 <=? n) && (n <=? 222) && negb (n =? 215))
  then ascii_of_nat (n + 32) else c.
Definition lower : string → string := map_str lower_char.
Definition casefold : string → string := lower.

(** ** [repr] of a string *)

Definition hex_digit (n : nat) : ascii :=
  ascii_of_nat (if n <? 10 then 48 + n else 87 + n).

Definition is_printable (c : ascii) : bool :=
  let n := code c in
  (32 <=? n) && negb ((127 <=? n) && (n <=? 160)) && negb (n =? 173).

Definition backslash : ascii := ascii_of_nat 92.
Definition squote : ascii := ascii_of_nat 39.
Definition dquote : ascii := ascii_of_nat 34.

Definition repr_char (quote c : ascii) : string :=
  if Ascii.eqb c quote || Ascii.eqb c backslash then String backslash (String c "")
  else if code c =? 9 then String backslash "t"
  else if code c =? 10 then String backslash "n"
  else if code c =? 13 then String backslash "r"
  else if is_printable c then String c ""
  else String backslash (String "x" (String (hex_digit (code c / 16))
         (String (hex_digit (code c mod 16)) ""))).

Fixpoint concat_map_str (f : ascii → string) (s : string) : string :=
  match s with EmptyString => "" | String c s' => f c +:+ concat_map_str f s' end.

(** [repr(s)], the [!r] of an f-string. *)
Definition repr (s : string) : string :=
  let quote := if has_char squote s && negb (has_char dquote s) then dquote else squote in
  String quote (concat_map_str (repr_char quote) s) +:+ String quote "".

(** [s.endswith(suffix)] *)
Fixpoint endswith (suffix s : string) : bool :=
  bool_decide (s = suffix) || match s with "" => false | String _ s => endswith suffix s end.

(** ** Lemmas *)

Lemma lstrip_by_id p s : (∀ c s', s = String c s' → p c = false) → lstrip_by p s = s.
Proof. destruct s as [|c s]; simpl; [done|]. intros Hp. by rewrite (Hp c s). Qed.

Lemma rstrip_by_cons p c s :
  rstrip_by p s ≠ "" → rstrip_by p (String c s) = String c (rstrip_by p s).
Proof. intros H. simpl. by destruct (rstrip_by p s). Qed.

Lemma rstrip_by_app p s c : p c = false → rstrip_by p (s +:+ String c "") = s +:+ String c "".
Proof.
  intros Hc. induction s as [|d s IH].
  - simpl. by rewrite Hc.
  - change (String d s +:+ String c "") with (String d (s +:+ String c "")).
    rewrite rstrip_by_cons; rewrite IH; [done|]. by destruct s.
Qed.

Lemma existsb_str_app p s1 s2 : existsb_str p (s1 +:+ s2) = existsb_str p s1 || existsb_str p s2.
Proof.
  induction s1 as [|c s1 IH]; [done|].
  change (String c s1 +:+ s2) with (String c (s1 +:+ s2)). simpl.
  by rewrite IH, orb_assoc.
Qed.

Lemma has_char_app c s1 s2 : has_char c (s1 +:+ s2) = has_char c s1 || has_char c s2.
Proof. apply existsb_str_app. Qed.

Lemma replace_char_id a b s : has_char a s = false → replace_char a b s = s.
Proof.
  unfold has_char, replace_char. induction s as [|c s IH]; simpl; [done|].
  intros [Hac Hs]%orb_false_iff. rewrite IH by done.
  by rewrite Ascii.eqb_sym, Hac.
Qed.

Lemma split_no_sep sep s : has_char sep s = false → split sep s = [s].
Proof.
  unfold has_char. induction s as [|c s IH]; simpl; [done|].
  intros [Hc Hs]%orb_false_iff. rewrite Ascii.eqb_sym, Hc. by rewrite IH.
Qed.

Lemma split_nonempty sep s : split sep s ≠ [].
Proof. destruct s; simpl; [done|]. case_match; [done|]. by case_match. Qed.

Lemma split_app sep s1 s2 :
  has_char sep s1 = false → split sep (s1 +:+ String sep s2) = s1 :: split sep s2.
Proof.
  unfold has_char. induction s1 as [|c s1 IH].
  - simpl. by rewrite Ascii.eqb_refl.
  - change (String c s1 +:+ String sep s2) with (String c (s1 +:+ String sep s2)). simpl.
    intros [Hc Hs]%orb_false_iff. rewrite Ascii.eqb_sym, Hc. by rewrite IH.
Qed.

Lemma join_cons2 sep x y l : join sep (x :: y :: l) = x +:+ sep +:+ join sep (y :: l).
Proof. done. Qed.

(** Splitting undoes joining when no part holds the separator. *)
Lemma split_join (sep : ascii) parts :
  parts ≠ [] → Forall (λ w, has_char sep w = false) parts →
  split sep (join (String sep "") parts) = parts.
Proof.
  intros Hne Hall. induction Hall as [|w parts Hw Hall IH]; [done|].
  destruct parts as [|w' parts].
  - simpl. by apply split_no_sep.
  - rewrite join_cons2. change (String sep "" +:+ ?x) with (String sep x).
    rewrite split_app by done. f_equal. by apply IH.
Qed.

Lemma has_char_join c sep parts :
  has_char c sep = false → Forall (λ w, has_char c w = false) parts →
  has_char c (join sep parts) = false.
Proof.
  intros Hsep Hall. induction Hall as [|w parts Hw Hall IH]; [done|].
  destruct parts as [|w' parts]; [done|].
  rewrite join_cons2, !has_char_app, Hw, Hsep. exact IH.
Qed.

Lemma split_no_char sep s w : w ∈ split sep s → has_char sep w = false.
Proof.
  unfold has_char. revert w. induction s as [|c s IH]; intros w; simpl.
  - by intros ->%list_elem_of_singleton.
  - destruct (Ascii.eqb c sep) eqn:E.
    + intros [->|]%elem_of_cons; auto.
    + destruct (split sep s) as [|w' ws] eqn:Es; [by apply split_nonempty in Es|].
      intros [->|Hw]%elem_of_cons; simpl.
      * rewrite Ascii.eqb_sym, E. apply IH. by left.
      * apply IH. by right.
Qed.

Lemma split_has_char c sep s :
  has_char c s = false → Forall (λ w, has_char c w = false) (split sep s).
Proof.
  unfold has_char. induction s as [|d s IH]; simpl; [by repeat constructor|].
  intros [Hd Hs]%orb_false_iff. specialize (IH Hs).
  case_match; [by constructor|]. destruct (split sep s) as [|w ws]; simpl.
  - constructor; [|done]. simpl. by rewrite Hd.
  - inversion IH; subst. constructor; [|done]. simpl. by rewrite Hd.
Qed.

Lemma string_app_cons c s1 s2 : String c s1 +:+ s2 = String c (s1 +:+ s2).
Proof. done. Qed.
Lemma string_app_nil_r s : s +:+ "" = s.
Proof. induction s as [|c s IH]; [done|]. by rewrite string_app_cons, IH. Qed.
Lemma string_app_assoc s1 s2 s3 : (s1 +:+ s2) +:+ s3 = s1 +:+ s2 +:+ s3.
Proof. induction s1 as [|c s1 IH]; [done|]. by rewrite !string_app_cons, IH. Qed.
Lemma string_length_app s1 s2 : String.length (s1 +:+ s2) = String.length s1 + String.length s2.
Proof. induction s1 as [|c s1 IH]; [done|]. rewrite string_app_cons. simpl. by rewrite IH. Qed.

Create Rewrite HintDb pystr.
#[export] Hint Rewrite string_app_cons string_app_nil_r string_app_assoc has_char_app : pystr.

(** [str.splitlines] for code points up to 255. *)
Definition is_line_break (c : ascii) : bool := bool_decide (code c ∈ [10; 11; 12; 13; 28; 29; 30; 133]).
Fixpoint splitlines (s : string) : list string :=
  match s with
  | "" => []
  | String c s' =>
      if is_line_break c then
        match s' with
        | String d s'' => if (code c =? 13) && (code d =? 10) then "" :: splitlines s'' else "" :: splitlines s'
        | "" => [""]
        end
      else match splitlines s' with [] => [String c ""] | l :: ls => String c l :: ls end
  end.

(** ** Texts that can be cut again *)

Lemma concat_cons x l : String.concat "" (x :: l) = x +:+ String.concat "" l.
Proof. destruct l; simpl; [by rewrite string_app_nil_r|done]. Qed.

Lemma app_sep_inj sep s1 s2 r1 r2 :
  has_char sep s1 = false → has_char sep s2 = false →
  s1 +:+ String sep r1 = s2 +:+ String sep r2 → s1 = s2 ∧ r1 = r2.
Proof.
  revert s2. induction s1 as [|c s1 IH]; intros [|d s2] H1 H2 Heq.
  - by injection Heq.
  - injection Heq as <- _. unfold has_char in H2. simpl in H2. by rewrite Ascii.eqb_refl in H2.
  - injection Heq as -> _. unfold has_char in H1. simpl in H1. by rewrite Ascii.eqb_refl in H1.
  - injection Heq as <- Heq. unfold has_char in H1, H2. simpl in H1, H2.
    apply orb_false_iff in H1 as [_ H1], H2 as [_ H2]. destruct (IH s2) as [-> ->]; auto.
Qed.

Lemma app_length_inj (p1 p2 r1 r2 : string) :
  String.length p1 = String.length p2 → p1 +:+ r1 = p2 +:+ r2 → p1 = p2 ∧ r1 = r2.
Proof.
  revert p2. induction p1 as [|c p1 IH]; intros [|d p2] Hl Heq; simplify_eq/=; [done|].
  destruct (IH p2) as [-> ->]; auto.
Qed.

Lemma pretty_char_digit n : is_digit (pretty_N_char n) = true.
Proof. destruct n as [|p]; [done|]. by do 4 (destruct p as [p|p|]; try done). Qed.

Lemma pretty_go_no_char c x s :
  is_digit c = false → has_char c s = false → has_char c (pretty_N_go x s) = false.
Proof.
  intros Hc. revert s. induction (N.lt_wf_0 x) as [x _ IH]; intros s Hs.
  destruct (decide (x = 0)%N) as [->|Hx]; [by rewrite pretty_N_go_0|].
  rewrite pretty_N_go_step by lia. apply IH; [apply N.div_lt; lia|].
  unfold has_char in *. simpl. rewrite Hs, orb_false_r. apply Ascii.eqb_neq. intros ->.
  by rewrite pretty_char_digit in Hc.
Qed.

(** A decimal number holds digits only. *)
Lemma pretty_no_char c (n : nat) : is_digit c = false → has_char c (pretty n) = false.
Proof.
  intros Hc. unfold pretty, pretty_nat, pretty, pretty_N. case_decide as Hn.
  - unfold has_char. simpl. rewrite orb_false_r. apply Ascii.eqb_neq. by intros ->.
  - by apply pretty_go_no_char.
Qed.
