(* ===== verification/PyPath.v ===== *)
(** * PyPath: [posixpath] and climbing a path to its root

    [dirname], [basename], [join] and [isabs] as [posixpath] computes them, and
    the loop shape [while True: ... parent = dirname(node); if parent == node:
    ...; node = parent] with the measure that makes it terminate. *)

From Stdlib Require Import Ascii.
From S2P Require Import Prelude PyString.

Definition slash : ascii := ascii_of_nat 47.
Definition is_slash (c : ascii) : bool := Ascii.eqb c slash.
Definition sep : string := String slash "".

(** [p[:p.rfind('/')+1], p[p.rfind('/')+1:]] *)
Fixpoint rsplit_slash (p : string) : string * string :=
  match p with
  | EmptyString => (EmptyString, EmptyString)
  | String c p' =>
      let '(h, t) := rsplit_slash p' in
      match h with
      | EmptyString => if is_slash c then (String c h, t) else (EmptyString, String c t)
      | _ => (String c h, t)
      end
  end.

Definition dirname (p : string) : string :=
  let head := (rsplit_slash p).1 in
  if forallb_str is_slash head then head else rstrip_by is_slash head.

Definition basename (p : string) : string := (rsplit_slash p).2.

Definition isabs (p : string) : bool := startswith sep p.

Definition endswith_slash (p : string) : bool :=
  match basename p with EmptyString => negb (bool_decide (p = "")) | _ => false end.

(** [os.path.join(a, b)] *)
Definition path_join (a b : string) : string :=
  if isabs b then b
  else if bool_decide (a = "") || endswith_slash a then a +:+ b
  else a +:+ sep +:+ b.

Definition path_join_all (a : string) (parts : list string) : string :=
  foldl path_join a parts.

Lemma rsplit_slash_app p : (rsplit_slash p).1 +:+ (rsplit_slash p).2 = p.
Proof.
  induction p as [|c p IH]; [done|]. simpl. destruct (rsplit_slash p) as [h t]. simpl in *.
  destruct h as [|d h]; [destruct (is_slash c)|]; simpl; rewrite ?string_app_cons;
    by rewrite <-IH.
Qed.

Lemma rstrip_by_length p s :
  String.length (rstrip_by p s) < String.length s ∨ rstrip_by p s = s.
Proof.
  induction s as [|c s IH]; simpl; [by right|].
  destruct (rstrip_by p s) as [|d r] eqn:E.
  - destruct (p c); [left; simpl; lia|]. destruct s; simpl in *; [by right|left; lia].
  - destruct IH as [IH| ->]; [left; simpl in *; lia|by right].
Qed.

(** Climbing makes the path strictly shorter until it reaches its root. *)
Lemma dirname_shorter p : dirname p ≠ p → String.length (dirname p) < String.length p.
Proof.
  unfold dirname. pose proof (rsplit_slash_app p) as Hp.
  destruct (rsplit_slash p) as [h t]; simpl in *.
  assert (String.length p = String.length h + String.length t) as Hl
    by (rewrite <-Hp; apply string_length_app).
  assert (h ≠ p → String.length h < String.length p) as Hh.
  { intros Hne. destruct t as [|c t]; [|simpl in *; lia].
    by rewrite string_app_nil_r in Hp. }
  case_match; [done|]. intros Hne.
  destruct (rstrip_by_length is_slash h) as [|Hr]; [lia|]. rewrite Hr in *. auto.
Qed.

(** ** The climbing loop *)

Section climb.
Context {A : Type} (visit : string → list string → option A) (at_root : A).

(** [visit node acc] leaves the loop with a value or lets it climb; [acc]
    collects the basenames climbed over, the last one first. *)
Fixpoint climb (fuel : nat) (node : string) (acc : list string) : option A :=
  match fuel with
  | 0 => None
  | S fuel =>
      match visit node acc with
      | Some a => Some a
      | None =>
          let parent := dirname node in
          if bool_decide (parent = node) then Some at_root
          else climb fuel parent (acc ++ [basename node])
      end
  end.

Lemma climb_total fuel node acc : String.length node < fuel → is_Some (climb fuel node acc).
Proof.
  revert node acc. induction fuel as [|fuel IH]; intros node acc Hf; [lia|]. simpl.
  destruct (visit node acc); [done|]. case_bool_decide as Hd; [done|].
  apply IH. apply dirname_shorter in Hd. lia.
Qed.

Lemma climb_fuel fuel fuel' node acc :
  String.length node < fuel → String.length node < fuel' →
  climb fuel node acc = climb fuel' node acc.
Proof.
  revert fuel' node acc. induction fuel as [|fuel IH]; intros [|fuel'] node acc ??; [lia..|].
  simpl. destruct (visit node acc); [done|]. case_bool_decide as Hd; [done|].
  apply dirname_shorter in Hd. apply IH; lia.
Qed.

(** [while True], run with the fuel that always suffices. *)
Definition climb_loop (node : string) (acc : list string) : A :=
  default at_root (climb (S (String.length node)) node acc).

(** The [n] basenames climbed over from [node]. *)
Fixpoint climbed (n : nat) (node : string) : list string :=
  match n with 0 => [] | S n => basename node :: climbed n (dirname node) end.

Definition ancestor (n : nat) (node : string) : string := Nat.iter n dirname node.

(** A loop that leaves with a value other than by reaching the root left it
    at an ancestor, with the basenames on the way as accumulator. *)
Lemma climb_loop_visit node acc a :
  climb_loop node acc = a →
  (∃ n, visit (ancestor n node) (acc ++ climbed n node) = Some a ∧
        ∀ m, m < n → visit (ancestor m node) (acc ++ climbed m node) = None) ∨
  (a = at_root ∧ ∃ n, dirname (ancestor n node) = ancestor n node ∧
        ∀ m, m ≤ n → visit (ancestor m node) (acc ++ climbed m node) = None).
Proof.
  unfold climb_loop. assert (∃ fuel, fuel = S (String.length node)) as [fuel Hf] by eauto.
  rewrite <-Hf. assert (String.length node < fuel) as Hlt by lia. clear Hf.
  revert node acc Hlt. induction fuel as [|fuel IH]; intros node acc Hlt; [lia|]. simpl.
  destruct (visit node acc) as [b|] eqn:Ev; simpl.
  { intros <-. left. exists 0. simpl. rewrite app_nil_r. split; [done|lia]. }
  case_bool_decide as Hd; simpl.
  { intros <-. right. split; [done|]. exists 0. split; [done|].
    intros m ?. assert (m = 0) as -> by lia. simpl. by rewrite app_nil_r. }
  intros Ha. pose proof (dirname_shorter _ Hd).
  destruct (IH (dirname node) (acc ++ [basename node])) as [(n & Hn & Hm)|[-> (n & Hn & Hm)]];
    [lia|done| |].
  - left. exists (S n). unfold ancestor in *. rewrite Nat.iter_succ_r. simpl.
    rewrite <-app_assoc in Hn. split; [done|].
    intros [|m] ?; simpl; [by rewrite app_nil_r|].
    specialize (Hm m ltac:(lia)). rewrite <-app_assoc in Hm. by rewrite <-Nat.iter_succ, Nat.iter_succ_r.
  - right. split; [done|]. exists (S n). unfold ancestor in *.
    rewrite Nat.iter_succ_r. split; [done|].
    intros [|m] ?; simpl; [by rewrite app_nil_r|].
    specialize (Hm m ltac:(lia)). rewrite <-app_assoc in Hm. by rewrite <-Nat.iter_succ, Nat.iter_succ_r.
Qed.
End climb.

(** ** [posixpath.normpath] *)

(** One component; [kept] are the components so far, innermost first. *)
Definition norm_comp (rooted : bool) (kept : list string) (comp : string) : list string :=
  if bool_decide (comp = "") || bool_decide (comp = ".") then kept
  else if negb (bool_decide (comp = "..")) then comp :: kept
  else match kept with
       | [] => if rooted then [] else [".."]
       | last :: rest => if bool_decide (last = "..") then ".." :: kept else rest
       end.
Definition normpath (p : string) : string :=
  if bool_decide (p = "") then "."
  else
    let initial := if startswith "//" p && negb (startswith "///" p) then "//"
                   else if startswith "/" p then "/" else "" in
    let kept := foldl (norm_comp (startswith "/" p)) [] (split slash p) in
    match initial +:+ join "/" (rev kept) with "" => "." | s => s end.
