(* ===== verification/PathContainment.v ===== *)
(** * PathContainment: [omniagentos/path_containment.py]

    Containment decided by inode ancestry.  The operating system is a snapshot
    of the file system ([FileSystem]): what [os.lstat], [os.stat],
    [os.path.realpath], [os.path.abspath] and [os.path.expanduser] answer.
    The module promises its clients a way of comparing realms
    ([RealmIdentity]); the last section discharges that promise. *)

From S2P Require Import Prelude PyString PyPath.

(** [os.lstat]: a stat, [FileNotFoundError]/[NotADirectoryError], or another error. *)
Inductive lstat_outcome := LPresent | LMissing | LError.

Class FileSystem := {
  fs_lstat : string → lstat_outcome;
  (** [os.stat]: the (device, inode) pair, or [None] for [OSError]/[ValueError]. *)
  fs_stat : string → option (Z * Z);
  fs_realpath : string → option string;
  fs_abspath : string → string;
  (** [None]: the conversion raised. *)
  fs_expanduser : string → option string;
}.

(** What [scope.conflict] needs of this module. *)
Class RealmIdentity := {
  inode_paths_equal : string → string → option bool;
  inode_paths_equal_refl r : inode_paths_equal r r ≠ Some false;
}.

Section containment.
Context {FS : FileSystem}.

(** [os.path.samestat] *)
Definition samestat (a b : Z * Z) : bool := (a.1 =? b.1)%Z && (a.2 =? b.2)%Z.

Definition nearest_existing_visit (node : string) (_ : list string) : option (option string) :=
  match fs_lstat node with
  | LPresent => Some (Some node)
  | LMissing => None
  | LError => Some None
  end.

Definition nearest_existing (path : string) : option string :=
  match fs_expanduser path with
  | None => None
  | Some p => climb_loop nearest_existing_visit None (fs_abspath p) []
  end.

(** First loop of the decision: the nearest lexically existing ancestor and
    the missing components below it (innermost first). *)
Definition existing_visit (node : string) (missing : list string) :
    option (option (string * list string)) :=
  match fs_lstat node with
  | LPresent => Some (Some (node, missing))
  | LMissing => None
  | LError => Some None
  end.

(** Second loop: climb the canonical path until the root's inode is met. *)
Definition inode_visit (root_stat : Z * Z) (node : string) (canonical : list string) :
    option (option bool * option (list string)) :=
  match fs_stat node with
  | None => Some (None, None)
  | Some node_stat =>
      if samestat node_stat root_stat then Some (Some true, Some (rev canonical)) else None
  end.

Definition inode_relative_parts_decision (candidate root : string) :
    option bool * option (list string) :=
  match fs_expanduser candidate, fs_expanduser root with
  | Some candidate_text, Some root_text =>
      if negb (isabs candidate_text) || negb (isabs root_text) then (None, None)
      else match fs_stat root_text with
      | None => (None, None)
      | Some root_stat =>
          match climb_loop existing_visit None (fs_abspath candidate_text) [] with
          | None => (None, None)
          | Some (node, missing_parts) =>
              match fs_realpath node with
              | None => (None, None)
              | Some real =>
                  match climb_loop (inode_visit root_stat) (Some false, None) real [] with
                  | (Some true, Some parts) => (Some true, Some (parts ++ rev missing_parts))
                  | d => d
                  end
              end
          end
      end
  | _, _ => (None, None)
  end.

Definition inode_relative_parts (candidate root : string) : option (list string) :=
  match inode_relative_parts_decision candidate root with
  | (Some true, parts) => parts
  | _ => None
  end.

Definition paths_equal (candidate reference : string) : option bool :=
  match nearest_existing reference with
  | None => None
  | Some anchor =>
      match inode_relative_parts_decision reference anchor with
      | (Some true, Some reference_parts) =>
          match inode_relative_parts_decision candidate anchor with
          | (None, _) => None
          | (Some false, _) | (_, None) => Some false
          | (Some true, Some candidate_parts) =>
              Some (bool_decide (candidate_parts = reference_parts))
          end
      | _ => None
      end
  end.

Definition anchored_decision (candidate root : string) : option bool * option (list string) :=
  match nearest_existing root with
  | None => (None, None)
  | Some anchor =>
      let '(root_decision, root_parts) := inode_relative_parts_decision root anchor in
      let '(candidate_decision, candidate_parts) :=
        inode_relative_parts_decision candidate anchor in
      match root_decision, root_parts, candidate_decision with
      | Some true, Some root_parts, Some decided =>
          match decided, candidate_parts with
          | true, Some candidate_parts =>
              if bool_decide (take (length root_parts) candidate_parts = root_parts)
              then (Some true, Some (drop (length root_parts) candidate_parts))
              else (Some false, None)
          | _, _ => (Some false, None)
          end
      | _, _, _ => (None, None)
      end
  end.

Definition inode_path_is_within_anchored (candidate root : string) : option bool :=
  (anchored_decision candidate root).1.

Definition inode_relative_parts_anchored (candidate root : string) : option (list string) :=
  match anchored_decision candidate root with
  | (Some true, parts) => parts
  | _ => None
  end.

(** ** The interface *)

Lemma paths_equal_refl r : paths_equal r r ≠ Some false.
Proof.
  unfold paths_equal. destruct (nearest_existing r) as [anchor|]; [|done].
  destruct (inode_relative_parts_decision r anchor) as [[[]|] [parts|]]; try done.
  by rewrite bool_decide_true.
Qed.

Lemma samestat_eq a b : samestat a b = true ↔ a = b.
Proof.
  unfold samestat. rewrite andb_true_iff, !Z.eqb_eq.
  destruct a, b; simpl. naive_solver.
Qed.

(** ** What the decision proves *)

(** [parts] lead from an ancestor with [root]'s inode down to [candidate]. *)
Definition contained_below (candidate root : string) (parts : list string) : Prop :=
  ∃ c r root_stat m node real n,
    fs_expanduser candidate = Some c ∧ fs_expanduser root = Some r ∧
    isabs c = true ∧ isabs r = true ∧
    fs_stat r = Some root_stat ∧
    node = ancestor m (fs_abspath c) ∧ fs_lstat node = LPresent ∧
    fs_realpath node = Some real ∧
    fs_stat (ancestor n real) = Some root_stat ∧
    parts = rev (climbed n real) ++ rev (climbed m (fs_abspath c)).

(** No ancestor of the canonical candidate, itself included, is [root]. *)
Definition outside (candidate root : string) : Prop :=
  ∃ c r root_stat m real n,
    fs_expanduser candidate = Some c ∧ fs_expanduser root = Some r ∧
    fs_stat r = Some root_stat ∧
    fs_realpath (ancestor m (fs_abspath c)) = Some real ∧
    dirname (ancestor n real) = ancestor n real ∧
    ∀ k, k ≤ n → ∃ st, fs_stat (ancestor k real) = Some st ∧ st ≠ root_stat.

Lemma existing_loop p node missing :
  climb_loop existing_visit None p [] = Some (node, missing) →
  ∃ m, node = ancestor m p ∧ fs_lstat node = LPresent ∧ missing = climbed m p.
Proof.
  intros H. apply climb_loop_visit in H as [(m & Hm & _)|[? _]]; [|done].
  unfold existing_visit in Hm. simpl in Hm. case_match; simplify_eq. eauto.
Qed.

Lemma inode_loop rs real d :
  climb_loop (inode_visit rs) (Some false, None) real [] = d →
  match d with
  | (Some true, Some parts) =>
      ∃ n, fs_stat (ancestor n real) = Some rs ∧ parts = rev (climbed n real)
  | (Some true, None) => False
  | (Some false, _) =>
      ∃ n, dirname (ancestor n real) = ancestor n real ∧
        ∀ k, k ≤ n → ∃ st, fs_stat (ancestor k real) = Some st ∧ st ≠ rs
  | (None, _) => True
  end.
Proof.
  intros H. apply climb_loop_visit in H as [(n & Hn & _)|[-> (n & Hn & Hk)]].
  - unfold inode_visit in Hn. simpl in Hn.
    destruct (fs_stat (ancestor n real)) as [st|] eqn:Est; [|by simplify_eq].
    destruct (samestat st rs) eqn:Es; simplify_eq. apply samestat_eq in Es as ->. eauto.
  - exists n. split; [done|]. intros k Hle. specialize (Hk k Hle). unfold inode_visit in Hk.
    destruct (fs_stat (ancestor k real)) as [st|]; [|done]. exists st. split; [done|].
    intros ->. by rewrite (proj2 (samestat_eq rs rs) eq_refl) in Hk.
Qed.

Lemma decision_spec candidate root :
  match inode_relative_parts_decision candidate root with
  | (Some true, Some parts) => contained_below candidate root parts
  | (Some true, None) => False
  | (Some false, _) => outside candidate root
  | (None, _) => True
  end.
Proof.
  unfold inode_relative_parts_decision.
  destruct (fs_expanduser candidate) as [c|] eqn:Ec; [|done].
  destruct (fs_expanduser root) as [r|] eqn:Er; [|done].
  destruct (isabs c) eqn:Eac; [|done]. destruct (isabs r) eqn:Ear; [|done]. simpl.
  destruct (fs_stat r) as [rs|] eqn:Ers; [|done].
  destruct (climb_loop existing_visit None (fs_abspath c) []) as [[node missing]|] eqn:El;
    [|done].
  apply existing_loop in El as (m & -> & Hpres & ->).
  destruct (fs_realpath _) as [real|] eqn:Ereal; [|done].
  pose proof (inode_loop rs real _ eq_refl) as Hin.
  destruct (climb_loop (inode_visit rs) _ real []) as [[[]|] [parts|]]; try done.
  - destruct Hin as (n & Hst & ->).
    exists c, r, rs, m, (ancestor m (fs_abspath c)), real, n. by split_and!.
  - destruct Hin as (n & Hd & Hk). exists c, r, rs, m, real, n. by split_and!.
  - destruct Hin as (n & Hd & Hk). exists c, r, rs, m, real, n. by split_and!.
Qed.
End containment.

#[export] Instance fs_realm_identity `{FileSystem} : RealmIdentity := {|
  inode_paths_equal := paths_equal;
  inode_paths_equal_refl := paths_equal_refl;
|}.
