(* ===== verification/ScopePaths.v ===== *)
(** * ScopePaths: [omniagentos/scope/paths.py]

    The realm-relative path algebra ([normalize_rel], [rel_text], [under],
    [overlap], [safe_component]) and the resolution of a path to its realm. *)

From Stdlib Require Import Ascii.
From S2P Require Import Prelude PyString PyPath.

(** The sites at which the module raises [ScopePathError] (or, for
    [safe_component], [ValueError]); the message text is not modelled. *)
Inductive scope_path_error :=
  | OwnedPathEmpty | OwnedPathNul | NotRealmRelative | EscapesRealm
  | UnsafeComponent | UnusableBase.

#[export] Instance scope_path_error_eq_dec : EqDecision scope_path_error.
Proof. solve_decision. Defined.

(** [str | Sequence[str]] *)
Inductive scope_path :=
  | PathStr (s : string)
  | PathParts (parts : list string).

Definition WHOLE_REALM : list string := [].

(** [_DRIVE_RE.match(text)] *)
Definition drive_match (s : string) : bool :=
  match s with
  | String c (String d _) => is_alpha c && Ascii.eqb d ":"
  | _ => false
  end.

Definition nul : ascii := ascii_of_nat 0.

(** The segment loop of [normalize_rel]; [parts] is the list built so far. *)
Fixpoint normalize_walk (segments parts : list string) : result scope_path_error (list string) :=
  match segments with
  | [] => Ok parts
  | segment :: rest =>
      if bool_decide (segment = "") || bool_decide (segment = ".") then normalize_walk rest parts
      else if bool_decide (segment = "..") then
        match parts with
        | [] => Err EscapesRealm
        | _ => normalize_walk rest (removelast parts)
        end
      else normalize_walk rest (parts ++ [segment])
  end.

Definition normalize_text (raw : string) : result scope_path_error (list string) :=
  let text := replace_char backslash slash (strip raw) in
  if bool_decide (text = "") then Err OwnedPathEmpty
  else if has_char nul text then Err OwnedPathNul
  else if startswith "/" text || startswith "~" text || drive_match text
  then Err NotRealmRelative
  else normalize_walk (split slash text) [].

Definition normalize_rel (path : scope_path) : result scope_path_error (list string) :=
  match path with
  | PathParts [] => Ok WHOLE_REALM
  | PathParts parts_in => normalize_text (join sep parts_in)
  | PathStr s => normalize_text s
  end.

Definition rel_text (components : list string) : string :=
  match components with [] => "." | _ => join sep components end.

(** [Path(value).name] for a posix path *)
Definition path_name (value : string) : string :=
  default "" (last (List.filter (λ w, negb (bool_decide (w = "") || bool_decide (w = ".")))
                                (split slash value))).

Definition safe_char (c : ascii) : bool :=
  is_alpha c || is_digit c || Ascii.eqb c "." || Ascii.eqb c "_" || Ascii.eqb c "-".

Definition safe_component (value : string) : result scope_path_error string :=
  let cleaned := map_str (λ c, if safe_char c then c else "_"%char) (strip value) in
  if bool_decide (cleaned = "") || bool_decide (cleaned = ".") || bool_decide (cleaned = "..")
     || negb (bool_decide (path_name value = value))
  then Err UnsafeComponent
  else Ok cleaned.

(** [_components]: a string is normalized, a sequence is taken as it is. *)
Definition components_of (value : scope_path) : result scope_path_error (list string) :=
  match value with
  | PathStr _ => normalize_rel value
  | PathParts parts => Ok parts
  end.

Definition parts_under (child parent : list string) : bool :=
  bool_decide (take (length parent) child = parent).
Definition parts_overlap (a b : list string) : bool :=
  let shorter := Nat.min (length a) (length b) in
  bool_decide (take shorter a = take shorter b).

Definition under (child parent : scope_path) : result scope_path_error bool :=
  child_parts ← components_of child;
  parent_parts ← components_of parent;
  Ok (parts_under child_parts parent_parts).

Definition overlap (a b : scope_path) : result scope_path_error bool :=
  a_parts ← components_of a;
  b_parts ← components_of b;
  Ok (parts_overlap a_parts b_parts).

(** ** Realms

    [RealmEnv] is what the process sees of its host: the platform, the
    environment variables, the file system calls, [git rev-parse
    --show-toplevel] and the bases registered at run time. *)

Record RealmEnv := {
  re_darwin : bool;
  re_getenv : string → option string;
  re_repo_root : string;
  (** [os.path.realpath(os.path.expanduser(text))], [None] when it raises *)
  re_realpath : string → option string;
  re_expanduser : string → string;
  re_isdir : string → bool;
  (** [None]: git failed, returned non-zero or printed nothing *)
  re_git_toplevel : string → option string;
  re_extra_bases : list (string * nat);
}.

Section realms.
Context (env : RealmEnv).

Definition casefold_path (path : string) : string :=
  if env.(re_darwin) then lower path else path.

Definition is_quote (c : ascii) : bool := Ascii.eqb c dquote || Ascii.eqb c squote.

Definition resolve_realpath (path : string) : option string :=
  let text := strip_by is_quote (strip path) in
  if bool_decide (text = "") then None else env.(re_realpath) text.

(** [os.environ.get(name) or fallback] *)
Definition environ_or (name fallback : string) : string :=
  match env.(re_getenv) name with
  | Some v => if bool_decide (v = "") then fallback else v
  | None => fallback
  end.

Definition var_root : string :=
  environ_or "OMNIAGENTOS_VAR_DIR" (path_join env.(re_repo_root) "var").

Definition raw_private_bases : list (string * nat) :=
  let repo := env.(re_repo_root) in
  [ (environ_or "OMNIAGENTOS_WORKSPACE_DIR" (path_join_all repo ["var"; "runs"]), 1);
    (path_join var_root "intake-workspace", 1);
    (path_join_all var_root ["swarm"; "worktrees"], 2);
    (path_join var_root "projects", 2);
    (path_join_all repo ["var"; "runs"], 1);
    (path_join_all repo ["var"; "intake-workspace"], 1);
    (path_join_all repo ["var"; "swarm"; "worktrees"], 2);
    (path_join_all repo ["var"; "projects"], 2) ].

(** [if entry not in bases: bases.append(entry)] *)
Definition add_base (bases : list (string * nat)) (entry : string * nat) : list (string * nat) :=
  if bool_decide (entry ∈ bases) then bases else bases ++ [entry].

Definition fold_raw_base (bases : list (string * nat)) (raw : string * nat) :
    list (string * nat) :=
  match resolve_realpath raw.1 with
  | None => bases
  | Some resolved => add_base bases (casefold_path resolved, raw.2)
  end.

Definition private_workspace_bases : list (string * nat) :=
  foldl add_base (foldl fold_raw_base [] raw_private_bases) env.(re_extra_bases).

(** The entry [register_private_base] adds; a negative depth is clamped. *)
Definition register_private_base (base : string) (depth : Z) :
    result scope_path_error (list (string * nat)) :=
  match resolve_realpath base with
  | None => Err UnusableBase
  | Some resolved => Ok (add_base env.(re_extra_bases) (casefold_path resolved, Z.to_nat depth))
  end.

Definition nearest_existing_dir (resolved : string) : option string :=
  climb_loop (λ node _, if env.(re_isdir) node then Some (Some node) else None)
             None resolved [].

Definition split_abs (path : string) : list string :=
  List.filter (λ part, negb (bool_decide (part = ""))) (split slash path).

(** [reference[:len(reference) - len(reference.lstrip(os.sep))] or os.sep] *)
Fixpoint leading_slashes (s : string) : string :=
  match s with
  | String c s' => if is_slash c then String c (leading_slashes s') else EmptyString
  | EmptyString => EmptyString
  end.
Definition join_abs (parts : list string) (reference : string) : string :=
  let root := leading_slashes reference in
  (if bool_decide (root = "") then sep else root) +:+ join sep parts.

(** The scan of [_private_realm]: the deepest matching base wins, the
    earliest one among equally deep bases. *)
Fixpoint private_scan (folded : string) (target : list string)
    (bases : list (string * nat)) (best : option (nat * string)) : option (nat * string) :=
  match bases with
  | [] => best
  | (base, depth) :: rest =>
      let base_parts := split_abs base in
      if negb (parts_under target base_parts) then private_scan folded target rest best
      else
        let realm_parts := take (length base_parts + depth) target in
        let candidate := (length base_parts, join_abs realm_parts folded) in
        let best' := match best with
          | None => Some candidate
          | Some b => if b.1 <? candidate.1 then Some candidate else best
          end in
        private_scan folded target rest best'
  end.

Definition private_realm (folded : string) : option string :=
  snd <$> private_scan folded (split_abs folded) private_workspace_bases None.

Definition realm_of (path : string) : option string :=
  match resolve_realpath path with
  | None => None
  | Some resolved =>
      let folded := casefold_path resolved in
      match private_realm folded with
      | Some private => Some private
      | None =>
          let top :=
            start ← nearest_existing_dir resolved;
            top ← env.(re_git_toplevel) start;
            resolve_realpath top in
          match top with
          | Some top_resolved => Some (casefold_path top_resolved)
          | None => Some folded
          end
      end
  end.

(** [inode_relative_parts] is the containment primitive of
    [path_containment.py], passed in by the client. *)
Definition resolve_into_realm
    (inode_relative_parts : string → string → option (list string))
    (candidate realm : string) : option (list string) :=
  match resolve_realpath realm with
  | None => None
  | Some realm_real =>
      let text := strip_by is_quote (strip candidate) in
      if bool_decide (text = "") then None
      else
        let expanded := env.(re_expanduser) text in
        let expanded := if isabs expanded then expanded else path_join realm_real expanded in
        inode_relative_parts expanded realm_real
  end.
End realms.

(** ** Lemmas *)

(** What a normalized component looks like; [ScopeClaim] checks the same. *)
Definition valid_component (part : string) : bool :=
  negb (bool_decide (part = "") || bool_decide (part = ".") || bool_decide (part = "..")
        || has_char slash part).

Lemma valid_component_spec part :
  valid_component part = true ↔
  part ≠ "" ∧ part ≠ "." ∧ part ≠ ".." ∧ has_char slash part = false.
Proof.
  unfold valid_component. rewrite negb_true_iff, !orb_false_iff, !bool_decide_eq_false. tauto.
Qed.

Lemma normalize_walk_forall (P : string → Prop) segments parts out :
  (∀ w, w ∈ segments → w ≠ "" → w ≠ "." → w ≠ ".." → P w) → Forall P parts →
  normalize_walk segments parts = Ok out → Forall P out.
Proof.
  revert parts. induction segments as [|w segments IH]; intros parts Hw Hp; simpl.
  { by intros [= <-]. }
  assert (∀ v, v ∈ segments → v ≠ "" → v ≠ "." → v ≠ ".." → P v) by set_solver.
  destruct (bool_decide (w = "")) eqn:E1, (bool_decide (w = ".")) eqn:E2; simpl; eauto.
  bool_prop. destruct (bool_decide (w = "..")) eqn:E3; bool_prop.
  - destruct parts as [|p parts]; [done|]. intros Hout.
    eapply IH; [done| |exact Hout]. rewrite Forall_forall in *. intros x Hx. apply Hp.
    rewrite (app_removelast_last (l:=p :: parts) "") by done. set_solver.
  - intros Hout. eapply IH; [done| |exact Hout]. apply Forall_app. split; [done|].
    constructor; [|done]. apply Hw; set_solver.
Qed.

Lemma normalize_walk_valid segments parts :
  Forall (λ w, valid_component w = true) segments →
  normalize_walk segments parts = Ok (parts ++ segments).
Proof.
  intros Hs. revert parts. induction Hs as [|w segments Hw Hs IH]; intros parts; simpl.
  { by rewrite app_nil_r. }
  apply valid_component_spec in Hw as (?&?&?&?).
  rewrite !bool_decide_false by done. simpl. by rewrite IH, <-app_assoc.
Qed.

Lemma components_split text out :
  normalize_walk (split slash text) [] = Ok out → Forall (λ w, valid_component w = true) out.
Proof.
  apply normalize_walk_forall; [|done]. intros w Hw ???.
  apply valid_component_spec. split_and!; try done. by eapply split_no_char.
Qed.

Lemma normalize_text_inv raw out :
  normalize_text raw = Ok out →
  let text := replace_char backslash slash (strip raw) in
  text ≠ "" ∧ has_char nul text = false ∧ startswith "/" text = false ∧
  startswith "~" text = false ∧ drive_match text = false ∧
  normalize_walk (split slash text) [] = Ok out.
Proof.
  unfold normalize_text. repeat (case_match; [done|]). intros Hw. bool_prop. by split_and!.
Qed.

(** Every component [normalize_rel] returns can be a [ScopeClaim] component. *)
Lemma normalize_text_valid raw out :
  normalize_text raw = Ok out → Forall (λ w, valid_component w = true) out.
Proof. intros (?&?&?&?&?&?)%normalize_text_inv. by eapply components_split. Qed.

(** The text of a claim that the wire format carries faithfully. *)
Definition wire_safe (text : string) : bool :=
  bool_decide (strip text = text) && negb (has_char backslash text) && negb (has_char nul text)
  && negb (startswith "~" text) && negb (drive_match text).

Definition wire_safe_components (components : list string) : bool :=
  match components with [] => true | _ => wire_safe (join sep components) end.

Lemma startswith_slash_join components :
  Forall (λ w, valid_component w = true) components → components ≠ [] →
  startswith "/" (join sep components) = false ∧ join sep components ≠ "".
Proof.
  intros Hc Hne. destruct Hc as [|w ws Hw _]; [done|].
  apply valid_component_spec in Hw as (Hw&_&_&Hs).
  destruct w as [|c w]; [done|].
  assert (Ascii.eqb slash c = false) as Hcs.
  { unfold has_char in Hs. simpl in Hs. by apply orb_false_iff in Hs as [? _]. }
  assert (∃ r, join sep (String c w :: ws) = String c r) as [r ->].
  { destruct ws as [|w' ws]; [by eexists|]. rewrite join_cons2, string_app_cons. by eexists. }
  split; [|done]. cbn [startswith]. change "/"%char with slash. by rewrite Hcs.
Qed.

Lemma rel_text_join components :
  components ≠ [] →
  rel_text components = join sep components ∧
  wire_safe_components components = wire_safe (join sep components).
Proof. by destruct components. Qed.

Lemma normalize_rel_text_safe components :
  Forall (λ w, valid_component w = true) components → wire_safe_components components = true →
  normalize_rel (PathStr (rel_text components)) = Ok components.
Proof.
  intros Hc Hs. destruct (decide (components = [])) as [->|Hne]; [done|].
  destruct (startswith_slash_join _ Hc Hne) as [Hss Hnil].
  destruct (rel_text_join _ Hne) as [Ht Hw]. rewrite Hw in Hs.
  unfold normalize_rel, normalize_text. rewrite Ht. unfold wire_safe in Hs. bool_prop.
  rewrite H. rewrite replace_char_id by done.
  rewrite bool_decide_false by done. rewrite H2, Hss, H1, H0. simpl.
  rewrite split_join.
  - by rewrite normalize_walk_valid.
  - done.
  - eapply Forall_impl; [exact Hc|]. intros x Hx. by apply valid_component_spec in Hx as (_&_&_&?).
Qed.

(** Length bookkeeping: normalizing never lengthens, so a round trip that
    succeeds cannot have stripped anything. *)
Definition weight (l : list string) : nat := sum_list (map (λ w, S (String.length w)) l).

Lemma weight_app l k : weight (l ++ k) = weight l + weight k.
Proof. unfold weight. rewrite map_app. induction (map _ l); simpl; lia. Qed.

Lemma weight_join l : l ≠ [] → weight l = S (String.length (join sep l)).
Proof.
  induction l as [|w l IH]; [done|]. intros _. destruct l as [|w' l].
  - unfold weight. simpl. lia.
  - rewrite join_cons2, !string_length_app.
    change (weight (w :: w' :: l)) with (S (String.length w) + weight (w' :: l)).
    rewrite IH by done. change (String.length sep) with 1. lia.
Qed.

Lemma weight_split c s : weight (split c s) = S (String.length s).
Proof.
  unfold weight. induction s as [|d s IH]; [done|]. simpl. case_match; simpl; [lia|].
  destruct (split c s) as [|w ws] eqn:E; [by apply split_nonempty in E|]. simpl in *. lia.
Qed.

Lemma weight_walk segments parts out :
  normalize_walk segments parts = Ok out → weight out ≤ weight parts + weight segments.
Proof.
  revert parts. induction segments as [|w segments IH]; intros parts; simpl.
  { intros [= <-]. unfold weight. simpl. lia. }
  assert (weight (w :: segments) = S (String.length w) + weight segments) as Hw by done.
  case_match; [intros ?%IH; lia|]. case_match.
  - destruct parts as [|p parts]; [done|]. intros Ho%IH.
    assert (weight (p :: parts) = weight (removelast (p :: parts)) + weight [List.last (p :: parts) ""])
      as Hr by (rewrite <-weight_app, <-app_removelast_last; done).
    lia.
  - intros Ho%IH. rewrite weight_app in Ho.
    assert (weight [w] = S (String.length w)) by (unfold weight; simpl; lia). lia.
Qed.

Lemma strip_shorter s : String.length (strip s) < String.length s ∨ strip s = s.
Proof.
  unfold strip, strip_by.
  assert (String.length (lstrip_by is_space s) < String.length s ∨ lstrip_by is_space s = s) as Hl.
  { induction s as [|c s IH]; simpl; [by right|]. case_match; [|by right].
    left. destruct IH as [|IH]; [lia|]. rewrite IH. lia. }
  destruct (rstrip_by_length is_space (lstrip_by is_space s)) as [|Hr], Hl as [|Hl]; try lia.
  - left. rewrite Hl in *. lia.
  - left. rewrite Hr. lia.
  - right. congruence.
Qed.

Lemma length_map_str f s : String.length (map_str f s) = String.length s.
Proof. induction s; simpl; congruence. Qed.

Lemma has_char_replaced s : has_char backslash (replace_char backslash slash s) = false.
Proof.
  unfold has_char, replace_char. induction s as [|c s IH]; [done|].
  cbn [map_str existsb_str]. rewrite IH, orb_false_r.
  destruct (Ascii.eqb c backslash) eqn:E; [done|]. by rewrite Ascii.eqb_sym.
Qed.

Lemma normalize_rel_text_wire components :
  normalize_rel (PathStr (rel_text components)) = Ok components →
  wire_safe_components components = true.
Proof.
  intros Hn. destruct (decide (components = [])) as [->|Hne]; [done|].
  destruct (rel_text_join _ Hne) as [Ht ->]. simpl in Hn. rewrite Ht in Hn.
  apply normalize_text_inv in Hn as (Hnil & Hnul & Hsl & Htl & Hdr & Hw).
  assert (strip (join sep components) = join sep components) as Hstrip.
  { destruct (strip_shorter (join sep components)) as [Hlt|]; [|done]. exfalso.
    apply weight_walk in Hw. rewrite weight_split, weight_join in Hw by done.
    unfold replace_char in Hw. rewrite length_map_str in Hw. unfold weight in Hw. simpl in Hw. lia. }
  rewrite Hstrip in *.
  assert (has_char backslash (join sep components) = false) as Hb.
  { apply has_char_join; [done|].
    eapply (normalize_walk_forall (λ w, has_char backslash w = false)); [|done|exact Hw].
    intros w Hin _ _ _. revert w Hin. apply Forall_forall, split_has_char, has_char_replaced. }
  rewrite replace_char_id in Hnul, Htl, Hdr by done.
  unfold wire_safe. by rewrite bool_decide_true, Hb, Hnul, Htl, Hdr.
Qed.

(** How far a list of segments descends. *)
Definition segment_step (segment : string) : Z :=
  if bool_decide (segment = "") || bool_decide (segment = ".") then 0
  else if bool_decide (segment = "..") then -1 else 1.
Definition descent (segments : list string) : Z := foldr (λ w d, segment_step w + d)%Z 0%Z segments.

Lemma normalize_walk_descent segments parts :
  (∃ out, normalize_walk segments parts = Ok out ∧
     Z.of_nat (length out) = (Z.of_nat (length parts) + descent segments)%Z ∧
     ∀ k, (0 ≤ Z.of_nat (length parts) + descent (take k segments))%Z) ∨
  (normalize_walk segments parts = Err EscapesRealm ∧
     ∃ k, (Z.of_nat (length parts) + descent (take k segments) < 0)%Z).
Proof.
  revert parts. induction segments as [|w segments IH]; intros parts; cbn [normalize_walk].
  { left. exists parts. split_and!; [done|simpl; lia|]. intros []; simpl; lia. }
  assert (∀ k, descent (take (S k) (w :: segments)) = segment_step w + descent (take k segments))%Z
    as Hk by done.
  assert (∀ parts', Z.of_nat (length parts') = (Z.of_nat (length parts) + segment_step w)%Z →
    (∃ out, normalize_walk segments parts' = Ok out ∧
       Z.of_nat (length out) = (Z.of_nat (length parts) + descent (w :: segments))%Z ∧
       ∀ k, (0 ≤ Z.of_nat (length parts) + descent (take k (w :: segments)))%Z) ∨
    (normalize_walk segments parts' = Err EscapesRealm ∧
       ∃ k, (Z.of_nat (length parts) + descent (take k (w :: segments)) < 0)%Z)) as Hstep.
  { intros parts' Hlen. destruct (IH parts') as [(out & -> & Ho & Hall)|[-> [k Hlt]]].
    - left. exists out. split_and!; [done|change (descent (w :: segments)) with (segment_step w + descent segments)%Z; lia|].
      intros [|k]; [simpl; lia|].
      specialize (Hall k). rewrite Hk. lia.
    - right. split; [done|]. exists (S k). rewrite Hk. lia. }
  destruct (_ || _) eqn:Eb; [apply Hstep; unfold segment_step; rewrite Eb; lia|].
  destruct (bool_decide (w = "..")) eqn:Ed.
  - destruct parts as [|p parts].
    + right. split; [done|]. exists 1. rewrite Hk, take_0. unfold segment_step.
      rewrite Eb, Ed. done.
    + apply Hstep. unfold segment_step. rewrite Eb, Ed.
      rewrite (app_removelast_last (l:=p :: parts) "") at 2 by done. rewrite length_app. simpl. lia.
  - apply Hstep. unfold segment_step. rewrite Eb, Ed, length_app. simpl. lia.
Qed.
