(* ===== verification/ScopeConflict.v ===== *)
(** * ScopeConflict: [omniagentos/scope/model.py] and [omniagentos/scope/conflict.py]

    The claim value object with the checks of its constructor, and the conflict
    matrix.  Realm identity comes through the [RealmIdentity] interface. *)

From Stdlib Require Import Ascii.
From S2P Require Import Prelude PyString PyPath PathContainment ScopePaths.

Inductive ScopeKind := KFile | KRoot.
#[export] Instance ScopeKind_eq_dec : EqDecision ScopeKind.
Proof. solve_decision. Defined.

Definition kind_text (k : ScopeKind) : string :=
  match k with KFile => "file" | KRoot => "root" end.

Definition DEFAULT_PURPOSE : string := "edit".
Definition COMMIT_PURPOSE : string := "commit".

Record ScopeClaim := mkClaim {
  realm : string;
  components : list string;
  kind : ScopeKind;
  owner_group : string;
  purpose : string;
  lock_id : string;
}.
#[export] Instance ScopeClaim_eq_dec : EqDecision ScopeClaim.
Proof. solve_decision. Defined.

(** The [ScopePathError]s the claim's constructor raises. *)
Inductive claim_error :=
  | RequiresRealm | BadComponent | WholeRealmFile | RequiresPurpose
  | BadPath (e : scope_path_error).

(** [__post_init__]: the checks in the order the code makes them. *)
Definition check_claim (c : ScopeClaim) : result claim_error ScopeClaim :=
  if bool_decide (c.(realm) = "") || bool_decide (strip c.(realm) = "") then Err RequiresRealm
  else if negb (forallb valid_component c.(components)) then Err BadComponent
  else if bool_decide (c.(kind) = KFile) && bool_decide (c.(components) = [])
  then Err WholeRealmFile
  else if bool_decide (c.(purpose) = "") then Err RequiresPurpose
  else Ok c.

Definition for_path (realm : string) (path : scope_path) (kind : ScopeKind)
    (owner_group purpose lock_id : string) : result claim_error ScopeClaim :=
  components ← map_err BadPath (normalize_rel path);
  let effective := match components with [] => KRoot | _ => kind end in
  check_claim (mkClaim realm components effective owner_group purpose lock_id).

Definition is_root (c : ScopeClaim) : bool := bool_decide (c.(kind) = KRoot).
Definition is_whole_realm (c : ScopeClaim) : bool := bool_decide (c.(components) = []).
Definition path_text (c : ScopeClaim) : string := rel_text c.(components).
Definition depth (c : ScopeClaim) : nat := length c.(components).

Definition claim_str (c : ScopeClaim) : string :=
  c.(realm) +:+ ":" +:+ path_text c +:+ (if is_root c then "/**" else "").

(** ** The matrix *)

Inductive ConflictReason := SameFile | CandidateUnderHeld | HeldUnderCandidate | RootOverlap.
#[export] Instance ConflictReason_eq_dec : EqDecision ConflictReason.
Proof. solve_decision. Defined.

Definition reason_text (r : ConflictReason) : string :=
  match r with
  | SameFile => "same_file"
  | CandidateUnderHeld => "candidate_under_held"
  | HeldUnderCandidate => "held_under_candidate"
  | RootOverlap => "root_overlap"
  end.

Record ScopeConflict := mkConflict {
  candidate : ScopeClaim;
  held : ScopeClaim;
  reason : ConflictReason;
}.
#[export] Instance ScopeConflict_eq_dec : EqDecision ScopeConflict.
Proof. solve_decision. Defined.

(** [a or b or ...] on strings *)
Definition str_or (a b : string) : string := if bool_decide (a = "") then b else a.

Definition describe (c : ScopeConflict) : string :=
  let holder := str_or c.(held).(lock_id) (str_or c.(held).(owner_group) "held") in
  claim_str c.(candidate) +:+ " blocked by " +:+ claim_str c.(held)
  +:+ " (" +:+ holder +:+ "): " +:+ reason_text c.(reason).

Definition matrix_reason (c h : ScopeClaim) : option ConflictReason :=
  if is_root c && is_root h then
    if parts_overlap c.(components) h.(components) then Some RootOverlap else None
  else if is_root c then
    if parts_under h.(components) c.(components) then Some HeldUnderCandidate else None
  else if is_root h then
    if parts_under c.(components) h.(components) then Some CandidateUnderHeld else None
  else if bool_decide (c.(components) = h.(components)) then Some SameFile else None.

Definition same_owner_relaxed (c h : ScopeClaim) : bool :=
  if bool_decide (c.(owner_group) = "") || negb (bool_decide (c.(owner_group) = h.(owner_group)))
  then false
  else if is_root c || is_root h then false
  else if bool_decide (c.(components) = h.(components)) then false
  else negb (bool_decide (h.(purpose) = COMMIT_PURPOSE)).

Definition order_key (c : ScopeConflict) : nat * string * string * string :=
  (depth c.(held), c.(held).(lock_id), path_text c.(held), kind_text c.(held).(kind)).

Section conflict.
Context {RI : RealmIdentity}.

(** [inode_paths_equal(...) is not False] *)
Definition same_realm (a b : ScopeClaim) : bool :=
  match inode_paths_equal a.(realm) b.(realm) with Some false => false | _ => true end.

Definition conflicts_with (c h : ScopeClaim) : option ConflictReason :=
  if negb (same_realm c h) then None
  else match matrix_reason c h with
  | None => None
  | Some r => if same_owner_relaxed c h then None else Some r
  end.

Definition conflicts_of (c : ScopeClaim) (held_locks : list ScopeClaim) : list ScopeConflict :=
  omap (λ h, mkConflict c h <$> conflicts_with c h) held_locks.

Definition find_conflicts (c : ScopeClaim) (held_locks : list ScopeClaim) : list ScopeConflict :=
  sort_by order_key (conflicts_of c held_locks).

(** The running minimum of [first_conflict]. *)
Fixpoint first_conflict_loop (c : ScopeClaim) (held_locks : list ScopeClaim)
    (best : option ScopeConflict) : option ScopeConflict :=
  match held_locks with
  | [] => best
  | h :: rest =>
      match conflicts_with c h with
      | None => first_conflict_loop c rest best
      | Some r =>
          let conflict := mkConflict c h r in
          let better := match best with
            | None => true
            | Some b => py_lt (order_key conflict) (order_key b)
            end in
          first_conflict_loop c rest (if better then Some conflict else best)
      end
  end.

Definition first_conflict (c : ScopeClaim) (held_locks : list ScopeClaim) :
    option ScopeConflict := first_conflict_loop c held_locks None.
End conflict.

(** ** Lemmas *)

Lemma parts_under_prefix child parent : parts_under child parent = true ↔ parent `prefix_of` child.
Proof.
  unfold parts_under. rewrite bool_decide_eq_true. split.
  - intros <-. apply prefix_take.
  - intros [k ->]. by rewrite take_app_length.
Qed.

Lemma parts_overlap_prefix a b :
  parts_overlap a b = true ↔ a `prefix_of` b ∨ b `prefix_of` a.
Proof.
  unfold parts_overlap. rewrite bool_decide_eq_true. split.
  - intros H. destruct (decide (length a ≤ length b)).
    + left. rewrite Nat.min_l, take_ge in H by lia. rewrite H. apply prefix_take.
    + right. rewrite Nat.min_r, (take_ge b) in H by lia. rewrite <-H. apply prefix_take.
  - intros [[k ->]|[k ->]]; rewrite length_app.
    + rewrite Nat.min_l by lia. by rewrite take_app_length, take_ge.
    + rewrite Nat.min_r by lia. by rewrite take_app_length, take_ge.
Qed.

(** Two prefixes of one list are comparable. *)
Lemma prefix_comparable {A} (a b p : list A) :
  a `prefix_of` p → b `prefix_of` p → a `prefix_of` b ∨ b `prefix_of` a.
Proof. intros [k ->] Hb. by apply prefix_weak_total with (a ++ k); [eexists|]. Qed.

(** The set of paths a claim reserves. *)
Definition covers (c : ScopeClaim) (path : list string) : Prop :=
  match c.(kind) with
  | KFile => path = c.(components)
  | KRoot => c.(components) `prefix_of` path
  end.

Lemma matrix_reason_covers c h :
  (∃ r, matrix_reason c h = Some r) ↔ ∃ path, covers c path ∧ covers h path.
Proof.
  unfold matrix_reason, covers, is_root.
  destruct (kind c) eqn:Ec, (kind h) eqn:Eh; simpl;
    repeat (rewrite bool_decide_true by done || rewrite bool_decide_false by done); simpl.
  - case_bool_decide as Hb; [rewrite Hb; naive_solver|].
    split; [by intros [? [=]]|]. intros (p & -> & ?). by destruct Hb.
  - destruct (parts_under _ _) eqn:E; [apply parts_under_prefix in E; naive_solver|].
    split; [by intros [? [=]]|]. intros (p & -> & ?%parts_under_prefix). congruence.
  - destruct (parts_under _ _) eqn:E; [apply parts_under_prefix in E; naive_solver|].
    split; [by intros [? [=]]|]. intros (p & ?%parts_under_prefix & ->). congruence.
  - destruct (parts_overlap _ _) eqn:E.
    + apply parts_overlap_prefix in E as [?|?]; split; [naive_solver|by eauto..].
    + split; [by intros [? [=]]|]. intros (p & Hc & Hh).
      pose proof (proj2 (parts_overlap_prefix _ _) (prefix_comparable _ _ _ Hc Hh)). congruence.
Qed.

Lemma relaxed_no_matrix c h : same_owner_relaxed c h = true → matrix_reason c h = None.
Proof.
  unfold same_owner_relaxed, matrix_reason. case_match; [done|].
  destruct (is_root c), (is_root h); simpl; try done.
  case_match; done.
Qed.

Section conflict_lemmas.
Context {RI : RealmIdentity}.
Implicit Types c h : ScopeClaim.

Lemma same_realm_refl c h : c.(realm) = h.(realm) → same_realm c h = true.
Proof.
  intros E. unfold same_realm. rewrite E. pose proof (inode_paths_equal_refl h.(realm)).
  by destruct (inode_paths_equal _ _) as [[]|].
Qed.

Lemma conflicts_with_matrix c h :
  conflicts_with c h = if same_realm c h then matrix_reason c h else None.
Proof.
  unfold conflicts_with. destruct (same_realm c h); [|done]. simpl.
  destruct (matrix_reason c h) eqn:E; [|done].
  destruct (same_owner_relaxed c h) eqn:Er; [|done].
  apply relaxed_no_matrix in Er. congruence.
Qed.

Lemma conflicts_with_covers c h :
  c.(realm) = h.(realm) →
  (∃ r, conflicts_with c h = Some r) ↔ ∃ path, covers c path ∧ covers h path.
Proof. intros E. by rewrite conflicts_with_matrix, same_realm_refl, matrix_reason_covers. Qed.

Lemma elem_of_conflicts_of c hs x :
  x ∈ conflicts_of c hs ↔ ∃ h r, h ∈ hs ∧ conflicts_with c h = Some r ∧ x = mkConflict c h r.
Proof.
  unfold conflicts_of. rewrite list_elem_of_omap. split.
  - intros (h & Hh & Hx). apply fmap_Some in Hx as (r & ? & ->). eauto.
  - intros (h & r & ? & Hr & ->). exists h. by rewrite Hr.
Qed.

(** The loop keeps whichever of [best] and the later conflicts sorts first. *)
Lemma first_conflict_loop_head c hs b :
  first_conflict_loop c hs b =
  head (sort_by order_key (option_list b ++ conflicts_of c hs)).
Proof.
  revert b. induction hs as [|h hs IH]; intros b; simpl.
  { by destruct b. }
  destruct (conflicts_with c h) as [r|] eqn:E; simpl; [|apply IH].
  rewrite IH. destruct b as [b|]; simpl; [|done].
  set (x := mkConflict c h r). set (l := sort_by order_key (conflicts_of c hs)).
  assert (∀ y, head (insert_by order_key y l) =
    match l with
    | [] => Some y
    | z :: _ => Some (if py_le (order_key y) (order_key z) then y else z)
    end) as Hhead by (intros y; destruct l; simpl; [done|by case_match]).
  rewrite py_lt_nle. destruct (py_le (order_key b) (order_key x)) eqn:Ebx; simpl.
  - rewrite Hhead. fold l. destruct l as [|z l']; simpl; [by rewrite Ebx|].
    destruct (py_le (order_key x) (order_key z)) eqn:Exz; simpl.
    + rewrite Ebx. simpl. by rewrite (py_le_trans _ _ _ Ebx Exz).
    + by destruct (py_le (order_key b) (order_key z)).
  - rewrite Hhead. fold l. destruct l as [|z l']; simpl; [by rewrite Ebx|].
    destruct (py_le (order_key x) (order_key z)) eqn:Exz; simpl.
    + by rewrite Ebx.
    + destruct (py_le (order_key b) (order_key z)) eqn:Ebz; [|done].
      exfalso. destruct (py_le_total (order_key x) (order_key b)) as [Hxb|]; [|congruence].
      rewrite (py_le_trans _ _ _ Hxb Ebz) in Exz. done.
Qed.

Lemma first_conflict_head c hs : first_conflict c hs = head (find_conflicts c hs).
Proof. apply (first_conflict_loop_head c hs None). Qed.

Lemma first_conflict_None c hs :
  first_conflict c hs = None ↔ ∀ h, h ∈ hs → conflicts_with c h = None.
Proof.
  rewrite first_conflict_head. unfold find_conflicts. split.
  - intros Hn h Hh. destruct (conflicts_with c h) as [r|] eqn:E; [|done].
    assert (mkConflict c h r ∈ sort_by order_key (conflicts_of c hs)) as Hin
      by (rewrite elem_of_sort_by, elem_of_conflicts_of; eauto).
    destruct (sort_by _ _); [by apply not_elem_of_nil in Hin|done].
  - intros Hall. destruct (sort_by _ _) as [|x l] eqn:E; [done|].
    assert (x ∈ sort_by order_key (conflicts_of c hs)) as Hin by (rewrite E; set_solver).
    rewrite elem_of_sort_by, elem_of_conflicts_of in Hin.
    destruct Hin as (h & r & Hh & Hr & _). rewrite Hall in Hr by done. done.
Qed.

Lemma first_conflict_Some c hs x :
  first_conflict c hs = Some x →
  x.(candidate) = c ∧ x.(held) ∈ hs ∧ conflicts_with c x.(held) = Some x.(reason) ∧
  ∀ h r, h ∈ hs → conflicts_with c h = Some r →
    py_le (order_key x) (order_key (mkConflict c h r)) = true.
Proof.
  rewrite first_conflict_head. unfold find_conflicts.
  destruct (sort_by _ _) as [|y l] eqn:E; [done|]. intros [= ->].
  assert (x ∈ sort_by order_key (conflicts_of c hs)) as Hin by (rewrite E; set_solver).
  rewrite elem_of_sort_by, elem_of_conflicts_of in Hin. destruct Hin as (h & r & Hh & Hr & ->).
  split_and!; try done. intros h' r' Hh' Hr'.
  eapply (sort_by_head_min order_key); [exact E|]. rewrite elem_of_conflicts_of. eauto.
Qed.
End conflict_lemmas.
