(* ===== verification/ScopeConfig.v ===== *)
(** * ScopeConfig: [omniagentos/scope/config.py]

    The three scope-lock knobs and their resolution order: environment, then
    [configs/parallelism.yaml], then the built-in default. *)

From Stdlib Require Import Ascii QArith.
From S2P Require Import Prelude PyString.
Open Scope nat_scope.

Inductive ScopeLockMode := ModeOff | ModeShadow | ModeEnforce.
#[export] Instance ScopeLockMode_eq_dec : EqDecision ScopeLockMode.
Proof. solve_decision. Defined.

(** A float; a finite one is the rational it denotes. *)
Inductive py_float := Finite (q : Q) | PosInf | NegInf | NaN.

(** [parsed <= 0 or parsed != parsed] *)
Definition unusable (f : py_float) : bool :=
  match f with
  | Finite q => Qle_bool q 0
  | PosInf => false
  | NegInf | NaN => true
  end.

(** A value out of the parsed YAML document, or an environment string. *)
Inductive yaml_value :=
  | YNone
  | YBool (b : bool)
  | YStr (s : string)
  | YNum (f : py_float)
  | YOther.

Definition SCOPE_LOCKS_ENV : string := "OMNIAGENTOS_SCOPE_LOCKS".
Definition SCOPE_TTL_ENV : string := "OMNIAGENTOS_SCOPE_TTL_S".
Definition SCOPE_STARVATION_ENV : string := "OMNIAGENTOS_SCOPE_STARVATION_S".
Definition DEFAULT_SCOPE_MODE : ScopeLockMode := ModeOff.
Definition DEFAULT_TTL_S : Q := 90.
Definition DEFAULT_STARVATION_S : Q := 300.

Definition TRUTHY : list string := ["1"; "true"; "yes"; "on"].
Definition FALSY : list string := ["0"; "false"; "no"; "off"].

Definition mode_of_text (text : string) : option ScopeLockMode :=
  if bool_decide (text = "off") then Some ModeOff
  else if bool_decide (text = "shadow") then Some ModeShadow
  else if bool_decide (text = "enforce") then Some ModeEnforce
  else None.

Section config.
(** [str(value)] of a number or container, and [float(text)]: [None] when it
    raises [ValueError]. *)
Context (str_of : yaml_value → string) (float_of : string → option py_float).
(** [os.environ.get], and the [scope_locks] section of the config file
    ([{}] when the file is missing, broken or not a mapping). *)
Context (getenv : string → option string) (section : string → yaml_value).

Definition coerce_mode (value : yaml_value) : option ScopeLockMode :=
  match value with
  | YNone => None
  | YBool b => Some (if b then ModeEnforce else ModeOff)
  | _ =>
      let text := lower (strip (match value with YStr s => s | v => str_of v end)) in
      if bool_decide (text = "") then None
      else match mode_of_text text with
      | Some m => Some m
      | None =>
          if bool_decide (text ∈ TRUTHY) then Some ModeEnforce
          else if bool_decide (text ∈ FALSY) then Some ModeOff
          else None
      end
  end.

Definition env_value (name : string) : yaml_value :=
  match getenv name with Some s => YStr s | None => YNone end.

Definition scope_locks_mode : ScopeLockMode :=
  match coerce_mode (env_value SCOPE_LOCKS_ENV) with
  | Some m => m
  | None => default DEFAULT_SCOPE_MODE (coerce_mode (section "mode"))
  end.

Definition scope_locks_enabled : bool := negb (bool_decide (scope_locks_mode = ModeOff)).
Definition scope_locks_enforcing : bool := bool_decide (scope_locks_mode = ModeEnforce).

Definition positive_float (value : yaml_value) : option py_float :=
  let parsed := match value with
    | YNone | YBool _ | YOther => None
    | YStr s => float_of s
    | YNum f => Some f
    end in
  match parsed with
  | Some f => if unusable f then None else Some f
  | None => None
  end.

Definition duration (env_name config_key : string) (fallback : Q) : py_float :=
  match positive_float (env_value env_name) with
  | Some f => f
  | None => default (Finite fallback) (positive_float (section config_key))
  end.

Definition scope_ttl_s : py_float := duration SCOPE_TTL_ENV "ttl_seconds" DEFAULT_TTL_S.
Definition scope_starvation_s : py_float :=
  duration SCOPE_STARVATION_ENV "starvation_seconds" DEFAULT_STARVATION_S.
End config.
