(* ===== verification/ScopeLocks.v ===== *)
(** * ScopeLocks: [omniagentos/scope/locks.py]

    The durable path-lock store over the tables [resource_locks] and
    [scope_waiters] of migration 059.  A timestamp is the number of seconds its
    fixed-width ISO text denotes, so the text comparisons of the SQL are
    comparisons of integers. *)

From Stdlib Require Import Ascii QArith Qround.
From S2P Require Import Prelude PyString PyPath PathContainment ScopePaths ScopeConflict ScopeConfig.
Open Scope nat_scope.

Inductive HolderKind := HRun | HSession | HAttempt | HSwarmTask | HCoordinator.
#[export] Instance HolderKind_eq_dec : EqDecision HolderKind.
Proof. solve_decision. Defined.
Inductive Lane := LaneRunner | LaneSession | LaneLonghaul | LaneSwarm.
#[export] Instance Lane_eq_dec : EqDecision Lane.
Proof. solve_decision. Defined.

Definition WORK_PURPOSE : string := "work".
Definition REAP_LIMIT : Z := 500.

Record LockHolder := mkHolder {
  holder_kind : HolderKind;
  holder_id : string;
  holder_lane : Lane;
}.

(** The identity pair; the lane is not part of it. *)
Definition identity (h : LockHolder) : HolderKind * string := (h.(holder_kind), h.(holder_id)).

Record HeldLock := mkHeld {
  l_id : string;
  l_realm : string;
  l_rel_path : string;
  l_depth : nat;
  l_kind : ScopeKind;
  l_holder : HolderKind * string;
  l_generation : Z;
  l_lane : Lane;
  l_owner_group : string;
  l_purpose : string;
  l_acquired_at : Z;
  l_expires_at : Z;
}.

(** A row of [resource_locks]: the columns read back, and [released_at]. *)
Record LockRow := mkRow { row_lock : HeldLock; released_at : option Z }.

Record Waiter := mkWaiter {
  w_id : nat;
  w_realm : string;
  w_lane : Lane;
  w_holder : HolderKind * string;
  w_blocked_on : string;
  w_blocked_path : string;
  w_created_at : Z;
}.
Record WaiterRow := mkWaiterRow { row_waiter : Waiter; cleared_at : option Z }.

(** The store: both tables, the AUTOINCREMENT counter of [scope_waiters], and
    how many ids [new_id] has handed out. *)
Record store := mkStore {
  locks : list LockRow;
  waiters : list WaiterRow;
  last_waiter_id : nat;
  ids_drawn : nat;
}.
Definition empty_store : store := mkStore [] [] 0 0.

Definition set_locks (f : list LockRow → list LockRow) (s : store) : store :=
  mkStore (f s.(locks)) s.(waiters) s.(last_waiter_id) s.(ids_drawn).

Inductive AcquireStatus := Granted | Blocked | Fenced | Disabled.
#[export] Instance AcquireStatus_eq_dec : EqDecision AcquireStatus.
Proof. solve_decision. Defined.

Record AcquireResult := mkResult {
  status : AcquireStatus;
  mode : ScopeLockMode;
  lock_ids : list string;
  conflict : option ScopeConflict;
  shadowed : bool;
  skipped_duplicates : list string;
}.
Definition plain_result (st : AcquireStatus) (m : ScopeLockMode) : AcquireResult :=
  mkResult st m [] None false [].

Definition granted (r : AcquireResult) : bool :=
  bool_decide (r.(status) = Granted) || bool_decide (r.(status) = Disabled).
Definition blocked_on (r : AcquireResult) : string :=
  match r.(conflict) with Some c => c.(held).(lock_id) | None => "" end.
Definition blocked_path (r : AcquireResult) : string :=
  match r.(conflict) with Some c => path_text c.(candidate) | None => "" end.

(** What the operations raise.  [ScopeBlocked] is the module's internal
    signal; it never leaves [acquire]. *)
Inductive lock_error :=
  | TtlNotPositive
  | HolderRequiresId
  | ClaimError (e : claim_error)
  | IntegrityError
  | ScopeBlocked (c : ScopeConflict)
  | ScopeLockFenced
  | ScopeLockBusy (r : AcquireResult).

Definition check_holder (h : LockHolder) : result lock_error LockHolder :=
  if bool_decide (h.(holder_id) = "") || bool_decide (strip h.(holder_id) = "")
  then Err HolderRequiresId else Ok h.

(** ** Time *)

(** [str | datetime | None]; a datetime is its UTC instant in microseconds. *)
Inductive now_arg := NowNone | NowText (seconds : Z) | NowDatetime (micros : Z).

Definition now_iso (clock : Z) (now : now_arg) : Z :=
  match now with
  | NowNone => clock
  | NowText t => t
  | NowDatetime us => us / 1000000
  end.

(** [timedelta(seconds=q)] holds whole microseconds, rounded half to even. *)
Definition round_half_even (q : Q) : Z :=
  let f := Qfloor q in
  match Qcompare (q - inject_Z f) (1 # 2) with
  | Lt => f
  | Gt => f + 1
  | Eq => if Z.even f then f else f + 1
  end.

(** [strftime] drops the microseconds. *)
Definition plus_seconds (now : Z) (seconds : Q) : Z :=
  (now + round_half_even (seconds * inject_Z 1000000) / 1000000)%Z.

(** ** Claim and row translation *)

Definition stored_purpose (purpose : string) : string :=
  if bool_decide (purpose = COMMIT_PURPOSE) then COMMIT_PURPOSE else WORK_PURPOSE.

Definition lock_key : Type := string * string * ScopeKind * string.
#[export] Instance lock_key_eq_dec : EqDecision lock_key.
Proof. unfold lock_key. apply _. Defined.

Definition claim_key (c : ScopeClaim) : lock_key :=
  (c.(realm), path_text c, c.(kind), stored_purpose c.(purpose)).
Definition key (l : HeldLock) : lock_key :=
  (l.(l_realm), l.(l_rel_path), l.(l_kind), l.(l_purpose)).

Definition claim_order_key (c : ScopeClaim) : string * nat * string * string * string :=
  (c.(realm), ScopeConflict.depth c, path_text c, kind_text c.(kind), c.(purpose)).

Definition as_claim (l : HeldLock) : result claim_error ScopeClaim :=
  components ← map_err BadPath (normalize_rel (PathStr l.(l_rel_path)));
  check_claim (mkClaim l.(l_realm) components l.(l_kind) l.(l_owner_group) l.(l_purpose) l.(l_id)).

Definition with_owner (c : ScopeClaim) (group : string) : result claim_error ScopeClaim :=
  if bool_decide (c.(owner_group) = group) then Ok c
  else check_claim (mkClaim c.(realm) c.(components) c.(kind) group c.(purpose) c.(lock_id)).

(** [prepared.setdefault(key, claim)] over the claims, in order. *)
Definition setdefault_claim (prepared : list ScopeClaim) (c : ScopeClaim) : list ScopeClaim :=
  if bool_decide (claim_key c ∈ map claim_key prepared) then prepared else prepared ++ [c].

Definition prepare (claims : list ScopeClaim) (group : option string) :
    result lock_error (list ScopeClaim) :=
  resolved ← traverse (λ c, match group with
    | None => Ok c
    | Some g => map_err ClaimError (with_owner c g) end) claims;
  Ok (sort_by claim_order_key (foldl setdefault_claim [] resolved)).

(** ** Statements *)

Definition unreleased (r : LockRow) : bool :=
  match r.(released_at) with None => true | Some _ => false end.
Definition held_by_id (h : HolderKind * string) (r : LockRow) : bool :=
  bool_decide (r.(row_lock).(l_holder) = h).
Definition expired (now : Z) (r : LockRow) : bool := (r.(row_lock).(l_expires_at) <=? now)%Z.

(** Not released and not expired. *)
Definition live (now : Z) (r : LockRow) : bool := unreleased r && negb (expired now r).

Definition release_row (now : Z) (r : LockRow) : LockRow := mkRow r.(row_lock) (Some now).
Definition extend_row (expires_at : Z) (r : LockRow) : LockRow :=
  let l := r.(row_lock) in
  mkRow (mkHeld l.(l_id) l.(l_realm) l.(l_rel_path) l.(l_depth) l.(l_kind) l.(l_holder)
           l.(l_generation) l.(l_lane) l.(l_owner_group) l.(l_purpose) l.(l_acquired_at)
           expires_at) r.(released_at).
Definition adopt_row (expires_at generation : Z) (r : LockRow) : LockRow :=
  let l := r.(row_lock) in
  mkRow (mkHeld l.(l_id) l.(l_realm) l.(l_rel_path) l.(l_depth) l.(l_kind) l.(l_holder)
           generation l.(l_lane) l.(l_owner_group) l.(l_purpose) l.(l_acquired_at)
           expires_at) r.(released_at).

(** [LIMIT n]: a negative limit is no limit. *)
Definition sql_limit {A} (n : Z) (l : list A) : list A :=
  if (n <? 0)%Z then l else take (Z.to_nat n) l.

Definition reap_ids (now limit : Z) (t : list LockRow) : list string :=
  map (λ r, r.(row_lock).(l_id))
    (sql_limit limit
      (sort_by (λ r, r.(row_lock).(l_expires_at))
        (select (λ r, unreleased r && expired now r) t))).

Definition reapable (now limit : Z) (t : list LockRow) (r : LockRow) : bool :=
  unreleased r && expired now r && bool_decide (r.(row_lock).(l_id) ∈ reap_ids now limit t).

Definition reap_locked (now limit : Z) (s : store) : nat * store :=
  let p := reapable now limit s.(locks) in
  (rowcount p s.(locks), set_locks (update_where p (release_row now)) s).

Definition reap_expired (clock : Z) (now : now_arg) (limit : Z) : op store lock_error nat :=
  write (λ s, Ok (reap_locked (now_iso clock now) limit s)).

Definition held_order (l : HeldLock) : nat * string := (l.(l_depth), l.(l_id)).

Definition held_in_realm (clock : Z) (realm : string) (now : now_arg) (s : store) : list HeldLock :=
  sort_by held_order (map row_lock
    (select (λ r, bool_decide (r.(row_lock).(l_realm) = realm) && live (now_iso clock now) r)
            s.(locks))).

Definition held_by (clock : Z) (h : HolderKind * string) (now : now_arg) (s : store) :
    list HeldLock :=
  sort_by (λ l, (l.(l_realm), l.(l_depth), l.(l_id))) (map row_lock
    (select (λ r, held_by_id h r && live (now_iso clock now) r) s.(locks))).

Definition own_locks_locked (h : LockHolder) (now : Z) (s : store) : list HeldLock :=
  map row_lock (select (λ r, held_by_id (identity h) r && live now r) s.(locks)).

(** Live foreign locks of one realm, broadest first. *)
Definition live_foreign (realm : string) (h : LockHolder) (now : Z) (s : store) : list HeldLock :=
  List.filter (λ l, negb (bool_decide (l.(l_holder) = identity h)))
    (sort_by held_order (map row_lock
      (select (λ r, bool_decide (r.(row_lock).(l_realm) = realm) && live now r) s.(locks)))).

Definition live_by_realm_locked (realms : list string) (h : LockHolder) (now : Z) (s : store) :
    list (string * list HeldLock) :=
  map (λ realm, (realm, live_foreign realm h now s)) realms.

(** [SELECT MAX(holder_generation) ... WHERE holder = ?] over all rows, ever. *)
Definition highest_generation (h : HolderKind * string) (s : store) : option Z :=
  foldr (λ r m, Some (match m with
                      | None => r.(row_lock).(l_generation)
                      | Some g => Z.max r.(row_lock).(l_generation) g end))
        None (select (held_by_id h) s.(locks)).

Section acquire.
Context {RI : RealmIdentity}.
(** [new_id("lck")]: the n-th id the process draws. *)
Context (new_id : nat → string).

(** INSERT under the primary key and the partial unique index
    [idx_resource_locks_live]. *)
Definition insert_lock (c : ScopeClaim) (h : LockHolder) (generation acquired_at expires_at : Z)
    (s : store) : result lock_error (string * store) :=
  let id := new_id s.(ids_drawn) in
  let l := mkHeld id c.(realm) (path_text c) (ScopeConflict.depth c) c.(kind) (identity h)
             generation h.(holder_lane) c.(owner_group) (stored_purpose c.(purpose))
             acquired_at expires_at in
  if bool_decide (id ∈ map (λ r, r.(row_lock).(l_id)) s.(locks)) then Err IntegrityError
  else if existsb (λ r, unreleased r && bool_decide (key r.(row_lock) = key l)) s.(locks)
  then Err IntegrityError
  else Ok (id, mkStore (s.(locks) ++ [mkRow l None]) s.(waiters) s.(last_waiter_id)
                       (S s.(ids_drawn))).

(** The whole-set conflict scan. *)
Fixpoint scan_conflicts (claims_by_realm : list (string * list ScopeClaim))
    (candidates : list ScopeClaim) : option ScopeConflict :=
  match candidates with
  | [] => None
  | c :: rest =>
      let against := match List.find (λ p, bool_decide (p.1 = c.(realm))) claims_by_realm with
        | Some p => p.2 | None => [] end in
      match first_conflict c against with
      | Some found => Some found
      | None => scan_conflicts claims_by_realm rest
      end
  end.

(** The insert loop: extend what is ours, skip what somebody else holds
    under the same key, insert the rest. *)
Fixpoint insert_loop (own : list HeldLock) (foreign_keys : list lock_key) (h : LockHolder)
    (generation now expires_at : Z) (candidates : list ScopeClaim)
    (ids skipped : list string) (s : store) :
    result lock_error (list string * list string * store) :=
  match candidates with
  | [] => Ok (ids, skipped, s)
  | c :: rest =>
      match List.find (λ l, bool_decide (key l = claim_key c)) (rev own) with
      | Some l =>
          let s' := set_locks (update_where
            (λ r, bool_decide (r.(row_lock).(l_id) = l.(l_id)) && unreleased r)
            (adopt_row expires_at generation)) s in
          insert_loop own foreign_keys h generation now expires_at rest
            (ids ++ [l.(l_id)]) skipped s'
      | None =>
          if bool_decide (claim_key c ∈ foreign_keys)
          then insert_loop own foreign_keys h generation now expires_at rest
                 ids (skipped ++ [path_text c]) s
          else
            '(id, s') ← insert_lock c h generation now expires_at s;
            insert_loop own foreign_keys h generation now expires_at rest
              (ids ++ [id]) skipped s'
      end
  end.

(** The body of the transaction of [_acquire_locked]. *)
Definition acquire_body (candidates : list ScopeClaim) (h : LockHolder) (generation : Z)
    (mode : ScopeLockMode) (replace : bool) (now expires_at : Z) (s0 : store) :
    result lock_error (AcquireResult * store) :=
  let s1 := (reap_locked now REAP_LIMIT s0).2 in
  let mine := own_locks_locked h now s1 in
  if match highest_generation (identity h) s1 with
     | Some highest => (generation <? highest)%Z | None => false end
  then Ok (plain_result Fenced mode, s1)
  else
    let release := replace && negb (bool_decide (length mine = 0)) in
    let s2 := if release
      then set_locks (update_where (λ r, held_by_id (identity h) r && unreleased r)
                                   (release_row now)) s1
      else s1 in
    let mine := if release then [] else mine in
    let foreign_by_realm :=
      live_by_realm_locked (remove_dups (map ScopeConflict.realm candidates)) h now s2 in
    claims_by_realm ← traverse (λ p : string * list HeldLock,
        claims ← traverse (λ l, map_err ClaimError (as_claim l)) p.2; Ok (p.1, claims))
      foreign_by_realm;
    let foreign_keys := map key (concat (map snd foreign_by_realm)) in
    let conflict := scan_conflicts claims_by_realm candidates in
    match conflict, mode with
    | Some c, ModeEnforce => Err (ScopeBlocked c)
    | _, _ =>
        '(ids, skipped, s3) ←
          insert_loop mine foreign_keys h generation now expires_at candidates [] [] s2;
        Ok (mkResult Granted mode ids conflict
              (match conflict with Some _ => true | None => false end) skipped, s3)
    end.

Definition acquire_locked (clock : Z) (default_ttl : Q) (claims : list ScopeClaim)
    (h : LockHolder) (generation : Z) (ttl_s : option Q) (mode : ScopeLockMode)
    (owner_group : option string) (now : now_arg) (replace : bool) :
    op store lock_error AcquireResult := λ s,
  match prepare claims owner_group with
  | Err e => (Err e, s)
  | Ok candidates =>
      let now := now_iso clock now in
      let ttl := default default_ttl ttl_s in
      if Qle_bool ttl 0 then (Err TtlNotPositive, s)
      else
        let expires_at := plus_seconds now ttl in
        write (acquire_body candidates h generation mode replace now expires_at) s
  end.

(** [_acquire]: the blocked signal becomes an ordinary result. *)
Definition acquire (clock : Z) (default_ttl : Q) (claims : list ScopeClaim) (h : LockHolder)
    (generation : Z) (ttl_s : option Q) (mode : ScopeLockMode) (owner_group : option string)
    (now : now_arg) (replace : bool) : op store lock_error AcquireResult := λ s,
  match acquire_locked clock default_ttl claims h generation ttl_s mode owner_group now
          replace s with
  | (Err (ScopeBlocked c), s') => (Ok (mkResult Blocked mode [] (Some c) false []), s')
  | r => r
  end.

(** The configuration as [scope_locks_mode()] and [scope_ttl_s()] read it. *)
Record lock_config := mkConfig { cfg_mode : ScopeLockMode; cfg_ttl : Q }.

Definition effective_mode (cfg : lock_config) (enforce : option bool) : ScopeLockMode :=
  match enforce with
  | None => cfg.(cfg_mode)
  | Some true => ModeEnforce
  | Some false => ModeShadow
  end.

Definition acquire_or_disabled (cfg : lock_config) (clock : Z) (claims : list ScopeClaim)
    (h : LockHolder) (generation : Z) (ttl_s : option Q) (enforce : option bool)
    (owner_group : option string) (now : now_arg) (replace : bool) :
    op store lock_error AcquireResult := λ s,
  match effective_mode cfg enforce with
  | ModeOff => (Ok (plain_result Disabled ModeOff), s)
  | m => acquire clock cfg.(cfg_ttl) claims h generation ttl_s m owner_group now replace s
  end.

Definition try_acquire_scope (cfg : lock_config) (clock : Z) (claims : list ScopeClaim)
    (h : LockHolder) (generation : Z) (ttl_s : option Q) (enforce : option bool)
    (owner_group : option string) (now : now_arg) : op store lock_error AcquireResult :=
  acquire_or_disabled cfg clock claims h generation ttl_s enforce owner_group now false.

Definition reacquire_scope (cfg : lock_config) (clock : Z) (claims : list ScopeClaim)
    (h : LockHolder) (generation : Z) (ttl_s : option Q) (enforce : option bool)
    (owner_group : option string) (now : now_arg) : op store lock_error AcquireResult :=
  acquire_or_disabled cfg clock claims h generation ttl_s enforce owner_group now true.

(** ** Renew and release *)

Definition renewable (h : HolderKind * string) (generation now : Z) (r : LockRow) : bool :=
  held_by_id h r && bool_decide (r.(row_lock).(l_generation) = generation) && live now r.

Definition renew_scope (cfg : lock_config) (clock : Z) (h : HolderKind * string)
    (generation : Z) (ttl_s : option Q) (now : now_arg) : op store lock_error bool := λ s,
  let now := now_iso clock now in
  let ttl := default cfg.(cfg_ttl) ttl_s in
  if Qle_bool ttl 0 then (Err TtlNotPositive, s)
  else
    let expires_at := plus_seconds now ttl in
    write (λ s,
      let p := renewable h generation now in
      Ok (bool_decide (0 < rowcount p s.(locks)),
          set_locks (update_where p (extend_row expires_at)) s)) s.

Definition releasable (h : HolderKind * string) (generation : Z) (ids : option (list string))
    (r : LockRow) : bool :=
  held_by_id h r && bool_decide (r.(row_lock).(l_generation) = generation) && unreleased r
  && match ids with Some ids => bool_decide (r.(row_lock).(l_id) ∈ ids) | None => true end.

Definition release_scope (clock : Z) (h : HolderKind * string) (generation : Z)
    (ids : option (list string)) (now : now_arg) : op store lock_error nat := λ s,
  match ids with
  | Some [] => (Ok 0, s)
  | _ =>
      write (λ s,
        let p := releasable h generation ids in
        Ok (rowcount p s.(locks), set_locks (update_where p (release_row (now_iso clock now))) s))
        s
  end.

(** ** The commit lock

    [with commit_lock(...): body].  The block starts at [clock] and ends at
    [clock_end]. *)
Definition commit_lock {A} (cfg : lock_config) (clock clock_end : Z) (realm : string)
    (h : LockHolder) (generation : Z) (ttl_s : option Q) (enforce : option bool)
    (owner_group : string) (now : now_arg)
    (body : AcquireResult → op store lock_error A) : op store lock_error A := λ s,
  match check_claim (mkClaim realm [] KRoot owner_group COMMIT_PURPOSE "") with
  | Err e => (Err (ClaimError e), s)
  | Ok claim =>
      match try_acquire_scope cfg clock [claim] h generation ttl_s enforce None now s with
      | (Err e, s1) => (Err e, s1)
      | (Ok r, s1) =>
          if bool_decide (r.(status) = Fenced) then (Err ScopeLockFenced, s1)
          else if negb (granted r) then (Err (ScopeLockBusy r), s1)
          else
            let '(out, s2) := body r s1 in
            match r.(lock_ids) with
            | [] => (out, s2)
            | ids =>
                match release_scope clock_end (identity h) generation (Some ids) NowNone s2 with
                | (Err e, s3) => (Err e, s3)
                | (Ok _, s3) => (out, s3)
                end
            end
      end
  end.
End acquire.

(** ** Waiters *)

Definition parked (r : WaiterRow) : bool :=
  match r.(cleared_at) with None => true | Some _ => false end.
Definition waiter_of (h : HolderKind * string) (r : WaiterRow) : bool :=
  bool_decide (r.(row_waiter).(w_holder) = h) && parked r.

Definition repoint (realm : string) (lane : Lane) (on path : string) (r : WaiterRow) : WaiterRow :=
  let w := r.(row_waiter) in
  mkWaiterRow (mkWaiter w.(w_id) realm lane w.(w_holder) on path w.(w_created_at)) r.(cleared_at).

Definition park_waiter (clock : Z) (realm : string) (h : LockHolder) (on path : string)
    (now : now_arg) : op store lock_error nat :=
  write (λ s,
    match select (waiter_of (identity h)) s.(waiters) with
    | existing :: _ =>
        let id := existing.(row_waiter).(w_id) in
        Ok (id, mkStore s.(locks)
          (update_where (λ r, r.(row_waiter).(w_id) =? id) (repoint realm h.(holder_lane) on path)
             s.(waiters)) s.(last_waiter_id) s.(ids_drawn))
    | [] =>
        let id := S s.(last_waiter_id) in
        let w := mkWaiter id realm h.(holder_lane) (identity h) on path (now_iso clock now) in
        Ok (id, mkStore s.(locks) (s.(waiters) ++ [mkWaiterRow w None]) id s.(ids_drawn))
    end).

Definition waiting_rows (realm : string) (s : store) : list WaiterRow :=
  sort_by (λ r, r.(row_waiter).(w_id))
    (select (λ r, bool_decide (r.(row_waiter).(w_realm) = realm) && parked r) s.(waiters)).
Definition next_waiter (realm : string) (s : store) : option Waiter :=
  row_waiter <$> head (waiting_rows realm s).
Definition waiting_in_realm (realm : string) (s : store) : list Waiter :=
  map row_waiter (waiting_rows realm s).

Definition clear_row (now : Z) (r : WaiterRow) : WaiterRow := mkWaiterRow r.(row_waiter) (Some now).
Definition clear_waiter (clock : Z) (h : HolderKind * string) (now : now_arg) :
    op store lock_error nat :=
  write (λ s,
    let p := waiter_of h in
    Ok (rowcount p s.(waiters),
        mkStore s.(locks) (update_where p (clear_row (now_iso clock now)) s.(waiters))
          s.(last_waiter_id) s.(ids_drawn))).
