(* ===== verification/ScopeLockSafety.v ===== *)
(** * ScopeLockSafety: what the path-lock store guarantees

    Invariants of the store (unique ids, the partial unique index, mutual
    exclusion), preserved by every operation, and the functional behaviour of
    acquire, renew, release, reap and the waiter queue. *)

From Stdlib Require Import Ascii QArith.
From S2P Require Import Prelude PyString PyPath PathContainment ScopePaths ScopeConflict ScopeConfig ScopeLocks.
Open Scope nat_scope.

Abbreviation row_id r := (r.(row_lock).(l_id)).
Abbreviation row_key r := (key r.(row_lock)).
Abbreviation row_holder r := (r.(row_lock).(l_holder)).

(** ** What no statement of the store changes in a row *)

Definition static (l : HeldLock) :=
  (l.(l_id), l.(l_realm), l.(l_rel_path), l.(l_kind), l.(l_holder), l.(l_owner_group),
   l.(l_purpose)).

Lemma static_as_claim l k : static l = static k → as_claim l = as_claim k.
Proof. unfold static, as_claim. by intros [= -> -> -> -> _ -> ->]. Qed.
Lemma static_id l k : static l = static k → l.(l_id) = k.(l_id).
Proof. by intros [=]. Qed.
Lemma static_key l k : static l = static k → key l = key k.
Proof. unfold static, key. congruence. Qed.
Lemma static_holder l k : static l = static k → l.(l_holder) = k.(l_holder).
Proof. by intros [=]. Qed.

Lemma as_claim_realm l c : as_claim l = Ok c → c.(realm) = l.(l_realm) ∧ c.(kind) = l.(l_kind).
Proof.
  unfold as_claim. intros (cs & _ & Hc)%bind_Ok. unfold check_claim in Hc. simpl in Hc.
  repeat (case_match; [done|]). by simplify_eq.
Qed.

(** ** Liveness of rows *)

Lemma live_spec now r :
  live now r = true ↔ r.(released_at) = None ∧ (now < r.(row_lock).(l_expires_at))%Z.
Proof.
  unfold live, unreleased, expired. rewrite andb_true_iff, negb_true_iff, Z.leb_gt.
  destruct (released_at r); naive_solver.
Qed.

Lemma live_mono now u r : (now ≤ u)%Z → live u r = true → live now r = true.
Proof. rewrite !live_spec. intros ? [??]. split; [done|lia]. Qed.

Lemma unreleased_spec r : unreleased r = true ↔ r.(released_at) = None.
Proof. unfold unreleased. by destruct (released_at r). Qed.

#[export] Hint Resolve static_as_claim static_id static_key static_holder live_mono : omni.

(** ** Row histories

    [old_row now t r]: [r] is a later version of a row of [t], and if it is live
    at some later time then that row was live at [now]. *)

Definition old_row (now : Z) (t : list LockRow) (r : LockRow) : Prop :=
  ∃ a, a ∈ t ∧ static r.(row_lock) = static a.(row_lock) ∧
    (unreleased r = true → unreleased a = true) ∧
    (∀ u, (now ≤ u)%Z → live u r = true → live now a = true).

Lemma old_row_refl now t r : r ∈ t → old_row now t r.
Proof. intros Hr. exists r. split_and!; eauto with omni. Qed.

Lemma old_row_release now t r at_ : old_row now t r → old_row now t (release_row at_ r).
Proof. intros (a & Ha & Hs & _ & _). exists a. by split_and!. Qed.

(** An extended row is old as long as the row it extends was live. *)
Lemma old_row_extend now t (r r' : LockRow) :
  static r'.(row_lock) = static r.(row_lock) → r'.(released_at) = r.(released_at) →
  (∀ a, a ∈ t → static r.(row_lock) = static a.(row_lock) → unreleased a = true → live now a = true) →
  old_row now t r → old_row now t r'.
Proof.
  intros Hs Hrel Hlive (a & Ha & Hsa & Hu & _). exists a. split_and!; [done|congruence| |].
  - unfold unreleased. by rewrite Hrel.
  - intros u _ [Hn _]%live_spec. apply Hlive; [done..|]. apply Hu. unfold unreleased.
    by rewrite <-Hrel, Hn.
Qed.

Lemma old_row_trans now t t' r :
  old_row now t' r → (∀ a, a ∈ t' → old_row now t a) → old_row now t r.
Proof.
  intros (b & Hb & Hs & Hu & Hl) Ht. destruct (Ht b Hb) as (a & Ha & Hs' & Hu' & Hl').
  exists a. split_and!; [done|congruence|auto|].
  intros u Hle Hlive. apply (Hl' now); [lia|]. eauto.
Qed.

(** Every row of a table only grew older. *)
Definition aged (now : Z) (t t' : list LockRow) : Prop := ∀ r, r ∈ t' → old_row now t r.

Lemma aged_refl now t : aged now t t.
Proof. intros r. apply old_row_refl. Qed.
Lemma aged_trans now t1 t2 t3 : aged now t1 t2 → aged now t2 t3 → aged now t1 t3.
Proof. intros H1 H2 r Hr. eapply old_row_trans; [by apply H2|done]. Qed.

Lemma aged_update_release now at_ p t : aged now t (update_where p (release_row at_) t).
Proof.
  intros r (a & Ha & ->)%elem_of_update_where.
  case_match; [apply old_row_release|]; by apply old_row_refl.
Qed.

Lemma aged_update_extend now (f : LockRow → LockRow) p t :
  (∀ r, static (f r).(row_lock) = static r.(row_lock) ∧ (f r).(released_at) = r.(released_at)) →
  (∀ r, r ∈ t → p r = true → live now r = true) →
  aged now t (update_where p f t).
Proof.
  intros Hf Hp r (a & Ha & ->)%elem_of_update_where. destruct (p a) eqn:E; [|by apply old_row_refl].
  destruct (Hf a) as [Hs Hr]. exists a. split_and!; [done|done| |auto].
  unfold unreleased. by rewrite Hr.
Qed.

(** ** The three table invariants *)

(** Two live rows of different holders reserve disjoint sets of paths. *)
Definition exclusive (now : Z) (t : list LockRow) : Prop :=
  ∀ a b ca cb, a ∈ t → b ∈ t → live now a = true → live now b = true →
    row_holder a ≠ row_holder b →
    as_claim a.(row_lock) = Ok ca → as_claim b.(row_lock) = Ok cb → ca.(realm) = cb.(realm) →
    ¬ ∃ path, covers ca path ∧ covers cb path.

Definition unique_ids (t : list LockRow) : Prop := NoDup (map (λ r, row_id r) t).
(** [idx_resource_locks_live] *)
Definition unique_keys (t : list LockRow) : Prop := NoDup (map (λ r, row_key r) (select unreleased t)).

(** Every row reads back as a claim. *)
Definition readable (t : list LockRow) : Prop :=
  ∀ r, r ∈ t → is_ok (as_claim r.(row_lock)) = true.

Lemma readable_aged now t t' : aged now t t' → readable t → readable t'.
Proof.
  intros Ha Hr r Hin. destruct (Ha r Hin) as (a & Hat & Hs & _).
  rewrite (static_as_claim _ _ Hs). by apply Hr.
Qed.

Record invariant (now : Z) (s : store) : Prop := {
  inv_ids : unique_ids s.(locks);
  inv_keys : unique_keys s.(locks);
  inv_readable : readable s.(locks);
  inv_exclusive : exclusive now s.(locks);
}.

Lemma exclusive_aged now u t t' :
  (now ≤ u)%Z → aged now t t' → exclusive now t → exclusive u t'.
Proof.
  intros Hle Haged Hex a b ca cb Ha Hb Hla Hlb Hne Hca Hcb Hrealm.
  destruct (Haged a Ha) as (a0 & Ha0 & Hsa & _ & Hl1), (Haged b Hb) as (b0 & Hb0 & Hsb & _ & Hl2).
  apply (Hex a0 b0); eauto.
  - by rewrite <-(static_holder _ _ Hsa), <-(static_holder _ _ Hsb).
  - by rewrite <-(static_as_claim _ _ Hsa).
  - by rewrite <-(static_as_claim _ _ Hsb).
Qed.

Lemma unique_ids_update p f t :
  (∀ r, static (f r).(row_lock) = static r.(row_lock)) →
  unique_ids t → unique_ids (update_where p f t).
Proof.
  intros Hf. unfold unique_ids. rewrite update_where_map; [done|].
  intros r _ _. apply static_id, Hf.
Qed.

Lemma unique_keys_update p f t :
  (∀ r, static (f r).(row_lock) = static r.(row_lock)) →
  (∀ r, unreleased (f r) = true → unreleased r = true) →
  unique_keys t → unique_keys (update_where p f t).
Proof.
  intros Hs Hu. unfold unique_keys, update_where. induction t as [|r t IH]; [done|].
  cbn [map select List.filter]. unfold select in *. cbn [List.filter].
  assert (∀ x, x ∈ map (λ r, row_key r)
      (List.filter unreleased (map (λ r, if p r then f r else r) t)) →
      x ∈ map (λ r, row_key r) (List.filter unreleased t)) as Hsub.
  { intros x Hx. apply list_elem_of_fmap in Hx as (y & -> & Hy).
    apply list_elem_of_In, filter_In in Hy as [Hy Hun]. apply list_elem_of_In in Hy.
    apply list_elem_of_fmap in Hy as (z & -> & Hz). apply list_elem_of_fmap.
    exists z. destruct (p z); (split; [by rewrite ?(static_key _ _ (Hs z))|]);
      apply list_elem_of_In, filter_In; rewrite <-list_elem_of_In; auto. }
  destruct (unreleased r) eqn:Er.
  - cbn [map]. rewrite NoDup_cons. intros [Hnin Hnd].
    destruct (unreleased (if p r then f r else r)) eqn:Er'; [|by apply IH].
    cbn [map]. rewrite NoDup_cons. split; [|by apply IH].
    intros Hin%Hsub. apply Hnin. destruct (p r); [|done]. by rewrite (static_key _ _ (Hs r)) in Hin.
  - intros Hnd. destruct (unreleased (if p r then f r else r)) eqn:Er'; [|by apply IH].
    exfalso. destruct (p r); [apply Hu in Er'|]; congruence.
Qed.

(** One UPDATE keeps the invariant when it only ages rows. *)
Lemma invariant_update now u p f s :
  (now ≤ u)%Z →
  (∀ r, static (f r).(row_lock) = static r.(row_lock)) →
  (∀ r, unreleased (f r) = true → unreleased r = true) →
  aged u s.(locks) (update_where p f s.(locks)) →
  invariant now s → invariant u (set_locks (update_where p f) s).
Proof.
  intros Hle Hs Hu Haged [Hi Hk Hr He]. split; simpl.
  - by apply unique_ids_update.
  - by apply unique_keys_update.
  - by eapply readable_aged.
  - eapply (exclusive_aged u); [done|exact Haged|].
    eapply exclusive_aged; [exact Hle| |exact He]. apply aged_refl.
Qed.

Lemma static_release at_ r : static (release_row at_ r).(row_lock) = static r.(row_lock).
Proof. done. Qed.
Lemma static_extend e r : static (extend_row e r).(row_lock) = static r.(row_lock).
Proof. done. Qed.
Lemma static_adopt e g r : static (adopt_row e g r).(row_lock) = static r.(row_lock).
Proof. done. Qed.
#[export] Hint Resolve static_release static_extend static_adopt : omni.

Lemma invariant_release now u at_ p s :
  (now ≤ u)%Z → invariant now s → invariant u (set_locks (update_where p (release_row at_)) s).
Proof. intros Hle. apply invariant_update; auto using aged_update_release with omni. done. Qed.

Lemma invariant_mono now u s : (now ≤ u)%Z → invariant now s → invariant u s.
Proof. intros ? [????]. split; eauto using exclusive_aged, aged_refl. Qed.

(** The waiter queue is not part of it. *)
Lemma invariant_locks now s s' : s'.(locks) = s.(locks) → invariant now s → invariant now s'.
Proof. intros E [????]. by split; rewrite E. Qed.

Lemma invariant_reap now u limit s :
  (now ≤ u)%Z → invariant now s → invariant u (reap_locked u limit s).2.
Proof. apply invariant_release. Qed.

(** ** The acquire transaction *)

(** A claim whose stored text reads back as itself. *)
Definition canonical (c : ScopeClaim) : Prop :=
  check_claim c = Ok c ∧ wire_safe_components c.(components) = true.

Lemma check_claim_ok c d :
  check_claim c = Ok d ↔
  d = c ∧ c.(realm) ≠ "" ∧ strip c.(realm) ≠ "" ∧ forallb valid_component c.(components) = true ∧
  (c.(kind) = KFile → c.(components) ≠ []) ∧ c.(purpose) ≠ "".
Proof.
  unfold check_claim. split.
  - repeat (case_match; [done|]). intros [= ->]. bool_prop. split_and!; try done.
    intros Hk Hc. by rewrite Hk, Hc in *.
  - intros (-> & ? & ? & Hv & Hk & ?). rewrite !(bool_decide_false (_ = "")) by done. rewrite Hv. simpl.
    destruct (kind c); [|by rewrite (bool_decide_false (KRoot = KFile))].
    rewrite (bool_decide_false (_ = [])) by auto. by rewrite andb_false_r.
Qed.


(** [r] was written for one of the candidates, for holder [h]. *)
Definition new_row (h : HolderKind * string) (candidates : list ScopeClaim) (r : LockRow) : Prop :=
  ∃ c, c ∈ candidates ∧ r.(row_lock).(l_realm) = c.(realm) ∧
    r.(row_lock).(l_rel_path) = path_text c ∧ r.(row_lock).(l_kind) = c.(kind) ∧
    r.(row_lock).(l_holder) = h ∧ r.(row_lock).(l_purpose) = stored_purpose c.(purpose).

Lemma new_row_static h cands r r' :
  static r'.(row_lock) = static r.(row_lock) → new_row h cands r → new_row h cands r'.
Proof. unfold static. intros [= _ E1 E2 E3 E4 _ E5] (c&?&?&?&?&?&?). exists c. split_and!; congruence. Qed.

Lemma stored_purpose_nonempty p : stored_purpose p ≠ "".
Proof. unfold stored_purpose. by case_bool_decide. Qed.

(** The claim a row written for a canonical candidate reads back as. *)
Lemma as_claim_new_row h cands r :
  Forall canonical cands → new_row h cands r →
  ∃ c d, c ∈ cands ∧ as_claim r.(row_lock) = Ok d ∧
    d.(realm) = c.(realm) ∧ d.(kind) = c.(kind) ∧ d.(components) = c.(components).
Proof.
  intros Hcan (c & Hc & Hr & Hp & Hk & _ & Hpu). rewrite Forall_forall in Hcan.
  destruct (Hcan c Hc) as [(_ & Hre & Hrs & Hv & Hkf & _)%check_claim_ok Hw].
  unfold as_claim. rewrite Hp. unfold path_text.
  rewrite normalize_rel_text_safe; [|by apply Forall_forall; intros ? ?%list_elem_of_In; eapply forallb_forall|done].
  simpl. eexists c, _. split; [done|]. split; [|split_and!].
  - apply check_claim_ok. simpl. rewrite Hr, Hk, Hpu.
    split_and!; [done..|apply stored_purpose_nonempty].
  - done.
  - done.
  - done.
Qed.

Section insert_loop.
  Context (new_id : nat → string).

Lemma insert_lock_ok c h g a e s id s' :
  insert_lock new_id c h g a e s = Ok (id, s') →
  ∃ r, s'.(locks) = s.(locks) ++ [r] ∧ r.(released_at) = None ∧ row_id r = id ∧
    row_key r = claim_key c ∧ row_holder r = identity h ∧ r.(row_lock).(l_generation) = g ∧
    r.(row_lock).(l_expires_at) = e ∧ new_row (identity h) [c] r ∧
    ¬ (id ∈ map (λ r, row_id r) s.(locks)) ∧
    (∀ x, x ∈ s.(locks) → unreleased x = true → row_key x ≠ claim_key c) ∧
    s'.(waiters) = s.(waiters).
Proof using new_id.
  unfold insert_lock. case_bool_decide as Hid; [done|]. destruct (existsb _ _) eqn:Ek; [done|].
  intros [= <- <-]. eexists. split_and!; try done.
  - exists c. split_and!; [set_solver|done..].
  - intros x Hx Hu Hk. 
    apply not_true_iff_false in Ek. apply Ek. apply existsb_exists. exists x.
    rewrite <-list_elem_of_In, Hu. split; [done|]. by apply bool_decide_eq_true.
Qed.

Lemma unique_keys_insert t r :
  unique_keys t → (∀ x, x ∈ t → unreleased x = true → row_key x ≠ row_key r) →
  unique_keys (t ++ [r]).
Proof using.
  unfold unique_keys, select. intros Hnd Hx. rewrite List.filter_app, map_app. apply NoDup_app.
  split_and!; [done| |].
  - intros k Hk Hk'. apply list_elem_of_fmap in Hk as (x & -> & Hin).
    apply list_elem_of_In, filter_In in Hin as [Hin Hun].
    simpl in Hk'. destruct (unreleased r); [|by apply not_elem_of_nil in Hk'].
    apply list_elem_of_singleton in Hk'. eapply Hx; eauto. by apply list_elem_of_In.
  - simpl. destruct (unreleased r); simpl; [apply NoDup_singleton|apply NoDup_nil_2].
Qed.

Lemma unique_ids_insert t r :
  unique_ids t → row_id r ∉ map (λ r, row_id r) t → unique_ids (t ++ [r]).
Proof using.
  unfold unique_ids. intros Hnd Hr. rewrite map_app. apply NoDup_app. split_and!; [done| |].
  - intros i Hi Hi'. apply list_elem_of_singleton in Hi' as ->. done.
  - apply NoDup_singleton.
Qed.

(** Every row the loop leaves behind is an old row or one of its own. *)
Lemma insert_loop_rows t0 own fk h g now e all cands ids sk s ids' sk' s' :
  unique_ids t0 →
  (∀ l, l ∈ own → ∃ b, b ∈ t0 ∧ b.(row_lock) = l ∧ live now b = true) →
  (∀ c, c ∈ cands → c ∈ all) →
  insert_loop new_id own fk h g now e cands ids sk s = Ok (ids', sk', s') →
  (∀ r, r ∈ s.(locks) → old_row now t0 r ∨ new_row (identity h) all r) →
  ∀ r, r ∈ s'.(locks) → old_row now t0 r ∨ new_row (identity h) all r.
Proof using new_id.
  intros Hids Hown. revert ids sk s. induction cands as [|c cands IH]; intros ids sk s Hsub Hrun Hs.
  { by simplify_eq/=. }
  simpl in Hrun. assert (∀ c, c ∈ cands → c ∈ all) as Hsub' by set_solver.
  destruct (List.find _ (rev own)) as [l|] eqn:Ef; [|case_bool_decide; [by eapply IH|]].
  - apply find_some in Ef as [Hl%in_rev _]. apply list_elem_of_In, Hown in Hl as (b & Hb & Hbl & Hlive).
    eapply IH; [done|exact Hrun|]. cbn [locks set_locks].
    intros r (a & Ha & ->)%elem_of_update_where. destruct (_ && _) eqn:Em; [|auto]. bool_prop.
    destruct (Hs a Ha) as [Hold|Hnew]; [left|right; by eapply new_row_static].
    apply (old_row_extend now t0 a); [done..| |exact Hold].
    intros x Hx Hsx Hux. assert (x = b) as ->; [|done].
    eapply (NoDup_map_inj (λ r, row_id r)); [exact Hids|done..|].
    rewrite Hbl, <-(static_id _ _ Hsx). done.
  - apply bind_Ok in Hrun as ([id s1] & Hins & Hrun).
    apply insert_lock_ok in Hins as (r1 & Hl1 & _ & _ & _ & _ & _ & _ & Hnew & _).
    eapply IH; [done|exact Hrun|]. rewrite Hl1. intros r [Hr| ->%list_elem_of_singleton]%elem_of_app; [auto|].
    right. destruct Hnew as (c' & ->%list_elem_of_singleton & Hrest). exists c. split; [set_solver|done].
Qed.

Lemma insert_loop_unique own fk h g now e cands ids sk s ids' sk' s' :
  insert_loop new_id own fk h g now e cands ids sk s = Ok (ids', sk', s') →
  unique_ids s.(locks) → unique_keys s.(locks) → unique_ids s'.(locks) ∧ unique_keys s'.(locks).
Proof using new_id.
  revert ids sk s. induction cands as [|c cands IH]; intros ids sk s Hrun Hi Hk.
  { by simplify_eq/=. }
  simpl in Hrun. destruct (List.find _ (rev own)) as [l|] eqn:Ef; [|case_bool_decide; [by eapply IH|]].
  - eapply IH; [exact Hrun|by apply unique_ids_update|by apply unique_keys_update].
  - apply bind_Ok in Hrun as ([id s1] & Hins & Hrun).
    apply insert_lock_ok in Hins as (r1 & Hl1 & _ & Hid & Hkey & _ & _ & _ & _ & Hnid & Hnk & _).
    eapply IH; [exact Hrun|rewrite Hl1..].
    + apply unique_ids_insert; [done|by rewrite Hid].
    + apply unique_keys_insert; [done|]. by rewrite Hkey.
Qed.
End insert_loop.

(** The table the decision is made on: reaped, and with the holder's rows given
    up when it is replacing its scope. *)
Definition decision_store (h : LockHolder) (replace : bool) (now : Z) (s0 : store) : store :=
  let s1 := (reap_locked now REAP_LIMIT s0).2 in
  if replace && negb (bool_decide (length (own_locks_locked h now s1) = 0))
  then set_locks (update_where (λ r, held_by_id (identity h) r && unreleased r) (release_row now)) s1
  else s1.

Definition retained (h : LockHolder) (replace : bool) (now : Z) (s0 : store) : list HeldLock :=
  let mine := own_locks_locked h now (reap_locked now REAP_LIMIT s0).2 in
  if replace && negb (bool_decide (length mine = 0)) then [] else mine.

Lemma invariant_decision now u h replace s :
  (now ≤ u)%Z → invariant now s → invariant u (decision_store h replace u s).
Proof.
  intros Hle Hs. unfold decision_store. case_match; [|by eapply invariant_reap].
  eapply (invariant_release u); [lia|]. by eapply invariant_reap.
Qed.

Lemma retained_live h replace now s l :
  l ∈ retained h replace now s →
  ∃ b, b ∈ (decision_store h replace now s).(locks) ∧ b.(row_lock) = l ∧ live now b = true ∧
       l.(l_holder) = identity h.
Proof.
  unfold retained, decision_store. case_match; [by intros ?%not_elem_of_nil|].
  unfold own_locks_locked. intros (b & -> & Hb)%list_elem_of_fmap. exists b.
  apply elem_of_select in Hb as [Hb Hp]. apply andb_true_iff in Hp as [Hp Hl].
  unfold held_by_id in Hp. by apply bool_decide_eq_true in Hp.
Qed.

Section acquire_safety.
  Context {RI : RealmIdentity} (new_id : nat → string).

Lemma acquire_body_inv cands h g mode replace now e s0 r s' :
  acquire_body new_id cands h g mode replace now e s0 = Ok (r, s') →
  (r = plain_result Fenced mode ∧ s' = (reap_locked now REAP_LIMIT s0).2 ∧
   ∃ m, highest_generation (identity h) s' = Some m ∧ (g < m)%Z) ∨
  (∃ table ids skipped,
    let s2 := decision_store h replace now s0 in
    let live_of := live_by_realm_locked (remove_dups (map ScopeConflict.realm cands)) h now s2 in
    traverse (λ p : string * list HeldLock,
      claims ← traverse (λ l, map_err ClaimError (as_claim l)) p.2; Ok (p.1, claims)) live_of
      = Ok table ∧
    (mode = ModeEnforce → scan_conflicts table cands = None) ∧
    insert_loop new_id (retained h replace now s0) (map key (concat (map snd live_of))) h g now e
      cands [] [] s2 = Ok (ids, skipped, s') ∧
    r = mkResult Granted mode ids (scan_conflicts table cands)
          (match scan_conflicts table cands with Some _ => true | None => false end) skipped).
Proof.
  unfold acquire_body. cbn zeta. fold (decision_store h replace now s0) (retained h replace now s0).
  case_match eqn:Ef.
  { intros [= <- <-]. left. split_and!; [done..|]. case_match; [|done]. eexists. by split; [|apply Z.ltb_lt]. }
  clear Ef. intros (table & Ht & Hrun)%bind_Ok. right. exists table.
  destruct (scan_conflicts table cands) as [c|] eqn:Esc.
  - destruct mode; [..|done];
      (apply bind_Ok in Hrun as ([[ids sk] s3] & Hl & [= <- <-]); exists ids, sk; by split_and!).
  - apply bind_Ok in Hrun as ([[ids sk] s3] & Hl & Hr). exists ids, sk.
    destruct mode; injection Hr as <- <-; by split_and!.
Qed.

Lemma scan_conflicts_None table cands c claims :
  scan_conflicts table cands = None → c ∈ cands →
  List.find (λ p, bool_decide (p.1 = c.(realm))) table = Some (c.(realm), claims) →
  ∀ d, d ∈ claims → conflicts_with c d = None.
Proof using RI.
  induction cands as [|c' cands IH]; intros Hs Hc Hf; [by apply not_elem_of_nil in Hc|].
  cbn [scan_conflicts] in Hs. destruct (first_conflict c' _) eqn:Ef; [done|].
  apply elem_of_cons in Hc as [->|Hc]; [|by apply IH].
  rewrite Hf in Ef. by apply first_conflict_None.
Qed.

(** The live foreign rows of a candidate's realm are the ones scanned. *)
Lemma table_lookup (live_of : string → list HeldLock) realms table x :
  traverse (λ p : string * list HeldLock,
      claims ← traverse (λ l, map_err ClaimError (as_claim l)) p.2; Ok (p.1, claims))
    (map (λ x, (x, live_of x)) realms) = Ok table →
  x ∈ realms →
  ∃ claims, List.find (λ p, bool_decide (p.1 = x)) table = Some (x, claims) ∧
    ∀ l, l ∈ live_of x → ∃ d, as_claim l = Ok d ∧ d ∈ claims.
Proof using.
  revert table. induction realms as [|y realms IH]; intros table Ht Hx; [by apply not_elem_of_nil in Hx|].
  cbn [traverse map] in Ht.
  apply bind_Ok in Ht as (p & (claims & Hc & [= <-])%bind_Ok & Ht).
  apply bind_Ok in Ht as (ps & Ht & [= <-]). cbn [List.find fst].
  case_bool_decide as Hy; cbn [fst] in Hy.
  - subst y. exists claims. split; [done|]. intros l Hl. cbn [snd] in Hc.
    apply traverse_Ok in Hc. apply list_elem_of_lookup in Hl as [i Hi].
    destruct (Forall2_lookup_l _ _ _ _ _ Hc Hi) as (d & Hd & Had).
    exists d. split; [|by eapply list_elem_of_lookup_2]. destruct (as_claim l); [by injection Had as ->|done].
  - apply IH; [done|]. by apply elem_of_cons in Hx as [->|].
Qed.

Lemma elem_of_live_foreign x h now s l :
  l ∈ live_foreign x h now s ↔
  ∃ b, b ∈ s.(locks) ∧ b.(row_lock) = l ∧ l.(l_realm) = x ∧ live now b = true ∧
       l.(l_holder) ≠ identity h.
Proof using.
  unfold live_foreign. rewrite list_elem_of_In, filter_In, <-list_elem_of_In, elem_of_sort_by.
  rewrite list_elem_of_fmap, negb_true_iff, bool_decide_eq_false. split.
  - intros [(b & -> & [Hb [Hr Hl]%andb_true_iff]%elem_of_select) Hh].
    apply bool_decide_eq_true in Hr. by exists b.
  - intros (b & Hb & <- & Hr & Hl & Hh). split; [|done]. exists b. split; [done|].
    apply elem_of_select. split; [done|]. by rewrite (bool_decide_true _ Hr), Hl.
Qed.

(** An enforcing transaction keeps live locks of different holders disjoint. *)
Lemma invariant_acquire cands h g replace t u e s0 r s' :
  Forall canonical cands → (t ≤ u)%Z → invariant t s0 →
  acquire_body new_id cands h g ModeEnforce replace u e s0 = Ok (r, s') → invariant u s'.
Proof.
  intros Hcan Hle Hinv Hrun.
  destruct (acquire_body_inv _ _ _ _ _ _ _ _ _ _ Hrun)
    as [(_ & -> & _)|(table & ids & sk & Ht & Hscan & Hloop & _)]; [by eapply invariant_reap|].
  specialize (Hscan eq_refl). pose proof (invariant_decision _ _ h replace _ Hle Hinv) as [Hi Hk Hrd He].
  set (s2 := decision_store h replace u s0) in *.
  destruct (insert_loop_unique _ _ _ _ _ _ _ _ _ _ _ _ _ _ Hloop Hi Hk) as [Hi' Hk'].
  assert (∀ r, r ∈ locks s' → old_row u (locks s2) r ∨ new_row (identity h) cands r) as Hrows.
  { eapply insert_loop_rows; [exact Hi| | |exact Hloop|]; [|done|eauto using old_row_refl].
    intros l (b & ? & ? & ? & _)%retained_live. eauto. }
  split; [done..| |].
  { intros x [(b & Hb & Hs & _)|Hnew]%Hrows.
    - rewrite (static_as_claim _ _ Hs). by apply Hrd.
    - by destruct (as_claim_new_row _ _ _ Hcan Hnew) as (? & ? & _ & -> & _). }
  assert (∀ a b ca cb, new_row (identity h) cands a → old_row u (locks s2) b → live u b = true →
    row_holder a ≠ row_holder b → as_claim a.(row_lock) = Ok ca → as_claim b.(row_lock) = Ok cb →
    ca.(realm) = cb.(realm) → ¬ ∃ path, covers ca path ∧ covers cb path) as Hmixed.
  { intros a b ca cb Ha (b0 & Hb0 & Hst & _ & Hl) Hlive Hne Hca Hcb Hr.
    assert (row_holder a = identity h) as Hah by (destruct Ha as (?&?&?&?&?&?&?); done).
    destruct (as_claim_new_row _ _ _ Hcan Ha) as (c & d & Hc & Hd & Ecr & Eck & Ecc).
    rewrite Hca in Hd. injection Hd as <-.
    pose proof (static_as_claim _ _ Hst) as Has. pose proof (static_holder _ _ Hst) as Hho.
    rewrite Has in Hcb. destruct (as_claim_realm _ _ Hcb) as [Erb _].
    destruct (table_lookup (λ x, live_foreign x h u s2) _ _ c.(realm) Ht) as (claims & Hf & Hcl).
    { apply elem_of_remove_dups, list_elem_of_fmap. eauto. }
    destruct (Hcl b0.(row_lock)) as (d & Hd & Hin).
    { apply elem_of_live_foreign. exists b0. split_and!; [done|done|congruence|by eapply Hl|congruence]. }
    rewrite Hcb in Hd. injection Hd as <-.
    pose proof (scan_conflicts_None _ _ _ _ Hscan Hc Hf _ Hin) as Hnone.
    assert (c.(realm) = cb.(realm)) as Ecb by congruence.
    intros (path & Hpa & Hpb). destruct (proj2 (conflicts_with_covers c cb Ecb)) as [x Hx].
    - exists path. split; [|done]. unfold covers in *. by rewrite <-Eck, <-Ecc.
    - by rewrite Hnone in Hx. }
  intros a b ca cb Ha Hb Hla Hlb Hne Hca Hcb Hr.
  destruct (Hrows a Ha) as [Hoa|Hna], (Hrows b Hb) as [Hob|Hnb].
  - destruct Hoa as (a0 & Ha0 & Hsa & _ & Hl1), Hob as (b0 & Hb0 & Hsb & _ & Hl2).
    apply (He a0 b0 ca cb); [done|done|by eapply Hl1|by eapply Hl2| | | |done].
    + by rewrite <-(static_holder _ _ Hsa), <-(static_holder _ _ Hsb).
    + by rewrite <-(static_as_claim _ _ Hsa).
    + by rewrite <-(static_as_claim _ _ Hsb).
  - intros (path & ? & ?). eapply (Hmixed b a cb ca); eauto.
  - eapply (Hmixed a b); eauto.
  - exfalso. apply Hne. destruct Hna as (?&_&_&_&_&->&_), Hnb as (?&_&_&_&_&->&_). done.
Qed.

Lemma with_owner_canonical c g d :
  with_owner c g = Ok d → canonical c →
  canonical d ∧ d.(realm) = c.(realm) ∧ d.(components) = c.(components) ∧ d.(kind) = c.(kind) ∧
  d.(purpose) = c.(purpose).
Proof using.
  unfold with_owner. case_bool_decide; [by intros [= ->]|].
  intros Hd [Hc Hw]. pose proof Hd as Hd'. apply check_claim_ok in Hd as [-> _].
  by split_and!; [split|..].
Qed.

Lemma prepare_canonical claims group cands :
  prepare claims group = Ok cands → Forall canonical claims → Forall canonical cands.
Proof using.
  unfold prepare. intros (res & Hres & [= <-])%bind_Ok Hcl.
  assert (Forall canonical res) as Hr.
  { apply traverse_Ok in Hres. induction Hres as [|c d cs ds Hcd Hrest IH]; [done|].
    apply Forall_cons in Hcl as [Hc Hcl]. constructor; [|by apply IH].
    destruct group as [g|]; [|by simplify_eq].
    destruct (with_owner c g) eqn:E; simpl in Hcd; simplify_eq.
    by destruct (with_owner_canonical _ _ _ E Hc). }
  rewrite Forall_forall in *. intros c Hc%elem_of_sort_by.
  assert (∀ l acc, c ∈ foldl setdefault_claim acc l → c ∈ acc ∨ c ∈ l) as Hfold.
  { induction l as [|x l IHl]; intros acc; simpl; [auto|]. intros [Hin|Hin]%IHl; [|set_solver].
    unfold setdefault_claim in Hin. case_bool_decide; set_solver. }
  destruct (Hfold _ _ Hc) as [?%not_elem_of_nil|Hin]; [done|by apply Hr].
Qed.

End acquire_safety.

(** ** Reachable stores *)

Section reachability.
  Context {RI : RealmIdentity} (new_id : nat → string).

(** One operation of some process at clock [u]; [ok] restricts the acquires. *)
Inductive lock_step (ok : ScopeLockMode → list ScopeClaim → Prop) (u : Z) (s : store) :
    store → Prop :=
  | step_acquire cfg claims h g ttl enforce group replace :
      ok (effective_mode cfg enforce) claims →
      lock_step ok u s
        (acquire_or_disabled new_id cfg u claims h g ttl enforce group NowNone replace s).2
  | step_renew cfg h g ttl : lock_step ok u s (renew_scope cfg u h g ttl NowNone s).2
  | step_release h g ids : lock_step ok u s (release_scope u h g ids NowNone s).2
  | step_reap limit : lock_step ok u s (reap_expired u NowNone limit s).2
  | step_park realm h on path : lock_step ok u s (park_waiter u realm h on path NowNone s).2
  | step_clear h : lock_step ok u s (clear_waiter u h NowNone s).2.

(** Every lane enforces (or has the feature off) and passes claims whose text
    reads back. *)
Definition enforced (m : ScopeLockMode) (claims : list ScopeClaim) : Prop :=
  m ≠ ModeShadow ∧ Forall canonical claims.

Inductive reachable : Z → store → Prop :=
  | reach_empty t : reachable t empty_store
  | reach_step t u s s' : reachable t s → (t ≤ u)%Z → lock_step enforced u s s' → reachable u s'.

Lemma acquire_locked_inv clock dttl claims h g ttl mode group now replace s r s' :
  acquire_locked new_id clock dttl claims h g ttl mode group now replace s = (r, s') →
  s' = s ∨ ∃ cands res, prepare claims group = Ok cands ∧ r = Ok res ∧
    acquire_body new_id cands h g mode replace (now_iso clock now)
      (plus_seconds (now_iso clock now) (default dttl ttl)) s = Ok (res, s').
Proof.
  unfold acquire_locked. destruct (prepare claims group) as [cands|]; [|intros [= _ <-]; auto].
  cbn zeta. destruct (Qle_bool _ _); [intros [= _ <-]; auto|]. unfold write.
  destruct (acquire_body _ _ _ _ _ _ _ _ _) as [[res s1]|e] eqn:E; [|intros [= _ <-]; auto].
  intros [= <- <-]. right. eauto.
Qed.

Lemma acquire_inv clock dttl claims h g ttl mode group now replace s r s' :
  acquire new_id clock dttl claims h g ttl mode group now replace s = (r, s') →
  s' = s ∨ ∃ cands res, prepare claims group = Ok cands ∧ r = Ok res ∧
    acquire_body new_id cands h g mode replace (now_iso clock now)
      (plus_seconds (now_iso clock now) (default dttl ttl)) s = Ok (res, s').
Proof.
  unfold acquire. destruct (acquire_locked _ _ _ _ _ _ _ _ _ _ _ _) as [r0 s0] eqn:E.
  apply acquire_locked_inv in E. intros H.
  destruct E as [->|(cands & res & Hp & -> & Hb)]; [left; destruct r0 as [|[]]; by simplify_eq|].
  simplify_eq. right. eauto.
Qed.

Lemma invariant_step t u s s' :
  (t ≤ u)%Z → invariant t s → lock_step enforced u s s' → invariant u s'.
Proof.
  intros Hle Hs. destruct 1 as [cfg claims h g ttl enforce group replace [Hm Hcan]|cfg h g ttl|h g ids|limit|realm h on path|h].
  - unfold acquire_or_disabled. destruct (effective_mode cfg enforce); [by apply (invariant_mono t)|done|].
    destruct (acquire _ _ _ _ _ _ _ _ _ _ _ _) as [r s1] eqn:E.
    apply acquire_inv in E as [->|(cands & res & Hp & _ & Hb)]; [by apply (invariant_mono t)|].
    by eapply invariant_acquire; [eapply prepare_canonical| | |].
  - unfold renew_scope. cbn zeta. case_match; [by eapply invariant_mono|]. simpl.
    eapply invariant_update; [done|done|done| |done].
    apply aged_update_extend; [done|]. intros r _ Hr. unfold renewable in Hr. by apply andb_true_iff in Hr as [_ ?].
  - unfold release_scope. destruct ids as [[|i ids]|]; simpl.
    + by apply (invariant_mono t).
    + by eapply invariant_release.
    + by eapply invariant_release.
  - by eapply invariant_reap.
  - apply (invariant_locks u s); [|by apply (invariant_mono t)].
    unfold park_waiter, write. by destruct (select _ _).
  - by apply (invariant_locks u s); [|apply (invariant_mono t)].
Qed.

Lemma reachable_invariant u s : reachable u s → invariant u s.
Proof.
  induction 1; [|by eapply invariant_step].
  split; simpl; [apply NoDup_nil_2..| |]; intros ?; intros; by exfalso; eapply not_elem_of_nil.
Qed.


End reachability.

(** ** What a granted acquire leaves behind *)

(** [h] holds candidate [c] under generation [g] until [e], by one of the rows
    [ids]. *)
Definition holds (h : HolderKind * string) (g e : Z) (ids : list string) (s : store)
    (c : ScopeClaim) : Prop :=
  ∃ r, r ∈ s.(locks) ∧ row_key r = claim_key c ∧ row_holder r = h ∧ unreleased r = true ∧
    r.(row_lock).(l_generation) = g ∧ r.(row_lock).(l_expires_at) = e ∧ row_id r ∈ ids.

(** The rows of [own] are still in the table, unreleased. *)
Definition backed (h : HolderKind * string) (own : list HeldLock) (s : store) : Prop :=
  ∀ l, l ∈ own → ∃ r, r ∈ s.(locks) ∧ row_id r = l.(l_id) ∧ row_key r = key l ∧
    row_holder r = h ∧ unreleased r = true.

Section grant.
  Context (new_id : nat → string) (h : LockHolder) (g e : Z).

Lemma holds_adopt p ids s c :
  holds (identity h) g e ids s c →
  holds (identity h) g e ids (set_locks (update_where p (adopt_row e g)) s) c.
Proof using.
  intros (r & Hr & Hk & Hh & Hu & Hg & He & Hi). exists (if p r then adopt_row e g r else r).
  split; [apply elem_of_update_where; eauto|]. by destruct (p r).
Qed.

Lemma backed_adopt p own s :
  backed (identity h) own s → backed (identity h) own (set_locks (update_where p (adopt_row e g)) s).
Proof using.
  intros Hb l Hl. destruct (Hb l Hl) as (r & Hr & Hi & Hk & Hh & Hu).
  exists (if p r then adopt_row e g r else r).
  split; [apply elem_of_update_where; eauto|]. by destruct (p r).
Qed.

Lemma holds_weaken ids ids' s s' c :
  (∀ r, r ∈ s.(locks) → r ∈ s'.(locks)) → (∀ i, i ∈ ids → i ∈ ids') →
  holds (identity h) g e ids s c → holds (identity h) g e ids' s' c.
Proof using. intros Hs Hi (r & Hr & ? & ? & ? & ? & ? & ?). exists r. split_and!; auto. Qed.

Lemma insert_loop_holds own fk now cands ids sk s ids' sk' s' :
  backed (identity h) own s →
  insert_loop new_id own fk h g now e cands ids sk s = Ok (ids', sk', s') →
  (∀ c, holds (identity h) g e ids s c → holds (identity h) g e ids' s' c) ∧
  (∀ p, p ∈ sk → p ∈ sk') ∧
  ∀ c, c ∈ cands → holds (identity h) g e ids' s' c ∨ claim_key c ∈ fk ∧ path_text c ∈ sk'.
Proof using new_id.
  revert ids sk s. induction cands as [|c cands IH]; intros ids sk s Hb Hrun.
  { simplify_eq/=. split_and!; [auto..|]. by intros c ?%not_elem_of_nil. }
  simpl in Hrun. destruct (List.find _ (rev own)) as [l|] eqn:Ef; [|case_bool_decide as Hfk].
  - apply find_some in Ef as [Hl%in_rev Hk]. apply list_elem_of_In in Hl. apply bool_decide_eq_true in Hk.
    apply IH in Hrun as (Hh & Hs & Hc); [|by apply backed_adopt].
    assert (∀ c, holds (identity h) g e ids s c → holds (identity h) g e ids' s' c) as Hkeep.
    { intros d Hd. apply Hh. apply holds_adopt. eapply holds_weaken; [| |exact Hd]; set_solver. }
    split_and!; [done..|]. intros d [->|Hd]%elem_of_cons; [left|by apply Hc].
    apply Hh. destruct (Hb l Hl) as (r & Hr & Hi & Hkr & Hho & Hu). exists (adopt_row e g r).
    split; [apply elem_of_update_where; exists r; by rewrite Hi, Hu, bool_decide_true|].
    split; [change (row_key r = claim_key c); congruence|]. split_and!; [done..|].
    change (row_id r ∈ ids ++ [l.(l_id)]). rewrite Hi. set_solver.
  - apply IH in Hrun as (Hh & Hs & Hc); [|done]. split_and!; [done|set_solver|].
    intros d [->|Hd]%elem_of_cons; [right|by apply Hc]. split; [done|]. apply Hs. set_solver.
  - apply bind_Ok in Hrun as ([id s1] & Hins & Hrun).
    apply insert_lock_ok in Hins as (r1 & Hl1 & Hrel & Hid & Hkey & Hho & Hg & He & _).
    apply IH in Hrun as (Hh & Hs & Hc).
    + split_and!; [|done|].
      * intros d Hd. apply Hh. eapply holds_weaken; [| |exact Hd]; rewrite ?Hl1; set_solver.
      * intros d [->|Hd]%elem_of_cons; [left|by apply Hc]. apply Hh. exists r1. rewrite Hl1.
        split_and!; try done; [apply elem_of_app; right; by apply list_elem_of_singleton|by unfold unreleased; rewrite Hrel|].
        rewrite Hid. set_solver.
    + intros l Hl. destruct (Hb l Hl) as (r & Hr & Hrest). exists r. rewrite Hl1.
      split; [apply elem_of_app; by left|done].
Qed.
End grant.
