(* ===== verification/ScopeSpec.v ===== *)
(** * ScopeSpec: the contract of the scope algebra

    Path normalization and its inverse, containment decided by inode identity,
    and the conflict matrix. *)

From Stdlib Require Import Ascii.
From S2P Require Import Prelude PyString PyPath PathContainment ScopePaths ScopeConflict.
Open Scope nat_scope.

(** ** Paths *)

(** [rel_text] inverts [normalize_rel] exactly on the wire-safe component
    lists; on the other valid lists (a leading tilde or drive letter, outer
    blanks, backslashes) the text reads back as something else or raises. *)
Theorem rel_text_roundtrip components :
  Forall (λ w, valid_component w = true) components →
  normalize_rel (PathStr (rel_text components)) = Ok components ↔
  wire_safe_components components = true.
Proof. split; [apply normalize_rel_text_wire|by apply normalize_rel_text_safe]. Qed.

(** normalization is exact about escapes.  A path that is not refused for its
    form is accepted exactly when no prefix of its segments climbs above the
    realm; then every component is one a claim accepts, and their number is the
    net descent of the path. *)
Theorem normalize_rel_no_escape raw :
  let segments := split slash (replace_char backslash slash (strip raw)) in
  match normalize_rel (PathStr raw) with
  | Ok out =>
      Forall (λ w, valid_component w = true) out ∧
      Z.of_nat (length out) = descent segments ∧
      ∀ k, (0 ≤ descent (take k segments))%Z
  | Err EscapesRealm => ∃ k, (descent (take k segments) < 0)%Z
  | Err e => e ∈ [OwnedPathEmpty; OwnedPathNul; NotRealmRelative]
  end.
Proof.
  cbn zeta. destruct (normalize_rel (PathStr raw)) as [out|e] eqn:E; simpl in E.
  - pose proof (normalize_text_valid _ _ E) as Hv.
    apply normalize_text_inv in E as (_ & _ & _ & _ & _ & Hw).
    destruct (normalize_walk_descent (split slash (replace_char backslash slash (strip raw))) [])
      as [(out' & Hw' & Hl & Hk)|[Hw' _]]; rewrite Hw in Hw'; simplify_eq.
    split_and!; [done|by rewrite Hl|]. intros k. specialize (Hk k). simpl in Hk. lia.
  - unfold normalize_text in E. repeat case_match; simplify_eq; try by set_solver.
    all: destruct (normalize_walk_descent (split slash (replace_char backslash slash (strip raw))) [])
      as [(out' & Hw' & _)|[Hw' [k Hk]]]; rewrite E in Hw'; simplify_eq.
    all: exists k; simpl in Hk; lia.
Qed.

(** ** Containment by inode *)

Section containment.
  Context `{FileSystem}.

(** a containment verdict is evidence about the file system.  [contained]
    comes with a chain of existing ancestors whose end has the root's inode and
    whose components are the ones reported; [not contained] means every ancestor
    of the resolved candidate was examined and has another inode; a path is never
    reported outside itself. *)
Theorem containment_sound candidate root :
  match inode_relative_parts candidate root with
  | Some parts => contained_below candidate root parts
  | None => True
  end ∧
  match inode_relative_parts_decision candidate root with
  | (Some true, Some parts) => contained_below candidate root parts
  | (Some true, None) => False
  | (Some false, _) => outside candidate root
  | (None, _) => True
  end ∧ paths_equal root root ≠ Some false.
Proof.
  split_and!; [|apply decision_spec|apply paths_equal_refl].
  unfold inode_relative_parts. pose proof (decision_spec candidate root) as Hd.
  by destruct (inode_relative_parts_decision candidate root) as [[[]|] [parts|]].
Qed.
End containment.

(** ** The conflict matrix *)

Section matrix.
  Context {RI : RealmIdentity}.

(** C12: the matrix decides path sharing.  In one realm two claims conflict exactly
    when some path is reserved by both, whatever their kinds, owners and purposes;
    so the decision is symmetric. *)
Theorem conflict_iff_shared_path c h :
  same_realm c h = true →
  (is_Some (conflicts_with c h) ↔ ∃ path, covers c path ∧ covers h path) ∧
  (same_realm h c = true → is_Some (conflicts_with c h) ↔ is_Some (conflicts_with h c)).
Proof.
  intros Hr. assert (∀ a b, same_realm a b = true →
    is_Some (conflicts_with a b) ↔ ∃ path, covers a path ∧ covers b path) as Hiff.
  { intros a b Hab. rewrite conflicts_with_matrix, Hab. unfold is_Some. apply matrix_reason_covers. }
  split; [by apply Hiff|]. intros Hr'. rewrite !Hiff by done. naive_solver.
Qed.

(** the same-owner relaxation never changes a decision. *)
Theorem owner_relaxation_is_dead c h :
  conflicts_with c h = if same_realm c h then matrix_reason c h else None.
Proof. apply conflicts_with_matrix. Qed.

(** the reported blocker is the least conflict in the documented order
    (shallowest first), and the answer does not depend on the order in which the
    held locks are listed. *)
Theorem first_conflict_stable c held_locks held_locks' :
  held_locks ≡ₚ held_locks' →
  first_conflict c held_locks = head (find_conflicts c held_locks) ∧
  order_key <$> first_conflict c held_locks = order_key <$> first_conflict c held_locks' ∧
  ∀ x, first_conflict c held_locks = Some x →
    x.(held) ∈ held_locks ∧ ∀ h, h ∈ held_locks → is_Some (conflicts_with c h) →
      depth x.(held) ≤ depth h.
Proof.
  intros Hp. split; [apply first_conflict_head|]. split.
  - destruct (first_conflict c held_locks) as [x|] eqn:E1, (first_conflict c held_locks') as [y|] eqn:E2;
      cbn [fmap option_fmap option_map]; [f_equal| | |done].
    + apply first_conflict_Some in E1 as (<- & Hx & Hxr & Hmin).
      apply first_conflict_Some in E2 as (Hc & Hy & Hyr & Hmin').
      apply py_le_antisym.
      * rewrite <-Hp in Hy. pose proof (Hmin _ _ Hy Hyr) as Hle. destruct y; simpl in *; by subst.
      * rewrite Hp in Hx. pose proof (Hmin' _ _ Hx Hxr) as Hle. by destruct x.
    + apply first_conflict_Some in E1 as (_ & Hx & Hxr & _). rewrite first_conflict_None in E2.
      rewrite Hp in Hx. by rewrite (E2 _ Hx) in Hxr.
    + apply first_conflict_Some in E2 as (_ & Hy & Hyr & _). rewrite first_conflict_None in E1.
      rewrite <-Hp in Hy. by rewrite (E1 _ Hy) in Hyr.
  - intros x Hx. apply first_conflict_Some in Hx as (_ & Hin & _ & Hmin). split; [done|].
    intros h Hh [r Hr]. specialize (Hmin h r Hh Hr). unfold order_key in Hmin. simpl in Hmin.
    destruct (decide (depth (held x) ≤ depth h)) as [|Hgt]; [done|exfalso].
    unfold py_le in Hmin. simpl in Hmin.
    rewrite (proj2 (Nat.compare_gt_iff (depth (held x)) (depth h))) in Hmin by lia. done.
Qed.
End matrix.

(** ** Witnesses *)

Lemma rel_text_roundtrip_witness :
  normalize_rel (PathStr (rel_text ["src"; "a b.py"])) = Ok ["src"; "a b.py"] ↔
  wire_safe_components ["src"; "a b.py"] = true.
Proof. apply rel_text_roundtrip. by repeat constructor. Defined.

Definition strict_names : RealmIdentity.
Proof. refine {| inode_paths_equal a b := Some (bool_decide (a = b)) |}. intros a. by rewrite bool_decide_true. Defined.

Definition demo_claim (path : list string) (k : ScopeKind) (id : string) : ScopeClaim :=
  mkClaim "/r" path k "" DEFAULT_PURPOSE id.

Lemma conflict_iff_shared_path_witness :
  let c := demo_claim ["a"; "b"] KFile "" in
  let h := demo_claim ["a"] KRoot "l1" in
  (is_Some (@conflicts_with strict_names c h) ↔ ∃ path, covers c path ∧ covers h path) ∧
  (@same_realm strict_names h c = true →
   is_Some (@conflicts_with strict_names c h) ↔ is_Some (@conflicts_with strict_names h c)).
Proof. cbv zeta. apply (@conflict_iff_shared_path strict_names). by vm_compute. Defined.

Lemma first_conflict_stable_witness :
  let c := demo_claim ["a"; "b"] KFile "" in
  let l := [demo_claim ["a"; "b"] KFile "l2"; demo_claim ["a"] KRoot "l1"] in
  @first_conflict strict_names c l = head (@find_conflicts strict_names c l) ∧
  order_key <$> @first_conflict strict_names c l = order_key <$> @first_conflict strict_names c (reverse l) ∧
  ∀ x, @first_conflict strict_names c l = Some x →
    x.(held) ∈ l ∧ ∀ h, h ∈ l → is_Some (@conflicts_with strict_names c h) → depth x.(held) ≤ depth h.
Proof. cbv zeta. apply (@first_conflict_stable strict_names). by rewrite reverse_Permutation. Defined.
