(* ===== verification/ScopeLockSpec.v ===== *)
(** * ScopeLockSpec: the contract of the path-lock store

    Mutual exclusion on reachable stores, the all-or-nothing contract of
    acquire, progress, fencing, crash resume and the waiter queue. *)

From Stdlib Require Import Ascii QArith.
From S2P Require Import Prelude PyString PyPath PathContainment ScopePaths ScopeConflict ScopeConfig ScopeLocks ScopeLockSafety.
Open Scope nat_scope.

(** ** A concrete fleet

    Realms identified by name, ids drawn in sequence, a 60 second TTL. *)
Module Demo.
#[export] Program Instance by_name : RealmIdentity := {|
  inode_paths_equal a b := Some (bool_decide (a = b))
|}.
Next Obligation. intros a. simpl. by rewrite bool_decide_true. Qed.

Fixpoint lock_name (n : nat) : string :=
  match n with 0 => "lck" | S n => String "i" (lock_name n) end.
Definition enforcing : lock_config := mkConfig ModeEnforce 60.
Definition runner (id : string) : LockHolder := mkHolder HRun id LaneRunner.
Definition claim (path : list string) (k : ScopeKind) : ScopeClaim :=
  mkClaim "/repo" path k "" DEFAULT_PURPOSE "".

Definition acquire_at (t : Z) (h : LockHolder) (g : Z) (claims : list ScopeClaim) (s : store) :
    result lock_error AcquireResult * store :=
  try_acquire_scope lock_name enforcing t claims h g None None None NowNone s.
(** One run holds [src], another [docs/a.md]. *)
Definition two_holders : store :=
  (acquire_at 10 (runner "b") 0 [claim ["docs"; "a.md"] KFile]
    (acquire_at 0 (runner "a") 0 [claim ["src"] KRoot] empty_store).2).2.
End Demo.

Lemma demo_canonical claims :
  forallb (λ c, is_ok (check_claim c) && wire_safe_components c.(components)) claims = true →
  Forall canonical claims.
Proof.
  intros H. apply Forall_forall. intros c Hc%list_elem_of_In.
  pose proof (proj1 (forallb_forall _ _) H c Hc) as [Hk Hw]%andb_true_iff.
  split; [|done]. destruct (check_claim c) as [d|] eqn:E; [|done]. by apply check_claim_ok in E as [-> _].
Qed.

Lemma demo_reachable : @reachable Demo.by_name Demo.lock_name 10 Demo.two_holders.
Proof.
  eapply reach_step; [eapply reach_step; [apply (@reach_empty Demo.by_name _ 0)| |]| |].
  2: { apply (@step_acquire Demo.by_name _ enforced 0 _ Demo.enforcing [Demo.claim ["src"] KRoot] (Demo.runner "a") 0 None None None false);
       split; [done|]. by apply demo_canonical. }
  1: done.
  2: { apply (@step_acquire Demo.by_name _ enforced 10 _ Demo.enforcing [Demo.claim ["docs"; "a.md"] KFile] (Demo.runner "b") 0 None None None false);
       split; [done|]. by apply demo_canonical. }
  done.
Qed.

(** ** Candidates *)

Lemma holds_key h g e ids s c d :
  claim_key c = claim_key d → holds h g e ids s c → holds h g e ids s d.
Proof. intros E (r & ? & ? & ?). exists r. by rewrite <-E. Qed.

Lemma setdefault_fold l acc :
  (∀ c, c ∈ acc ∨ c ∈ l → claim_key c ∈ map claim_key (foldl setdefault_claim acc l)) ∧
  (NoDup (map claim_key acc) → NoDup (map claim_key (foldl setdefault_claim acc l))).
Proof.
  revert acc. induction l as [|x l IH]; intros acc; simpl.
  { split; [|done]. intros c [Hc|?%not_elem_of_nil]; [|done]. by apply list_elem_of_fmap_2. }
  destruct (IH (setdefault_claim acc x)) as [Hin Hnd]. unfold setdefault_claim in *.
  case_bool_decide as Hx.
  - split; [|done]. intros c [Hc|[->|Hc]%elem_of_cons]; [by apply Hin; left| |by apply Hin; right].
    apply list_elem_of_fmap in Hx as (y & Hy & Hyacc). rewrite Hy. apply Hin. by left.
  - split.
    + intros c [Hc|[->|Hc]%elem_of_cons]; apply Hin; [left|left|by right]; set_solver.
    + intros Ha. apply Hnd. rewrite map_app. apply NoDup_app. split_and!; [done| |apply NoDup_singleton].
      intros k Hk ->%list_elem_of_singleton. done.
Qed.

Lemma elem_of_setdefault_fold c l acc : c ∈ foldl setdefault_claim acc l → c ∈ acc ∨ c ∈ l.
Proof.
  revert acc. induction l as [|x l IH]; intros acc; simpl; [auto|]. intros [Hin|Hin]%IH; [|set_solver].
  unfold setdefault_claim in Hin. case_bool_decide; set_solver.
Qed.

Lemma with_owner_key c (group : option string) d :
  match group with None => Ok c | Some g => map_err ClaimError (with_owner c g) end = Ok d →
  claim_key d = claim_key c.
Proof.
  destruct group as [g|]; [|by intros [= ->]]. unfold with_owner.
  case_bool_decide; [by intros [= ->]|]. destruct (check_claim _) eqn:E; [|done].
  apply check_claim_ok in E as [-> _]. by intros [= <-].
Qed.

(** The candidates carry the keys of the claims, each once. *)
Lemma prepare_keys claims group cands :
  prepare claims group = Ok cands →
  NoDup (map claim_key cands) ∧
  (∀ c, c ∈ claims → ∃ d, d ∈ cands ∧ claim_key d = claim_key c) ∧
  (∀ d, d ∈ cands → ∃ c, c ∈ claims ∧ claim_key c = claim_key d).
Proof.
  unfold prepare. intros (res & Hres & [= <-])%bind_Ok.
  destruct (setdefault_fold res []) as [Hin Hnd]. apply traverse_Ok in Hres. split_and!.
  - rewrite (Permutation_map claim_key (sort_by_perm _ _)). apply Hnd, NoDup_nil_2.
  - intros c [i Hi]%list_elem_of_lookup.
    destruct (Forall2_lookup_l _ _ _ _ _ Hres Hi) as (d & Hd & <-%with_owner_key).
    pose proof (Hin d (or_intror (list_elem_of_lookup_2 _ _ _ Hd))) as Hk.
    apply list_elem_of_fmap in Hk as (d' & Hk & Hd'). exists d'. split; [|done].
    by apply elem_of_sort_by.
  - intros d [?%not_elem_of_nil|Hd]%elem_of_sort_by%elem_of_setdefault_fold; [done|].
    apply list_elem_of_lookup in Hd as [i Hi].
    destruct (Forall2_lookup_r _ _ _ _ _ Hres Hi) as (c & Hc & ->%with_owner_key).
    exists c. split; [by eapply list_elem_of_lookup_2|done].
Qed.

Section contract.
  Context {RI : RealmIdentity} (new_id : nat → string).

(** C2: Mutual exclusion.  On every store that lanes can reach which enforce the lock or leave it off, whose
    claims are canonical (their components come back unchanged when the stored text is read: no name is stripped or
    rewritten) and whose clock never runs backwards from one call to the next, two live rows of different holders both
    read back as claims, and when they are in one realm no path is covered by both.  Without canonical claims this fails:
    see [trailing_space_breaks_exclusion] and [unreadable_row_blocks_realm]. *)
Theorem lock_mutual_exclusion now s a b :
  reachable new_id now s → a ∈ s.(locks) → b ∈ s.(locks) →
  live now a = true → live now b = true → row_holder a ≠ row_holder b →
  ∃ ca cb, as_claim a.(row_lock) = Ok ca ∧ as_claim b.(row_lock) = Ok cb ∧
    (ca.(realm) = cb.(realm) → ¬ ∃ path, covers ca path ∧ covers cb path).
Proof.
  intros Hr Ha Hb Hla Hlb Hne. destruct (reachable_invariant _ _ _ Hr) as [_ _ Hrd He].
  pose proof (Hrd a Ha) as Hoa. pose proof (Hrd b Hb) as Hob.
  destruct (as_claim (row_lock a)) as [ca|] eqn:Ea; [|done].
  destruct (as_claim (row_lock b)) as [cb|] eqn:Eb; [|done].
  exists ca, cb. split_and!; [done..|]. by apply (He a b).
Qed.

(** Every row the retained list names is in the decision table. *)
Lemma retained_backed h replace now s :
  backed (identity h) (retained h replace now s) (decision_store h replace now s).
Proof.
  intros l Hl. destruct (retained_live _ _ _ _ _ Hl) as (b & Hb & <- & [Hn _]%live_spec & Hh).
  exists b. split_and!; try done. by apply unreleased_spec.
Qed.

Lemma elem_of_foreign_keys k realms h now s :
  k ∈ map key (concat (map snd (live_by_realm_locked realms h now s))) ↔
  ∃ x l, x ∈ realms ∧ l ∈ live_foreign x h now s ∧ key l = k.
Proof.
  unfold live_by_realm_locked. rewrite list_elem_of_fmap.
  setoid_rewrite list_elem_of_In at 1. setoid_rewrite in_concat. split.
  - intros (l & -> & ls & Hls & Hl). apply in_map_iff in Hls as ([x ys] & <- & Hx).
    apply in_map_iff in Hx as (x' & [= -> <-] & Hx). exists x, l. by rewrite !list_elem_of_In.
  - intros (x & l & Hx & Hl & <-). exists l. split; [done|]. exists (live_foreign x h now s).
    split; [|by apply list_elem_of_In]. apply in_map_iff. exists (x, live_foreign x h now s).
    split; [done|]. apply in_map_iff. exists x. by rewrite <-list_elem_of_In.
Qed.

(** A live foreign row under a canonical candidate's own key is a conflict. *)
Lemma enforce_no_foreign_key cands h now s table c :
  Forall canonical cands →
  traverse (λ p : string * list HeldLock,
      claims ← traverse (λ l, map_err ClaimError (as_claim l)) p.2; Ok (p.1, claims))
    (live_by_realm_locked (remove_dups (map ScopeConflict.realm cands)) h now s) = Ok table →
  scan_conflicts table cands = None → c ∈ cands →
  ¬ (claim_key c ∈ map key (concat (map snd
      (live_by_realm_locked (remove_dups (map ScopeConflict.realm cands)) h now s)))).
Proof.
  intros Hcan Ht Hscan Hc (x & l & _ & Hl & Hk)%elem_of_foreign_keys.
  apply elem_of_live_foreign in Hl as (b & Hb & <- & <- & Hlive & Hne).
  assert (new_row (row_holder b) [c] b) as Hnew.
  { exists c. unfold key, claim_key in Hk. injection Hk as ????.
    split_and!; [by apply list_elem_of_singleton|done..]. }
  assert (canonical c) as Hcc by (rewrite Forall_forall in Hcan; auto).
  destruct (as_claim_new_row _ [c] _ ltac:(by apply Forall_singleton) Hnew)
    as (c' & d & ->%list_elem_of_singleton & Hd & Hdr & Hdk & Hdc).
  destruct (table_lookup (λ x, live_foreign x h now s) _ _ c.(realm) Ht) as (claims & Hf & Hcl).
  { apply elem_of_remove_dups, list_elem_of_fmap. eauto. }
  destruct (Hcl b.(row_lock)) as (d' & Hd' & Hin).
  { apply elem_of_live_foreign. exists b. injection Hk as ????. by split_and!. }
  rewrite Hd in Hd'. injection Hd' as <-.
  pose proof (scan_conflicts_None _ _ _ _ Hscan Hc Hf _ Hin) as Hnone.
  destruct (proj2 (conflicts_with_covers c d (eq_sym Hdr))) as [y Hy]; [|congruence].
  exists c.(components). unfold covers. rewrite Hdk, Hdc. by destruct (kind c).
Qed.

Lemma insert_loop_no_skip own fk h g now e cands ids sk s ids' sk' s' :
  (∀ c, c ∈ cands → ¬ (claim_key c ∈ fk)) →
  insert_loop new_id own fk h g now e cands ids sk s = Ok (ids', sk', s') → sk' = sk.
Proof.
  revert ids s. induction cands as [|c cands IH]; intros ids s Hfk Hrun; [by simplify_eq/=|].
  simpl in Hrun. assert (∀ c, c ∈ cands → ¬ (claim_key c ∈ fk)) by set_solver.
  destruct (List.find _ _); [by eapply IH|]. rewrite bool_decide_false in Hrun by set_solver.
  apply bind_Ok in Hrun as ([id s1] & _ & Hrun). by eapply IH.
Qed.

(** What an enforcing acquire of [claims] may do to the store. *)
Definition all_or_nothing (dttl : Q) (clock : Z) (claims : list ScopeClaim) (h : LockHolder)
    (g : Z) (ttl : option Q) (now : now_arg) (s : store)
    (outcome : result lock_error AcquireResult * store) : Prop :=
  let '(r, s') := outcome in
  let t := now_iso clock now in
  match r with
  | Err e => s' = s ∧ ∀ c, e ≠ ScopeBlocked c
  | Ok r =>
      match r.(status) with
      | Blocked => s' = s ∧ r.(lock_ids) = [] ∧ is_Some r.(conflict)
      | Fenced => s' = (reap_locked t REAP_LIMIT s).2 ∧ r.(lock_ids) = []
      | Granted => r.(conflict) = None ∧ r.(skipped_duplicates) = [] ∧
          ∀ c, c ∈ claims → holds (identity h) g (plus_seconds t (default dttl ttl)) r.(lock_ids) s' c
      | Disabled => False
      end
  end.

(** all or nothing.  An enforcing acquire (or reacquire) either raises or is
    blocked and leaves the store untouched, or is fenced and only the lazy reap
    is kept, or is granted and then every claim of the set has an unreleased row of the
    caller under its generation and the new expiry, with no conflict and nothing
    skipped. *)
Theorem acquire_all_or_nothing dttl clock claims h g ttl group now replace s :
  Forall canonical claims →
  all_or_nothing dttl clock claims h g ttl now s
    (acquire new_id clock dttl claims h g ttl ModeEnforce group now replace s).
Proof.
  intros Hcl. unfold acquire, acquire_locked.
  destruct (prepare claims group) as [cands|e] eqn:Hp; cycle 1.
  { by destruct e. }
  cbn zeta. destruct (Qle_bool _ _); [done|]. unfold write.
  set (t := now_iso clock now). set (e := plus_seconds t (default dttl ttl)).
  destruct (acquire_body new_id cands h g ModeEnforce replace t e s) as [[r s']|err] eqn:Hb; cycle 1.
  { by destruct err. }
  destruct (acquire_body_inv _ _ _ _ _ _ _ _ _ _ _ Hb)
    as [(-> & -> & _)|(table & ids & sk & Ht & Hscan & Hloop & ->)]; [done|].
  specialize (Hscan eq_refl). rewrite Hscan. simpl.
  destruct (insert_loop_holds _ _ _ _ _ _ _ _ _ _ _ _ _ _ (retained_backed _ _ _ _) Hloop) as (_ & _ & Hall).
  pose proof (prepare_canonical _ _ _ Hp Hcl) as Hcan.
  destruct (prepare_keys _ _ _ Hp) as (_ & Hkeys & _).
  split_and!; [done| |].
  - eapply insert_loop_no_skip; [|exact Hloop]. intros. by eapply enforce_no_foreign_key.
  - intros c Hc. destruct (Hkeys c Hc) as (d & Hd & Hk). eapply holds_key; [exact Hk|].
    destruct (Hall d Hd) as [|[Hf _]]; [done|]. exfalso.
    by eapply enforce_no_foreign_key.
Qed.

(** ** Fencing *)

Lemma highest_generation_lt h g s :
  match highest_generation h s with Some m => (g <? m)%Z | None => false end = true ↔
  ∃ r, r ∈ s.(locks) ∧ row_holder r = h ∧ (g < r.(row_lock).(l_generation))%Z.
Proof.
  unfold highest_generation. assert (∀ t : list LockRow,
    (match foldr (λ r m, Some (match m with None => r.(row_lock).(l_generation)
        | Some g => Z.max r.(row_lock).(l_generation) g end)) None t with
     | Some m => (g <? m)%Z | None => false end = true ↔
     ∃ r, r ∈ t ∧ (g < r.(row_lock).(l_generation))%Z)) as Hfold.
  { induction t as [|r t IH]; cbn [foldr].
    - split; [done|]. by intros (r & ?%not_elem_of_nil & _).
    - setoid_rewrite elem_of_cons. rewrite Z.ltb_lt. destruct (foldr _ None t) as [m|].
      + rewrite Z.max_lt_iff. rewrite Z.ltb_lt in IH. rewrite IH. naive_solver.
      + split; [naive_solver|]. intros (x & [->|Hx] & Hg); [done|].
        assert (false = true) by (apply IH; eauto). done. }
  rewrite Hfold. setoid_rewrite elem_of_select. unfold held_by_id.
  setoid_rewrite bool_decide_eq_true. naive_solver.
Qed.

(** Some row of [h], live or not, carries a generation above [g]. *)
Definition superseded (h : HolderKind * string) (g : Z) (s : store) : Prop :=
  ∃ r, r ∈ s.(locks) ∧ row_holder r = h ∧ (g < r.(row_lock).(l_generation))%Z.

Lemma superseded_update h g p f s :
  (∀ r, r ∈ s.(locks) → p r = true → row_holder (f r) = row_holder r ∧
     (r.(row_lock).(l_generation) ≤ (f r).(row_lock).(l_generation))%Z) →
  superseded h g s → superseded h g (set_locks (update_where p f) s).
Proof.
  intros Hf (r & Hr & Hh & Hg). exists (if p r then f r else r).
  split; [apply elem_of_update_where; eauto|]. destruct (p r) eqn:E; [|done].
  destruct (Hf r Hr E) as [-> ?]. split; [done|lia].
Qed.

Lemma superseded_decision h g h' replace now s :
  superseded h g s → superseded h g (decision_store h' replace now s).
Proof.
  intros Hs. assert (superseded h g (reap_locked now REAP_LIMIT s).2) by (by apply superseded_update).
  unfold decision_store. case_match; [by apply superseded_update|done].
Qed.

(** Rows the loop extends belong to the holder, whose generations are all at most
    the one it adopts. *)
Lemma insert_loop_superseded h' g' own fk h g now e cands ids sk s ids' sk' s' :
  (∀ l, l ∈ own → l.(l_holder) = identity h) →
  (∀ r, r ∈ s.(locks) → row_holder r = identity h → (r.(row_lock).(l_generation) ≤ g)%Z) →
  unique_ids s.(locks) → backed (identity h) own s →
  insert_loop new_id own fk h g now e cands ids sk s = Ok (ids', sk', s') →
  superseded h' g' s → superseded h' g' s'.
Proof.
  intros Hown. revert ids sk s. induction cands as [|c cands IH]; intros ids sk s Hgen Hu Hb Hrun.
  { by simplify_eq/=. }
  simpl in Hrun. destruct (List.find _ (rev own)) as [l|] eqn:Ef; [|case_bool_decide; [by eapply IH|]].
  - apply find_some in Ef as [Hl%in_rev _]. apply list_elem_of_In in Hl.
    destruct (Hb l Hl) as (b & Hbin & Hbi & _ & Hbh & _). intros Hs.
    eapply IH; [| | |exact Hrun|].
    + intros r (a & Ha & ->)%elem_of_update_where. case_match; [done|by apply Hgen].
    + by apply unique_ids_update.
    + by apply backed_adopt.
    + apply superseded_update; [|done]. intros r Hr [Hi _]%andb_true_iff. apply bool_decide_eq_true in Hi.
      split; [done|]. apply Hgen; [done|]. rewrite <-Hbh. f_equal. f_equal.
      eapply (NoDup_map_inj (λ r, row_id r)); [exact Hu|done..|congruence].
  - apply bind_Ok in Hrun as ([id s1] & Hins & Hrun).
    apply insert_lock_ok in Hins as (r1 & Hl1 & _ & Hid & _ & Hho & Hg & _ & _ & Hni & _).
    intros (r & Hr & Hrest). eapply IH; [| | |exact Hrun|]; rewrite ?Hl1.
    + intros x [Hx| ->%list_elem_of_singleton]%elem_of_app; [by apply Hgen|]. by rewrite Hg.
    + apply unique_ids_insert; [done|]. by rewrite Hid.
    + intros l Hl. destruct (Hb l Hl) as (b & Hbin & Hbr). exists b. rewrite Hl1.
      split; [apply elem_of_app; by left|done].
    + exists r. rewrite Hl1. split; [apply elem_of_app; by left|done].
Qed.

(** The PRIMARY KEY and the partial unique index of the table. *)
Definition indexed (s : store) : Prop := unique_ids s.(locks) ∧ unique_keys s.(locks).

Lemma indexed_update p f s :
  (∀ r, static (f r).(row_lock) = static r.(row_lock)) →
  (∀ r, unreleased (f r) = true → unreleased r = true) →
  indexed s → indexed (set_locks (update_where p f) s).
Proof. intros ?? [??]. split; [by apply unique_ids_update|by apply unique_keys_update]. Qed.

Lemma indexed_decision h replace now s : indexed s → indexed (decision_store h replace now s).
Proof.
  intros Hs. assert (indexed (reap_locked now REAP_LIMIT s).2) by by apply indexed_update.
  unfold decision_store. case_match; [by apply indexed_update|done].
Qed.

Lemma superseded_acquire_body h g cands h' g' mode replace now e s r s' :
  acquire_body new_id cands h' g' mode replace now e s = Ok (r, s') →
  indexed s ∧ superseded h g s → indexed s' ∧ superseded h g s'.
Proof.
  intros Hb [Hu Hs].
  destruct (acquire_body_inv _ _ _ _ _ _ _ _ _ _ _ Hb)
    as [(_ & -> & _)|(table & ids & sk & _ & _ & Hloop & ->)].
  { split; [by apply indexed_update|by apply superseded_update]. }
  pose proof (indexed_decision h' replace now _ Hu) as [Hui Huk].
  assert (∀ x, x ∈ locks (decision_store h' replace now s) → row_holder x = identity h' →
    (x.(row_lock).(l_generation) ≤ g')%Z) as Hgen.
  { unfold acquire_body in Hb. cbn zeta in Hb. case_match eqn:Ef; [done|].
    intros x Hx Hh. destruct (decide (g' < x.(row_lock).(l_generation))%Z) as [Hlt|]; [|lia].
    assert (∃ y, y ∈ locks (reap_locked now REAP_LIMIT s).2 ∧ row_holder y = identity h' ∧
      (g' < y.(row_lock).(l_generation))%Z) as Hy%highest_generation_lt; [|congruence].
    unfold decision_store in Hx. case_match; [|by exists x].
    apply elem_of_update_where in Hx as (y & Hy & ->). exists y. by case_match. }
  split; [by eapply insert_loop_unique|].
  eapply insert_loop_superseded; [|exact Hgen|done|apply retained_backed|exact Hloop|].
  - by intros l (? & _ & _ & _ & ?)%retained_live.
  - by apply superseded_decision.
Qed.

Lemma superseded_step ok h g u s s' :
  lock_step new_id ok u s s' → indexed s ∧ superseded h g s → indexed s' ∧ superseded h g s'.
Proof.
  destruct 1 as [cfg claims h' g' ttl enforce group replace _|cfg h' g' ttl|h' g' ids|limit|realm h' on path|h'];
    intros Hs.
  - unfold acquire_or_disabled. destruct (effective_mode cfg enforce); [done|..];
      (destruct (acquire _ _ _ _ _ _ _ _ _ _ _ _) as [r s1] eqn:E;
       apply acquire_inv in E as [->|(cands & res & _ & _ & Hb)]; [done|];
       by eapply superseded_acquire_body).
  - unfold renew_scope. cbn zeta. case_match; [done|]. destruct Hs.
    split; [by apply indexed_update|by apply superseded_update].
  - unfold release_scope. destruct Hs, ids as [[|i ids]|]; [done|..];
      (split; [by apply indexed_update|by apply superseded_update]).
  - destruct Hs. split; [by apply indexed_update|by apply superseded_update].
  - unfold park_waiter, write. by destruct (select _ _).
  - done.
Qed.

(** C13: a fence never lapses.  Once any row of a holder - released, expired or
    live - carries a generation above [g], then whatever operations of any lane
    and any mode follow, an acquire of that holder under [g] is refused as
    fenced, inserts nothing and keeps only the lazy reap. *)
Theorem fence_is_permanent ok h g s s' dttl clock claims cands ttl mode group now replace :
  indexed s → superseded (identity h) g s →
  rtc (λ s s', ∃ u, lock_step new_id ok u s s') s s' →
  prepare claims group = Ok cands → Qle_bool (default dttl ttl) 0 = false →
  acquire new_id clock dttl claims h g ttl mode group now replace s' =
    (Ok (plain_result Fenced mode), (reap_locked (now_iso clock now) REAP_LIMIT s').2).
Proof.
  intros Hi Hs Hsteps Hp Hq.
  assert (indexed s' ∧ superseded (identity h) g s') as [_ Hs'].
  { induction Hsteps as [|x y z [u Hstep]]; [done|].
    destruct (superseded_step _ _ _ _ _ _ Hstep (conj Hi Hs)). auto. }
  unfold acquire, acquire_locked. rewrite Hp. cbn zeta. rewrite Hq. unfold write, acquire_body.
  cbn zeta. assert (superseded (identity h) g (reap_locked (now_iso clock now) REAP_LIMIT s').2)
    as Hf%highest_generation_lt by by apply superseded_update.
  by rewrite Hf.
Qed.

(** ** Crash resume *)

Lemma acquire_granted_inv dttl clock claims h g ttl mode group now replace s r s' :
  acquire new_id clock dttl claims h g ttl mode group now replace s = (Ok r, s') →
  r.(status) = Granted →
  ∃ cands, prepare claims group = Ok cands ∧
    acquire_body new_id cands h g mode replace (now_iso clock now)
      (plus_seconds (now_iso clock now) (default dttl ttl)) s = Ok (r, s').
Proof.
  unfold acquire. destruct (acquire_locked _ _ _ _ _ _ _ _ _ _ _ _) as [r0 s0] eqn:E.
  unfold acquire_locked in E. destruct (prepare claims group) as [cands|err].
  - cbn zeta in E. intros H Hs. exists cands. split; [done|].
    destruct (Qle_bool _ _); [by simplify_eq/=|]. destruct r0 as [r0|e0].
    + simplify_eq/=. by apply write_Ok in E.
    + destruct e0; simplify_eq/=.
  - destruct err; intros; simplify_eq/=.
Qed.

Lemma new_row_key h cands r : new_row h cands r → ∃ c, c ∈ cands ∧ row_key r = claim_key c.
Proof. intros (c & Hc & E1 & E2 & E3 & _ & E4). exists c. unfold key, claim_key. by rewrite E1, E2, E3, E4. Qed.

Lemma replaced_not_live h now s b :
  b ∈ (decision_store h true now s).(locks) → row_holder b = identity h → live now b = false.
Proof.
  unfold decision_store. cbn zeta. cbn [andb]. set (s1 := (reap_locked now REAP_LIMIT s).2).
  case_bool_decide as Hlen; cbn [negb]; intros Hb Hh.
  - apply not_true_iff_false. intros Hl. apply length_zero_iff_nil in Hlen.
    assert (b.(row_lock) ∈ own_locks_locked h now s1) as Hin.
    { apply list_elem_of_fmap. exists b. split; [done|]. apply elem_of_select. split; [done|].
      unfold held_by_id. by rewrite bool_decide_true, Hl. }
    rewrite Hlen in Hin. by apply not_elem_of_nil in Hin.
  - apply elem_of_update_where in Hb as (a & Ha & ->). unfold held_by_id in *.
    destruct (bool_decide _ && unreleased a) eqn:E; [done|].
    rewrite (bool_decide_true _ Hh) in E. unfold live. simpl in E. by rewrite E.
Qed.

(** crash resume replaces the scope exactly.  After a granted enforcing
    reacquire, until it expires, the holder's live rows are under the claimed
    keys and no others: whatever its earlier incarnation held is given back. *)
Theorem reacquire_exact dttl clock claims h g ttl group now s r s' u k :
  indexed s → Forall canonical claims →
  acquire new_id clock dttl claims h g ttl ModeEnforce group now true s = (Ok r, s') →
  r.(status) = Granted →
  (now_iso clock now ≤ u < plus_seconds (now_iso clock now) (default dttl ttl))%Z →
  (∃ x, x ∈ s'.(locks) ∧ live u x = true ∧ row_holder x = identity h ∧ row_key x = k) ↔
  ∃ c, c ∈ claims ∧ claim_key c = k.
Proof.
  intros Hi Hcan Hrun Hg Hu. pose proof (acquire_all_or_nothing dttl clock claims h g ttl group now true s Hcan) as Haon.
  rewrite Hrun in Haon. simpl in Haon. rewrite Hg in Haon. destruct Haon as (_ & _ & Hall).
  destruct (acquire_granted_inv _ _ _ _ _ _ _ _ _ _ _ _ _ Hrun Hg) as (cands & Hp & Hb).
  destruct (acquire_body_inv _ _ _ _ _ _ _ _ _ _ _ Hb)
    as [(-> & _)|(table & ids & sk & _ & _ & Hloop & _)]; [done|].
  destruct (prepare_keys _ _ _ Hp) as (_ & _ & Hkeys).
  set (t := now_iso clock now) in *. split.
  - intros (x & Hx & Hl & Hh & <-).
    pose proof (indexed_decision h true t _ Hi) as [Hui _].
    assert (old_row t (locks (decision_store h true t s)) x ∨ new_row (identity h) cands x)
      as [(a & Ha & Hst & _ & Hla)|Hnew].
    { eapply insert_loop_rows; [exact Hui| | |exact Hloop| |exact Hx]; [|done|eauto using old_row_refl].
      intros l (b & ? & ? & ? & _)%retained_live. eauto. }
    + assert (live t a = true) by (eapply Hla; [|exact Hl]; lia).
      rewrite (replaced_not_live h t s a) in *; [done..|]. by rewrite <-(static_holder _ _ Hst).
    + destruct (new_row_key _ _ _ Hnew) as (d & Hd & ->). by apply Hkeys.
  - intros (c & Hc & <-). destruct (Hall c Hc) as (x & Hx & Hk & Hh & Hun & _ & He & _).
    exists x. split_and!; [done| |done|done]. apply live_spec. rewrite He.
    split; [by apply unreleased_spec|lia].
Qed.

(** ** Progress *)

(** Ids still to be drawn are not in the table ([new_id] is a fresh UUID). *)
Definition fresh_ids (s : store) : Prop :=
  ∀ n, s.(ids_drawn) ≤ n → ¬ (new_id n ∈ map (λ r, row_id r) s.(locks)).

Lemma fresh_update p f s :
  (∀ r, static (f r).(row_lock) = static r.(row_lock)) →
  fresh_ids s → fresh_ids (set_locks (update_where p f) s).
Proof.
  intros Hf Hs n Hn. cbn [locks set_locks]. rewrite update_where_map; [by apply Hs|].
  intros r _ _. apply static_id, Hf.
Qed.

Lemma insert_lock_total c h g a e s :
  fresh_ids s → (∀ m n, new_id m = new_id n → m = n) →
  (∀ x, x ∈ s.(locks) → unreleased x = true → row_key x ≠ claim_key c) →
  ∃ id s', insert_lock new_id c h g a e s = Ok (id, s') ∧ fresh_ids s'.
Proof.
  intros Hf Hinj Hk. unfold insert_lock. rewrite bool_decide_false by (apply Hf; lia).
  destruct (existsb _ _) eqn:E.
  - exfalso. apply existsb_exists in E as (x & Hx & [Hu Hkx]%andb_true_iff).
    apply list_elem_of_In in Hx. apply bool_decide_eq_true in Hkx. by eapply Hk.
  - eexists _, _. split; [done|]. intros n Hn. cbn [locks ids_drawn] in *. rewrite map_app.
    intros [Hin|Heq%list_elem_of_singleton]%elem_of_app; [eapply Hf; [|exact Hin]; lia|].
    apply Hinj in Heq. lia.
Qed.

Lemma insert_loop_total own fk h g now e cands ids sk s :
  (∀ m n, new_id m = new_id n → m = n) → fresh_ids s → NoDup (map claim_key cands) →
  (∀ c, c ∈ cands → (∃ l, l ∈ own ∧ key l = claim_key c) ∨
     ∀ x, x ∈ s.(locks) → unreleased x = true → row_key x ≠ claim_key c) →
  ∃ res, insert_loop new_id own fk h g now e cands ids sk s = Ok res.
Proof.
  intros Hinj. revert ids sk s. induction cands as [|c cands IH]; intros ids sk s Hf Hnd Hc; [by eexists|].
  cbn [map] in Hnd. apply NoDup_cons in Hnd as [Hnin Hnd]. cbn [insert_loop].
  destruct (List.find _ (rev own)) as [l|] eqn:Ef; [|case_bool_decide].
  - apply IH; [by apply fresh_update|done|]. intros d Hd.
    destruct (Hc d) as [|Hx]; [by apply list_elem_of_further|by left|right].
    intros x (a & Ha & ->)%elem_of_update_where Hu. destruct (_ && _); by apply (Hx a).
  - apply IH; [done..|]. intros d Hd. apply Hc. by apply list_elem_of_further.
  - destruct (Hc c) as [(l & Hl & Hk)|Hx]; [apply list_elem_of_here| |].
    { exfalso. eapply find_none in Ef; [|apply in_rev; rewrite rev_involutive; by apply list_elem_of_In].
      simpl in Ef. by rewrite bool_decide_true in Ef. }
    destruct (insert_lock_total c h g now e s) as (id & s' & Hins & Hf'); [done..|].
    rewrite Hins. simpl. apply IH; [done..|]. intros d Hd.
    destruct (Hc d) as [|Hxd]; [by apply list_elem_of_further|by left|right].
    apply insert_lock_ok in Hins as (r1 & -> & _ & _ & Hk1 & _).
    intros x [Hin| ->%list_elem_of_singleton]%elem_of_app Hu; [by apply Hxd|].
    rewrite Hk1. intros Heq. apply Hnin. rewrite Heq. by apply list_elem_of_fmap_2.
Qed.

(** A backlog within the bound is reaped completely. *)
Lemma reap_complete now limit s x :
  (0 ≤ limit)%Z → rowcount (λ r, unreleased r && expired now r) s.(locks) ≤ Z.to_nat limit →
  x ∈ (reap_locked now limit s).2.(locks) → unreleased x = true → live now x = true.
Proof.
  intros Hlim Hcount (a & Ha & ->)%elem_of_update_where Hu. destruct (reapable _ _ _ a) eqn:Er; [done|].
  unfold live. rewrite Hu. simpl. unfold reapable in Er. rewrite Hu in Er. simpl in Er.
  destruct (expired now a) eqn:Ee; [|done]. simpl in Er. apply bool_decide_eq_false in Er. exfalso. apply Er.
  unfold reap_ids, sql_limit. rewrite (proj2 (Z.ltb_ge _ _) Hlim). rewrite take_ge.
  - apply list_elem_of_fmap. exists a. split; [done|]. apply elem_of_sort_by, elem_of_select.
    by rewrite Hu, Ee.
  - unfold rowcount in Hcount. by rewrite sort_by_perm.
Qed.

Lemma traverse_total {E A B} (f : A → result E B) l :
  (∀ x, x ∈ l → is_ok (f x) = true) → ∃ k, traverse f l = Ok k.
Proof using.
  induction l as [|x l IH]; intros Hl; [by eexists|]. cbn [traverse].
  pose proof (Hl x ltac:(apply list_elem_of_here)) as Hx. destruct (f x); [|done]. simpl.
  destruct IH as [k ->]; [intros; apply Hl; by apply list_elem_of_further|]. by eexists.
Qed.

(** Reading the scanned rows back cannot fail, and yields only their claims. *)
Lemma table_total (live_of : string → list HeldLock) realms :
  (∀ x l, x ∈ realms → l ∈ live_of x → is_ok (as_claim l) = true) →
  ∃ table, traverse (λ p : string * list HeldLock,
      claims ← traverse (λ l, map_err ClaimError (as_claim l)) p.2; Ok (p.1, claims))
    (map (λ x, (x, live_of x)) realms) = Ok table ∧
    ∀ p, p ∈ table → ∀ d, d ∈ p.2 → ∃ l, l ∈ live_of p.1 ∧ as_claim l = Ok d.
Proof using.
  induction realms as [|x realms IH]; intros Hok.
  { exists []. split; [done|]. by intros p ?%not_elem_of_nil. }
  cbn [map traverse fst snd].
  destruct (traverse_total (λ l, map_err ClaimError (as_claim l)) (live_of x)) as [claims Hc].
  { intros l Hl. pose proof (Hok x l ltac:(apply list_elem_of_here) Hl). by destruct (as_claim l). }
  destruct IH as (table & Ht & Hall); [intros; eapply Hok; [by apply list_elem_of_further|done]|].
  rewrite Hc. simpl. rewrite Ht. simpl. eexists. split; [done|].
  intros p [->|Hp]%elem_of_cons; [|by apply Hall]. simpl. intros d Hd.
  apply traverse_Ok in Hc. apply list_elem_of_lookup in Hd as [i Hi].
  destruct (Forall2_lookup_r _ _ _ _ _ Hc Hi) as (l & Hl & Hld). exists l.
  split; [by eapply list_elem_of_lookup_2|]. destruct (as_claim l); [by injection Hld as ->|done].
Qed.

Lemma scan_conflicts_clear table cands :
  (∀ c p, c ∈ cands → p ∈ table → p.1 = c.(realm) → ∀ d, d ∈ p.2 → conflicts_with c d = None) →
  scan_conflicts table cands = None.
Proof.
  induction cands as [|c cands IH]; intros H; [done|]. cbn [scan_conflicts].
  assert (first_conflict c match List.find (λ p, bool_decide (p.1 = c.(realm))) table with
            | Some p => p.2 | None => [] end = None) as ->.
  { apply first_conflict_None. destruct (List.find _ table) as [p|] eqn:Ef; [|by intros ? ?%not_elem_of_nil].
    apply find_some in Ef as [Hp%list_elem_of_In Hr]. apply bool_decide_eq_true in Hr.
    apply (H c p); [apply list_elem_of_here|done..]. }
  apply IH. intros. eapply H; [by apply list_elem_of_further|done..].
Qed.

(** No live row of another holder shares a path with [c]. *)
Definition unclaimed (h : LockHolder) (now : Z) (s : store) (c : ScopeClaim) : Prop :=
  ∀ b cb, b ∈ s.(locks) → live now b = true → row_holder b ≠ identity h →
    as_claim b.(row_lock) = Ok cb → cb.(realm) = c.(realm) → ¬ ∃ path, covers c path ∧ covers cb path.

Lemma aged_decision h replace now s : aged now s.(locks) (decision_store h replace now s).(locks).
Proof.
  unfold decision_store. case_match; [|apply aged_update_release].
  eapply aged_trans; apply aged_update_release.
Qed.

Lemma unreleased_not_live_decision h replace now s x :
  rowcount (λ r, unreleased r && expired now r) s.(locks) ≤ Z.to_nat REAP_LIMIT →
  x ∈ (decision_store h replace now s).(locks) → unreleased x = true → live now x = true.
Proof.
  intros Hc. unfold decision_store. case_match; [|by apply reap_complete].
  intros (a & Ha & ->)%elem_of_update_where Hu. destruct (held_by_id _ a && unreleased a); [done|]. by eapply (reap_complete now REAP_LIMIT).
Qed.

Lemma retained_complete h replace now s x :
  x ∈ (decision_store h replace now s).(locks) → live now x = true → row_holder x = identity h →
  x.(row_lock) ∈ retained h replace now s.
Proof using.
  intros Hx Hl Hh. destruct (decide (replace = true ∧ retained h replace now s = [])) as [[-> Hn]|Hn].
  { pose proof (replaced_not_live h now s x Hx Hh). congruence. }
  unfold decision_store, retained in *. cbn zeta in *.
  destruct (replace && _) eqn:E; [apply andb_true_iff in E as [-> _]; by destruct Hn|].
  apply list_elem_of_fmap. exists x. split; [done|]. apply elem_of_select. split; [done|].
  unfold held_by_id. by rewrite bool_decide_true, Hl.
Qed.

(** progress.  An enforcing acquire is granted whenever it is not fenced, no
    live row of another holder shares a path with its claims, and the backlog of
    expired rows is within the reap bound. *)
Theorem acquire_progress dttl clock claims cands h g ttl group now replace s :
  let t := now_iso clock now in
  indexed s → readable s.(locks) → fresh_ids s → (∀ m n, new_id m = new_id n → m = n) →
  Forall canonical claims → prepare claims group = Ok cands →
  Qle_bool (default dttl ttl) 0 = false → ¬ superseded (identity h) g s →
  rowcount (λ r, unreleased r && expired t r) s.(locks) ≤ Z.to_nat REAP_LIMIT →
  (∀ c, c ∈ cands → unclaimed h t s c) →
  ∃ r s', acquire new_id clock dttl claims h g ttl ModeEnforce group now replace s = (Ok r, s') ∧
    r.(status) = Granted.
Proof.
  intros t Hidx Hread Hfresh Hinj Hcl Hp Hq Hsup Hback Hun.
  pose proof (prepare_canonical _ _ _ Hp Hcl) as Hcan. destruct (prepare_keys _ _ _ Hp) as [Hnd _].
  set (s2 := decision_store h replace t s). pose proof (aged_decision h replace t s) as Haged. fold s2 in Haged.
  set (realms := remove_dups (map ScopeConflict.realm cands)).
  destruct (table_total (λ x, live_foreign x h t s2) realms) as (table & Ht & Htab).
  { intros x l _ (b & Hb & <- & _)%elem_of_live_foreign. by eapply readable_aged. }
  assert (scan_conflicts table cands = None) as Hscan.
  { apply scan_conflicts_clear. intros c p Hc Hpt Hr d Hd.
    destruct (Htab p Hpt d Hd) as (l & (b & Hb & <- & Hlr & Hlive & Hne)%elem_of_live_foreign & Hd').
    destruct (as_claim_realm _ _ Hd') as [Hdr _].
    destruct (Haged b Hb) as (a & Ha & Hst & _ & Hla).
    destruct (conflicts_with c d) as [x|] eqn:E; [exfalso|done].
    apply (Hun c Hc a d); [done|by eapply Hla| | |congruence|].
    - by rewrite <-(static_holder _ _ Hst).
    - by rewrite <-(static_as_claim _ _ Hst).
    - apply conflicts_with_covers; [congruence|eauto]. }
  assert (∃ res, insert_loop new_id (retained h replace t s)
    (map key (concat (map snd (live_by_realm_locked realms h t s2)))) h g t
    (plus_seconds t (default dttl ttl)) cands [] [] s2 = Ok res) as [[[ids sk] s3] Hloop].
  { apply insert_loop_total; [done| |done|].
    - unfold s2, decision_store. case_match; repeat apply fresh_update; done.
    - intros c Hc. destruct (decide (Exists (λ l, key l = claim_key c) (retained h replace t s))) as [Hex|Hnex].
      { apply Exists_exists in Hex. by left. }
      right. intros x Hx Hu Hk. pose proof (unreleased_not_live_decision _ _ _ _ _ Hback Hx Hu) as Hlive.
      destruct (decide (row_holder x = identity h)) as [Hh|Hh].
      + apply Hnex, Exists_exists. exists x.(row_lock). split; [by apply retained_complete|done].
      + eapply (enforce_no_foreign_key cands h t s2 table c Hcan Ht Hscan Hc).
        apply elem_of_foreign_keys. exists c.(realm), x.(row_lock). injection Hk as Hkr ???.
        split_and!; [apply elem_of_remove_dups, list_elem_of_fmap; eauto| |unfold key, claim_key; congruence].
        apply elem_of_live_foreign. by exists x. }
  unfold acquire, acquire_locked. rewrite Hp. cbn zeta. rewrite Hq. unfold write, acquire_body. cbn zeta.
  fold t (decision_store h replace t s) (retained h replace t s). fold s2 realms.
  assert (match highest_generation (identity h) (reap_locked t REAP_LIMIT s).2 with
          | Some m => (g <? m)%Z | None => false end = false) as ->.
  { apply not_true_iff_false. intros (x & (a & Ha & ->)%elem_of_update_where & Hx)%highest_generation_lt.
    apply Hsup. exists a. by destruct (reapable _ _ _ a). }
  unfold realms, live_by_realm_locked in *. rewrite Ht. simpl. rewrite Hscan, Hloop. simpl. eauto.
Qed.
End contract.

(** ** The waiter queue *)

Abbreviation waiter_id r := (r.(row_waiter).(w_id)).

(** Ids are drawn in increasing order, and a holder is parked at most once. *)
Record queue_ok (s : store) : Prop := {
  queue_ids : ∀ r, r ∈ s.(waiters) → waiter_id r ≤ s.(last_waiter_id);
  queue_unique : NoDup (map (λ r, waiter_id r) s.(waiters));
  queue_single : ∀ a b, a ∈ s.(waiters) → b ∈ s.(waiters) → parked a = true → parked b = true →
    a.(row_waiter).(w_holder) = b.(row_waiter).(w_holder) → a = b;
}.

Lemma waiter_of_spec h r :
  waiter_of h r = true ↔ r.(row_waiter).(w_holder) = h ∧ parked r = true.
Proof. unfold waiter_of. by rewrite andb_true_iff, bool_decide_eq_true. Qed.

Lemma queue_ok_waiters s s' :
  s'.(waiters) = s.(waiters) → s'.(last_waiter_id) = s.(last_waiter_id) → queue_ok s → queue_ok s'.
Proof. intros E1 E2 [???]. by split; rewrite ?E1, ?E2. Qed.

Lemma queue_ok_update p f s :
  (∀ r, waiter_id (f r) = waiter_id r) →
  (∀ r, r ∈ s.(waiters) → p r = true → (f r).(row_waiter).(w_holder) = r.(row_waiter).(w_holder)) →
  (∀ r, parked (f r) = true → parked r = true) →
  queue_ok s →
  queue_ok (mkStore s.(locks) (update_where p f s.(waiters)) s.(last_waiter_id) s.(ids_drawn)).
Proof.
  intros Hid Hh Hp [Hle Hu Hs]. split; simpl.
  - intros r (a & Ha & ->)%elem_of_update_where. case_match; rewrite ?Hid; by apply Hle.
  - by rewrite update_where_map.
  - intros x y (a & Ha & ->)%elem_of_update_where (b & Hb & ->)%elem_of_update_where Hpa Hpb Heq.
    assert (a = b) as ->; [|done]. apply Hs; [done..| | |].
    + destruct (p a); auto.
    + destruct (p b); auto.
    + destruct (p a) eqn:Ea, (p b) eqn:Eb; rewrite ?Hh in Heq; auto.
Qed.

Lemma queue_ok_park clock realm h on path now s :
  queue_ok s → queue_ok (park_waiter clock realm h on path now s).2.
Proof.
  intros Hq. unfold park_waiter, write. destruct (select _ s.(waiters)) as [|x l] eqn:E; simpl.
  - destruct Hq as [Hle Hu Hs]. split; simpl.
    + intros r [Hr| ->%list_elem_of_singleton]%elem_of_app; simpl; [|lia].
      pose proof (Hle r Hr). lia.
    + rewrite map_app. apply NoDup_app. split_and!; [done| |apply NoDup_singleton].
      intros i Hi ->%list_elem_of_singleton. apply list_elem_of_fmap in Hi as (r & Hi & Hr).
      pose proof (Hle r Hr). simpl in Hi. lia.
    + assert (∀ r, r ∈ s.(waiters) → parked r = true → r.(row_waiter).(w_holder) = identity h → False) as Hno.
      { intros r Hr Hp Hh. assert (r ∈ select (waiter_of (identity h)) s.(waiters)) as Hin.
        { apply elem_of_select. split; [done|]. by apply waiter_of_spec. }
        rewrite E in Hin. by apply not_elem_of_nil in Hin. }
      intros a b [Ha| ->%list_elem_of_singleton]%elem_of_app [Hb| ->%list_elem_of_singleton]%elem_of_app
        Hpa Hpb Heq; simpl in *; [by apply Hs|by destruct (Hno a)|by destruct (Hno b)|done].
  - apply queue_ok_update; done.
Qed.

Lemma queue_ok_clear clock h now s : queue_ok s → queue_ok (clear_waiter clock h now s).2.
Proof. by apply queue_ok_update. Qed.

Lemma insert_loop_waiters new_id own fk h g now e cands ids sk s ids' sk' s' :
  insert_loop new_id own fk h g now e cands ids sk s = Ok (ids', sk', s') →
  s'.(waiters) = s.(waiters) ∧ s'.(last_waiter_id) = s.(last_waiter_id).
Proof.
  revert ids sk s. induction cands as [|c cands IH]; intros ids sk s Hrun; [by simplify_eq/=|].
  cbn [insert_loop] in Hrun. destruct (List.find _ _); [by apply IH in Hrun|].
  case_bool_decide; [by apply IH in Hrun|]. apply bind_Ok in Hrun as ([id s1] & Hins & Hrun).
  apply IH in Hrun as [-> ->]. unfold insert_lock in Hins. repeat (case_match; [done|]). by simplify_eq/=.
Qed.

Lemma queue_ok_step `{RealmIdentity} new_id ok u s s' :
  lock_step new_id ok u s s' → queue_ok s → queue_ok s'.
Proof.
  destruct 1 as [cfg claims h g ttl enforce group replace _|cfg h g ttl|h g ids|limit|realm h on path|h];
    intros Hs.
  - unfold acquire_or_disabled. destruct (effective_mode cfg enforce); [done|..];
      (destruct (acquire _ _ _ _ _ _ _ _ _ _ _ _) as [r s1] eqn:E;
       apply acquire_inv in E as [->|(cands & res & _ & _ & Hb)]; [done|];
       apply acquire_body_inv in Hb as [(_ & -> & _)|(? & ? & ? & _ & _ & [? ?]%insert_loop_waiters & _)];
       [by apply (queue_ok_waiters s)|]; apply (queue_ok_waiters s); [| |done];
       etrans; [done| |done|]; unfold decision_store; by case_match).
  - unfold renew_scope. cbn zeta. case_match; [done|by apply (queue_ok_waiters s)].
  - unfold release_scope. destruct ids as [[|i ids]|]; [done|by apply (queue_ok_waiters s)..].
  - by apply (queue_ok_waiters s).
  - by apply queue_ok_park.
  - by apply queue_ok_clear.
Qed.

Lemma queue_ok_empty : queue_ok empty_store.
Proof. split; simpl; [|apply NoDup_nil_2|]; by intros; exfalso; eapply not_elem_of_nil. Qed.

Lemma queue_ok_steps `{RealmIdentity} new_id ok s :
  rtc (λ s s', ∃ u, lock_step new_id ok u s s') empty_store s → queue_ok s.
Proof.
  intros Hs. assert (∀ a, queue_ok a → rtc (λ s s', ∃ u, lock_step new_id ok u s s') a s → queue_ok s) as Hgen.
  { intros a Ha. induction 1 as [|x y z [u Hxy] _ IH]; [done|]. by eapply IH, queue_ok_step. }
  by eapply Hgen; [apply queue_ok_empty|].
Qed.

Definition parked_in (realm : string) (s : store) (r : WaiterRow) : Prop :=
  r ∈ s.(waiters) ∧ r.(row_waiter).(w_realm) = realm ∧ parked r = true.

(** the waiter queue is FIFO.  On every store the operations reach, the next
    waiter of a realm is the parked row with the smallest id, and there is one
    exactly when somebody is parked there; parking a holder that waits already
    keeps its id, and parking a new one gives an id above every id ever given. *)
Theorem waiter_fifo `{RealmIdentity} new_id ok s realm clock h on path :
  rtc (λ s s', ∃ u, lock_step new_id ok u s s') empty_store s →
  match next_waiter realm s with
  | None => ∀ r, ¬ parked_in realm s r
  | Some w => ∃ x, parked_in realm s x ∧ x.(row_waiter) = w ∧
      ∀ r, parked_in realm s r → r = x ∨ w.(w_id) < waiter_id r
  end ∧
  ∃ i, (park_waiter clock realm h on path NowNone s).1 = Ok i ∧
    ((∃ x, x ∈ s.(waiters) ∧ waiter_of (identity h) x = true ∧ i = waiter_id x) ∨
     (∀ r, r ∈ s.(waiters) → waiter_id r < i)).
Proof.
  intros Hs. destruct (queue_ok_steps _ _ _ Hs) as [Hle Hu _]. split.
  - unfold next_waiter, waiting_rows.
    set (p := λ r, bool_decide (r.(row_waiter).(w_realm) = realm) && parked r).
    assert (∀ r, parked_in realm s r ↔ r ∈ select p s.(waiters)) as Hp.
    { intros r. unfold parked_in, p. by rewrite elem_of_select, andb_true_iff, bool_decide_eq_true. }
    destruct (sort_by _ (select p s.(waiters))) as [|x l] eqn:E; cbn [head fmap option_fmap option_map].
    + intros r Hr%Hp%(elem_of_sort_by (λ r, waiter_id r)). rewrite E in Hr. by apply not_elem_of_nil in Hr.
    + assert (x ∈ select p s.(waiters)) as Hx
        by (apply (elem_of_sort_by (λ r, waiter_id r)); rewrite E; apply list_elem_of_here).
      exists x. split_and!; [by apply Hp|done|]. intros r Hr%Hp.
      pose proof (sort_by_head_min _ _ _ _ E r Hr) as Hmin. apply elem_of_select in Hr as [Hr _], Hx as [Hx _].
      destruct (decide (waiter_id r = waiter_id x)) as [Heq|Hne].
      * left. by eapply (NoDup_map_inj (λ r, waiter_id r)).
      * right. unfold py_le, py_cmp, nat_ord in Hmin.
        destruct (Nat.compare_spec (waiter_id x) (waiter_id r)); [congruence|done|done].
  - unfold park_waiter, write. destruct (select _ s.(waiters)) as [|x l] eqn:E; eexists; (split; [done|]).
    + right. intros r Hr%Hle. lia.
    + left. exists x. assert (x ∈ select (waiter_of (identity h)) s.(waiters)) as Hx
        by (rewrite E; apply list_elem_of_here). by apply elem_of_select in Hx as [??].
Qed.

(** ** Limits of the contract

    Three inputs on which the store does less than its documentation says, each
    evaluated on the model. *)

Module Limits.
Definition letter (n : nat) : ascii := ascii_of_nat (65 + n mod 26).
(** The n-th three letter name. *)
Definition name (n : nat) : string :=
  String (letter (n / 676)) (String (letter (n / 26)) (String (letter n) "")).
Definition claims_of (paths : list (string * ScopeKind)) : list ScopeClaim :=
  omap (λ p, match for_path "/repo" (PathStr p.1) p.2 "" DEFAULT_PURPOSE "" with
             | Ok c => Some c | Err _ => None end) paths.
Definition acquire_at (t : Z) (id : string) (ttl : Q) (paths : list (string * ScopeKind)) (s : store) :
    result lock_error AcquireResult * store :=
  @try_acquire_scope Demo.by_name name Demo.enforcing t (claims_of paths)
    (Demo.runner id) 0 (Some ttl) None None NowNone s.
Definition status_of (o : result lock_error AcquireResult * store) : option AcquireStatus :=
  match o.1 with Ok r => Some r.(status) | Err _ => None end.

(** Rows of one holder as [insert_lock] writes them: [count] files that expired at
    time 10, and [last], which expired at 11. *)
Definition row (path : string) (expires_at : Z) : LockRow :=
  mkRow (mkHeld path "/repo" path 1 KFile (identity (Demo.runner "a")) 0 LaneRunner "" WORK_PURPOSE
           (expires_at - 10) expires_at) None.
Definition backlog (count : nat) : store :=
  mkStore (map (λ n, row (name n) 10) (seq 0 count) ++ [row "last" 11]) [] 0 1000.
End Limits.

(** With 501 expired rows an acquire of a path nobody holds live raises
    [IntegrityError]: the reap releases 500 rows, and the partial unique index
    still counts the expired row it did not reach. *)
Theorem reap_bound_limits_acquire :
  let s := Limits.backlog 500 in
  held_in_realm 100 "/repo" NowNone s = [] ∧
  (Limits.acquire_at 100 "b" 10 [("last", KFile)] s).1 = Err IntegrityError ∧
  Limits.status_of (Limits.acquire_at 100 "b" 10 [("last", KFile)] (Limits.backlog 499)) = Some Granted.
Proof. vm_compute. done. Qed.

(** a directory whose name ends in a space escapes mutual exclusion: the
    stored text is stripped when it is read back, so a file below the directory is
    granted to another holder, though the two claims share that file. *)
Theorem trailing_space_breaks_exclusion :
  let outer := Limits.claims_of [("a /", KRoot)] in
  let inner := Limits.claims_of [("a /b", KFile)] in
  let s := (Limits.acquire_at 0 "a" 10 [("a /", KRoot)] empty_store).2 in
  Limits.status_of (Limits.acquire_at 1 "b" 10 [("a /b", KFile)] s) = Some Granted ∧
  ∃ co ci, outer = [co] ∧ inner = [ci] ∧ covers co ["a "; "b"] ∧ covers ci ["a "; "b"].
Proof.
  split; [by vm_compute|]. eexists _, _. split_and!; [vm_compute; reflexivity..| |done].
  by exists ["b"].
Qed.

(** One claim poisons its realm: [./~x] is accepted and stored as [~x], which
    cannot be read back, so every acquire of another holder in that realm raises
    until the row expires. *)
Theorem unreadable_row_blocks_realm :
  let s := (Limits.acquire_at 0 "a" 10 [("./~x", KFile)] empty_store).2 in
  (Limits.acquire_at 1 "b" 10 [("src/other", KFile)] s).1 = Err (ClaimError (BadPath NotRealmRelative)) ∧
  Limits.status_of (Limits.acquire_at 10 "b" 10 [("src/other", KFile)] s) = Some Granted.
Proof. vm_compute. done. Qed.

(** A positive TTL below one second is accepted and granted, but the row it
    writes is never live: a second holder takes the same path at the same time. *)
Theorem subsecond_ttl_not_live :
  let s := (Limits.acquire_at 0 "a" (1 # 2) [("f", KFile)] empty_store).2 in
  Limits.status_of (Limits.acquire_at 0 "a" (1 # 2) [("f", KFile)] empty_store) = Some Granted ∧
  Limits.status_of (Limits.acquire_at 0 "b" 10 [("f", KFile)] s) = Some Granted.
Proof. vm_compute. done. Qed.

(** ** Witnesses: the contract on the concrete fleet *)

Lemma lock_mutual_exclusion_witness :
  match Demo.two_holders.(locks) with
  | [a; b] => ∃ ca cb, as_claim a.(row_lock) = Ok ca ∧ as_claim b.(row_lock) = Ok cb ∧
      (ca.(realm) = cb.(realm) → ¬ ∃ path, covers ca path ∧ covers cb path)
  | _ => False
  end.
Proof.
  refine (@lock_mutual_exclusion Demo.by_name Demo.lock_name 10 Demo.two_holders _ _
            demo_reachable _ _ _ _ _); try reflexivity.
  - apply list_elem_of_here.
  - apply list_elem_of_further, list_elem_of_here.
  - done.
Defined.

Lemma acquire_all_or_nothing_witness :
  all_or_nothing 60 10 [Demo.claim ["docs"] KRoot] (Demo.runner "c") 0 None NowNone Demo.two_holders
    (@acquire Demo.by_name Demo.lock_name 10 60 [Demo.claim ["docs"] KRoot] (Demo.runner "c") 0 None
       ModeEnforce None NowNone true Demo.two_holders).
Proof. apply (@acquire_all_or_nothing Demo.by_name). by apply demo_canonical. Defined.

(** Run [a] was adopted at generation 3; its displaced worker still runs at 2. *)
Definition adopted_store : store :=
  (@acquire Demo.by_name Demo.lock_name 0 60 [Demo.claim ["src"] KRoot] (Demo.runner "a") 3 None
     ModeEnforce None NowNone true empty_store).2.

Lemma fence_is_permanent_witness :
  @acquire Demo.by_name Demo.lock_name 500 60 [Demo.claim ["x"] KFile] (Demo.runner "a") 2 None
     ModeShadow None NowNone false (release_scope 400 (HRun, "a") 3 None NowNone adopted_store).2
  = (Ok (plain_result Fenced ModeShadow),
     (reap_locked 500 REAP_LIMIT (release_scope 400 (HRun, "a") 3 None NowNone adopted_store).2).2).
Proof.
  refine (@fence_is_permanent Demo.by_name Demo.lock_name (λ _ _, True) (Demo.runner "a") 2
    adopted_store _ 60 500 [Demo.claim ["x"] KFile] [Demo.claim ["x"] KFile] None ModeShadow None NowNone
    false _ _ _ _ _).
  - split; vm_compute; apply NoDup_singleton.
  - eexists. split; [apply list_elem_of_here|]. by vm_compute.
  - apply rtc_once. exists 400%Z. apply step_release.
  - done.
  - done.
Defined.

Lemma reacquire_exact_witness :
  let k := claim_key (Demo.claim ["src"] KRoot) in
  (∃ x, x ∈ adopted_store.(locks) ∧ live 30 x = true ∧ row_holder x = (HRun, "a") ∧ row_key x = k) ↔
  ∃ c, c ∈ [Demo.claim ["src"] KRoot] ∧ claim_key c = k.
Proof.
  refine (@reacquire_exact Demo.by_name Demo.lock_name 60 0 [Demo.claim ["src"] KRoot] (Demo.runner "a") 3
    None None NowNone empty_store _ adopted_store 30 _ _ _ _ _ _).
  - split; apply NoDup_nil_2.
  - by apply demo_canonical.
  - reflexivity.
  - reflexivity.
  - vm_compute. done.
Defined.

Lemma acquire_progress_witness :
  ∃ r s', @acquire Demo.by_name Demo.lock_name 20 60 [Demo.claim ["docs"; "b.md"] KFile] (Demo.runner "c") 0
    None ModeEnforce None NowNone false Demo.two_holders = (Ok r, s') ∧ r.(status) = Granted.
Proof.
  refine (@acquire_progress Demo.by_name Demo.lock_name 60 20 [Demo.claim ["docs"; "b.md"] KFile]
    [Demo.claim ["docs"; "b.md"] KFile] (Demo.runner "c") 0 None None NowNone false Demo.two_holders
    _ _ _ _ _ _ _ _ _ _).
  - destruct (reachable_invariant _ _ _ demo_reachable). by split.
  - by destruct (reachable_invariant _ _ _ demo_reachable).
  - intros n Hn Hin. vm_compute in Hn, Hin. destruct n as [|[|n]]; [lia|lia|].
    apply elem_of_cons in Hin as [[=]|Hin]. apply elem_of_cons in Hin as [[=]|Hin].
    by apply not_elem_of_nil in Hin.
  - induction m as [|m IH]; intros [|n] Heq; [done| | |f_equal; apply IH]; by inversion Heq.
  - by apply demo_canonical.
  - reflexivity.
  - reflexivity.
  - intros (r & Hr & Hh & _). vm_compute in Hr.
    repeat (apply elem_of_cons in Hr as [->|Hr]; [done|]). by apply not_elem_of_nil in Hr.
  - vm_compute. lia.
  - intros c ->%list_elem_of_singleton b cb Hb _ _ Hcb _ (path & Hc & Hp). change (path = ["docs"; "b.md"]) in Hc. subst path.
    vm_compute in Hb. repeat (apply elem_of_cons in Hb as [->|Hb]; [vm_compute in Hcb; injection Hcb as <-|]).
    + by destruct Hp as [k [=]].
    + done.
    + by apply not_elem_of_nil in Hb.
Defined.

Lemma waiter_fifo_witness :
  let s := (park_waiter 5 "/repo" (Demo.runner "a") "lck" "src" NowNone empty_store).2 in
  match next_waiter "/repo" s with
  | None => ∀ r, ¬ parked_in "/repo" s r
  | Some w => ∃ x, parked_in "/repo" s x ∧ x.(row_waiter) = w ∧
      ∀ r, parked_in "/repo" s r → r = x ∨ w.(w_id) < waiter_id r
  end ∧
  ∃ i, (park_waiter 6 "/repo" (Demo.runner "a") "lck" "docs" NowNone s).1 = Ok i ∧
    ((∃ x, x ∈ s.(waiters) ∧ waiter_of (HRun, "a") x = true ∧ i = waiter_id x) ∨
     (∀ r, r ∈ s.(waiters) → waiter_id r < i)).
Proof.
  refine (@waiter_fifo Demo.by_name Demo.lock_name (λ _ _, True)
    (park_waiter 5 "/repo" (Demo.runner "a") "lck" "src" NowNone empty_store).2 "/repo" 6
    (Demo.runner "a") "lck" "docs" _).
  apply rtc_once. exists 5%Z. apply step_park.
Defined.
