(* ===== verification/VerificationReport.v ===== *)
(** * VerificationReport: [omniagentos/verify/report.py]

    The judgment record of one artifact revision, and the interface
    [VerificationReportLike] that the barriers of [swarm/barriers.py] consume. *)

From Stdlib Require Import Ascii.
From stdpp Require Import pretty.
From S2P Require Import Prelude PyString.
Open Scope nat_scope.

Inductive Severity := Critical | High | Medium | Low.
#[export] Instance Severity_eq_dec : EqDecision Severity.
Proof. solve_decision. Defined.

Definition severity_value (s : Severity) : string :=
  match s with Critical => "critical" | High => "high" | Medium => "medium" | Low => "low" end.
Definition rank (s : Severity) : nat :=
  match s with Critical => 0 | High => 1 | Medium => 2 | Low => 3 end.

Inductive Verdict := Pass | Fail | InsufficientEvidence.
#[export] Instance Verdict_eq_dec : EqDecision Verdict.
Proof. solve_decision. Defined.
Definition verdict_value (v : Verdict) : string :=
  match v with Pass => "pass" | Fail => "fail" | InsufficientEvidence => "insufficient_evidence" end.

Definition BLOCKING_SEVERITIES : list Severity := [Critical; High].

Inductive verification_error :=
  | UnknownSeverity (value : string) | UnknownVerdict (value : string)
  | SummaryEmpty | ScenarioEmpty | HashEmpty.

(** [Severity | str] and [Verdict | str]: the member itself or a text. *)
Definition coerce_severity (value : Severity + string) : result verification_error Severity :=
  match value with
  | inl s => Ok s
  | inr text =>
      match List.find (λ s, bool_decide (severity_value s = text)) [Critical; High; Medium; Low] with
      | Some s => Ok s
      | None => Err (UnknownSeverity text)
      end
  end.
Definition coerce_verdict (value : Verdict + string) : result verification_error Verdict :=
  match value with
  | inl v => Ok v
  | inr raw =>
      match List.find (λ v, bool_decide (verdict_value v = raw)) [Pass; Fail; InsufficientEvidence] with
      | Some v => Ok v
      | None => Err (UnknownVerdict raw)
      end
  end.

(** [not text or not text.strip()] *)
Definition blank (text : string) : bool :=
  bool_decide (text = "") || bool_decide (strip text = "").

Record Finding := mkFinding {
  severity : Severity;
  f_file : string;
  f_line : option Z;
  summary : string;
  failure_scenario : string;
  f_id : option string;
}.
#[export] Instance Finding_eq_dec : EqDecision Finding.
Proof. solve_decision. Defined.

Definition new_finding (severity : Severity + string) (file : string) (line : option Z)
    (summary failure_scenario : string) (id : option string) : result verification_error Finding :=
  s ← coerce_severity severity;
  if blank summary then Err SummaryEmpty
  else if blank failure_scenario then Err ScenarioEmpty
  else Ok (mkFinding s file line summary failure_scenario id).

Definition line_text (line : option Z) : string :=
  match line with Some n => pretty n | None => "None" end.

Definition finding_key (f : Finding) : string :=
  match f.(f_id) with
  | Some id => if bool_decide (strip id = "")
      then severity_value f.(severity) +:+ ":" +:+ f.(f_file) +:+ ":" +:+ line_text f.(f_line)
           +:+ ":" +:+ f.(summary)
      else id
  | None => severity_value f.(severity) +:+ ":" +:+ f.(f_file) +:+ ":" +:+ line_text f.(f_line)
            +:+ ":" +:+ f.(summary)
  end.

Record VerificationReport := mkReport {
  r_artifact_hash : string;
  r_verdict : Verdict;
  r_findings : list Finding;
  verifier : string;
  reviewer_lineage : string;
  implementer_lineage : string;
  evidence : list string;
  created_at : option string;
}.

(** The constructor with [__post_init__]: findings are sorted, most severe first. *)
Definition new_report (artifact_hash : string) (verdict : Verdict + string) (findings : list Finding)
    (verifier reviewer_lineage implementer_lineage : string) (evidence : list string)
    (created_at : option string) : result verification_error VerificationReport :=
  if blank artifact_hash then Err HashEmpty
  else
    v ← coerce_verdict verdict;
    Ok (mkReport artifact_hash v (sort_by (λ f, rank f.(severity)) findings) verifier
          reviewer_lineage implementer_lineage evidence created_at).

Definition is_stale_for (r : VerificationReport) (current_hash : string) : bool :=
  if blank current_hash then true else negb (bool_decide (current_hash = r.(r_artifact_hash))).

Definition satisfies (r : VerificationReport) (current_hash : string) : bool :=
  bool_decide (r.(r_verdict) = Pass) && negb (is_stale_for r current_hash).

Definition status_for (r : VerificationReport) (current_hash : string) : string :=
  if bool_decide (r.(r_verdict) = InsufficientEvidence) then "insufficient_evidence"
  else if is_stale_for r current_hash then "stale"
  else if bool_decide (r.(r_verdict) = Pass) then "satisfied"
  else "failed".

Definition blocking_findings (r : VerificationReport) (waivers : list string) : list Finding :=
  List.filter (λ f, bool_decide (f.(severity) ∈ BLOCKING_SEVERITIES)
                    && negb (bool_decide (finding_key f ∈ waivers))) r.(r_findings).
Definition has_open_blocking_findings (r : VerificationReport) (waivers : list string) : bool :=
  negb (bool_decide (blocking_findings r waivers = [])).

(** ** The interface

    What the barriers know about a report.  The law is the one the protocol class
    documents. *)
Class VerificationReportLike (R : Type) := {
  like_verdict : R → string;
  like_stale : R → string → bool;
  like_satisfies : R → string → bool;
  like_satisfies_spec r h :
    like_satisfies r h = bool_decide (like_verdict r = "pass") && negb (like_stale r h);
}.

Lemma verdict_value_pass v : verdict_value v = "pass" ↔ v = Pass.
Proof. by destruct v. Qed.

#[export] Instance report_like : VerificationReportLike VerificationReport := {|
  like_verdict r := verdict_value r.(r_verdict);
  like_stale := is_stale_for;
  like_satisfies := satisfies;
  like_satisfies_spec r h := f_equal (λ b, b && negb (is_stale_for r h))
    (bool_decide_ext _ _ (iff_sym (verdict_value_pass r.(r_verdict))))
|}.

Lemma blank_spec s : blank s = true ↔ strip s = "".
Proof. unfold blank. rewrite orb_true_iff, !bool_decide_eq_true. split; [|auto]. by intros [->|]. Qed.

Lemma satisfies_spec r h :
  satisfies r h = true ↔ r.(r_verdict) = Pass ∧ h = r.(r_artifact_hash) ∧ strip h ≠ "".
Proof.
  unfold satisfies, is_stale_for. rewrite andb_true_iff, bool_decide_eq_true.
  destruct (blank h) eqn:Eb; simpl.
  - apply blank_spec in Eb. naive_solver.
  - apply not_true_iff_false in Eb. rewrite blank_spec in Eb.
    rewrite negb_involutive, bool_decide_eq_true. naive_solver.
Qed.

(** the lifecycle status refines satisfaction.  A report satisfies a hash
    exactly when its status is [satisfied], that is when it passed and judged this
    very non-blank hash; a report of another revision is never good or bad news,
    and at most one revision is ever satisfied. *)
Theorem report_status_exact r h :
  (satisfies r h = true ↔ status_for r h = "satisfied") ∧
  (satisfies r h = true ↔ r.(r_verdict) = Pass ∧ h = r.(r_artifact_hash) ∧ strip h ≠ "") ∧
  (status_for r h = "failed" → r.(r_verdict) = Fail ∧ h = r.(r_artifact_hash)) ∧
  (∀ h', satisfies r h = true → satisfies r h' = true → h = h').
Proof.
  split_and!.
  - unfold satisfies, status_for. destruct (r_verdict r), (is_stale_for r h); simpl; naive_solver.
  - apply satisfies_spec.
  - unfold status_for, is_stale_for. destruct (r_verdict r), (blank h); simpl; try done;
      case_bool_decide; simpl; done.
  - intros h' (_ & -> & _)%satisfies_spec (_ & -> & _)%satisfies_spec. done.
Qed.

(** a report lists its findings most severe first without losing any, and a
    waiver lifts exactly the blocking findings it names. *)
Theorem report_findings_gate hash v findings ver rl il ev at_ waivers r :
  new_report hash v findings ver rl il ev at_ = Ok r →
  r.(r_findings) ≡ₚ findings ∧ sorted_by (λ f, rank f.(severity)) r.(r_findings) ∧
  (has_open_blocking_findings r waivers = false ↔
   ∀ f, f ∈ findings → f.(severity) = Critical ∨ f.(severity) = High → finding_key f ∈ waivers).
Proof.
  unfold new_report. case_match; [done|]. intros (w & _ & [= <-])%bind_Ok. simpl.
  split_and!; [apply sort_by_perm|apply sort_by_sorted|].
  unfold has_open_blocking_findings, blocking_findings. rewrite negb_false_iff, bool_decide_eq_true. simpl.
  assert (∀ f, f ∈ findings ↔ f ∈ sort_by (λ f, rank f.(severity)) findings) as Hin
    by (intros; by rewrite elem_of_sort_by).
  setoid_rewrite Hin. generalize (sort_by (λ f, rank f.(severity)) findings) as l. intros l.
  assert (∀ f, bool_decide (f.(severity) ∈ BLOCKING_SEVERITIES) = true ↔
    f.(severity) = Critical ∨ f.(severity) = High) as Hb.
  { intros f. rewrite bool_decide_eq_true. unfold BLOCKING_SEVERITIES. set_solver. }
  split.
  - intros Hn f Hf Hs. destruct (decide (finding_key f ∈ waivers)) as [|Hw]; [done|exfalso].
    assert (f ∈ select (λ f, bool_decide (f.(severity) ∈ BLOCKING_SEVERITIES)
        && negb (bool_decide (finding_key f ∈ waivers))) l) as Hsel.
    { apply elem_of_select. split; [done|]. by rewrite (proj2 (Hb f) Hs), bool_decide_false. }
    unfold select in Hsel. rewrite Hn in Hsel. by apply not_elem_of_nil in Hsel.
  - intros Hall. apply select_none. intros f Hf. apply not_true_iff_false.
    intros [Hs%Hb Hw]%andb_true_iff. apply negb_true_iff, bool_decide_eq_false in Hw. auto.
Qed.

Lemma report_findings_gate_witness :
  let low := mkFinding Low "a.py" None "s" "f" None in
  let crit := mkFinding Critical "b.py" (Some 3%Z) "s" "f" (Some "F-1") in
  let r := mkReport "h" Fail [crit; low] "v" "" "" [] None in
  r.(r_findings) ≡ₚ [low; crit] ∧ sorted_by (λ f, rank f.(severity)) r.(r_findings) ∧
  (has_open_blocking_findings r ["F-1"] = false ↔
   ∀ f, f ∈ [low; crit] → f.(severity) = Critical ∨ f.(severity) = High → finding_key f ∈ ["F-1"]).
Proof. cbv zeta. by apply (report_findings_gate "h" (inr "fail") _ "v" "" "" [] None). Defined.
