(* ===== verification/Barriers.v ===== *)
(** * Barriers: [omniagentos/swarm/barriers.py]

    The control-plane barrier predicates over already-fetched state.  Reports come
    through the [VerificationReportLike] interface; mappings are finite maps. *)

From Stdlib Require Import Ascii.
From S2P Require Import Prelude PyString VerificationReport.
Open Scope nat_scope.

Definition TERMINAL_TASK_STATUSES : list string := ["done"; "blocked"; "cancelled"].
Definition CONDITION_VERIFIED : string := "VERIFIED".
Definition CONDITION_DONE : string := "DONE".
Definition TERMINAL_DISPOSITIONS : list string := ["accepted"; "rejected"; "cancelled"; "abandoned"].

Record BarrierResult := mkBarrier {
  barrier : string;
  released : bool;
  reason : string;
  detail : string;
  blocking_ids : list string;
  satisfied_ids : list string;
}.

Record DependencyEdge := mkEdge {
  e_task_id : string;
  depends_on_task_id : string;
  condition : string;
  predecessor_status : option string;
}.

Record WorkerTask := mkWorker {
  wt_task_id : string;
  required : bool;
  wt_current_hash : option string;
}.

Record WorkstreamState := mkWorkstream {
  workstream_id : string;
  mandatory : bool;
  ws_ready : bool;
}.

(** [ContextVerdictLike.ready], [AuditResultLike.verdict] and the two fields of
    [ProjectStateLike] are all the barriers read of those objects. *)
Record ProjectState := mkProject { disposition : option string; project_id : string }.

(** [text or fallback] on an optional string. *)
Definition or_else (text : option string) (fallback : string) : string :=
  match text with Some s => if bool_decide (s = "") then fallback else s | None => fallback end.

Definition refused (barrier reason detail : string) : BarrierResult :=
  mkBarrier barrier false reason detail [] [].
Definition releasing (barrier reason detail : string) (satisfied : list string) : BarrierResult :=
  mkBarrier barrier true reason detail [] satisfied.

Definition comma (ids : list string) : string := join ", " ids.

(** What the loops of the barriers accumulate. *)
Record tally := mkTally {
  blocking : list string;
  satisfied : list string;
  first_reason : option string;
  first_detail : option string;
}.
Definition empty_tally : tally := mkTally [] [] None None.

Definition record_block (t : tally) (id reason detail : string) : tally :=
  match t.(first_reason) with
  | None => mkTally (t.(blocking) ++ [id]) t.(satisfied) (Some reason) (Some detail)
  | Some _ => mkTally (t.(blocking) ++ [id]) t.(satisfied) t.(first_reason) t.(first_detail)
  end.
Definition record_satisfied (t : tally) (id : string) : tally :=
  mkTally t.(blocking) (t.(satisfied) ++ [id]) t.(first_reason) t.(first_detail).

Section barriers.
Context `{VerificationReportLike R}.

(** [_report_block_reason]: [None] releases. *)
Definition report_block_reason (report : option R) (current_hash : option string) : option string :=
  match report with
  | None => Some "missing_report"
  | Some r =>
      match current_hash with
      | Some h =>
          if bool_decide (h = "") then Some "missing_current_hash"
          else if like_satisfies r h then None
          else if like_stale r h then Some "stale_report"
          else Some "verification_not_passing"
      | None =>
          if bool_decide (like_verdict r = "pass") then None else Some "verification_not_passing"
      end
  end.

(** ** 1. Contract *)

(** [context_verdict] is the [ready] flag of the verdict, if there is one. *)
Definition contract_barrier (contract_state : option string) (context_verdict : option bool) :
    BarrierResult :=
  let normalized := casefold (strip (or_else contract_state "")) in
  if negb (bool_decide (normalized = "approved")) then
    refused "contract" "contract_not_approved"
      (match contract_state with
       | Some s => "contract state " +:+ repr s +:+ " is not APPROVED"
       | None => "contract state is missing" end)
  else match context_verdict with
  | None => refused "contract" "context_missing" "context verdict is missing"
  | Some false => refused "contract" "context_not_ready" "context verdict is present but not ready"
  | Some true => releasing "contract" "released" "contract APPROVED and context ready" []
  end.

(** ** 2. Dependencies *)

(** One turn of the loop: [edge_reason] and [edge_detail]. *)
Definition judge_edge (reports_by_task : gmap string R) (hashes_by_task : gmap string string)
    (edge : DependencyEdge) : option string * string :=
  let pred := repr edge.(depends_on_task_id) in
  let on := "edge on " +:+ repr edge.(e_task_id) in
  match edge.(predecessor_status) with
  | None => (Some "missing_predecessor",
      "predecessor " +:+ pred +:+ " has no board row (dangling " +:+ on +:+ ")")
  | Some status =>
      if bool_decide (status ∈ ["blocked"; "cancelled"]) then
        (Some "predecessor_terminal_not_done",
         "predecessor " +:+ pred +:+ " is terminal-not-done status " +:+ repr status +:+ " (" +:+ on +:+ ")")
      else if negb (bool_decide (status = "done")) then
        (Some "predecessor_not_done",
         "predecessor " +:+ pred +:+ " status is " +:+ repr status +:+ ", not done (" +:+ on +:+ ")")
      else if bool_decide (edge.(condition) = CONDITION_DONE) then
        (None, "predecessor " +:+ pred +:+ " done under DONE condition")
      else if bool_decide (edge.(condition) = CONDITION_VERIFIED) then
        match hashes_by_task !! edge.(depends_on_task_id) with
        | None | Some "" => (Some "missing_current_hash",
            "predecessor " +:+ pred +:+ " has no non-empty current hash (" +:+ on +:+ ")")
        | Some current_hash =>
            match report_block_reason (reports_by_task !! edge.(depends_on_task_id)) (Some current_hash) with
            | Some block => (Some block,
                "predecessor " +:+ pred +:+ " report does not satisfy current hash "
                +:+ repr current_hash +:+ " (" +:+ block +:+ "; " +:+ on +:+ ")")
            | None => (None, "predecessor " +:+ pred +:+ " verified for hash " +:+ repr current_hash)
            end
        end
      else
        (Some "unknown_condition",
         "predecessor " +:+ pred +:+ " has unknown condition " +:+ repr edge.(condition) +:+ " (" +:+ on +:+ ")")
  end.

Definition tally_edge (reports_by_task : gmap string R) (hashes_by_task : gmap string string)
    (t : tally) (edge : DependencyEdge) : tally :=
  match judge_edge reports_by_task hashes_by_task edge with
  | (Some r, d) => record_block t edge.(depends_on_task_id) r d
  | (None, _) => record_satisfied t edge.(depends_on_task_id)
  end.

Definition dependency_barrier (edges : list DependencyEdge) (reports_by_task : gmap string R)
    (hashes_by_task : gmap string string) : BarrierResult :=
  match edges with
  | [] => releasing "dependency" "no_dependencies"
            "task has no predecessor edges; genuinely eligible" []
  | edge :: _ =>
      let t := foldl (tally_edge reports_by_task hashes_by_task) empty_tally edges in
      if negb (bool_decide (t.(blocking) = [])) then
        mkBarrier "dependency" false (or_else t.(first_reason) "dependencies_not_satisfied")
          (or_else t.(first_detail)
            ("blocking predecessors: " +:+ comma t.(blocking) +:+ " (task " +:+ repr edge.(e_task_id) +:+ ")"))
          t.(blocking) t.(satisfied)
      else
        releasing "dependency" "all_dependencies_satisfied"
          ("all predecessors satisfied for task " +:+ repr edge.(e_task_id) +:+ ": " +:+ comma t.(satisfied))
          t.(satisfied)
  end.

(** ** 3. Integration exemption *)

(** [statuses[d]]: only used where [d] is known to be present. *)
Definition status_at (statuses : gmap string string) (d : string) : string :=
  default "" (statuses !! d).

Definition integration_exemption (edges : list DependencyEdge) (statuses : gmap string string) :
    BarrierResult :=
  let barrier := "integration_exemption" in
  let shown d := d +:+ "=" +:+ status_at statuses d in
  let terminal d := bool_decide (status_at statuses d ∈ TERMINAL_TASK_STATUSES) in
  match edges with
  | [] => releasing barrier "no_dependencies" "integration task has no predecessor edges" []
  | _ =>
      let dep_ids := map depends_on_task_id edges in
      let missing := List.filter (λ d, bool_decide (statuses !! d = None)) dep_ids in
      if negb (bool_decide (missing = [])) then
        mkBarrier barrier false "missing_dependency"
          ("predecessor id(s) absent from statuses (never default to done): " +:+ comma missing)
          missing []
      else if forallb (λ d, bool_decide (status_at statuses d = "done")) dep_ids then
        mkBarrier barrier false "plain_eligibility_covers_this"
          ("all predecessors are done (" +:+ comma dep_ids +:+ "); use dependency_barrier instead")
          [] dep_ids
      else if forallb terminal dep_ids then
        releasing barrier "all_predecessors_terminal"
          ("all predecessors terminal for integration exemption: " +:+ comma (map shown dep_ids)) dep_ids
      else
        let non_terminal := List.filter (λ d, negb (terminal d)) dep_ids in
        mkBarrier barrier false "non_terminal_predecessors"
          ("non-terminal predecessors block integration exemption: " +:+ comma (map shown non_terminal))
          non_terminal []
  end.

(** ** 4. Local completion *)

Definition tally_worker (reports_by_task : gmap string R) (t : tally) (worker : WorkerTask) : tally :=
  let tid := worker.(wt_task_id) in
  match worker.(wt_current_hash) with
  | None | Some "" => record_block t tid "missing_current_hash"
      ("required worker " +:+ repr tid +:+ " has no non-empty current_hash")
  | Some h =>
      match report_block_reason (reports_by_task !! tid) (Some h) with
      | Some block => record_block t tid block
          ("required worker " +:+ repr tid +:+ " report does not satisfy hash " +:+ repr h
           +:+ " (" +:+ block +:+ ")")
      | None => record_satisfied t tid
      end
  end.

Definition local_completion_barrier (worker_tasks : list WorkerTask) (reports_by_task : gmap string R) :
    BarrierResult :=
  let barrier := "local_completion" in
  match List.filter required worker_tasks with
  | [] => refused barrier "no_required_workers"
            "no required worker tasks provided; refusing vacuous pass"
  | workers =>
      let t := foldl (tally_worker reports_by_task) empty_tally workers in
      if negb (bool_decide (t.(blocking) = [])) then
        mkBarrier barrier false (or_else t.(first_reason) "workers_not_verified")
          (or_else t.(first_detail) ("blocking required workers: " +:+ comma t.(blocking)))
          t.(blocking) t.(satisfied)
      else
        releasing barrier "all_required_workers_verified"
          ("all required workers verified: " +:+ comma t.(satisfied)) t.(satisfied)
  end.

(** ** 5. Workstream *)

(** [f" for hash {h!r}" if h else ""] *)
Definition hash_part (current_hash : option string) : string :=
  match current_hash with
  | None | Some "" => ""
  | Some h => " for hash " +:+ repr h
  end.

Definition workstream_barrier (integration_verification : option R) (current_hash : option string) :
    BarrierResult :=
  match report_block_reason integration_verification current_hash with
  | Some block => refused "workstream" block
      ("integration verification not ready" +:+ hash_part current_hash +:+ " (" +:+ block +:+ ")")
  | None => releasing "workstream" "ready_for_global_merge"
      ("integration verification ready for global merge" +:+ hash_part current_hash) []
  end.

(** ** 6. Global merge *)

Definition global_merge_barrier (workstreams : list WorkstreamState) : BarrierResult :=
  let barrier := "global_merge" in
  match List.filter mandatory workstreams with
  | [] => refused barrier "no_mandatory_workstreams"
            "no mandatory workstreams provided; refusing vacuous pass"
  | ws =>
      match map workstream_id (List.filter (λ w, negb w.(ws_ready)) ws) with
      | [] =>
          let ready_ids := map workstream_id ws in
          releasing barrier "all_mandatory_workstreams_ready"
            ("all mandatory workstreams ready: " +:+ comma ready_ids) ready_ids
      | not_ready =>
          mkBarrier barrier false "workstream_not_ready"
            ("mandatory workstreams not ready: " +:+ comma not_ready) not_ready []
      end
  end.

(** ** 7. Acceptance *)

Definition acceptance_barrier (post_merge_report : option R) (audit_result : option string)
    (current_hash : option string) : BarrierResult :=
  let barrier := "acceptance" in
  match report_block_reason post_merge_report current_hash with
  | Some block => refused barrier block
      ("post-merge report not accepting" +:+ hash_part current_hash +:+ " (" +:+ block +:+ ")")
  | None =>
      match audit_result with
      | None => refused barrier "audit_missing" "post-merge audit result is missing"
      | Some verdict =>
          if bool_decide (verdict = "inconclusive") then
            refused barrier "audit_inconclusive" "post-merge audit verdict is inconclusive (fail closed)"
          else if bool_decide (verdict = "fail") then
            refused barrier "audit_failed" "post-merge audit verdict is fail"
          else if negb (bool_decide (verdict = "pass")) then
            refused barrier "audit_failed" ("post-merge audit verdict is " +:+ repr verdict +:+ ", not pass")
          else releasing barrier "accepted" "post-merge report and audit both pass" []
      end
  end.

(** ** 8. Learning *)

Definition learning_barrier (project_state : option ProjectState) : BarrierResult :=
  let barrier := "learning" in
  match project_state with
  | None => refused barrier "no_project_state" "project state is missing"
  | Some p =>
      let id := repr p.(project_id) in
      match p.(disposition) with
      | None => mkBarrier barrier false "no_terminal_disposition"
          ("project " +:+ id +:+ " has no disposition") [p.(project_id)] []
      | Some d =>
          let normalized := casefold (strip d) in
          if negb (bool_decide (normalized ∈ TERMINAL_DISPOSITIONS)) then
            mkBarrier barrier false "no_terminal_disposition"
              ("project " +:+ id +:+ " disposition " +:+ repr d +:+ " is not terminal")
              [p.(project_id)] []
          else releasing barrier "terminal_disposition_reached"
            ("project " +:+ id +:+ " reached terminal disposition " +:+ repr normalized) [p.(project_id)]
      end
  end.

(** ** The loops *)

(** A tally holds the blocked and the satisfied ids in order, and the reason of the
    first block. *)
Lemma tally_fold {X} (verdict : X → option (string * string)) (id : X → string)
    (step : tally → X → tally) xs t :
  (∀ t x, step t x = match verdict x with
                     | Some (r, d) => record_block t (id x) r d
                     | None => record_satisfied t (id x) end) →
  let bad x := match verdict x with Some _ => true | None => false end in
  let u := foldl step t xs in
  u.(blocking) = t.(blocking) ++ map id (List.filter bad xs) ∧
  u.(satisfied) = t.(satisfied) ++ map id (List.filter (λ x, negb (bad x)) xs) ∧
  u.(first_reason) = match t.(first_reason) with
    | Some r => Some r | None => fst <$> head (omap verdict xs) end.
Proof.
  intros Hstep. cbn zeta. revert t. induction xs as [|x xs IH]; intros t; cbn [foldl].
  { simpl. rewrite !app_nil_r. by destruct (first_reason t). }
  rewrite (Hstep t x). destruct (IH match verdict x with
    | Some (r, d) => record_block t (id x) r d
    | None => record_satisfied t (id x) end) as (-> & -> & ->).
  cbn [List.filter]. destruct (verdict x) as [[r d]|] eqn:E; simpl; rewrite E.
  - unfold record_block. destruct (first_reason t) eqn:Ef; simpl; rewrite ?Ef, <-app_assoc; done.
  - rewrite <-app_assoc. by destruct (first_reason t).
Qed.
End barriers.
