(* ===== verification/BarrierSpec.v ===== *)
(** * BarrierSpec: when the control-plane barriers release

    Each barrier is characterized by the evidence it needs, for any kind of
    report; the last theorem instantiates the reports of [verify/report.py]. *)

From Stdlib Require Import Ascii.
From S2P Require Import Prelude PyString VerificationReport Barriers.
Open Scope nat_scope.

Section spec.
Context `{VerificationReportLike R}.
Implicit Types (reports : gmap string R) (hashes : gmap string string).

(** The evidence that a report gives about a revision. *)
Definition evidence_for (report : option R) (current_hash : option string) : Prop :=
  ∃ r, report = Some r ∧
    match current_hash with
    | Some h => h ≠ "" ∧ like_satisfies r h = true
    | None => like_verdict r = "pass"
    end.

Lemma report_block_reason_None report h :
  report_block_reason report h = None ↔ evidence_for report h.
Proof.
  unfold report_block_reason, evidence_for. destruct report as [r|]; [|naive_solver].
  destruct h as [h|].
  - case_bool_decide; [naive_solver|]. destruct (like_satisfies r h) eqn:E; [naive_solver|].
    split; [by destruct (like_stale r h)|]. intros (r' & [= <-] & _ & ?). congruence.
  - case_bool_decide; naive_solver.
Qed.

Lemma report_block_reason_nonempty report h : report_block_reason report h ≠ Some "".
Proof. unfold report_block_reason. repeat case_match; try done; by case_bool_decide. Qed.

Definition edge_ok reports hashes (e : DependencyEdge) : Prop :=
  e.(predecessor_status) = Some "done" ∧
  (e.(condition) = CONDITION_DONE ∨
   e.(condition) = CONDITION_VERIFIED ∧ ∃ h, hashes !! e.(depends_on_task_id) = Some h ∧
     evidence_for (reports !! e.(depends_on_task_id)) (Some h)).

Lemma judge_edge_ok reports hashes e :
  (judge_edge reports hashes e).1 = None ↔ edge_ok reports hashes e.
Proof.
  unfold judge_edge, edge_ok. destruct (predecessor_status e) as [st|]; [|naive_solver].
  case_bool_decide as Hb; [split; [done|]; intros [[= ->] _]; set_solver|].
  case_bool_decide as Hd; simpl; [subst st|split; [done|]; naive_solver].
  case_bool_decide as Hc; [naive_solver|]. case_bool_decide as Hv; [|naive_solver].
  destruct (hashes !! depends_on_task_id e) as [h|] eqn:Eh; [|naive_solver].
  destruct h as [|a h].
  { split; [done|]. intros (_ & [?|(_ & h & [= <-] & r & _ & Hh & _)]); [congruence|done]. }
  pose proof (report_block_reason_None (reports !! depends_on_task_id e) (Some (String a h))) as Hr.
  destruct (report_block_reason _ _) as [b|]; simpl; [|naive_solver].
  split; [done|]. intros (_ & [?|(_ & h' & [= <-] & He)]); [congruence|]. by apply Hr in He.
Qed.

Lemma judge_edge_nonempty reports hashes e r d : judge_edge reports hashes e = (Some r, d) → r ≠ "".
Proof.
  unfold judge_edge. repeat case_match; intros [= <- _]; try done.
  all: intros ->; by eapply report_block_reason_nonempty.
Qed.

(** The verdict of an edge as the loop records it. *)
Definition edge_verdict reports hashes (e : DependencyEdge) : option (string * string) :=
  match judge_edge reports hashes e with (Some r, d) => Some (r, d) | (None, _) => None end.
Definition edge_blocks reports hashes (e : DependencyEdge) : bool :=
  match edge_verdict reports hashes e with Some _ => true | None => false end.

Lemma edge_blocks_spec reports hashes e :
  edge_blocks reports hashes e = false ↔ edge_ok reports hashes e.
Proof.
  unfold edge_blocks, edge_verdict. rewrite <-judge_edge_ok.
  by destruct (judge_edge reports hashes e) as [[]].
Qed.

Lemma map_nil_iff {A B} (f : A → B) l : map f l = [] ↔ l = [].
Proof. by destruct l. Qed.

Lemma filter_nil_iff {A} (p : A → bool) l : List.filter p l = [] ↔ ∀ x, x ∈ l → p x = false.
Proof.
  split.
  - intros Hn x Hx. apply not_true_iff_false. intros Hp.
    assert (x ∈ select p l) as Hin by by apply elem_of_select.
    unfold select in Hin. rewrite Hn in Hin. by apply not_elem_of_nil in Hin.
  - apply select_none.
Qed.

Lemma dependency_tally edges reports hashes :
  let t := foldl (tally_edge reports hashes) empty_tally edges in
  let blocks := edge_blocks reports hashes in
  t.(blocking) = map depends_on_task_id (List.filter blocks edges) ∧
  t.(satisfied) = map depends_on_task_id (List.filter (λ e, negb (blocks e)) edges) ∧
  t.(first_reason) = fst <$> head (omap (edge_verdict reports hashes) edges).
Proof.
  apply (tally_fold (edge_verdict reports hashes) depends_on_task_id (tally_edge reports hashes)).
  intros t x. unfold tally_edge, edge_verdict. by destruct (judge_edge reports hashes x) as [[]].
Qed.

Lemma dependency_released edges reports hashes :
  (dependency_barrier edges reports hashes).(released) = true ↔
  ∀ e, e ∈ edges → edge_ok reports hashes e.
Proof.
  destruct edges as [|e edges].
  { split; [|done]. by intros _ e ?%not_elem_of_nil. }
  unfold dependency_barrier. destruct (dependency_tally (e :: edges) reports hashes) as (-> & _ & _).
  setoid_rewrite <-edge_blocks_spec. rewrite <-filter_nil_iff.
  case_bool_decide as Hn; simpl in *; rewrite map_nil_iff in Hn; done.
Qed.

(** C40: the dependency barrier releases exactly when every predecessor is done
    and, under the VERIFIED condition, has a report that satisfies its non-empty
    current hash.  Otherwise it lists the predecessors that block and those that
    do not, in edge order, with the reason of the first that blocks. *)
Theorem dependency_barrier_exact edges reports hashes :
  let b := dependency_barrier edges reports hashes in
  let blocks := edge_blocks reports hashes in
  (b.(released) = true ↔ ∀ e, e ∈ edges → edge_ok reports hashes e) ∧
  b.(blocking_ids) = map depends_on_task_id (List.filter blocks edges) ∧
  b.(satisfied_ids) = map depends_on_task_id (List.filter (λ e, negb (blocks e)) edges) ∧
  (b.(released) = false →
   Some b.(reason) = fst <$> head (omap (edge_verdict reports hashes) edges)).
Proof.
  cbn zeta. split; [apply dependency_released|]. destruct edges as [|e edges]; [done|].
  unfold dependency_barrier. set (l := e :: edges).
  destruct (dependency_tally l reports hashes) as (Hb & Hs & Hf). clearbody l. rewrite Hb, Hs, Hf.
  case_bool_decide as Hn; simpl; split_and!; try done. intros _.
  destruct (head (omap (edge_verdict reports hashes) l)) as [[r d]|] eqn:Eh; simpl.
  - unfold or_else. rewrite bool_decide_false; [done|].
    apply head_Some_elem_of in Eh. apply list_elem_of_omap in Eh as (x & _ & Hx).
    unfold edge_verdict in Hx. destruct (judge_edge reports hashes x) as [[r'|] d'] eqn:Ej; [|done].
    injection Hx as -> ->. by eapply judge_edge_nonempty.
  - exfalso. apply Hn, map_nil_iff, filter_nil_iff. intros x Hx. unfold edge_blocks.
    destruct (edge_verdict reports hashes x) as [v|] eqn:Ev; [|done].
    assert (v ∈ omap (edge_verdict reports hashes) l) as Hv by (apply list_elem_of_omap; eauto).
    destruct (omap _ l); [by apply not_elem_of_nil in Hv|done].
Qed.

(** ** The integration exemption *)

Lemma status_at_lookup (statuses : gmap string string) d st :
  st ≠ "" → status_at statuses d = st ↔ statuses !! d = Some st.
Proof. unfold status_at. destruct (statuses !! d); simpl; naive_solver. Qed.

Lemma integration_exemption_released edges statuses :
  edges ≠ [] →
  (integration_exemption edges statuses).(released) = true ↔
  (∀ e, e ∈ edges → ∃ st, statuses !! e.(depends_on_task_id) = Some st ∧ st ∈ TERMINAL_TASK_STATUSES) ∧
  ∃ e, e ∈ edges ∧ statuses !! e.(depends_on_task_id) ≠ Some "done".
Proof.
  intros Hne. unfold integration_exemption. destruct edges as [|e0 edges0]; [done|].
  set (edges := e0 :: edges0). clearbody edges. clear Hne.
  set (ids := map depends_on_task_id edges).
  assert (∀ P : string → Prop, (∀ d, d ∈ ids → P d) ↔ ∀ e, e ∈ edges → P e.(depends_on_task_id)) as Hids.
  { intros P. unfold ids. setoid_rewrite list_elem_of_fmap. naive_solver. }
  case_bool_decide as Hm; simpl; cycle 1.
  { split; [done|]. intros [Hall _]. exfalso. apply Hm, filter_nil_iff. apply Hids.
    intros e He. destruct (Hall e He) as (st & -> & _). done. }
  assert (∀ d, d ∈ ids → is_Some (statuses !! d)) as Hpres.
  { intros d Hd. rewrite filter_nil_iff in Hm. specialize (Hm d Hd). simpl in Hm.
    apply bool_decide_eq_false in Hm. by destruct (statuses !! d). }
  destruct (forallb (λ d, bool_decide (status_at statuses d = "done")) ids) eqn:Hd; simpl.
  - split; [done|]. intros (_ & e & He & Hnd). exfalso. apply Hnd.
    apply (status_at_lookup statuses _ "done"); [done|].
    eapply bool_decide_eq_true, (proj1 (forallb_forall _ _) Hd).
    apply list_elem_of_In, list_elem_of_fmap. eauto.
  - assert (∃ e, e ∈ edges ∧ statuses !! e.(depends_on_task_id) ≠ Some "done") as Hex.
    { destruct (decide (Forall (λ e, statuses !! e.(depends_on_task_id) = Some "done") edges)) as [Hf|Hf].
      - exfalso. apply not_true_iff_false in Hd. apply Hd, forallb_forall. intros d Hin%list_elem_of_In.
        apply bool_decide_eq_true. apply (status_at_lookup statuses d "done"); [done|]. revert d Hin. apply Hids.
        by apply Forall_forall.
      - apply not_Forall_Exists in Hf; [|intros; apply _]. by apply Exists_exists in Hf. }
    destruct (forallb (λ d, bool_decide (status_at statuses d ∈ TERMINAL_TASK_STATUSES)) ids) eqn:Ht;
      simpl.
    + split; [|done]. intros _. split; [|done]. intros e He.
      assert (depends_on_task_id e ∈ ids) as Hin by (apply list_elem_of_fmap; eauto).
      revert Hin. generalize (depends_on_task_id e). intros d Hin.
      destruct (Hpres d Hin) as [st Hst]. exists st. split; [done|].
      apply list_elem_of_In in Hin. pose proof (proj1 (forallb_forall _ _) Ht d Hin) as Hb.
      apply bool_decide_eq_true in Hb. unfold status_at in Hb. by rewrite Hst in Hb.
    + split; [done|]. intros [Hall _]. exfalso. apply not_true_iff_false in Ht. apply Ht, forallb_forall.
      intros d Hin%list_elem_of_In. apply bool_decide_eq_true. revert d Hin. apply Hids.
      intros e He. destruct (Hall e He) as (st & Hst & Hin). unfold status_at. by rewrite Hst.
Qed.

(** the exemption never doubles as a way around verification.  It releases
    exactly when every predecessor has a board row, all of them are terminal and
    one is not done; on edges that carry those board statuses the dependency
    barrier is then closed, whatever the reports say. *)
Theorem exemption_disjoint_from_dependency edges statuses reports hashes :
  edges ≠ [] → (∀ e, e ∈ edges → e.(predecessor_status) = statuses !! e.(depends_on_task_id)) →
  ((integration_exemption edges statuses).(released) = true ↔
    (∀ e, e ∈ edges → ∃ st, statuses !! e.(depends_on_task_id) = Some st ∧ st ∈ TERMINAL_TASK_STATUSES) ∧
    ∃ e, e ∈ edges ∧ statuses !! e.(depends_on_task_id) ≠ Some "done") ∧
  ((integration_exemption edges statuses).(released) = true →
    (dependency_barrier edges reports hashes).(released) = false).
Proof.
  intros Hne Hst. split; [by apply integration_exemption_released|].
  intros (_ & e & He & Hnd)%integration_exemption_released; [|done].
  apply not_true_iff_false. intros Hrel.
  destruct (proj1 (dependency_released _ _ _) Hrel e He) as [Hs _]. apply Hnd. by rewrite <-Hst.
Qed.

(** ** Completion and merge *)

Definition worker_ok reports (w : WorkerTask) : Prop :=
  ∃ h, w.(wt_current_hash) = Some h ∧ evidence_for (reports !! w.(wt_task_id)) (Some h).

Definition worker_verdict reports (w : WorkerTask) : option (string * string) :=
  match w.(wt_current_hash) with
  | None | Some "" => Some ("missing_current_hash",
      "required worker " +:+ repr w.(wt_task_id) +:+ " has no non-empty current_hash")
  | Some h =>
      match report_block_reason (reports !! w.(wt_task_id)) (Some h) with
      | Some block => Some (block,
          "required worker " +:+ repr w.(wt_task_id) +:+ " report does not satisfy hash " +:+ repr h
           +:+ " (" +:+ block +:+ ")")
      | None => None
      end
  end.
Definition worker_blocks reports (w : WorkerTask) : bool :=
  match worker_verdict reports w with Some _ => true | None => false end.

Lemma worker_blocks_spec reports w : worker_blocks reports w = false ↔ worker_ok reports w.
Proof.
  unfold worker_blocks, worker_verdict, worker_ok. destruct (wt_current_hash w) as [h|]; [|naive_solver].
  destruct h as [|a h].
  { split; [done|]. intros (h & [= <-] & r & _ & Hh & _). done. }
  pose proof (report_block_reason_None (reports !! wt_task_id w) (Some (String a h))) as Hr.
  destruct (report_block_reason _ _); [|naive_solver].
  split; [done|]. intros (h' & [= <-] & He). by apply Hr in He.
Qed.

Lemma worker_tally workers reports :
  let t := foldl (tally_worker reports) empty_tally workers in
  t.(blocking) = map wt_task_id (List.filter (worker_blocks reports) workers) ∧
  t.(satisfied) = map wt_task_id (List.filter (λ w, negb (worker_blocks reports w)) workers).
Proof.
  destruct (tally_fold (worker_verdict reports) wt_task_id (tally_worker reports) workers empty_tally)
    as (Hb & Hs & _).
  { intros t x. unfold tally_worker, worker_verdict. destruct (wt_current_hash x) as [[|a h]|]; [done| |done].
    by destruct (report_block_reason _ _). }
  done.
Qed.

Lemma filter_in {A} (p : A → bool) l x : x ∈ List.filter p l ↔ x ∈ l ∧ p x = true.
Proof. apply elem_of_select. Qed.

(** local completion needs evidence for each required worker and at least one
    required worker; it names exactly the required workers that lack evidence. *)
Theorem local_completion_exact workers reports :
  let b := local_completion_barrier workers reports in
  (b.(released) = true ↔
    (∃ w, w ∈ workers ∧ w.(required) = true) ∧
    ∀ w, w ∈ workers → w.(required) = true → worker_ok reports w) ∧
  b.(blocking_ids) =
    map wt_task_id (List.filter (worker_blocks reports) (List.filter required workers)).
Proof.
  cbn zeta. unfold local_completion_barrier.
  assert (∀ w, w ∈ List.filter required workers ↔ w ∈ workers ∧ required w = true) as Hin
    by (intros; apply filter_in).
  destruct (List.filter required workers) as [|w0 ws0] eqn:Er.
  { split; [|done]. split; [done|]. intros [(w & Hw) _]. apply Hin in Hw. by apply not_elem_of_nil in Hw. }
  set (ws := w0 :: ws0) in *. assert (w0 ∈ ws) as Hw0 by apply list_elem_of_here. clearbody ws.
  destruct (worker_tally ws reports) as [-> ->].
  assert (map wt_task_id (List.filter (worker_blocks reports) ws) = [] ↔
    ∀ w, w ∈ workers → required w = true → worker_ok reports w) as Hiff.
  { rewrite map_nil_iff, filter_nil_iff. setoid_rewrite worker_blocks_spec.
    setoid_rewrite Hin. naive_solver. }
  case_bool_decide as Hn; simpl; (split; [|done]).
  - split; [|done]. intros _. split; [|by apply Hiff]. exists w0. by apply Hin.
  - split; [done|]. intros [_ Hall]. exfalso. by apply Hn, Hiff.
Qed.

(** every other barrier is fail-closed.  The contract, workstream, global
    merge, acceptance and learning barriers release exactly on the positive
    evidence listed here, so a missing or inconclusive input never releases. *)
Theorem barriers_fail_closed state ready report hash workstreams audit project :
  ((contract_barrier state ready).(released) = true ↔
     casefold (strip (default "" state)) = "approved" ∧ ready = Some true) ∧
  ((workstream_barrier report hash).(released) = true ↔ evidence_for report hash) ∧
  ((global_merge_barrier workstreams).(released) = true ↔
     (∃ w, w ∈ workstreams ∧ w.(mandatory) = true) ∧
     ∀ w, w ∈ workstreams → w.(mandatory) = true → w.(ws_ready) = true) ∧
  ((acceptance_barrier report audit hash).(released) = true ↔
     evidence_for report hash ∧ audit = Some "pass") ∧
  ((learning_barrier project).(released) = true ↔
     ∃ p d, project = Some p ∧ p.(disposition) = Some d ∧
       casefold (strip d) ∈ TERMINAL_DISPOSITIONS).
Proof.
  split_and!.
  - unfold contract_barrier. assert (or_else state "" = default "" state) as ->
      by (destruct state as [s|]; [simpl; by case_bool_decide|done]).
    case_bool_decide; destruct ready as [[]|]; simpl; naive_solver.
  - rewrite <-report_block_reason_None. unfold workstream_barrier. by destruct (report_block_reason _ _).
  - unfold global_merge_barrier.
    assert (∀ w, w ∈ List.filter mandatory workstreams ↔ w ∈ workstreams ∧ mandatory w = true) as Hin
      by (intros; apply filter_in).
    destruct (List.filter mandatory workstreams) as [|w0 ws0].
    { split; [done|]. intros [(w & Hw) _]. apply Hin in Hw. by apply not_elem_of_nil in Hw. }
    set (ws := w0 :: ws0) in *. assert (w0 ∈ ws) as Hw0 by apply list_elem_of_here. clearbody ws.
    assert (map workstream_id (List.filter (λ w, negb w.(ws_ready)) ws) = [] ↔
      ∀ w, w ∈ workstreams → mandatory w = true → ws_ready w = true) as Hiff.
    { rewrite map_nil_iff, filter_nil_iff. setoid_rewrite negb_false_iff. setoid_rewrite Hin. naive_solver. }
    destruct (map workstream_id _) as [|i is_]; simpl.
    + split; [|done]. intros _. split; [|by apply Hiff]. exists w0. by apply Hin.
    + split; [done|]. intros [_ Hall%Hiff]. done.
  - rewrite <-report_block_reason_None. unfold acceptance_barrier.
    destruct (report_block_reason _ _); [naive_solver|]. destruct audit as [v|]; [|naive_solver].
    repeat case_bool_decide; simpl; naive_solver.
  - unfold learning_barrier. destruct project as [[[d|] i]|]; simpl; [|naive_solver..].
    case_bool_decide; simpl; naive_solver.
Qed.
End spec.

(** no stale judgment opens a barrier.  With the reports of this program, a
    released dependency barrier means that each VERIFIED predecessor is done and
    has a PASS report whose artifact hash is that predecessor's current hash. *)
Theorem released_reports_are_current (edges : list DependencyEdge)
    (reports : gmap string VerificationReport) (hashes : gmap string string) e :
  (dependency_barrier edges reports hashes).(released) = true →
  e ∈ edges → e.(condition) = CONDITION_VERIFIED →
  e.(predecessor_status) = Some "done" ∧
  ∃ r, reports !! e.(depends_on_task_id) = Some r ∧ r.(r_verdict) = Pass ∧
    hashes !! e.(depends_on_task_id) = Some r.(r_artifact_hash).
Proof.
  intros Hrel He Hc. destruct (proj1 (dependency_released _ _ _) Hrel e He) as [Hs [Hd|(_ & h & Hh & r & Hr & _ & Hsat)]].
  { rewrite Hd in Hc. done. }
  split; [done|]. exists r. apply satisfies_spec in Hsat as (Hp & -> & _). done.
Qed.

(** ** Witnesses *)

Definition demo_report (hash : string) : VerificationReport := mkReport hash Pass [] "v" "" "" [] None.
Definition demo_edge (on : string) (status : option string) : DependencyEdge :=
  mkEdge "t" on CONDITION_VERIFIED status.

Lemma exemption_disjoint_from_dependency_witness :
  let edges := [demo_edge "a" (Some "done"); demo_edge "b" (Some "blocked")] in
  let statuses := <["a" := "done"]> {["b" := "blocked"]} : gmap string string in
  ((integration_exemption edges statuses).(released) = true ↔
    (∀ e, e ∈ edges → ∃ st, statuses !! e.(depends_on_task_id) = Some st ∧ st ∈ TERMINAL_TASK_STATUSES) ∧
    ∃ e, e ∈ edges ∧ statuses !! e.(depends_on_task_id) ≠ Some "done") ∧
  ((integration_exemption edges statuses).(released) = true →
    (dependency_barrier edges ({["a" := demo_report "h"]} : gmap string VerificationReport)
       {["a" := "h"]}).(released) = false).
Proof.
  cbv zeta. apply (exemption_disjoint_from_dependency (R:=VerificationReport)); [done|].
  intros e He. repeat (apply elem_of_cons in He as [->|He]; [by vm_compute|]).
  by apply not_elem_of_nil in He.
Defined.

Lemma released_reports_are_current_witness :
  let e := demo_edge "a" (Some "done") in
  e.(predecessor_status) = Some "done" ∧
  ∃ r, ({["a" := demo_report "h"]} : gmap string VerificationReport) !! "a" = Some r ∧
    r.(r_verdict) = Pass ∧ ({["a" := "h"]} : gmap string string) !! "a" = Some r.(r_artifact_hash).
Proof.
  apply (released_reports_are_current [demo_edge "a" (Some "done")] {["a" := demo_report "h"]} {["a" := "h"]});
    [by vm_compute|apply list_elem_of_here|done].
Defined.
