(* ===== verification/ToolScheduler.v ===== *)
(** * ToolScheduler: [omniagentos/toolplane/scheduler.py]

    The deterministic planner that cuts a list of tool calls into waves.  The
    catalog is a finite map; the process-wide catalog, the configured budget and
    SHA-256 are parameters. *)

From Stdlib Require Import Ascii.
From stdpp Require Import pretty.
From S2P Require Import Prelude PyString.
Open Scope nat_scope.

Inductive WaveKind := Concurrent | Serial.
#[export] Instance WaveKind_eq_dec : EqDecision WaveKind.
Proof. solve_decision. Defined.

Record ToolCall := mkCall {
  index : Z;
  tool : string;
  call_keys : list string;
  args_digest : string;
}.
#[export] Instance ToolCall_eq_dec : EqDecision ToolCall.
Proof. solve_decision. Defined.

(** [CatalogEntry] of [toolplane/catalog.py]; its enumerations by their values. *)
Record CatalogEntry := mkEntry {
  entry_id : string;
  namespace : string;
  label : string;
  compact_hint : string;
  description : string;
  source : string;
  action_class : string;
  read_only : bool;
  side_effect_class : string;
  entry_keys : list string;
  idempotent : bool;
  parallel_safe : bool;
  cancellation_group : string;
  credential_scope : string;
  result_size_class : string;
  risk : string;
  requires_scope : bool;
  input_examples : list string;
  parameter_names : list string;
  callable_now : bool;
  classified : bool;
}.
Definition catalog : Type := gmap string CatalogEntry.

Record Wave := mkWave {
  wave_kind : WaveKind;
  calls : list ToolCall;
  resource_keys : list string;
  wave_reason : string;
}.

Record ExecutionPlan := mkPlan {
  waves : list Wave;
  order : list Z;
  idempotency_keys : gmap Z string;
  cancellation_groups : gmap string (list Z);
}.

Definition concurrent_waves (p : ExecutionPlan) : nat :=
  length (List.filter (λ w, bool_decide (w.(wave_kind) = Concurrent)) p.(waves)).
Definition max_wave_width (p : ExecutionPlan) : nat :=
  foldr Nat.max 0 (map (λ w, length w.(calls)) p.(waves)).
Definition calls_in_cancellation_group (p : ExecutionPlan) (group : string) : list Z :=
  default [] (p.(cancellation_groups) !! group).

(** [tuple(sorted(set))] *)
Definition sorted_set (l : list string) : list string := sort_by (λ s, s) (remove_dups l).

Definition is_classified (cat : catalog) (c : ToolCall) : bool :=
  match cat !! c.(tool) with Some e => e.(classified) | None => false end.
Definition is_read_only (cat : catalog) (c : ToolCall) : bool :=
  match cat !! c.(tool) with Some e => e.(read_only) | None => false end.

Section scheduler.
Context (default_catalog : catalog) (configured_budget : Z).
(** [hashlib.sha256(payload.encode()).hexdigest()] *)
Context (sha256_hex : string → string).

Definition resolve_catalog (c : option catalog) : catalog := default default_catalog c.

Definition resource_keys_for (call : ToolCall) (cat : option catalog) : list string :=
  match resolve_catalog cat !! call.(tool) with
  | None => ["unknown:" +:+ call.(tool)]
  | Some entry =>
      if entry.(classified) then sorted_set (call.(call_keys) ++ entry.(entry_keys))
      else ["unknown:" +:+ call.(tool)]
  end.

Definition idempotency_key (call : ToolCall) (run_key : string) : string :=
  String.substring 0 32 (sha256_hex
    (run_key +:+ "|" +:+ call.(tool) +:+ "|" +:+ pretty call.(index) +:+ "|" +:+ call.(args_digest))).

Section planning.
Context (cat : catalog).

Definition keys_of (c : ToolCall) : list string := resource_keys_for c (Some cat).
Definition group_keys (g : list ToolCall) : list string := concat (map keys_of g).

Definition has_declared_ownership (keys : list string) : bool :=
  negb (bool_decide (keys = [])) && negb (existsb (startswith "unknown:") keys).

(** [check_write_safe(call, catalog[call.tool])] *)
Definition check_write_safe (c : ToolCall) : bool :=
  match cat !! c.(tool) with
  | Some e => e.(parallel_safe) && has_declared_ownership (keys_of c)
  | None => false
  end.

(** [emit_current_group]: the wave of an open group, if it holds a call. *)
Definition emit_current_group (group : list ToolCall) (split_reason : option string) : list Wave :=
  match group with
  | [] => []
  | first :: _ =>
      let kind := if 2 <=? length group then Concurrent else Serial in
      let reason := match kind with
        | Concurrent =>
            if forallb (is_read_only cat) group then "read-only-disjoint" else "proven-disjoint-writes"
        | Serial =>
            if negb (is_classified cat first) then "serial-unclassified"
            else default "serial-single" split_reason
        end in
      [mkWave kind group (sorted_set (group_keys group)) reason]
  end.

Definition disjoint_keys (a b : list string) : bool :=
  forallb (λ k, negb (bool_decide (k ∈ b))) a.

(** May [c] join the open, non-empty [group]?  [None] admits it, [Some reason]
    closes the group. *)
Definition refusal (budget : nat) (group : list ToolCall) (c : ToolCall) : option string :=
  if budget <=? length group then Some "serial-budget"
  else if negb (is_classified cat c) then Some "serial-unclassified"
  else if existsb (λ g, negb (is_classified cat g)) group then Some "serial-unclassified"
  else if negb (disjoint_keys (keys_of c) (group_keys group)) then Some "serial-conflict"
  else
    let all_read_only := is_read_only cat c && forallb (is_read_only cat) group in
    let all_write_safe := check_write_safe c && forallb check_write_safe group in
    if all_read_only || all_write_safe then None else Some "serial-conflict".

(** The planning loop over the remaining calls. *)
Fixpoint plan_loop (budget : nat) (group : list ToolCall) (split_reason : option string)
    (rest : list ToolCall) : list Wave :=
  match rest with
  | [] => emit_current_group group split_reason
  | c :: rest =>
      match group with
      | [] => plan_loop budget [c] split_reason rest
      | _ =>
          match refusal budget group c with
          | None => plan_loop budget (group ++ [c]) split_reason rest
          | Some reason => emit_current_group group split_reason ++ plan_loop budget [c] (Some reason) rest
          end
      end
  end.

Definition note_key (m : gmap Z string) (c : ToolCall) : gmap Z string :=
  match cat !! c.(tool) with
  | Some e => if e.(idempotent) || e.(read_only) then <[c.(index) := idempotency_key c ""]> m else m
  | None => m
  end.
Definition plan_idempotency (cs : list ToolCall) : gmap Z string := foldl note_key ∅ cs.

Definition group_name (c : ToolCall) : string :=
  match cat !! c.(tool) with
  | Some e => if bool_decide (e.(cancellation_group) = "") then "unknown" else e.(cancellation_group)
  | None => "unknown"
  end.

(** [setdefault(group_name, []).append(index)] *)
Definition note_group (m : gmap string (list Z)) (c : ToolCall) : gmap string (list Z) :=
  <[group_name c := default [] (m !! group_name c) ++ [c.(index)]]> m.
Definition collect_groups (cs : list ToolCall) : gmap string (list Z) := foldl note_group ∅ cs.
End planning.

Definition effective_budget (budget : option Z) : nat :=
  Z.to_nat (Z.max 1 (default configured_budget budget)).

Definition plan_execution (cs : list ToolCall) (cat : option catalog) (budget : option Z) :
    ExecutionPlan :=
  let cat := resolve_catalog cat in
  match cs with
  | [] => mkPlan [] [] ∅ ∅
  | _ =>
      mkPlan (plan_loop cat (effective_budget budget) [] None cs) (map index cs)
        (plan_idempotency cat cs) (sort_by (λ i, i) <$> collect_groups cat cs)
  end.
End scheduler.

Definition wave_lock_claims (w : Wave) (prefix : string) : list string :=
  sort_by (λ s, s)
    (omap (λ k, if startswith prefix k then Some (drop_str (String.length prefix) k) else None)
          w.(resource_keys)).

(** The hook acts on a state [S]; an exception keeps the state it left and is
    swallowed. *)
Definition propagate_cancellation {S E} (plan : ExecutionPlan) (group : string)
    (hook : string → list Z → op S E unit) (s : S) : list Z * S :=
  let indices := calls_in_cancellation_group plan group in
  (indices, (hook group indices s).2).
