(* ===== verification/ToolSchedulerSpec.v ===== *)
(** * ToolSchedulerSpec: what an execution plan guarantees

    The plan partitions the calls in order, greedily; only proven-disjoint,
    classified calls ever share a wave; the claims of a wave are complete. *)

From Stdlib Require Import Ascii.
From stdpp Require Import pretty.
From S2P Require Import Prelude PyString ToolScheduler.
Open Scope nat_scope.

Lemma elem_of_sorted_set k l : k ∈ sorted_set l ↔ k ∈ l.
Proof. unfold sorted_set. by rewrite elem_of_sort_by, elem_of_remove_dups. Qed.

Section plan.
Context (default_catalog : catalog) (configured_budget : Z) (sha256_hex : string → string).
Context (cat : catalog) (budget : nat).

Abbreviation keys := (keys_of default_catalog cat).
Abbreviation write_safe := (check_write_safe default_catalog cat).
Abbreviation admits := (refusal default_catalog cat budget).
Abbreviation loop := (plan_loop default_catalog cat budget).
Abbreviation emit := (emit_current_group default_catalog cat).

(** Calls that may run side by side. *)
Definition pairwise_disjoint (g : list ToolCall) : Prop :=
  ∀ i j a b, i < j → g !! i = Some a → g !! j = Some b →
    ∀ k, k ∈ keys a → ¬ (k ∈ keys b).

Record group_ok (g : list ToolCall) : Prop := {
  group_width : length g ≤ Nat.max 1 budget;
  group_disjoint : pairwise_disjoint g;
  group_classified : 2 ≤ length g → ∀ c, c ∈ g → is_classified cat c = true;
  group_pure : 2 ≤ length g →
    (∀ c, c ∈ g → is_read_only cat c = true) ∨ (∀ c, c ∈ g → write_safe c = true);
}.

Lemma group_ok_single c : group_ok [c].
Proof.
  split; simpl; [lia| |lia|lia]. intros [|i] [|j] a b; simpl; try lia; done.
Qed.

Lemma forallb_spec {A} (p : A → bool) l : forallb p l = true ↔ ∀ x, x ∈ l → p x = true.
Proof. rewrite forallb_forall. by setoid_rewrite list_elem_of_In. Qed.

Lemma disjoint_keys_spec a b : disjoint_keys a b = true ↔ ∀ k, k ∈ a → ¬ (k ∈ b).
Proof.
  unfold disjoint_keys. rewrite forallb_spec.
  split; intros H k Hk; specialize (H k Hk); [apply negb_true_iff, bool_decide_eq_false in H|]; [done|].
  by rewrite bool_decide_false.
Qed.

Lemma elem_of_group_keys k g : k ∈ group_keys default_catalog cat g ↔ ∃ c, c ∈ g ∧ k ∈ keys c.
Proof.
  unfold group_keys. rewrite list_elem_of_In, in_concat. split.
  - intros (l & (c & <- & Hc)%in_map_iff & Hk). exists c. by rewrite !list_elem_of_In.
  - intros (c & Hc & Hk). exists (keys c). split; [|by apply list_elem_of_In].
    apply in_map_iff. exists c. split; [done|by apply list_elem_of_In].
Qed.

Lemma admit_None g c :
  admits g c = None →
  length g < budget ∧ is_classified cat c = true ∧ (∀ x, x ∈ g → is_classified cat x = true) ∧
  (∀ x, x ∈ g → ∀ k, k ∈ keys x → ¬ (k ∈ keys c)) ∧
  ((is_read_only cat c = true ∧ ∀ x, x ∈ g → is_read_only cat x = true) ∨
   (write_safe c = true ∧ ∀ x, x ∈ g → write_safe x = true)).
Proof.
  unfold refusal. destruct (Nat.leb_spec budget (length g)); [done|].
  destruct (is_classified cat c); [|done]. cbn [negb].
  destruct (existsb _ g) eqn:Ee; [done|].
  destruct (disjoint_keys _ _) eqn:Ed; [|done]. cbn [negb].
  destruct (_ || _) eqn:Eo; [|done]. intros _. split_and!; [done|done| | |].
  - intros x Hx. apply not_false_iff_true. intros Hf. apply not_true_iff_false in Ee. apply Ee.
    apply existsb_exists. exists x. by rewrite <-list_elem_of_In, Hf.
  - intros x Hx k Hk Hkc. apply (proj1 (disjoint_keys_spec _ _) Ed k Hkc).
    apply elem_of_group_keys. eauto.
  - by rewrite orb_true_iff, !andb_true_iff, !forallb_spec in Eo.
Qed.

Lemma group_ok_admit g c : g ≠ [] → group_ok g → admits g c = None → group_ok (g ++ [c]).
Proof.
  intros Hne Hg (Hlen & Hc & Hcl & Hd & Hp)%admit_None.
  assert (∀ P : ToolCall → Prop, (∀ x, x ∈ g → P x) → P c → ∀ x, x ∈ g ++ [c] → P x) as Hext.
  { intros P Hall Hpc x [Hx| ->%list_elem_of_singleton]%elem_of_app; auto. }
  split.
  - rewrite length_app. simpl. lia.
  - intros i j a b Hij Hi Hj k Hka Hkb.
    apply lookup_app_Some in Hi as [Hi|[Hge Hi]], Hj as [Hj|[Hge' Hj]].
    + by eapply (group_disjoint _ Hg).
    + apply list_lookup_singleton_Some in Hj as [_ <-]. apply list_elem_of_lookup_2 in Hi. by eapply Hd.
    + apply lookup_lt_Some in Hj. lia.
    + apply list_lookup_singleton_Some in Hi as [? _], Hj as [? _]. lia.
  - intros _. by apply Hext.
  - intros _. destruct Hp as [[??]|[??]]; [left|right]; by apply Hext.
Qed.

Lemma emit_ok g r w : w ∈ emit g r → w.(calls) = g ∧ g ≠ [] ∧
  (w.(wave_kind) = Concurrent ↔ 2 ≤ length g) ∧
  w.(resource_keys) = sorted_set (group_keys default_catalog cat g).
Proof.
  destruct g as [|c g]; simpl; [by intros ?%not_elem_of_nil|].
  intros ->%list_elem_of_singleton. simpl. split_and!; try done.
  destruct g; simpl; split; try done; lia.
Qed.

(** Every wave comes from a group that was built by admissions. *)
Lemma plan_loop_ok g r rest w :
  group_ok g ∨ g = [] → w ∈ loop g r rest →
  w.(calls) ≠ [] ∧ group_ok w.(calls) ∧ (w.(wave_kind) = Concurrent ↔ 2 ≤ length w.(calls)) ∧
  w.(resource_keys) = sorted_set (group_keys default_catalog cat w.(calls)).
Proof.
  revert g r. induction rest as [|c rest IH]; intros g r Hg Hw; cbn [plan_loop] in Hw.
  - apply emit_ok in Hw as (-> & Hne & ? & ?). destruct Hg; [by split_and!|done].
  - destruct g as [|g0 g]; [eapply IH; [left; apply group_ok_single|done]|].
    destruct Hg as [Hg|]; [|done]. destruct (admits (g0 :: g) c) as [reason|] eqn:Ea.
    + apply elem_of_app in Hw as [Hw|Hw]; [|eapply IH; [left; apply group_ok_single|done]].
      apply emit_ok in Hw as (-> & Hne & ? & ?). by split_and!.
    + eapply IH; [|exact Hw]. left. by apply group_ok_admit.
Qed.

Lemma emit_calls g r : concat (map calls (emit g r)) = g.
Proof. destruct g; simpl; [done|]. by rewrite app_nil_r. Qed.

Lemma plan_loop_calls g r rest : concat (map calls (loop g r rest)) = g ++ rest.
Proof.
  revert g r. induction rest as [|c rest IH]; intros g r; cbn [plan_loop].
  - by rewrite emit_calls, app_nil_r.
  - destruct g as [|g0 g]; [apply IH|]. destruct (admits (g0 :: g) c).
    + by rewrite map_app, concat_app, emit_calls, IH.
    + by rewrite IH, <-app_assoc.
Qed.

(** The open group is a prefix of the first wave. *)
Lemma plan_loop_head g r rest :
  g ≠ [] → ∃ w ws k, loop g r rest = w :: ws ∧ w.(calls) = g ++ k.
Proof.
  revert g r. induction rest as [|c rest IH]; intros g r Hne; cbn [plan_loop]; (destruct g as [|g0 g]; [done|]).
  - eexists _, _, []. by rewrite app_nil_r.
  - destruct (admits (g0 :: g) c).
    + eexists _, _, []. rewrite app_nil_r. by split; [cbn [emit_current_group app]|].
    + destruct (IH ((g0 :: g) ++ [c]) r) as (w & ws & k & -> & Hk); [done|].
      exists w, ws, (c :: k). by rewrite Hk, <-app_assoc.
Qed.

(** Between two waves the next call was refused by the group it would have joined. *)
Lemma plan_loop_greedy g r rest i w w' :
  g ≠ [] → loop g r rest !! i = Some w → loop g r rest !! S i = Some w' →
  ∃ c k reason, w'.(calls) = c :: k ∧ admits w.(calls) c = Some reason.
Proof.
  revert g r i. induction rest as [|c rest IH]; intros g r i Hne; cbn [plan_loop];
    (destruct g as [|g0 g]; [done|]).
  - simpl. intros _ H. by destruct i.
  - destruct (admits (g0 :: g) c) as [reason|] eqn:Ea; [|by apply IH].
    cbn [emit_current_group app]. destruct i as [|i]; cbn [lookup list_lookup]; [|by apply IH].
    intros Hw Hw'. injection Hw as <-.
    destruct (plan_loop_head [c] (Some reason) rest) as (w1 & ws & k & Hl & Hk); [done|].
    rewrite Hl in Hw'. injection Hw' as <-. by exists c, k, reason.
Qed.
(** What the catalog says of a classified call, and the keys the call and its entry declare. *)
Definition declared (c : ToolCall) (e : CatalogEntry) : list string := c.(call_keys) ++ e.(entry_keys).
Definition classified_as (c : ToolCall) (e : CatalogEntry) : Prop := cat !! c.(tool) = Some e ∧ e.(classified) = true.
(** A write that may run beside others: proven parallel-safe, and what it touches is known. *)
Definition safe_write (c : ToolCall) (e : CatalogEntry) : Prop :=
  e.(parallel_safe) = true ∧ declared c e ≠ [] ∧ ∀ k, k ∈ declared c e → startswith "unknown:" k = false.

Lemma keys_declared c e k : classified_as c e → k ∈ keys c ↔ k ∈ declared c e.
Proof. intros [Hc He]. unfold keys_of, resource_keys_for. cbn. rewrite Hc, He. apply elem_of_sorted_set. Qed.
Lemma write_safe_declared c e : classified_as c e → check_write_safe default_catalog cat c = true → safe_write c e.
Proof.
  intros Hce. pose proof Hce as [Hc _]. unfold check_write_safe, has_declared_ownership. rewrite Hc.
  intros [Hp [Hne%negb_true_iff%bool_decide_eq_false Hu%negb_true_iff]%andb_true_iff]%andb_true_iff. split_and!; [done| |].
  - intros E. apply Hne. destruct (keys c) as [|k l] eqn:Ek; [done|]. assert (k ∈ declared c e) as Hk by (apply (keys_declared c e); [done|rewrite Ek; by left]).
    rewrite E in Hk. by apply not_elem_of_nil in Hk.
  - intros k Hk. apply not_true_iff_false. intros Hs. apply not_true_iff_false in Hu. apply Hu, existsb_exists. exists k.
    split; [|done]. apply list_elem_of_In. by apply (keys_declared c e).
Qed.

End plan.

Section contract.
Context (default_catalog : catalog) (configured_budget : Z) (sha256_hex : string → string).
Context (catalog_arg : option catalog) (budget : option Z) (cs : list ToolCall).

Abbreviation cat := (resolve_catalog default_catalog catalog_arg).
Abbreviation width := (effective_budget configured_budget budget).
Abbreviation plan := (plan_execution default_catalog configured_budget sha256_hex cs catalog_arg budget).
Abbreviation keys := (keys_of default_catalog cat).

Lemma plan_waves :
  plan.(waves) = match cs with [] => [] | c :: rest => plan_loop default_catalog cat width [c] None rest end.
Proof. by destruct cs. Qed.

Lemma width_pos : 1 ≤ width.
Proof. unfold effective_budget. lia. Qed.


(** the waves are the request, cut in order: concatenated they are exactly the
    calls, none is empty, [order] is the request order, and every cut was forced -
    the call after a wave is one its group refuses. *)
Theorem plan_partitions_in_order :
  concat (map calls plan.(waves)) = cs ∧ plan.(order) = map index cs ∧
  (∀ w, w ∈ plan.(waves) → w.(calls) ≠ []) ∧
  ∀ i w w', plan.(waves) !! i = Some w → plan.(waves) !! S i = Some w' →
    ∃ c k reason, w'.(calls) = c :: k ∧ refusal default_catalog cat width w.(calls) c = Some reason.
Proof.
  rewrite plan_waves. destruct cs as [|c rest] eqn:Ecs.
  { split_and!; try done. by intros w ?%not_elem_of_nil. }
  split_and!; [by rewrite plan_loop_calls|done| |].
  - intros w Hw. eapply plan_loop_ok in Hw as (Hne & _); [done|left; apply group_ok_single].
  - intros i w w'. by apply plan_loop_greedy.
Qed.

(** C38: only proven-safe calls share a wave.  A wave is at most as wide as the
    budget; when it holds two calls or more it is concurrent, every call in it has
    an entry of the catalog that is classified, no key declared by one of them or
    by its entry is declared by another or by its entry, and either the entries are
    all read-only, or they are all parallel-safe and every call declares at least
    one key and none that is unknown. *)
Theorem concurrent_wave_safe w :
  w ∈ plan.(waves) →
  length w.(calls) ≤ width ∧
  (w.(wave_kind) = Concurrent ↔ 2 ≤ length w.(calls)) ∧
  (w.(wave_kind) = Concurrent →
    (∀ c, c ∈ w.(calls) → ∃ e, classified_as cat c e) ∧
    (∀ i j a b ea eb, i < j → w.(calls) !! i = Some a → w.(calls) !! j = Some b →
       cat !! a.(tool) = Some ea → cat !! b.(tool) = Some eb →
       ∀ k, k ∈ declared a ea → ¬ (k ∈ declared b eb)) ∧
    ((∀ c e, c ∈ w.(calls) → cat !! c.(tool) = Some e → e.(read_only) = true) ∨
     (∀ c e, c ∈ w.(calls) → cat !! c.(tool) = Some e → safe_write c e))).
Proof.
  rewrite plan_waves. destruct cs as [|c rest] eqn:Ecs; [by intros ?%not_elem_of_nil|].
  intros Hw. eapply plan_loop_ok in Hw as (_ & [Hl Hd Hc Hp] & Hk & _); [|left; apply group_ok_single].
  pose proof width_pos. split_and!; [lia|done|]. intros H2%Hk. specialize (Hc H2). specialize (Hp H2).
  assert (Hclass : ∀ c e, c ∈ w.(calls) → cat !! c.(tool) = Some e → classified_as cat c e).
  { intros c0 e Hin He. split; [done|]. specialize (Hc c0 Hin). unfold is_classified in Hc. by rewrite He in Hc. }
  split_and!.
  - intros c0 Hin. specialize (Hc c0 Hin) as Hc0. unfold is_classified in Hc0. destruct (cat !! tool c0) as [e|] eqn:He; [|done]. exists e. by apply Hclass.
  - intros i j a b ea eb Hij Ha Hb Hea Heb k. rewrite <-(keys_declared default_catalog cat a ea), <-(keys_declared default_catalog cat b eb) by (apply Hclass; [by eapply list_elem_of_lookup_2|done]).
    by apply (Hd i j a b).
  - destruct Hp as [Hp|Hp]; [left|right]; intros c0 e Hin He; specialize (Hp c0 Hin).
    + unfold is_read_only in Hp. by rewrite He in Hp.
    + apply (write_safe_declared default_catalog cat); [by apply Hclass|done].
Qed.

(** the claim set of a wave is complete and minimal: its resource keys are the
    sorted union of the keys of its calls, and the lock claims are exactly the
    keys with the path prefix, the prefix removed. *)
Theorem wave_claims_exact w prefix :
  w ∈ plan.(waves) →
  (∀ k, k ∈ w.(resource_keys) ↔ ∃ c, c ∈ w.(calls) ∧ k ∈ keys c) ∧
  sorted_by (λ s, s) w.(resource_keys) ∧
  (∀ p, p ∈ wave_lock_claims w prefix ↔
    ∃ c k, c ∈ w.(calls) ∧ k ∈ keys c ∧ startswith prefix k = true ∧
      p = drop_str (String.length prefix) k).
Proof.
  rewrite plan_waves. destruct cs as [|c rest] eqn:Ecs; [by intros ?%not_elem_of_nil|].
  intros Hw. eapply plan_loop_ok in Hw as (_ & _ & _ & Hk); [|left; apply group_ok_single].
  assert (∀ k, k ∈ w.(resource_keys) ↔ ∃ c, c ∈ w.(calls) ∧ k ∈ keys c) as Hiff.
  { intros k. by rewrite Hk, elem_of_sorted_set, elem_of_group_keys. }
  split_and!; [done|rewrite Hk; apply sort_by_sorted|].
  intros p. unfold wave_lock_claims. rewrite elem_of_sort_by, list_elem_of_omap. split.
  - intros (k & (c' & Hc & Hkc)%Hiff & Hp). destruct (startswith prefix k) eqn:Es; [|done].
    injection Hp as <-. eauto 8.
  - intros (c' & k & Hc & Hkc & Hs & ->). exists k. split; [by apply Hiff; eauto|]. by rewrite Hs.
Qed.

Lemma note_key_lookup l m i :
  is_Some (foldl (note_key sha256_hex cat) m l !! i) ↔
  is_Some (m !! i) ∨ ∃ c e, c ∈ l ∧ c.(index) = i ∧ cat !! c.(tool) = Some e ∧
    (e.(idempotent) || e.(read_only)) = true.
Proof.
  revert m. induction l as [|c l IH]; intros m; cbn [foldl].
  { split; [by left|]. intros [?|(c & e & ?%not_elem_of_nil & _)]; done. }
  rewrite IH. unfold note_key. destruct (cat !! c.(tool)) as [e|] eqn:Ee; [destruct (idempotent e || read_only e) eqn:Er|].
  - destruct (decide (c.(index) = i)) as [<-|Hne].
    + rewrite lookup_insert_eq. split; [|by left; eexists]. intros _. right. exists c, e.
      split_and!; [apply list_elem_of_here|done..].
    + rewrite lookup_insert_ne by done. split; (intros [?|(c' & e' & Hc & Hrest)]; [by left|right]).
      * exists c', e'. split; [by apply list_elem_of_further|done].
      * exists c', e'. apply elem_of_cons in Hc as [->|Hc]; [by destruct Hrest|done].
  - split; (intros [?|(c' & e' & Hc & Hi & He & Hr)]; [by left|right]).
    + exists c', e'. split; [by apply list_elem_of_further|done].
    + apply elem_of_cons in Hc as [->|Hc]; [congruence|eauto 6].
  - split; (intros [?|(c' & e' & Hc & Hi & He & Hr)]; [by left|right]).
    + exists c', e'. split; [by apply list_elem_of_further|done].
    + apply elem_of_cons in Hc as [->|Hc]; [congruence|eauto 6].
Qed.

(** The indices a fold collects for a group, after those it started with. *)
Lemma collect_lookup l m g :
  default [] (foldl (note_group cat) m l !! g) =
  default [] (m !! g) ++ map index (List.filter (λ c, bool_decide (group_name cat c = g)) l).
Proof.
  revert m. induction l as [|c l IH]; intros m; cbn [foldl]; [by rewrite app_nil_r|].
  rewrite IH. unfold note_group. cbn [List.filter]. case_bool_decide as Hg.
  - subst g. rewrite lookup_insert_eq. simpl. by rewrite <-app_assoc.
  - by rewrite lookup_insert_ne.
Qed.

(** retry and cancellation metadata.  A call index has an idempotency key
    exactly when a call of that index names a catalog entry that is idempotent or
    read-only; and the members of a cancellation group are exactly the indices of
    the calls of that group, in increasing order. *)
Theorem retry_and_cancellation_exact :
  (∀ i, is_Some (plan.(idempotency_keys) !! i) ↔
    ∃ c e, c ∈ cs ∧ c.(index) = i ∧ cat !! c.(tool) = Some e ∧
      (e.(idempotent) || e.(read_only)) = true) ∧
  ∀ g, calls_in_cancellation_group plan g ≡ₚ
         map index (List.filter (λ c, bool_decide (group_name cat c = g)) cs) ∧
       sorted_by (λ i, i) (calls_in_cancellation_group plan g).
Proof.
  split.
  - intros i. destruct cs as [|c l].
    { simpl. rewrite lookup_empty. split; [by intros []|]. by intros (c & e & ?%not_elem_of_nil & _). }
    cbn [plan_execution idempotency_keys]. unfold plan_idempotency.
    rewrite note_key_lookup, lookup_empty. split; [by intros [[]|]|by right].
  - intros g. unfold calls_in_cancellation_group.
    assert (default [] (plan.(cancellation_groups) !! g) =
      sort_by (λ i, i) (map index (List.filter (λ c, bool_decide (group_name cat c = g)) cs))) as ->.
    { destruct cs as [|c l]; [done|]. cbn [plan_execution cancellation_groups].
      rewrite lookup_fmap. pose proof (collect_lookup (c :: l) ∅ g) as Hc.
      fold (collect_groups cat (c :: l)) in Hc. rewrite lookup_empty in Hc.
      change (default [] (None : option (list Z)) ++ ?x) with x in Hc.
      rewrite <-Hc. by destruct (collect_groups cat (c :: l) !! g). }
    split; [apply sort_by_perm|apply sort_by_sorted].
Qed.
End contract.

(** ** A plan with a concurrent wave *)

Definition demo_entry (id : string) (keys : list string) (ro : bool) : CatalogEntry :=
  mkEntry id "toolplane" id "" "" "builtin" "read_only" ro "none" keys ro ro "fs" "" "small" "low"
    false [] [] true true.
Definition demo_catalog : catalog :=
  <["read" := demo_entry "read" [] true]> {["write" := demo_entry "write" ["fs:write"] false]}.
Definition demo_calls : list ToolCall :=
  [mkCall 0 "read" ["path:a"] ""; mkCall 1 "read" ["path:b"] ""; mkCall 2 "write" [] "";
   mkCall 3 "nosuch" [] ""].
Definition demo_wave : Wave :=
  mkWave Concurrent [mkCall 0 "read" ["path:a"] ""; mkCall 1 "read" ["path:b"] ""]
    ["path:a"; "path:b"] "read-only-disjoint".

Lemma demo_wave_planned :
  demo_wave ∈ (plan_execution ∅ 4 (λ s, s) demo_calls (Some demo_catalog) None).(waves).
Proof. vm_compute. apply list_elem_of_here. Qed.

Lemma concurrent_wave_safe_witness :
  length demo_wave.(calls) ≤ 4 ∧
  (demo_wave.(wave_kind) = Concurrent ↔ 2 ≤ length demo_wave.(calls)) ∧
  (demo_wave.(wave_kind) = Concurrent →
    (∀ c, c ∈ demo_wave.(calls) → ∃ e, classified_as demo_catalog c e) ∧
    (∀ i j a b ea eb, i < j → demo_wave.(calls) !! i = Some a → demo_wave.(calls) !! j = Some b →
       demo_catalog !! a.(tool) = Some ea → demo_catalog !! b.(tool) = Some eb →
       ∀ k, k ∈ declared a ea → ¬ (k ∈ declared b eb)) ∧
    ((∀ c e, c ∈ demo_wave.(calls) → demo_catalog !! c.(tool) = Some e → e.(read_only) = true) ∨
     (∀ c e, c ∈ demo_wave.(calls) → demo_catalog !! c.(tool) = Some e → safe_write c e))).
Proof.
  exact (concurrent_wave_safe ∅ 4 (λ s, s) (Some demo_catalog) None demo_calls demo_wave demo_wave_planned).
Defined.

Lemma wave_claims_exact_witness :
  (∀ k, k ∈ demo_wave.(resource_keys) ↔ ∃ c, c ∈ demo_wave.(calls) ∧ k ∈ keys_of ∅ demo_catalog c) ∧
  sorted_by (λ s, s) demo_wave.(resource_keys) ∧
  (∀ p, p ∈ wave_lock_claims demo_wave "path:" ↔
    ∃ c k, c ∈ demo_wave.(calls) ∧ k ∈ keys_of ∅ demo_catalog c ∧ startswith "path:" k = true ∧
      p = drop_str (String.length "path:") k).
Proof.
  exact (wave_claims_exact ∅ 4 (λ s, s) (Some demo_catalog) None demo_calls demo_wave "path:" demo_wave_planned).
Defined.
