(* ===== verification/Sql.v ===== *)
(** * Sql: rows, comparisons, ordering and keys of the SQLite stores

    A row is a finite map from column names to values, a table the list of its
    rows in rowid order.  A comparison with NULL is not true; NULL sorts first. *)

From Stdlib Require Import Ascii QArith.
From S2P Require Import Prelude PyString.
Open Scope nat_scope.

Inductive sql_value := VNull | VInt (n : Z) | VReal (q : Q) | VText (s : string).
#[export] Instance Q_eq_dec : EqDecision Q.
Proof. solve_decision. Defined.
#[export] Instance sql_value_eq_dec : EqDecision sql_value.
Proof. solve_decision. Defined.

Abbreviation row := (gmap string sql_value).
Abbreviation table := (list row).

Definition col (r : row) (c : string) : sql_value := default VNull (r !! c).

(** [a = b] is true. *)
Definition sql_eq (a b : sql_value) : bool :=
  match a, b with
  | VNull, _ | _, VNull => false
  | VInt n, VReal q | VReal q, VInt n => Qeq_bool q (inject_Z n)
  | VReal p, VReal q => Qeq_bool p q
  | _, _ => bool_decide (a = b)
  end.
Definition is_text (r : row) (c s : string) : bool := sql_eq (col r c) (VText s).
Definition is_null (v : sql_value) : bool := match v with VNull => true | _ => false end.

(** The two kinds of ordering key the statements use. *)
Definition text_of (v : sql_value) : option string := match v with VText s => Some s | _ => None end.
Definition int_of (v : sql_value) : option Z := match v with VInt n => Some n | _ => None end.
Definition text (r : row) (c : string) : option string := text_of (col r c).
Definition int (r : row) (c : string) : option Z := int_of (col r c).

(** [str(row[column])] *)
Definition str (r : row) (c : string) : string := default "" (text r c).

#[export] Program Instance option_ord {A : Type} `{!PyOrd A} : PyOrd (option A) := {|
  py_cmp x y := match x, y with
    | None, None => Eq | None, Some _ => Lt | Some _, None => Gt
    | Some a, Some b => py_cmp a b end
|}.
Next Obligation.
  intros A ? [x|] [y|]; try done. rewrite py_cmp_eq. naive_solver.
Qed.
Next Obligation. intros A ? [x|] [y|]; try done. apply py_cmp_antisym. Qed.
Next Obligation. intros A ? [x|] [y|] [z|]; try done. apply py_cmp_trans. Qed.

(** [ORDER BY k DESC] *)
Record desc (A : Type) := Desc { undesc : A }.
Arguments Desc {A} undesc.
Arguments undesc {A} d.
#[export] Program Instance desc_ord {A : Type} `{!PyOrd A} : PyOrd (desc A) := {|
  py_cmp x y := py_cmp y.(undesc) x.(undesc)
|}.
Next Obligation. intros A ? [x] [y]; simpl. rewrite py_cmp_eq. split; congruence. Qed.
Next Obligation. intros A ? [x] [y]; simpl. apply py_cmp_antisym. Qed.
Next Obligation. intros A ? [x] [y] [z]; simpl. intros ??. by eapply py_cmp_trans. Qed.

(** [SELECT * FROM t WHERE p ORDER BY k LIMIT n]; a negative limit is none. *)
Definition limit {A} (n : Z) (l : list A) : list A := if (n <? 0)%Z then l else take (Z.to_nat n) l.
Definition query {K} `{PyOrd K} (t : table) (p : row → bool) (k : row → K) : list row :=
  sort_by k (select p t).

(** [SET c1 = v1, ...] *)
Definition assign (fields r : row) : row := fields ∪ r.

Lemma sql_eq_text v s : sql_eq v (VText s) = true ↔ v = VText s.
Proof.
  unfold sql_eq. destruct v; try (split; [done|congruence]).
  rewrite bool_decide_eq_true. naive_solver.
Qed.
Lemma is_text_spec r c s : is_text r c s = true ↔ col r c = VText s.
Proof. apply sql_eq_text. Qed.
Lemma is_text_false r c s : is_text r c s = false ↔ col r c ≠ VText s.
Proof. rewrite <-is_text_spec. by destruct (is_text r c s). Qed.

Lemma col_insert r c v : col (<[c := v]> r) c = v.
Proof. unfold col. by rewrite lookup_insert_eq. Qed.
Lemma col_insert_ne r c d v : c ≠ d → col (<[c := v]> r) d = col r d.
Proof. intros. unfold col. by rewrite lookup_insert_ne. Qed.
Lemma col_assign fields r c :
  col (assign fields r) c = match fields !! c with Some v => v | None => col r c end.
Proof. unfold col, assign. rewrite lookup_union. destruct (fields !! c), (r !! c); done. Qed.

Lemma elem_of_query {K} `{PyOrd K} t p (k : row → K) r : r ∈ query t p k ↔ r ∈ t ∧ p r = true.
Proof. unfold query. by rewrite elem_of_sort_by, elem_of_select. Qed.

(** Rows are told apart by a text id (the PRIMARY KEY). *)
Definition keyed (c : string) (t : table) : Prop :=
  NoDup (map (λ r, col r c) t) ∧ ∀ r, r ∈ t → ∃ s, col r c = VText s.

Lemma keyed_inj c t x y : keyed c t → x ∈ t → y ∈ t → col x c = col y c → x = y.
Proof. intros [Hnd _]. by apply (NoDup_map_inj (λ r, col r c)). Qed.

Lemma keyed_update c p f t :
  (∀ r, col (f r) c = col r c) → keyed c t → keyed c (update_where p f t).
Proof.
  intros Hf [Hnd Ht]. split; [by rewrite update_where_map|].
  intros r (a & Ha & ->)%elem_of_update_where. case_match; rewrite ?Hf; auto.
Qed.

Lemma keyed_find c t x s :
  keyed c t → x ∈ t → col x c = VText s → select (λ r, is_text r c s) t = [x].
Proof.
  intros [Hnd _] Hx Hs. induction t as [|y t IH]; [by apply not_elem_of_nil in Hx|].
  cbn [map] in Hnd. apply NoDup_cons in Hnd as [Hy Hnd]. unfold select in *. cbn [List.filter].
  apply elem_of_cons in Hx as [->|Hx].
  - rewrite (proj2 (is_text_spec _ _ _) Hs). f_equal. apply select_none. intros z Hz.
    apply is_text_false. intros Hzs. apply Hy. rewrite Hs, <-Hzs. by apply (list_elem_of_fmap_2 (λ r, col r c)).
  - assert (is_text y c s = false) as ->; [|by apply IH].
    apply is_text_false. intros Hys. apply Hy. rewrite Hys, <-Hs. by apply (list_elem_of_fmap_2 (λ r, col r c)).
Qed.

Lemma filter_all {A} (p : A → bool) (l : list A) :
  (∀ x, x ∈ l → p x = true) → List.filter p l = l.
Proof.
  induction l as [|x l IH]; intros Hp; [done|]. simpl. rewrite Hp by apply list_elem_of_here.
  f_equal. apply IH. intros y Hy. by apply Hp, list_elem_of_further.
Qed.

Lemma filter_filter {A} (p q : A → bool) l :
  List.filter p (List.filter q l) = List.filter (λ x, p x && q x) l.
Proof.
  induction l as [|x l IH]; [done|]. simpl. destruct (q x); simpl.
  - rewrite andb_true_r, IH. done.
  - by rewrite andb_false_r.
Qed.

Lemma str_id r c s : col r c = VText s → str r c = s.
Proof. intros E. unfold str, text. by rewrite E. Qed.

Lemma keyed_app c t r s :
  keyed c t → col r c = VText s → existsb (λ x, is_text x c s) t = false → keyed c (t ++ [r]).
Proof.
  intros [Hnd Ht] Hr Hex. split.
  - rewrite map_app. apply NoDup_app. split; [done|]. split; [|apply NoDup_singleton].
    intros v (x & -> & Hx)%list_elem_of_fmap Hv. apply list_elem_of_singleton in Hv.
    apply not_true_iff_false in Hex. apply Hex, existsb_exists. exists x.
    split; [by apply list_elem_of_In|]. apply is_text_spec. congruence.
  - intros x [Hx|Hx]%elem_of_app; [by apply Ht|]. apply list_elem_of_singleton in Hx as ->. eauto.
Qed.

Lemma keyed_filter c t p : keyed c t → keyed c (List.filter p t).
Proof.
  intros [Hnd Ht]. split.
  - induction t as [|x t IH]; simpl; [constructor|]. cbn [map] in Hnd. apply NoDup_cons in Hnd as [Hx Hnd].
    assert (∀ r, r ∈ t → ∃ s, col r c = VText s) as Ht' by (intros; apply Ht; by apply list_elem_of_further).
    destruct (p x); [|by apply IH]. simpl. apply NoDup_cons. split; [|by apply IH].
    intros (y & Hy & Hin)%list_elem_of_fmap. apply Hx. rewrite Hy.
    apply (list_elem_of_fmap_2 (λ r, col r c)). by apply elem_of_select in Hin as [? _].
  - intros r [Hr _]%elem_of_select. by apply Ht.
Qed.

Lemma select_update (p : row → bool) f t :
  (∀ r, p (f r) = p r) → select p (update_where p f t) = map f (select p t).
Proof.
  intros Hp. unfold select, update_where. induction t as [|r t IH]; [done|]. simpl.
  destruct (p r) eqn:E; rewrite ?Hp, E; simpl; by rewrite IH.
Qed.

#[export] Hint Rewrite @col_insert @col_insert_ne using done : omni_rw.
