(* ===== verification/StateMachines.v ===== *)
(** * StateMachines: [omniagentos/contracts.py] and [omniagentos/taskcontract/transitions.py]

    The task, run and contract lifecycles as their transition tables, and the
    checks that guard them. *)

From Stdlib Require Import Ascii.
From S2P Require Import Prelude PyString.
Open Scope nat_scope.

Inductive TaskState :=
  | TDraft | TReady | TQueued | TRunning | TAwaitingApproval | TValidating | TReviewing
  | TRevisionRequested | TCompleted | TPaused | TFailed | TCancelled | TRetrying.
#[export] Instance TaskState_eq_dec : EqDecision TaskState.
Proof. solve_decision. Defined.

Inductive RunState :=
  | RQueued | RRunning | RAwaitingApproval | RValidating | RCompleted | RFailed | RCancelled | RPaused.
#[export] Instance RunState_eq_dec : EqDecision RunState.
Proof. solve_decision. Defined.

Definition run_state_value (s : RunState) : string :=
  match s with
  | RQueued => "queued" | RRunning => "running" | RAwaitingApproval => "awaiting_approval"
  | RValidating => "validating" | RCompleted => "completed" | RFailed => "failed"
  | RCancelled => "cancelled" | RPaused => "paused"
  end.

Definition TASK_TRANSITIONS (s : TaskState) : list TaskState :=
  match s with
  | TDraft => [TReady; TCancelled]
  | TReady => [TQueued; TPaused; TFailed; TCancelled]
  | TQueued => [TRunning; TPaused; TFailed; TCancelled]
  | TRunning => [TAwaitingApproval; TValidating; TCompleted; TPaused; TFailed; TCancelled]
  | TAwaitingApproval => [TRunning; TPaused; TFailed; TCancelled]
  | TValidating => [TReviewing; TCompleted; TPaused; TFailed; TCancelled]
  | TReviewing => [TRevisionRequested; TCompleted; TPaused; TFailed; TCancelled]
  | TRevisionRequested => [TRunning; TPaused; TFailed; TCancelled]
  | TFailed => [TRetrying]
  | TRetrying => [TRunning; TFailed; TCancelled]
  | TPaused => [TQueued; TRunning; TCancelled]
  | TCompleted => []
  | TCancelled => []
  end.

Definition RUN_TRANSITIONS (s : RunState) : list RunState :=
  match s with
  | RQueued => [RRunning; RPaused; RCancelled]
  | RRunning => [RAwaitingApproval; RValidating; RCompleted; RFailed; RCancelled; RPaused]
  | RAwaitingApproval => [RRunning; RFailed; RCancelled]
  | RValidating => [RRunning; RAwaitingApproval; RCompleted; RFailed; RCancelled]
  | RPaused => [RQueued; RCancelled]
  | RCompleted | RFailed | RCancelled => []
  end.

Definition TERMINAL_RUN_STATES : list RunState := [RCompleted; RFailed; RCancelled].

Definition can_transition_task (current target : TaskState) : bool :=
  bool_decide (target ∈ TASK_TRANSITIONS current).
Definition can_transition_run (current target : RunState) : bool :=
  bool_decide (target ∈ RUN_TRANSITIONS current).

(** ** Task contracts *)

Inductive ContractState :=
  | CDraft | CAdopted | CActive | CVerifying | CVerified | CClosed | CRejected | CSuperseded.
#[export] Instance ContractState_eq_dec : EqDecision ContractState.
Proof. solve_decision. Defined.

Definition contract_states : list ContractState :=
  [CDraft; CAdopted; CActive; CVerifying; CVerified; CClosed; CRejected; CSuperseded].
Definition contract_value (s : ContractState) : string :=
  match s with
  | CDraft => "draft" | CAdopted => "adopted" | CActive => "active" | CVerifying => "verifying"
  | CVerified => "verified" | CClosed => "closed" | CRejected => "rejected"
  | CSuperseded => "superseded"
  end.
(** [ContractState(text)]: [None] is the [ValueError]. *)
Definition contract_state (text : string) : option ContractState :=
  List.find (λ s, bool_decide (contract_value s = text)) contract_states.

Definition ALLOWED (s : ContractState) : list ContractState :=
  match s with
  | CDraft => [CAdopted; CRejected; CSuperseded]
  | CAdopted => [CActive; CRejected; CSuperseded; CClosed]
  | CActive => [CVerifying; CVerified; CRejected; CSuperseded; CClosed]
  | CVerifying => [CVerified; CActive; CRejected; CClosed]
  | CVerified => [CClosed; CSuperseded]
  | CClosed => []
  | CRejected => [CSuperseded]
  | CSuperseded => []
  end.

Definition SUPPORTED_LANES : list string :=
  ["swarm"; "runner"; "longhaul"; "session"; "sessions"; "intake"; "graph"; "test"].

Definition can_transition (from_state to_state : string) : bool :=
  match contract_state from_state, contract_state to_state with
  | Some src, Some dst => bool_decide (src = dst) || bool_decide (dst ∈ ALLOWED src)
  | _, _ => false
  end.

Inductive contract_error :=
  | InvalidTransition (from_state to_state : string)
  | HashMismatch
  | IllegalTransition (src dst : ContractState)
  | LaneEmpty
  | UnsupportedLane (lane : string).

Definition validate_transition (from_state to_state : string) (contract_hash expected_hash : option string) :
    result contract_error ContractState :=
  match contract_state from_state, contract_state to_state with
  | Some src, Some dst =>
      if match expected_hash, contract_hash with
         | Some e, Some c => negb (bool_decide (e = c)) | _, _ => false end
      then Err HashMismatch
      else if bool_decide (src = dst) then Ok dst
      else if bool_decide (dst ∈ ALLOWED src) then Ok dst
      else Err (IllegalTransition src dst)
  | _, _ => Err (InvalidTransition from_state to_state)
  end.

Definition assert_supported_lane (lane : string) : result contract_error string :=
  let text := lower (strip lane) in
  if bool_decide (text = "") then Err LaneEmpty
  else if bool_decide (text ∈ SUPPORTED_LANES) then Ok text
  else Err (UnsupportedLane lane).

Definition transition_table : list (string * list string) :=
  map (λ s, (contract_value s, sort_by (λ x, x) (map contract_value (ALLOWED s)))) contract_states.

(** ** The lifecycles as relations *)

Definition task_step (a b : TaskState) : Prop := can_transition_task a b = true.
Definition run_step (a b : RunState) : Prop := can_transition_run a b = true.
Definition contract_step (a b : ContractState) : Prop :=
  can_transition (contract_value a) (contract_value b) = true.

Lemma contract_state_value s : contract_state (contract_value s) = Some s.
Proof. by destruct s. Qed.

Lemma contract_step_spec a b : contract_step a b ↔ a = b ∨ b ∈ ALLOWED a.
Proof.
  unfold contract_step, can_transition. rewrite !contract_state_value, orb_true_iff, !bool_decide_eq_true.
  done.
Qed.

Lemma step_trace {A} (R : A → A → Prop) l a b : 
  foldr (λ x P y, R y x ∧ P x) (λ y, y = b) l a → rtc R a b.
Proof.
  revert a. induction l as [|x l IH]; intros a; simpl; [by intros ->|].
  intros [Hax Hx]. eapply rtc_l; [exact Hax|by apply IH].
Qed.

(** Follow an explicit path. *)
Ltac follow path := apply (step_trace _ path); simpl; repeat split; by vm_compute.

(** The task lifecycle is connected and ends only by completion or
    cancellation.  Every state is reachable from DRAFT; from every state some
    terminal state is reachable; COMPLETED and CANCELLED have no exit; a failed
    task can only be retried. *)
Theorem task_lifecycle s :
  rtc task_step TDraft s ∧
  (rtc task_step s TCompleted ∨ s = TCancelled) ∧
  ((∀ t, ¬ task_step s t) ↔ s = TCompleted ∨ s = TCancelled) ∧
  (∀ t, task_step TFailed t → t = TRetrying).
Proof.
  split_and!.
  - destruct s; first
      [ follow (@nil TaskState) | follow [TReady] | follow [TReady; TQueued] | follow [TReady; TQueued; TRunning]
      | follow [TReady; TQueued; TRunning; TAwaitingApproval] | follow [TReady; TQueued; TRunning; TValidating]
      | follow [TReady; TQueued; TRunning; TValidating; TReviewing]
      | follow [TReady; TQueued; TRunning; TValidating; TReviewing; TRevisionRequested]
      | follow [TReady; TQueued; TRunning; TCompleted] | follow [TReady; TPaused] | follow [TReady; TFailed]
      | follow [TCancelled] | follow [TReady; TFailed; TRetrying] ].
  - destruct s; try (by right); left; first
      [ follow (@nil TaskState) | follow [TCompleted] | follow [TRunning; TCompleted]
      | follow [TQueued; TRunning; TCompleted] | follow [TReady; TQueued; TRunning; TCompleted]
      | follow [TRetrying; TRunning; TCompleted] ].
  - split; [|by intros [->| ->] [] [=]].
    intros Hno. destruct s; auto; exfalso; first
      [ by apply (Hno TCancelled) | by apply (Hno TRetrying) ].
  - by intros [].
Qed.

Lemma run_terminal_no_exit a b : a ∈ TERMINAL_RUN_STATES → ¬ run_step a b.
Proof.
  unfold TERMINAL_RUN_STATES. rewrite !elem_of_cons, elem_of_nil.
  intros [->|[->|[->|[]]]]; by destruct b.
Qed.

(** The terminal run states are exactly those without an exit, every run state
    is reachable from QUEUED, and no run can be resumed out of a terminal state. *)
Theorem run_lifecycle s :
  rtc run_step RQueued s ∧
  ((∀ t, ¬ run_step s t) ↔ s ∈ TERMINAL_RUN_STATES) ∧
  (∀ t, s ∈ TERMINAL_RUN_STATES → rtc run_step s t → t = s).
Proof.
  assert ((∀ t, ¬ run_step s t) ↔ s ∈ TERMINAL_RUN_STATES) as Hterm.
  { unfold TERMINAL_RUN_STATES. rewrite !elem_of_cons, elem_of_nil. split.
    - intros Hno. destruct s; auto; exfalso; by apply (Hno RCancelled).
    - by intros [->|[->|[->|[]]]] [] [=]. }
  split_and!; [|done|].
  - destruct s; first
      [ follow (@nil RunState) | follow [RRunning] | follow [RRunning; RAwaitingApproval]
      | follow [RRunning; RValidating] | follow [RRunning; RCompleted] | follow [RRunning; RFailed]
      | follow [RCancelled] | follow [RPaused] ].
  - intros t Ht Hrtc. pose proof (proj2 Hterm Ht) as Hno. destruct Hrtc as [|x y z Hxy _]; [done|].
    by destruct (Hno y).
Qed.

(** The contract check is exact.  A transition is accepted exactly when both
    texts name states, the two hashes agree if both are given, and the step is a
    no-op or an edge of the table; the accepted destination is the one asked for. *)
Theorem validate_transition_exact from_state to_state contract_hash expected_hash dst :
  validate_transition from_state to_state contract_hash expected_hash = Ok dst ↔
  can_transition from_state to_state = true ∧ contract_state to_state = Some dst ∧
  (∀ e c, expected_hash = Some e → contract_hash = Some c → e = c).
Proof.
  unfold validate_transition, can_transition.
  destruct (contract_state from_state) as [src|]; [|naive_solver].
  destruct (contract_state to_state) as [t|]; [|naive_solver].
  rewrite orb_true_iff, !bool_decide_eq_true.
  destruct (match expected_hash, contract_hash with
    | Some e, Some c => negb (bool_decide (e = c)) | _, _ => false end) eqn:Eh.
  - split; [done|]. intros (_ & _ & Hall). destruct expected_hash, contract_hash; try done.
    rewrite bool_decide_true in Eh by auto. done.
  - assert (∀ e c, expected_hash = Some e → contract_hash = Some c → e = c) as Hall.
    { intros e c -> ->. apply negb_false_iff, bool_decide_eq_true in Eh. done. }
    case_bool_decide; [naive_solver|]. case_bool_decide; naive_solver.
Qed.

(** The states a contract went through, the last one first. *)
Inductive history : list ContractState → Prop :=
  | history_draft : history [CDraft]
  | history_step s t visited : history (s :: visited) → contract_step s t → history (t :: s :: visited).

Lemma history_inv visited :
  history visited →
  match visited with
  | [] => False
  | s :: _ =>
      (s = CAdopted ∨ s = CActive ∨ s = CVerifying ∨ s = CVerified → CAdopted ∈ visited) ∧
      (s = CActive ∨ s = CVerifying ∨ s = CVerified → CActive ∈ visited)
  end.
Proof.
  induction 1 as [|s t visited _ [IHa IHb] Hst]; [split; naive_solver|].
  apply contract_step_spec in Hst as [<-|Hst].
  - split; intros Hs; apply elem_of_cons; right; auto.
  - split; intros Ht; destruct s; simpl in Hst;
      repeat (apply elem_of_cons in Hst as [->|Hst]; [|]); try (by apply not_elem_of_nil in Hst);
      try (by destruct Ht as [|[|[|]]]); try (by destruct Ht as [|[|]]);
      try apply list_elem_of_here; apply list_elem_of_further; auto.
Qed.

(** verification is earned.  Whatever route it took, a contract that is being
    verified or verified was adopted and active before; a closed, superseded or
    rejected contract never becomes active again. *)
Theorem contract_verified_was_active :
  (∀ s visited, history (s :: visited) → s = CVerified ∨ s = CVerifying →
     CAdopted ∈ visited ∧ CActive ∈ visited) ∧
  ∀ s t, s = CClosed ∨ s = CSuperseded ∨ s = CRejected → rtc contract_step s t →
    t = CClosed ∨ t = CSuperseded ∨ t = CRejected.
Proof.
  split.
  - intros s visited Hh Hs. pose proof (history_inv _ Hh) as [Ha Hb].
    destruct Hs as [->| ->].
    + split; [set_solver|set_solver].
    + split; [set_solver|set_solver].
  - intros s t Hs Hrtc. induction Hrtc as [|x y z Hxy _ IH]; [done|]. apply IH.
    apply contract_step_spec in Hxy as [<-|Hxy]; [done|].
    destruct Hs as [->|[->| ->]]; simpl in Hxy; set_solver.
Qed.
