(* ===== verification/RunStore.v ===== *)
(** * RunStore: [omniagentos/db/store.py]

    The data-access layer of the core tables: runs, steps, idempotency receipts,
    tasks, events, approvals, pause, heartbeats and budget usage.  Every operation
    is one transaction; the clock of [utc_now_iso] is the argument [now], a
    fixed-width ISO text. *)

From Stdlib Require Import Ascii QArith.
From S2P Require Import Prelude PyString Sql.
Open Scope nat_scope.

Inductive sql_error :=
  | UnknownColumns (columns : list string)
  | IntegrityError
  | OperationalError
  | MissingPauseRow.

Record db := mkDb {
  runs : table;
  steps : table;
  idempotency : table;
  tasks : table;
  events : table;
  approvals : table;
  disciplines : table;
  projects : table;
  pause : table;
  heartbeats : table;
  budgets : table;
  artifacts : table;
  last_step_id : Z;
  last_event_id : Z;
}.
Definition set_runs (f : table → table) (d : db) : db :=
  mkDb (f d.(runs)) d.(steps) d.(idempotency) d.(tasks) d.(events) d.(approvals) d.(disciplines) d.(projects)
    d.(pause) d.(heartbeats) d.(budgets) d.(artifacts) d.(last_step_id) d.(last_event_id).
Definition set_steps (f : table → table) (last : Z) (d : db) : db :=
  mkDb d.(runs) (f d.(steps)) d.(idempotency) d.(tasks) d.(events) d.(approvals) d.(disciplines) d.(projects)
    d.(pause) d.(heartbeats) d.(budgets) d.(artifacts) last d.(last_event_id).
Definition set_idempotency (f : table → table) (d : db) : db :=
  mkDb d.(runs) d.(steps) (f d.(idempotency)) d.(tasks) d.(events) d.(approvals) d.(disciplines) d.(projects)
    d.(pause) d.(heartbeats) d.(budgets) d.(artifacts) d.(last_step_id) d.(last_event_id).
Definition set_tasks (f : table → table) (d : db) : db :=
  mkDb d.(runs) d.(steps) d.(idempotency) (f d.(tasks)) d.(events) d.(approvals) d.(disciplines) d.(projects)
    d.(pause) d.(heartbeats) d.(budgets) d.(artifacts) d.(last_step_id) d.(last_event_id).
Definition set_events (f : table → table) (last : Z) (d : db) : db :=
  mkDb d.(runs) d.(steps) d.(idempotency) d.(tasks) (f d.(events)) d.(approvals) d.(disciplines) d.(projects)
    d.(pause) d.(heartbeats) d.(budgets) d.(artifacts) d.(last_step_id) last.
Definition set_approvals (f : table → table) (d : db) : db :=
  mkDb d.(runs) d.(steps) d.(idempotency) d.(tasks) d.(events) (f d.(approvals)) d.(disciplines) d.(projects)
    d.(pause) d.(heartbeats) d.(budgets) d.(artifacts) d.(last_step_id) d.(last_event_id).
Definition set_pause_table (f : table → table) (d : db) : db :=
  mkDb d.(runs) d.(steps) d.(idempotency) d.(tasks) d.(events) d.(approvals) d.(disciplines) d.(projects)
    (f d.(pause)) d.(heartbeats) d.(budgets) d.(artifacts) d.(last_step_id) d.(last_event_id).
Definition set_heartbeats (f : table → table) (d : db) : db :=
  mkDb d.(runs) d.(steps) d.(idempotency) d.(tasks) d.(events) d.(approvals) d.(disciplines) d.(projects)
    d.(pause) (f d.(heartbeats)) d.(budgets) d.(artifacts) d.(last_step_id) d.(last_event_id).
Definition set_budgets (f : table → table) (d : db) : db :=
  mkDb d.(runs) d.(steps) d.(idempotency) d.(tasks) d.(events) d.(approvals) d.(disciplines) d.(projects)
    d.(pause) d.(heartbeats) (f d.(budgets)) d.(artifacts) d.(last_step_id) d.(last_event_id).

Definition set_disciplines (f : table → table) (d : db) : db :=
  mkDb d.(runs) d.(steps) d.(idempotency) d.(tasks) d.(events) d.(approvals) (f d.(disciplines))
    d.(projects) d.(pause) d.(heartbeats) d.(budgets) d.(artifacts) d.(last_step_id) d.(last_event_id).
Definition set_artifacts (f : table → table) (d : db) : db :=
  mkDb d.(runs) d.(steps) d.(idempotency) d.(tasks) d.(events) d.(approvals) d.(disciplines)
    d.(projects) d.(pause) d.(heartbeats) d.(budgets) (f d.(artifacts)) d.(last_step_id) d.(last_event_id).

(** ** Columns and constraints *)

Definition RUN_COLUMNS : list string :=
  ["id"; "task_id"; "discipline_id"; "arm"; "harness"; "harness_version"; "env_hash"; "harness_params";
   "agent"; "model"; "attempt"; "state"; "priority"; "worker_id"; "plan_json"; "output_text";
   "output_json"; "error"; "wall_ms"; "turns"; "input_tokens"; "output_tokens"; "cost_usd";
   "usage_estimated"; "usage_source"; "cached_tokens_read"; "cached_tokens_written";
   "cache_miss_tokens"; "gateway_source"; "hourly_turn_count"; "budget_json"; "cancel_requested";
   "trace_id"; "session_ref"; "scope_json"; "lease_generation"; "lease_expires_at"; "manifest_path";
   "vault_note_path"; "queued_at"; "started_at"; "finished_at"; "created_at"; "updated_at"; "project_id"].
Definition STEP_COLUMNS : list string :=
  ["name"; "action_class"; "status"; "checkpoint_json"; "result_json"; "error"; "idempotency_key";
   "started_at"; "finished_at"].
Definition TASK_COLUMNS : list string :=
  ["id"; "discipline_id"; "project_id"; "title"; "input_json"; "acceptance_json"; "state"; "risk";
   "deadline"; "created_at"; "updated_at"].
Definition APPROVAL_COLUMNS : list string :=
  ["id"; "run_id"; "task_id"; "step_seq"; "action_class"; "proposed_action"; "params_json"; "risk";
   "evidence"; "state"; "decided_by"; "decision_note"; "decided_at"; "expires_at"; "created_at";
   "session_id"].
Definition DISCIPLINE_COLUMNS : list string := ["id"; "name"; "metric_contract"; "status"; "created_at"].

Definition ARTIFACT_COLUMNS : list string := ["id"; "run_id"; "type"; "uri"; "sha256"; "bytes"; "created_at"].

Definition checked_fields (fields : row) (allowed : list string) : result sql_error row :=
  match sort_by (λ c, c) (List.filter (λ c, negb (bool_decide (c ∈ allowed))) (map fst (map_to_list fields))) with
  | [] => Ok fields
  | unknown => Err (UnknownColumns unknown)
  end.

(** The schema of migrations 001 to 122: column defaults, NOT NULL columns, CHECKs. *)
Definition run_defaults : row := list_to_map
  [("harness_version", VText ""); ("env_hash", VText ""); ("harness_params", VText "{}");
   ("attempt", VInt 1); ("state", VText "queued"); ("plan_json", VText "[]");
   ("usage_estimated", VInt 1); ("usage_source", VText "estimator"); ("budget_json", VText "{}");
   ("cancel_requested", VInt 0); ("lease_generation", VInt 0); ("cached_tokens_read", VInt 0);
   ("cached_tokens_written", VInt 0); ("cache_miss_tokens", VInt 0); ("hourly_turn_count", VInt 0);
   ("priority", VInt 2)].
Definition run_not_null : list string :=
  ["task_id"; "harness"; "harness_version"; "env_hash"; "harness_params"; "attempt"; "state";
   "plan_json"; "usage_estimated"; "usage_source"; "budget_json"; "cancel_requested"; "trace_id";
   "queued_at"; "created_at"; "updated_at"; "lease_generation"; "priority"].
Definition step_defaults : row := list_to_map
  [("action_class", VText "sandboxed_creation"); ("status", VText "pending");
   ("checkpoint_json", VText "{}")].
Definition step_not_null : list string :=
  ["run_id"; "seq"; "name"; "action_class"; "status"; "checkpoint_json"].
Definition task_defaults : row := list_to_map
  [("input_json", VText "{}"); ("acceptance_json", VText "{}"); ("state", VText "draft");
   ("risk", VText "low")].
Definition task_not_null : list string :=
  ["title"; "input_json"; "acceptance_json"; "state"; "risk"; "created_at"; "updated_at"].
Definition approval_defaults : row := list_to_map
  [("params_json", VText "{}"); ("risk", VText ""); ("evidence", VText ""); ("state", VText "pending");
   ("delivery_state", VText "unattempted")].
Definition approval_not_null : list string :=
  ["action_class"; "proposed_action"; "params_json"; "risk"; "evidence"; "state"; "created_at";
   "delivery_state"].

Definition artifact_defaults : row := list_to_map
  [("type", VText "file"); ("sha256", VText ""); ("bytes", VInt 0)].
Definition artifact_not_null : list string := ["run_id"; "type"; "uri"; "sha256"; "bytes"; "created_at"].
Definition discipline_defaults : row := list_to_map
  [("metric_contract", VText "{}"); ("status", VText "active")].
Definition discipline_not_null : list string := ["name"; "metric_contract"; "status"; "created_at"].

Definition not_null_ok (columns : list string) (r : row) : bool :=
  forallb (λ c, negb (is_null (col r c))) columns.
(** A UNIQUE column: NULLs never collide. *)
Definition unique_ok (c : string) (t : table) (r : row) : bool :=
  negb (existsb (λ x, sql_eq (col x c) (col r c)) t).
(** [REFERENCES t(id)] *)
Definition references_ok (c : string) (t : table) (r : row) : bool :=
  is_null (col r c) || existsb (λ x, sql_eq (col x "id") (col r c)) t.

Definition priority_ok (r : row) : bool :=
  match col r "priority" with VInt n => (0 <=? n)%Z && (n <=? 3)%Z | VNull => true | _ => false end.
Definition run_ok (d : db) (r : row) : bool :=
  not_null_ok run_not_null r && priority_ok r && references_ok "task_id" d.(tasks) r
  && references_ok "discipline_id" d.(disciplines) r.
Definition step_ok (d : db) (r : row) : bool :=
  not_null_ok step_not_null r && references_ok "run_id" d.(runs) r.
Definition task_ok (d : db) (r : row) : bool :=
  not_null_ok task_not_null r && references_ok "discipline_id" d.(disciplines) r
  && references_ok "project_id" d.(projects) r.
Definition approval_ok (d : db) (r : row) : bool :=
  not_null_ok approval_not_null r && references_ok "run_id" d.(runs) r
  && references_ok "task_id" d.(tasks) r.

(** [UPDATE t SET fields WHERE p], with the row constraints of the table. *)
Definition update_checked (ok : row → bool) (p : row → bool) (fields : row) (t : table) :
    result sql_error (nat * table) :=
  if existsb (λ r, p r && negb (ok (assign fields r))) t then Err IntegrityError
  else Ok (rowcount p t, update_where p (assign fields) t).

(** [_insert_sql]; no columns is a syntax error. *)
Definition insert_checked (ok : row → bool) (defaults values : row) : result sql_error row :=
  if bool_decide (values = ∅) then Err OperationalError
  else let r := assign values defaults in
  if ok r then Ok r else Err IntegrityError.

(** [_where]: [None] tests for NULL. *)
Definition where_matches (filters : row) (r : row) : bool :=
  forallb (λ p, if is_null p.2 then is_null (col r p.1) else sql_eq (col r p.1) p.2)
          (map_to_list filters).
Definition where_clause (filters : row) (allowed : list string) : result sql_error (row → bool) :=
  _ ← checked_fields filters allowed; Ok (where_matches filters).

Definition fetchone (l : list row) : option row := head l.

Section store.
(** SQLite's [unixepoch] of a text, and the two process settings of queue aging. *)
Context (unixepoch : string → option Z) (AGING_PRIORITY_FLOOR AGING_INTERVAL_SECONDS : Z).

(** ** Runs *)

Definition enqueue_run (values : row) : op db sql_error unit := write (λ d,
  values ← checked_fields values RUN_COLUMNS;
  r ← insert_checked (λ r, run_ok d r && unique_ok "id" d.(runs) r) run_defaults values;
  Ok (tt, set_runs (λ t, t ++ [r]) d)).

(** [MAX(floor, priority - CAST(MAX(0, age) / interval AS INTEGER))]; an unreadable
    timestamp makes it NULL. *)
Definition effective_priority (now : string) (r : row) : option Z :=
  match int r "priority", unixepoch now, text r "queued_at" ≫= unixepoch with
  | Some p, Some t, Some q =>
      Some (Z.max AGING_PRIORITY_FLOOR (p - Z.max 0 (t - q) / AGING_INTERVAL_SECONDS))%Z
  | _, _, _ => None
  end.

Definition claim_order (now : string) (r : row) : option Z * option string * option string :=
  (effective_priority now r, text r "queued_at", text r "id").

Definition with_id (run_id : string) (r : row) : bool := is_text r "id" run_id.

Definition claim_row (worker_id now : string) (r : row) : row :=
  <["state" := VText "running"]> (<["worker_id" := VText worker_id]>
    (<["started_at" := match col r "started_at" with VNull => VText now | v => v end]>
      (<["updated_at" := VText now]> r))).

Definition claim_next_run (worker_id now : string) : op db sql_error (option row) := write (λ d,
  match fetchone (query d.(runs) (λ r, is_text r "state" "queued") (claim_order now)) with
  | None => Ok (None, d)
  | Some candidate =>
      let run_id := str candidate "id" in
      let d' := set_runs (update_where (λ r, with_id run_id r && is_text r "state" "queued")
                                       (claim_row worker_id now)) d in
      Ok (fetchone (select (with_id run_id) d'.(runs)), d')
  end).

(** [LEFT JOIN heartbeats ... WHERE h.worker_id IS NULL OR h.last_beat_at < cutoff] *)
Definition heartbeat_stale (cutoff : string) (d : db) (r : row) : bool :=
  match List.find (λ h, sql_eq (col h "worker_id") (col r "worker_id")) d.(heartbeats) with
  | None => true
  | Some h => match text h "last_beat_at" with Some t => py_lt t cutoff | None => false end
  end.
Definition reclaimable (cutoff : string) (d : db) (r : row) : bool :=
  (is_text r "state" "running" || is_text r "state" "awaiting_approval") && heartbeat_stale cutoff d r.

Definition take_over (worker_id now : string) (r : row) : row :=
  <["worker_id" := VText worker_id]> (<["updated_at" := VText now]> r).

(** [cutoff] is the clock minus [stale_s], in the same format as [now]. *)
Definition reclaim_stale_runs (worker_id cutoff now : string) : op db sql_error (list row) := write (λ d,
  let stale := query d.(runs) (reclaimable cutoff d) (λ r, (text r "queued_at", text r "id")) in
  let run_ids := map (λ r, str r "id") stale in
  let d' := foldl (λ d i, set_runs (update_where (with_id i) (take_over worker_id now)) d) d run_ids in
  Ok (omap (λ i, fetchone (select (with_id i) d'.(runs))) run_ids, d')).

Definition get_run (run_id : string) (d : db) : option row := fetchone (select (with_id run_id) d.(runs)).

Definition get_runs_by_ids (run_ids : list string) (d : db) : gmap string row :=
  foldl (λ m r, <[str r "id" := r]> m) ∅
    (select (λ r, existsb (λ i, with_id i r) run_ids) d.(runs)).

Definition worker_matches (expect_worker : option string) (r : row) : bool :=
  match expect_worker with Some w => is_text r "worker_id" w | None => true end.

Definition update_run (run_id : string) (fields : row) (expect_worker : option string) :
    op db sql_error bool := write (λ d,
  values ← checked_fields fields (List.filter (λ c, negb (bool_decide (c = "id"))) RUN_COLUMNS);
  let p := λ r, with_id run_id r && worker_matches expect_worker r in
  if bool_decide (values = ∅) then Ok (bool_decide (fetchone (select p d.(runs)) ≠ None), d)
  else
    '(n, t) ← update_checked (run_ok d) p values d.(runs);
    Ok (bool_decide (0 < n), set_runs (λ _, t) d)).

Definition newest_runs (r : row) : desc (option string) * desc (option string) :=
  (Desc (text r "queued_at"), Desc (text r "id")).

Definition list_runs (filters : row) (n : Z) (d : db) : result sql_error (list row) :=
  p ← where_clause filters RUN_COLUMNS;
  Ok (limit n (query d.(runs) p newest_runs)).

(** [task_id IN (SELECT id FROM tasks WHERE project_id = ?)] *)
Definition in_project (project_id : string) (d : db) (v : sql_value) : bool :=
  existsb (λ t, is_text t "project_id" project_id && sql_eq (col t "id") v) d.(tasks).

Definition list_runs_for_project (project_id : string) (filters : row) (n : Z) (d : db) :
    result sql_error (list row) :=
  p ← where_clause filters RUN_COLUMNS;
  Ok (limit n (query d.(runs) (λ r, p r && in_project project_id d (col r "task_id")) newest_runs)).

Definition request_cancel (run_id now : string) : op db sql_error bool := write (λ d,
  let p := with_id run_id in
  Ok (bool_decide (0 < rowcount p d.(runs)),
      set_runs (update_where p (λ r, <["cancel_requested" := VInt 1]> (<["updated_at" := VText now]> r))) d)).

Definition paused_flag (d : db) : option bool :=
  (λ r, match col r "paused" with VInt n => negb (n =? 0)%Z | VNull => false | _ => true end) <$>
  fetchone (select (λ r, sql_eq (col r "id") (VInt 1)) d.(pause)).

Definition requeue_row (now : string) (r : row) : row :=
  <["state" := VText "queued"]> (<["worker_id" := VNull]> (<["updated_at" := VText now]> r)).

Definition requeue_paused_runs (now : string) : op db sql_error (list string) := write (λ d,
  match paused_flag d with
  | None | Some true => Ok ([], d)
  | Some false =>
      let p := λ r, is_text r "state" "paused" in
      let rows := query d.(runs) p (λ r, (text r "queued_at", text r "id")) in
      Ok (map (λ r, str r "id") rows, set_runs (update_where p (requeue_row now)) d)
  end).

(** ** Steps *)

Definition step_of (run_id : string) (seq : Z) (r : row) : bool :=
  is_text r "run_id" run_id && sql_eq (col r "seq") (VInt seq).

Definition upsert_step (run_id : string) (seq : Z) (fields : row) (expect_worker : option string) :
    op db sql_error bool := write (λ d,
  values ← checked_fields fields STEP_COLUMNS;
  match fetchone (select (λ r, with_id run_id r && worker_matches expect_worker r) d.(runs)) with
  | None => Ok (false, d)
  | Some _ =>
      let p := step_of run_id seq in
      match fetchone (select p d.(steps)) with
      | None =>
          let id := (d.(last_step_id) + 1)%Z in
          r ← insert_checked (step_ok d) step_defaults
                (<["id" := VInt id]> (<["run_id" := VText run_id]> (<["seq" := VInt seq]> values)));
          Ok (true, set_steps (λ t, t ++ [r]) id d)
      | Some _ =>
          if bool_decide (values = ∅) then Ok (true, d)
          else
            '(_, t) ← update_checked (step_ok d) p values d.(steps);
            Ok (true, set_steps (λ _, t) d.(last_step_id) d)
      end
  end).

Definition get_steps (run_id : string) (d : db) : list row :=
  query d.(steps) (λ r, is_text r "run_id" run_id) (λ r, int r "seq").

Definition get_step_counts (run_ids : list string) (d : db) : gmap string (nat * nat) :=
  foldl (λ m r,
      let done := is_text r "status" "completed" || is_text r "status" "skipped" in
      let '(k, n) := default (0, 0) (m !! str r "run_id") in
      <[str r "run_id" := ((if done then S k else k), S n)]> m) ∅
    (select (λ r, existsb (λ i, is_text r "run_id" i) run_ids) d.(steps)).

(** ** Idempotency receipts *)

Definition with_key (key : string) (r : row) : bool := is_text r "key" key.

(** [INSERT OR IGNORE]: a taken key inserts nothing. *)
Definition idem_insert (key run_id step_name now : string) : op db sql_error bool := write (λ d,
  if existsb (with_key key) d.(idempotency) then Ok (false, d)
  else
    let r : row := list_to_map [("key", VText key); ("run_id", VText run_id);
      ("step_name", VText step_name); ("created_at", VText now)] in
    Ok (true, set_idempotency (λ t, t ++ [r]) d)).

Definition idem_get (key : string) (d : db) : option row := fetchone (select (with_key key) d.(idempotency)).

Definition idem_complete (key result_json now : string) : op db sql_error unit := write (λ d,
  Ok (tt, set_idempotency (update_where (with_key key)
    (λ r, <["result_json" := VText result_json]> (<["completed_at" := VText now]> r))) d)).

Definition uncompleted (key : string) (r : row) : bool := with_key key r && is_null (col r "result_json").

Definition idem_release (key : string) : op db sql_error bool := write (λ d,
  Ok (bool_decide (0 < rowcount (uncompleted key) d.(idempotency)),
      set_idempotency (List.filter (λ r, negb (uncompleted key r))) d)).

Definition idem_for_run (run_id : string) (d : db) : list row :=
  query d.(idempotency) (λ r, is_text r "run_id" run_id) (λ r, (text r "created_at", text r "key")).

(** ** Tasks *)

Definition create_task (values : row) : op db sql_error unit := write (λ d,
  values ← checked_fields values TASK_COLUMNS;
  r ← insert_checked (λ r, task_ok d r && unique_ok "id" d.(tasks) r) task_defaults values;
  Ok (tt, set_tasks (λ t, t ++ [r]) d)).

Definition get_task (task_id : string) (d : db) : option row := fetchone (select (with_id task_id) d.(tasks)).

Definition state_in (expect : option (list string)) (r : row) : bool :=
  match expect with Some states => existsb (is_text r "state") states | None => true end.

Definition update_task_state (task_id target : string) (expect : option (list string)) (now : string) :
    op db sql_error bool := λ d,
  match expect with
  | Some [] => (Ok false, d)
  | _ =>
      write (λ d,
        let p := λ r, with_id task_id r && state_in expect r in
        Ok (bool_decide (0 < rowcount p d.(tasks)),
            set_tasks (update_where p (λ r, <["state" := VText target]> (<["updated_at" := VText now]> r))) d)) d
  end.

Definition list_tasks (filters : row) (n : Z) (d : db) : result sql_error (list row) :=
  p ← where_clause filters TASK_COLUMNS;
  Ok (limit n (query d.(tasks) p (λ r, (Desc (text r "created_at"), Desc (text r "id"))))).

Definition list_tasks_for_project (project_id : string) (n : Z) (d : db) : list row :=
  limit n (query d.(tasks) (λ r, is_text r "project_id" project_id)
    (λ r, (Desc (text r "updated_at"), Desc (text r "id")))).

(** ** Events *)

(** [COALESCE(MAX(sequence), 0) + 1] over one execution. *)
Definition next_event_sequence (execution_id : string) (t : table) : Z :=
  (foldr (λ r m, match int r "sequence" with Some n => Z.max n m | None => m end) 0
    (select (λ r, is_text r "execution_id" execution_id) t) + 1)%Z.

Record new_event := mkEvent {
  ev_type : string;
  ev_actor : string;
  ev_action : string;
  ev_target_type : string;
  ev_target_id : string;
  ev_payload_json : string;
  ev_trace_id : string;
  ev_execution_id : string;
}.

Definition event_row (e : new_event) (id : Z) (sequence : option Z) (now : string) : row :=
  list_to_map
    [("id", VInt id); ("ts", VText now); ("type", VText e.(ev_type)); ("actor", VText e.(ev_actor));
     ("action", VText e.(ev_action)); ("target_type", VText e.(ev_target_type));
     ("target_id", VText e.(ev_target_id)); ("payload_json", VText e.(ev_payload_json));
     ("trace_id", VText e.(ev_trace_id));
     ("execution_id", if bool_decide (e.(ev_execution_id) = "") then VNull else VText e.(ev_execution_id));
     ("sequence", match sequence with Some n => VInt n | None => VNull end)].

(** [ev_payload_json] is the text [json.dumps] makes of the payload. *)
Definition insert_event (e : new_event) (now : string) : op db sql_error Z := write (λ d,
  let sequence := if bool_decide (e.(ev_execution_id) = "") then None
    else Some (next_event_sequence e.(ev_execution_id) d.(events)) in
  let id := (d.(last_event_id) + 1)%Z in
  Ok (id, set_events (λ t, t ++ [event_row e id sequence now]) id d)).

Definition id_after (after_id : Z) (r : row) : bool :=
  match int r "id" with Some n => (after_id <? n)%Z | None => false end.

Definition get_events_after (after_id : Z) (types : option (list string)) (n : Z) (d : db) : list row :=
  match types with
  | Some [] => []
  | _ =>
      limit n (query d.(events)
        (λ r, id_after after_id r && match types with Some ts => existsb (is_text r "type") ts | None => true end)
        (λ r, int r "id"))
  end.

(** LIKE folds the case of ASCII letters only. *)
Definition fold_ascii (c : ascii) : ascii := if is_upper c then ascii_of_nat (code c + 32) else c.

(** [text LIKE pattern]: [%] and [_] are wildcards, letters match case-insensitively. *)
Fixpoint like (pattern s : string) : bool :=
  match pattern with
  | EmptyString => bool_decide (s = "")
  | String c rest =>
      if Ascii.eqb c "%"%char then
        (fix any s := like rest s || match s with EmptyString => false | String _ s' => any s' end) s
      else match s with
      | EmptyString => false
      | String d s' => (Ascii.eqb c "_"%char || Ascii.eqb (fold_ascii c) (fold_ascii d)) && like rest s'
      end
  end.

Definition audit_events_for_target (target_type target_id action_prefix : string) (n : Z) (d : db) :
    list row :=
  if (n <=? 0)%Z then []
  else limit n (query d.(events)
    (λ r, is_text r "type" "audit.event" && is_text r "target_type" target_type
          && is_text r "target_id" target_id
          && match text r "action" with Some a => like (action_prefix +:+ "%") a | None => false end)
    (λ r, Desc (int r "id"))).

(** The newest [n] events of a run, oldest first. *)
Definition get_events_for_run (run_id : string) (n : Z) (d : db) : list row :=
  sort_by (λ r, int r "id") (limit n (query d.(events)
    (λ r, is_text r "target_type" "run" && is_text r "target_id" run_id) (λ r, Desc (int r "id")))).

Definition get_events_for_target (target_type target_id : string) (after_id n : Z) (d : db) : list row :=
  limit n (query d.(events)
    (λ r, is_text r "target_type" target_type && is_text r "target_id" target_id && id_after after_id r)
    (λ r, int r "id")).

Definition list_events_for_project (project_id : string) (n : Z) (d : db) : list row :=
  let of_run r := is_text r "target_type" "run" && existsb (λ x,
    sql_eq (col x "id") (col r "target_id") && in_project project_id d (col x "task_id")) d.(runs) in
  let of_approval r := is_text r "target_type" "approval" && existsb (λ x,
    sql_eq (col x "id") (col r "target_id") && in_project project_id d (col x "task_id")) d.(approvals) in
  limit n (sort_by (λ r, Desc (int r "id")) (select of_run d.(events) ++ select of_approval d.(events))).

Definition list_project_ids (n : Z) (d : db) : list string :=
  map (λ r, str r "id") (limit n (query d.(projects) (λ _, true) (λ r, (text r "created_at", text r "id")))).

Definition latest_event_id (d : db) : Z :=
  foldr (λ r m, match int r "id" with Some n => Z.max n m | None => m end) 0%Z d.(events).

(** ** Approvals *)

Definition create_approval (values : row) : op db sql_error unit := write (λ d,
  values ← checked_fields values APPROVAL_COLUMNS;
  r ← insert_checked (λ r, approval_ok d r && unique_ok "id" d.(approvals) r) approval_defaults values;
  Ok (tt, set_approvals (λ t, t ++ [r]) d)).

(** Live decisions before rejected and expired ones. *)
Definition state_rank (r : row) : nat :=
  if is_text r "state" "pending" then 0
  else if is_text r "state" "approved" then 1
  else if is_text r "state" "rejected" then 2 else 3.

(** [step_seq IS ?] *)
Definition step_is (step_seq : option Z) (r : row) : bool :=
  match step_seq with
  | None => is_null (col r "step_seq")
  | Some n => sql_eq (col r "step_seq") (VInt n)
  end.

Definition approval_order (r : row) : nat * desc (option string) * desc (option string) :=
  (state_rank r, Desc (text r "created_at"), Desc (text r "id")).

Definition get_approval_for (run_id : string) (step_seq : option Z) (d : db) : option row :=
  fetchone (query d.(approvals) (λ r, is_text r "run_id" run_id && step_is step_seq r) approval_order).

Definition opt_text (s : option string) : sql_value := match s with Some s => VText s | None => VNull end.

Definition pending_approval (r : row) : bool := is_text r "state" "pending".

Definition decide_row (state decided_by : string) (note : option string) (now : string) (r : row) : row :=
  <["state" := VText state]> (<["decided_by" := VText decided_by]>
    (<["decision_note" := opt_text note]> (<["decided_at" := VText now]> r))).

Definition decide_approval (approval_id state decided_by : string) (note : option string) (now : string) :
    op db sql_error bool := write (λ d,
  let p := λ r, with_id approval_id r && pending_approval r in
  Ok (bool_decide (0 < rowcount p d.(approvals)),
      set_approvals (update_where p (decide_row state decided_by note now)) d)).

Definition void_row (note now : string) (r : row) : row :=
  <["state" := VText "expired"]> (<["decision_note" := VText note]> (<["decided_at" := VText now]> r)).

Definition void_pending_approvals (run_id note now : string) : op db sql_error nat := write (λ d,
  let p := λ r, is_text r "run_id" run_id && pending_approval r in
  Ok (rowcount p d.(approvals), set_approvals (update_where p (void_row note now)) d)).

Definition newest_approvals (r : row) : desc (option string) * desc (option string) :=
  (Desc (text r "created_at"), Desc (text r "id")).
Definition approval_state_is (state : option string) (r : row) : bool :=
  match state with Some s => is_text r "state" s | None => true end.

Definition list_approvals (state : option string) (n : Z) (d : db) : list row :=
  limit n (query d.(approvals) (approval_state_is state) newest_approvals).

(** [v IN (SELECT id FROM tasks WHERE project_id IS NOT NULL)] *)
Definition in_any_project (d : db) (v : sql_value) : bool :=
  existsb (λ t, negb (is_null (col t "project_id")) && sql_eq (col t "id") v) d.(tasks).

Definition list_approvals_for_project (project_id : string) (state : option string) (n : Z) (d : db) :
    list row :=
  limit n (query d.(approvals)
    (λ r, approval_state_is state r
      && (in_project project_id d (col r "task_id")
          || (negb (is_null (col r "session_id"))
              && (is_null (col r "task_id") || is_text r "task_id" ""
                  || negb (in_any_project d (col r "task_id"))))))
    newest_approvals).

(** ** Pause and heartbeats *)

Definition get_pause (d : db) : result sql_error row :=
  match fetchone (select (λ r, sql_eq (col r "id") (VInt 1)) d.(pause)) with
  | Some r => Ok r
  | None => Err MissingPauseRow
  end.

(** The read follows the committed write. *)
Definition set_pause (paused : bool) (reason now : string) : op db sql_error row := λ d,
  let d' := set_pause_table (update_where (λ r, sql_eq (col r "id") (VInt 1))
    (λ r, <["paused" := VInt (if paused then 1 else 0)]> (<["reason" := VText reason]>
            (<["updated_at" := VText now]> r)))) d in
  (get_pause d', d').

Definition upsert_heartbeat (worker_id : string) (pid : Z) (current_run_id : option string) (now : string) :
    op db sql_error unit := write (λ d,
  let p := λ r, is_text r "worker_id" worker_id in
  if existsb p d.(heartbeats) then
    Ok (tt, set_heartbeats (update_where p (λ r, <["pid" := VInt pid]> (<["last_beat_at" := VText now]>
              (<["current_run_id" := opt_text current_run_id]> r)))) d)
  else
    Ok (tt, set_heartbeats (λ t, t ++ [list_to_map
      [("worker_id", VText worker_id); ("pid", VInt pid); ("started_at", VText now);
       ("last_beat_at", VText now); ("current_run_id", opt_text current_run_id)]]) d)).

Definition get_heartbeats (d : db) : list row :=
  query d.(heartbeats) (λ _, true) (λ r, text r "worker_id").

(** ** Budgets *)

Definition get_budget (budget_id : string) (d : db) : option row :=
  fetchone (select (with_id budget_id) d.(budgets)).

(** [budget_id.split(":", 1)] *)
Definition split_scope (budget_id : string) : string * string :=
  if bool_decide (budget_id = "global") then ("global", "")
  else match split ":"%char budget_id with
  | first :: (_ :: _) as rest => (first, join ":" rest)
  | _ => (budget_id, "")
  end.

(** [a + b] of two columns; [real_add] is the addition of doubles. *)
Definition sql_add (real_add : Q → Q → Q) (a b : sql_value) : sql_value :=
  match a, b with
  | VInt m, VInt n => VInt (m + n)
  | VInt m, VReal q => VReal (real_add (inject_Z m) q)
  | VReal p, VInt n => VReal (real_add p (inject_Z n))
  | VReal p, VReal q => VReal (real_add p q)
  | _, _ => VNull
  end.

Definition upsert_budget_usage (real_add : Q → Q → Q) (budget_id : string) (wall_ms tokens : Z)
    (cost_usd : Q) (now : string) : op db sql_error unit := write (λ d,
  let p := with_id budget_id in
  if existsb p d.(budgets) then
    Ok (tt, set_budgets (update_where p (λ r,
      <["used_wall_ms" := sql_add real_add (col r "used_wall_ms") (VInt wall_ms)]>
      (<["used_tokens" := sql_add real_add (col r "used_tokens") (VInt tokens)]>
      (<["used_cost_usd" := sql_add real_add (col r "used_cost_usd") (VReal cost_usd)]>
      (<["updated_at" := VText now]> r))))) d)
  else
    let '(scope_type, scope_id) := split_scope budget_id in
    Ok (tt, set_budgets (λ t, t ++ [list_to_map
      [("id", VText budget_id); ("scope_type", VText scope_type); ("scope_id", VText scope_id);
       ("used_wall_ms", VInt wall_ms); ("used_tokens", VInt tokens); ("used_cost_usd", VReal cost_usd);
       ("updated_at", VText now)]]) d)).

Definition list_budgets (d : db) : list row := query d.(budgets) (λ _, true) (λ r, text r "id").

(** ** Artifacts and disciplines *)

Definition add_artifact (values : row) : op db sql_error unit := write (λ d,
  values ← checked_fields values ARTIFACT_COLUMNS;
  r ← insert_checked (λ r, not_null_ok artifact_not_null r && references_ok "run_id" d.(runs) r
                           && unique_ok "id" d.(artifacts) r) artifact_defaults values;
  Ok (tt, set_artifacts (λ t, t ++ [r]) d)).

Definition get_artifacts (run_id : string) (d : db) : list row :=
  query d.(artifacts) (λ r, is_text r "run_id" run_id) (λ r, (text r "created_at", text r "id")).

Definition list_disciplines (d : db) : list row :=
  query d.(disciplines) (λ _, true) (λ r, (text r "created_at", text r "id")).

(** [INSERT OR IGNORE]: a row that breaks a constraint is skipped. *)
Definition create_discipline (values : row) : op db sql_error bool := write (λ d,
  values ← checked_fields values DISCIPLINE_COLUMNS;
  match insert_checked (λ r, not_null_ok discipline_not_null r && unique_ok "id" d.(disciplines) r)
          discipline_defaults values with
  | Ok r => Ok (true, set_disciplines (λ t, t ++ [r]) d)
  | Err IntegrityError => Ok (false, d)
  | Err e => Err e
  end).
End store.
