(* ===== verification/RunStoreSpec.v ===== *)
(** * RunStoreSpec: what the run store guarantees

    Claiming with priority aging, fencing of displaced workers, idempotency
    receipts, approvals decided once, gap-free event sequences, requeueing. *)

From Stdlib Require Import Ascii QArith Sorted.
From S2P Require Import Prelude PyString Sql StateMachines RunStore.
Open Scope nat_scope.

(** ** Queries *)

Lemma query_head {K} `{PyOrd K} t p (k : row → K) x :
  head (query t p k) = Some x →
  x ∈ t ∧ p x = true ∧ ∀ y, y ∈ t → p y = true → py_le (k x) (k y) = true.
Proof.
  unfold query. destruct (sort_by k (select p t)) as [|y l] eqn:E; [done|]. intros [= ->].
  assert (x ∈ select p t) as Hx by (apply (elem_of_sort_by k); rewrite E; apply list_elem_of_here).
  apply elem_of_select in Hx as [Hx Hp]. split_and!; [done..|].
  intros z Hz Hpz. eapply (sort_by_head_min k); [exact E|]. by apply elem_of_select.
Qed.

Lemma query_head_None {K} `{PyOrd K} t p (k : row → K) :
  head (query t p k) = None ↔ ∀ y, y ∈ t → p y = false.
Proof.
  unfold query. split.
  - intros Hn y Hy. apply not_true_iff_false. intros Hp.
    assert (y ∈ sort_by k (select p t)) as Hin by (apply elem_of_sort_by, elem_of_select; done).
    destruct (sort_by k (select p t)); [by apply not_elem_of_nil in Hin|done].
  - intros Hall. by rewrite (select_none p t Hall).
Qed.

Section claims.
Context (unixepoch : string → option Z) (floor interval : Z).

Abbreviation claim := (claim_next_run unixepoch floor interval).
Abbreviation order := (claim_order unixepoch floor interval).
Abbreviation effective := (effective_priority unixepoch floor interval).

Definition queued (r : row) : bool := is_text r "state" "queued".

Lemma claim_row_id w now r : col (claim_row w now r) "id" = col r "id".
Proof. unfold claim_row. by rewrite !col_insert_ne. Qed.

Lemma claim_inv w now d out d' :
  keyed "id" d.(runs) → claim w now d = (out, d') →
  (out = Ok None ∧ d' = d ∧ ∀ r, r ∈ d.(runs) → queued r = false) ∨
  ∃ x, x ∈ d.(runs) ∧ queued x = true ∧
    (∀ y, y ∈ d.(runs) → queued y = true → py_le (order now x) (order now y) = true) ∧
    out = Ok (Some (claim_row w now x)) ∧
    d' = set_runs (update_where (λ r, with_id (str x "id") r && queued r) (claim_row w now)) d.
Proof.
  intros Hk. unfold claim_next_run, write, fetchone. fold queued.
  change (λ r, is_text r "state" "queued") with queued.
  destruct (head (query d.(runs) queued (order now))) as [x|] eqn:E.
  - intros [= <- <-]. right. apply query_head in E as (Hx & Hq & Hmin).
    destruct (proj2 Hk x Hx) as [s Hs]. exists x. split_and!; [done..| |done].
    f_equal. cbn [runs set_runs]. rewrite (str_id _ _ _ Hs).
    set (t' := update_where (λ r, with_id s r && queued r) (claim_row w now) d.(runs)).
    assert (keyed "id" t') as Hk' by (apply keyed_update; [apply claim_row_id|done]).
    assert (claim_row w now x ∈ t') as Hin.
    { apply elem_of_update_where. exists x. split; [done|].
      unfold with_id. by rewrite (proj2 (is_text_spec _ _ _) Hs), Hq. }
    unfold with_id. erewrite keyed_find; [done|done|exact Hin|]. by rewrite claim_row_id.
  - intros [= <- <-]. left. by rewrite query_head_None in E.
Qed.

(** C25: claiming is exact.  On a table with a primary key, a claim returns nothing
    only if nothing is queued; otherwise it takes a queued run that is least in
    the order (effective priority, queue time, id), marks that run RUNNING for
    the worker, keeps an earlier start time, and changes no other run. *)
Theorem claim_next_run_exact w now d :
  keyed "id" d.(runs) →
  match claim w now d with
  | (Ok None, d') => d' = d ∧ ∀ r, r ∈ d.(runs) → queued r = false
  | (Ok (Some y), d') =>
      ∃ x, x ∈ d.(runs) ∧ queued x = true ∧
        (∀ z, z ∈ d.(runs) → queued z = true → py_le (order now x) (order now z) = true) ∧
        col y "id" = col x "id" ∧ col y "state" = VText "running" ∧ col y "worker_id" = VText w ∧
        (col x "started_at" ≠ VNull → col y "started_at" = col x "started_at") ∧
        y ∈ d'.(runs) ∧ ∀ z, z ∈ d.(runs) → z ≠ x → z ∈ d'.(runs)
  | (Err _, _) => False
  end.
Proof.
  intros Hk. destruct (claim w now d) as [out d'] eqn:E.
  apply claim_inv in E as [(-> & -> & Hn)|(x & Hx & Hq & Hmin & -> & ->)]; [by split|..|done].
  exists x. destruct (proj2 Hk x Hx) as [s Hs].
  assert (∀ z, z ∈ d.(runs) → (with_id (str x "id") z && queued z) = true → z = x) as Honly.
  { intros z Hz [Hi _]%andb_true_iff. unfold with_id in Hi. rewrite (str_id _ _ _ Hs) in Hi.
    apply is_text_spec in Hi. eapply keyed_inj; [done..|congruence]. }
  split_and!; [done..|apply claim_row_id| | | | |].
  - unfold claim_row. by rewrite col_insert.
  - unfold claim_row. by rewrite col_insert_ne, col_insert.
  - intros Hst. unfold claim_row. rewrite !(col_insert_ne _ _ "started_at") by done.
    rewrite col_insert. by destruct (col x "started_at").
  - apply elem_of_update_where. exists x. split; [done|].
    unfold with_id. by rewrite (str_id _ _ _ Hs), (proj2 (is_text_spec _ _ _) Hs), Hq.
  - intros z Hz Hne. apply elem_of_update_where. exists z. split; [done|].
    destruct (with_id (str x "id") z && queued z) eqn:Ep; [|done]. by destruct Hne; apply Honly.
Qed.

(** a run is claimed at most once.  Two claims in a row, by any workers at any
    times, never return the same run. *)
Theorem claim_exclusive w1 w2 now1 now2 d d1 d2 y1 y2 :
  keyed "id" d.(runs) →
  claim w1 now1 d = (Ok (Some y1), d1) → claim w2 now2 d1 = (Ok (Some y2), d2) →
  col y1 "id" ≠ col y2 "id".
Proof.
  intros Hk H1 H2.
  apply claim_inv in H1 as [(? & _)|(x1 & Hx1 & Hq1 & _ & Heq1 & ->)]; [done| |done].
  assert (keyed "id" (set_runs (update_where (λ r, with_id (str x1 "id") r && queued r) (claim_row w1 now1)) d).(runs))
    as Hk' by (apply keyed_update; [apply claim_row_id|done]).
  apply claim_inv in H2 as [(? & _)|(x2 & Hx2 & Hq2 & _ & Heq2 & _)]; [done| |done].
  injection Heq1 as ->. injection Heq2 as ->. rewrite !claim_row_id. intros Hid.
  destruct (proj2 Hk x1 Hx1) as [s Hs].
  apply elem_of_update_where in Hx2 as (a & Ha & ->).
  destruct (with_id (str x1 "id") a && queued a) eqn:Ep.
  - unfold queued, claim_row in Hq2. by rewrite is_text_spec, col_insert in Hq2.
  - assert (a = x1) as -> by by apply (keyed_inj "id" d.(runs)).
    unfold with_id in Ep. rewrite (str_id _ _ _ Hs), Hq1, andb_true_r in Ep.
    by apply is_text_false in Ep.
Qed.

Lemma effective_ge now r e : effective now r = Some e → (floor ≤ e)%Z.
Proof.
  unfold effective_priority. destruct (int r "priority"), (unixepoch now),
    (text r "queued_at" ≫= unixepoch); try done. intros [= <-]. lia.
Qed.

Lemma effective_aged now r p t q :
  (0 ≤ floor)%Z → (0 < interval)%Z → priority_ok r = true →
  int r "priority" = Some p → unixepoch now = Some t → text r "queued_at" ≫= unixepoch = Some q →
  (3 * interval ≤ t - q)%Z → effective now r = Some floor.
Proof.
  intros Hf Hi Hp Hpr Ht Hq Hage. unfold effective_priority. rewrite Hpr, Ht, Hq. f_equal.
  assert (p ≤ 3)%Z.
  { unfold priority_ok, int in *. destruct (col r "priority"); simplify_eq/=. bool_prop. lia. }
  assert (3 ≤ Z.max 0 (t - q) / interval)%Z by (apply Z.div_le_lower_bound; lia). lia.
Qed.

(** aging prevents starvation.  A queued run that has waited three aging
    intervals is at the priority floor, so whatever is claimed while it waits was
    queued no later, however urgent newer work is. *)
Theorem aged_run_not_overtaken w now d d' x y p t q :
  (0 ≤ floor)%Z → (0 < interval)%Z → keyed "id" d.(runs) →
  x ∈ d.(runs) → queued x = true → priority_ok x = true →
  int x "priority" = Some p → unixepoch now = Some t → text x "queued_at" ≫= unixepoch = Some q →
  (3 * interval ≤ t - q)%Z →
  (∀ z, z ∈ d.(runs) → queued z = true → is_Some (effective now z)) →
  claim w now d = (Ok (Some y), d') →
  ∃ z, z ∈ d.(runs) ∧ col y "id" = col z "id" ∧ effective now z = Some floor ∧
    py_le (text z "queued_at") (text x "queued_at") = true.
Proof.
  intros Hf Hi Hk Hx Hq Hp Hpx Ht Hqx Hage Hread Hclaim.
  apply claim_inv in Hclaim as [(? & _)|(z & Hz & Hzq & Hmin & Heq & _)]; [done| |done].
  injection Heq as ->. exists z. split; [done|]. split; [apply claim_row_id|].
  pose proof (effective_aged _ _ _ _ _ Hf Hi Hp Hpx Ht Hqx Hage) as Hex.
  destruct (Hread z Hz Hzq) as [e He]. pose proof (effective_ge _ _ _ He) as Hge.
  specialize (Hmin x Hx Hq). unfold claim_order in Hmin. rewrite Hex, He in Hmin.
  apply py_le_fst in Hmin. pose proof (py_le_fst _ _ _ _ Hmin) as Hef.
  assert (e = floor) as ->.
  { unfold py_le in Hef. simpl in Hef. destruct (Z.compare_spec e floor); [done|lia|done]. }
  by rewrite py_le_snd in Hmin.
Qed.
End claims.

(** ** Reclaiming *)

Section reclaiming.
Context (w2 cutoff now : string).

Lemma take_over_id r : col (take_over w2 now r) "id" = col r "id".
Proof. unfold take_over. by rewrite !col_insert_ne. Qed.

Lemma take_over_idem r : take_over w2 now (take_over w2 now r) = take_over w2 now r.
Proof.
  unfold take_over. apply map_eq. intros c. rewrite !lookup_insert. by repeat case_decide.
Qed.

Lemma with_id_take_over i r : with_id i (take_over w2 now r) = with_id i r.
Proof. unfold with_id, is_text. by rewrite take_over_id. Qed.

Definition one_of (ids : list string) (r : row) : bool := existsb (λ i, with_id i r) ids.

Lemma take_over_all ids d :
  foldl (λ d i, set_runs (update_where (with_id i) (take_over w2 now)) d) d ids =
  set_runs (update_where (one_of ids) (take_over w2 now)) d.
Proof.
  revert d. induction ids as [|i ids IH]; intros d; simpl.
  - destruct d. unfold set_runs. simpl. f_equal. unfold update_where. symmetry. apply map_id.
  - rewrite IH. unfold set_runs. simpl. f_equal. unfold update_where. rewrite map_map.
    apply map_ext. intros r. unfold one_of. simpl. destruct (with_id i r) eqn:Ei; simpl; [|done].
    case_match; [apply take_over_idem|done].
Qed.

Lemma fenced_update i d w1 (Hfence : ∀ r, r ∈ d.(runs) → with_id i r = true → is_text r "worker_id" w1 = false)
    fields :
  (update_run i fields (Some w1) d).1 ≠ Ok true ∧ (update_run i fields (Some w1) d).2 = d ∧
  ∀ seq, (upsert_step i seq fields (Some w1) d).1 ≠ Ok true ∧ (upsert_step i seq fields (Some w1) d).2 = d.
Proof.
  assert (∀ r, r ∈ d.(runs) → (with_id i r && is_text r "worker_id" w1) = false) as Hp.
  { intros r Hr. destruct (with_id i r) eqn:E; simpl; [by apply Hfence|done]. }
  pose proof (select_none _ _ Hp) as Hs. split_and!.
  - unfold update_run, write. destruct (checked_fields _ _) as [values|]; simpl; [|done].
    rewrite Hs. case_bool_decide; simpl; [done|]. unfold update_checked, rowcount. rewrite Hs. simpl.
    by destruct (existsb _ _).
  - unfold update_run, write. destruct (checked_fields _ _) as [values|]; simpl; [|done].
    case_bool_decide; simpl; [done|]. unfold update_checked.
    destruct (existsb _ _); simpl; [done|]. rewrite update_where_none by (unfold rowcount; by rewrite Hs). by destruct d.
  - intros seq. unfold upsert_step, write. destruct (checked_fields _ _) as [values|]; simpl; [|done].
    by rewrite Hs.
Qed.

(** reclaiming takes exactly the stale work and fences the worker that had it.
    The runs returned are those RUNNING or AWAITING_APPROVAL whose worker has no
    fresh heartbeat; each now belongs to the new worker in an unchanged state, and
    a write by any other worker, to the run or to its steps, reports failure and
    changes nothing. *)
Theorem reclaim_fences_old_worker d rows d' :
  keyed "id" d.(runs) → reclaim_stale_runs w2 cutoff now d = (Ok rows, d') →
  (∀ i, (∃ r, r ∈ rows ∧ col r "id" = VText i) ↔
        ∃ x, x ∈ d.(runs) ∧ col x "id" = VText i ∧ reclaimable cutoff d x = true) ∧
  ∀ r i, r ∈ rows → col r "id" = VText i →
    r ∈ d'.(runs) ∧ col r "worker_id" = VText w2 ∧
    (∃ x, x ∈ d.(runs) ∧ col x "id" = VText i ∧ col x "state" = col r "state") ∧
    ∀ w1 fields, w1 ≠ w2 →
      (update_run i fields (Some w1) d').1 ≠ Ok true ∧ (update_run i fields (Some w1) d').2 = d' ∧
      ∀ seq, (upsert_step i seq fields (Some w1) d').1 ≠ Ok true ∧
             (upsert_step i seq fields (Some w1) d').2 = d'.
Proof.
  intros Hk Hop. unfold reclaim_stale_runs, write in Hop. injection Hop as <- <-.
  rewrite take_over_all. cbn [runs set_runs].
  set (stale := query d.(runs) (reclaimable cutoff d) _).
  set (ids := map _ stale). set (t' := update_where (one_of ids) (take_over w2 now) d.(runs)).
  assert (keyed "id" t') as Hk' by (apply keyed_update; [apply take_over_id|done]).
  assert (∀ i, i ∈ ids ↔ ∃ x, x ∈ d.(runs) ∧ col x "id" = VText i ∧ reclaimable cutoff d x = true) as Hids.
  { intros i. unfold ids. rewrite list_elem_of_fmap. unfold stale. setoid_rewrite elem_of_query. split.
    - intros (x & -> & Hx & Hst). destruct (proj2 Hk x Hx) as [s Hs]. rewrite (str_id _ _ _ Hs). eauto.
    - intros (x & Hx & Hi & Hst). exists x. by rewrite (str_id _ _ _ Hi). }
  assert (∀ i r, i ∈ ids → r ∈ t' → col r "id" = VText i → ∃ x, x ∈ d.(runs) ∧ r = take_over w2 now x) as Htaken.
  { intros i r Hi (x & Hx & ->)%elem_of_update_where Hri. exists x. split; [done|].
    enough (one_of ids x = true) as -> by done. unfold one_of. apply existsb_exists. exists i.
    split; [by apply list_elem_of_In|]. apply is_text_spec. case_match; [by rewrite take_over_id in Hri|done]. }
  assert (∀ i, i ∈ ids → ∃ r, r ∈ t' ∧ col r "id" = VText i) as Hex.
  { intros i Hi. destruct (proj1 (Hids i) Hi) as (x & Hx & Hxi & _).
    eexists. split; [apply elem_of_update_where; by exists x|]. case_match; by rewrite ?take_over_id. }
  assert (∀ r i, col r "id" = VText i →
    r ∈ omap (λ i, fetchone (select (with_id i) t')) ids ↔ i ∈ ids ∧ r ∈ t') as Hrows.
  { intros r i Hri. rewrite list_elem_of_omap. split.
    - intros (j & Hj & Hr). apply head_Some_elem_of in Hr. apply elem_of_select in Hr as [Hr Hj'].
      apply is_text_spec in Hj'. assert (i = j) as -> by congruence. done.
    - intros [Hi Hr]. exists i. split; [done|]. unfold with_id. by rewrite (keyed_find _ _ _ _ Hk' Hr Hri). }
  split.
  - intros i. rewrite <-Hids. split.
    + intros (r & Hr & Hri). by apply (Hrows r i Hri) in Hr as [? _].
    + intros Hi. destruct (Hex i Hi) as (r & Hr & Hri). exists r. split; [|done]. by apply (Hrows r i Hri).
  - intros r i Hr Hri. apply (Hrows r i Hri) in Hr as [Hi Hr]. split; [done|].
    destruct (Htaken i r Hi Hr Hri) as (x & Hx & ->). rewrite take_over_id in Hri. split; [|split].
    + unfold take_over. by rewrite col_insert.
    + exists x. unfold take_over. by rewrite !col_insert_ne.
    + intros w1 fields Hne. apply fenced_update. cbn [runs set_runs]. intros r Hr' Hri'%is_text_spec.
      destruct (Htaken i r Hi Hr' Hri') as (y & _ & ->). apply is_text_false. unfold take_over.
      rewrite col_insert. congruence.
Qed.
End reclaiming.

(** ** Idempotency receipts *)

Inductive receipt_step (d : db) : db → Prop :=
  | step_insert key run name now : receipt_step d (idem_insert key run name now d).2
  | step_complete key result now : receipt_step d (idem_complete key result now d).2
  | step_release key : receipt_step d (idem_release key d).2.

(** What a completed receipt of [key] is. *)
Definition completed (key : string) (d : db) : Prop :=
  ∃ r, idem_get key d = Some r ∧ col r "result_json" ≠ VNull.

Lemma idem_get_Some key d r :
  keyed "key" d.(idempotency) → idem_get key d = Some r ↔ r ∈ d.(idempotency) ∧ col r "key" = VText key.
Proof.
  intros Hk. unfold idem_get, fetchone. split.
  - intros [Hr Hkey]%head_Some_elem_of%elem_of_select. split; [done|]. by apply is_text_spec in Hkey.
  - intros [Hr Hkey]. unfold with_key. by rewrite (keyed_find _ _ _ _ Hk Hr Hkey).
Qed.

Lemma idem_get_None key d : idem_get key d = None ↔ existsb (with_key key) d.(idempotency) = false.
Proof.
  unfold idem_get, fetchone, select. induction d.(idempotency) as [|r t IH]; simpl; [done|].
  by destruct (with_key key r).
Qed.

Lemma receipt_step_keyed d d' :
  keyed "key" d.(idempotency) → receipt_step d d' → keyed "key" d'.(idempotency).
Proof.
  intros Hk []; simpl.
  - unfold idem_insert, write. destruct (existsb _ _) eqn:E; simpl; [done|].
    by apply (keyed_app _ _ _ key).
  - apply keyed_update; [|done]. intros r. by rewrite !col_insert_ne.
  - by apply keyed_filter.
Qed.

Lemma receipt_step_completed d d' key :
  keyed "key" d.(idempotency) → receipt_step d d' → completed key d → completed key d'.
Proof.
  intros Hk Hst. pose proof (receipt_step_keyed _ _ Hk Hst) as Hk'.
  intros (r & [Hr Hkey]%idem_get_Some & Hres); [|done].
  assert (∀ r', r' ∈ d'.(idempotency) → col r' "key" = VText key → col r' "result_json" ≠ VNull →
    completed key d') as Hdone by (intros r' ???; exists r'; by rewrite idem_get_Some).
  destruct Hst as [k run name now|k result now|k].
  - apply (Hdone r); [|done..]. unfold idem_insert, write.
    destruct (existsb _ _); simpl; [done|]. apply elem_of_app; by left.
  - set (r' := if with_key k r then <["result_json" := VText result]> (<["completed_at" := VText now]> r) else r).
    apply (Hdone r').
    + apply elem_of_update_where. by exists r.
    + unfold r'. case_match; [|done]. by rewrite !col_insert_ne.
    + unfold r'. case_match; [by rewrite col_insert|done].
  - apply (Hdone r); [|done..]. simpl. apply elem_of_select. split; [done|]. apply negb_true_iff.
    unfold uncompleted. destruct (col r "result_json"); try done; by rewrite andb_false_r.
Qed.

(** C26: a receipt is taken by one caller, and a completed one is permanent.  An
    insert succeeds exactly when the key has no receipt.  Once the result is
    recorded, no sequence of inserts, completions and releases, of any keys, removes
    it: later inserts and releases of that key report failure, so the side effect is
    not run again. *)
Theorem receipt_at_most_once key d d' :
  keyed "key" d.(idempotency) → rtc receipt_step d d' →
  keyed "key" d'.(idempotency) ∧
  (∀ run name now, (idem_insert key run name now d').1 = Ok (bool_decide (idem_get key d' = None))) ∧
  (completed key d →
     completed key d' ∧ ∀ run name now,
       (idem_insert key run name now d').1 = Ok false ∧ idem_release key d' = (Ok false, d')).
Proof.
  intros Hk Hrtc. 
  assert (keyed "key" d'.(idempotency) ∧ (completed key d → completed key d')) as [Hk' Hc].
  { induction Hrtc as [|x y z Hxy _ IH]; [done|].
    destruct (IH (receipt_step_keyed _ _ Hk Hxy)) as [? Hc]. split; [done|].
    intros Hx. by apply Hc, (receipt_step_completed x). }
  assert (∀ run name now,
    (idem_insert key run name now d').1 = Ok (bool_decide (idem_get key d' = None))) as Hins.
  { intros. unfold idem_insert, write. destruct (existsb _ _) eqn:E; simpl.
    - rewrite bool_decide_false; [done|]. rewrite idem_get_None. congruence.
    - by rewrite bool_decide_true by by apply idem_get_None. }
  split; [done|]. split; [done|]. intros Hd. pose proof (Hc Hd) as Hd'. split; [done|].
  destruct Hd' as (r & Hr & Hres). intros run name now. split; [by rewrite Hins, Hr|].
  apply idem_get_Some in Hr as [Hr Hkey]; [|done].
  assert (∀ x, x ∈ d'.(idempotency) → uncompleted key x = false) as Hnone.
  { intros x Hx. unfold uncompleted, with_key. destruct (is_text x "key" key) eqn:E; [|done].
    apply is_text_spec in E. assert (x = r) as -> by (apply (keyed_inj "key" d'.(idempotency)); congruence).
    by destruct (col r "result_json"). }
  unfold idem_release, write. pose proof (select_none _ _ Hnone) as Hsel. f_equal.
  - unfold rowcount. by rewrite Hsel.
  - unfold set_idempotency. rewrite filter_all; [by destruct d'|]. intros x Hx. by rewrite (Hnone x Hx).
Qed.

(** ** Approvals *)

Inductive approval_step (d : db) : db → Prop :=
  | step_create values : approval_step d (create_approval values d).2
  | step_decide id state by_ note now : approval_step d (decide_approval id state by_ note now d).2
  | step_void run note now : approval_step d (void_pending_approvals run note now d).2.

Lemma approval_step_settled d d' r :
  approval_step d d' → r ∈ d.(approvals) → pending_approval r = false → r ∈ d'.(approvals).
Proof.
  intros Hst Hr Hp. destruct Hst as [values|id state by_ note now|run note now].
  - unfold create_approval, write. destruct (checked_fields _ _) as [v|]; simpl; [|done].
    destruct (insert_checked _ _ _); simpl; [|done]. apply elem_of_app. by left.
  - apply elem_of_update_where. exists r. by rewrite Hp, andb_false_r.
  - apply elem_of_update_where. exists r. by rewrite Hp, andb_false_r.
Qed.

(** an approval is decided once.  A decision reports success exactly when the
    approval is pending, and records who decided, what and when on that approval
    only.  A settled approval is never changed again, whatever is created, decided
    or voided afterwards. *)
Theorem approval_decided_once d id state by_ note now :
  keyed "id" d.(approvals) →
  ((decide_approval id state by_ note now d).1 = Ok true ↔
     ∃ r, r ∈ d.(approvals) ∧ col r "id" = VText id ∧ col r "state" = VText "pending") ∧
  (∀ r, r ∈ d.(approvals) → col r "id" = VText id → col r "state" = VText "pending" →
     let r' := decide_row state by_ note now r in
     r' ∈ (decide_approval id state by_ note now d).2.(approvals) ∧
     col r' "state" = VText state ∧ col r' "decided_by" = VText by_ ∧ col r' "decided_at" = VText now) ∧
  (∀ r, r ∈ d.(approvals) → col r "id" ≠ VText id → r ∈ (decide_approval id state by_ note now d).2.(approvals)) ∧
  ∀ r d', r ∈ d.(approvals) → col r "state" ≠ VText "pending" → rtc approval_step d d' →
    r ∈ d'.(approvals) ∧
    (col r "id" = VText id → keyed "id" d'.(approvals) →
       (decide_approval id state by_ note now d').1 = Ok false).
Proof.
  intros Hk.
  assert (∀ d0, (decide_approval id state by_ note now d0).1 =
    Ok (bool_decide (0 < rowcount (λ r, with_id id r && pending_approval r) d0.(approvals)))) as Hres by done.
  assert (∀ r, (with_id id r && pending_approval r) = true ↔
    col r "id" = VText id ∧ col r "state" = VText "pending") as Hp.
  { intros r. unfold with_id, pending_approval. by rewrite andb_true_iff, !is_text_spec. }
  split_and!.
  - rewrite Hres. split.
    + intros [= (r & Hr & [??]%Hp)%bool_decide_eq_true%rowcount_pos]. eauto.
    + intros (r & Hr & Hid & Hs). f_equal. apply bool_decide_eq_true, rowcount_pos. exists r. by rewrite Hp.
  - intros r Hr Hid Hs. split_and!.
    + apply elem_of_update_where. exists r. by rewrite (proj2 (Hp r) (conj Hid Hs)).
    + unfold decide_row. by rewrite col_insert.
    + unfold decide_row. by rewrite col_insert_ne, col_insert.
    + unfold decide_row. by rewrite !(col_insert_ne _ _ "decided_at"), col_insert by done.
  - intros r Hr Hid. apply elem_of_update_where. exists r. split; [done|].
    destruct (with_id id r && pending_approval r) eqn:E; [|done]. by apply Hp in E as [??].
  - intros r d' Hr Hs Hrtc. assert (r ∈ d'.(approvals)) as Hr'.
    { apply is_text_false in Hs. clear -Hr Hs Hrtc. induction Hrtc as [|x y z Hxy _ IH]; [done|].
      apply IH. by eapply approval_step_settled. }
    split; [done|]. intros Hid Hk'. rewrite Hres. f_equal. apply bool_decide_eq_false.
    intros (x & Hx & [Hxi Hxs]%Hp)%rowcount_pos.
    assert (x = r) as -> by (apply (keyed_inj "id" d'.(approvals)); congruence). done.
Qed.

(** ** Events *)

(** A log that started empty. *)
Definition insert_all (es : list (new_event * string)) (d : db) : db :=
  foldl (λ d e, (insert_event e.1 e.2 d).2) (set_events (λ _, []) 0%Z d) es.

Definition numbers (c : string) (t : table) : list (option Z) := map (λ r, int r c) t.
Definition of_execution (e : string) (r : row) : bool := is_text r "execution_id" e.

Definition log_ok (d : db) : Prop :=
  d.(last_event_id) = Z.of_nat (length d.(events)) ∧
  numbers "id" d.(events) = Some <$> seqZ 1 (Z.of_nat (length d.(events))) ∧
  ∀ e, e ≠ "" →
    let l := select (of_execution e) d.(events) in
    numbers "sequence" l = Some <$> seqZ 1 (Z.of_nat (length l)).

Lemma seqZ_succ n : seqZ 1 (Z.of_nat (S n)) = seqZ 1 (Z.of_nat n) ++ [Z.of_nat n + 1]%Z.
Proof. rewrite Nat2Z.inj_succ. apply seqZ_snoc. lia. Qed.

(** SQL's [MAX] over the column, 0 for no row. *)
Lemma max_of_numbers c t :
  numbers c t = Some <$> seqZ 1 (Z.of_nat (length t)) →
  foldr (λ r m, match int r c with Some n => Z.max n m | None => m end) 0%Z t = Z.of_nat (length t).
Proof.
  intros Ht. pose (big := λ (o : option Z) m, match o with Some n => Z.max n m | None => m end).
  assert (∀ n a, (0 ≤ a)%Z → foldr big 0%Z (Some <$> seqZ a (Z.of_nat n)) =
    if decide (n = 0) then 0%Z else (a + Z.of_nat n - 1)%Z) as Hgen.
  { clear. intros n. induction n as [|n IH]; intros a Ha; [done|].
    rewrite seqZ_cons by lia. replace (Z.pred (Z.of_nat (S n))) with (Z.of_nat n) by lia.
    cbn [fmap list_fmap foldr]. rewrite (IH (Z.succ a)) by lia. unfold big. repeat case_decide; lia. }
  transitivity (foldr big 0%Z (numbers c t)).
  - symmetry. exact (foldr_fmap big 0%Z t (λ r, int r c)).
  - rewrite Ht, Hgen by lia. case_decide; lia.
Qed.

Lemma log_ok_insert e now d : log_ok d → log_ok (insert_event e now d).2.
Proof.
  intros (Hlast & Hids & Hseq). unfold insert_event, write. simpl.
  set (sequence := if bool_decide (ev_execution_id e = "") then None else _).
  set (r := event_row e _ sequence now). unfold log_ok. cbn [events last_event_id set_events].
  rewrite length_app, Nat.add_1_r. split; [|split].
  - lia.
  - unfold numbers in *. rewrite map_app, Hids, seqZ_succ, fmap_app. f_equal.
    transitivity [Some (d.(last_event_id) + 1)%Z]; [done|by rewrite Hlast].
  - intros x Hx. unfold select. rewrite List.filter_app. cbn [List.filter].
    fold (select (of_execution x) d.(events)).
    assert (of_execution x r = bool_decide (ev_execution_id e = x)) as ->.
    { unfold of_execution, is_text. change (col r "execution_id") with
        (if bool_decide (ev_execution_id e = "") then VNull else VText (ev_execution_id e)).
      case_bool_decide as He; simpl.
      - symmetry. apply bool_decide_false. congruence.
      - apply bool_decide_ext. split; congruence. }
    case_bool_decide as Hex; [|rewrite app_nil_r; by apply Hseq].
    rewrite length_app, Nat.add_1_r. unfold numbers in *. rewrite map_app, (Hseq x Hx), seqZ_succ, fmap_app.
    f_equal. subst x. unfold r, sequence. rewrite bool_decide_false by done.
    transitivity [Some (next_event_sequence (ev_execution_id e) d.(events))]; [done|].
    cbn. do 2 f_equal. exact (f_equal (λ n, n + 1)%Z (max_of_numbers "sequence" _ (Hseq _ Hx))).
Qed.

Lemma insert_all_ok es d : log_ok (insert_all es d).
Proof.
  unfold insert_all. assert (log_ok (set_events (λ _, []) 0%Z d)) as H0 by done.
  revert H0. generalize (set_events (λ _, []) 0%Z d). induction es as [|e es IH]; intros d0 H0; [done|].
  simpl. by apply IH, log_ok_insert.
Qed.

(** event sequences have no gap.  In a log built by inserts from empty, the
    events of each execution carry the sequence numbers 1, 2, 3 and so on in
    insertion order, however executions interleave; the ids number the whole log
    in the same way and the newest id is the one reported. *)
Theorem event_sequences_gap_free es d :
  let d' := insert_all es d in
  length d'.(events) = length es ∧
  numbers "id" d'.(events) = Some <$> seqZ 1 (Z.of_nat (length es)) ∧
  latest_event_id d' = Z.of_nat (length es) ∧
  ∀ e, e ≠ "" →
    let l := select (of_execution e) d'.(events) in
    numbers "sequence" l = Some <$> seqZ 1 (Z.of_nat (length l)).
Proof.
  intros d'. assert (length d'.(events) = length es) as Hlen.
  { unfold d', insert_all. change (length es) with (length (@nil row) + length es).
    change (@nil row) with (set_events (λ _, []) 0%Z d).(events) at 2.
    generalize (set_events (λ _, []) 0%Z d). induction es as [|e es IH]; intros d0; simpl; [lia|].
    rewrite IH. simpl. rewrite length_app. simpl. lia. }
  destruct (insert_all_ok es d) as (Hlast & Hids & Hseq). fold d' in Hlast, Hids, Hseq.
  rewrite <-Hlen. split_and!; [done..| |done]. by apply max_of_numbers.
Qed.

(** Rows in strictly increasing id order. *)
Definition id_lt (x y : row) : Prop :=
  ∃ m n, int x "id" = Some m ∧ int y "id" = Some n ∧ (m < n)%Z.
Abbreviation in_id_order := (StronglySorted id_lt).

Lemma numbers_in_order t a :
  numbers "id" t = Some <$> seqZ a (Z.of_nat (length t)) → in_id_order t.
Proof.
  revert a. induction t as [|x t IH]; intros a; [constructor|].
  cbn [length numbers map]. rewrite seqZ_cons by lia. cbn [fmap list_fmap]. intros [= Hx Ht].
  replace (Z.pred (Z.of_nat (S (length t)))) with (Z.of_nat (length t)) in Ht by lia.
  constructor; [by apply (IH (Z.succ a))|]. apply Forall_forall. intros y Hy%(list_elem_of_fmap_2 (λ r, int r "id")).
  change (int y "id" ∈ map (λ r, int r "id") t) in Hy. rewrite Ht in Hy.
  apply list_elem_of_fmap in Hy as (n & Hn & Hin%elem_of_seqZ). exists a, n. split_and!; [done..|lia].
Qed.

Lemma in_order_select p t : in_id_order t → in_id_order (select p t).
Proof.
  induction 1 as [|x t Ht IH Hall]; simpl; [constructor|]. case_match; [|done]. constructor; [done|].
  rewrite Forall_forall in *. intros y [Hy _]%elem_of_select. by apply Hall.
Qed.

Lemma in_order_query p t : in_id_order t → query t p (λ r, int r "id") = select p t.
Proof.
  intros Ht. unfold query. apply (in_order_select p) in Ht. induction Ht as [|x l Hl IH Hall]; [done|].
  simpl. rewrite IH. destruct Hall as [|y l (m & n & Hm & Hn & Hmn) _]; [done|]. simpl.
  enough (py_le (int x "id") (int y "id") = true) as -> by done. rewrite Hm, Hn. unfold py_le. simpl.
  by rewrite (proj2 (Z.compare_lt_iff m n)).
Qed.

Lemma cursor_split l1 r l2 b :
  in_id_order (l1 ++ r :: l2) → int r "id" = Some b → select (id_after b) (l1 ++ r :: l2) = l2.
Proof.
  intros Hs Hb. induction l1 as [|x l1 IH]; simpl; inversion Hs as [|?? Hl Hall]; subst.
  - assert (id_after b r = false) as -> by (unfold id_after; rewrite Hb; lia).
    apply filter_all. intros y Hy. rewrite Forall_forall in Hall. destruct (Hall y Hy) as (m & n & Hm & Hn & ?).
    unfold id_after. rewrite Hn. simplify_eq. by apply Z.ltb_lt.
  - rewrite Forall_forall in Hall. destruct (Hall r ltac:(set_solver)) as (m & n & Hm & Hn & ?).
    assert (id_after b x = false) as -> by (unfold id_after; rewrite Hm; simplify_eq; lia). by apply IH.
Qed.

Lemma cursor_pages q t a n :
  in_id_order t →
  let l := select (λ r, id_after a r && q r) t in
  l = take (S n) l ++ match last (take (S n) l) with
    | Some r => select (λ x, id_after (default 0%Z (int r "id")) x && q x) t
    | None => []
    end.
Proof.
  intros Ht l. rewrite <-(take_drop (S n) l) at 1. f_equal.
  destruct (last (take (S n) l)) as [r|] eqn:Er.
  - apply last_Some in Er as [l1 Hl1].
    assert (l = l1 ++ r :: drop (S n) l) as Hl by (rewrite <-(take_drop (S n) l) at 1; by rewrite Hl1, <-app_assoc).
    assert (r ∈ l) as [_ Hr]%elem_of_select by (rewrite Hl; set_solver).
    apply andb_true_iff in Hr as [Hr _]. unfold id_after in Hr.
    destruct (int r "id") as [b|] eqn:Eb; [|done]. apply Z.ltb_lt in Hr. simpl.
    pose proof (in_order_select (λ r, id_after a r && q r) t Ht) as Hord. fold l in Hord. rewrite Hl in Hord.
    rewrite <-(cursor_split _ _ _ _ Hord Eb), <-Hl. unfold l, select. rewrite filter_filter.
    apply filter_ext. intros x. unfold id_after. destruct (int x "id") as [i|]; [|done].
    destruct (Z.ltb_spec b i), (Z.ltb_spec a i); simpl; try done. lia.
  - apply last_None in Er. destruct l; [done|]. by apply (f_equal length) in Er.
Qed.

(** following the cursor loses and repeats nothing.  Reading a page of at least
    one event after an id and then everything after the id of the page's last event
    gives exactly what one unlimited read gives, with any type filter. *)
Theorem event_cursor_complete es d types after_id n :
  let d' := insert_all es d in
  let page := get_events_after after_id types (Z.of_nat (S n)) d' in
  get_events_after after_id types (-1) d' =
  page ++ match last page with
          | Some r => get_events_after (default 0%Z (int r "id")) types (-1) d'
          | None => []
          end.
Proof.
  intros d'. destruct (insert_all_ok es d) as (_ & Hord%numbers_in_order & _). fold d' in Hord.
  assert (∀ i k, get_events_after i types k d' = limit k (select (λ r, id_after i r &&
    match types with Some ts => existsb (is_text r "type") ts | None => true end) d'.(events))) as Hget.
  { intros i k. unfold get_events_after. rewrite in_order_query by done.
    destruct types as [[|]|]; [|done..]. rewrite select_none by (intros; by rewrite andb_false_r).
    unfold limit. by rewrite take_nil; case_match. }
  assert (∀ l : list row, limit (Z.of_nat (S n)) l = take (S n) l) as Hlim
    by (intros; unfold limit; by rewrite Nat2Z.id).
  intros page. unfold page. rewrite Hget, Hget, Hlim.
  etransitivity; [apply (cursor_pages (λ r,
    match types with Some ts => existsb (is_text r "type") ts | None => true end) _ after_id n Hord)|].
  f_equal. destruct (last _); [|done]. by rewrite Hget.
Qed.

(** ** Pausing and requeueing *)

Definition is_paused (r : row) : bool := is_text r "state" "paused".

Lemma paused_flag_set paused reason now d :
  paused_flag (set_pause paused reason now d).2 = (λ _, paused) <$> paused_flag d.
Proof.
  unfold paused_flag, set_pause, fetchone. cbn [snd pause set_pause_table]. rewrite select_update.
  - destruct (select _ d.(pause)) as [|r l]; simpl; [done|]. rewrite col_insert. by destruct paused.
  - intros r. by rewrite !col_insert_ne.
Qed.

(** the pause switch gates requeueing.  While the switch is on, requeueing does
    nothing; switching it off and requeueing turns every paused run, and no other,
    into a queued run without a worker, and returns their ids. *)
Theorem pause_gates_requeue reason now now' d :
  requeue_paused_runs now' (set_pause true reason now d).2 = (Ok [], (set_pause true reason now d).2) ∧
  (paused_flag d ≠ None →
   let d0 := (set_pause false reason now d).2 in
   d0.(runs) = d.(runs) ∧
   ∃ ids d', requeue_paused_runs now' d0 = (Ok ids, d') ∧
     (∀ i, i ∈ ids ↔ ∃ x, x ∈ d.(runs) ∧ is_paused x = true ∧ str x "id" = i) ∧
     (∀ x, x ∈ d.(runs) → if is_paused x then requeue_row now' x ∈ d'.(runs) else x ∈ d'.(runs)) ∧
     ∀ y, y ∈ d'.(runs) → is_paused y = false).
Proof.
  split.
  - unfold requeue_paused_runs, write. rewrite paused_flag_set. by destruct (paused_flag d).
  - intros Hflag d0. split; [done|]. unfold requeue_paused_runs, write, d0. rewrite paused_flag_set.
    destruct (paused_flag d); [|done]. do 2 eexists. split; [done|]. cbn [runs set_runs]. fold is_paused.
    change (λ r, is_text r "state" "paused") with is_paused. split; [|split].
    + intros i. rewrite list_elem_of_fmap. setoid_rewrite elem_of_query.
      split; [intros (x & -> & Hx & Hp)|intros (x & Hx & Hp & <-)]; eauto.
    + intros x Hx. destruct (is_paused x) eqn:E; apply elem_of_update_where; exists x; by rewrite E.
    + intros y (x & Hx & ->)%elem_of_update_where. destruct (is_paused x) eqn:E; [|done].
      unfold is_paused, requeue_row. apply is_text_false. by rewrite col_insert.
Qed.

(** ** The lifecycle *)

Section lifecycle.
Context (unixepoch : string → option Z) (floor interval : Z).

Inductive queue_step (d : db) : db → Prop :=
  | step_claim w now : queue_step d (claim_next_run unixepoch floor interval w now d).2
  | step_reclaim w cutoff now : queue_step d (reclaim_stale_runs w cutoff now d).2
  | step_cancel id now : queue_step d (request_cancel id now d).2
  | step_requeue now : queue_step d (requeue_paused_runs now d).2.

Definition in_state (r : row) (s : RunState) : Prop := col r "state" = VText (run_state_value s).

Lemma run_state_inj a b : run_state_value a = run_state_value b → a = b.
Proof. by destruct a, b. Qed.

(** One step of the queue moves every run along at most one edge. *)
Lemma queue_step_edge d d' x a :
  keyed "id" d.(runs) → queue_step d d' → x ∈ d.(runs) → in_state x a →
  ∃ y b, y ∈ d'.(runs) ∧ col y "id" = col x "id" ∧ in_state y b ∧ rtc run_step a b.
Proof.
  intros Hk Hst Hx Ha.
  assert (∀ p f, (∀ r, col (f r) "id" = col r "id") → (∀ r, col (f r) "state" = col r "state") →
    ∃ y b, y ∈ update_where p f d.(runs) ∧ col y "id" = col x "id" ∧ in_state y b ∧ rtc run_step a b) as Hsame.
  { intros p f Hid Hs. eexists _, a. split; [apply elem_of_update_where; by exists x|].
    unfold in_state in *. case_match; rewrite ?Hid, ?Hs; split_and!; by try apply rtc_refl. }
  assert (∀ p f b, (∀ r, col (f r) "id" = col r "id") → (∀ r, in_state (f r) b) →
    (p x = true → run_step a b) →
    ∃ y b, y ∈ update_where p f d.(runs) ∧ col y "id" = col x "id" ∧ in_state y b ∧ rtc run_step a b) as Hmove.
  { intros p f b Hid Hs Hstep. destruct (p x) eqn:Ep.
    - exists (f x), b. split; [apply elem_of_update_where; exists x; by rewrite Ep|].
      split_and!; [done..|]. by apply rtc_once, Hstep.
    - exists x, a. split; [apply elem_of_update_where; exists x; by rewrite Ep|]. split_and!; [done..|]. apply rtc_refl. }
  destruct Hst as [w now|w cutoff now|id now|now].
  - destruct (claim_next_run _ _ _ w now d) as [out d'] eqn:E.
    apply claim_inv in E as [(_ & -> & _)|(c & _ & _ & _ & _ & ->)]; [|..|done]; simpl.
    + exists x, a. split_and!; [done..|]. apply rtc_refl.
    + apply (Hmove _ _ RRunning); [apply claim_row_id|intros r; by unfold in_state, claim_row; rewrite col_insert|].
      intros [_ Hq%is_text_spec]%andb_true_iff. unfold in_state in Ha. rewrite Ha in Hq.
      injection Hq as Hq. by apply (run_state_inj a RQueued) in Hq as ->.
  - unfold reclaim_stale_runs, write. simpl. rewrite take_over_all. simpl. apply Hsame; [apply take_over_id|].
    intros r. unfold take_over. by rewrite !col_insert_ne.
  - unfold request_cancel, write. simpl. apply Hsame; intros r; by rewrite !col_insert_ne.
  - unfold requeue_paused_runs, write. destruct (paused_flag d) as [[]|]; simpl;
      [exists x, a; split_and!; by try apply rtc_refl| |exists x, a; split_and!; by try apply rtc_refl].
    apply (Hmove _ _ RQueued); [intros r; unfold requeue_row; by rewrite !col_insert_ne
      |intros r; by unfold in_state, requeue_row; rewrite col_insert|].
    intros Hq%is_text_spec. unfold in_state in Ha. rewrite Ha in Hq.
    injection Hq as Hq. by apply (run_state_inj a RPaused) in Hq as ->.
Qed.

Lemma queue_step_keyed d d' : keyed "id" d.(runs) → queue_step d d' → keyed "id" d'.(runs).
Proof.
  intros Hk [w now|w cutoff now|id now|now].
  - destruct (claim_next_run _ _ _ w now d) as [out d''] eqn:E.
    apply claim_inv in E as [(_ & -> & _)|(c & _ & _ & _ & _ & ->)]; [done| |done].
    apply keyed_update; [apply claim_row_id|done].
  - unfold reclaim_stale_runs, write. simpl. rewrite take_over_all. apply keyed_update; [apply take_over_id|done].
  - apply keyed_update; [|done]. intros r. by rewrite !col_insert_ne.
  - unfold requeue_paused_runs, write. destruct (paused_flag d) as [[]|]; [done| |done].
    apply keyed_update; [|done]. intros r. unfold requeue_row. by rewrite !col_insert_ne.
Qed.

(** the queue follows the run lifecycle.  Whatever sequence of claims, reclaims,
    cancel requests and requeues is made, every run keeps its row, and its state
    only moves along the edges of the transition table; a finished run stays
    finished in the same state. *)
Theorem queue_follows_lifecycle d d' x a :
  keyed "id" d.(runs) → rtc queue_step d d' → x ∈ d.(runs) → in_state x a →
  ∃ y b, y ∈ d'.(runs) ∧ col y "id" = col x "id" ∧ in_state y b ∧ rtc run_step a b ∧
    (a ∈ TERMINAL_RUN_STATES → b = a).
Proof.
  intros Hk Hrtc Hx Ha.
  assert (∃ y b, y ∈ d'.(runs) ∧ col y "id" = col x "id" ∧ in_state y b ∧ rtc run_step a b) as (y & b & ? & ? & ? & Hab).
  { revert x a Hx Ha. induction Hrtc as [d|d d1 d' Hst _ IH]; intros x a Hx Ha.
    - exists x, a. split_and!; by try apply rtc_refl.
    - destruct (queue_step_edge _ _ _ _ Hk Hst Hx Ha) as (y & b & Hy & Hid & Hb & Hab).
      destruct (IH (queue_step_keyed _ _ Hk Hst) y b Hy Hb) as (z & c & ? & ? & ? & ?).
      exists z, c. split_and!; [done|congruence|done|by etransitivity]. }
  exists y, b. split_and!; [done..|]. intros Hterm. inversion Hab as [|? s ? Hst]; subst; [done|].
  by destruct (run_terminal_no_exit a s Hterm).
Qed.
End lifecycle.

(** ** Steps *)

(** UNIQUE(run_id, seq) of well-formed step rows. *)
Definition step_key (r : row) : sql_value * sql_value := (col r "run_id", col r "seq").
Definition steps_keyed (t : table) : Prop :=
  NoDup (map step_key t) ∧ ∀ r, r ∈ t → ∃ i n, step_key r = (VText i, VInt n).

Lemma step_of_spec t i n r : steps_keyed t → r ∈ t → step_of i n r = true ↔ step_key r = (VText i, VInt n).
Proof.
  intros [_ Ht] Hr. destruct (Ht r Hr) as (j & m & [= Hj Hm]). unfold step_of, step_key.
  rewrite andb_true_iff, is_text_spec, Hj, Hm. simpl. rewrite bool_decide_eq_true. naive_solver.
Qed.

Lemma checked_fields_Ok fields allowed values :
  checked_fields fields allowed = Ok values → values = fields ∧ ∀ c, fields !! c ≠ None → c ∈ allowed.
Proof.
  unfold checked_fields. destruct (sort_by _ _) eqn:E; [|done]. intros [= <-]. split; [done|].
  intros c Hc. destruct (decide (c ∈ allowed)) as [|Hn]; [done|]. exfalso.
  destruct (fields !! c) as [v|] eqn:Ev; [|done].
  assert (c ∈ sort_by (λ c, c) (List.filter (λ c, negb (bool_decide (c ∈ allowed))) (map fst (map_to_list fields)))) as Hin.
  { apply elem_of_sort_by. apply (elem_of_select (λ c, negb (bool_decide (c ∈ allowed)))). split.
    - apply (list_elem_of_fmap_2' fst _ (c, v)); [by apply elem_of_map_to_list|done].
    - by rewrite bool_decide_false. }
  rewrite E in Hin. by apply not_elem_of_nil in Hin.
Qed.

Lemma step_columns_own c : c ∈ STEP_COLUMNS → c ≠ "id" ∧ c ≠ "run_id" ∧ c ≠ "seq".
Proof.
  unfold STEP_COLUMNS. rewrite !elem_of_cons, elem_of_nil.
  intros Hc. repeat destruct Hc as [->|Hc]; [done..|]. by destruct Hc.
Qed.

Lemma assign_step_key fields r :
  (∀ c, fields !! c ≠ None → c ∈ STEP_COLUMNS) → step_key (assign fields r) = step_key r.
Proof.
  intros Hf. unfold step_key. rewrite !col_assign.
  assert (∀ c, c = "run_id" ∨ c = "seq" → fields !! c = None) as Hn.
  { intros c Hc. destruct (fields !! c) eqn:E; [|done].
    destruct (step_columns_own c) as (? & ? & ?); [apply Hf; by rewrite E|]. by destruct Hc. }
  by rewrite (Hn "run_id"), (Hn "seq") by auto.
Qed.

(** The table [t'] is [t] with one row for (run, seq) that has the fields. *)
Definition step_written (run : string) (seq : Z) (fields : row) (t t' : table) : Prop :=
  steps_keyed t' ∧
  (∃ r, r ∈ t' ∧ step_key r = (VText run, VInt seq) ∧ ∀ c v, fields !! c = Some v → col r c = v) ∧
  (∀ r, r ∈ t → step_key r ≠ (VText run, VInt seq) → r ∈ t').

Lemma step_inserted run seq fields t r :
  steps_keyed t → (∀ r, r ∈ t → step_of run seq r = false) →
  step_key r = (VText run, VInt seq) → (∀ c v, fields !! c = Some v → col r c = v) →
  step_written run seq fields t (t ++ [r]).
Proof.
  intros Hk Hnone Hr Hf. split; [|split].
  - split.
    + rewrite map_app. apply NoDup_app. split; [apply Hk|]. split; [|apply NoDup_singleton].
      intros k (x & -> & Hx)%list_elem_of_fmap Hxr%list_elem_of_singleton. rewrite Hr in Hxr.
      apply (step_of_spec t) in Hxr; [|done..]. by rewrite Hnone in Hxr.
    + intros x [Hx|Hx%list_elem_of_singleton]%elem_of_app; [by apply (proj2 Hk)|]. subst. eauto.
  - exists r. split; [|done]. apply elem_of_app. right. by apply list_elem_of_singleton.
  - intros x Hx _. apply elem_of_app. by left.
Qed.

Lemma step_updated run seq fields t x :
  steps_keyed t → (∀ c, fields !! c ≠ None → c ∈ STEP_COLUMNS) →
  x ∈ t → step_of run seq x = true →
  step_written run seq fields t (update_where (step_of run seq) (assign fields) t).
Proof.
  intros Hk Hf Hx Hp. pose proof (assign_step_key fields) as Hkey.
  split; [|split].
  - split; [rewrite update_where_map by auto; apply Hk|].
    intros r (y & Hy & ->)%elem_of_update_where. case_match; rewrite ?Hkey by done; by apply (proj2 Hk).
  - exists (assign fields x). split; [apply elem_of_update_where; exists x; by rewrite Hp|].
    split; [rewrite Hkey by done; by apply (step_of_spec t)|]. intros c v Hc. by rewrite col_assign, Hc.
  - intros r Hr Hne. apply elem_of_update_where. exists r. split; [done|].
    destruct (step_of run seq r) eqn:E; [|done]. by apply (step_of_spec t) in E.
Qed.

Lemma upsert_step_inv run seq fields worker d :
  steps_keyed d.(steps) →
  let '(out, d') := upsert_step run seq fields worker d in
  (out ≠ Ok true ∧ d' = d) ∨
  out = Ok true ∧ step_written run seq fields d.(steps) d'.(steps) ∧
  ∃ x, x ∈ d.(runs) ∧ with_id run x = true ∧ worker_matches worker x = true.
Proof.
  intros Hk. unfold upsert_step, write.
  destruct (checked_fields fields STEP_COLUMNS) as [values|] eqn:Ec; simpl; [|by left].
  apply checked_fields_Ok in Ec as [-> Hf]. unfold fetchone.
  destruct (head (select (λ r, with_id run r && worker_matches worker r) d.(runs))) as [x|] eqn:Ex; [|by left].
  apply head_Some_elem_of in Ex. apply elem_of_select in Ex as [Hx [Hid Hw]%andb_true_iff].
  destruct (select (step_of run seq) d.(steps)) as [|y l] eqn:Ey; simpl.
  - unfold insert_checked. rewrite bool_decide_false by apply insert_non_empty.
    set (r := assign _ step_defaults). destruct (step_ok d r); simpl; [|by left]. right.
    split; [done|]. split; [|by eauto]. apply step_inserted; [done|..].
    + intros z Hz. apply not_true_iff_false. intros Hp.
      assert (z ∈ select (step_of run seq) d.(steps)) as Hin by by apply elem_of_select.
      rewrite Ey in Hin. by apply not_elem_of_nil in Hin.
    + unfold step_key, r. rewrite !col_assign. by simplify_map_eq.
    + intros c v Hc. unfold r. rewrite col_assign.
      destruct (step_columns_own c) as (? & ? & ?); [apply Hf; congruence|].
      by rewrite !lookup_insert_ne, Hc by done.
  - assert (y ∈ select (step_of run seq) d.(steps)) as [Hy Hp]%elem_of_select by (rewrite Ey; apply list_elem_of_here).
    pose proof (step_updated run seq fields _ y Hk Hf Hy Hp) as Hup. case_bool_decide as Hemp; simpl.
    + right. split; [done|]. split; [|by eauto]. subst fields. split; [done|]. split; [|done].
      exists y. split; [done|]. split; [by apply (step_of_spec d.(steps))|]. intros c v Hc. by rewrite lookup_empty in Hc.
    + unfold update_checked. destruct (existsb _ _); simpl; [by left|]. right. eauto 6.
Qed.

(** a step write is an upsert on (run, sequence).  If the run exists and the
    expected worker still holds it, the write leaves exactly one row for that run and
    sequence number, holding every given field, and keeps all other steps; in every
    other case nothing changes. *)
Theorem upsert_step_exact run seq fields worker d :
  steps_keyed d.(steps) →
  match upsert_step run seq fields worker d with
  | (Ok true, d') =>
      steps_keyed d'.(steps) ∧
      (∃ r, r ∈ d'.(steps) ∧ step_key r = (VText run, VInt seq) ∧
        (∀ c v, fields !! c = Some v → col r c = v) ∧
        ∀ r', r' ∈ d'.(steps) → step_key r' = (VText run, VInt seq) → r' = r) ∧
      (∀ r, r ∈ d.(steps) → step_key r ≠ (VText run, VInt seq) → r ∈ d'.(steps)) ∧
      ∃ x, x ∈ d.(runs) ∧ with_id run x = true ∧ worker_matches worker x = true
  | (_, d') => d' = d
  end.
Proof.
  intros Hk. pose proof (upsert_step_inv run seq fields worker d Hk) as Hinv.
  destruct (upsert_step run seq fields worker d) as [out d'].
  destruct Hinv as [[Hout ->]|(-> & ([Hnd Ht] & (r & Hr & Hkey & Hf) & Hother) & Hx)].
  - by destruct out as [[]|].
  - split; [done|]. split; [|done]. exists r. split_and!; [done..|]. intros r' Hr' Hkey'.
    apply (NoDup_map_inj step_key d'.(steps)); congruence.
Qed.

(** ** A concrete database *)

Definition keyedb (c : string) (t : table) : bool :=
  bool_decide (NoDup (map (λ r, col r c) t)) && forallb (λ r, match col r c with VText _ => true | _ => false end) t.

Lemma keyedb_spec c t : keyedb c t = true → keyed c t.
Proof.
  intros [Hnd Ht]%andb_true_iff. split; [by apply bool_decide_eq_true in Hnd|].
  intros r Hr. rewrite forallb_forall in Ht. specialize (Ht r). rewrite <-list_elem_of_In in Ht.
  specialize (Ht Hr). destruct (col r c); try done. eauto.
Qed.

Definition demo_epoch (t : string) : option Z :=
  if bool_decide (t = "09:00") then Some 32400%Z
  else if bool_decide (t = "09:50") then Some 35400%Z
  else if bool_decide (t = "10:00") then Some 36000%Z
  else None.

Definition demo_run (id state : string) (worker : sql_value) (priority : Z) (queued_at : string) : row :=
  list_to_map [("id", VText id); ("state", VText state); ("worker_id", worker);
    ("priority", VInt priority); ("queued_at", VText queued_at)].
Definition demo_old : row := demo_run "run_old" "queued" VNull 3 "09:00".
Definition demo_urgent : row := demo_run "run_urgent" "queued" VNull 0 "09:50".
Definition demo_busy : row := demo_run "run_busy" "running" (VText "w1") 2 "09:00".
Definition demo_receipt : row := list_to_map [("key", VText "send:1"); ("result_json", VText "{}")].
Definition demo_approval (id state : string) : row := list_to_map [("id", VText id); ("state", VText state)].
Definition demo_step : row := list_to_map
  [("run_id", VText "run_busy"); ("seq", VInt 1); ("status", VText "pending"); ("name", VText "build");
   ("action_class", VText "sandboxed_creation"); ("checkpoint_json", VText "{}")].
Definition demo_db : db :=
  mkDb [demo_old; demo_urgent; demo_busy] [demo_step] [demo_receipt] [] []
    [demo_approval "apr_1" "pending"; demo_approval "apr_2" "rejected"] [] []
    [list_to_map [("id", VInt 1); ("paused", VInt 0)]] [] [] [] 1 0.

Lemma demo_runs_keyed : keyed "id" demo_db.(runs).
Proof. apply keyedb_spec. vm_compute. reflexivity. Qed.
Lemma demo_approvals_keyed : keyed "id" demo_db.(approvals).
Proof. apply keyedb_spec. vm_compute. reflexivity. Qed.
Lemma demo_receipts_keyed : keyed "key" demo_db.(idempotency).
Proof. apply keyedb_spec. vm_compute. reflexivity. Qed.

(** The aged run is claimed before the urgent one, and the claim is marked. *)
Lemma claim_next_run_exact_witness :
  match claim_next_run demo_epoch 0 900 "w9" "10:00" demo_db with
  | (Ok (Some y), _) => col y "worker_id" = VText "w9" ∧ ∃ x, x ∈ demo_db.(runs) ∧ queued x = true
  | _ => False
  end.
Proof.
  assert (match claim_next_run demo_epoch 0 900 "w9" "10:00" demo_db with
    | (Ok (Some _), _) => true | _ => false end = true) as Hran by (vm_compute; reflexivity).
  pose proof (claim_next_run_exact demo_epoch 0 900 "w9" "10:00" demo_db demo_runs_keyed) as H.
  destruct (claim_next_run demo_epoch 0 900 "w9" "10:00" demo_db) as [[[y|]|e] d']; try done.
  destruct H as (x & Hx & Hq & _ & _ & _ & Hw & _). split; [done|]. by exists x.
Defined.

Lemma claim_exclusive_witness :
  match claim_next_run demo_epoch 0 900 "w8" "10:00" demo_db with
  | (Ok (Some y1), d1) =>
      match claim_next_run demo_epoch 0 900 "w9" "10:00" d1 with
      | (Ok (Some y2), _) => col y1 "id" ≠ col y2 "id"
      | _ => False
      end
  | _ => False
  end.
Proof.
  pose proof (claim_exclusive demo_epoch 0 900 "w8" "w9" "10:00" "10:00" demo_db) as H.
  assert (match claim_next_run demo_epoch 0 900 "w8" "10:00" demo_db with
    | (Ok (Some _), d1) => match claim_next_run demo_epoch 0 900 "w9" "10:00" d1 with
      | (Ok (Some _), _) => true | _ => false end | _ => false end = true) as Hran by (vm_compute; reflexivity).
  destruct (claim_next_run demo_epoch 0 900 "w8" "10:00" demo_db) as [[[y1|]|] d1] eqn:E1; try done.
  destruct (claim_next_run demo_epoch 0 900 "w9" "10:00" d1) as [[[y2|]|] d2] eqn:E2; try done.
  by apply (H d1 d2 y1 y2 demo_runs_keyed).
Defined.

Lemma aged_run_not_overtaken_witness :
  match claim_next_run demo_epoch 0 900 "w9" "10:00" demo_db with
  | (Ok (Some y), _) =>
      ∃ z, z ∈ demo_db.(runs) ∧ col y "id" = col z "id" ∧
        effective_priority demo_epoch 0 900 "10:00" z = Some 0%Z ∧
        py_le (text z "queued_at") (text demo_old "queued_at") = true
  | _ => False
  end.
Proof.
  assert (match claim_next_run demo_epoch 0 900 "w9" "10:00" demo_db with
    | (Ok (Some _), _) => true | _ => false end = true) as Hran by (vm_compute; reflexivity).
  destruct (claim_next_run demo_epoch 0 900 "w9" "10:00" demo_db) as [[[y|]|] d'] eqn:E; try done.
  refine (aged_run_not_overtaken demo_epoch 0 900 "w9" "10:00" demo_db d' demo_old y 3 36000 32400
    ltac:(lia) ltac:(lia) demo_runs_keyed (list_elem_of_here _ _) _ _ _ _ _ ltac:(lia) _ E);
    [vm_compute; reflexivity..|].
  intros z Hz _. repeat (apply elem_of_cons in Hz as [->|Hz]; [vm_compute; by eexists|]).
  by apply not_elem_of_nil in Hz.
Defined.

Lemma reclaim_fences_old_worker_witness :
  match reclaim_stale_runs "w2" "09:50" "10:00" demo_db with
  | (Ok [r], d') => ∀ fields, (update_run "run_busy" fields (Some "w1") d').2 = d'
  | _ => False
  end.
Proof.
  assert (match reclaim_stale_runs "w2" "09:50" "10:00" demo_db with
    | (Ok [r], _) => is_text r "id" "run_busy" | _ => false end = true) as Hran by (vm_compute; reflexivity).
  destruct (reclaim_stale_runs "w2" "09:50" "10:00" demo_db) as [[[|r []]|] d'] eqn:E; try done.
  apply is_text_spec in Hran. intros fields.
  destruct (reclaim_fences_old_worker "w2" "09:50" "10:00" demo_db [r] d' demo_runs_keyed E) as [_ H].
  destruct (H r "run_busy" (list_elem_of_here r []) Hran) as (_ & _ & _ & Hfence).
  by destruct (Hfence "w1" fields) as (_ & -> & _).
Defined.

Lemma receipt_at_most_once_witness :
  idem_release "send:1" (idem_complete "send:1" "[]" "10:00" demo_db).2
  = (Ok false, (idem_complete "send:1" "[]" "10:00" demo_db).2).
Proof.
  destruct (receipt_at_most_once "send:1" demo_db (idem_complete "send:1" "[]" "10:00" demo_db).2) as (_ & _ & H).
  - apply demo_receipts_keyed.
  - apply rtc_once, step_complete.
  - destruct H as [_ H]; [by exists demo_receipt|]. apply (H "run_busy" "send" "10:00").
Defined.

Lemma approval_decided_once_witness :
  (decide_approval "apr_1" "approved" "owner" None "10:00" demo_db).1 = Ok true.
Proof.
  apply (approval_decided_once demo_db "apr_1" "approved" "owner" None "10:00" demo_approvals_keyed).
  exists (demo_approval "apr_1" "pending"). split; [apply list_elem_of_here|done].
Defined.

Lemma queue_follows_lifecycle_witness :
  ∃ y b, y ∈ (request_cancel "run_busy" "10:00" demo_db).2.(runs) ∧ col y "id" = VText "run_busy" ∧
    in_state y b ∧ rtc run_step RRunning b.
Proof.
  destruct (queue_follows_lifecycle demo_epoch 0 900 demo_db (request_cancel "run_busy" "10:00" demo_db).2
    demo_busy RRunning) as (y & b & Hy & Hid & Hb & Hab & _).
  - apply demo_runs_keyed.
  - apply rtc_once, step_cancel.
  - set_solver.
  - done.
  - by exists y, b.
Defined.

Lemma upsert_step_exact_witness :
  ∃ d', upsert_step "run_busy" 1 {["status" := VText "completed"]} (Some "w1") demo_db = (Ok true, d') ∧
    steps_keyed d'.(steps).
Proof.
  assert (steps_keyed demo_db.(steps)) as Hk.
  { split; [by apply NoDup_singleton|]. intros r ->%list_elem_of_singleton. by exists "run_busy", 1%Z. }
  pose proof (upsert_step_exact "run_busy" 1 {["status" := VText "completed"]} (Some "w1") demo_db Hk) as H.
  assert (match upsert_step "run_busy" 1 {["status" := VText "completed"]} (Some "w1") demo_db with
    | (Ok b, _) => b | _ => false end = true) as Hran by (vm_compute; reflexivity).
  destruct (upsert_step "run_busy" 1 {["status" := VText "completed"]} (Some "w1") demo_db) as [[[]|] d']; try done.
  exists d'. by destruct H as [H _].
Defined.
