(* ===== verification/CostObservation.v ===== *)
(** * CostObservation: the cost records of [omniagentos/contracts.py]

    Exact dollar text and nano-dollars, and the validation of one provider-call
    observation.  An observation is its dictionary: a finite map from field names to
    SQL values (a Python [bool] is not among them). *)

From Stdlib Require Import Ascii QArith.
From stdpp Require Import pretty.
From S2P Require Import Prelude PyString Sql.
Open Scope nat_scope.

Definition NANO_USD_SCALE : Z := 1000000000.
Definition NANO_USD_DIGITS : nat := 9.

(** ** Decimal text *)

Definition digit_value (c : ascii) : Z := Z.of_nat (code c) - 48.
(** [int(text)] of ASCII digits, after the value [acc]. *)
Fixpoint dec_value (acc : Z) (s : string) : Z :=
  match s with
  | EmptyString => acc
  | String c s' => dec_value (10 * acc + digit_value c) s'
  end.

(** [text.ljust(n, "0")] *)
Fixpoint ljust_zero (n : nat) (s : string) : string :=
  match n, s with
  | 0, _ => s
  | S n, EmptyString => String "0" (ljust_zero n EmptyString)
  | S n, String c s' => String c (ljust_zero n s')
  end.

(** [0|[1-9]\d*] *)
Definition whole_ok (s : string) : bool :=
  match s with
  | EmptyString => false
  | String c s' => is_digit c && forallb_str is_digit s' && (negb (Ascii.eqb c "0"%char) || bool_decide (s' = ""))
  end.

(** The nano-dollars of an exact decimal text; [None] is the [ValueError]. *)
Definition parse_cost_usd_decimal (text : string) : option Z :=
  if bool_decide (text = "") || existsb_str is_space text then None
  else
    let '(whole_s, frac, dotted) :=
      match split "."%char text with
      | w :: (_ :: _) as parts => (w, join "." parts, true)
      | _ => (text, "", false)
      end in
    if negb (whole_ok whole_s) then None
    else if dotted && (bool_decide (frac = "") || negb (forallb_str is_digit frac)) then None
    else if NANO_USD_DIGITS <? String.length frac then None
    else Some (dec_value 0 whole_s * NANO_USD_SCALE + dec_value 0 (ljust_zero NANO_USD_DIGITS frac))%Z.

(** [f"{n:0kd}"] of a number of at most [k] digits. *)
Fixpoint zero_padded (k : nat) (n : Z) : string :=
  match k with
  | 0 => ""
  | S k => zero_padded k (n / 10) +:+ String (ascii_of_nat (Z.to_nat (48 + n mod 10))) ""
  end.

(** [_nano_usd_decimal] of [db/store.py] *)
Definition nano_usd_decimal (nanos : Z) : string :=
  let whole := (nanos / NANO_USD_SCALE)%Z in
  let fractional := (nanos mod NANO_USD_SCALE)%Z in
  if (fractional =? 0)%Z then pretty whole
  else rstrip_by (Ascii.eqb "0"%char) (pretty whole +:+ "." +:+ zero_padded NANO_USD_DIGITS fractional).

(** ** Observations *)

Inductive field_kind :=
  | KText
  | KOptText
  | KCount
  | KOptCount
  | KOptCost
  | KOneOf (values : list string).

Definition COST_QUALITIES : list string := ["exact"; "estimated"; "unknown"].
Definition PROVIDER_REQUEST_STATES : list string := ["not_sent"; "sent"; "indeterminate"].
Definition PROVIDER_CALL_STAGES : list string :=
  ["planner"; "clarifier"; "planner_retry"; "worker"; "worker_retry"; "reviewer"; "reviewer_retry";
   "escalation"; "integrator"; "integrator_retry"].

(** The fields with their types; the default of an absent one is beside it. *)
Definition observation_fields (now : string) : list (string * field_kind * option sql_value) :=
  [("call_id", KText, None); ("request_id", KText, None); ("execution_id", KText, None);
   ("run_id", KOptText, Some VNull); ("campaign_id", KOptText, Some VNull);
   ("reservation_id", KOptText, Some VNull); ("task_id", KOptText, Some VNull);
   ("attempt_id", KOptText, Some VNull); ("session_id", KOptText, Some VNull);
   ("work_id", KOptText, Some VNull); ("root_trace_id", KOptText, Some VNull);
   ("stage", KOneOf PROVIDER_CALL_STAGES, None); ("attempt_index", KCount, Some (VInt 0));
   ("provider", KText, None); ("transport", KText, None); ("requested_model", KText, None);
   ("effective_model", KText, None); ("model_lineage", KText, None); ("billing_provider", KText, None);
   ("adapter_key", KText, None); ("provider_request_id", KOptText, Some VNull);
   ("request_state", KOneOf PROVIDER_REQUEST_STATES, None); ("provider_outcome", KOptText, Some VNull);
   ("input_tokens", KOptCount, Some VNull); ("output_tokens", KOptCount, Some VNull);
   ("total_tokens", KOptCount, Some VNull); ("cost_usd_decimal", KOptCost, Some VNull);
   ("cost_usd_nanos", KOptCount, Some VNull); ("cost_upper_bound_usd_nanos", KOptCount, Some VNull);
   ("cost_quality", KOneOf COST_QUALITIES, None); ("cost_source", KText, None);
   ("pricing_revision", KOptText, Some VNull); ("created_at", KText, Some (VText now));
   ("settled_at", KOptText, Some VNull)].

Definition field_ok (k : field_kind) (v : sql_value) : bool :=
  match k, v with
  | KText, VText _ => true
  | KOptText, (VNull | VText _) => true
  | KCount, VInt n => (0 <=? n)%Z
  | KOptCount, VNull => true
  | KOptCount, VInt n => (0 <=? n)%Z
  | KOptCost, VNull => true
  | KOptCost, VText s => bool_decide (parse_cost_usd_decimal s ≠ None)
  | KOneOf values, VText s => bool_decide (s ∈ values)
  | _, _ => false
  end.

Inductive validation_error := ValidationError (field : string).

Definition validate_field (c : row) (f : string * field_kind * option sql_value) :
    result validation_error (string * sql_value) :=
  let '(name, k, dflt) := f in
  match c !! name, dflt with
  | Some v, _ => if field_ok k v then Ok (name, v) else Err (ValidationError name)
  | None, Some v => Ok (name, v)
  | None, None => Err (ValidationError name)
  end.

(** [_cross_check_cost] *)
Definition cross_check_cost (p : row) : result validation_error row :=
  let text := col p "cost_usd_decimal" in
  let parsed := match text with VText s => parse_cost_usd_decimal s | _ => None end in
  '(p, nano) ← match parsed, col p "cost_usd_nanos" with
    | Some n, VNull => Ok (<["cost_usd_nanos" := VInt n]> p, VInt n)
    | Some n, VInt m => if (n =? m)%Z then Ok (p, VInt m) else Err (ValidationError "cost_usd_nanos")
    | _, v => Ok (p, v)
    end;
  if is_text p "cost_quality" "exact" then
    if is_null text then Err (ValidationError "cost_usd_decimal")
    else if is_null (col p "cost_usd_nanos") then Err (ValidationError "cost_usd_nanos") else Ok p
  else if is_text p "cost_quality" "estimated" then
    if is_null (col p "cost_upper_bound_usd_nanos") then Err (ValidationError "cost_upper_bound_usd_nanos")
    else if negb (is_null text && is_null nano) then Err (ValidationError "cost_quality") else Ok p
  else if negb (is_null text && is_null nano) then Err (ValidationError "cost_quality") else Ok p.

(** [CostObservation.model_validate(c).model_dump(mode="json")]; fields the model
    does not have are dropped. *)
Definition model_validate (now : string) (c : row) : result validation_error row :=
  fields ← traverse (validate_field c) (observation_fields now);
  cross_check_cost (list_to_map fields).
