(* ===== verification/ProviderLedger.v ===== *)
(** * ProviderLedger: the provider-call ledger of [omniagentos/db/store.py]

    One row per provider call: recorded once, settled once, and reserved against a
    daily cap in the transaction that reads the day's spend.  The clock of a
    transaction is the argument [now]. *)

From Stdlib Require Import Ascii QArith.
From S2P Require Import Prelude PyString Sql CostObservation.
Open Scope nat_scope.

Inductive ledger_error :=
  | InvalidObservation (e : validation_error)
  | NumberTooLarge
  | DuplicateCall
  | ReplayConflict (call_id : string)
  | UnknownCall (call_id : string)
  | CallIdMismatch
  | ImmutableField (call_id : string)
  | SettlementConflict (call_id : string)
  | NegativeCap
  | InvalidCreatedAt (created_at : string)
  | ClaimDisappeared (claim_id : string).

(** [provider_call_usage] with its AUTOINCREMENT counter. *)
Record ledger := mkLedger { calls : table; last_call : Z }.
Definition set_calls (f : table → table) (l : ledger) : ledger := mkLedger (f l.(calls)) l.(last_call).

Definition PROVIDER_CALL_COLUMNS : list string :=
  ["call_id"; "request_id"; "execution_id"; "run_id"; "campaign_id"; "reservation_id"; "task_id";
   "attempt_id"; "session_id"; "work_id"; "root_trace_id"; "stage"; "attempt_index"; "provider";
   "transport"; "requested_model"; "effective_model"; "model_lineage"; "billing_provider"; "adapter_key";
   "provider_request_id"; "request_state"; "provider_outcome"; "input_tokens"; "output_tokens";
   "total_tokens"; "cost_usd_decimal"; "cost_usd_nanos"; "cost_upper_bound_usd_nanos"; "cost_quality";
   "cost_source"; "pricing_revision"; "created_at"; "settled_at"].
Definition PROVIDER_CALL_IMMUTABLE_COLUMNS : list string :=
  ["call_id"; "request_id"; "execution_id"; "run_id"; "campaign_id"; "reservation_id"; "task_id";
   "attempt_id"; "session_id"; "work_id"; "root_trace_id"; "stage"; "attempt_index"; "provider";
   "transport"; "requested_model"; "effective_model"; "model_lineage"; "billing_provider"; "adapter_key";
   "created_at"].
Definition PROVIDER_CALL_FILTERS : list string := ["run_id"; "execution_id"; "campaign_id"; "reservation_id"].
Definition COST_COLUMNS : list string :=
  ["cost_usd_decimal"; "cost_usd_nanos"; "cost_upper_bound_usd_nanos"; "cost_quality"; "cost_source";
   "pricing_revision"].

Definition billing_provider_aliases (provider : string) : list string :=
  if bool_decide (provider = "moonshot") then ["moonshot"; "kimi"] else [provider].

(** Python's [==] on field values, and truth. *)
Definition py_eq (a b : sql_value) : bool :=
  match a, b with VNull, VNull => true | _, _ => sql_eq a b end.
Definition truthy (v : sql_value) : bool :=
  match v with
  | VNull => false
  | VInt n => negb (n =? 0)%Z
  | VReal q => negb (Qeq_bool q 0)
  | VText s => negb (bool_decide (s = ""))
  end.
Definition or_else (a b : sql_value) : sql_value := if truthy a then a else b.

(** Parameters of SQLite are 64-bit. *)
Definition MAX_INT : Z := 9223372036854775807.
Definition bindable (v : sql_value) : bool :=
  match v with VInt n => (n <=? MAX_INT)%Z | _ => true end.

Section ledger.
(** The price registry: the two rates of a model per million tokens and where they
    come from; the estimate and its rounding to nano-dollars, computed in doubles. *)
Context (registry : string → option (Q * Q * string))
        (token_cost : Z → Q → Z → Q → option Q) (round_nanos : Q → Z).

(** ** Pricing *)

Definition token_count (v : sql_value) : option Z :=
  match v with VInt n => if (0 <=? n)%Z then Some n else None | _ => None end.

(** [estimate_token_cost] of [budget/token_pricing.py]: the cost and its source. *)
Definition estimate_token_cost (model input_tokens output_tokens : sql_value) : option (Q * string) :=
  match token_count input_tokens, token_count output_tokens with
  | None, None => None
  | p, c =>
      match model with
      | VText m =>
          if bool_decide (strip m = "") then None
          else match registry m with
          | None => None
          | Some (prompt_rate, completion_rate, source) =>
              (λ cost, (cost, source)) <$>
                token_cost (default 0%Z p) prompt_rate (default 0%Z c) completion_rate
          end
      | _ => None
      end
  end.

Definition source_text (v : sql_value) : string := match v with VText s => s | _ => "unknown" end.

Definition price_kimi_shim_observation (c : row) : row :=
  if negb (is_text c "adapter_key" "estate-kimi-shim") then c
  else if is_text c "cost_quality" "exact" then c
  else if match col c "cost_source" with VText s => negb (startswith "estate-kimi-shim:" s) | _ => false end then c
  else
    let has_input := bool_decide (token_count (col c "input_tokens") ≠ None) in
    let has_output := bool_decide (token_count (col c "output_tokens") ≠ None) in
    let unpriced (source : string) : row := list_to_map
      [("cost_usd_decimal", VNull); ("cost_usd_nanos", VNull); ("cost_quality", VText "unknown");
       ("cost_upper_bound_usd_nanos", VNull); ("cost_source", VText source)] in
    if xorb has_input has_output then
      assign (unpriced ("modelintel:unpriced:partial-tokens:missing-" +:+ (if has_input then "output" else "input")))
        (<["input_tokens" := if has_input then col c "input_tokens" else VNull]>
          (<["output_tokens" := if has_output then col c "output_tokens" else VNull]> c))
    else
      let model := or_else (col c "effective_model") (col c "requested_model") in
      match estimate_token_cost model (col c "input_tokens") (col c "output_tokens") with
      | None =>
          let provider := or_else (or_else (col c "billing_provider") (col c "provider")) (VText "unknown") in
          assign (unpriced ("modelintel:unpriced:" +:+ source_text provider +:+ "/"
                            +:+ source_text (or_else model (VText "unknown")))) c
      | Some (cost, source) =>
          assign (list_to_map
            [("cost_usd_decimal", VNull); ("cost_usd_nanos", VNull); ("cost_quality", VText "estimated");
             ("cost_upper_bound_usd_nanos", VInt (round_nanos cost)); ("cost_source", VText source)]) c
      end.

(** ** One payload *)

Definition priced_before (existing c : row) : bool :=
  is_text c "adapter_key" "estate-kimi-shim"
  && match col existing "cost_source" with VText s => negb (startswith "estate-kimi-shim:" s) | _ => false end
  && negb (is_text c "cost_quality" "exact").

(** The stored price of a row replaces the candidate's. *)
Definition keep_price (existing c : row) : row :=
  foldl (λ c column, <[column := col existing column]> c) c COST_COLUMNS.

Definition provider_call_payload (now : string) (candidate : row) (existing : option row) :
    result ledger_error row :=
  let c := match existing with
    | Some e =>
        let c := match candidate !! "created_at" with
          | None => <["created_at" := col e "created_at"]> candidate
          | Some _ => candidate end in
        if priced_before e c then keep_price e c else c
    | None => candidate
    end in
  map_err InvalidObservation (model_validate now (price_kimi_shim_observation c)).

Definition provider_call_equal (r payload : row) : bool :=
  forallb (λ c, py_eq (col r c) (col payload c)) PROVIDER_CALL_COLUMNS.

Definition with_call (call_id : string) (r : row) : bool := is_text r "call_id" call_id.
Definition get_provider_call_row (call_id : string) (l : ledger) : option row :=
  head (select (with_call call_id) l.(calls)).

Definition insert_provider_call_row (payload : row) (l : ledger) : result ledger_error (row * ledger) :=
  if negb (forallb (λ c, bindable (col payload c)) PROVIDER_CALL_COLUMNS) then Err NumberTooLarge
  else if existsb (λ r, sql_eq (col r "call_id") (col payload "call_id")) l.(calls) then Err DuplicateCall
  else
    let id := (l.(last_call) + 1)%Z in
    let r := <["id" := VInt id]> payload in
    Ok (r, mkLedger (l.(calls) ++ [r]) id).

Definition record_provider_call_row (now : string) (observation : row) (l : ledger) :
    result ledger_error (row * ledger) :=
  let existing := match col observation "call_id" with
    | VText "" => None
    | VText raw_call_id => get_provider_call_row raw_call_id l
    | _ => None
    end in
  payload ← provider_call_payload now observation existing;
  match existing with
  | None => insert_provider_call_row payload l
  | Some e =>
      if provider_call_equal e payload then Ok (e, l) else Err (ReplayConflict (str payload "call_id"))
  end.

(** ** Settling *)

Definition changes_immutable (updates existing : row) : bool :=
  existsb (λ c, match updates !! c with Some v => negb (py_eq v (col existing c)) | None => false end)
    PROVIDER_CALL_IMMUTABLE_COLUMNS.

Definition write_payload (payload : row) (r : row) : row :=
  foldl (λ r c, if bool_decide (c = "call_id") then r else <[c := col payload c]> r) r PROVIDER_CALL_COLUMNS.

Definition settle_provider_call_row (now call_id : string) (updates : row) (l : ledger) :
    result ledger_error (row * ledger) :=
  match get_provider_call_row call_id l with
  | None => Err (UnknownCall call_id)
  | Some existing =>
      if match updates !! "call_id" with Some v => negb (py_eq v (VText call_id)) | None => false end
      then Err CallIdMismatch
      else if changes_immutable updates existing then Err (ImmutableField call_id)
      else if negb (is_null (col existing "settled_at")) then
        let candidate := <["settled_at" := col existing "settled_at"]>
          (<["call_id" := VText call_id]> (updates ∪ existing)) in
        payload ← provider_call_payload now candidate (Some existing);
        if provider_call_equal existing payload then Ok (existing, l) else Err (SettlementConflict call_id)
      else
        let candidate := <["settled_at" := or_else (col updates "settled_at") (VText now)]>
          (<["created_at" := col existing "created_at"]>
            (<["call_id" := VText call_id]> (updates ∪ existing))) in
        payload ← provider_call_payload now candidate (Some existing);
        if negb (forallb (λ c, bindable (col payload c)) PROVIDER_CALL_COLUMNS) then Err NumberTooLarge
        else
          let l' := set_calls (update_where (with_call call_id) (write_payload payload)) l in
          match get_provider_call_row call_id l' with
          | Some r => Ok (r, l')
          | None => Err (UnknownCall call_id)
          end
  end.

(** ** Spend *)

(** [COALESCE(cost_usd_nanos, cost_upper_bound_usd_nanos, 0)] *)
Definition row_spend (r : row) : Z :=
  match col r "cost_usd_nanos", col r "cost_upper_bound_usd_nanos" with
  | VInt n, _ => n
  | _, VInt n => n
  | _, _ => 0
  end.
Definition row_day (r : row) : string := String.substring 0 10 (str r "created_at").
Definition counts_for (provider utc_day : string) (r : row) : bool :=
  existsb (is_text r "billing_provider") (billing_provider_aliases provider)
  && bool_decide (row_day r = utc_day).
Definition sum_of (f : row → Z) (t : table) : Z := foldr (λ r n, f r + n)%Z 0%Z t.

(** SUM of 64-bit integers. *)
Definition spend_nanos (provider utc_day : string) (l : ledger) : Z :=
  sum_of row_spend (select (counts_for provider utc_day) l.(calls)).
Definition provider_spend_nanos (provider utc_day : string) (l : ledger) : result ledger_error Z :=
  let n := spend_nanos provider utc_day l in
  if (n <=? MAX_INT)%Z then Ok n else Err NumberTooLarge.

Record Reservation := mkReservation {
  allowed : bool;
  override_used : bool;
  prior_usd_nanos : Z;
  proposed_usd_nanos : Z;
  projected_usd_nanos : Z;
  cap : Z;
  reserved_row : row;
}.

Definition record_provider_call (now : string) (observation : row) : op ledger ledger_error row :=
  write (record_provider_call_row now observation).

Definition settle_provider_call (now call_id : string) (settlement : row) : op ledger ledger_error row :=
  write (settle_provider_call_row now call_id settlement).

Definition reserve_provider_spend (now provider utc_day : string) (cap_usd_nanos : Z)
    (proposed refused : row) (override : bool) : op ledger ledger_error Reservation := λ l,
  if (cap_usd_nanos <? 0)%Z then (Err NegativeCap, l)
  else write (λ l,
    prior ← provider_spend_nanos provider utc_day l;
    proposed_payload ← provider_call_payload now proposed None;
    let ceiling := match col proposed_payload "cost_upper_bound_usd_nanos" with VInt n => n | _ => 0%Z end in
    let projected := (prior + ceiling)%Z in
    let allowed := (projected <=? cap_usd_nanos)%Z || override in
    '(r, l') ← record_provider_call_row now (if allowed then proposed else refused) l;
    Ok (mkReservation allowed (override && (cap_usd_nanos <? projected)%Z) prior ceiling projected
          cap_usd_nanos r, l')) l.

Definition stale_reservation (before : string) (r : row) : bool :=
  is_text r "provider_outcome" "spend_reserved" && is_text r "request_state" "not_sent"
  && is_null (col r "settled_at")
  && match text r "created_at" with Some t => py_lt t before | None => false end.
Definition swept : row := list_to_map
  [("request_state", VText "indeterminate"); ("provider_outcome", VText "stale_reservation_swept");
   ("cost_source", VText "spend-cap-upper-bound:stale-reservation-sweep")].

Fixpoint settle_each (now : string) (ids : list string) (l : ledger) : result ledger_error ledger :=
  match ids with
  | [] => Ok l
  | i :: ids => '(_, l') ← settle_provider_call_row now i swept l; settle_each now ids l'
  end.

Definition sweep_stale_provider_reservations (now before : string) : op ledger ledger_error nat := write (λ l,
  let rows := query l.(calls) (stale_reservation before) (λ r, (text r "created_at", int r "id")) in
  l' ← settle_each now (map (λ r, str r "call_id") rows) l;
  Ok (length rows, l')).

(** ** Alerts

    [deliver_provider_alert_once] is two transactions with the delivery between
    them, while other writers may run.  [cutoff] is the marker's time minus the claim
    TTL, as text. *)

Definition alert_execution (provider utc_day : string) : string :=
  "spend-alert:" +:+ provider +:+ ":" +:+ utc_day.
Definition alert_row (execution_id source : string) (r : row) : bool :=
  is_text r "execution_id" execution_id && is_text r "cost_source" source.
Definition created_after (cutoff : string) (r : row) : bool :=
  match text r "created_at" with Some t => py_lt cutoff t | None => false end.

Definition claim_marker (claim_id : string) (marker : row) : row :=
  <["call_id" := VText claim_id]> (<["provider_outcome" := VText "soft_threshold_alert_claimed"]>
    (<["cost_source" := VText "spend-cap-alert:claimed"]> (<["settled_at" := VNull]> marker))).

Definition claim_provider_alert (now cutoff claim_id provider utc_day : string) (marker : row) :
    op ledger ledger_error bool := write (λ l,
  let execution_id := alert_execution provider utc_day in
  if existsb (alert_row execution_id "spend-cap-alert:delivered") l.(calls) then Ok (false, l)
  else if existsb (λ r, alert_row execution_id "spend-cap-alert:claimed" r && created_after cutoff r) l.(calls)
  then Ok (false, l)
  else '(_, l') ← record_provider_call_row now (claim_marker claim_id marker) l; Ok (true, l')).

Definition claim_outcome (delivered : bool) : row := list_to_map
  (if delivered
   then [("provider_outcome", VText "soft_threshold_alert_claim_confirmed");
         ("cost_source", VText "spend-cap-alert:claim-confirmed")]
   else [("provider_outcome", VText "soft_threshold_alert_delivery_failed");
         ("cost_source", VText "spend-cap-alert:claim-failed")]).

Definition confirm_provider_alert (now claim_id provider utc_day : string) (marker : row) (delivered : bool) :
    op ledger ledger_error bool := write (λ l,
  match get_provider_call_row claim_id l with
  | None => Err (ClaimDisappeared claim_id)
  | Some _ =>
      let execution_id := alert_execution provider utc_day in
      l' ← (if delivered && negb (existsb (alert_row execution_id "spend-cap-alert:delivered") l.(calls))
            then '(_, l') ← record_provider_call_row now marker l; Ok l' else Ok l);
      '(_, l'') ← settle_provider_call_row now claim_id (claim_outcome delivered) l';
      Ok (delivered, l'')
  end).

(** The whole operation: [cutoff_of] is the marker's time minus the claim TTL, [None]
    when the time is no ISO text; [deliver] is everything that happens until the
    delivery returned. *)
Definition deliver_provider_alert_once (cutoff_of : string → option string)
    (now claim_id provider utc_day : string) (marker : row) (deliver : ledger → bool * ledger) :
    op ledger ledger_error bool := λ l,
  let created_at := source_text (or_else (col marker "created_at") (VText now)) in
  match cutoff_of created_at with
  | None => (Err (InvalidCreatedAt created_at), l)
  | Some cutoff =>
      match claim_provider_alert now cutoff claim_id provider utc_day marker l with
      | (Ok true, l') =>
          let '(delivered, l'') := deliver l' in
          confirm_provider_alert now claim_id provider utc_day marker delivered l''
      | other => other
      end
  end.

(** ** Reads *)

Definition get_provider_call (call_id : string) (l : ledger) : option row := get_provider_call_row call_id l.

(** [_provider_call_where]: the filters that are given. *)
Record filters := mkFilters {
  f_run_id : option string;
  f_execution_id : option string;
  f_campaign_id : option string;
  f_reservation_id : option string;
}.
Definition filter_matches (f : filters) (r : row) : bool :=
  forallb (λ p : string * option string, match p.2 with Some v => is_text r p.1 v | None => true end)
    (zip PROVIDER_CALL_FILTERS [f.(f_run_id); f.(f_execution_id); f.(f_campaign_id); f.(f_reservation_id)]).

Definition list_provider_calls (f : filters) (n : Z) (l : ledger) : list row :=
  if (n <=? 0)%Z then []
  else limit n (query l.(calls) (filter_matches f) (λ r, (text r "created_at", int r "id"))).

Record SpendDay := mkSpendDay {
  sd_provider : string;
  sd_utc_day : string;
  sd_spend_usd_nanos : Z;
  sd_ledger_row_count : nat;
}.
Definition day_key (r : row) : string * string := (row_day r, str r "billing_provider").
Definition provider_spend_day (provider utc_day : option string) (l : ledger) : list SpendDay :=
  let keys := sort_by (λ k, k) (remove_dups (map day_key l.(calls))) in
  omap (λ k : string * string,
      if match provider with Some p => bool_decide (k.2 = p) | None => true end
         && match utc_day with Some d => bool_decide (k.1 = d) | None => true end
      then let rows := select (λ r, bool_decide (day_key r = k)) l.(calls) in
           Some (mkSpendDay k.2 k.1 (sum_of row_spend rows) (length rows))
      else None) keys.

Record CostAggregate := mkAggregate {
  known_nanos : option Z;
  known_usd_decimal : option string;
  estimated_nanos : option Z;
  chargeable_nanos : option Z;
  unknown_call_count : nat;
  quality : string;
  safe_to_compare : bool;
  accounting_incomplete : bool;
  call_count : nat;
}.

Definition nanos_at (c : string) (r : row) : Z := default 0%Z (int r c).

(** The dollar figures of the result are these nano-dollars divided by the scale. *)
Definition aggregate_provider_call_cost (f : filters) (l : ledger) : CostAggregate :=
  let rows := select (filter_matches f) l.(calls) in
  let of_quality q := select (λ r, is_text r "cost_quality" q) rows in
  let exact_count := length (of_quality "exact") in
  let estimated_count := length (of_quality "estimated") in
  let unknown_count := length (of_quality "unknown") in
  let known := if 0 <? exact_count then Some (sum_of (nanos_at "cost_usd_nanos") (of_quality "exact")) else None in
  let estimated := if 0 <? estimated_count
    then Some (sum_of (nanos_at "cost_upper_bound_usd_nanos") (of_quality "estimated")) else None in
  let quality :=
    if (0 <? unknown_count) && ((0 <? exact_count) || (0 <? estimated_count)) then "mixed"
    else if 0 <? unknown_count then "unknown"
    else if (0 <? exact_count) && (0 <? estimated_count) then "mixed"
    else if 0 <? exact_count then "exact"
    else if 0 <? estimated_count then "estimated"
    else "unknown" in
  let incomplete := (length rows =? 0) || (0 <? unknown_count) in
  mkAggregate known (nano_usd_decimal <$> known) estimated
    (if incomplete then None else Some (default 0 known + default 0 estimated)%Z)
    unknown_count quality (negb incomplete) incomplete (length rows).
End ledger.
