(* ===== verification/ProviderLedgerSpec.v ===== *)
(** * ProviderLedgerSpec: what the provider-call ledger guarantees

    Exact dollar text, the daily cap under any interleaving of reservations,
    settlements and sweeps, rows settled once, and aggregates that do not invent
    a zero. *)

From Stdlib Require Import Ascii QArith.
From stdpp Require Import pretty.
From S2P Require Import Prelude PyString Sql CostObservation ProviderLedger.
Open Scope nat_scope.

(** ** Decimal text *)

Definition digits (s : string) : bool := forallb_str is_digit s.

Lemma digits_cons c s : digits (String c s) = is_digit c && digits s.
Proof. unfold digits, forallb_str. simpl. by rewrite negb_orb, negb_involutive. Qed.

Lemma digits_app s1 s2 : digits (s1 +:+ s2) = digits s1 && digits s2.
Proof. unfold digits, forallb_str. by rewrite existsb_str_app, negb_orb. Qed.

Lemma dec_value_app acc s1 s2 : dec_value acc (s1 +:+ s2) = dec_value (dec_value acc s1) s2.
Proof. revert acc. induction s1 as [|c s1 IH]; intros acc; [done|]. rewrite string_app_cons. simpl. apply IH. Qed.

Lemma digits_none (p : ascii → bool) s :
  (∀ c, is_digit c = true → p c = false) → digits s = true → existsb_str p s = false.
Proof.
  intros Hp. induction s as [|c s IH]; [done|]. rewrite digits_cons. intros [Hc Hs]%andb_true_iff.
  simpl. by rewrite (Hp c Hc), IH.
Qed.

Lemma digit_code c : is_digit c = true → 48 ≤ code c ≤ 57.
Proof. unfold is_digit. intros [??]%andb_true_iff. bool_prop. repeat rewrite Nat.leb_le in *. lia. Qed.

Lemma digit_not_space c : is_digit c = true → is_space c = false.
Proof.
  intros Hc%digit_code. unfold is_space. repeat first [rewrite orb_false_iff | rewrite andb_false_iff];
    repeat rewrite Nat.leb_gt; repeat rewrite Nat.eqb_neq; lia.
Qed.

Lemma digit_not_dot c : is_digit c = true → Ascii.eqb "." c = false.
Proof. intros Hc%digit_code. apply Ascii.eqb_neq. intros <-. vm_compute in Hc. lia. Qed.

(** *** The whole part *)

Lemma pretty_digit n : (n < 10)%N →
  is_digit (pretty_N_char n) = true ∧ digit_value (pretty_N_char n) = Z.of_N n ∧
  (n ≠ 0%N → Ascii.eqb (pretty_N_char n) "0" = false).
Proof.
  intros Hn. assert (n = 0 ∨ n = 1 ∨ n = 2 ∨ n = 3 ∨ n = 4 ∨ n = 5 ∨ n = 6 ∨ n = 7 ∨ n = 8 ∨ n = 9)%N as Hcases by lia.
  repeat destruct Hcases as [->|Hcases]; try subst n; done.
Qed.

Lemma pretty_go_spec n s :
  digits s = true →
  digits (pretty_N_go n s) = true ∧ dec_value 0 (pretty_N_go n s) = dec_value (Z.of_N n) s ∧
  (n ≠ 0%N → ∃ c r, pretty_N_go n s = String c r ∧ Ascii.eqb c "0" = false).
Proof.
  revert s. induction (N.lt_wf_0 n) as [n _ IH]. intros s Hs.
  destruct (decide (n = 0%N)) as [->|Hn]; [rewrite pretty_N_go_0; split_and!; [done|done|by intros []]|].
  rewrite pretty_N_go_step by lia. destruct (pretty_digit (n mod 10)) as (Hd & Hv & Hz); [by apply N.mod_lt|].
  destruct (IH (n / 10)%N) with (s := String (pretty_N_char (n mod 10)) s) as (Hdig & Hval & Hhead).
  { apply N.div_lt; lia. }
  { by rewrite digits_cons, Hd, Hs. }
  split; [done|]. split.
  - rewrite Hval. simpl. rewrite Hv. f_equal. pose proof (N.div_mod n 10). lia.
  - intros _. destruct (decide (n / 10 = 0)%N) as [E|E]; [|by apply Hhead].
    rewrite E, pretty_N_go_0. eexists _, _. split; [done|]. apply Hz.
    pose proof (N.div_mod n 10). lia.
Qed.

Lemma pretty_whole n :
  digits (pretty (Z.of_N n)) = true ∧ dec_value 0 (pretty (Z.of_N n)) = Z.of_N n ∧
  whole_ok (pretty (Z.of_N n)) = true.
Proof.
  assert (pretty (Z.of_N n) = pretty n) as -> by by destruct n.
  unfold pretty, pretty_N. case_decide as Hn; [by subst|].
  destruct (pretty_go_spec n "" eq_refl) as (Hd & Hv & Hh).
  split; [done|]. split; [done|]. destruct (Hh Hn) as (c & r & E & Hc). rewrite E in *.
  rewrite digits_cons in Hd. apply andb_true_iff in Hd as [Hcd Hr]. unfold digits in Hr.
  unfold whole_ok. by rewrite Hcd, Hr, Hc.
Qed.

(** *** The fraction *)

Lemma zero_padded_spec k n : (0 ≤ n)%Z →
  digits (zero_padded k n) = true ∧ String.length (zero_padded k n) = k ∧
  dec_value 0 (zero_padded k n) = (n mod 10 ^ Z.of_nat k)%Z.
Proof.
  revert n. induction k as [|k IH]; intros n Hn; [by rewrite Z.mod_1_r|].
  cbn [zero_padded]. destruct (IH (n / 10)%Z) as (Hd & Hl & Hv); [by apply Z.div_pos|].
  pose proof (Z.mod_pos_bound n 10 eq_refl) as Hm.
  assert (code (ascii_of_nat (Z.to_nat (48 + n mod 10))) = Z.to_nat (48 + n mod 10)) as Hc
    by (apply nat_ascii_embedding; lia).
  rewrite digits_app, Hd, string_length_app, Hl, dec_value_app, Hv. split; [|split].
  - rewrite digits_cons. change (digits "") with true. rewrite andb_true_r, andb_true_l. unfold is_digit.
    rewrite Hc. apply andb_true_iff. rewrite !Nat.leb_le. lia.
  - simpl. lia.
  - cbn [dec_value]. unfold digit_value. rewrite Hc.
    replace (Z.of_nat (S k)) with (Z.succ (Z.of_nat k)) by lia. rewrite Z.pow_succ_r by lia.
    rewrite Z.rem_mul_r by lia. lia.
Qed.

Lemma ljust_rstrip s : ljust_zero (String.length s) (rstrip_by (Ascii.eqb "0") s) = s.
Proof.
  induction s as [|c s IH]; [done|]. cbn [rstrip_by String.length].
  destruct (rstrip_by (Ascii.eqb "0") s) as [|d r] eqn:E; [|by cbn [ljust_zero]; rewrite IH].
  destruct (Ascii.eqb "0" c) eqn:Ec; cbn [ljust_zero]; rewrite IH; [|done].
  by apply Ascii.eqb_eq in Ec as <-.
Qed.

Lemma rstrip_digits s : digits s = true → digits (rstrip_by (Ascii.eqb "0") s) = true.
Proof.
  induction s as [|c s IH]; [done|]. rewrite digits_cons. intros [Hc Hs]%andb_true_iff. cbn [rstrip_by].
  specialize (IH Hs). destruct (rstrip_by _ s) as [|d r] eqn:E.
  - destruct (Ascii.eqb "0" c); [done|]. by rewrite digits_cons, Hc.
  - by rewrite digits_cons, Hc, IH.
Qed.

Lemma rstrip_length p s : String.length (rstrip_by p s) ≤ String.length s.
Proof.
  induction s as [|c s IH]; [done|]. cbn [rstrip_by]. destruct (rstrip_by p s) as [|d r].
  - destruct (p c); simpl; lia.
  - simpl in *. lia.
Qed.

Lemma rstrip_after_dot w z :
  rstrip_by (Ascii.eqb "0") (w +:+ "." +:+ z) = w +:+ "." +:+ rstrip_by (Ascii.eqb "0") z.
Proof.
  assert (rstrip_by (Ascii.eqb "0") ("." +:+ z) = "." +:+ rstrip_by (Ascii.eqb "0") z) as Hdot.
  { change ("." +:+ z) with (String "." z). cbn [rstrip_by]. by destruct (rstrip_by (Ascii.eqb "0") z). }
  induction w as [|c w IH]; [done|]. rewrite !(string_app_cons c w).
  rewrite rstrip_by_cons by (rewrite IH; by destruct w). by rewrite IH.
Qed.

(** the exact dollar text loses nothing.  Every number of nano-dollars, printed as
    the shortest decimal text, parses back to the same number, so exact costs
    survive storage as text. *)
Theorem cost_text_roundtrip n : parse_cost_usd_decimal (nano_usd_decimal (Z.of_N n)) = Some (Z.of_N n).
Proof.
  set (z := Z.of_N n). assert (0 ≤ z)%Z as Hz by lia.
  pose proof (Z.mod_pos_bound z NANO_USD_SCALE eq_refl) as Hm.
  pose proof (Z_div_mod_eq_full z NANO_USD_SCALE) as Heq.
  assert (∃ w, z / NANO_USD_SCALE = Z.of_N w)%Z as [w Hw]
    by (exists (Z.to_N (z / NANO_USD_SCALE)); rewrite Z2N.id by (by apply Z.div_pos); done).
  destruct (pretty_whole w) as (Hwd & Hwv & Hwok).
  assert (pretty (Z.of_N w) ≠ "") as Hne by (intros E; by rewrite E in Hwok).
  unfold nano_usd_decimal. rewrite Hw. destruct (Z.eqb_spec (z mod NANO_USD_SCALE) 0) as [E0|E0].
  - unfold parse_cost_usd_decimal. rewrite bool_decide_false by done.
    rewrite (digits_none is_space _ digit_not_space Hwd). simpl.
    rewrite split_no_sep by (apply digits_none; [apply digit_not_dot|done]).
    rewrite Hwok. simpl. rewrite Hwv. f_equal.
    change (digit_value "0") with 0%Z. unfold NANO_USD_SCALE in *. lia.
  - rewrite rstrip_after_dot. set (f := zero_padded NANO_USD_DIGITS (z mod NANO_USD_SCALE)).
    destruct (zero_padded_spec NANO_USD_DIGITS (z mod NANO_USD_SCALE)) as (Hfd & Hfl & Hfv); [lia|].
    fold f in Hfd, Hfl, Hfv. set (fr := rstrip_by (Ascii.eqb "0") f).
    pose proof (rstrip_digits _ Hfd) as Hrd. fold fr in Hrd.
    assert (ljust_zero NANO_USD_DIGITS fr = f) as Hlj by (rewrite <-Hfl; apply ljust_rstrip).
    assert (fr ≠ "") as Hfr.
    { intros E. rewrite E in Hlj. apply E0. rewrite <-(Z.mod_small _ NANO_USD_SCALE Hm).
      change NANO_USD_SCALE with (10 ^ Z.of_nat NANO_USD_DIGITS)%Z at 2. rewrite <-Hfv, <-Hlj. done. }
    unfold parse_cost_usd_decimal. rewrite bool_decide_false by (by destruct (pretty (Z.of_N w))).
    rewrite !existsb_str_app, (digits_none is_space _ digit_not_space Hwd), (digits_none is_space _ digit_not_space Hrd).
    change ("." +:+ fr) with (String "." fr). cbn [orb existsb_str].
    change (is_space ".") with false. cbn [orb].
    rewrite split_app by (apply digits_none; [apply digit_not_dot|done]).
    rewrite (split_no_sep _ fr) by (apply digits_none; [apply digit_not_dot|done]).
    change (join "." [fr]) with fr. rewrite Hwok, (bool_decide_false (fr = "")) by done.
    unfold digits in Hrd. rewrite Hrd. cbn [negb orb andb].
    destruct (Nat.ltb_spec NANO_USD_DIGITS (String.length fr)) as [Hlen|_].
    { pose proof (rstrip_length (Ascii.eqb "0") f). unfold fr in Hlen. lia. }
    rewrite Hlj, Hwv, Hfv. f_equal. change (10 ^ Z.of_nat NANO_USD_DIGITS)%Z with NANO_USD_SCALE.
    rewrite Z.mod_small by done. unfold NANO_USD_SCALE in *. lia.
Qed.

(** ** Validated payloads *)

Lemma dec_value_nonneg acc s : (0 ≤ acc)%Z → digits s = true → (0 ≤ dec_value acc s)%Z.
Proof.
  revert acc. induction s as [|c s IH]; intros acc Ha; [done|]. rewrite digits_cons.
  intros [Hc%digit_code Hs]%andb_true_iff. simpl. apply IH; [|done]. unfold digit_value. lia.
Qed.

Lemma ljust_digits n s : digits s = true → digits (ljust_zero n s) = true.
Proof.
  revert s. induction n as [|n IH]; intros s Hs; [done|]. destruct s as [|c s]; cbn [ljust_zero].
  - rewrite digits_cons, IH; done.
  - rewrite digits_cons in *. apply andb_true_iff in Hs as [-> Hs]. by rewrite IH.
Qed.

Lemma whole_digits s : whole_ok s = true → digits s = true.
Proof. destruct s as [|c s]; [done|]. cbn. intros [[Hc Hs]%andb_true_iff _]%andb_true_iff. by rewrite digits_cons, Hc. Qed.

Lemma parse_nonneg s n : parse_cost_usd_decimal s = Some n → (0 ≤ n)%Z.
Proof.
  unfold parse_cost_usd_decimal. destruct (_ || _); [done|].
  assert (∀ w frac dotted,
    (if negb (whole_ok w) then None
     else if dotted && (bool_decide (frac = "") || negb (forallb_str is_digit frac)) then None
     else if NANO_USD_DIGITS <? String.length frac then None
     else Some (dec_value 0 w * NANO_USD_SCALE + dec_value 0 (ljust_zero NANO_USD_DIGITS frac))%Z) = Some n →
    (dotted = false → frac = "") → (0 ≤ n)%Z) as Hgen.
  { intros w frac dotted Hn Hf. destruct (whole_ok w) eqn:Ew; [|done]. cbn [negb] in Hn.
    assert (digits frac = true) as Hd.
    { destruct dotted; [|by rewrite Hf]. cbn [andb] in Hn. unfold digits.
      destruct (forallb_str is_digit frac); [done|]. by rewrite orb_true_r in Hn. }
    destruct (dotted && _); [done|]. destruct (_ <? _); [done|]. apply (inj Some) in Hn as <-.
    pose proof (dec_value_nonneg 0 w (Z.le_refl 0) (whole_digits _ Ew)).
    pose proof (dec_value_nonneg 0 _ (Z.le_refl 0) (ljust_digits NANO_USD_DIGITS _ Hd)). unfold NANO_USD_SCALE. lia. }
  destruct (split "."%char s) as [|w [|f fs]]; intros Hn; by eapply Hgen.
Qed.

(** Every field has a value of its type. *)
Definition field_kinds : list (string * field_kind) := (observation_fields "").*1.
Definition typed (r : row) : Prop := ∀ name k, (name, k) ∈ field_kinds → field_ok k (col r name) = true.

(** The exact, bounded and unknown costs of CHECK and [_cross_check_cost]. *)
Definition cost_consistent (r : row) : Prop :=
  (col r "cost_quality" = VText "exact" → col r "cost_usd_nanos" ≠ VNull ∧ col r "cost_usd_decimal" ≠ VNull) ∧
  (col r "cost_quality" = VText "estimated" →
     col r "cost_usd_nanos" = VNull ∧ col r "cost_usd_decimal" = VNull ∧ col r "cost_upper_bound_usd_nanos" ≠ VNull) ∧
  (col r "cost_quality" = VText "unknown" → col r "cost_usd_nanos" = VNull ∧ col r "cost_usd_decimal" = VNull).

Lemma fields_names now : (observation_fields now).*1.*1 = PROVIDER_CALL_COLUMNS.
Proof. done. Qed.

Lemma defaults_ok now name k d : (name, k, Some d) ∈ observation_fields now → field_ok k d = true.
Proof.
  assert (Forall (λ f : string * field_kind * option sql_value,
    match f.2 with Some d => field_ok f.1.2 d = true | None => True end) (observation_fields now)) as Hall
    by (repeat constructor).
  rewrite Forall_forall in Hall. intros Hf. apply (Hall _ Hf).
Qed.

Lemma columns_nodup : NoDup PROVIDER_CALL_COLUMNS.
Proof. apply (bool_decide_unpack _). by vm_compute. Qed.

(** The fields as validated one by one, before the cost check. *)
Lemma fields_spec now c l :
  traverse (validate_field c) (observation_fields now) = Ok l →
  let p : row := list_to_map l in
  typed p ∧ (∀ name, name ∈ PROVIDER_CALL_COLUMNS → p !! name ≠ None) ∧
  ∀ name v, name ∈ PROVIDER_CALL_COLUMNS → c !! name = Some v → col p name = v.
Proof.
  intros Hl p. apply traverse_Ok in Hl.
  assert (l.*1 = PROVIDER_CALL_COLUMNS) as Hnames.
  { rewrite <-(fields_names now). clear -Hl. induction Hl as [|[[name k] d] [n v] fs l Hf _ IH]; [done|].
    cbn [fmap list_fmap]. rewrite IH. f_equal. unfold validate_field in Hf. by case_all. }
  assert (NoDup l.*1) as Hnd by (rewrite Hnames; apply columns_nodup).
  assert (∀ f, f ∈ observation_fields now → validate_field c f = Ok (f.1.1, col p f.1.1)) as Hall.
  { intros f [i Hi]%list_elem_of_lookup. destruct (Forall2_lookup_l _ _ _ _ _ Hl Hi) as ([n v] & Hx & Hval).
    rewrite Hval. assert (n = f.1.1) as ->.
    { destruct f as [[name k] d]. unfold validate_field in Hval. by case_all. }
    do 2 f_equal. unfold col, p. rewrite (elem_of_list_to_map_1 l f.1.1 v); [done..|].
    by eapply list_elem_of_lookup_2. }
  split; [|split].
  - intros name k Hk. change field_kinds with (observation_fields now).*1 in Hk.
    apply list_elem_of_fmap in Hk as ([[n k'] d] & [= <- <-] & Hf).
    specialize (Hall _ Hf). unfold validate_field in Hall. cbn in Hall.
    destruct (c !! name) as [v|]; [destruct (field_ok k v) eqn:E; by simplify_eq|].
    destruct d as [d|]; [|done]. injection Hall as <-. by eapply defaults_ok.
  - intros name Hname Hn. rewrite <-Hnames in Hname. by apply not_elem_of_list_to_map in Hn.
  - intros name v Hname Hv. rewrite <-(fields_names now) in Hname.
    apply list_elem_of_fmap in Hname as (x & -> & (f & -> & Hf)%list_elem_of_fmap).
    specialize (Hall f Hf). destruct f as [[name k] d]. unfold validate_field in Hall. simpl in *.
    rewrite Hv in Hall. by case_all.
Qed.

Lemma insert_nanos_col (p : row) n c : c ≠ "cost_usd_nanos" → col (<["cost_usd_nanos" := VInt n]> p) c = col p c.
Proof. intros Hc. by apply col_insert_ne. Qed.

Lemma typed_nanos p n : (0 ≤ n)%Z → typed p → typed (<["cost_usd_nanos" := VInt n]> p).
Proof.
  intros Hn Hp name k Hk. destruct (decide (name = "cost_usd_nanos")) as [->|Hne].
  - rewrite col_insert. assert (k = KOptCount) as ->; [|by apply Z.leb_le].
    unfold field_kinds, observation_fields in Hk. cbn in Hk.
    repeat (apply elem_of_cons in Hk as [Heq|Hk]; [by simplify_eq|]). by apply not_elem_of_nil in Hk.
  - rewrite col_insert_ne by done. by apply Hp.
Qed.

Ltac in_columns := apply (bool_decide_unpack _); by vm_compute.
Ltac in_fields :=
  unfold field_kinds, observation_fields; cbn; repeat first [apply list_elem_of_here | apply list_elem_of_further].

Lemma typed_costs p :
  typed p →
  (col p "cost_usd_decimal" = VNull ∨ ∃ s n, col p "cost_usd_decimal" = VText s ∧
     parse_cost_usd_decimal s = Some n ∧ (0 ≤ n)%Z) ∧
  (col p "cost_usd_nanos" = VNull ∨ ∃ n, col p "cost_usd_nanos" = VInt n ∧ (0 ≤ n)%Z) ∧
  (col p "cost_upper_bound_usd_nanos" = VNull ∨ ∃ n, col p "cost_upper_bound_usd_nanos" = VInt n ∧ (0 ≤ n)%Z).
Proof.
  intros Hp. split_and!.
  - specialize (Hp "cost_usd_decimal" KOptCost ltac:(in_fields)).
    destruct (col p _) as [| | |s]; try done; [by left|]. right.
    cbn in Hp. apply bool_decide_eq_true in Hp. destruct (parse_cost_usd_decimal s) as [n|] eqn:E; [|done].
    exists s, n. split_and!; [done..|]. by eapply parse_nonneg.
  - specialize (Hp "cost_usd_nanos" KOptCount ltac:(in_fields)).
    destruct (col p _) as [|n| |]; try done; [by left|]. right. exists n. split; [done|]. by apply Z.leb_le.
  - specialize (Hp "cost_upper_bound_usd_nanos" KOptCount ltac:(in_fields)).
    destruct (col p _) as [|n| |]; try done; [by left|]. right. exists n. split; [done|]. by apply Z.leb_le.
Qed.

Lemma typed_quality p :
  typed p → col p "cost_quality" = VText "exact" ∨ col p "cost_quality" = VText "estimated" ∨
            col p "cost_quality" = VText "unknown".
Proof.
  intros Hp. specialize (Hp "cost_quality" (KOneOf COST_QUALITIES) ltac:(in_fields)).
  destruct (col p _) as [| | |q]; try done. cbn in Hp. apply bool_decide_eq_true in Hp.
  unfold COST_QUALITIES in Hp. set_solver.
Qed.

Ltac eval_text_eq := repeat match goal with
  | |- context [sql_eq (VText ?a) (VText ?b)] =>
      let r := eval vm_compute in (sql_eq (VText a) (VText b)) in change (sql_eq (VText a) (VText b)) with r
  end; cbn iota.

Lemma cross_check_spec b p :
  typed b → cross_check_cost b = Ok p →
  (p = b ∨ ∃ n, (0 ≤ n)%Z ∧ col b "cost_usd_nanos" = VNull ∧ p = <["cost_usd_nanos" := VInt n]> b) ∧
  cost_consistent p.
Proof.
  intros Hb. destruct (typed_costs b Hb) as (Htext & Hnano & Hupper).
  pose proof (typed_quality b Hb) as Hq. unfold cross_check_cost, cost_consistent, is_text.
  destruct Htext as [Et|(s & n & Et & Ep & Hn)]; rewrite Et, ?Ep;
    destruct Hnano as [En|(m & En & Hm)]; rewrite En; cbn [mbind result_mbind];
    try (destruct (Z.eqb_spec n m) as [->|]; [|by intros]); cbn [mbind result_mbind];
    rewrite ?col_insert, ?(insert_nanos_col b n) by done;
    destruct Hq as [Eq|[Eq|Eq]]; rewrite Eq;
    destruct Hupper as [Eu|(u & Eu & Hu)]; rewrite ?Eu, ?En, ?Et, ?col_insert; eval_text_eq; cbn [negb andb is_null]; intros Hp;
    first [discriminate Hp|injection Hp as Hp; subst p]; (split; [eauto 10|]); rewrite ?col_insert, ?(insert_nanos_col b n), ?Et, ?En, ?Eq, ?Eu by done;
    split_and!; naive_solver.
Qed.

(** A row as the ledger keeps it. *)
Definition row_ok (r : row) : Prop :=
  typed r ∧ cost_consistent r ∧ ∀ name, name ∈ PROVIDER_CALL_COLUMNS → r !! name ≠ None.

(** What validation guarantees of a payload. *)
Lemma model_validate_spec now c p :
  model_validate now c = Ok p →
  row_ok p ∧
  (∀ name v, name ∈ PROVIDER_CALL_COLUMNS → name ≠ "cost_usd_nanos" → c !! name = Some v → col p name = v) ∧
  (∀ n, c !! "cost_usd_nanos" = Some (VInt n) → col p "cost_usd_nanos" = VInt n).
Proof.
  intros (l & Hl & Hp)%bind_Ok. apply fields_spec in Hl as (Ht & Hfull & Hcol). set (b := list_to_map l : row) in *.
  destruct (cross_check_spec b p Ht Hp) as [[->|(n & Hn & En & ->)] Hc].
  - split_and!; [by split_and!|by intros; apply Hcol|]. intros n Hv. apply Hcol; [in_columns|done].
  - split_and!; [split_and!; [by apply typed_nanos|done|]| |].
    + intros name Hname. destruct (decide (name = "cost_usd_nanos")) as [->|];
        rewrite ?lookup_insert_eq, ?lookup_insert_ne by done; [done|by apply Hfull].
    + intros name v Hname Hne Hv. rewrite col_insert_ne by done. by apply Hcol.
    + intros m Hv. assert ("cost_usd_nanos" ∈ PROVIDER_CALL_COLUMNS) as Hin by in_columns.
      by rewrite (Hcol _ _ Hin Hv) in En.
Qed.

Lemma py_eq_typed k v w : field_ok k v = true → field_ok k w = true → py_eq v w = true → v = w.
Proof.
  destruct k, v, w; try done; cbn; intros ???; f_equal;
    repeat match goal with H : bool_decide _ = true |- _ => apply bool_decide_eq_true in H end; naive_solver.
Qed.

Lemma kind_of_column name : name ∈ PROVIDER_CALL_COLUMNS → ∃ k, (name, k) ∈ field_kinds.
Proof.
  rewrite <-(fields_names ""). intros ([n k] & -> & Hk)%list_elem_of_fmap. by exists k.
Qed.

(** ** Payloads *)

Section ledger_spec.
Context (registry : string → option (Q * Q * string))
        (token_cost : Z → Q → Z → Q → option Q) (round_nanos : Q → Z).
Abbreviation price := (price_kimi_shim_observation registry token_cost round_nanos).
Abbreviation payload_of := (provider_call_payload registry token_cost round_nanos).
Abbreviation record := (record_provider_call_row registry token_cost round_nanos).
Abbreviation settle := (settle_provider_call_row registry token_cost round_nanos).

Definition shim (c : row) : bool := is_text c "adapter_key" "estate-kimi-shim".

Lemma price_plain c : shim c = false → price c = c.
Proof. unfold price_kimi_shim_observation, shim. by intros ->. Qed.

(** The columns pricing writes. *)
Definition PRICED : list string := ["input_tokens"; "output_tokens"] ++ COST_COLUMNS.

Lemma assign_lookup (fields r : row) name : fields !! name = None → assign fields r !! name = r !! name.
Proof. intros Hn. unfold assign. by rewrite lookup_union_r. Qed.

Lemma price_keeps c name : ¬ (name ∈ PRICED) → price c !! name = c !! name.
Proof.
  intros Hn. unfold price_kimi_shim_observation.
  assert (∀ v w x y z : sql_value, (list_to_map
    [("cost_usd_decimal", v); ("cost_usd_nanos", w); ("cost_quality", x);
     ("cost_upper_bound_usd_nanos", y); ("cost_source", z)] : row) !! name = None) as Hfields.
  { intros. apply not_elem_of_list_to_map. intros Hin. apply Hn. cbn in Hin. unfold PRICED, COST_COLUMNS. set_solver. }
  repeat case_match; rewrite ?assign_lookup by apply Hfields; try done;
    rewrite !lookup_insert_ne; try done; intros <-; apply Hn; unfold PRICED; set_solver.
Qed.

Lemma keep_price_keeps e c name : ¬ (name ∈ COST_COLUMNS) → keep_price e c !! name = c !! name.
Proof.
  unfold keep_price. generalize COST_COLUMNS. intros cs. revert c.
  induction cs as [|x cs IH]; intros c Hn; [done|]. simpl. rewrite IH by set_solver.
  apply lookup_insert_ne. set_solver.
Qed.

(** A payload is valid, and keeps the fields pricing does not touch. *)
Lemma payload_spec now c ex p :
  payload_of now c ex = Ok p →
  row_ok p ∧ ∀ name v, name ∈ PROVIDER_CALL_COLUMNS → ¬ (name ∈ PRICED) → c !! name = Some v → col p name = v.
Proof.
  unfold provider_call_payload. destruct (model_validate now _) as [p'|] eqn:E; [|done]. intros [= ->].
  apply model_validate_spec in E as (Hok & Hcol & _). split; [done|]. intros name v Hname Hp Hv.
  apply Hcol; [done|intros ->; apply Hp; by in_columns|]. rewrite price_keeps by done.
  destruct ex as [e|]; [|done].
  assert ((match c !! "created_at" with None => <["created_at" := col e "created_at"]> c | Some _ => c end) !! name
    = Some v) as Hc.
  { destruct (c !! "created_at") eqn:Ec; [done|]. rewrite lookup_insert_ne; [done|]. intros <-. congruence. }
  destruct (priced_before _ _); [|done]. rewrite keep_price_keeps; [done|]. intros Hc'. apply Hp.
  apply elem_of_app. by right.
Qed.
(** ** The ledger invariant *)

Definition ledger_ok (l : ledger) : Prop :=
  keyed "call_id" l.(calls) ∧ ∀ r, r ∈ l.(calls) → row_ok r.

Lemma row_ok_text r name : row_ok r → (name, KText) ∈ field_kinds → ∃ s, col r name = VText s.
Proof.
  intros (Ht & _) Hk. specialize (Ht _ _ Hk). destruct (col r name) as [| | |s]; try done. by exists s.
Qed.

Lemma row_ok_insert_id r n : row_ok r → row_ok (<["id" := VInt n]> r).
Proof.
  intros (Ht & Hc & Hf).
  assert (∀ name, name ∈ PROVIDER_CALL_COLUMNS → name ≠ "id") as Hid.
  { intros name Hname ->. revert Hname. apply (bool_decide_unpack _). by vm_compute. }
  split_and!.
  - intros name k Hk. rewrite col_insert_ne; [by apply Ht|]. intros <-.
    apply (Hid "id"); [|done]. rewrite <-(fields_names ""). by apply (list_elem_of_fmap_2' fst _ ("id", k)).
  - unfold cost_consistent in *. by rewrite !col_insert_ne by done.
  - intros name Hname. rewrite lookup_insert_ne; [by apply Hf|]. intros <-. by apply (Hid "id").
Qed.

Lemma get_row_Some id l e :
  keyed "call_id" l.(calls) → get_provider_call_row id l = Some e ↔ e ∈ l.(calls) ∧ col e "call_id" = VText id.
Proof.
  intros Hk. unfold get_provider_call_row. split.
  - intros [He Hid]%head_Some_elem_of%elem_of_select. split; [done|]. by apply is_text_spec in Hid.
  - intros [He Hid]. unfold with_call. by rewrite (keyed_find _ _ _ _ Hk He Hid).
Qed.

(** Recording returns an existing row or appends a valid one. *)
Lemma record_inv now obs l r l' :
  ledger_ok l → record now obs l = Ok (r, l') →
  (l' = l ∧ r ∈ l.(calls)) ∨
  ∃ p, payload_of now obs None = Ok p ∧ r = <["id" := VInt (l.(last_call) + 1)]> p ∧
    l'.(calls) = l.(calls) ++ [r] ∧ ledger_ok l'.
Proof.
  intros [Hk Hrows]. unfold record_provider_call_row.
  set (existing := match col obs "call_id" with VText "" => None | VText _ => _ | _ => None end).
  destruct existing as [e|] eqn:Ee; intros (p & Hp & Hr)%bind_Ok.
  - left. destruct (provider_call_equal e p); [|done]. injection Hr as <- <-. split; [done|].
    unfold existing in Ee. destruct (col obs "call_id") as [| | |[|a s]]; try done.
    by apply (get_row_Some (String a s) l e Hk) in Ee as [? _].
  - right. exists p. split; [done|]. apply payload_spec in Hp as [Hok _].
    unfold insert_provider_call_row in Hr. destruct (negb _); [done|].
    destruct (existsb _ _) eqn:Edup; [done|]. injection Hr as <- <-. split; [done|]. split; [done|].
    destruct (row_ok_text p "call_id" Hok ltac:(in_fields)) as [s Hs]. split.
    + apply (keyed_app _ _ _ s); [done|by rewrite col_insert_ne|]. by rewrite Hs in Edup.
    + intros x [Hx|Hx%list_elem_of_singleton]%elem_of_app; [by apply Hrows|]. subst x. by apply row_ok_insert_id.
Qed.

Lemma write_payload_col p r c :
  col (write_payload p r) c =
    if bool_decide (c ∈ PROVIDER_CALL_COLUMNS) && negb (bool_decide (c = "call_id")) then col p c else col r c.
Proof.
  unfold write_payload. pose proof columns_nodup as Hnd. revert Hnd r. generalize PROVIDER_CALL_COLUMNS.
  intros cs. induction cs as [|x cs IH]; intros Hnd r; [done|]. apply NoDup_cons in Hnd as [Hx Hnd]. simpl.
  rewrite IH by done. destruct (decide (c = x)) as [->|Hne].
  - rewrite (bool_decide_false (x ∈ cs)), (bool_decide_true (x ∈ x :: cs)) by (done || apply list_elem_of_here).
    cbn [andb]. destruct (decide (x = "call_id")) as [E|E].
    + by rewrite !(bool_decide_true _ E).
    + rewrite !(bool_decide_false _ E). cbn [negb]. by rewrite col_insert.
  - rewrite (bool_decide_ext (c ∈ x :: cs) (c ∈ cs)) by (rewrite elem_of_cons; naive_solver).
    destruct (_ && _); [done|]. case_bool_decide; [done|]. by rewrite col_insert_ne.
Qed.

Lemma immutable_columns name :
  name ∈ PROVIDER_CALL_IMMUTABLE_COLUMNS →
  name ∈ PROVIDER_CALL_COLUMNS ∧ ¬ (name ∈ PRICED) ∧ name ≠ "settled_at".
Proof.
  assert (Forall (λ n, n ∈ PROVIDER_CALL_COLUMNS ∧ ¬ (n ∈ PRICED) ∧ n ≠ "settled_at")
    PROVIDER_CALL_IMMUTABLE_COLUMNS) as Hall by (apply (bool_decide_unpack _); by vm_compute).
  rewrite Forall_forall in Hall. apply Hall.
Qed.

Lemma write_payload_full p r name : r !! name ≠ None → write_payload p r !! name ≠ None.
Proof.
  unfold write_payload. generalize PROVIDER_CALL_COLUMNS. intros cs. revert r.
  induction cs as [|x cs IH]; intros r Hr; [done|]. simpl. apply IH. case_bool_decide; [done|].
  destruct (decide (x = name)) as [->|]; rewrite ?lookup_insert_eq, ?lookup_insert_ne by done; done.
Qed.

Lemma write_payload_ok p r : row_ok p → row_ok r → row_ok (write_payload p r).
Proof.
  intros (Htp & Hcp & _) (Htr & _ & Hfr). split_and!.
  - intros name k Hk. rewrite write_payload_col. destruct (_ && _); auto.
  - unfold cost_consistent in *. by rewrite !write_payload_col.
  - intros name Hname. by apply write_payload_full, Hfr.
Qed.

Definition settled (r : row) : Prop := col r "settled_at" ≠ VNull.

(** Settling returns a settled row unchanged or writes a valid payload that keeps
    the immutable columns and is settled. *)
Lemma settle_inv now id upd l r l' :
  ledger_ok l → settle now id upd l = Ok (r, l') →
  ∃ e, e ∈ l.(calls) ∧ col e "call_id" = VText id ∧
    ((settled e ∧ r = e ∧ l' = l) ∨
     (¬ settled e ∧ ∃ p candidate, payload_of now candidate (Some e) = Ok p ∧
        (∀ name, name ∈ PROVIDER_CALL_COLUMNS → upd !! name = None → ¬ (name = "settled_at") →
           candidate !! name = e !! name) ∧
        row_ok p ∧ settled p ∧
        (∀ name, name ∈ PROVIDER_CALL_IMMUTABLE_COLUMNS → col p name = col e name) ∧
        r = write_payload p e ∧
        l' = set_calls (update_where (with_call id) (write_payload p)) l)).
Proof.
  intros [Hk Hrows]. unfold settle_provider_call_row.
  destruct (get_provider_call_row id l) as [e|] eqn:Ee; [|done]. apply (get_row_Some id l e Hk) in Ee as [He Hid].
  destruct (match upd !! "call_id" with Some v => _ | None => false end); [done|].
  destruct (changes_immutable upd e) eqn:Eimm; [done|]. intros Hop. exists e. split_and!; [done..|].
  destruct (is_null (col e "settled_at")) eqn:Es; cbn [negb] in Hop.
  - right. split; [intros Hs; apply Hs; by destruct (col e "settled_at")|].
    apply bind_Ok in Hop as (p & Hp & Hop). destruct (negb _); [done|].
    set (candidate := <["settled_at" := _]> _) in Hp. exists p, candidate.
    pose proof (payload_spec _ _ _ _ Hp) as [Hok Hcol].
    assert (∀ name, name ∈ PROVIDER_CALL_IMMUTABLE_COLUMNS → col p name = col e name) as Himm.
    { intros name Hname. assert (name ∈ PROVIDER_CALL_COLUMNS ∧ ¬ (name ∈ PRICED) ∧ name ≠ "settled_at") as (Hin & Hpr & Hset)
        by (by apply immutable_columns).
      assert (∀ v, candidate !! name = Some v → col p name = v) as Hp' by (intros v; by apply Hcol).
      unfold candidate in Hp'. rewrite lookup_insert_ne in Hp' by done.
      destruct (decide (name = "created_at")) as [->|Hcr]; [rewrite lookup_insert_eq in Hp'; by apply Hp'|].
      rewrite lookup_insert_ne in Hp' by done.
      destruct (decide (name = "call_id")) as [->|Hca];
        [rewrite lookup_insert_eq in Hp'; rewrite Hid; by apply Hp'|].
      rewrite lookup_insert_ne, lookup_union in Hp' by done.
      destruct (Hrows e He) as (Hte & _ & Hfe). destruct (e !! name) as [w|] eqn:Ew; [|by destruct (Hfe name Hin)].
      assert (col e name = w) as Hcw by (unfold col; by rewrite Ew).
      destruct (upd !! name) as [v|] eqn:Ev; simpl in Hp'; [|rewrite Hcw; by apply Hp'].
      rewrite (Hp' v eq_refl). destruct (kind_of_column name Hin) as [k Hkind].
      apply (py_eq_typed k); [rewrite <-(Hp' v eq_refl); by apply Hok|by apply Hte|].
      apply not_true_iff_false in Eimm. destruct (py_eq v (col e name)) eqn:Epy; [done|]. destruct Eimm.
      apply existsb_exists. exists name. rewrite Ev, Epy. split; [by apply list_elem_of_In|done]. }
    split_and!; [done| |done| |done| |].
    + intros name Hname Hu Hne. unfold candidate. rewrite lookup_insert_ne by done.
      destruct (Hrows e He) as (_ & _ & Hfe). pose proof (Hfe name Hname) as Hse.
      destruct (decide (name = "created_at")) as [->|Hcr].
      { rewrite lookup_insert_eq. unfold col. by destruct (e !! "created_at"). }
      rewrite lookup_insert_ne by done. destruct (decide (name = "call_id")) as [->|Hca].
      { rewrite lookup_insert_eq. unfold col in Hid. by destruct (e !! "call_id"); simplify_eq/=. }
      rewrite lookup_insert_ne, lookup_union, Hu by done. by destruct (e !! name).
    + unfold settled. rewrite (Hcol "settled_at" _ ltac:(in_columns) ltac:(in_columns) (lookup_insert_eq _ _ _)).
      unfold ProviderLedger.or_else. destruct (truthy _) eqn:Et; [|done]. by destruct (col upd "settled_at").
    + assert (get_provider_call_row id (set_calls (update_where (with_call id) (write_payload p)) l)
        = Some (write_payload p e)) as Hget.
      { apply get_row_Some; [apply keyed_update; [|done]|].
        - intros x. by rewrite write_payload_col.
        - rewrite write_payload_col. split; [|done]. apply elem_of_update_where. exists e. split; [done|].
          unfold with_call. by rewrite (proj2 (is_text_spec _ _ _) Hid). }
      rewrite Hget in Hop. by injection Hop as <- _.
    + destruct (get_provider_call_row _ _) in Hop; [|done]. by injection Hop as _ <-.
  - left. apply bind_Ok in Hop as (p & Hp & Hop). destruct (provider_call_equal e p); [|done].
    injection Hop as <- <-. split_and!; [|done..]. unfold settled. by destruct (col e "settled_at").
Qed.
(** ** Rows only evolve *)

(** Every row stays, keeps its identity and, once settled, never changes. *)
Definition evolves (l l' : ledger) : Prop :=
  ledger_ok l' ∧ ∀ x, x ∈ l.(calls) → ∃ y, y ∈ l'.(calls) ∧
    (∀ c, c ∈ PROVIDER_CALL_IMMUTABLE_COLUMNS → col y c = col x c) ∧ (settled x → y = x).

Lemma evolves_refl l : ledger_ok l → evolves l l.
Proof. intros Hl. split; [done|]. intros x Hx. by exists x. Qed.

Lemma evolves_trans l1 l2 l3 : evolves l1 l2 → evolves l2 l3 → evolves l1 l3.
Proof.
  intros [_ H12] [Hok H23]. split; [done|]. intros x Hx. destruct (H12 x Hx) as (y & Hy & Hc & Hs).
  destruct (H23 y Hy) as (z & Hz & Hc' & Hs'). exists z. split_and!; [done| |].
  - intros c Hcol. by rewrite Hc', Hc.
  - intros Hset. pose proof (Hs Hset) as ->. by apply Hs'.
Qed.

Lemma record_evolves now obs l r l' : ledger_ok l → record now obs l = Ok (r, l') → evolves l l'.
Proof.
  intros Hl Hr. destruct (record_inv _ _ _ _ _ Hl Hr) as [[-> _]|(p & _ & _ & Hcalls & Hl')];
    [by apply evolves_refl|]. split; [done|]. intros x Hx. exists x. split; [|done].
  rewrite Hcalls. apply elem_of_app. by left.
Qed.

Lemma settle_evolves now id upd l r l' : ledger_ok l → settle now id upd l = Ok (r, l') → evolves l l'.
Proof.
  intros Hl Hop. destruct (settle_inv _ _ _ _ _ _ Hl Hop) as
    (e & He & Hid & [(_ & _ & ->)|(Hns & p & candidate & _ & _ & Hok & _ & Himm & _ & ->)]); [by apply evolves_refl|].
  destruct Hl as [Hk Hrows].
  assert (∀ x c, x ∈ l.(calls) → with_call id x = true → c ∈ PROVIDER_CALL_IMMUTABLE_COLUMNS →
    col (write_payload p x) c = col x c) as Hkeep.
  { intros x c Hx Hi%is_text_spec Hc. assert (x = e) as -> by (apply (keyed_inj "call_id" l.(calls)); congruence).
    rewrite write_payload_col. case_match; [by apply Himm|done]. }
  split; [split|].
  - apply keyed_update; [|done]. intros x. by rewrite write_payload_col.
  - intros y (x & Hx & ->)%elem_of_update_where. case_match; [|by apply Hrows]. apply write_payload_ok; auto.
  - intros x Hx. eexists. split; [apply elem_of_update_where; by exists x|].
    destruct (with_call id x) eqn:Ei; [|done]. split; [by intros; apply Hkeep|]. intros Hs.
    apply is_text_spec in Ei. assert (x = e) as -> by (apply (keyed_inj "call_id" l.(calls)); congruence). done.
Qed.

Lemma settle_each_evolves now ids l l' :
  ledger_ok l → settle_each registry token_cost round_nanos now ids l = Ok l' → evolves l l'.
Proof.
  revert l. induction ids as [|i ids IH]; intros l Hl; simpl; [intros [= <-]; by apply evolves_refl|].
  intros ([r l1] & Hs & Hrest)%bind_Ok. pose proof (settle_evolves _ _ _ _ _ _ Hl Hs) as Hev.
  eapply evolves_trans; [exact Hev|]. apply IH; [apply Hev|done].
Qed.

Inductive ledger_step (l : ledger) : ledger → Prop :=
  | step_record now obs : ledger_step l (record_provider_call registry token_cost round_nanos now obs l).2
  | step_settle now id upd : ledger_step l (settle_provider_call registry token_cost round_nanos now id upd l).2
  | step_reserve now provider day cap proposed refused override :
      ledger_step l (reserve_provider_spend registry token_cost round_nanos now provider day cap proposed
                       refused override l).2
  | step_sweep now before :
      ledger_step l (sweep_stale_provider_reservations registry token_cost round_nanos now before l).2
  | step_claim now cutoff id provider day marker :
      ledger_step l (claim_provider_alert registry token_cost round_nanos now cutoff id provider day marker l).2
  | step_confirm now id provider day marker delivered :
      ledger_step l (confirm_provider_alert registry token_cost round_nanos now id provider day marker delivered l).2.

Lemma write_evolves {A} (body : ledger → result ledger_error (A * ledger)) l :
  ledger_ok l → (∀ a l', body l = Ok (a, l') → evolves l l') → evolves l (write body l).2.
Proof.
  intros Hl Hb. unfold write. destruct (body l) as [[a l']|] eqn:E; simpl; [by eapply Hb|by apply evolves_refl].
Qed.

Lemma ledger_step_evolves l l' : ledger_ok l → ledger_step l l' → evolves l l'.
Proof.
  intros Hl Hst. destruct Hst; try (apply write_evolves; [done|]).
  - intros r l1. by apply record_evolves.
  - intros r l1. by apply settle_evolves.
  - unfold reserve_provider_spend. case_match; [by apply evolves_refl|]. apply write_evolves; [done|].
    intros res l2 (prior & _ & (p & _ & ([r l1] & Hr & [= _ <-])%bind_Ok)%bind_Ok)%bind_Ok.
    by eapply record_evolves.
  - intros n l2 (l1 & Hs & [= _ <-])%bind_Ok. by eapply settle_each_evolves.
  - intros b l2. cbv zeta. do 2 (destruct (existsb _ _); [intros [= _ <-]; by apply evolves_refl|]). intros Hb.
    apply bind_Ok in Hb as ([r l1] & Hr & [= _ <-]). by eapply record_evolves.
  - intros b l3. case_match; [|done]. intros (l1 & H1 & ([r2 l2] & Hs & [= _ <-])%bind_Ok)%bind_Ok.
    assert (evolves l l1) as Hev.
    { case_match; [|injection H1 as <-; by apply evolves_refl].
      apply bind_Ok in H1 as ([r1 l1'] & Hr & [= <-]). by eapply record_evolves. }
    eapply evolves_trans; [exact Hev|]. eapply settle_evolves; [apply Hev|done].
Qed.

(** C28: the ledger settles every call once.  From a well-formed ledger, no sequence of
    records, settlements, reservations, sweeps and alert transactions removes a
    call or changes what identifies it, and a settled call is never changed again;
    the ledger stays well-formed, so a call id never has two rows and the cost
    fields always agree with the stated quality. *)
Theorem ledger_settles_once l l' x :
  ledger_ok l → rtc ledger_step l l' → x ∈ l.(calls) →
  ledger_ok l' ∧ ∃ y, y ∈ l'.(calls) ∧
    (∀ c, c ∈ PROVIDER_CALL_IMMUTABLE_COLUMNS → col y c = col x c) ∧ (settled x → y = x).
Proof.
  intros Hl Hrtc Hx. assert (evolves l l') as [Hl' Hev].
  { clear Hx. induction Hrtc as [l|l l1 l2 Hst _ IH]; [by apply evolves_refl|].
    pose proof (ledger_step_evolves _ _ Hl Hst) as Hev. eapply evolves_trans; [exact Hev|]. apply IH, Hev. }
  split; [done|]. by apply Hev.
Qed.
(** ** Spend *)

Lemma sum_of_app f t1 t2 : (sum_of f (t1 ++ t2) = sum_of f t1 + sum_of f t2)%Z.
Proof. induction t1 as [|x t1 IH]; simpl; [done|]. unfold sum_of in *. simpl. rewrite IH. lia. Qed.

Section spend.
Context (provider day : string).
Abbreviation spend := (spend_nanos provider day).
Abbreviation counted := (counts_for provider day).

Lemma spend_append l r id :
  spend (mkLedger (l.(calls) ++ [r]) id) = (spend l + (if counted r then row_spend r else 0))%Z.
Proof.
  unfold spend_nanos, select. cbn [calls]. rewrite List.filter_app, sum_of_app. simpl.
  destruct (counted r); unfold sum_of; simpl; lia.
Qed.

(** Replacing the one row of a call id changes the sum by its difference. *)
Lemma spend_update l id f e :
  keyed "call_id" l.(calls) → e ∈ l.(calls) → col e "call_id" = VText id → counted (f e) = counted e →
  spend (set_calls (update_where (with_call id) f) l) =
    (spend l + (if counted e then row_spend (f e) - row_spend e else 0))%Z.
Proof.
  intros [Hnd _] He Hid Hcount. apply list_elem_of_split in He as (t1 & t2 & Ht).
  unfold spend_nanos, set_calls, select. cbn [calls]. rewrite Ht in Hnd |- *.
  rewrite map_app in Hnd. cbn [map] in Hnd. apply NoDup_app in Hnd as (_ & Hd & Hnd).
  apply NoDup_cons in Hnd as [Hd2 _].
  assert (∀ t, (∀ x, x ∈ t → col x "call_id" ≠ VText id) → update_where (with_call id) f t = t) as Hskip.
  { intros t Hno. apply update_where_none. unfold rowcount. rewrite select_none; [done|].
    intros x Hx. apply is_text_false. by apply Hno. }
  assert (update_where (with_call id) f (t1 ++ e :: t2) = t1 ++ f e :: t2) as ->.
  { unfold update_where. rewrite map_app. cbn [map]. unfold with_call at 2.
    rewrite (proj2 (is_text_spec _ _ _) Hid). fold (update_where (with_call id) f t1).
    fold (update_where (with_call id) f t2). rewrite !Hskip; [done|..].
    - intros x Hx E. apply Hd2. rewrite Hid, <-E. by apply (list_elem_of_fmap_2 (λ r, col r "call_id")).
    - intros x Hx E. apply (Hd (col x "call_id")).
      + by apply (list_elem_of_fmap_2 (λ r, col r "call_id")).
      + rewrite E, <-Hid. apply list_elem_of_here. }
  rewrite !List.filter_app, !sum_of_app. cbn [List.filter]. rewrite Hcount.
  destruct (counted e); unfold sum_of; simpl; lia.
Qed.

Lemma counted_same r r' :
  col r' "billing_provider" = col r "billing_provider" → col r' "created_at" = col r "created_at" →
  counted r' = counted r.
Proof. intros Hb Hc. unfold counts_for, row_day, str, text, is_text. by rewrite Hb, Hc. Qed.

Lemma counted_id r n : counted (<["id" := VInt n]> r) = counted r.
Proof. apply counted_same; by rewrite col_insert_ne. Qed.
Lemma spend_id r n : row_spend (<["id" := VInt n]> r) = row_spend r.
Proof. unfold row_spend. by rewrite !col_insert_ne. Qed.
Lemma spend_written p r : row_spend (write_payload p r) = row_spend p.
Proof. unfold row_spend. by rewrite !write_payload_col. Qed.

Lemma row_spend_nonneg r : typed r → (0 ≤ row_spend r)%Z.
Proof.
  intros Hr. destruct (typed_costs r Hr) as (_ & Hn & Hu). unfold row_spend.
  destruct Hn as [->|(n & -> & ?)]; [|done]. by destruct Hu as [->|(u & -> & ?)].
Qed.

(** Settling changes the spend by the difference of the two rows. *)
Lemma settle_spend now id upd l r l' e :
  ledger_ok l → settle now id upd l = Ok (r, l') → e ∈ l.(calls) → col e "call_id" = VText id →
  (row_spend r ≤ row_spend e)%Z → (spend l' ≤ spend l)%Z.
Proof.
  intros Hl Hop He Hid Hle. destruct (settle_inv _ _ _ _ _ _ Hl Hop) as
    (e' & He' & Hid' & [(_ & _ & ->)|(_ & p & candidate & _ & _ & _ & _ & Himm & -> & ->)]); [lia|].
  assert (e' = e) as -> by (apply (keyed_inj "call_id" l.(calls)); [apply Hl|done..|congruence]).
  rewrite (spend_update l id (write_payload p) e); [|apply Hl|done..|].
  - destruct (counted e); lia.
  - apply counted_same; rewrite write_payload_col; apply Himm; in_columns.
Qed.

(** A settlement that leaves the cost fields alone keeps the row's spend. *)
Lemma settle_same_cost now id upd l r l' e :
  ledger_ok l → settle now id upd l = Ok (r, l') → e ∈ l.(calls) → col e "call_id" = VText id →
  shim e = false →
  (∀ c, c ∈ ["adapter_key"; "cost_usd_nanos"; "cost_upper_bound_usd_nanos"; "cost_quality"] → upd !! c = None) →
  row_spend r = row_spend e.
Proof.
  intros Hl Hop He Hid Hshim Hupd. destruct (settle_inv _ _ _ _ _ _ Hl Hop) as
    (e' & He' & Hid' & [(_ & -> & _)|(_ & p & c & Hp & Hcand & Hok & _ & _ & -> & _)]);
    (assert (e' = e) as -> by (apply (keyed_inj "call_id" l.(calls)); [apply Hl|done..|congruence])); [done|].
  rewrite spend_written. unfold provider_call_payload in Hp.
  assert (∀ x, x ∈ ["adapter_key"; "cost_usd_nanos"; "cost_upper_bound_usd_nanos"; "cost_quality"] →
    c !! x = e !! x) as Hsame.
  { intros x Hx. apply Hcand; [|by apply Hupd|]; revert x Hx; apply Forall_forall;
      apply (bool_decide_unpack _); by vm_compute. }
  set (c' := match c !! "created_at" with None => _ | Some _ => c end) in Hp.
  assert (∀ x, x ∈ ["adapter_key"; "cost_usd_nanos"; "cost_upper_bound_usd_nanos"; "cost_quality"] →
    c' !! x = e !! x) as Hsame'.
  { intros x Hx. rewrite <-Hsame by done. unfold c'. destruct (c !! "created_at"); [done|].
    apply lookup_insert_ne. intros <-. revert Hx. apply (bool_decide_unpack _); by vm_compute. }
  assert (∀ x, x ∈ ["adapter_key"; "cost_usd_nanos"; "cost_upper_bound_usd_nanos"; "cost_quality"] →
    col c' x = col e x) as Hcol by (intros x Hx; unfold col; by rewrite Hsame').
  assert (shim c' = false) as Hc' by (unfold shim, is_text in *; rewrite Hcol; [done|apply list_elem_of_here]).
  unfold priced_before in Hp. unfold shim in Hc'. rewrite Hc' in Hp. cbn [andb] in Hp.
  rewrite price_plain in Hp by exact Hc'.
  destruct (model_validate now c') as [p'|] eqn:Ev; [|done]. injection Hp as ->.
  apply model_validate_spec in Ev as ((_ & Hcp & _) & Hkeep & Hnanos).
  destruct (proj2 Hl e He) as (Hte & Hce & Hfe).
  assert (∀ x, x ∈ ["cost_upper_bound_usd_nanos"; "cost_quality"] → col p x = col e x) as Hpe.
  { intros x Hx. assert (x ∈ PROVIDER_CALL_COLUMNS ∧ x ≠ "cost_usd_nanos" ∧
      x ∈ ["adapter_key"; "cost_usd_nanos"; "cost_upper_bound_usd_nanos"; "cost_quality"]) as (Hin & Hne & Hx')
      by (revert x Hx; apply Forall_forall; apply (bool_decide_unpack _); by vm_compute).
    destruct (e !! x) as [v|] eqn:E; [|by destruct (Hfe x Hin)].
    rewrite (Hkeep x v Hin Hne); unfold col; rewrite ?E, ?Hsame'; done. }
  pose proof (Hpe "cost_quality" ltac:(set_solver)) as Hq.
  unfold row_spend. rewrite (Hpe "cost_upper_bound_usd_nanos" ltac:(set_solver)).
  assert (col p "cost_usd_nanos" = col e "cost_usd_nanos") as ->; [|done].
  destruct (typed_costs e Hte) as (_ & [En|(n & En & _)] & _).
  - rewrite En. unfold cost_consistent in Hcp, Hce. rewrite Hq in Hcp.
    destruct (typed_quality e Hte) as [Eq|[Eq|Eq]]; [by destruct Hce as [Hx _]; destruct (Hx Eq)|..]; naive_solver.
  - rewrite En. apply Hnanos. rewrite Hsame' by set_solver. unfold col in En.
    destruct (e !! "cost_usd_nanos"); by simplify_eq/=.
Qed.
Lemma settle_origin now id upd l r l' y :
  ledger_ok l → settle now id upd l = Ok (r, l') → y ∈ l'.(calls) →
  ∃ x, x ∈ l.(calls) ∧ col y "call_id" = col x "call_id" ∧ shim y = shim x.
Proof.
  intros Hl Hop Hy. destruct (settle_inv _ _ _ _ _ _ Hl Hop) as
    (e & He & Hid & [(_ & _ & ->)|(_ & p & c & _ & _ & _ & _ & Himm & _ & ->)]); [by exists y|].
  apply elem_of_update_where in Hy as (x & Hx & ->). exists x. split; [done|].
  destruct (with_call id x) eqn:Ei; [|done]. apply is_text_spec in Ei.
  assert (x = e) as -> by (apply (keyed_inj "call_id" l.(calls)); [apply Hl|done..|congruence]).
  unfold shim, is_text. rewrite !write_payload_col. split; [done|].
  change (bool_decide ("adapter_key" ∈ PROVIDER_CALL_COLUMNS)) with true. simpl.
  by rewrite Himm by in_columns.
Qed.

Lemma sweep_spend now ids l l' :
  ledger_ok l → (∀ e i, e ∈ l.(calls) → i ∈ ids → col e "call_id" = VText i → shim e = false) →
  settle_each registry token_cost round_nanos now ids l = Ok l' → (spend l' ≤ spend l)%Z.
Proof.
  revert l. induction ids as [|i ids IH]; intros l Hl Hshim; simpl; [by intros [= <-]|].
  intros ([r l1] & Hs & Hrest)%bind_Ok.
  destruct (settle_inv _ _ _ _ _ _ Hl Hs) as (e & He & Hid & _).
  assert (row_spend r = row_spend e) as Hsame.
  { apply (settle_same_cost _ _ _ _ _ _ e Hl Hs He Hid); [by apply (Hshim e i); [|apply list_elem_of_here|]|].
    intros c Hc. apply not_elem_of_list_to_map. revert c Hc. apply Forall_forall.
    apply (bool_decide_unpack _); by vm_compute. }
  transitivity (spend l1).
  - apply IH; [by eapply settle_evolves| |done]. intros y j Hy Hj Hyj.
    destruct (settle_origin _ _ _ _ _ _ _ Hl Hs Hy) as (x & Hx & Hxid & ->).
    apply (Hshim x j); [done|by apply list_elem_of_further|congruence].
  - eapply (settle_spend _ _ _ _ _ _ e); [done..|lia].
Qed.

(** What the spend guard proposes and what it records on refusal; neither is priced
    by the ledger itself. *)
Definition proposal (c : row) : Prop := shim c = false ∧ c !! "cost_quality" = Some (VText "estimated").
Definition costless (c : row) : Prop :=
  shim c = false ∧ c !! "cost_quality" = Some (VText "unknown") ∧
  c !! "cost_upper_bound_usd_nanos" = Some VNull.

Lemma plain_payload now c p :
  shim c = false → payload_of now c None = Ok p → row_ok p ∧
  ∀ name v, name ∈ PROVIDER_CALL_COLUMNS → name ≠ "cost_usd_nanos" → c !! name = Some v → col p name = v.
Proof.
  intros Hs. unfold provider_call_payload. rewrite price_plain by done.
  destruct (model_validate now c) as [p'|] eqn:E; [|done]. intros [= ->].
  by apply model_validate_spec in E as (? & ? & _).
Qed.

Lemma proposal_spend now c p :
  proposal c → payload_of now c None = Ok p →
  (0 ≤ row_spend p)%Z ∧ col p "cost_upper_bound_usd_nanos" = VInt (row_spend p).
Proof.
  intros [Hs Hq] Hp. apply plain_payload in Hp as ((Ht & (_ & Hc & _) & _) & Hcol); [|done].
  split; [by apply row_spend_nonneg|].
  destruct Hc as (Hn & _ & Hu); [apply Hcol; [in_columns|done..]|].
  destruct (typed_costs p Ht) as (_ & _ & [?|(u & Eu & _)]); [done|]. unfold row_spend. by rewrite Hn, Eu.
Qed.

Lemma costless_spend now c p : costless c → payload_of now c None = Ok p → row_spend p = 0%Z.
Proof.
  intros (Hs & Hq & Hu) Hp. apply plain_payload in Hp as ((Ht & (_ & _ & Hc) & _) & Hcol); [|done].
  destruct Hc as (Hn & _); [apply Hcol; [in_columns|done..]|].
  unfold row_spend. rewrite Hn, (Hcol "cost_upper_bound_usd_nanos" VNull); [done|in_columns|done..].
Qed.

(** What other writers may do to the ledger while a cap is enforced: reserve through
    the guard, settle within the reservation, sweep, and record calls billed to other
    providers. *)
Inductive cap_step (cap : Z) (l : ledger) : ledger → Prop :=
  | cap_reserve now proposed refused :
      proposal proposed → costless refused →
      cap_step cap l (reserve_provider_spend registry token_cost round_nanos now provider day cap
                        proposed refused false l).2
  | cap_settle now id upd e r l' :
      e ∈ l.(calls) → col e "call_id" = VText id →
      settle_provider_call registry token_cost round_nanos now id upd l = (Ok r, l') →
      (row_spend r ≤ row_spend e)%Z → cap_step cap l l'
  | cap_sweep now before :
      (∀ e, e ∈ l.(calls) → stale_reservation before e = true → shim e = false) →
      cap_step cap l (sweep_stale_provider_reservations registry token_cost round_nanos now before l).2
  | cap_other now obs b :
      shim obs = false → obs !! "billing_provider" = Some (VText b) → ¬ (b ∈ billing_provider_aliases provider) →
      cap_step cap l (record_provider_call registry token_cost round_nanos now obs l).2.

Lemma record_spend now obs l r l' :
  ledger_ok l → record now obs l = Ok (r, l') →
  spend l' = spend l ∨ ∃ p, payload_of now obs None = Ok p ∧
    spend l' = (spend l + (if counted p then row_spend p else 0))%Z.
Proof.
  intros Hl Hr. destruct (record_inv _ _ _ _ _ Hl Hr) as [[-> _]|(p & Hp & -> & Hcalls & _)]; [by left|].
  right. exists p. split; [done|]. destruct l' as [t n]. cbn [calls] in Hcalls. subst t.
  by rewrite spend_append, counted_id, spend_id.
Qed.

Lemma cap_step_spend cap l l' : ledger_ok l → cap_step cap l l' → (spend l' ≤ Z.max (spend l) cap)%Z.
Proof.
  intros Hl Hst. destruct Hst as [now proposed refused Hprop Hfree|now id upd e r l2 He Hid Hop Hle
    |now before Hshim|now obs b Hs Hb Hother].
  - unfold reserve_provider_spend. case_match; simpl; [lia|]. unfold write.
    destruct (_ ≫= _) as [[res l2]|] eqn:E; simpl; [|lia].
    apply bind_Ok in E as (prior & Hprior & (p & Hp & ([r l3] & Hr & [= _ <-])%bind_Ok)%bind_Ok).
    assert (prior = spend l) as -> by (unfold provider_spend_nanos in Hprior; destruct (_ <=? _)%Z; by simplify_eq).
    destruct (proposal_spend _ _ _ Hprop Hp) as [Hpos Hup]. rewrite Hup, orb_false_r in Hr.
    apply record_spend in Hr as [->|(q & Hq & ->)]; [lia| |done].
    destruct (Z.leb_spec (spend l + row_spend p) cap) as [Hle|_].
    + rewrite Hp in Hq. injection Hq as <-. destruct (counted p); lia.
    + rewrite (costless_spend _ _ _ Hfree Hq). destruct (counted q); lia.
  - apply write_Ok in Hop. pose proof (settle_spend _ _ _ _ _ _ e Hl Hop He Hid Hle). lia.
  - unfold sweep_stale_provider_reservations, write. destruct (_ ≫= _) as [[n l2]|] eqn:E; simpl; [|lia].
    apply bind_Ok in E as (l3 & Hs & [= _ <-]). apply sweep_spend in Hs; [lia|done|].
    intros e i He (x & -> & Hx)%list_elem_of_fmap Hid. apply elem_of_query in Hx as [Hx Hstale].
    destruct (proj2 (proj1 Hl) x Hx) as [s Hxs]. rewrite (str_id _ _ _ Hxs) in Hid.
    assert (e = x) as -> by (apply (keyed_inj "call_id" l.(calls)); [apply Hl|done..|congruence]). by apply Hshim.
  - unfold record_provider_call, write. destruct (record now obs l) as [[r l2]|] eqn:E; simpl; [|lia].
    apply record_spend in E as [->|(q & Hq & ->)]; [lia| |done].
    assert (counted q = false) as ->; [|lia]. unfold counts_for. apply andb_false_iff. left.
    apply plain_payload in Hq as [_ Hcol]; [|done]. apply not_true_iff_false. intros (a & Ha & Hqa)%existsb_exists.
    apply is_text_spec in Hqa. rewrite (Hcol "billing_provider" (VText b)) in Hqa; [|in_columns|done..].
    injection Hqa as ->. apply Hother. by apply list_elem_of_In.
Qed.

(** The cost, or else its upper bound, of the calls billed to one name on the day. *)
Definition billed_to (name : string) (l : ledger) : Z :=
  sum_of row_spend (select (λ r, is_text r "billing_provider" name && bool_decide (row_day r = day)) l.(calls)).
(** What the cap of the provider is about: moonshot is also billed as kimi. *)
Definition billed (l : ledger) : Z :=
  if bool_decide (provider = "moonshot") then (billed_to "moonshot" l + billed_to "kimi" l)%Z else billed_to provider l.

Lemma sum_disjoint f (p q : row → bool) t : (∀ r, p r = true → q r = true → False) →
  sum_of f (select (λ r, p r || q r) t) = (sum_of f (select p t) + sum_of f (select q t))%Z.
Proof.
  intros Hd. unfold sum_of, select in *. induction t as [|r t IH]; [done|]. cbn. specialize (Hd r).
  destruct (p r), (q r); cbn; rewrite ?IH; lia || by destruct Hd.
Qed.
Lemma spend_billed l : spend l = billed l.
Proof.
  unfold spend_nanos, billed, billed_to. case_bool_decide as Hp.
  - rewrite <-sum_disjoint.
    + f_equal. unfold select. apply List.filter_ext. intros r. unfold counts_for. rewrite Hp.
      change (billing_provider_aliases "moonshot") with ["moonshot"; "kimi"]. cbn [existsb].
      by rewrite orb_false_r, andb_orb_distrib_l.
    + intros r [H1 _]%andb_true_iff [H2 _]%andb_true_iff. apply is_text_spec in H1, H2. congruence.
  - f_equal. unfold select. apply List.filter_ext. intros r. unfold counts_for, billing_provider_aliases.
    rewrite bool_decide_eq_false_2 by done. cbn [existsb]. by rewrite orb_false_r.
Qed.

(** C8: The daily cap holds.  However reservations of the spend guard without its emergency override, settlements within
    their reservation, sweeps of stale reservations and calls billed to other providers interleave, what is billed to a
    provider on a day (the exact cost where it is known and else its upper bound) never exceeds the cap, unless it did
    before the first step; for moonshot that is what is billed as moonshot and as kimi together.  A reservation
    proposes an estimated upper bound and records a refusal without a cost, as the guard builds them, and its rows are
    not those of the kimi shim, which the ledger prices itself; with the override the guard exceeds the cap on purpose. *)
Theorem spend_cap_holds cap l l' :
  ledger_ok l → rtc (cap_step cap) l l' → (billed l' ≤ Z.max (billed l) cap)%Z.
Proof.
  rewrite <-!spend_billed.
  intros Hl Hrtc. induction Hrtc as [l|l l1 l2 Hst _ IH]; [lia|].
  pose proof (cap_step_spend _ _ _ Hl Hst) as Hsp. assert (ledger_ok l1) as Hl1.
  { destruct Hst as [now proposed refused _ _|now id upd e r l3 _ _ Hop _|now before _|now obs b _ _ _];
      try (eapply ledger_step_evolves; [done|constructor]).
    pose proof (step_settle l now id upd) as Hstep. rewrite Hop in Hstep.
    by apply (ledger_step_evolves _ _ Hl). }
  specialize (IH Hl1). lia.
Qed.
End spend.
(** ** Aggregates *)

Lemma sum_by_quality rows :
  (∀ r, r ∈ rows → row_ok r) → select (λ r, is_text r "cost_quality" "unknown") rows = [] →
  (sum_of row_spend rows =
   sum_of (nanos_at "cost_usd_nanos") (select (λ r, is_text r "cost_quality" "exact") rows) +
   sum_of (nanos_at "cost_upper_bound_usd_nanos") (select (λ r, is_text r "cost_quality" "estimated") rows))%Z.
Proof.
  intros Hok. induction rows as [|r rows IH]; [done|].
  destruct (Hok r (list_elem_of_here _ _)) as (Ht & (Hex & Hest & _) & _).
  unfold select in *. cbn [List.filter]. destruct (typed_costs r Ht) as (_ & Hn & Hu).
  destruct (is_text r "cost_quality" "unknown") eqn:Eu; [done|]. intros Hunk.
  specialize (IH (λ x Hx, Hok x (list_elem_of_further _ _ _ Hx)) Hunk). unfold sum_of in *. cbn [foldr]. rewrite IH.
  destruct (typed_quality r Ht) as [E|[E|E]].
  - unfold is_text. rewrite E. eval_text_eq. cbn [foldr]. destruct (Hex E) as [Hnn _].
    destruct Hn as [?|(n & En & _)]; [done|]. unfold row_spend, nanos_at, int. rewrite En. simpl. lia.
  - unfold is_text. rewrite E. eval_text_eq. cbn [foldr]. destruct (Hest E) as (En & _ & Hun).
    destruct Hu as [?|(u & Euv & _)]; [done|]. unfold row_spend, nanos_at, int. rewrite En, Euv. simpl. lia.
  - by apply is_text_false in Eu.
Qed.

Lemma default_sum g (t : table) :
  default 0%Z (if 0 <? length t then Some (sum_of g t) else None) = sum_of g t.
Proof. by destruct t. Qed.

(** an aggregate never treats an unknown cost as zero.  It is marked comparable
    exactly when some call matches and no matching call has an unknown cost; only
    then is there a chargeable figure, and it is the exact sum of the calls. *)
Theorem aggregate_honest f l :
  ledger_ok l →
  let rows := select (filter_matches f) l.(calls) in
  let a := aggregate_provider_call_cost f l in
  (safe_to_compare a = true ↔
     rows ≠ [] ∧ ∀ r, r ∈ rows → col r "cost_quality" ≠ VText "unknown") ∧
  chargeable_nanos a = (if safe_to_compare a then Some (sum_of row_spend rows) else None) ∧
  accounting_incomplete a = negb (safe_to_compare a).
Proof.
  intros [_ Hrows] rows a. unfold a, aggregate_provider_call_cost. fold rows. cbn [safe_to_compare chargeable_nanos accounting_incomplete].
  set (unknown := select (λ r, is_text r "cost_quality" "unknown") rows).
  assert (negb ((length rows =? 0) || (0 <? length unknown)) = true ↔
    rows ≠ [] ∧ ∀ r, r ∈ rows → col r "cost_quality" ≠ VText "unknown") as Hsafe.
  { rewrite negb_true_iff, orb_false_iff, Nat.eqb_neq, Nat.ltb_ge. split.
    - intros [Hne Hun]. split; [by intros ->|]. intros r Hr E.
      assert (r ∈ unknown) as Hin by (apply elem_of_select; split; [done|by apply is_text_spec]).
      destruct unknown; [by apply not_elem_of_nil in Hin|simpl in Hun; lia].
    - intros [Hne Hun]. split; [by destruct rows|]. unfold unknown. rewrite select_none; [simpl; lia|].
      intros r Hr. apply is_text_false. by apply Hun. }
  split; [exact Hsafe|]. split; [|by rewrite negb_involutive].
  destruct ((length rows =? 0) || (0 <? length unknown)) eqn:Einc; [done|]. cbn [negb]. f_equal.
  apply orb_false_iff in Einc as [_ Hun%Nat.ltb_ge].
  rewrite (sum_by_quality rows).
  - by rewrite !default_sum.
  - intros r [Hr _]%elem_of_select. by apply Hrows.
  - fold unknown. destruct unknown; [done|simpl in Hun; lia].
Qed.
End ledger_spec.

(** ** A concrete ledger *)

Definition no_price (m : string) : option (Q * Q * string) := None.
Definition no_cost (p : Z) (a : Q) (c : Z) (b : Q) : option Q := None.
Definition zero_nanos (q : Q) : Z := 0.

Definition demo_call (id quality : string) (bound : sql_value) : row := list_to_map
  [("call_id", VText id); ("request_id", VText "req"); ("execution_id", VText "exec"); ("stage", VText "worker");
   ("provider", VText "kimi"); ("transport", VText "https"); ("requested_model", VText "k3");
   ("effective_model", VText "k3"); ("model_lineage", VText "kimi"); ("billing_provider", VText "kimi");
   ("adapter_key", VText "moonshot-http"); ("request_state", VText "not_sent");
   ("provider_outcome", VText "spend_reserved"); ("cost_upper_bound_usd_nanos", bound);
   ("cost_quality", VText quality); ("cost_source", VText "spend-cap-upper-bound");
   ("created_at", VText "2026-08-06T10:00:00Z")].
Definition empty_ledger : ledger := mkLedger [] 0.
Definition demo_reserved : ledger :=
  (reserve_provider_spend no_price no_cost zero_nanos "2026-08-06T10:00:00Z" "moonshot" "2026-08-06" 1000
     (demo_call "c1" "estimated" (VInt 600)) (demo_call "c1" "unknown" VNull) false empty_ledger).2.

Lemma empty_ledger_ok : ledger_ok empty_ledger.
Proof. split; [split; [constructor|]|]; intros r Hr; by apply not_elem_of_nil in Hr. Qed.

Lemma demo_reserved_ok : ledger_ok demo_reserved.
Proof. eapply ledger_step_evolves; [apply empty_ledger_ok|constructor]. Qed.

Lemma demo_proposal id : proposal (demo_call id "estimated" (VInt 600)).
Proof. split; [vm_compute|]; reflexivity. Qed.
Lemma demo_costless id : costless (demo_call id "unknown" VNull).
Proof. split; [vm_compute|split]; reflexivity. Qed.

(** A second reservation of the same size, under the other alias, is refused. *)
Lemma spend_cap_holds_witness :
  billed "moonshot" "2026-08-06" demo_reserved = 600%Z ∧
  (billed "moonshot" "2026-08-06"
    (reserve_provider_spend no_price no_cost zero_nanos "2026-08-06T11:00:00Z" "moonshot" "2026-08-06" 1000
       (demo_call "c2" "estimated" (VInt 600)) (demo_call "c2" "unknown" VNull) false demo_reserved).2
   ≤ Z.max (billed "moonshot" "2026-08-06" demo_reserved) 1000)%Z.
Proof.
  split; [vm_compute; reflexivity|].
  refine (spend_cap_holds no_price no_cost zero_nanos "moonshot" "2026-08-06" 1000 demo_reserved _
    demo_reserved_ok (rtc_once _ _ _)).
  exact (cap_reserve _ _ _ _ _ _ _ "2026-08-06T11:00:00Z" _ _ (demo_proposal "c2") (demo_costless "c2")).
Defined.

Lemma ledger_settles_once_witness :
  match demo_reserved.(calls) with
  | [x] => ∃ y, y ∈ (sweep_stale_provider_reservations no_price no_cost zero_nanos "2026-08-07T00:00:00Z"
                      "2026-08-06T23:00:00Z" demo_reserved).2.(calls) ∧ col y "call_id" = col x "call_id"
  | _ => False
  end.
Proof.
  assert (length demo_reserved.(calls) = 1) as Hlen by (vm_compute; reflexivity).
  destruct demo_reserved.(calls) as [|x [|z t]] eqn:E; [discriminate Hlen| |discriminate Hlen].
  destruct (ledger_settles_once no_price no_cost zero_nanos demo_reserved
    (sweep_stale_provider_reservations no_price no_cost zero_nanos "2026-08-07T00:00:00Z"
       "2026-08-06T23:00:00Z" demo_reserved).2 x) as (_ & y & Hy & Hc & _).
  - apply demo_reserved_ok.
  - apply rtc_once, step_sweep.
  - rewrite E. apply list_elem_of_here.
  - exists y. split; [done|]. apply Hc, list_elem_of_here.
Defined.

Lemma aggregate_honest_witness :
  chargeable_nanos (aggregate_provider_call_cost (mkFilters None (Some "exec") None None) demo_reserved) = Some 600%Z.
Proof.
  destruct (aggregate_honest (mkFilters None (Some "exec") None None) demo_reserved demo_reserved_ok) as (_ & -> & _).
  vm_compute. reflexivity.
Defined.
