(* ===== verification/Records.v ===== *)
(** * Records: field update for the row records of the stores

    [r <| f := v |>] is [r] with field [f] replaced.  The setter of a field is
    computed once from the record's eta expansion, so it reduces to a constructor
    application. *)

From S2P Require Import Prelude.

(** A record type that is rebuilt from its fields. *)
Class Rebuild (R : Type) := rebuild : R → R.

Class FieldSetter {R T : Type} (get : R → T) := modify : (T → T) → R → R.
Arguments modify {R T} get {_} f r : simpl nomatch.

Ltac build_setter get :=
  let R := match type of get with ?R → _ => R end in
  let eta := eval cbv [rebuild] in (rebuild : R → R) in
  let eta := lazymatch eta with
             | (fun x => _) => eta
             | _ => let i := constr:(_ : Rebuild R) in eval hnf in i
             end in
  lazymatch eval pattern get in eta with
  | ?builder _ => exact (fun f r => builder (fun r => f (get r)) r)
  end.

#[export] Hint Extern 1 (FieldSetter ?get) => build_setter get : typeclass_instances.

Declare Scope record_scope.
Delimit Scope record_scope with record.
Notation "r <| f := v |>" := (modify f (λ _, v) r)
  (at level 12, f at next level, left associativity, format "r  <| f  :=  v |>") : record_scope.
Open Scope record_scope.
