(* ===== verification/PyRegex.v ===== *)
(** * PyRegex: the part of [re] the code uses

    A pattern is matched at a position, which is the character before it and the
    text after it.  [run] computes every position a match can end at; [run_iff] shows
    it decides the relation [matches].  [search] is [pattern.search(text) is not None].
    [ends] lists the same positions in the order [re] tries them, so its head is where
    [re] ends a match; [first_match] is [pattern.search(text)]. *)

From Stdlib Require Import Ascii.
From S2P Require Import Prelude PyString.
Open Scope nat_scope.

Inductive regex :=
  | Eps
  | Chr (p : ascii → bool)
  | Seq (a b : regex)
  | Alt (a b : regex)
  | Star (a : regex)
  | WordB.

(** The last character read, if any, and the rest of the text. *)
Definition pos : Type := option ascii * string.
Definition remaining (p : pos) : nat := String.length p.2.

(** [\w] for code points up to 255: letters, digits, the underscore and the Latin-1
    letters and numbers. *)
Definition is_word (c : ascii) : bool :=
  let n := code c in
  is_alpha c || is_digit c || (n =? 95)
  || existsb (Nat.eqb n) [170; 178; 179; 181; 185; 186; 188; 189; 190]
  || (192 <=? n) && negb ((n =? 215) || (n =? 247)).
Definition next_char (s : string) : option ascii := match s with "" => None | String c _ => Some c end.
Definition word_at (c : option ascii) : bool := match c with Some c => is_word c | None => false end.
(** [\b] *)
Definition at_boundary (p : pos) : bool := xorb (word_at p.1) (word_at (next_char p.2)).

Section star.
Context (f : pos → list pos).
(** Iterations that consume nothing add no position. *)
Fixpoint iterate (n : nat) (p : pos) : list pos :=
  match n with
  | 0 => [p]
  | S n => p :: flat_map (iterate n) (List.filter (λ p', remaining p' <? remaining p) (f p))
  end.
End star.

Fixpoint run (r : regex) (p : pos) : list pos :=
  match r with
  | Eps => [p]
  | Chr ok => match p.2 with String c s => if ok c then [(Some c, s)] else [] | "" => [] end
  | Seq a b => flat_map (run b) (run a p)
  | Alt a b => run a p ++ run b p
  | Star a => iterate (run a) (remaining p) p
  | WordB => if at_boundary p then [p] else []
  end.

Fixpoint search_from (r : regex) (prev : option ascii) (s : string) : bool :=
  match run r (prev, s) with
  | [] => match s with "" => false | String c s => search_from r (Some c) s end
  | _ => true
  end.
Definition search (r : regex) (s : string) : bool := search_from r None s.

(** ** The match [re] returns *)

Section greedy.
Context (f : pos → list pos).
Fixpoint iterate_greedy (n : nat) (p : pos) : list pos :=
  match n with
  | 0 => [p]
  | S n => flat_map (iterate_greedy n) (List.filter (λ p', remaining p' <? remaining p) (f p)) ++ [p]
  end.
End greedy.

Fixpoint ends (r : regex) (p : pos) : list pos :=
  match r with
  | Eps => [p]
  | Chr ok => match p.2 with String c s => if ok c then [(Some c, s)] else [] | "" => [] end
  | Seq a b => flat_map (ends b) (ends a p)
  | Alt a b => ends a p ++ ends b p
  | Star a => iterate_greedy (ends a) (remaining p) p
  | WordB => if at_boundary p then [p] else []
  end.

(** The first position a match begins at, with the match [f] prefers there. *)
Fixpoint first_from {A} (f : pos → list A) (prev : option ascii) (s : string) : option A :=
  match f (prev, s) with
  | a :: _ => Some a
  | [] => match s with "" => None | String c s => first_from f (Some c) s end
  end.
Definition first_match (r : regex) (s : string) : option pos := first_from (ends r) None s.

(** The text from one position to a later one. *)
Fixpoint take_str (n : nat) (s : string) : string :=
  match n, s with S n, String c s => String c (take_str n s) | _, _ => "" end.
Definition between (p q : pos) : string := take_str (remaining p - remaining q) p.2.

(** ** Building patterns *)

(** Literal characters, ignoring ASCII case when [ci]. *)
Definition lit_char (ci : bool) (c : ascii) : regex :=
  Chr (λ x, if ci then Ascii.eqb (lower_char x) (lower_char c) else Ascii.eqb x c).
Fixpoint lit (ci : bool) (s : string) : regex :=
  match s with "" => Eps | String c s => Seq (lit_char ci c) (lit ci s) end.
Definition newline : ascii := ascii_of_nat 10.
(** [.] and [[^\n]] *)
Definition dot : regex := Chr (λ c, negb (Ascii.eqb c newline)).
Definition opt (r : regex) : regex := Alt r Eps.
Fixpoint alts (l : list regex) : regex :=
  match l with [] => Chr (λ _, false) | [r] => r | r :: l => Alt r (alts l) end.
Fixpoint seqs (l : list regex) : regex :=
  match l with [] => Eps | r :: l => Seq r (seqs l) end.

(** ** The relation a pattern denotes *)

Inductive matches : regex → pos → pos → Prop :=
  | m_eps p : matches Eps p p
  | m_chr ok prev c s : ok c = true → matches (Chr ok) (prev, String c s) (Some c, s)
  | m_seq a b p q r : matches a p q → matches b q r → matches (Seq a b) p r
  | m_altl a b p q : matches a p q → matches (Alt a b) p q
  | m_altr a b p q : matches b p q → matches (Alt a b) p q
  | m_star0 a p : matches (Star a) p p
  | m_star a p q r : matches a p q → matches (Star a) q r → matches (Star a) p r
  | m_word p : at_boundary p = true → matches WordB p p.

Lemma elem_of_flat_map {A B} (f : A → list B) l y : y ∈ flat_map f l ↔ ∃ x, x ∈ l ∧ y ∈ f x.
Proof. rewrite list_elem_of_In, in_flat_map. by setoid_rewrite list_elem_of_In. Qed.

(** A match consumes a prefix of the text. *)
Lemma matches_shorter r p q : matches r p q → remaining q < remaining p ∨ p = q.
Proof.
  induction 1; unfold remaining in *; simpl; auto; naive_solver lia.
Qed.

Lemma iterate_sound a f n p q :
  (∀ p q, q ∈ f p → matches a p q) → q ∈ iterate f n p → matches (Star a) p q.
Proof.
  intros Hf. revert p. induction n as [|n IH]; intros p; simpl.
  - intros ->%list_elem_of_singleton. constructor.
  - intros [->|Hq]%elem_of_cons; [constructor|].
    apply elem_of_flat_map in Hq as (p' & Hp' & Hq). apply elem_of_select in Hp' as [Hp' _].
    eapply m_star; eauto.
Qed.

Lemma iterate_complete a f n p q :
  (∀ p q, matches a p q → q ∈ f p) → remaining p ≤ n → matches (Star a) p q → q ∈ iterate f n p.
Proof.
  intros Hf Hn Hm. remember (Star a) as r eqn:Er. revert n Hn.
  induction Hm as [| | | | |a' p|a' p p' q Hm1 _ Hm2 IH|]; try done; intros n Hn.
  - destruct n; simpl; [by apply list_elem_of_singleton|set_solver].
  - injection Er as ->. destruct (matches_shorter _ _ _ Hm1) as [Hlt| ->]; [|by apply IH].
    destruct n as [|n]; [lia|]. simpl. apply elem_of_cons. right. apply elem_of_flat_map.
    exists p'. split; [|apply IH; [done|lia]]. apply elem_of_select. split; [by apply Hf|].
    by apply Nat.ltb_lt.
Qed.

Lemma run_iff r p q : q ∈ run r p ↔ matches r p q.
Proof.
  revert p q. induction r as [|ok|a IHa b IHb|a IHa b IHb|a IHa|]; intros p q; simpl.
  - rewrite list_elem_of_singleton. split; [intros ->; constructor|by inversion 1].
  - destruct p as [prev [|c s]]; simpl.
    + split; [by intros ?%not_elem_of_nil|inversion 1].
    + destruct (ok c) eqn:E.
      * rewrite list_elem_of_singleton. split; [intros ->; by constructor|by inversion 1].
      * split; [by intros ?%not_elem_of_nil|inversion 1; congruence].
  - rewrite elem_of_flat_map. split.
    + intros (x & ?%IHa & ?%IHb). by eapply m_seq.
    + inversion 1; subst. eexists. rewrite IHa, IHb. eauto.
  - rewrite elem_of_app, IHa, IHb. split; [intros [?|?]; by constructor|inversion 1; auto].
  - split.
    + apply iterate_sound. intros. by apply IHa.
    + apply iterate_complete; [|done]. intros. by apply IHa.
  - destruct (at_boundary p) eqn:E.
    + rewrite list_elem_of_singleton. split; [intros ->; by constructor|by inversion 1].
    + split; [by intros ?%not_elem_of_nil|inversion 1; congruence].
Qed.

Lemma ends_iff r p q : q ∈ ends r p ↔ matches r p q.
Proof.
  rewrite <-run_iff. revert p q. induction r as [|ok|a IHa b IHb|a IHa b IHb|a IHa|]; intros p q; try done.
  - cbn [ends run]. rewrite !elem_of_flat_map. by setoid_rewrite IHa; setoid_rewrite IHb.
  - cbn [ends run]. by rewrite !elem_of_app, IHa, IHb.
  - cbn [ends run]. generalize (remaining p) as n. intros n. revert p.
    induction n as [|n IH]; intros p; [done|]. cbn [iterate_greedy iterate].
    rewrite elem_of_app, list_elem_of_singleton, elem_of_cons, !elem_of_flat_map.
    setoid_rewrite IH. setoid_rewrite elem_of_select. setoid_rewrite IHa. naive_solver.
Qed.

Lemma ends_empty r p : ends r p = [] ↔ run r p = [].
Proof.
  assert (∀ q, q ∈ ends r p ↔ q ∈ run r p) as Hq by (intros q; by rewrite ends_iff, run_iff).
  split; intros E; rewrite E in Hq.
  - destruct (run r p) as [|x l]; [done|]. exfalso. apply (not_elem_of_nil x), Hq, list_elem_of_here.
  - destruct (ends r p) as [|x l]; [done|]. exfalso. apply (not_elem_of_nil x), Hq, list_elem_of_here.
Qed.

(** [first_match] finds a match exactly when [search] does. *)
Lemma first_from_search r prev s : is_Some (first_from (ends r) prev s) ↔ search_from r prev s = true.
Proof.
  revert prev. induction s as [|c s IH]; intros prev; cbn [first_from search_from].
  - destruct (ends_empty r (prev, "")) as [H1 H2], (ends r _) as [|x l], (run r _) as [|y m].
    + split; [by intros [? ?]|done].
    + by specialize (H1 eq_refl).
    + by specialize (H2 eq_refl).
    + split; [done|by eexists].
  - destruct (ends_empty r (prev, String c s)) as [H1 H2], (ends r _) as [|x l], (run r _) as [|y m].
    + apply IH.
    + by specialize (H1 eq_refl).
    + by specialize (H2 eq_refl).
    + split; [done|by eexists].
Qed.

(** The positions of a text. *)
Inductive position_of : option ascii → string → pos → Prop :=
  | pos_here prev s : position_of prev s (prev, s)
  | pos_next prev c s p : position_of (Some c) s p → position_of prev (String c s) p.

Lemma search_from_iff r prev s :
  search_from r prev s = true ↔ ∃ p q, position_of prev s p ∧ matches r p q.
Proof.
  revert prev. induction s as [|c s IH]; intros prev; cbn [search_from].
  - split.
    + destruct (run r (prev, "")) as [|q l] eqn:E; [done|]. intros _. exists (prev, ""), q.
      split; [constructor|]. apply run_iff. rewrite E. set_solver.
    + intros (p & q & Hp & Hm). inversion Hp; subst. apply run_iff in Hm.
      destruct (run r (prev, "")); [by apply not_elem_of_nil in Hm|done].
  - destruct (run r (prev, String c s)) as [|q l] eqn:E.
    + rewrite IH. split.
      * intros (p & q & ? & ?). exists p, q. split; [by constructor|done].
      * intros (p & q & Hp & Hm). inversion Hp; subst; [|eauto].
        apply run_iff in Hm. rewrite E in Hm. by apply not_elem_of_nil in Hm.
    + split; [|done]. intros _. exists (prev, String c s), q. split; [constructor|].
      apply run_iff. rewrite E. set_solver.
Qed.

Lemma search_iff r s : search r s = true ↔ ∃ p q, position_of None s p ∧ matches r p q.
Proof. apply search_from_iff. Qed.
