(* ===== verification/PyFnmatch.v ===== *)
(** * PyFnmatch: [fnmatch.fnmatchcase]

    A shell pattern is translated to a regular expression as [fnmatch.translate]
    does: [*] is any text, [?] any character, a bracket a class of characters with
    its ranges.  An unclosed bracket is the character itself. *)

From Stdlib Require Import Ascii.
From S2P Require Import Prelude PyString PyRegex.
Open Scope nat_scope.

Inductive glob_token :=
  | GStar
  | GAny
  | GChar (c : ascii)
  | GClass (negated : bool) (chunks : list string).

Definition dash : ascii := "-"%char.

(** [stuff.find(']')], the text before it and the text after it. *)
Fixpoint until_close (s : string) : option (string * string) :=
  match s with
  | "" => None
  | String c s' => if Ascii.eqb c "]" then Some ("", s')
                   else (λ p, (String c p.1, p.2)) <$> until_close s'
  end.

(** After an opening bracket: whether it is negated, its text and the rest. *)
Definition bracket (s : string) : option (bool * string * string) :=
  let negated := startswith "!" s in
  let s := if negated then drop_str 1 s else s in
  if startswith "]" s then (λ p, (negated, "]" +:+ p.1, p.2)) <$> until_close (drop_str 1 s)
  else (λ p, (negated, p.1, p.2)) <$> until_close s.

(** The text before the first hyphen at an index of at least [skip], and after it. *)
Fixpoint cut_dash (skip : nat) (s : string) : option (string * string) :=
  match s with
  | "" => None
  | String c s' => if (skip =? 0) && Ascii.eqb c dash then Some ("", s')
                   else (λ p, (String c p.1, p.2)) <$> cut_dash (Nat.pred skip) s'
  end.

(** A hyphen at the end belongs to the chunk before it. *)
Fixpoint chunks_from (fuel skip : nat) (s : string) : list string :=
  match fuel with
  | 0 => [s]
  | S fuel =>
      match cut_dash skip s with
      | None => [s]
      | Some (chunk, "") => [chunk +:+ "-"]
      | Some (chunk, rest) => chunk :: chunks_from fuel 2 rest
      end
  end.
Definition class_chunks (body : string) : list string := chunks_from (String.length body) 1 body.

Fixpoint tokens (fuel : nat) (pat : string) : list glob_token :=
  match fuel, pat with
  | 0, _ | _, "" => []
  | S fuel, String c s =>
      if Ascii.eqb c "*" then GStar :: tokens fuel s
      else if Ascii.eqb c "?" then GAny :: tokens fuel s
      else if Ascii.eqb c "[" then
        match bracket s with
        | Some (negated, body, rest) => GClass negated (class_chunks body) :: tokens fuel rest
        | None => GChar "[" :: tokens fuel s
        end
      else GChar c :: tokens fuel s
  end.
Definition glob_tokens (pat : string) : list glob_token := tokens (String.length pat) pat.

(** A range joins the last character of one chunk and the first of the next; an
    empty range drops both ends. *)
Definition first_char (s : string) : option ascii := next_char s.
Fixpoint last_char (s : string) : option ascii :=
  match s with "" => None | String c "" => Some c | String _ s => last_char s end.
Definition in_range (lo hi : option ascii) (c : ascii) : bool :=
  match lo, hi with Some lo, Some hi => (code lo <=? code c) && (code c <=? code hi) | _, _ => false end.
Fixpoint drop_last (s : string) : string :=
  match s with "" | String _ "" => "" | String c s => String c (drop_last s) end.

Fixpoint in_chunks (first : bool) (chunks : list string) (c : ascii) : bool :=
  match chunks with
  | [] => false
  | s :: rest =>
      let own := if first then s else drop_str 1 s in
      match rest with
      | [] => has_char c own
      | s' :: _ => has_char c (drop_last own) || in_range (last_char s) (first_char s') c
                   || in_chunks false rest c
      end
  end.

Definition token_regex (t : glob_token) : regex :=
  match t with
  | GStar => Star (Chr (λ _, true))
  | GAny => Chr (λ _, true)
  | GChar c => Chr (Ascii.eqb c)
  | GClass negated chunks => Chr (λ c, xorb negated (in_chunks true chunks c))
  end.

Definition at_end (p : pos) : bool := match p.2 with "" => true | _ => false end.
Definition fnmatchcase (name pat : string) : bool :=
  existsb at_end (run (seqs (map token_regex (glob_tokens pat))) (None, name)).

(** ** What a pattern means *)

Inductive glob : list glob_token → string → Prop :=
  | glob_nil : glob [] ""
  | glob_star0 ts s : glob ts s → glob (GStar :: ts) s
  | glob_star c ts s : glob (GStar :: ts) s → glob (GStar :: ts) (String c s)
  | glob_any c ts s : glob ts s → glob (GAny :: ts) (String c s)
  | glob_char c ts s : glob ts s → glob (GChar c :: ts) (String c s)
  | glob_class negated chunks c ts s :
      in_chunks true chunks c ≠ negated → glob ts s → glob (GClass negated chunks :: ts) (String c s).

Lemma any_star_iff prev s q :
  matches (Star (Chr (λ _, true))) (prev, s) q → ∀ ts, glob ts q.2 → glob (GStar :: ts) s.
Proof.
  intros Hm. remember (Star _) as r eqn:Er. remember (prev, s) as p eqn:Ep. revert prev s Ep.
  induction Hm as [| | | | | |a p p' q Hm1 _ _ IH|]; try done; intros prev s Ep ts Hg; simplify_eq/=.
  - by constructor.
  - inversion Hm1; subst. apply glob_star. by eapply IH.
Qed.

Lemma glob_regex_iff ts prev s :
  (∃ c, matches (seqs (map token_regex ts)) (prev, s) (c, "")) ↔ glob ts s.
Proof.
  split.
  - revert prev s. induction ts as [|t ts IH]; intros prev s [c Hm]; simpl in Hm.
    + inversion Hm; subst. constructor.
    + inversion Hm as [| |? ? ? q ? Hm1 Hm2| | | | |]; subst. destruct q as [prev' s'].
      assert (glob ts s') as Hg by eauto.
      destruct t; simpl in Hm1; [by eapply any_star_iff; eauto|inversion Hm1; subst..].
      * by constructor.
      * match goal with H : Ascii.eqb _ _ = true |- _ => apply Ascii.eqb_eq in H as -> end. by constructor.
      * constructor; [|done]. intros Heq. rewrite Heq in *. by destruct negated.
  - intros Hg. revert prev. induction Hg as [|ts s Hg IH|c ts s Hg IH|c ts s Hg IH|c ts s Hg IH|n ch c ts s Hn Hg IH];
      intros prev; simpl in *.
    + eexists. constructor.
    + destruct (IH prev) as [c Hm]. exists c. eapply m_seq; [apply m_star0|done].
    + destruct (IH (Some c)) as [d Hm]. exists d. inversion Hm as [| |? ? ? q ? Hm1 Hm2| | | | |]; subst.
      eapply m_seq; [|done]. eapply m_star; [|done]. by apply m_chr.
    + destruct (IH (Some c)) as [d Hm]. exists d. eapply m_seq; [|done]. by apply m_chr.
    + destruct (IH (Some c)) as [d Hm]. exists d. eapply m_seq; [|done]. apply m_chr, Ascii.eqb_refl.
    + destruct (IH (Some c)) as [d Hm]. exists d. eapply m_seq; [|done]. apply m_chr.
      by destruct n, (in_chunks true ch c).
Qed.

Lemma fnmatchcase_iff name pat : fnmatchcase name pat = true ↔ glob (glob_tokens pat) name.
Proof.
  unfold fnmatchcase. rewrite existsb_exists, <-(glob_regex_iff _ None). split.
  - intros ([c s] & Hin%list_elem_of_In & He). exists c. apply run_iff. by destruct s.
  - intros [c Hm]. exists (c, ""). split; [|done]. by apply list_elem_of_In, run_iff.
Qed.

(** The fuel is enough: every step reads at least one character. *)
Lemma until_close_shorter s b r : until_close s = Some (b, r) → String.length r < String.length s.
Proof.
  revert b r. induction s as [|c s IH]; intros b r; simpl; [done|].
  destruct (Ascii.eqb c "]"); [intros [= <- <-]; lia|].
  destruct (until_close s) as [[b' r']|]; simpl; [|done]. intros [= <- <-]. specialize (IH _ _ eq_refl). lia.
Qed.

Lemma bracket_shorter s n b r : bracket s = Some (n, b, r) → String.length r < String.length s.
Proof.
  assert (Hdrop : ∀ k s, String.length (drop_str k s) ≤ String.length s).
  { induction k as [|k IH]; intros [|c x]; simpl; try lia. specialize (IH x). lia. }
  unfold bracket. set (s' := if startswith "!" s then _ else _).
  assert (String.length s' ≤ String.length s) by (subst s'; case_match; auto).
  assert (∀ x, match until_close x with Some (_, r') => String.length r' < String.length x | None => True end) as Hu.
  { intros x. destruct (until_close x) as [[b' r']|] eqn:E; [|done]. by eapply until_close_shorter. }
  specialize (Hdrop 1 s'). pose proof (Hu s'). pose proof (Hu (drop_str 1 s')).
  destruct (startswith "]" s'); [destruct (until_close (drop_str 1 s')) as [[b' r']|]|
                                 destruct (until_close s') as [[b' r']|]]; simpl; try done;
    intros [= <- <- <-]; lia.
Qed.

Lemma tokens_fuel k n m s :
  String.length s ≤ k → k ≤ n → k ≤ m → tokens n s = tokens m s.
Proof.
  revert n m s. induction k as [|k IH]; intros n m [|c s] Hs Hn Hm; simpl in Hs; try lia;
    try by destruct n, m.
  destruct n as [|n], m as [|m]; try lia. cbn [tokens].
  assert (∀ r, String.length r ≤ String.length s → tokens n r = tokens m r) as Hr.
  { intros r Hr. apply IH; lia. }
  repeat case_match; f_equal; try (by apply Hr).
  match goal with H : bracket s = Some _ |- _ => apply bracket_shorter in H end. apply Hr. lia.
Qed.

Example fn_class :
  map (λ p, fnmatchcase p.1 p.2)
    [("a", "[a-b-c]"); ("-", "[a-b-c]"); ("c", "[b-a]"); ("x", "[!b-a]"); ("b", "[!b-a]"); ("-", "[a-]");
     ("]", "[]-a]"); ("[", "["); ("[a", "[a"); ("", "[]"); ("[]", "[]"); ("^", "[^a]"); ("b", "[!-a]");
     ("-", "[!-a]"); ("b", "[a-c-]"); ("-", "[a-c-]"); ("d", "[--/]"); ("abc", "a*c"); ("abd", "a*c")]
  = [true; true; false; true; true; true; true; true; true; false; true; true; true; false; true; true;
     false; true; false].
Proof. by vm_compute. Qed.
