(* ===== verification/PyYaml.v ===== *)
(** * PyYaml: the Python values a YAML document gives

    Scalars of other types (dates, binary) are opaque.  Floats are the numbers they
    denote.  [construct] is the loader of [omniagentos/policy/protected_paths.py],
    which refuses a mapping with two equal keys. *)

From Stdlib Require Import QArith.
From S2P Require Import Prelude PyString.
Open Scope Z_scope.

Inductive yaml :=
  | YNull
  | YBool (b : bool)
  | YInt (n : Z)
  | YFloat (x : Q)
  | YStr (s : string)
  | YSeq (l : list yaml)
  | YMap (l : list (yaml * yaml))
  | YOther (text : string).

(** [data.get(key)] on a mapping with text keys. *)
Definition is_key (key : string) (k : yaml) : bool :=
  match k with YStr s => bool_decide (s = key) | _ => false end.
Definition yaml_get (key : string) (l : list (yaml * yaml)) : option yaml :=
  snd <$> List.find (λ p, is_key key p.1) l.
Definition text_of (y : yaml) : option string := match y with YStr s => Some s | _ => None end.

(** [a == b] on hashable values; [None] when one is not hashable. *)
Definition number_of (y : yaml) : option Q :=
  match y with
  | YBool b => Some (inject_Z (if b then 1 else 0))
  | YInt n => Some (inject_Z n)
  | YFloat x => Some x
  | _ => None
  end.
Definition hashable (y : yaml) : bool := match y with YSeq _ | YMap _ => false | _ => true end.
Definition key_eq (a b : yaml) : bool :=
  match number_of a, number_of b with
  | Some x, Some y => Qeq_bool x y
  | _, _ =>
      match a, b with
      | YNull, YNull => true
      | YStr s, YStr t | YOther s, YOther t => bool_decide (s = t)
      | _, _ => false
      end
  end.

Inductive yaml_error := UnhashableKey | DuplicateKey.

Fixpoint construct (y : yaml) : result yaml_error yaml :=
  match y with
  | YSeq l =>
      l ← (fix go l := match l with
                       | [] => Ok []
                       | x :: l => x ← construct x; l ← go l; Ok (x :: l) end) l;
      Ok (YSeq l)
  | YMap l =>
      l ← (fix go (seen : list yaml) l := match l with
           | [] => Ok []
           | (k, v) :: l =>
               k ← construct k;
               if negb (hashable k) then Err UnhashableKey
               else if existsb (key_eq k) seen then Err DuplicateKey
               else v ← construct v; l ← go (k :: seen) l; Ok ((k, v) :: l)
           end) [] l;
      Ok (YMap l)
  | _ => Ok y
  end.
