(* ===== verification/ProtectedPaths.v ===== *)
(** * ProtectedPaths: [omniagentos/policy/protected_paths.py]

    The registry of protected paths: how a document becomes a registry, what the
    registry says of a path, and the floors no document can lower.  The document is
    the YAML value of the file; the file system is [FileSystem] with the type of an
    entry of [os.lstat].  Sets are walked in the order of [elements]. *)

From Stdlib Require Import Ascii.
From S2P Require Import Prelude PyString PyPath PathContainment PyYaml.
Open Scope Z_scope.

(** ** Text *)

(** [needle in s] *)
Fixpoint contains (needle s : string) : bool :=
  startswith needle s || match s with "" => false | String _ s' => contains needle s' end.

(** [while p.startswith("./"): p = p[2:]] *)
Fixpoint strip_dot_slash (s : string) : string :=
  match s with
  | String a (String b rest) => if Ascii.eqb a "." && Ascii.eqb b "/" then strip_dot_slash rest else s
  | _ => s
  end.

(** [path == d or path.startswith(d + "/")] *)
Definition under_dir (path d : string) : bool :=
  bool_decide (path = d) || startswith (d +:+ "/") path.

Definition norm_runtime_path (path : string) : string :=
  strip_dot_slash (strip (replace_char backslash "/" path)).

(** [str.isidentifier] for code points up to 255. *)
Definition ident_start (c : ascii) : bool :=
  let n := Z.of_nat (code c) in
  is_alpha c || (n =? 95) || (n =? 170) || (n =? 181) || (n =? 186)
  || (192 <=? n) && negb ((n =? 215) || (n =? 247)).
Definition ident_char (c : ascii) : bool := ident_start c || is_digit c || (Z.of_nat (code c) =? 183).
Definition isidentifier (s : string) : bool :=
  match s with "" => false | String c s => ident_start c && forallb_str ident_char s end.

(** ** Errors, floors and the registry *)

Inductive ProtectedPathsError :=
  | RegistryUnsafe | RegistryMissing | RegistryUnreadable | RegistryMalformed
  | NotAMapping (field : string) | NonStringKey (field : string) | UnexpectedKeys (field : string) (keys : list string)
  | MissingKey (field key : string) | BadVersion (v : yaml) | UnsupportedVersion (n : Z)
  | FieldRequired (field : string) | NotAList (field : string) | BadEntry (field : string) (v : yaml)
  | BadModule (field : string) (v : yaml) | BadField (field : string)
  | DuplicateEntry (field item : string)
  | EntryEscapes (entry : string) | EntryUnresolvable (entry : string) | EntryCrossesSymlink (entry : string)
  | CrossTier (what : string) (items : list string) | FileAndDirectory (items : list string)
  | NestedAcrossTiers (p_dir s_dir : string) | FileUnderTierP (file : string)
  | OverlappingFiles (tier : string) (items : list string) | NestedDirectories (group a b : string)
  | FloorRemoval (what : string) (items : list string) | FloorDemotion (what : string) (items : list string)
  | LaunchAgentDemotion (text : string).

Definition PROTECTED_PATHS_SCHEMA_VERSION : Z := 1.
Definition FLOOR_TIER_P_FILES : gset string := list_to_set [
  "omniagentos/reliability/governance.py"; "configs/governance.yaml"; "configs/reliability.yaml";
  "configs/policy.yaml"; "configs/protected-paths.yaml"; "omniagentos/contracts.py";
  "omniagentos/reliability/judges.py"; "omniagentos/api/routes/autonomy.py"].
Definition FLOOR_TIER_P_DIRS : gset string := list_to_set [
  "omniagentos/policy"; "contracts"; "omniagentos/notifications"; "scripts/reliability";
  "omniagentos/db/migrations"].
Definition FLOOR_TIER_S_FILES : gset string := list_to_set [
  "omniagentos/api/routes/reliability.py"; "omniagentos/api/routes/improvements.py";
  "omniagentos/api/routes/org.py"; "omniagentos/steward/alerts/monitor.py";
  "omniagentos/steward/alerts/rules.py"; "ARCHI.md"].
Definition FLOOR_TIER_S_DIRS : gset string := list_to_set [
  "omniagentos/reliability"; "omniagentos/orgdims"; "omniagentos/archdocs"; "docs/architecture"].
Definition FLOOR_PROTECTED_P_MODULES : gset string :=
  list_to_set ["governance"; "judges"; "contracts"; "autonomy"].
Definition FLOOR_PROTECTED_S_MODULES : gset string := list_to_set [
  "pipeline"; "detector"; "analyzer"; "sandbox"; "recovery"; "scorecards"; "memory"].
Definition FLOOR_LAUNCHAGENT_PATH_CONTAINS : string := "Library/LaunchAgents/com.omniagentos.".
Definition FLOOR_LAUNCHAGENT_BASENAME_CONTAINS : string := "com.omniagentos.".

Definition TOP_KEYS : list string := ["version"; "tier_p"; "tier_s"].
Definition TIER_P_KEYS : list string := ["files"; "directories"; "modules"; "launchagents"].
Definition TIER_S_KEYS : list string := ["files"; "directories"; "modules"].
Definition LAUNCHAGENT_KEYS : list string := ["path_contains"; "basename_contains"; "require_launchagents_dir"].

Record ProtectedPathsRegistry := mkRegistry {
  version : Z;
  tier_p_files : gset string;
  tier_p_dirs : list string;
  tier_s_files : gset string;
  tier_s_dirs : list string;
  protected_p_modules : gset string;
  protected_s_modules : gset string;
  launchagent_path_contains : string;
  launchagent_basename_contains : string;
  launchagent_require_dir : bool;
}.

(** ** What the registry says of a path *)

Inductive Tier := TierP | TierS.
#[export] Instance Tier_eq_dec : EqDecision Tier.
Proof. solve_decision. Defined.

Definition launchagent_match (r : ProtectedPathsRegistry) (p : string) : bool :=
  (negb (bool_decide (r.(launchagent_path_contains) = "")) && contains r.(launchagent_path_contains) p)
  || (negb (bool_decide (r.(launchagent_basename_contains) = ""))
      && contains r.(launchagent_basename_contains) (basename p)
      && (negb r.(launchagent_require_dir) || contains "LaunchAgents" p)).

Definition path_tier (r : ProtectedPathsRegistry) (path : string) : option Tier :=
  let p := norm_runtime_path path in
  if bool_decide (p = "") then None
  else if launchagent_match r p then Some TierP
  else if isabs p then None
  else if bool_decide (p ∈ r.(tier_p_files)) then Some TierP
  else if existsb (under_dir p) r.(tier_p_dirs) then Some TierP
  else if bool_decide (p ∈ r.(tier_s_files)) then Some TierS
  else if existsb (under_dir p) r.(tier_s_dirs) then Some TierS
  else None.

(** ** Parsing *)

Definition validate_mapping_keys (raw : list (yaml * yaml)) (allowed : list string) (field : string) :
    result ProtectedPathsError unit :=
  if negb (forallb (λ p, match p.1 with YStr _ => true | _ => false end) raw) then Err (NonStringKey field)
  else
    let unknown := List.filter (λ k, negb (bool_decide (k ∈ allowed))) (omap (λ p, text_of p.1) raw) in
    match unknown with [] => Ok tt | _ => Err (UnexpectedKeys field (sort_by (λ k, k) (remove_dups unknown))) end.

Definition char_at (n : nat) (s : string) : option ascii := String.get n s.

Definition norm_registry_entry (field : string) (raw : yaml) : result ProtectedPathsError string :=
  match raw with
  | YStr text =>
      let s := strip (replace_char backslash "/" text) in
      let parts := split "/" s in
      if bool_decide (s = "") || startswith "~" s || startswith "/" s
         || bool_decide (char_at 1 s = Some ":"%char)
         || existsb (λ p, bool_decide (p = "")) parts
         || existsb (λ p, bool_decide (p = ".") || bool_decide (p = "..")) parts
      then Err (BadEntry field raw) else Ok (join "/" parts)
  | _ => Err (BadEntry field raw)
  end.

Definition parse_path_list (raw : option yaml) (field : string) : result ProtectedPathsError (list string) :=
  match raw with
  | None | Some YNull => Err (FieldRequired field)
  | Some (YSeq l) => traverse (norm_registry_entry field) l
  | Some _ => Err (NotAList field)
  end.

Definition module_entry (field : string) (item : yaml) : result ProtectedPathsError string :=
  match item with
  | YStr text =>
      let name := strip text in
      if bool_decide (name = "") || has_char "/" name || has_char backslash name
         || bool_decide (name ∈ ["."; ".."]) || negb (isidentifier name)
      then Err (BadModule field item) else Ok name
  | _ => Err (BadModule field item)
  end.
Definition parse_module_list (raw : option yaml) (field : string) : result ProtectedPathsError (list string) :=
  match raw with
  | None | Some YNull => Err (FieldRequired field)
  | Some (YSeq l) => traverse (module_entry field) l
  | Some _ => Err (NotAList field)
  end.

Definition parse_launchagents (raw : option yaml) : result ProtectedPathsError (string * string * bool) :=
  let field := "tier_p.launchagents" in
  match raw with
  | None | Some YNull => Err (FieldRequired field)
  | Some (YMap l) =>
      validate_mapping_keys l LAUNCHAGENT_KEYS "launchagents";;
      match yaml_get "path_contains" l, yaml_get "basename_contains" l, yaml_get "require_launchagents_dir" l with
      | None, _, _ => Err (MissingKey field "path_contains")
      | _, None, _ => Err (MissingKey field "basename_contains")
      | _, _, None => Err (MissingKey field "require_launchagents_dir")
      | Some (YStr (String _ _ as path_contains)), Some (YStr (String _ _ as basename_contains)), Some (YBool require_dir) =>
          Ok (replace_char backslash "/" path_contains, basename_contains, require_dir)
      | Some (YStr (String _ _)), Some (YStr (String _ _)), _ => Err (BadField (field +:+ ".require_launchagents_dir"))
      | Some (YStr (String _ _)), _, _ => Err (BadField (field +:+ ".basename_contains"))
      | _, _, _ => Err (BadField (field +:+ ".path_contains"))
      end
  | Some _ => Err (NotAMapping field)
  end.

Fixpoint reject_duplicates (seen items : list string) (field : string) : result ProtectedPathsError unit :=
  match items with
  | [] => Ok tt
  | item :: items => if bool_decide (item ∈ seen) then Err (DuplicateEntry field item)
                     else reject_duplicates (item :: seen) items field
  end.

(** ** Checks *)

Definition under_any (path : string) (dirs : gset string) : bool := existsb (under_dir path) (elements dirs).

Definition require_none (e : list string → ProtectedPathsError) (s : gset string) : result ProtectedPathsError unit :=
  if bool_decide (s = ∅) then Ok tt else Err (e (sort_by (λ x, x) (elements s))).

(** The first error of a loop. *)
Fixpoint each {A} (f : A → result ProtectedPathsError unit) (l : list A) : result ProtectedPathsError unit :=
  match l with [] => Ok tt | x :: l => f x;; each f l end.

Definition nested_pairs (group : string) (dirs : gset string) : result ProtectedPathsError unit :=
  (fix go (ordered : list string) := match ordered with
   | [] => Ok tt
   | a :: rest =>
       each (λ b, if startswith (a +:+ "/") b || startswith (b +:+ "/") a
                  then Err (NestedDirectories group a b) else Ok tt) rest;;
       go rest
   end) (sort_by (λ x, x) (elements dirs)).

Definition reject_cross_tier_overlap (p_files s_files p_dirs s_dirs p_mods s_mods : gset string) :
    result ProtectedPathsError unit :=
  require_none (CrossTier "file") (p_files ∩ s_files);;
  require_none (CrossTier "directory") (p_dirs ∩ s_dirs);;
  require_none (CrossTier "module") (p_mods ∩ s_mods);;
  require_none FileAndDirectory ((p_files ∪ s_files) ∩ (p_dirs ∪ s_dirs));;
  each (λ pd, each (λ sd, if startswith (sd +:+ "/") pd || startswith (pd +:+ "/") sd
                          then Err (NestedAcrossTiers pd sd) else Ok tt) (elements s_dirs)) (elements p_dirs);;
  each (λ sf, if under_any sf p_dirs then Err (FileUnderTierP sf) else Ok tt) (elements s_files);;
  require_none (OverlappingFiles "tier_p") (filter (λ f, under_any f p_dirs = true) p_files);;
  require_none (OverlappingFiles "tier_s") (filter (λ f, under_any f s_dirs = true) s_files);;
  nested_pairs "tier_p.directories" p_dirs;;
  nested_pairs "tier_s.directories" s_dirs.

Definition enforce_floors (p_files s_files p_dirs s_dirs p_mods s_mods : gset string) (la_path la_base : string) :
    result ProtectedPathsError unit :=
  require_none (FloorRemoval "tier_p files") (FLOOR_TIER_P_FILES ∖ p_files);;
  require_none (FloorRemoval "tier_p directories") (FLOOR_TIER_P_DIRS ∖ p_dirs);;
  require_none (FloorRemoval "tier_s files") (FLOOR_TIER_S_FILES ∖ s_files);;
  require_none (FloorRemoval "tier_s directories") (FLOOR_TIER_S_DIRS ∖ s_dirs);;
  require_none (FloorRemoval "tier_p modules") (FLOOR_PROTECTED_P_MODULES ∖ p_mods);;
  require_none (FloorRemoval "tier_s modules") (FLOOR_PROTECTED_S_MODULES ∖ s_mods);;
  require_none (FloorDemotion "tier_p files") (FLOOR_TIER_P_FILES ∩ s_files);;
  require_none (FloorDemotion "tier_p directories") (FLOOR_TIER_P_DIRS ∩ s_dirs);;
  require_none (FloorDemotion "tier_p modules") (FLOOR_PROTECTED_P_MODULES ∩ s_mods);;
  (if contains la_path FLOOR_LAUNCHAGENT_PATH_CONTAINS then Ok tt else Err (LaunchAgentDemotion la_path));;
  (if contains la_base FLOOR_LAUNCHAGENT_BASENAME_CONTAINS then Ok tt else Err (LaunchAgentDemotion la_base)).

(** ** Loading *)

(** What reading the file gives: [exists] is false, an error, text that is not
    YAML, or a document before duplicate keys are refused. *)
Inductive registry_file := FileMissing | FileUnreadable | FileNotYaml | Document (y : yaml).

(** [os.lstat]: whether the entry is a symbolic link, FileNotFoundError, or another error. *)
Inductive entry_stat := Entry (is_link : bool) | NoEntry | EntryError.

Section loading.
Context {FS : FileSystem} (repo_root : string) (lstat_entry : string → entry_stat).

Definition default_registry_path : string := path_join repo_root "configs/protected-paths.yaml".

Definition assert_registry_location_safe (reg_path : string) : result ProtectedPathsError unit :=
  if match lstat_entry reg_path with Entry is_link => is_link | _ => false end then Err RegistryUnsafe
  else match fs_realpath reg_path with
  | None => Err RegistryUnsafe
  | Some resolved =>
      let absolute_spelling := fs_abspath reg_path in
      if (under_dir absolute_spelling repo_root || bool_decide (absolute_spelling = default_registry_path))
         && negb (bool_decide (inode_path_is_within_anchored resolved repo_root = Some true))
      then Err RegistryUnsafe else Ok tt
  end.

(** The loop over the prefixes of an entry; a missing prefix ends it. *)
Fixpoint crosses_symlink (entry cursor : string) (parts : list string) : result ProtectedPathsError unit :=
  match parts with
  | [] => Ok tt
  | part :: parts =>
      let cursor := path_join cursor part in
      match lstat_entry cursor with
      | NoEntry => Ok tt
      | EntryError => Err (EntryUnresolvable entry)
      | Entry true => Err (EntryCrossesSymlink entry)
      | Entry false => crosses_symlink entry cursor parts
      end
  end.

Definition reject_symlink_confused_entries (entries : gset string) : result ProtectedPathsError unit :=
  each (λ entry,
    if negb (bool_decide (inode_path_is_within_anchored (path_join repo_root entry) repo_root = Some true))
    then Err (EntryEscapes entry)
    else crosses_symlink entry repo_root (split "/" entry)) (elements entries).

Definition as_mapping (field : string) (y : option yaml) : result ProtectedPathsError (list (yaml * yaml)) :=
  match y with Some (YMap l) => Ok l | _ => Err (NotAMapping field) end.

(** [type(version) is int] and the supported number. *)
Definition check_version (y : option yaml) : result ProtectedPathsError Z :=
  match y with
  | Some (YInt n) => if n =? PROTECTED_PATHS_SCHEMA_VERSION then Ok n else Err (UnsupportedVersion n)
  | v => Err (BadVersion (default YNull v))
  end.

(** From the parsed document on. *)
Definition registry_of (document : yaml) : result ProtectedPathsError ProtectedPathsRegistry :=
  data ← as_mapping "top-level" (Some document);
  validate_mapping_keys data TOP_KEYS "top-level";;
  each (λ k, match yaml_get k data with None => Err (MissingKey "top-level" k) | Some _ => Ok tt end) TOP_KEYS;;
  version ← check_version (yaml_get "version" data);
  tier_p ← as_mapping "tier_p" (yaml_get "tier_p" data);
  tier_s ← as_mapping "tier_s" (yaml_get "tier_s" data);
  validate_mapping_keys tier_p TIER_P_KEYS "tier_p";;
  validate_mapping_keys tier_s TIER_S_KEYS "tier_s";;
  p_files ← parse_path_list (yaml_get "files" tier_p) "tier_p.files";
  p_dirs ← parse_path_list (yaml_get "directories" tier_p) "tier_p.directories";
  s_files ← parse_path_list (yaml_get "files" tier_s) "tier_s.files";
  s_dirs ← parse_path_list (yaml_get "directories" tier_s) "tier_s.directories";
  p_modules ← parse_module_list (yaml_get "modules" tier_p) "tier_p.modules";
  s_modules ← parse_module_list (yaml_get "modules" tier_s) "tier_s.modules";
  la ← parse_launchagents (yaml_get "launchagents" tier_p);
  let '(la_path, la_base, la_require) := la in
  reject_duplicates [] p_files "tier_p.files";;
  reject_duplicates [] p_dirs "tier_p.directories";;
  reject_duplicates [] s_files "tier_s.files";;
  reject_duplicates [] s_dirs "tier_s.directories";;
  reject_duplicates [] p_modules "tier_p.modules";;
  reject_duplicates [] s_modules "tier_s.modules";;
  let p_file_set : gset string := list_to_set p_files in
  let s_file_set : gset string := list_to_set s_files in
  let p_dir_set : gset string := list_to_set p_dirs in
  let s_dir_set : gset string := list_to_set s_dirs in
  let p_mod_set : gset string := list_to_set p_modules in
  let s_mod_set : gset string := list_to_set s_modules in
  reject_symlink_confused_entries (p_file_set ∪ s_file_set ∪ p_dir_set ∪ s_dir_set);;
  reject_cross_tier_overlap p_file_set s_file_set p_dir_set s_dir_set p_mod_set s_mod_set;;
  enforce_floors p_file_set s_file_set p_dir_set s_dir_set p_mod_set s_mod_set la_path la_base;;
  Ok (mkRegistry version p_file_set (sort_by (λ x, x) (elements p_dir_set)) s_file_set
        (sort_by (λ x, x) (elements s_dir_set)) p_mod_set s_mod_set la_path la_base la_require).

Definition load_protected_paths (reg_path : string) (file : registry_file) :
    result ProtectedPathsError ProtectedPathsRegistry :=
  assert_registry_location_safe reg_path;;
  match file with
  | FileMissing => Err RegistryMissing
  | FileUnreadable => Err RegistryUnreadable
  | FileNotYaml => Err RegistryMalformed
  | Document y => document ← map_err (λ _, RegistryMalformed) (construct y); registry_of document
  end.
End loading.
