(* ===== verification/ProtectedPathsSpec.v ===== *)
(** * ProtectedPathsSpec: no document lowers the floors *)

From Stdlib Require Import Ascii.
From S2P Require Import Prelude PyString PyPath PathContainment PyYaml ProtectedPaths.
Open Scope Z_scope.

(** ** Text *)

Lemma startswith_iff p s : startswith p s = true ↔ ∃ r, s = p +:+ r.
Proof.
  revert s. induction p as [|c p IH]; intros s; simpl.
  - split; [intros _; by exists s|done].
  - destruct s as [|d s].
    + split; [done|]. intros [r Hr]. by rewrite string_app_cons in Hr.
    + rewrite andb_true_iff, IH. setoid_rewrite string_app_cons. split.
      * intros [->%Ascii.eqb_eq [r ->]]. by exists r.
      * intros [r [= -> ->]]. split; [apply Ascii.eqb_refl|by exists r].
Qed.

Lemma contains_iff n s : contains n s = true ↔ ∃ l r, s = l +:+ n +:+ r.
Proof.
  induction s as [|c s IH]; cbn [contains]; rewrite orb_true_iff, startswith_iff.
  - split; [intros [[r Hr]|?]; [by exists "", r|done]|].
    intros (l & r & Hs). destruct l; [left; by exists r|by rewrite string_app_cons in Hs].
  - rewrite IH. split.
    + intros [[r Hr]|(l & r & ->)]; [by exists "", r|exists (String c l), r; by rewrite string_app_cons].
    + intros (l & r & Hs). destruct l as [|d l]; [left; by exists r|]. rewrite string_app_cons in Hs.
      injection Hs as <- ->. right. by exists l, r.
Qed.

Lemma contains_trans a b c : contains a b = true → contains b c = true → contains a c = true.
Proof.
  rewrite !contains_iff. intros (l1 & r1 & ->) (l2 & r2 & ->).
  exists (l2 +:+ l1), (r1 +:+ r2). by rewrite !string_app_assoc.
Qed.

(** ** What a registry satisfies once loaded *)

Record registry_ok (r : ProtectedPathsRegistry) : Prop := {
  floor_p_files : FLOOR_TIER_P_FILES ⊆ r.(tier_p_files);
  floor_p_dirs : ∀ d, d ∈ FLOOR_TIER_P_DIRS → d ∈ r.(tier_p_dirs);
  floor_s_files : FLOOR_TIER_S_FILES ⊆ r.(tier_s_files);
  floor_s_dirs : ∀ d, d ∈ FLOOR_TIER_S_DIRS → d ∈ r.(tier_s_dirs);
  floor_p_mods : FLOOR_PROTECTED_P_MODULES ⊆ r.(protected_p_modules);
  floor_s_mods : FLOOR_PROTECTED_S_MODULES ⊆ r.(protected_s_modules);
  floor_la_path : contains r.(launchagent_path_contains) FLOOR_LAUNCHAGENT_PATH_CONTAINS = true;
  floor_la_base : contains r.(launchagent_basename_contains) FLOOR_LAUNCHAGENT_BASENAME_CONTAINS = true;
  la_path_text : r.(launchagent_path_contains) ≠ "";
  la_base_text : r.(launchagent_basename_contains) ≠ "";
  tiers_disjoint_files : r.(tier_p_files) ## r.(tier_s_files);
  tiers_disjoint_mods : r.(protected_p_modules) ## r.(protected_s_modules);
  tiers_disjoint_dirs : ∀ pd sd, pd ∈ r.(tier_p_dirs) → sd ∈ r.(tier_s_dirs) →
    under_dir pd sd = false ∧ under_dir sd pd = false;
  s_files_outside_p : ∀ f d, f ∈ r.(tier_s_files) → d ∈ r.(tier_p_dirs) → under_dir f d = false;
  p_files_outside_p : ∀ f d, f ∈ r.(tier_p_files) → d ∈ r.(tier_p_dirs) → under_dir f d = false;
}.

Lemma require_none_Ok e s : require_none e s = Ok tt → s = ∅.
Proof. unfold require_none. by case_bool_decide. Qed.

Lemma each_Ok {A} (f : A → result ProtectedPathsError unit) l :
  each f l = Ok tt → ∀ x, x ∈ l → f x = Ok tt.
Proof.
  induction l as [|y l IH]; simpl; [by intros _ x ?%not_elem_of_nil|].
  destruct (f y) as [[]|] eqn:E; simpl; [|done]. intros H x [->|Hx]%elem_of_cons; auto.
Qed.

(** Split a computation that returned into the steps it is made of. *)
Ltac ok_steps :=
  repeat match goal with
  | H : (_ ≫= _) = Ok _ |- _ => apply bind_Ok in H as (? & ? & H)
  | H : (let '(_, _) := ?p in _) = Ok _ |- _ => destruct p
  | x : unit |- _ => destruct x
  end.

Lemma parse_launchagents_text y la_path la_base req :
  parse_launchagents y = Ok (la_path, la_base, req) → la_path ≠ "" ∧ la_base ≠ "".
Proof.
  unfold parse_launchagents. destruct y as [[]|]; try done. intros H. ok_steps.
  repeat (case_match; try done). by simplify_eq.
Qed.

Lemma subset_of_difference (x y : gset string) : x ∖ y = ∅ → x ⊆ y.
Proof. intros H z Hz. destruct (decide (z ∈ y)); [done|]. set_solver. Qed.
Lemma disjoint_of_intersection (x y : gset string) : x ∩ y = ∅ → x ## y.
Proof. set_solver. Qed.

Lemma under_dir_false p d : p ≠ d → startswith (d +:+ "/") p = false → under_dir p d = false.
Proof. intros. unfold under_dir. by rewrite bool_decide_eq_false_2. Qed.

Lemma under_any_false p (dirs : gset string) d : under_any p dirs = false → d ∈ dirs → under_dir p d = false.
Proof.
  intros H Hd. apply not_true_iff_false. intros Ht. apply not_true_iff_false in H. apply H, existsb_exists.
  exists d. split; [|done]. by apply list_elem_of_In, elem_of_elements.
Qed.

Lemma enforce_floors_Ok pf sf pd sd pm sm la_path la_base :
  enforce_floors pf sf pd sd pm sm la_path la_base = Ok tt →
  FLOOR_TIER_P_FILES ⊆ pf ∧ FLOOR_TIER_P_DIRS ⊆ pd ∧ FLOOR_TIER_S_FILES ⊆ sf ∧ FLOOR_TIER_S_DIRS ⊆ sd
  ∧ FLOOR_PROTECTED_P_MODULES ⊆ pm ∧ FLOOR_PROTECTED_S_MODULES ⊆ sm
  ∧ contains la_path FLOOR_LAUNCHAGENT_PATH_CONTAINS = true
  ∧ contains la_base FLOOR_LAUNCHAGENT_BASENAME_CONTAINS = true.
Proof.
  unfold enforce_floors. intros H. ok_steps.
  destruct (contains la_path _); [|discriminate]. destruct (contains la_base _); [|discriminate].
  repeat match goal with H : require_none _ _ = _ |- _ => apply require_none_Ok in H end.
  split_and!; [apply subset_of_difference; assumption..|reflexivity|reflexivity].
Qed.

Lemma cross_tier_Ok pf sf pd sd pm sm :
  reject_cross_tier_overlap pf sf pd sd pm sm = Ok tt →
  pf ## sf ∧ pm ## sm
  ∧ (∀ p s, p ∈ pd → s ∈ sd → under_dir p s = false ∧ under_dir s p = false)
  ∧ (∀ f d, f ∈ sf → d ∈ pd → under_dir f d = false)
  ∧ (∀ f d, f ∈ pf → d ∈ pd → under_dir f d = false).
Proof.
  unfold reject_cross_tier_overlap. intros H. ok_steps.
  match goal with H : require_none _ (pf ∩ sf) = _ |- _ => apply require_none_Ok in H; rename H into Hf end.
  match goal with H : require_none _ (pm ∩ sm) = _ |- _ => apply require_none_Ok in H; rename H into Hm end.
  match goal with H : require_none _ (pd ∩ sd) = _ |- _ => apply require_none_Ok in H; rename H into Hd end.
  match goal with H : each _ (elements pd) = _ |- _ => rename H into Hnest end.
  match goal with H : each _ (elements sf) = _ |- _ => rename H into Hunder end.
  match goal with H : require_none (OverlappingFiles "tier_p") _ = _ |- _ =>
    apply require_none_Ok in H; rename H into Hover end.
  split_and!.
  - by apply disjoint_of_intersection.
  - by apply disjoint_of_intersection.
  - intros p s Hp Hs.
    pose proof (each_Ok _ _ (each_Ok _ _ Hnest p (proj2 (elem_of_elements _ _) Hp)) s
                  (proj2 (elem_of_elements _ _) Hs)) as Hps. cbv beta in Hps.
    destruct (startswith (s +:+ "/") p) eqn:E1; [discriminate|].
    destruct (startswith (p +:+ "/") s) eqn:E2; [discriminate|].
    assert (p ≠ s) by (intros ->; apply (not_elem_of_empty (C := gset string) s); rewrite <-Hd; by apply elem_of_intersection).
    split; apply under_dir_false; auto.
  - intros f d Hf' Hd'. pose proof (each_Ok _ _ Hunder f (proj2 (elem_of_elements _ _) Hf')) as Hfd.
    cbv beta in Hfd. destruct (under_any f pd) eqn:E; [discriminate|]. by apply (under_any_false f pd).
  - intros f d Hf' Hd'. apply (under_any_false f pd); [|done]. apply not_true_iff_false. intros Hu.
    apply (not_elem_of_empty (C := gset string) f). rewrite <-Hover. by apply elem_of_filter.
Qed.

Section loaded.
Context {FS : FileSystem} (repo_root : string) (lstat_entry : string → entry_stat).

Lemma registry_of_ok document r :
  registry_of repo_root lstat_entry document = Ok r → registry_ok r.
Proof.
  unfold registry_of. intros H. ok_steps.
  injection H as <-.
  match goal with H : reject_cross_tier_overlap _ _ _ _ _ _ = _ |- _ =>
    apply cross_tier_Ok in H as (? & ? & Hnest & Hunder & Hown) end.
  match goal with H : enforce_floors _ _ _ _ _ _ _ _ = _ |- _ =>
    apply enforce_floors_Ok in H as (? & Hpd & ? & Hsd & ? & ? & ? & ?) end.
  match goal with H : parse_launchagents _ = _ |- _ => apply parse_launchagents_text in H as [? ?] end.
  split; cbn [tier_p_files tier_p_dirs tier_s_files tier_s_dirs protected_p_modules protected_s_modules
              launchagent_path_contains launchagent_basename_contains]; try assumption.
  - intros d Hd. by apply elem_of_sort_by, elem_of_elements, Hpd.
  - intros d Hd. by apply elem_of_sort_by, elem_of_elements, Hsd.
  - intros pd' sd' Hp%elem_of_sort_by%elem_of_elements Hs%elem_of_sort_by%elem_of_elements. by apply Hnest.
  - intros f d Hf Hd%elem_of_sort_by%elem_of_elements. by apply Hunder.
  - intros f d Hf Hd%elem_of_sort_by%elem_of_elements. by apply Hown.
Qed.

Lemma load_ok reg_path file r : load_protected_paths repo_root lstat_entry reg_path file = Ok r → registry_ok r.
Proof.
  unfold load_protected_paths. intros H. ok_steps.
  destruct file; [discriminate H..|]. ok_steps. eapply registry_of_ok. eassumption.
Qed.
End loaded.

(** ** The floors *)

Definition floor_registry : ProtectedPathsRegistry :=
  mkRegistry PROTECTED_PATHS_SCHEMA_VERSION FLOOR_TIER_P_FILES (elements FLOOR_TIER_P_DIRS) FLOOR_TIER_S_FILES
    (elements FLOOR_TIER_S_DIRS) FLOOR_PROTECTED_P_MODULES FLOOR_PROTECTED_S_MODULES
    FLOOR_LAUNCHAGENT_PATH_CONTAINS FLOOR_LAUNCHAGENT_BASENAME_CONTAINS true.

Definition tier_rank (t : option Tier) : Z := match t with None => 0 | Some TierS => 1 | Some TierP => 2 end.
Lemma tier_rank_bounds t : 0 ≤ tier_rank t ≤ 2.
Proof. by destruct t as [[]|]. Qed.

Lemma launchagent_floor r p :
  registry_ok r → launchagent_match floor_registry p = true → launchagent_match r p = true.
Proof.
  intros Hr. unfold launchagent_match, floor_registry. cbn [launchagent_path_contains
    launchagent_basename_contains launchagent_require_dir]. rewrite !orb_true_iff, !andb_true_iff.
  rewrite !negb_true_iff, !(bool_decide_eq_false_2 (_ = "")) by (apply Hr || done).
  intros [[_ H]|[[_ H1] H2]].
  - left. split; [done|]. eapply contains_trans; [apply Hr|done].
  - right. split; [split; [done|]|].
    + eapply contains_trans; [apply Hr|done].
    + simpl in H2. by rewrite H2, orb_true_r.
Qed.

Lemma existsb_incl {A} (f : A → bool) l k :
  (∀ x, x ∈ l → x ∈ k) → existsb f l = true → existsb f k = true.
Proof.
  intros Hlk (x & Hx%list_elem_of_In & Hf)%existsb_exists. apply existsb_exists. exists x.
  split; [|done]. by apply list_elem_of_In, Hlk.
Qed.

Lemma floor_rank r path :
  registry_ok r → tier_rank (path_tier floor_registry path) ≤ tier_rank (path_tier r path).
Proof.
  intros Hr. unfold path_tier. set (p := norm_runtime_path path).
  destruct (bool_decide (p = "")); [done|].
  destruct (launchagent_match r p) eqn:El; [exact (proj2 (tier_rank_bounds _))|].
  assert (launchagent_match floor_registry p = false) as ->.
  { apply not_true_iff_false. intros H%(launchagent_floor r); congruence. }
  destruct (isabs p); [done|].
  case_bool_decide as H1.
  { rewrite (bool_decide_eq_true_2 (p ∈ tier_p_files r)) by by apply Hr. done. }
  destruct (bool_decide (p ∈ tier_p_files r)); [exact (proj2 (tier_rank_bounds _))|].
  destruct (existsb _ (tier_p_dirs floor_registry)) eqn:Ed.
  { rewrite (existsb_incl _ _ (tier_p_dirs r)) with (2 := Ed); [done|].
    intros d Hd. apply (floor_p_dirs r Hr), elem_of_elements, Hd. }
  destruct (existsb _ (tier_p_dirs r)); [exact (proj2 (tier_rank_bounds _))|].
  case_bool_decide as H2.
  { rewrite (bool_decide_eq_true_2 (p ∈ tier_s_files r)) by by apply Hr. done. }
  destruct (existsb _ (tier_s_dirs floor_registry)) eqn:Es.
  - rewrite (existsb_incl _ _ (tier_s_dirs r)) with (2 := Es).
    + by destruct (bool_decide (p ∈ tier_s_files r)).
    + intros d Hd. apply (floor_s_dirs r Hr), elem_of_elements, Hd.
  - exact (proj1 (tier_rank_bounds _)).
Qed.

(** No registry document deletes or demotes a protected path of the floors: whatever a document that
    loads says, every path is classified at least as strictly as by the floors alone, be it a file of the
    floors, a path below one of their directories or a launch agent. *)
Theorem registry_keeps_floors {FS : FileSystem} repo_root lstat_entry reg_path file r path :
  load_protected_paths repo_root lstat_entry reg_path file = Ok r →
  tier_rank (path_tier floor_registry path) ≤ tier_rank (path_tier r path).
Proof. intros Hr%load_ok. by apply floor_rank. Qed.

(** ** One tier per rule *)

Lemma startswith_both a b p : startswith a p = true → startswith b p = true → startswith a b = true ∨ startswith b a = true.
Proof.
  revert b p. induction a as [|c a IH]; intros b p; [by left|].
  destruct p as [|d p]; [done|]. destruct b as [|e b]; [by right|]. simpl.
  rewrite !andb_true_iff, !Ascii.eqb_eq. intros [<- Ha] [<- Hb]. destruct (IH b p Ha Hb); auto.
Qed.

Lemma startswith_drop_slash a b :
  startswith (a +:+ "/") (b +:+ "/") = true → a = b ∨ startswith (a +:+ "/") b = true.
Proof.
  revert b. induction a as [|c a IH]; intros [|d b]; rewrite ?string_app_cons; [by left| | |].
  - intros [r H]%startswith_iff. injection H as -> _. right. apply startswith_iff. by exists b.
  - intros [r H]%startswith_iff. injection H as -> H. by destruct a.
  - cbn [startswith]. rewrite !andb_true_iff. intros [->%Ascii.eqb_eq H].
    destruct (IH b H) as [->|H']; [by left|]. right. split; [apply Ascii.eqb_refl|done].
Qed.

Lemma under_dir_spec p d : under_dir p d = true ↔ p = d ∨ startswith (d +:+ "/") p = true.
Proof. unfold under_dir. by rewrite orb_true_iff, bool_decide_eq_true. Qed.

(** Two directories above one path are nested. *)
Lemma under_both p d e : under_dir p d = true → under_dir p e = true → under_dir d e = true ∨ under_dir e d = true.
Proof.
  rewrite !under_dir_spec. intros [->|Hd] [->|He]; auto.
  destruct (startswith_both _ _ _ Hd He) as [H|H]; apply startswith_drop_slash in H as [->|H]; auto.
Qed.

(** A loaded registry is unambiguous: the P rules and the S rules never both apply to a path, with the
    one exception the registry allows, a single P file that lies below an S directory, where P wins.
    So the order of the tests in [path_tier] decides nothing else. *)
Theorem registry_unambiguous {FS : FileSystem} repo_root lstat_entry reg_path file r path :
  load_protected_paths repo_root lstat_entry reg_path file = Ok r →
  let p := norm_runtime_path path in
  let p_rule := p ∈ tier_p_files r ∨ existsb (under_dir p) (tier_p_dirs r) = true in
  let s_rule := p ∈ tier_s_files r ∨ existsb (under_dir p) (tier_s_dirs r) = true in
  p_rule → s_rule →
  p ∈ tier_p_files r ∧ (p ∉ tier_s_files r) ∧ existsb (under_dir p) (tier_p_dirs r) = false.
Proof.
  intros Hr%load_ok p p_rule s_rule Hp Hs.
  assert (∀ l, existsb (under_dir p) l = true ↔ ∃ d, d ∈ l ∧ under_dir p d = true) as Hex.
  { intros l. rewrite existsb_exists. by setoid_rewrite list_elem_of_In. }
  assert (existsb (under_dir p) (tier_p_dirs r) = false) as Hno.
  { apply not_true_iff_false. intros (d & Hd & Hpd)%Hex. destruct Hs as [Hs|(e & He & Hpe)%Hex].
    - by rewrite (s_files_outside_p r Hr p d) in Hpd.
    - destruct (tiers_disjoint_dirs r Hr d e Hd He), (under_both p d e Hpd Hpe); congruence. }
  destruct Hp as [Hp|Hp]; [|unfold p in *; congruence]. split_and!; [done| |done].
  intros Hs'. by apply (tiers_disjoint_files r Hr p).
Qed.

(** ** The checked-in registry, [configs/protected-paths.yaml] *)

Definition ytexts (l : list string) : yaml := YSeq (map YStr l).
Definition checked_in_tier_p : yaml := YMap [
  (YStr "files", ytexts ["omniagentos/reliability/governance.py"; "configs/governance.yaml";
     "configs/reliability.yaml"; "configs/policy.yaml"; "configs/protected-paths.yaml";
     "omniagentos/contracts.py"; "omniagentos/reliability/judges.py";
     "omniagentos/api/routes/autonomy.py"; "scripts/benchmarks/configtest_gates.py"]);
  (YStr "directories", ytexts ["omniagentos/policy"; "contracts"; "omniagentos/notifications";
     "scripts/reliability"; "omniagentos/db/migrations"; "tests"; "dashboard/e2e"]);
  (YStr "modules", ytexts ["governance"; "judges"; "contracts"; "autonomy"]);
  (YStr "launchagents", YMap [(YStr "path_contains", YStr "Library/LaunchAgents/com.omniagentos.");
     (YStr "basename_contains", YStr "com.omniagentos."); (YStr "require_launchagents_dir", YBool true)])].
Definition checked_in_tier_s : yaml := YMap [
  (YStr "files", ytexts ["omniagentos/api/routes/reliability.py"; "omniagentos/api/routes/improvements.py";
     "omniagentos/api/routes/org.py"; "omniagentos/steward/alerts/monitor.py";
     "omniagentos/steward/alerts/rules.py"; "ARCHI.md"]);
  (YStr "directories", ytexts ["omniagentos/reliability"; "omniagentos/orgdims"; "omniagentos/archdocs";
     "docs/architecture"]);
  (YStr "modules", ytexts ["pipeline"; "detector"; "analyzer"; "sandbox"; "recovery"; "scorecards"; "memory"])].
Definition checked_in : yaml :=
  YMap [(YStr "version", YInt 1); (YStr "tier_p", checked_in_tier_p); (YStr "tier_s", checked_in_tier_s)].

(** A machine with the repository at [/r], whose entries do not exist yet. *)
Definition bare_stat (p : string) : option (Z * Z) :=
  if bool_decide (p = "/") then Some (1, 1) else if bool_decide (p = "/r") then Some (1, 2) else None.
Definition bare_fs : FileSystem := {|
  fs_lstat p := match bare_stat p with Some _ => LPresent | None => LMissing end;
  fs_stat := bare_stat; fs_realpath p := Some p; fs_abspath p := p; fs_expanduser p := Some p |}.
Definition bare_entry (p : string) : entry_stat :=
  match bare_stat p with Some _ => Entry false | None => NoEntry end.
Definition bare_registry : string := "/r/configs/protected-paths.yaml".
Definition load_bare (y : yaml) : result ProtectedPathsError ProtectedPathsRegistry :=
  load_protected_paths (FS := bare_fs) "/r" bare_entry bare_registry (Document y).

Example checked_in_loads :
  match load_bare checked_in with
  | Ok r => path_tier r "omniagentos/policy/shell.py" = Some TierP
      ∧ path_tier r "./omniagentos/reliability/pipeline.py" = Some TierS
      ∧ path_tier r "omniagentos/reliability/governance.py" = Some TierP
      ∧ path_tier r "/Users/x/Library/LaunchAgents/com.omniagentos.api.plist" = Some TierP
      ∧ path_tier r "README.md" = None
  | Err _ => False end.
Proof. vm_compute. by split_and!. Qed.

Lemma registry_keeps_floors_witness :
  match load_bare checked_in with
  | Ok r => tier_rank (path_tier floor_registry "contracts/x.py") ≤ tier_rank (path_tier r "contracts/x.py")
  | Err _ => False end.
Proof.
  destruct (load_bare checked_in) as [r|e] eqn:E.
  - exact (registry_keeps_floors (FS := bare_fs) "/r" bare_entry bare_registry (Document checked_in) r "contracts/x.py" E).
  - apply (f_equal is_ok) in E. vm_compute in E. discriminate.
Defined.

Lemma registry_unambiguous_witness :
  match load_bare checked_in with
  | Ok r => existsb (under_dir "omniagentos/reliability/judges.py") (tier_p_dirs r) = false
  | Err _ => False end.
Proof.
  destruct (load_bare checked_in) as [r|e] eqn:E.
  - assert (r = match load_bare checked_in with Ok r => r | Err _ => r end) as Hr by (rewrite E; reflexivity).
    refine (proj2 (proj2 (registry_unambiguous (FS := bare_fs) "/r" bare_entry bare_registry (Document checked_in) r "omniagentos/reliability/judges.py" E _ _))).
    + left. rewrite Hr. apply (bool_decide_unpack _). vm_compute. exact I.
    + right. rewrite Hr. vm_compute. reflexivity.
  - apply (f_equal is_ok) in E. vm_compute in E. discriminate.
Defined.
