(* ===== verification/RiskGovernance.v ===== *)
(** * RiskGovernance: [omniagentos/reliability/governance.py]

    The deterministic risk classifier of a diff, over the registry of protected
    paths.  The governance configuration and reading a diff from git are not here. *)

From Stdlib Require Import Ascii.
From S2P Require Import Prelude PyString PyPath PyRegex PathContainment PyYaml ProtectedPaths Records.
Open Scope Z_scope.

Record DiffEntry := mkEntry {
  d_status : string;
  d_path : string;
  d_old_path : option string;
  d_resolved_paths : list string;
  d_content : string;
}.

Record RiskResult := mkRisk {
  k_level : Z;
  k_reasons : list string;
  k_protected_paths : list string;
  k_tier : option Tier;
  k_tier_p : bool;
  k_tier_s : bool;
  k_declared_mismatch : bool;
  k_keyword_hit : bool;
}.

(** [ChangeRisk.L1] to [ChangeRisk.L4]. *)
Definition clamp_risk (level : Z) : Z := Z.max 1 (Z.min 4 level).

Definition KEYWORD_RE : regex :=
  alts [lit true "billing"; lit true "payment"; lit true "auth"; lit true "security"; lit true "permission";
        lit true "delet"; lit true "credential"; seqs [lit true "secret"; WordB]].

(** [_norm] is the same text function in both modules. *)
Definition norm : string → string := norm_runtime_path.

(** [s.endswith(suffix)] *)
Fixpoint endswith (suffix s : string) : bool :=
  bool_decide (s = suffix) || match s with "" => false | String _ s' => endswith suffix s' end.

(** [Path(p).stem] of a path whose last component has a suffix. *)
Fixpoint last_dot (s : string) : option (string * string) :=
  match s with
  | "" => None
  | String c s' => match last_dot s' with
                   | Some (a, b) => Some (String c a, b)
                   | None => if Ascii.eqb c "." then Some ("", s') else None
                   end
  end.
Definition stem (p : string) : string :=
  let name := basename p in
  match last_dot name with
  | Some (String _ _ as a, String _ _) => a
  | _ => name
  end.

(** What the loop over the entries has found. *)
Record Scan := mkScan {
  z_reasons : list string;
  z_protected : list string;
  z_tier_p : bool;
  z_tier_s : bool;
  z_mismatch : bool;
  z_keyword : bool;
}.
#[export] Instance Scan_rebuild : Rebuild Scan := λ z,
  mkScan z.(z_reasons) z.(z_protected) z.(z_tier_p) z.(z_tier_s) z.(z_mismatch) z.(z_keyword).
Definition reason (text : string) (z : Scan) : Scan := z <| z_reasons := z.(z_reasons) ++ [text] |>.

Section classify.
Context (registry : ProtectedPathsRegistry).

Definition literals (e : DiffEntry) : list string :=
  norm e.(d_path) :: match e.(d_old_path) with Some (String _ _ as p) => [norm p] | _ => [] end.
Definition effective (e : DiffEntry) : list string := literals e ++ map norm e.(d_resolved_paths).

Definition check_declared (declared : option (list string)) (z : Scan) (lp : string) : Scan :=
  match declared with
  | Some declared =>
      if negb (bool_decide (lp = "")) && negb (bool_decide (lp ∈ declared))
      then reason ("undeclared-path:" +:+ lp) (z <| z_mismatch := true |>) else z
  | None => z
  end.

Definition check_tier (z : Scan) (p : string) : Scan :=
  match path_tier registry p with
  | Some TierP => reason ("tier-P:" +:+ p) (z <| z_tier_p := true |> <| z_protected := z.(z_protected) ++ [p] |>)
  | Some TierS => reason ("tier-S:" +:+ p) (z <| z_tier_s := true |>)
  | None => z
  end.

Definition is_added (status : string) : bool :=
  match status with String c _ => Ascii.eqb (lower_char c) "a" | "" => false end.

Definition check_shadow (e : DiffEntry) (z : Scan) : Scan :=
  let primary := norm e.(d_path) in
  if is_added e.(d_status) && endswith ".py" primary then
    match path_tier registry primary with
    | Some _ => z
    | None =>
        let name := stem primary in
        if bool_decide (name ∈ registry.(protected_p_modules)) then
          reason ("shadow-P:" +:+ name) (z <| z_tier_p := true |> <| z_protected := z.(z_protected) ++ [primary] |>)
        else if bool_decide (name ∈ registry.(protected_s_modules)) then
          reason ("shadow-S:" +:+ name) (z <| z_tier_s := true |>)
        else z
    end
  else z.

Definition haystack (e : DiffEntry) : string := e.(d_content) +:+ String newline (norm e.(d_path)).
Definition check_keyword (e : DiffEntry) (z : Scan) : Scan :=
  if search KEYWORD_RE (haystack e)
  then reason ("keyword-guard:" +:+ norm e.(d_path)) (z <| z_keyword := true |>) else z.

Definition scan_entry (declared : option (list string)) (z : Scan) (e : DiffEntry) : Scan :=
  let z := foldl (check_declared declared) z (literals e) in
  let z := foldl check_tier z (effective e) in
  check_keyword e (check_shadow e z).

Definition classify_risk (entries : list DiffEntry) (declared_paths : option (list string))
    (suggested_level : Z) : RiskResult :=
  let declared := map norm <$> declared_paths in
  let z := foldl (scan_entry declared) (mkScan [] [] false false false false) entries in
  let level := clamp_risk suggested_level in
  let level := if z.(z_tier_s) then Z.max level 3 else level in
  let level := if z.(z_tier_p) || z.(z_mismatch) || z.(z_keyword) then 4 else level in
  mkRisk level z.(z_reasons) z.(z_protected)
    (if z.(z_tier_p) then Some TierP else if z.(z_tier_s) then Some TierS else None)
    z.(z_tier_p) z.(z_tier_s) z.(z_mismatch) z.(z_keyword).
End classify.
