(* ===== verification/RiskGovernanceSpec.v ===== *)
(** * RiskGovernanceSpec: the classifier only raises, and protects the floors *)

From Stdlib Require Import Ascii.
From S2P Require Import Prelude PyString PyPath PyRegex PathContainment PyYaml ProtectedPaths ProtectedPathsSpec.
From S2P Require Import Records RiskGovernance.
Open Scope Z_scope.

(** A flag that a loop only ever sets. *)
Lemma foldl_or {S A} (f : S → A → S) (flag : S → bool) (h : A → bool) l z :
  (∀ z x, flag (f z x) = flag z || h x) → flag (foldl f z l) = flag z || existsb h l.
Proof.
  intros Hf. revert z. induction l as [|x l IH]; intros z; simpl; [by rewrite orb_false_r|].
  by rewrite IH, Hf, orb_assoc.
Qed.
Lemma foldl_keep {S A B} (f : S → A → S) (g : S → B) l z :
  (∀ z x, g (f z x) = g z) → g (foldl f z l) = g z.
Proof. intros Hf. revert z. induction l as [|x l IH]; intros z; simpl; [done|]. by rewrite IH. Qed.

Section flags.
Context (registry : ProtectedPathsRegistry).

Definition has_tier (t : Tier) (e : DiffEntry) : bool :=
  existsb (λ p, bool_decide (path_tier registry p = Some t)) (effective e).
(** A new Python file, itself unprotected, named as a module of the set. *)
Definition shadows (modules : gset string) (e : DiffEntry) : bool :=
  let primary := norm e.(d_path) in
  is_added e.(d_status) && endswith ".py" primary && bool_decide (path_tier registry primary = None)
  && bool_decide (stem primary ∈ modules).
Definition touches_p (e : DiffEntry) : bool := has_tier TierP e || shadows registry.(protected_p_modules) e.
Definition touches_s (e : DiffEntry) : bool :=
  has_tier TierS e
  || shadows registry.(protected_s_modules) e && negb (bool_decide (stem (norm e.(d_path)) ∈ registry.(protected_p_modules))).
Definition undeclared (declared : option (list string)) (e : DiffEntry) : bool :=
  match declared with
  | None => false
  | Some l => existsb (λ lp, negb (bool_decide (lp = "")) && negb (bool_decide (lp ∈ map norm l))) (literals e)
  end.
Definition keyword (e : DiffEntry) : bool := search KEYWORD_RE (haystack e).

Lemma check_declared_flags d z lp :
  let z' := check_declared d z lp in
  z'.(z_tier_p) = z.(z_tier_p) ∧ z'.(z_tier_s) = z.(z_tier_s) ∧ z'.(z_keyword) = z.(z_keyword)
  ∧ z'.(z_mismatch) = z.(z_mismatch) || match d with
      | None => false
      | Some l => negb (bool_decide (lp = "")) && negb (bool_decide (lp ∈ l)) end.
Proof.
  unfold check_declared. destruct d as [l|]; simpl; [|by rewrite orb_false_r].
  destruct (_ && _); simpl; by rewrite ?orb_false_r, ?orb_true_r.
Qed.

Lemma check_tier_flags z p :
  let z' := check_tier registry z p in
  z'.(z_mismatch) = z.(z_mismatch) ∧ z'.(z_keyword) = z.(z_keyword)
  ∧ z'.(z_tier_p) = z.(z_tier_p) || bool_decide (path_tier registry p = Some TierP)
  ∧ z'.(z_tier_s) = z.(z_tier_s) || bool_decide (path_tier registry p = Some TierS).
Proof.
  unfold check_tier. destruct (path_tier registry p) as [[]|]; simpl; by rewrite ?orb_false_r, ?orb_true_r.
Qed.

Lemma check_shadow_flags e z :
  let z' := check_shadow registry e z in
  z'.(z_mismatch) = z.(z_mismatch) ∧ z'.(z_keyword) = z.(z_keyword)
  ∧ z'.(z_tier_p) = z.(z_tier_p) || shadows registry.(protected_p_modules) e
  ∧ z'.(z_tier_s) = z.(z_tier_s) || shadows registry.(protected_s_modules) e
      && negb (bool_decide (stem (norm e.(d_path)) ∈ registry.(protected_p_modules))).
Proof.
  unfold check_shadow, shadows. destruct (_ && endswith _ _); simpl; [|by rewrite !orb_false_r].
  destruct (path_tier _ _); simpl; [by rewrite !orb_false_r|].
  destruct (bool_decide (_ ∈ protected_p_modules _)); simpl; [by rewrite andb_false_r, orb_false_r, orb_true_r|].
  destruct (bool_decide (_ ∈ protected_s_modules _)); simpl; by rewrite ?orb_false_r, ?orb_true_r.
Qed.

Lemma scan_entry_flags declared z e :
  let z' := scan_entry registry (map norm <$> declared) z e in
  z'.(z_tier_p) = z.(z_tier_p) || touches_p e
  ∧ z'.(z_tier_s) = z.(z_tier_s) || touches_s e
  ∧ z'.(z_mismatch) = z.(z_mismatch) || undeclared declared e
  ∧ z'.(z_keyword) = z.(z_keyword) || keyword e.
Proof.
  unfold scan_entry. set (z1 := foldl (check_declared _) z _). set (z2 := foldl (check_tier _) z1 _).
  destruct (check_shadow_flags e z2) as (Hm3 & Hk3 & Hp3 & Hs3).
  assert (z2.(z_mismatch) = z1.(z_mismatch) ∧ z2.(z_keyword) = z1.(z_keyword)
    ∧ z2.(z_tier_p) = z1.(z_tier_p) || has_tier TierP e ∧ z2.(z_tier_s) = z1.(z_tier_s) || has_tier TierS e)
    as (Hm2 & Hk2 & Hp2 & Hs2).
  { unfold z2, has_tier. split_and!; [apply foldl_keep|apply foldl_keep|apply foldl_or|apply foldl_or];
      intros; apply check_tier_flags. }
  assert (z1.(z_tier_p) = z.(z_tier_p) ∧ z1.(z_tier_s) = z.(z_tier_s) ∧ z1.(z_keyword) = z.(z_keyword)
    ∧ z1.(z_mismatch) = z.(z_mismatch) || undeclared declared e) as (Hp1 & Hs1 & Hk1 & Hm1).
  { unfold z1. split_and!; try (apply foldl_keep; intros; apply check_declared_flags).
    unfold undeclared. destruct declared as [l|].
    - apply foldl_or. intros z' lp. apply (check_declared_flags (Some (map norm l)) z' lp).
    - rewrite orb_false_r. by apply foldl_keep. }
  unfold touches_p, touches_s, keyword, check_keyword. rewrite !orb_assoc, <-Hp1, <-Hs1, <-Hk1, <-Hm1, <-Hp2, <-Hs2.
  rewrite <-Hk2, <-Hm2, <-Hk3, <-Hm3, <-Hp3, <-Hs3.
  destruct (search _ _); simpl; by rewrite ?orb_false_r, ?orb_true_r.
Qed.

(** The classification is exactly the worst of what the entries are: each flag of the result says that some
    entry has that trait (a protected path among its literal and resolved paths or a protected module's
    name, an undeclared path, a guarded keyword), and the level is four with tier P, a mismatch or a keyword, at
    least three with tier S, and the clamped suggestion otherwise. *)
Theorem risk_exact entries declared suggested :
  let r := classify_risk registry entries declared suggested in
  r.(k_tier_p) = existsb touches_p entries ∧ r.(k_tier_s) = existsb touches_s entries
  ∧ r.(k_declared_mismatch) = existsb (undeclared declared) entries
  ∧ r.(k_keyword_hit) = existsb keyword entries
  ∧ r.(k_level) = if existsb touches_p entries || existsb (undeclared declared) entries || existsb keyword entries then 4
                  else if existsb touches_s entries then Z.max (clamp_risk suggested) 3
                  else clamp_risk suggested.
Proof.
  unfold classify_risk. simpl. set (z := foldl _ _ entries).
  assert (z.(z_tier_p) = existsb touches_p entries ∧ z.(z_tier_s) = existsb touches_s entries
    ∧ z.(z_mismatch) = existsb (undeclared declared) entries ∧ z.(z_keyword) = existsb keyword entries)
    as (-> & -> & -> & ->).
  { unfold z. split_and!; (etrans; [apply foldl_or; intros; apply scan_entry_flags|done]). }
  by destruct (_ || _ || _).
Qed.
End flags.

(** ** Only raising *)

Lemma clamp_bounds n : 1 ≤ clamp_risk n ≤ 4.
Proof. unfold clamp_risk. lia. Qed.
Lemma clamp_mono m n : m ≤ n → clamp_risk m ≤ clamp_risk n.
Proof. unfold clamp_risk. lia. Qed.

(** [declared'] admits no more than [declared]. *)
Definition narrower (declared declared' : option (list string)) : Prop :=
  match declared, declared' with
  | None, _ => True
  | Some l, Some l' => ∀ p, p ∈ l' → p ∈ l
  | Some _, None => False
  end.

Lemma undeclared_narrower declared declared' e :
  narrower declared declared' → undeclared declared e = true → undeclared declared' e = true.
Proof.
  unfold undeclared. destruct declared as [l|], declared' as [l'|]; try done. cbn [narrower]. intros Hl.
  rewrite !existsb_exists. intros (lp & Hlp & Hu). exists lp. split; [done|].
  apply andb_true_iff in Hu as [-> Hu%negb_true_iff%bool_decide_eq_false]. simpl.
  apply negb_true_iff, bool_decide_eq_false. intros (p & -> & Hp)%list_elem_of_fmap.
  apply Hu, list_elem_of_fmap. eauto.
Qed.

(** The classifier only ever raises: the level is between the clamped suggestion and four, and more
    changed files, in any order, a higher suggestion or fewer declared paths never lower it. *)
Theorem risk_only_raises registry entries entries' declared declared' suggested suggested' :
  (∀ e, e ∈ entries → e ∈ entries') → narrower declared declared' → suggested ≤ suggested' →
  clamp_risk suggested ≤ (classify_risk registry entries declared suggested).(k_level)
  ∧ (classify_risk registry entries declared suggested).(k_level)
      ≤ (classify_risk registry entries' declared' suggested').(k_level)
  ∧ (classify_risk registry entries' declared' suggested').(k_level) ≤ 4.
Proof.
  intros He Hd Hs. destruct (risk_exact registry entries declared suggested) as (_ & _ & _ & _ & ->).
  destruct (risk_exact registry entries' declared' suggested') as (_ & _ & _ & _ & ->).
  pose proof (clamp_bounds suggested). pose proof (clamp_bounds suggested').
  pose proof (clamp_mono _ _ Hs).
  assert (∀ f : DiffEntry → bool, existsb f entries = true → existsb f entries' = true) as Hf.
  { intros f. by apply existsb_incl. }
  assert (existsb (undeclared declared) entries = true → existsb (undeclared declared') entries' = true) as Hu.
  { intros (e & Hin & Hue)%existsb_exists. apply existsb_exists. exists e.
    split; [by apply list_elem_of_In, He, list_elem_of_In|by eapply undeclared_narrower]. }
  assert (existsb (touches_p registry) entries || existsb (undeclared declared) entries || existsb keyword entries = true →
    existsb (touches_p registry) entries' || existsb (undeclared declared') entries' || existsb keyword entries' = true) as H4.
  { rewrite !orb_true_iff. intuition. }
  specialize (Hf (touches_s registry)).
  repeat match goal with |- context [if ?b then _ else _] => destruct b eqn:? end;
    repeat split; try lia; try (specialize (H4 eq_refl); congruence); try (specialize (Hf eq_refl); congruence).
Qed.

(** The texts a diff entry names: its path, the source of a rename, what its path resolves to. *)
Definition touched (e : DiffEntry) (p : string) : Prop :=
  p = e.(d_path) ∨ e.(d_old_path) = Some p ∧ p ≠ "" ∨ p ∈ e.(d_resolved_paths).
Lemma touched_effective e p : touched e p → norm p ∈ effective e.
Proof.
  unfold effective, literals. rewrite elem_of_app, elem_of_cons, list_elem_of_fmap.
  intros [->|[[-> Hp]|Hp]]; [by do 2 left| |right; by exists p].
  left; right. destruct p; [done|]. by left.
Qed.

(** The classifier inherits the floors of the registry: whatever registry document is loaded, a diff in
    which one path, the source of a rename and every resolved target included, is P by the floors alone is at level
    four, and S by the floors alone at level three or more. *)
Theorem floors_force_level {FS : FileSystem} repo_root lstat_entry reg_path file registry entries declared suggested e p :
  load_protected_paths repo_root lstat_entry reg_path file = Ok registry →
  e ∈ entries → touched e p →
  (path_tier floor_registry (norm p) = Some TierP →
     (classify_risk registry entries declared suggested).(k_level) = 4)
  ∧ (path_tier floor_registry (norm p) = Some TierS →
     3 ≤ (classify_risk registry entries declared suggested).(k_level)).
Proof.
  intros Hr%load_ok He Hp%touched_effective. revert Hp. generalize (norm p). clear p. intros p Hp.
  pose proof (floor_rank registry p Hr) as Hrank.
  destruct (risk_exact registry entries declared suggested) as (_ & _ & _ & _ & ->).
  pose proof (clamp_bounds suggested).
  assert (∀ t, path_tier registry p = Some t → existsb (has_tier registry t) entries = true) as Ht.
  { intros t Ht. apply existsb_exists. exists e. split; [by apply list_elem_of_In|].
    apply existsb_exists. exists p. split; [by apply list_elem_of_In|]. by apply bool_decide_eq_true. }
  assert (path_tier registry p = Some TierP → existsb (touches_p registry) entries = true) as HP.
  { intros Htp. specialize (Ht _ Htp). apply existsb_exists in Ht as (x & Hx & Hxt). apply existsb_exists.
    exists x. split; [done|]. unfold touches_p. by rewrite Hxt. }
  assert (path_tier registry p = Some TierS → existsb (touches_s registry) entries = true) as HS.
  { intros Hts. specialize (Ht _ Hts). apply existsb_exists in Ht as (x & Hx & Hxt). apply existsb_exists.
    exists x. split; [done|]. unfold touches_s. by rewrite Hxt. }
  split; intros Hfl; rewrite Hfl in Hrank; destruct (path_tier registry p) as [[]|]; simpl in Hrank; try lia.
  - by rewrite HP.
  - rewrite HP by done. simpl. lia.
  - rewrite HS by done. destruct (_ || _ || _); lia.
Qed.

(** ** Concrete runs *)

Definition judge_edit : DiffEntry :=
  mkEntry "M" "docs/notes.md" None ["omniagentos/reliability/judges.py"] "+ a line".
Definition shadowing : DiffEntry := mkEntry "A" "tools/governance.py" None [] "+ pass".

Example classify_demo :
  match load_bare checked_in with
  | Ok r => (classify_risk r [judge_edit] (Some ["./docs/notes.md"]) 1).(k_reasons)
              = ["tier-P:omniagentos/reliability/judges.py"]
      ∧ (classify_risk r [shadowing] None 1).(k_reasons) = ["shadow-P:governance"]
      ∧ (classify_risk r [mkEntry "M" "a.py" None [] "fix the Author list"] None 2).(k_level) = 4
      ∧ (classify_risk r [mkEntry "M" "a.py" None [] "rename x"] None 2).(k_level) = 2
  | Err _ => False end.
Proof. vm_compute. by split_and!. Qed.

Lemma risk_only_raises_witness :
  match load_bare checked_in with
  | Ok r => (classify_risk r [judge_edit] None 1).(k_level)
            ≤ (classify_risk r [shadowing; judge_edit] (Some ["docs/notes.md"]) 2).(k_level)
  | Err _ => False end.
Proof.
  destruct (load_bare checked_in) as [r|e] eqn:E.
  - refine (proj1 (proj2 (risk_only_raises r [judge_edit] [shadowing; judge_edit] None (Some ["docs/notes.md"]) 1 2 _ _ _))).
    + intros e He. apply elem_of_cons. right. exact He.
    + exact I.
    + discriminate.
  - apply (f_equal is_ok) in E. vm_compute in E. discriminate.
Defined.

Lemma floors_force_level_witness :
  match load_bare checked_in with
  | Ok r => (classify_risk r [judge_edit] None 1).(k_level) = 4
  | Err _ => False end.
Proof.
  destruct (load_bare checked_in) as [r|e] eqn:E.
  - refine (proj1 (floors_force_level (FS := bare_fs) "/r" bare_entry bare_registry (Document checked_in) r
              [judge_edit] None 1 judge_edit "omniagentos/reliability/judges.py" E _ _) _).
    + apply elem_of_cons. left. reflexivity.
    + right. right. apply elem_of_cons. left. reflexivity.
    + vm_compute. reflexivity.
  - apply (f_equal is_ok) in E. vm_compute in E. discriminate.
Defined.
