(* ===== verification/WorkTree.v ===== *)
(** * WorkTree: [omniagentos/execution/verify.py]

    The verdict on what a working tree changed.  What git printed for the disposable
    index, what a path resolves to and what exists are parameters; a step that raised
    is [None]. *)

From Stdlib Require Import Ascii QArith.
From S2P Require Import Prelude PyString PyPath PathContainment PyYaml ProtectedPaths Records RiskGovernance.
Open Scope Z_scope.

(** ** Paths *)

Definition norm_path (path : string) : string :=
  let text := strip_dot_slash (replace_char backslash "/" (strip path)) in
  if bool_decide (text = "") then ""
  else
    let normalized := normpath text in
    if bool_decide (normalized = ".") then "" else rstrip_by is_slash normalized.

Fixpoint dedupe_from (seen : list string) (paths : list string) : list string :=
  match paths with
  | [] => []
  | path :: paths =>
      let normalized := norm_path path in
      if negb (bool_decide (normalized = "")) && negb (bool_decide (normalized ∈ seen))
      then normalized :: dedupe_from (normalized :: seen) paths else dedupe_from seen paths
  end.
Definition dedupe : list string → list string := dedupe_from [].

Definition under_root (path root : string) : bool :=
  bool_decide (root ∈ [""; "."]) || under_dir path root.

(** ** What was declared *)

Record DeclaredScope := mkScope {
  files_to_modify : list string;
  files_to_create : list string;
  files_to_delete : list string;
  create_roots : list string;
  must_modify : list string;
}.
Inductive declaration := NotDeclared | DeclaredAs (s : DeclaredScope) | DeclaredPaths (paths : list string).

Definition scope_parts (d : declaration) : option (list string) * list string :=
  match d with
  | NotDeclared => (None, [])
  | DeclaredAs s =>
      (Some (dedupe (s.(files_to_modify) ++ s.(files_to_create) ++ s.(files_to_delete)
                     ++ s.(create_roots) ++ s.(must_modify))), dedupe s.(create_roots))
  | DeclaredPaths paths => (Some (dedupe paths), [])
  end.

(** ** What changed *)

Record ObservedChange := mkObserved {
  observed_source : string;
  base_ref : option string;
  head_ref : option string;
  observed_paths : list string;
  status_by_path : gmap string string;
}.

(** [filter(None, (path, old_path))] *)
Definition truthy_paths (e : DiffEntry) : list string :=
  List.filter (λ p, negb (bool_decide (p = ""))) (e.(d_path) :: option_list e.(d_old_path)).

Section observation.
(** [git diff --cached --name-status -M -C base] on the disposable index, the diff of a
    path, and [os.path.realpath]. *)
Context (name_status : option string) (path_diff realpath : string → option string).

(** [relative_to], then [_norm]; a target outside is kept as it is. *)
Definition resolved_target (root real : string) : string :=
  if bool_decide (real = root) then ""
  else if startswith (root +:+ "/") real then norm_path (drop_str (S (String.length root)) real)
  else real.
Definition resolved_paths (root : string) (e : DiffEntry) : list string :=
  dedupe (omap (λ raw, resolved_target root <$> realpath (path_join root raw)) (truthy_paths e)).

(** A line's status, path and rename source. *)
Definition line_fields (line : string) : option (string * string * option string) :=
  let fields := split "009" line in
  let status := strip (default "" (head fields)) in
  if bool_decide (status = "") then None
  else
    let renamed := match status with String c _ => bool_decide (c ∈ ["R"; "C"]%char) | "" => false end in
    match fields with
    | _ :: old :: new :: _ => if renamed then Some (status, strip new, Some (strip old))
                              else Some (status, strip (default "" (last fields)), None)
    | _ => Some (status, strip (default "" (last fields)), None)
    end.

(** [_norm(None)] is the empty text. *)
Definition entry_of (root : string) (f : string * string * option string) : option DiffEntry :=
  let '(status, path, old_path) := f in
  content ← path_diff path;
  let e := mkEntry status (norm_path path) (Some (match old_path with Some p => norm_path p | None => "" end))
             [] content in
  Some (mkEntry e.(d_status) e.(d_path) e.(d_old_path) (resolved_paths root e) e.(d_content)).

Definition entries_from_index (root : string) : option (list DiffEntry) :=
  text ← name_status;
  mapM (entry_of root) (omap line_fields (splitlines text)).

Definition observe_working_tree (root base : string) : ObservedChange :=
  match entries_from_index root with
  | None => mkObserved "unobserved" (Some base) None [] ∅
  | Some entries =>
      mkObserved "git-index" (Some base) (Some "HEAD") (dedupe (entries ≫= truthy_paths))
        (list_to_map (reverse (map (λ e, (e.(d_path), e.(d_status))) entries)))
  end.
End observation.

(** ** The verdict *)

Definition execution_level_from_risk (risk : RiskResult) (suggested_level : Z) : Z :=
  let base := Z.max 1 (Z.min 4 suggested_level) in
  if risk.(k_tier_p) || risk.(k_declared_mismatch) then 4
  else if risk.(k_tier_s) then Z.max base 3 else base.

Record ScopeVerdict := mkVerdict {
  v_ok : bool;
  v_degraded : bool;
  v_enforcement : string;
  v_declared : list string;
  v_actual : list string;
  v_missing : list string;
  v_covered : list string;
  v_precision : Q;
  v_risk_level : Z;
  v_execution_level : Z;
  v_tier : option Tier;
  v_missing_creates : list string;
  v_missing_must_modify : list string;
  v_keyword_hit : bool;
  v_reasons : list string;
  v_observed_source : string;
}.
#[export] Instance ScopeVerdict_rebuild : Rebuild ScopeVerdict := λ v,
  mkVerdict v.(v_ok) v.(v_degraded) v.(v_enforcement) v.(v_declared) v.(v_actual) v.(v_missing)
    v.(v_covered) v.(v_precision) v.(v_risk_level) v.(v_execution_level) v.(v_tier)
    v.(v_missing_creates) v.(v_missing_must_modify) v.(v_keyword_hit) v.(v_reasons) v.(v_observed_source).

(** [path in declared or any(_under(path, root) for root in create_roots)] *)
Definition covers (declared create_roots : list string) (path : string) : bool :=
  bool_decide (path ∈ declared) || existsb (under_root path) create_roots.

Section verdict.
Context (registry : ProtectedPathsRegistry).

Definition scope_verdict (declared : option (list string)) (create_roots : list string) (entries : list DiffEntry)
    (observed : ObservedChange) (suggested_level : Z) (enforcement : string) : ScopeVerdict :=
  let actual := dedupe (entries ≫= truthy_paths) in
  let '(covered, missing, risk_declarations) :=
    match declared with
    | None => (actual, [], None)
    | Some declared =>
        let covered := List.filter (covers declared create_roots) actual in
        (covered, List.filter (λ path, negb (bool_decide (path ∈ covered))) actual,
         Some (dedupe (declared ++ covered)))
    end in
  let risk := classify_risk registry entries risk_declarations suggested_level in
  let unobserved := bool_decide (observed.(observed_source) = "unobserved") in
  mkVerdict (bool_decide (missing = []) && negb unobserved) unobserved enforcement (default [] declared)
    actual missing covered
    (if unobserved then 0 else match actual with [] => 1
                               | _ => (Z.of_nat (length covered) # Pos.of_nat (length actual)) end)%Q
    risk.(k_level) (if unobserved then 4 else execution_level_from_risk risk suggested_level) risk.(k_tier)
    [] [] risk.(k_keyword_hit)
    (risk.(k_reasons) ++ (if unobserved then ["working-tree observation was inconclusive"] else [])
     ++ match missing with [] => [] | _ => ["undeclared paths: " +:+ join ", " missing] end)
    observed.(observed_source).

Section verify.
Context (name_status : option string) (path_diff realpath : string → option string) (exists_at : string → bool).
(** The text of the error of a failed observation. *)
Context (observation_error : string).

Definition verify_working_tree (root base : string) (declared : declaration) (suggested_level : Z)
    (enforcement : string) : ScopeVerdict :=
  let '(declared_paths, roots) := scope_parts declared in
  let read := entries_from_index name_status path_diff realpath root in
  let observed := observe_working_tree name_status path_diff realpath root base in
  let verdict := scope_verdict declared_paths roots (default [] read) observed suggested_level enforcement in
  let verdict := match read with
    | None => verdict <| v_reasons := verdict.(v_reasons) ++ ["observation_error:" +:+ observation_error] |>
    | Some _ => verdict end in
  match declared with
  | DeclaredAs s =>
      let missing_creates := List.filter (λ path, negb (exists_at (path_join root path))) (dedupe s.(files_to_create)) in
      let missing_must := List.filter (λ path, negb (bool_decide (path ∈ verdict.(v_actual)))) (dedupe s.(must_modify)) in
      verdict <| v_missing_creates := missing_creates |> <| v_missing_must_modify := missing_must |>
        <| v_reasons := verdict.(v_reasons) ++ map (String.append "missing-create:") missing_creates
                          ++ map (String.append "missing-must-modify:") missing_must |>
  | _ => verdict
  end.
End verify.
End verdict.
