(* ===== verification/WorkTreeSpec.v ===== *)
(** * WorkTreeSpec: the verdict on a working tree *)

From Stdlib Require Import Ascii QArith.
From S2P Require Import Prelude PyString PyPath PathContainment PyYaml ProtectedPaths ProtectedPathsSpec.
From S2P Require Import Records RiskGovernance RiskGovernanceSpec WorkTree.
Open Scope Z_scope.

Lemma elem_of_dedupe_from seen l p :
  p ∈ dedupe_from seen l ↔ p ≠ "" ∧ (p ∉ seen) ∧ ∃ q, q ∈ l ∧ norm_path q = p.
Proof.
  revert seen. induction l as [|x l IH]; intros seen; simpl.
  - split; [by intros ?%not_elem_of_nil|]. by intros (_ & _ & q & ?%not_elem_of_nil & _).
  - destruct (bool_decide_reflect (norm_path x = "")) as [Hx|Hx]; simpl.
    + rewrite IH. split; intros (? & ? & q & Hq & Heq); (split_and!; [done..|]).
      * exists q. split; [by right|done].
      * apply elem_of_cons in Hq as [->|Hq]; [congruence|eauto].
    + destruct (bool_decide_reflect (norm_path x ∈ seen)) as [Hs|Hs]; simpl.
      * rewrite IH. split; intros (? & ? & q & Hq & Heq); (split_and!; [done..|]).
        -- exists q. split; [by right|done].
        -- apply elem_of_cons in Hq as [->|Hq]; [congruence|eauto].
      * rewrite elem_of_cons, IH. split.
        -- intros [->|(? & Hn & q & Hq & Heq)].
           ++ split_and!; [done..|]. exists x. split; [by left|done].
           ++ split_and!; [done|set_solver|]. exists q. split; [by right|done].
        -- intros (? & ? & q & Hq & Heq). destruct (decide (p = norm_path x)) as [->|Hne]; [by left|].
           right. split_and!; [done|set_solver|]. apply elem_of_cons in Hq as [->|Hq]; [congruence|eauto].
Qed.

Lemma elem_of_dedupe l p : p ∈ dedupe l ↔ p ≠ "" ∧ ∃ q, q ∈ l ∧ norm_path q = p.
Proof. unfold dedupe. rewrite elem_of_dedupe_from. set_solver. Qed.

Lemma elem_of_truthy e p : p ∈ truthy_paths e ↔ p ≠ "" ∧ (p = e.(d_path) ∨ e.(d_old_path) = Some p).
Proof.
  unfold truthy_paths. rewrite elem_of_select, negb_true_iff, bool_decide_eq_false, elem_of_cons.
  destruct (d_old_path e) as [o|]; simpl.
  - rewrite list_elem_of_singleton. naive_solver.
  - rewrite elem_of_nil. naive_solver.
Qed.

Lemma select_all {A} (f : A → bool) l : select (λ x, negb (f x)) l = [] ↔ ∀ x, x ∈ l → f x = true.
Proof.
  split.
  - intros Hn x Hx. apply not_false_iff_true. intros Hf.
    assert (x ∈ select (λ x, negb (f x)) l) as Hin by (apply elem_of_select; by rewrite Hf).
    rewrite Hn in Hin. by apply not_elem_of_nil in Hin.
  - intros Hall. apply select_none. intros x Hx. by rewrite (Hall x Hx).
Qed.

Lemma actual_paths entries p :
  p ∈ dedupe (entries ≫= truthy_paths) ↔
  p ≠ "" ∧ ∃ e q, e ∈ entries ∧ norm_path q = p ∧ q ≠ "" ∧ (q = e.(d_path) ∨ e.(d_old_path) = Some q).
Proof.
  rewrite elem_of_dedupe. apply and_iff_compat_l. split.
  - intros (q & (e & Hq%elem_of_truthy & He)%list_elem_of_bind & <-). naive_solver.
  - intros (e & q & He & <- & Hq). exists q. split; [|done].
    apply list_elem_of_bind. exists e. split; [by apply elem_of_truthy|done].
Qed.

Section verdicts.
Context (registry : ProtectedPathsRegistry).

(** Declared as such, or below a root of created files. *)
Definition admitted (declared : option (list string)) (roots : list string) (p : string) : Prop :=
  match declared with
  | None => True
  | Some l => p ∈ l ∨ ∃ r, r ∈ roots ∧ under_root p r = true
  end.

(** A scope verdict is good exactly when the tree was observed and every path of the entries, rename sources
    included, is declared or lies below a root of created files; the paths that are not are reported as
    missing, all of them and nothing else; without a declaration nothing is ever missing. *)
Theorem scope_verdict_exact declared roots entries observed suggested enforcement :
  let v := scope_verdict registry declared roots entries observed suggested enforcement in
  (v.(v_ok) = true ↔ observed.(observed_source) ≠ "unobserved"
     ∧ ∀ p, p ∈ v.(v_actual) → admitted declared roots p)
  ∧ (∀ p, p ∈ v.(v_missing) ↔ p ∈ v.(v_actual) ∧ ¬ admitted declared roots p)
  ∧ (∀ p, p ∈ v.(v_actual) ↔ p ≠ "" ∧ ∃ e q, e ∈ entries ∧ norm_path q = p ∧ q ≠ "" ∧ (q = e.(d_path) ∨ e.(d_old_path) = Some q)).
Proof.
  assert (Hcov : ∀ l p, covers l roots p = true ↔ admitted (Some l) roots p).
  { intros l p. unfold covers, admitted. rewrite orb_true_iff, bool_decide_eq_true, existsb_exists.
    by setoid_rewrite list_elem_of_In. }
  assert (Hmiss : ∀ l actual p,
    p ∈ select (λ p, negb (bool_decide (p ∈ select (covers l roots) actual))) actual
    ↔ p ∈ actual ∧ ¬ admitted (Some l) roots p).
  { intros l actual p. rewrite elem_of_select, negb_true_iff, bool_decide_eq_false, elem_of_select, Hcov. tauto. }
  unfold scope_verdict. set (actual := dedupe _). destruct declared as [l|]; cbn [v_ok v_actual v_missing].
  - split_and!; [|apply Hmiss|apply actual_paths].
    rewrite andb_true_iff, negb_true_iff, bool_decide_eq_false, bool_decide_eq_true.
    rewrite (select_all (λ p, bool_decide (p ∈ select (covers l roots) actual)) actual).
    split.
    + intros [Hall Hs]. split; [done|]. intros p Hp. apply Hcov. specialize (Hall p Hp).
      by apply bool_decide_eq_true, elem_of_select in Hall as [_ ?].
    + intros [Hs Hall]. split; [|done]. intros p Hp. apply bool_decide_eq_true, elem_of_select.
      split; [done|]. by apply Hcov, Hall.
  - split_and!; [|intros p; simpl; split; [by intros ?%not_elem_of_nil|tauto]|apply actual_paths].
    rewrite andb_true_iff, negb_true_iff, bool_decide_eq_false. simpl. naive_solver.
Qed.

(** ** A whole verification *)

(** The name of a path changed by one line, new or renamed from. *)
Definition changed (text q : string) : Prop :=
  ∃ status path old, Some (status, path, old) ∈ map line_fields (splitlines text) ∧ (q = path ∨ old = Some q).

Lemma entries_changed text path_diff realpath root entries :
  entries_from_index (Some text) path_diff realpath root = Some entries →
  ∀ p, p ≠ "" → (∃ e, e ∈ entries ∧ (p = e.(d_path) ∨ e.(d_old_path) = Some p))
                ↔ ∃ q, changed text q ∧ norm_path q = p.
Proof.
  unfold entries_from_index. simpl. intros Hm p Hp. apply mapM_Some in Hm. split.
  - intros (e & He & Hpe). apply list_elem_of_lookup in He as [k Hk].
    destruct (Forall2_lookup_r _ _ _ _ _ Hm Hk) as ([[status path] old] & Hf & Heq).
    apply list_elem_of_lookup_2, list_elem_of_omap in Hf as (line & Hline & Hfields).
    unfold entry_of in Heq. destruct (path_diff path); simplify_eq/=.
    assert (∀ q, q = path ∨ old = Some q → changed text q) as Hch.
    { intros q Hq. exists status, path, old. split; [|done]. apply list_elem_of_fmap. eauto. }
    destruct Hpe as [->|Hpe]; [by eauto|]. injection Hpe as <-. destruct old; [by eauto|done].
  - intros (q & (status & path & old & (line & Hfields & Hline)%list_elem_of_fmap & Hq) & <-).
    assert ((status, path, old) ∈ omap line_fields (splitlines text)) as Hin by (apply list_elem_of_omap; eauto).
    apply list_elem_of_lookup in Hin as [k Hk].
    destruct (Forall2_lookup_l _ _ _ _ _ Hm Hk) as (e & He & Heq).
    unfold entry_of in Heq. destruct (path_diff path); simplify_eq/=.
    eexists. split; [by eapply list_elem_of_lookup_2|]. simpl. destruct Hq as [->| ->]; auto.
Qed.

(** When the names are canonical, the entries carry exactly the changed paths. *)
Lemma named_changed text path_diff realpath root entries :
  entries_from_index (Some text) path_diff realpath root = Some entries →
  (∀ q, changed text q → norm_path q = q ∧ q ≠ "") →
  ∀ p, p ≠ "" → (∃ e, e ∈ entries ∧ (p = e.(d_path) ∨ e.(d_old_path) = Some p)) ↔ changed text p.
Proof.
  intros Hread Hcanon p Hp. rewrite (entries_changed text path_diff realpath root entries Hread p Hp).
  split; [intros (q & Hq & <-); by rewrite (proj1 (Hcanon q Hq))|].
  intros Hq. exists p. split; [done|by apply Hcanon].
Qed.

Lemma entries_total text path_diff realpath root :
  (∀ q, is_Some (path_diff q)) → is_Some (entries_from_index (Some text) path_diff realpath root).
Proof.
  intros Hd. unfold entries_from_index. simpl. apply mapM_is_Some, Forall_forall. intros [[status path] old] _.
  unfold entry_of. destruct (Hd path) as [content Hc]. simpl. rewrite Hc. by eexists.
Qed.

Section whole.
Context (name_status : option string) (path_diff realpath : string → option string) (exists_at : string → bool)
        (error root base : string).
Let verify := verify_working_tree registry name_status path_diff realpath exists_at error root base.
Let read := entries_from_index name_status path_diff realpath root.

Lemma verify_fields declared suggested enforcement :
  let v := verify declared suggested enforcement in
  let w := scope_verdict registry (scope_parts declared).1 (scope_parts declared).2 (default [] read)
             (observe_working_tree name_status path_diff realpath root base) suggested enforcement in
  v.(v_ok) = w.(v_ok) ∧ v.(v_degraded) = w.(v_degraded) ∧ v.(v_execution_level) = w.(v_execution_level)
  ∧ v.(v_actual) = w.(v_actual) ∧ v.(v_missing) = w.(v_missing).
Proof.
  cbv zeta. unfold verify, verify_working_tree. fold read. destruct declared, read; by split_and!.
Qed.

Lemma observed_source_read :
  observed_source (observe_working_tree name_status path_diff realpath root base)
  = match read with Some _ => "git-index" | None => "unobserved" end.
Proof. unfold observe_working_tree. fold read. by destruct read. Qed.

(** A tree that could not be observed is never judged clean: when any step of reading it raised, the verdict is
    not good, is marked as degraded and asks for the highest level, whatever was declared. *)
Theorem unobserved_never_clean declared suggested enforcement :
  read = None →
  let v := verify declared suggested enforcement in
  v.(v_ok) = false ∧ v.(v_degraded) = true ∧ v.(v_execution_level) = 4.
Proof.
  intros Hread v. destruct (verify_fields declared suggested enforcement) as (Hok & Hd & Hl & _).
  fold v in Hok, Hd, Hl. rewrite Hok, Hd, Hl. unfold scope_verdict. rewrite observed_source_read, Hread.
  destruct (scope_parts declared) as [[l|] roots]; simpl; by rewrite ?andb_false_r.
Qed.

(** When git names the changed paths in canonical form, verifying a tree says it is good exactly when every
    changed path, the sources of renames and copies included, is declared or lies below a declared root. *)
Theorem verify_exact text declared suggested enforcement :
  name_status = Some text → (∀ q, is_Some (path_diff q)) →
  (∀ q, changed text q → norm_path q = q ∧ q ≠ "") →
  (verify declared suggested enforcement).(v_ok) = true
  ↔ ∀ q, changed text q → admitted (scope_parts declared).1 (scope_parts declared).2 q.
Proof.
  intros Hns Hdiff Hcanon. destruct (verify_fields declared suggested enforcement) as (-> & _).
  assert (is_Some read) as [entries Hread] by (unfold read; rewrite Hns; by apply entries_total).
  destruct (scope_verdict_exact (scope_parts declared).1 (scope_parts declared).2 (default [] read)
    (observe_working_tree name_status path_diff realpath root base) suggested enforcement) as (-> & _ & Hact).
  rewrite observed_source_read, Hread in *. simpl in Hact.
  assert (Hent : ∀ p, p ≠ "" → (∃ e, e ∈ entries ∧ (p = e.(d_path) ∨ e.(d_old_path) = Some p)) ↔ changed text p).
  { unfold read in Hread. rewrite Hns in Hread. by eapply named_changed. }
  split.
  - intros [_ Hall] q Hq. destruct (Hcanon q Hq) as [Hn Hne]. apply Hall, Hact. split; [done|].
    apply Hent in Hq as (e & He & Hqe); [|done]. exists e, q. by split_and!.
  - intros Hall. split; [done|]. intros p [Hp (e & q & He & <- & Hq & Hqe)]%Hact.
    assert (changed text q) as Hch by (apply Hent; eauto).
    rewrite (proj1 (Hcanon q Hch)). by apply Hall.
Qed.
End whole.
End verdicts.

(** ** Keywords are advisory *)

Lemma existsb_map {A B} (g : A → B) (p : B → bool) l : existsb p (map g l) = existsb (λ x, p (g x)) l.
Proof. induction l as [|x l IH]; simpl; [done|]. by rewrite IH. Qed.
Lemma bind_map {A B C} (g : A → B) (f : B → list C) l : map g l ≫= f = l ≫= λ x, f (g x).
Proof. induction l as [|x l IH]; [done|]. simpl. by f_equal. Qed.

Definition with_content (f : DiffEntry → string) (e : DiffEntry) : DiffEntry :=
  mkEntry e.(d_status) e.(d_path) e.(d_old_path) e.(d_resolved_paths) (f e).

(** What the changed files contain never decides an execution: replacing the content of the diffs, and with it any
    guarded keyword, changes neither whether the verdict is good, nor the missing paths, nor the
    execution level, which depends on tiers and the declaration only. *)
Theorem keyword_is_advisory registry declared roots entries f observed suggested enforcement :
  let v := scope_verdict registry declared roots entries observed suggested enforcement in
  let v' := scope_verdict registry declared roots (map (with_content f) entries) observed suggested enforcement in
  v'.(v_ok) = v.(v_ok) ∧ v'.(v_missing) = v.(v_missing) ∧ v'.(v_execution_level) = v.(v_execution_level)
  ∧ v'.(v_tier) = v.(v_tier).
Proof.
  assert (Hflags : ∀ decl, let r' := classify_risk registry (map (with_content f) entries) decl suggested in
    let r := classify_risk registry entries decl suggested in
    r'.(k_tier_p) = r.(k_tier_p) ∧ r'.(k_tier_s) = r.(k_tier_s) ∧ r'.(k_declared_mismatch) = r.(k_declared_mismatch)).
  { intros decl r' r. destruct (risk_exact registry entries decl suggested) as (Hp & Hs & Hm & _).
    destruct (risk_exact registry (map (with_content f) entries) decl suggested) as (Hp' & Hs' & Hm' & _).
    rewrite (existsb_map (with_content f)) in Hp', Hs', Hm'. split_and!; etrans; eauto. }
  assert (Htier : ∀ decl, (classify_risk registry (map (with_content f) entries) decl suggested).(k_tier)
                          = (classify_risk registry entries decl suggested).(k_tier)).
  { intros decl. destruct (Hflags decl) as (Hp & Hs & _). unfold classify_risk in *. simpl in *. by rewrite Hp, Hs. }
  intros v v'. subst v v'. unfold scope_verdict. rewrite (bind_map (with_content f)).
  change (λ e, truthy_paths (with_content f e)) with truthy_paths.
  destruct declared as [l|]; cbn [v_ok v_missing v_execution_level v_tier]; rewrite Htier; (split_and!; [done..| |done]);
    (destruct (bool_decide (observed_source observed = "unobserved")); [done|]);
    unfold execution_level_from_risk;
    match goal with |- context [classify_risk _ (map _ _) ?d _] => destruct (Hflags d) as (-> & -> & ->) end; done.
Qed.

(** ** Concrete trees *)

Definition tab : string := String "009" "".
Definition nl : string := String "010" "".
Definition demo_status : string :=
  "M" +:+ tab +:+ "src/a.py" +:+ nl +:+ "R090" +:+ tab +:+ "src/old.py" +:+ tab +:+ "src/new.py" +:+ nl.
Definition demo_verify (text : option string) (d : declaration) : ScopeVerdict :=
  verify_working_tree floor_registry text (λ _, Some "") Some (λ _, true) "OSError:" "/w" "main" d 1 "enforce".

Example verify_demo :
  (demo_verify (Some demo_status) (DeclaredPaths ["src/a.py"; "./src/new.py"])).(v_missing) = ["src/old.py"]
  ∧ (demo_verify (Some demo_status) (DeclaredAs (mkScope [] [] [] ["src/"] []))).(v_ok) = true
  ∧ (demo_verify None NotDeclared).(v_execution_level) = 4.
Proof. vm_compute. by split_and!. Qed.

Lemma unobserved_never_clean_witness : (demo_verify None NotDeclared).(v_ok) = false.
Proof.
  refine (proj1 (unobserved_never_clean floor_registry None (λ _, Some "") Some (λ _, true) "OSError:" "/w" "main"
            NotDeclared 1 "enforce" _)).
  reflexivity.
Defined.

(** The changed paths of a text, as a list. *)
Definition changed_list (text : string) : list string :=
  omap line_fields (splitlines text) ≫= λ f, f.1.2 :: option_list f.2.
Lemma changed_list_spec text q : changed text q → q ∈ changed_list text.
Proof.
  intros (status & path & old & (line & Hf & Hl)%list_elem_of_fmap & Hq). unfold changed_list.
  apply list_elem_of_bind. exists (status, path, old). split.
  - simpl. destruct Hq as [->| ->]; simpl; set_solver.
  - apply list_elem_of_omap. eauto.
Qed.

Lemma demo_tree_canonical q : changed demo_status q → norm_path q = q ∧ q ≠ "".
Proof.
  intros Hq%changed_list_spec%list_elem_of_In.
  assert (forallb (λ q, bool_decide (norm_path q = q) && negb (bool_decide (q = ""))) (changed_list demo_status) = true)
    as Hall by by vm_compute.
  eapply forallb_forall in Hall; [|exact Hq]. bool_prop. done.
Qed.

(** The source of the rename is not declared. *)
Lemma verify_exact_witness :
  ¬ (∀ q, changed demo_status q → admitted (Some ["src/a.py"; "src/new.py"]) [] q).
Proof.
  intros H.
  assert (demo_verify (Some demo_status) (DeclaredPaths ["src/a.py"; "src/new.py"])).(v_ok) as Hok; [|exact Hok].
  apply Is_true_eq_left.
  apply (verify_exact floor_registry (Some demo_status) (λ _, Some "") Some (λ _, true) "OSError:" "/w"
    "main" demo_status (DeclaredPaths ["src/a.py"; "src/new.py"]) 1 "enforce").
  - reflexivity.
  - intros q. exists "". reflexivity.
  - exact demo_tree_canonical.
  - exact H.
Defined.

(** A directory whose name begins with a blank: the line is stripped, so a path outside the declared scope is
    judged as the declared path. *)
Example blank_edge_escapes :
  let text := "A" +:+ tab +:+ " src/x.py" +:+ nl in
  (demo_verify (Some text) (DeclaredPaths ["src/x.py"])).(v_ok) = true
  ∧ line_fields ("A" +:+ tab +:+ " src/x.py") = Some ("A", "src/x.py", None).
Proof. vm_compute. by split. Qed.
