(* ===== verification/WorkQueueSchema.v ===== *)
(** * WorkQueueSchema: [omniagentos/workqueue/schema.py] and its migrations

    The vocabulary of the shared work queue: the enumerations with their texts, the
    rows of the five [wq_] tables and the constants.  Times are whole seconds, the
    resolution of the texts the store writes; a list stored as JSON is the list; the
    [wq_attempts.id] of a row is its position, since rows are never deleted. *)

From Stdlib Require Import Ascii QArith.
From S2P Require Import Prelude PyString Records.
Open Scope Z_scope.

Abbreviation timestamp := Z.

(** ** Enumerations *)

Inductive UnitState := QUEUED | CLAIMED | RUNNING | REVIEW | DONE | PARKED | CANCELLED.
#[export] Instance UnitState_eq_dec : EqDecision UnitState.
Proof. solve_decision. Defined.
Definition state_value (s : UnitState) : string :=
  match s with
  | QUEUED => "queued" | CLAIMED => "claimed" | RUNNING => "running" | REVIEW => "review"
  | DONE => "done" | PARKED => "parked" | CANCELLED => "cancelled"
  end.

Inductive RiskClass := MECHANICAL | STANDARD | SENSITIVE.
#[export] Instance RiskClass_eq_dec : EqDecision RiskClass.
Proof. solve_decision. Defined.
Definition risk_value (r : RiskClass) : string :=
  match r with MECHANICAL => "mechanical" | STANDARD => "standard" | SENSITIVE => "sensitive" end.

Inductive Outcome :=
  | PASS | CANDIDATE_DEFECT | INSTRUMENT_ERROR | ENVIRONMENT | CONTENTION_FLAKE
  | UNCHANGED_RETRY | STORM_PARKED | LEASE_LOST | ABANDONED | TIMEOUT.
#[export] Instance Outcome_eq_dec : EqDecision Outcome.
Proof. solve_decision. Defined.
Definition outcome_value (o : Outcome) : string :=
  match o with
  | PASS => "pass" | CANDIDATE_DEFECT => "candidate-defect" | INSTRUMENT_ERROR => "instrument-error"
  | ENVIRONMENT => "environment" | CONTENTION_FLAKE => "contention-flake"
  | UNCHANGED_RETRY => "unchanged-retry" | STORM_PARKED => "storm-parked"
  | LEASE_LOST => "lease-lost" | ABANDONED => "abandoned" | TIMEOUT => "timeout"
  end.

Inductive TerminalReason :=
  | REASON_ACCEPTED | REASON_ATTEMPTS_EXHAUSTED | REASON_STORM_PARKED | REASON_TERMINAL_INSTRUMENT
  | REASON_CANCELLED | REASON_SUPERSEDED | REASON_UNCLAIMABLE.
#[export] Instance TerminalReason_eq_dec : EqDecision TerminalReason.
Proof. solve_decision. Defined.
Definition reason_value (r : TerminalReason) : string :=
  match r with
  | REASON_ACCEPTED => "accepted" | REASON_ATTEMPTS_EXHAUSTED => "attempts-exhausted"
  | REASON_STORM_PARKED => "storm-parked" | REASON_TERMINAL_INSTRUMENT => "terminal-instrument"
  | REASON_CANCELLED => "cancelled" | REASON_SUPERSEDED => "superseded"
  | REASON_UNCLAIMABLE => "unclaimable-no-capable-machine"
  end.

(** [Enum(text)]: the member with this value, or a ValueError. *)
Definition member {A} (value : A → string) (members : list A) (text : string) : option A :=
  List.find (λ m, bool_decide (value m = text)) members.
Definition ALL_RISKS : list RiskClass := [MECHANICAL; STANDARD; SENSITIVE].
Definition ALL_OUTCOMES : list Outcome :=
  [PASS; CANDIDATE_DEFECT; INSTRUMENT_ERROR; ENVIRONMENT; CONTENTION_FLAKE; UNCHANGED_RETRY;
   STORM_PARKED; LEASE_LOST; ABANDONED; TIMEOUT].
Definition ALL_REASONS : list TerminalReason :=
  [REASON_ACCEPTED; REASON_ATTEMPTS_EXHAUSTED; REASON_STORM_PARKED; REASON_TERMINAL_INSTRUMENT;
   REASON_CANCELLED; REASON_SUPERSEDED; REASON_UNCLAIMABLE].

Definition NON_CONSUMING_OUTCOMES : list Outcome :=
  [INSTRUMENT_ERROR; ENVIRONMENT; CONTENTION_FLAKE; UNCHANGED_RETRY; LEASE_LOST; ABANDONED].
Definition INSTRUMENT_RETRY_OUTCOMES : list Outcome :=
  [INSTRUMENT_ERROR; ENVIRONMENT; CONTENTION_FLAKE].

Definition LEASE_TTL_S : Z := 120.
Definition REFUSAL_STORM_CAP : Z := 5.
Definition INSTRUMENT_BACKOFF_S : list Z := [60; 300; 900].
Definition INSTRUMENT_RETRY_CAP : Z := 3.

(** ** Rows *)

Record WorkUnit := mkUnit {
  u_id : string;
  u_idempotency_key : string;
  u_created_at : timestamp;
  u_updated_at : timestamp;
  u_repo_url : string;
  u_repo_slug : string;
  u_base_sha : string;
  u_base_ref : string;
  u_branch : string;
  u_owned_paths : list string;
  u_brief_inline : option string;
  u_brief_path : option string;
  u_submitted_by : string;
  u_agent_profile : string;
  u_timeout_s : Z;
  u_labels : list string;
  u_risk_class : RiskClass;
  u_acceptance_cmd : string;
  u_acceptance_gate : option string;
  u_state : UnitState;
  u_priority : Z;
  u_attempt : Z;
  u_max_attempts : Z;
  u_instrument_retries : Z;
  u_lease_owner : option string;
  u_lease_expires_at : option timestamp;
  u_lease_generation : Z;
  u_terminal_reason : option TerminalReason;
  u_result_branch : option string;
  u_result_sha : option string;
  u_finished_at : option timestamp;
  u_cancel_requested : bool;
  u_park_remedy : option string;
  u_alerted_at : option timestamp;
  u_not_before : option timestamp;
}.
#[export] Instance WorkUnit_rebuild : Rebuild WorkUnit := λ u,
  mkUnit u.(u_id) u.(u_idempotency_key) u.(u_created_at) u.(u_updated_at) u.(u_repo_url)
    u.(u_repo_slug) u.(u_base_sha) u.(u_base_ref) u.(u_branch) u.(u_owned_paths)
    u.(u_brief_inline) u.(u_brief_path) u.(u_submitted_by) u.(u_agent_profile) u.(u_timeout_s)
    u.(u_labels) u.(u_risk_class) u.(u_acceptance_cmd) u.(u_acceptance_gate) u.(u_state)
    u.(u_priority) u.(u_attempt) u.(u_max_attempts) u.(u_instrument_retries) u.(u_lease_owner)
    u.(u_lease_expires_at) u.(u_lease_generation) u.(u_terminal_reason) u.(u_result_branch)
    u.(u_result_sha) u.(u_finished_at) u.(u_cancel_requested) u.(u_park_remedy)
    u.(u_alerted_at) u.(u_not_before).

Record Attempt := mkAttempt {
  a_unit_id : string;
  a_attempt : Z;
  a_lease_generation : Z;
  a_machine_id : string;
  a_worker_id : string;
  a_started_at : timestamp;
  a_finished_at : option timestamp;
  a_input_key : option string;
  a_outcome : option Outcome;
  a_exit_code : option Z;
  a_gate_exit_code : option Z;
  a_retryable : option Z;
  a_remedy : option string;
  a_head_sha : option string;
  a_log_path : option string;
}.
#[export] Instance Attempt_rebuild : Rebuild Attempt := λ a,
  mkAttempt a.(a_unit_id) a.(a_attempt) a.(a_lease_generation) a.(a_machine_id) a.(a_worker_id)
    a.(a_started_at) a.(a_finished_at) a.(a_input_key) a.(a_outcome) a.(a_exit_code)
    a.(a_gate_exit_code) a.(a_retryable) a.(a_remedy) a.(a_head_sha) a.(a_log_path).

(** [REAL] columns are copied, never computed with. *)
Record Machine := mkMachine {
  m_machine_id : string;
  m_hostname : string;
  m_os : string;
  m_ssh_target : option string;
  m_labels : list string;
  m_max_concurrent : Z;
  m_drain : bool;
  m_enrolled_at : timestamp;
  m_last_seen_at : option timestamp;
  m_agent_version : option string;
  m_notes : option string;
  m_ncpu : option Z;
  m_perf_cores : option Z;
  m_mem_gb : option Q;
  m_last_load1 : option Q;
  m_last_load5 : option Q;
  m_last_mem_free_gb : option Q;
  m_ceiling_fraction : Q;
  m_telemetry_at : option timestamp;
  m_role : string;
  m_device_class : option string;
}.
#[export] Instance Machine_rebuild : Rebuild Machine := λ m,
  mkMachine m.(m_machine_id) m.(m_hostname) m.(m_os) m.(m_ssh_target) m.(m_labels)
    m.(m_max_concurrent) m.(m_drain) m.(m_enrolled_at) m.(m_last_seen_at) m.(m_agent_version)
    m.(m_notes) m.(m_ncpu) m.(m_perf_cores) m.(m_mem_gb) m.(m_last_load1) m.(m_last_load5)
    m.(m_last_mem_free_gb) m.(m_ceiling_fraction) m.(m_telemetry_at) m.(m_role)
    m.(m_device_class).

Record Worker := mkWorker {
  w_worker_id : string;
  w_machine_id : string;
  w_pid : Z;
  w_started_at : timestamp;
  w_last_beat_at : timestamp;
  w_current_unit_id : option string;
}.
#[export] Instance Worker_rebuild : Rebuild Worker := λ w,
  mkWorker w.(w_worker_id) w.(w_machine_id) w.(w_pid) w.(w_started_at) w.(w_last_beat_at)
    w.(w_current_unit_id).

Record Refusal := mkRefusal {
  r_input_key : string;
  r_gate : string;
  r_count : Z;
  r_first_seen_at : timestamp;
  r_last_seen_at : timestamp;
  r_refusal_class : string;
  r_retryable : Z;
  r_remedy : string;
  r_last_unit_id : option string;
  r_parked_at : option timestamp;
  r_alerted_at : option timestamp;
}.
#[export] Instance Refusal_rebuild : Rebuild Refusal := λ r,
  mkRefusal r.(r_input_key) r.(r_gate) r.(r_count) r.(r_first_seen_at) r.(r_last_seen_at)
    r.(r_refusal_class) r.(r_retryable) r.(r_remedy) r.(r_last_unit_id) r.(r_parked_at)
    r.(r_alerted_at).
