(* ===== verification/WorkQueue.v ===== *)
(** * WorkQueue: [omniagentos/workqueue/store.py]

    The shared pool's store: every operation of [WorkQueueStore] as a function of the
    five tables.  [now] is the clock of [utc_now_iso]; a body that rolls back leaves
    the tables alone, and [write] is [BEGIN IMMEDIATE] with its rollback on a raise. *)

From Stdlib Require Import Ascii QArith.
From S2P Require Import Prelude PyString Records WorkQueueSchema.
Open Scope Z_scope.

Inductive wq_error :=
  | MissingField (name : string) | BadBaseSha (text : string) | UnknownRiskClass (text : string)
  | NoOwnedPaths | UnknownOutcome (text : string) | UnknownReason (text : string)
  | EmptyBecause | NotParked (state : UnitState) | TerminalPark (reason : TerminalReason)
  | UnknownUnit | LeaseLost | IntegrityError.

Record WorkQueue := mkQueue {
  q_units : list WorkUnit;
  q_attempts : list Attempt;
  q_machines : list Machine;
  q_workers : list Worker;
  q_refusals : list Refusal;
}.
#[export] Instance WorkQueue_rebuild : Rebuild WorkQueue := λ q,
  mkQueue q.(q_units) q.(q_attempts) q.(q_machines) q.(q_workers) q.(q_refusals).

Definition empty_queue : WorkQueue := mkQueue [] [] [] [] [].

(** ** Selections the statements share *)

Definition in_state (s : UnitState) (u : WorkUnit) : bool := bool_decide (u.(u_state) = s).
Definition holds_lease_state (u : WorkUnit) : bool := in_state CLAIMED u || in_state RUNNING u.
Definition unit_is (unit_id : string) (u : WorkUnit) : bool := bool_decide (u.(u_id) = unit_id).
Definition machine_is (machine_id : string) (m : Machine) : bool :=
  bool_decide (m.(m_machine_id) = machine_id).
Definition attempt_of (unit_id : string) (a : Attempt) : bool := bool_decide (a.(a_unit_id) = unit_id).
(** [unit_id = ? AND finished_at IS NULL] *)
Definition open_attempt_of (unit_id : string) (a : Attempt) : bool :=
  attempt_of unit_id a && bool_decide (a.(a_finished_at) = None).
Definition refusal_is (input_key gate : string) (r : Refusal) : bool :=
  bool_decide (r.(r_input_key) = input_key) && bool_decide (r.(r_gate) = gate).

Definition fetch {A} (p : A → bool) (t : list A) : option A := head (select p t).

(** ** Enqueue *)

(** The request body; a field that is absent, null or empty is missing. *)
Record Submit := mkSubmit {
  s_id : option string;
  s_idempotency_key : option string;
  s_repo_url : option string;
  s_repo_slug : option string;
  s_base_sha : option string;
  s_base_ref : option string;
  s_branch : option string;
  s_owned_paths : list string;
  s_brief_inline : option string;
  s_brief_path : option string;
  s_submitted_by : option string;
  s_agent_profile : option string;
  s_timeout_s : option Z;
  s_labels : list string;
  s_risk_class : option string;
  s_acceptance_cmd : option string;
  s_acceptance_gate : option string;
  s_priority : option Z;
  s_max_attempts : option Z;
}.

(** [value or default] for text and for a number. *)
Definition text_or (default : string) (v : option string) : string :=
  match v with Some EmptyString | None => default | Some s => s end.
Definition num_or (default : Z) (v : option Z) : Z :=
  match v with None => default | Some n => if n =? 0 then default else n end.

Definition truthy_text (v : option string) : bool :=
  match v with Some EmptyString | None => false | Some _ => true end.

Definition required_fields (submit : Submit) : list (string * bool) :=
  [("idempotency_key", truthy_text submit.(s_idempotency_key));
   ("repo_url", truthy_text submit.(s_repo_url));
   ("repo_slug", truthy_text submit.(s_repo_slug));
   ("base_sha", truthy_text submit.(s_base_sha));
   ("branch", truthy_text submit.(s_branch));
   ("owned_paths", match submit.(s_owned_paths) with [] => false | _ => true end);
   ("agent_profile", truthy_text submit.(s_agent_profile));
   ("acceptance_cmd", truthy_text submit.(s_acceptance_cmd));
   ("risk_class", truthy_text submit.(s_risk_class))].

(** [_SHA40.fullmatch] *)
Definition is_lower_hex (c : ascii) : bool :=
  is_digit c || (97 <=? Z.of_nat (code c)) && (Z.of_nat (code c) <=? 102).
Definition sha40 (s : string) : bool :=
  (Z.of_nat (String.length s) =? 40) && forallb_str is_lower_hex s.

(** The CHECK constraints of [wq_units] that an insert can violate. *)
Definition between (lo hi n : Z) : bool := (lo <=? n) && (n <=? hi).
Definition unit_checks (u : WorkUnit) : bool :=
  between 60 21600 u.(u_timeout_s) && between 0 4 u.(u_priority) && (0 <=? u.(u_attempt))
  && between 1 5 u.(u_max_attempts) && (0 <=? u.(u_instrument_retries))
  && (0 <=? u.(u_lease_generation)).

Definition new_unit (unit_id key base_sha : string) (risk_class : RiskClass) (submit : Submit)
    (now : timestamp) : WorkUnit :=
  mkUnit unit_id key now now (default "" submit.(s_repo_url)) (default "" submit.(s_repo_slug))
    base_sha (text_or "main" submit.(s_base_ref)) (default "" submit.(s_branch))
    submit.(s_owned_paths) submit.(s_brief_inline) submit.(s_brief_path)
    (text_or "" submit.(s_submitted_by)) (default "" submit.(s_agent_profile))
    (num_or 3600 submit.(s_timeout_s)) submit.(s_labels) risk_class
    (default "" submit.(s_acceptance_cmd)) submit.(s_acceptance_gate) QUEUED
    (default 2 submit.(s_priority)) 0 (default 3 submit.(s_max_attempts)) 0 None None 0 None None
    None None false None None None.

(** [new_unit_id()] is the argument [fresh]. *)
Definition enqueue (submit : Submit) (fresh : string) (now : timestamp) :
    op WorkQueue wq_error (string * bool) := write (λ q,
  match List.find (λ f, negb f.2) (required_fields submit) with
  | Some (name, _) => Err (MissingField name)
  | None =>
  let base_sha := default "" submit.(s_base_sha) in
  let risk_text := default "" submit.(s_risk_class) in
  let key := default "" submit.(s_idempotency_key) in
  if negb (sha40 base_sha) then Err (BadBaseSha base_sha)
  else match member risk_value ALL_RISKS risk_text with
  | None => Err (UnknownRiskClass risk_text)
  | Some risk_class =>
  match submit.(s_owned_paths) with
  | [] => Err NoOwnedPaths
  | _ =>
  match fetch (λ u, bool_decide (u.(u_idempotency_key) = key)) q.(q_units) with
  | Some existing => Ok ((existing.(u_id), true), q)
  | None =>
      let unit_id := text_or fresh submit.(s_id) in
      let u := new_unit unit_id key base_sha risk_class submit now in
      if unit_checks u && negb (existsb (unit_is unit_id) q.(q_units)) then
        Ok ((unit_id, false), q <| q_units := q.(q_units) ++ [u] |>)
      else Err IntegrityError
  end end end end).

(** ** Claim *)

Definition owner_of (machine_id worker_id : string) : string := machine_id +:+ ":" +:+ worker_id.

(** [substr(lease_owner, 1, len(prefix)) = prefix] *)
Definition owned_by_machine (machine_id : string) (u : WorkUnit) : bool :=
  match u.(u_lease_owner) with Some o => startswith (machine_id +:+ ":") o | None => false end.
Definition lease_live (now : timestamp) (u : WorkUnit) : bool :=
  match u.(u_lease_expires_at) with None => true | Some t => now <? t end.
Definition counts_in_flight (machine_id : string) (now : timestamp) (u : WorkUnit) : bool :=
  holds_lease_state u && owned_by_machine machine_id u && lease_live now u.
Definition in_flight (machine_id : string) (now : timestamp) (q : WorkQueue) : Z :=
  Z.of_nat (rowcount (counts_in_flight machine_id now) q.(q_units)).

(** [lease_expires_at IS NULL OR lease_expires_at <= now] *)
Definition lease_lapsed (now : timestamp) (u : WorkUnit) : bool :=
  match u.(u_lease_expires_at) with None => true | Some t => t <=? now end.

Definition claimable (now : timestamp) (reserved_owner : string) (u : WorkUnit) : bool :=
  negb u.(u_cancel_requested) && (u.(u_attempt) <? u.(u_max_attempts))
  && match u.(u_not_before) with None => true | Some t => t <=? now end
  && (in_state QUEUED u || holds_lease_state u && lease_lapsed now u)
  && (bool_decide (reserved_owner = "") || bool_decide (u.(u_submitted_by) = reserved_owner)).

Definition claim_key (u : WorkUnit) : Z * Z * string := (u.(u_priority), u.(u_created_at), u.(u_id)).

Definition labels_ok (declared : list string) (u : WorkUnit) : bool :=
  forallb (λ l, bool_decide (l ∈ declared)) u.(u_labels).

(** [outcome = COALESCE(outcome, 'abandoned'), finished_at = ?] *)
Definition close_row (now : timestamp) (a : Attempt) : Attempt :=
  a <| a_outcome := Some (default ABANDONED a.(a_outcome)) |> <| a_finished_at := Some now |>.
Definition close_open (now : timestamp) (unit_id : string) : list Attempt → list Attempt :=
  update_where (open_attempt_of unit_id) (close_row now).

Definition next_ordinal (unit_id : string) (t : list Attempt) : Z :=
  foldr Z.max 0 (map a_attempt (select (attempt_of unit_id) t)) + 1.

Definition new_attempt (unit_id : string) (ordinal generation : Z) (machine_id worker_id : string)
    (now : timestamp) : Attempt :=
  mkAttempt unit_id ordinal generation machine_id worker_id now None None None None None None None
    None None.

Record Claim := mkClaim {
  c_unit : option WorkUnit;
  c_lease_generation : Z;
  c_lease_expires_at : timestamp;
  c_attempt : Z;
}.

(** The machine row refuses: drained, or its capacity is in flight. *)
Definition machine_refuses (machine_id : string) (now : timestamp) (q : WorkQueue) : bool :=
  match fetch (machine_is machine_id) q.(q_machines) with
  | None => false
  | Some m => m.(m_drain) || (m.(m_max_concurrent) <=? in_flight machine_id now q)
  end.

(** [ORDER BY priority, created_at, id LIMIT 20], then the first the labels admit. *)
Definition candidates (now : timestamp) (reserved_owner : string) (q : WorkQueue) : list WorkUnit :=
  take 20 (sort_by claim_key (select (claimable now reserved_owner) q.(q_units))).

Definition claim_update (owner : string) (expires_at refund : Z) (now : timestamp) (u : WorkUnit) :
    WorkUnit :=
  u <| u_state := CLAIMED |> <| u_lease_owner := Some owner |>
    <| u_lease_expires_at := Some expires_at |>
    <| u_lease_generation := u.(u_lease_generation) + 1 |>
    <| u_attempt := Z.max (u.(u_attempt) - refund) 0 + 1 |> <| u_updated_at := now |>.

Definition claim (machine_id worker_id : string) (labels : list string)
    (reserved_for : option string) (now : timestamp) : op WorkQueue wq_error (option Claim) :=
  write (λ q,
  let reserved_owner := match reserved_for with Some r => strip r | None => "" end in
  let owner := owner_of machine_id worker_id in
  let expires_at := now + LEASE_TTL_S in
  if machine_refuses machine_id now q then Ok (None, q)
  else match List.find (labels_ok labels) (candidates now reserved_owner q) with
  | None => Ok (None, q)
  | Some chosen =>
      let unit_id := chosen.(u_id) in
      let generation := chosen.(u_lease_generation) in
      let refund := Z.max 0 (Z.of_nat (rowcount (open_attempt_of unit_id) q.(q_attempts))) in
      let attempts := close_open now unit_id q.(q_attempts) in
      let p := λ u, unit_is unit_id u && (u.(u_lease_generation) =? generation) in
      let units := update_where p (claim_update owner expires_at refund now) q.(q_units) in
      if negb (bool_decide (rowcount p q.(q_units) = 1%nat)) then Ok (None, q)
      else
        let ordinal := next_ordinal unit_id attempts in
        if existsb (λ a, attempt_of unit_id a && (a.(a_attempt) =? ordinal)) attempts
        then Ok (None, q)
        else
          let q' := q <| q_units := units |>
                      <| q_attempts := attempts ++
                           [new_attempt unit_id ordinal (generation + 1) machine_id worker_id now] |> in
          Ok (Some (mkClaim (fetch (unit_is unit_id) q'.(q_units)) (generation + 1) expires_at ordinal),
              q')
  end).

(** ** Heartbeat *)

Definition lease_is (unit_id owner : string) (lease_generation : Z) (u : WorkUnit) : bool :=
  unit_is unit_id u && bool_decide (u.(u_lease_owner) = Some owner)
  && (u.(u_lease_generation) =? lease_generation).

(** One statement in autocommit mode. *)
Definition heartbeat (unit_id owner : string) (lease_generation : Z) (now : timestamp) :
    op WorkQueue wq_error unit := λ q,
  let p := λ u, lease_is unit_id owner lease_generation u && holds_lease_state u in
  let renew := λ u, u <| u_lease_expires_at := Some (now + LEASE_TTL_S) |> <| u_updated_at := now |> in
  (if bool_decide (rowcount p q.(q_units) = 1%nat) then Ok tt else Err LeaseLost,
   q <| q_units := update_where p renew q.(q_units) |>).

(** ** Result *)

Record Alert := mkAlert {
  al_kind : string;
  al_unit_id : option string;
  al_state : option UnitState;
  al_terminal_reason : option TerminalReason;
  al_remedy : option string;
  al_input_key : option string;
  al_gate : option string;
  al_count : option Z;
  al_refusal_class : option string;
  al_alerted_at : timestamp;
}.

(** The keyword arguments of [record_result]. *)
Record Report := mkReport {
  p_exit_code : option Z;
  p_gate_exit_code : option Z;
  p_input_key : option string;
  p_retryable : option Z;
  p_remedy : option string;
  p_head_sha : option string;
  p_result_branch : option string;
  p_result_sha : option string;
  p_log_path : option string;
}.

Record Plan := mkPlan {
  n_state : UnitState;
  n_attempt : Z;
  n_instrument_retries : Z;
  n_agent_profile : string;
  n_terminal_reason : option TerminalReason;
  n_park_remedy : option string;
  n_not_before : option timestamp;
  n_finished_at : option timestamp;
  n_alertable : bool;
}.
#[export] Instance Plan_rebuild : Rebuild Plan := λ n,
  mkPlan n.(n_state) n.(n_attempt) n.(n_instrument_retries) n.(n_agent_profile)
    n.(n_terminal_reason) n.(n_park_remedy) n.(n_not_before) n.(n_finished_at) n.(n_alertable).

Section config.
(** The table [escalation] of [configs/workqueue.yaml]. *)
Context (escalation : gmap string string).

Definition maybe_escalate (unit_id profile : string) (q : WorkQueue) : string :=
  let defects := rowcount (λ a, attempt_of unit_id a && bool_decide (a.(a_outcome) = Some CANDIDATE_DEFECT))
                          q.(q_attempts) in
  if negb (bool_decide (defects = 1%nat)) then profile else default profile (escalation !! profile).

(** The closure [park] of [_plan_result]. *)
Definition park_plan (remedy : option string) (now : timestamp) (reason : option TerminalReason)
    (alertable finished : bool) (plan : Plan) : Plan :=
  plan <| n_state := PARKED |> <| n_terminal_reason := reason |> <| n_park_remedy := remedy |>
       <| n_finished_at := if finished then Some now else None |> <| n_alertable := alertable |>.

(** [INSTRUMENT_BACKOFF_S[min(proposed, len) - 1]] *)
Definition backoff (proposed : Z) : Z :=
  default 0 (INSTRUMENT_BACKOFF_S !! Z.to_nat (Z.min proposed 3 - 1)).

Definition outcome_plan (row : WorkUnit) (outcome : Outcome) (retryable : option Z)
    (remedy : option string) (now : timestamp) (q : WorkQueue) (plan : Plan) : Plan :=
  let attempt := row.(u_attempt) in
  let park := park_plan remedy now in
  match outcome with
  | PASS =>
      let sensitive := bool_decide (row.(u_risk_class) = SENSITIVE) in
      plan <| n_state := if sensitive then REVIEW else DONE |>
           <| n_terminal_reason := if sensitive then None else Some REASON_ACCEPTED |>
           <| n_finished_at := Some now |>
  | CANDIDATE_DEFECT | TIMEOUT =>
      if row.(u_max_attempts) <=? attempt then park (Some REASON_ATTEMPTS_EXHAUSTED) true true plan
      else
        let plan := plan <| n_state := QUEUED |> in
        if bool_decide (outcome = CANDIDATE_DEFECT)
        then plan <| n_agent_profile := maybe_escalate row.(u_id) row.(u_agent_profile) q |>
        else plan
  | INSTRUMENT_ERROR | ENVIRONMENT | CONTENTION_FLAKE =>
      let proposed := row.(u_instrument_retries) + 1 in
      if INSTRUMENT_RETRY_CAP <? proposed then
        park (Some REASON_TERMINAL_INSTRUMENT) true true
             (plan <| n_instrument_retries := INSTRUMENT_RETRY_CAP |>)
      else
        let plan := plan <| n_instrument_retries := proposed |> in
        if bool_decide (retryable = Some 0) then park (Some REASON_TERMINAL_INSTRUMENT) true true plan
        else plan <| n_state := QUEUED |> <| n_not_before := Some (now + backoff proposed) |>
  | UNCHANGED_RETRY => park None false false plan
  | STORM_PARKED =>
      park (Some REASON_STORM_PARKED) true true (plan <| n_attempt := Z.max 0 (attempt - 1) |>)
  | LEASE_LOST | ABANDONED => plan <| n_state := QUEUED |>
  end.

Definition plan_result (row : WorkUnit) (outcome : Outcome) (retryable : option Z)
    (remedy : option string) (now : timestamp) (q : WorkQueue) : Plan :=
  let attempt := row.(u_attempt) in
  let plan := mkPlan QUEUED attempt row.(u_instrument_retries) row.(u_agent_profile)
                None None None None false in
  let plan := if bool_decide (outcome ∈ NON_CONSUMING_OUTCOMES)
              then plan <| n_attempt := Z.max 0 (attempt - 1) |> else plan in
  let plan := outcome_plan row outcome retryable remedy now q plan in
  if bool_decide (plan.(n_state) = QUEUED) && row.(u_cancel_requested)
  then plan <| n_state := CANCELLED |> <| n_terminal_reason := Some REASON_CANCELLED |>
            <| n_finished_at := Some now |>
  else plan.

Definition storm_already_announced (input_key : option string) (q : WorkQueue) : bool :=
  match input_key with
  | None | Some EmptyString => false
  | Some k => existsb (λ r, bool_decide (r.(r_input_key) = k) && negb (bool_decide (r.(r_alerted_at) = None)))
                      q.(q_refusals)
  end.

(** The compare-and-set on [wq_units.alerted_at]; the rendered message is left out. *)
Definition claim_alert (unit_id : string) (now : timestamp) (q : WorkQueue) : option Alert * WorkQueue :=
  let p := λ u, unit_is unit_id u && bool_decide (u.(u_alerted_at) = None) in
  let q' := q <| q_units := update_where p (λ u, u <| u_alerted_at := Some now |>) q.(q_units) |> in
  if negb (bool_decide (rowcount p q.(q_units) = 1%nat)) then (None, q')
  else
    let unit := fetch (unit_is unit_id) q'.(q_units) in
    (Some (mkAlert "unit-park" (Some unit_id) (u_state <$> unit) (unit ≫= u_terminal_reason)
             (unit ≫= u_park_remedy) None None None None now), q').

Definition coalesce {A} (a b : option A) : option A := match a with Some _ => a | None => b end.

Definition result_update (plan : Plan) (report : Report) (now : timestamp) (u : WorkUnit) : WorkUnit :=
  u <| u_state := plan.(n_state) |> <| u_attempt := plan.(n_attempt) |>
    <| u_instrument_retries := plan.(n_instrument_retries) |>
    <| u_agent_profile := plan.(n_agent_profile) |>
    <| u_terminal_reason := plan.(n_terminal_reason) |> <| u_park_remedy := plan.(n_park_remedy) |>
    <| u_not_before := plan.(n_not_before) |> <| u_finished_at := plan.(n_finished_at) |>
    <| u_result_branch := coalesce report.(p_result_branch) u.(u_result_branch) |>
    <| u_result_sha := coalesce report.(p_result_sha) u.(u_result_sha) |>
    <| u_lease_owner := None |> <| u_lease_expires_at := None |> <| u_updated_at := now |>.

Definition attempt_update (outcome : Outcome) (report : Report) (now : timestamp) (a : Attempt) : Attempt :=
  a <| a_finished_at := Some now |> <| a_outcome := Some outcome |>
    <| a_exit_code := report.(p_exit_code) |> <| a_gate_exit_code := report.(p_gate_exit_code) |>
    <| a_retryable := report.(p_retryable) |> <| a_remedy := report.(p_remedy) |>
    <| a_head_sha := report.(p_head_sha) |> <| a_log_path := report.(p_log_path) |>
    <| a_input_key := coalesce report.(p_input_key) a.(a_input_key) |>.

Record ResultReply := mkReply { y_unit : option WorkUnit; y_alert : option Alert }.

Definition record_result (unit_id owner : string) (lease_generation : Z) (outcome : string)
    (report : Report) (now : timestamp) : op WorkQueue wq_error ResultReply := write (λ q,
  match member outcome_value ALL_OUTCOMES outcome with
  | None => Err (UnknownOutcome outcome)
  | Some outcome =>
  let held := lease_is unit_id owner lease_generation in
  match fetch (λ u, held u && holds_lease_state u) q.(q_units) with
  | None => Err LeaseLost
  | Some row =>
      let plan := plan_result row outcome report.(p_retryable) report.(p_remedy) now q in
      if negb (bool_decide (rowcount held q.(q_units) = 1%nat)) then Err LeaseLost
      else
        let q := q <| q_units := update_where held (result_update plan report now) q.(q_units) |>
                   <| q_attempts := update_where
                        (λ a, open_attempt_of unit_id a && (a.(a_lease_generation) =? lease_generation))
                        (attempt_update outcome report now) q.(q_attempts) |> in
        let '(alert, q) :=
          if plan.(n_alertable) && negb (storm_already_announced report.(p_input_key) q)
          then claim_alert unit_id now q else (None, q) in
        Ok (mkReply (fetch (unit_is unit_id) q.(q_units)) alert, q)
  end end).
End config.

(** ** Reaper *)

Definition expired (now : timestamp) (u : WorkUnit) : bool :=
  holds_lease_state u
  && match u.(u_lease_expires_at) with Some t => t <=? now | None => false end.

Definition reap_unit (refund : Z) (now : timestamp) (u : WorkUnit) : WorkUnit :=
  let u := u <| u_attempt := Z.max (u.(u_attempt) - refund) 0 |>
             <| u_lease_owner := None |> <| u_lease_expires_at := None |> <| u_updated_at := now |> in
  if u.(u_cancel_requested)
  then u <| u_state := CANCELLED |> <| u_terminal_reason := Some REASON_CANCELLED |>
         <| u_finished_at := Some now |>
  else u <| u_state := QUEUED |>.

Definition reap_step (now : timestamp) (q : WorkQueue) (row : WorkUnit) : WorkQueue :=
  let unit_id := row.(u_id) in
  let refund := Z.max 0 (Z.of_nat (rowcount (open_attempt_of unit_id) q.(q_attempts))) in
  q <| q_attempts := close_open now unit_id q.(q_attempts) |>
    <| q_units := update_where (unit_is unit_id) (reap_unit refund now) q.(q_units) |>.

Definition reap_expired (now : timestamp) : op WorkQueue wq_error Z := write (λ q,
  let rows := select (expired now) q.(q_units) in
  Ok (Z.of_nat (length rows), foldl (reap_step now) q rows)).

(** ** Park, requeue, unpark, cancel *)

Definition park_unit (reason : option TerminalReason) (remedy : option string) (now : timestamp)
    (u : WorkUnit) : WorkUnit :=
  u <| u_state := PARKED |> <| u_terminal_reason := reason |> <| u_park_remedy := remedy |>
    <| u_finished_at := coalesce u.(u_finished_at) (_ ← reason; Some now) |>
    <| u_lease_owner := None |> <| u_lease_expires_at := None |> <| u_updated_at := now |>.

Definition park (unit_id : string) (terminal_reason remedy : option string) (now : timestamp) :
    op WorkQueue wq_error (option Alert) := write (λ q,
  reason ← match terminal_reason with
           | None => Ok None
           | Some text => match member reason_value ALL_REASONS text with
                          | Some r => Ok (Some r) | None => Err (UnknownReason text) end
           end;
  match fetch (unit_is unit_id) q.(q_units) with
  | None => Ok (None, q)
  | Some _ =>
      let q := q <| q_units := update_where (unit_is unit_id) (park_unit reason remedy now) q.(q_units) |> in
      match reason with
      | Some _ => Ok (claim_alert unit_id now q)
      | None => Ok (None, q)
      end
  end).

Definition cancel_unit (now : timestamp) (u : WorkUnit) : WorkUnit :=
  u <| u_state := CANCELLED |> <| u_terminal_reason := Some REASON_CANCELLED |>
    <| u_finished_at := coalesce u.(u_finished_at) (Some now) |> <| u_updated_at := now |>.

Definition cancel_now (unit_id : string) (now : timestamp) (q : WorkQueue) : WorkQueue :=
  q <| q_units := update_where (unit_is unit_id)
         (λ u, cancel_unit now u <| u_lease_owner := None |> <| u_lease_expires_at := None |>)
         q.(q_units) |>.

Definition requeue_unit (now : timestamp) (u : WorkUnit) : WorkUnit :=
  u <| u_state := QUEUED |> <| u_park_remedy := None |> <| u_not_before := None |>
    <| u_finished_at := None |> <| u_lease_owner := None |> <| u_lease_expires_at := None |>
    <| u_updated_at := now |>.

Definition requeue (unit_id : string) (now : timestamp) : op WorkQueue wq_error unit := write (λ q,
  match fetch (unit_is unit_id) q.(q_units) with
  | None => Err UnknownUnit
  | Some row =>
      if negb (in_state PARKED row) then Err (NotParked row.(u_state))
      else if row.(u_cancel_requested) then Ok (tt, cancel_now unit_id now q)
      else match row.(u_terminal_reason) with
      | Some reason => Err (TerminalPark reason)
      | None => Ok (tt, q <| q_units := update_where (unit_is unit_id) (requeue_unit now) q.(q_units) |>)
      end
  end).

Definition unpark_unit (now : timestamp) (u : WorkUnit) : WorkUnit :=
  u <| u_state := QUEUED |> <| u_terminal_reason := None |> <| u_park_remedy := None |>
    <| u_not_before := None |> <| u_alerted_at := None |> <| u_finished_at := None |>
    <| u_attempt := 0 |> <| u_instrument_retries := 0 |> <| u_lease_owner := None |>
    <| u_lease_expires_at := None |> <| u_updated_at := now |>.

(** The input key of the attempt with the largest ordinal that has one. *)
Definition last_input_key (unit_id : string) (q : WorkQueue) : option string :=
  head (sort_by (λ a, - a.(a_attempt))
         (select (λ a, attempt_of unit_id a && negb (bool_decide (a.(a_input_key) = None))) q.(q_attempts)))
  ≫= a_input_key.

Definition unpark (unit_id because : string) (now : timestamp) : op WorkQueue wq_error unit := write (λ q,
  if bool_decide (strip because = "") then Err EmptyBecause
  else match fetch (unit_is unit_id) q.(q_units) with
  | None => Err UnknownUnit
  | Some row =>
      if negb (in_state PARKED row) then Err (NotParked row.(u_state))
      else if row.(u_cancel_requested) then Ok (tt, cancel_now unit_id now q)
      else
        let q := match last_input_key unit_id q with
                 | Some k => q <| q_refusals := List.filter (λ r, negb (bool_decide (r.(r_input_key) = k))) q.(q_refusals) |>
                 | None => q end in
        Ok (tt, q <| q_units := update_where (unit_is unit_id) (unpark_unit now) q.(q_units) |>)
  end).

Definition cancel (unit_id : string) (now : timestamp) : op WorkQueue wq_error unit := write (λ q,
  let q := q <| q_units := update_where (unit_is unit_id)
                 (λ u, u <| u_cancel_requested := true |> <| u_updated_at := now |>) q.(q_units) |> in
  Ok (tt, q <| q_units := update_where (λ u, unit_is unit_id u && (in_state QUEUED u || in_state PARKED u))
                (cancel_unit now) q.(q_units) |>)).

Definition get_unit (unit_id : string) (q : WorkQueue) : option WorkUnit :=
  fetch (unit_is unit_id) q.(q_units).
Definition list_attempts (unit_id : string) (q : WorkQueue) : list Attempt :=
  sort_by a_attempt (select (attempt_of unit_id) q.(q_attempts)).

(** ** Machines *)

Definition ROLE_WORKER : string := "worker".
Definition ROLE_DISPATCHER : string := "dispatcher".
Definition REFUSAL_DISPATCHER_ROLE : string := "dispatcher-role-cannot-claim".
Definition REFUSAL_NOT_ALLOWLISTED : string := "machine-not-allowlisted".
Definition WORKER_ALLOWLIST_TTL_S : Q := 30.

(** The cache of the allowlist: its entries and when they were read. *)
Record AllowlistCache := mkCache { l_entries : list string; l_read_at : option Q }.
Definition empty_cache : AllowlistCache := mkCache [] None.

(** [file] is the list of text entries of [worker_allowlist] in the file, [None]
    when the file is missing, unreadable or has no such list. *)
Definition worker_allowlist (file : option (list string)) (monotonic : Q) (c : AllowlistCache) :
    list string * AllowlistCache :=
  let stale := match c.(l_read_at) with
               | None => true
               | Some last => Qle_bool WORKER_ALLOWLIST_TTL_S (monotonic - last) end in
  let c := if stale
           then mkCache (List.filter (λ e, negb (bool_decide (strip e = ""))) (default [] file)) (Some monotonic)
           else c in
  (c.(l_entries), c).

Definition role_for (allowlist : list string) (machine_id : string) : string :=
  if bool_decide (machine_id ∈ allowlist) then ROLE_WORKER else ROLE_DISPATCHER.

Definition claim_role_refusal (allowlist : list string) (machine_id : string) (q : WorkQueue) : option string :=
  let dispatcher := match fetch (machine_is machine_id) q.(q_machines) with
                    | Some m => bool_decide (m.(m_role) = ROLE_DISPATCHER) | None => false end in
  if dispatcher then Some REFUSAL_DISPATCHER_ROLE
  else if negb (bool_decide (machine_id ∈ allowlist)) then Some REFUSAL_NOT_ALLOWLISTED
  else None.

(** The enrollment body; there is no field for the role, which the code discards. *)
Record Enrollment := mkEnrollment {
  e_machine_id : string;
  e_hostname : option string;
  e_os : option string;
  e_ssh_target : option string;
  e_labels : list string;
  e_max_concurrent : option Z;
  e_agent_version : option string;
  e_notes : option string;
  e_ncpu : option Z;
  e_perf_cores : option Z;
  e_mem_gb : option Q;
  e_ceiling_fraction : option Q;
  e_device_class : option string;
}.

Definition machine_checks (m : Machine) : bool :=
  bool_decide (m.(m_os) ∈ ["darwin"; "linux"]) && between 0 16 m.(m_max_concurrent).

Definition enrolled (allowlist : list string) (e : Enrollment) (now : timestamp) : Machine :=
  mkMachine e.(e_machine_id) (text_or e.(e_machine_id) e.(e_hostname)) (text_or "darwin" e.(e_os))
    e.(e_ssh_target) e.(e_labels) (default 1 e.(e_max_concurrent)) false now None
    e.(e_agent_version) e.(e_notes) e.(e_ncpu) e.(e_perf_cores) e.(e_mem_gb) None None None
    (match e.(e_ceiling_fraction) with Some f => if Qeq_bool f 0 then 3 # 4 else f | None => 3 # 4 end)
    None (role_for allowlist e.(e_machine_id)) e.(e_device_class).

(** [ON CONFLICT(machine_id) DO UPDATE] *)
Definition re_enroll (excluded m : Machine) : Machine :=
  m <| m_hostname := excluded.(m_hostname) |> <| m_os := excluded.(m_os) |>
    <| m_ssh_target := excluded.(m_ssh_target) |> <| m_labels := excluded.(m_labels) |>
    <| m_max_concurrent := excluded.(m_max_concurrent) |>
    <| m_agent_version := excluded.(m_agent_version) |> <| m_notes := excluded.(m_notes) |>
    <| m_ncpu := coalesce excluded.(m_ncpu) m.(m_ncpu) |>
    <| m_perf_cores := coalesce excluded.(m_perf_cores) m.(m_perf_cores) |>
    <| m_mem_gb := coalesce excluded.(m_mem_gb) m.(m_mem_gb) |>
    <| m_ceiling_fraction := excluded.(m_ceiling_fraction) |> <| m_role := excluded.(m_role) |>
    <| m_device_class := coalesce excluded.(m_device_class) m.(m_device_class) |>.

Definition enroll_machine (allowlist : list string) (e : Enrollment) (now : timestamp) :
    op WorkQueue wq_error unit := write (λ q,
  let row := enrolled allowlist e now in
  if negb (machine_checks row) then Err IntegrityError
  else
    let p := machine_is e.(e_machine_id) in
    Ok (tt, q <| q_machines := if existsb p q.(q_machines)
                               then update_where p (re_enroll row) q.(q_machines)
                               else q.(q_machines) ++ [row] |>)).

Record Beat := mkBeat {
  b_load1 : option Q;
  b_load5 : option Q;
  b_mem_free_gb : option Q;
  b_worker_id : option string;
  b_pid : option Z;
  b_current_unit_id : option string;
}.

Definition beat_machine (beat : Beat) (now : timestamp) (m : Machine) : Machine :=
  m <| m_last_seen_at := Some now |> <| m_telemetry_at := Some now |>
    <| m_last_load1 := coalesce beat.(b_load1) m.(m_last_load1) |>
    <| m_last_load5 := coalesce beat.(b_load5) m.(m_last_load5) |>
    <| m_last_mem_free_gb := coalesce beat.(b_mem_free_gb) m.(m_last_mem_free_gb) |>.

Definition beat_worker (worker_id machine_id : string) (beat : Beat) (now : timestamp)
    (t : list Worker) : list Worker :=
  let p := λ w, bool_decide (w.(w_worker_id) = worker_id) in
  if existsb p t
  then update_where p (λ w, w <| w_last_beat_at := now |> <| w_current_unit_id := beat.(b_current_unit_id) |>) t
  else t ++ [mkWorker worker_id machine_id (num_or 0 beat.(b_pid)) now now beat.(b_current_unit_id)].

(** Returns whether the machine is drained. *)
Definition machine_beat (machine_id : string) (beat : Beat) (now : timestamp) :
    op WorkQueue wq_error bool := write (λ q,
  match fetch (machine_is machine_id) q.(q_machines) with
  | None => Ok (false, q)
  | Some row =>
      let q := q <| q_machines := update_where (machine_is machine_id) (beat_machine beat now) q.(q_machines) |> in
      let q := match beat.(b_worker_id) with
               | None | Some EmptyString => q
               | Some w => q <| q_workers := beat_worker w machine_id beat now q.(q_workers) |> end in
      Ok (row.(m_drain), q)
  end).

Definition set_drain (machine_id : string) (drain : bool) : op WorkQueue wq_error unit := λ q,
  (Ok tt, q <| q_machines := update_where (machine_is machine_id) (λ m, m <| m_drain := drain |>) q.(q_machines) |>).

(** ** Refusal ledger *)

Definition NON_OVERWRITING_CLASSES : list string := ["unchanged-retry"; "storm-parked"].

Definition refusal_check (input_key gate : string) (q : WorkQueue) : option Refusal :=
  fetch (refusal_is input_key gate) q.(q_refusals).

Definition count_refusal (refusal_class : string) (retryable : Z) (remedy : string)
    (unit_id : option string) (now : timestamp) (count : Z) (existing : Refusal) (r : Refusal) : Refusal :=
  let keep := bool_decide (refusal_class ∈ NON_OVERWRITING_CLASSES) in
  r <| r_count := count |> <| r_last_seen_at := now |>
    <| r_refusal_class := if keep then existing.(r_refusal_class) else refusal_class |>
    <| r_retryable := if keep then existing.(r_retryable) else retryable |>
    <| r_remedy := if keep then existing.(r_remedy) else remedy |>
    <| r_last_unit_id := coalesce unit_id r.(r_last_unit_id) |>.

Definition refusal_record (input_key gate refusal_class : string) (retryable : Z) (remedy : string)
    (unit_id : option string) (now : timestamp) :
    op WorkQueue wq_error (option Refusal * option Alert) := write (λ q,
  let p := refusal_is input_key gate in
  let '(count, refusals) :=
    match fetch p q.(q_refusals) with
    | None => (1, q.(q_refusals) ++
                 [mkRefusal input_key gate 1 now now refusal_class retryable remedy unit_id None None])
    | Some existing =>
        let count := existing.(r_count) + 1 in
        (count, update_where p (count_refusal refusal_class retryable remedy unit_id now count existing)
                  q.(q_refusals))
    end in
  let '(alerted, refusals) :=
    if REFUSAL_STORM_CAP <=? count then
      let refusals := update_where p (λ r, r <| r_parked_at := coalesce r.(r_parked_at) (Some now) |>) refusals in
      let cas := λ r, p r && bool_decide (r.(r_alerted_at) = None) in
      (bool_decide (rowcount cas refusals = 1%nat),
       update_where cas (λ r, r <| r_alerted_at := Some now |>) refusals)
    else (false, refusals) in
  let row := fetch p refusals in
  let alert := if alerted
               then Some (mkAlert "refusal-storm" unit_id None None (r_remedy <$> row) (Some input_key)
                            (Some gate) (Some count) (r_refusal_class <$> row) now)
               else None in
  Ok ((row, alert), q <| q_refusals := refusals |>)).

Definition refusal_clear (input_key gate : string) : op WorkQueue wq_error unit := λ q,
  (Ok tt, q <| q_refusals := List.filter (λ r, negb (refusal_is input_key gate r)) q.(q_refusals) |>).

(** ** Alerts and the counters of [status] *)

Definition alerts (q : WorkQueue) : list Alert :=
  let unit_rows := sort_by (λ p : timestamp * WorkUnit, (p.1, p.2.(u_id)))
    (omap (λ u, (λ t, (t, u)) <$> u.(u_alerted_at)) q.(q_units)) in
  let refusal_rows := sort_by (λ p : timestamp * Refusal, (p.1, p.2.(r_input_key)))
    (omap (λ r, (λ t, (t, r)) <$> r.(r_alerted_at)) q.(q_refusals)) in
  let alerted_units := map (λ p, p.2.(u_id)) unit_rows in
  let from_units := map (λ p : timestamp * WorkUnit,
    mkAlert "unit-park" (Some p.2.(u_id)) (Some p.2.(u_state)) p.2.(u_terminal_reason)
      p.2.(u_park_remedy) None None None None p.1) unit_rows in
  let covered := λ r, match r.(r_last_unit_id) with
                      | Some (String _ _ as u) => bool_decide (u ∈ alerted_units) | _ => false end in
  let from_refusals := map (λ p : timestamp * Refusal,
      mkAlert "refusal-storm" p.2.(r_last_unit_id) None None (Some p.2.(r_remedy))
        (Some p.2.(r_input_key)) (Some p.2.(r_gate)) (Some p.2.(r_count))
        (Some p.2.(r_refusal_class)) p.1)
    (List.filter (λ p, negb (covered p.2)) refusal_rows) in
  sort_by al_alerted_at (from_units ++ from_refusals).

Definition depth (s : UnitState) (q : WorkQueue) : Z := Z.of_nat (rowcount (in_state s) q.(q_units)).

Definition terminal_parks (q : WorkQueue) : Z :=
  Z.of_nat (rowcount (λ u, in_state PARKED u && negb (bool_decide (u.(u_terminal_reason) = None))) q.(q_units)).

Definition alerts_sent (q : WorkQueue) : Z := Z.of_nat (length (alerts q)).

(** Two executions of one unit that overlapped in time. *)
Definition overlaps (a b : Attempt) : bool :=
  bool_decide (a.(a_unit_id) = b.(a_unit_id)) && (a.(a_attempt) <? b.(a_attempt))
  && match a.(a_finished_at) with None => true | Some t => b.(a_started_at) <? t end.
Definition double_executions (q : WorkQueue) : Z :=
  Z.of_nat (length (remove_dups (map a_unit_id
    (select (λ a, existsb (overlaps a) q.(q_attempts)) q.(q_attempts))))).

Definition lease_reclaims (cutoff : timestamp) (q : WorkQueue) : Z :=
  Z.of_nat (rowcount (λ a, bool_decide (a.(a_outcome) = Some ABANDONED)
    && match a.(a_finished_at) with Some t => cutoff <=? t | None => false end) q.(q_attempts)).

(** Queued units no undrained machine could claim. *)
Definition unclaimable (q : WorkQueue) : list (string * list string) :=
  let capable := map m_labels (select (λ m, negb m.(m_drain)) q.(q_machines)) in
  map (λ u, (u.(u_id), sort_by (λ l, l) (remove_dups u.(u_labels))))
    (select (λ u, in_state QUEUED u && negb u.(u_cancel_requested)
                  && match u.(u_labels) with [] => false | _ => true end
                  && negb (existsb (λ declared, labels_ok declared u) capable)) q.(q_units)).

(** ** The claim route of [omniagentos/workqueue/server.py] *)

Inductive claim_reply := Forbidden (reason : string) | NoContent | Claimed (c : Claim).

Definition claim_route (enforced : bool) (allowlist : list string) (machine_id worker_id : string)
    (labels : list string) (reserved_for : option string) (now : timestamp) :
    op WorkQueue wq_error claim_reply := λ q,
  match claim_role_refusal allowlist machine_id q, enforced with
  | Some reason, true => (Ok (Forbidden reason), q)
  | _, _ =>
      let '(r, q) := claim machine_id worker_id labels reserved_for now q in
      ((c ← r; Ok (match c with None => NoContent | Some c => Claimed c end)), q)
  end.
