(* ===== verification/WorkQueueInv.v ===== *)
(** * WorkQueueInv: traces of the work queue and the invariant of every reachable state

    A trace is a list of timed calls.  The invariant ties each unit to its attempts:
    the execution ordinals are the lease generations 1, 2, .., at most the newest
    attempt is open, and the lease columns agree with the state. *)

From Stdlib Require Import Ascii QArith.
From S2P Require Import Prelude PyString Records WorkQueueSchema WorkQueue.
Open Scope Z_scope.

Inductive call :=
  | CallEnqueue (submit : Submit) (fresh : string)
  | CallClaim (machine_id worker_id : string) (labels : list string) (reserved_for : option string)
  | CallHeartbeat (unit_id owner : string) (generation : Z)
  | CallResult (unit_id owner : string) (generation : Z) (outcome : string) (report : Report)
  | CallReap
  | CallPark (unit_id : string) (reason remedy : option string)
  | CallRequeue (unit_id : string)
  | CallUnpark (unit_id because : string)
  | CallCancel (unit_id : string)
  | CallEnroll (allowlist : list string) (e : Enrollment)
  | CallBeat (machine_id : string) (beat : Beat)
  | CallDrain (machine_id : string) (drain : bool)
  | CallRefuse (input_key gate refusal_class : string) (retryable : Z) (remedy : string) (unit_id : option string)
  | CallClear (input_key gate : string).

Section traces.
Context (escalation : gmap string string).

(** The unit alert a call hands to its caller, and the next state. *)
Definition exec (now : timestamp) (c : call) (q : WorkQueue) : option Alert * WorkQueue :=
  match c with
  | CallEnqueue s fresh => (None, (enqueue s fresh now q).2)
  | CallClaim m w l r => (None, (claim m w l r now q).2)
  | CallHeartbeat u o g => (None, (heartbeat u o g now q).2)
  | CallResult u o g out rep =>
      let '(r, q) := record_result escalation u o g out rep now q in
      (match r with Ok y => y.(y_alert) | Err _ => None end, q)
  | CallReap => (None, (reap_expired now q).2)
  | CallPark u reason remedy =>
      let '(r, q) := park u reason remedy now q in
      (match r with Ok a => a | Err _ => None end, q)
  | CallRequeue u => (None, (requeue u now q).2)
  | CallUnpark u b => (None, (unpark u b now q).2)
  | CallCancel u => (None, (cancel u now q).2)
  | CallEnroll al e => (None, (enroll_machine al e now q).2)
  | CallBeat m b => (None, (machine_beat m b now q).2)
  | CallDrain m d => (None, (set_drain m d q).2)
  | CallRefuse k g cl rt rem u => (None, (refusal_record k g cl rt rem u now q).2)
  | CallClear k g => (None, (refusal_clear k g q).2)
  end.

Fixpoint run (tr : list (timestamp * call)) (q : WorkQueue) : list Alert * WorkQueue :=
  match tr with
  | [] => ([], q)
  | (now, c) :: tr =>
      let '(a, q) := exec now c q in
      let '(l, q) := run tr q in
      (option_list a ++ l, q)
  end.

Definition final (tr : list (timestamp * call)) (q : WorkQueue) : WorkQueue := (run tr q).2.
Definition alerted (tr : list (timestamp * call)) (q : WorkQueue) : list Alert := (run tr q).1.

Lemma final_cons now c tr q : final ((now, c) :: tr) q = final tr (exec now c q).2.
Proof. unfold final. simpl. destruct (exec now c q) as [? q']. simpl. by destruct (run tr q'). Qed.
Lemma alerted_cons now c tr q :
  alerted ((now, c) :: tr) q = option_list (exec now c q).1 ++ alerted tr (exec now c q).2.
Proof. unfold alerted. simpl. destruct (exec now c q) as [? q']. simpl. by destruct (run tr q'). Qed.
End traces.

(** ** The invariant *)

Definition is_open (a : Attempt) : bool := bool_decide (a.(a_finished_at) = None).
Definition mine (unit_id : string) (t : list Attempt) : list Attempt := select (attempt_of unit_id) t.

Record unit_ok (l : list Attempt) (u : WorkUnit) : Prop := {
  ok_checks : unit_checks u = true;
  ok_budget : u.(u_attempt) ≤ u.(u_max_attempts);
  ok_retries : u.(u_instrument_retries) ≤ INSTRUMENT_RETRY_CAP;
  ok_queued : u.(u_state) = QUEUED → u.(u_cancel_requested) = false;
  ok_ordinals : map a_attempt l = seqZ 1 u.(u_lease_generation);
  ok_generations : map a_lease_generation l = seqZ 1 u.(u_lease_generation);
  ok_open : ∀ a, a ∈ l → is_open a = true →
    a.(a_lease_generation) = u.(u_lease_generation) ∧ a.(a_outcome) = None;
  ok_closed : ∀ a, a ∈ l → is_open a = false → a.(a_outcome) ≠ None;
  ok_held : holds_lease_state u = true →
    is_Some u.(u_lease_owner) ∧ is_Some u.(u_lease_expires_at) ∧ ∃ a, a ∈ l ∧ is_open a = true;
  ok_free : holds_lease_state u = false → u.(u_lease_owner) = None ∧ u.(u_lease_expires_at) = None;
}.

Record queue_ok (q : WorkQueue) : Prop := {
  units_keyed : NoDup (map u_id q.(q_units));
  keys_unique : NoDup (map u_idempotency_key q.(q_units));
  units_ok : ∀ u, u ∈ q.(q_units) → unit_ok (mine u.(u_id) q.(q_attempts)) u;
  attempts_owned : ∀ a, a ∈ q.(q_attempts) → a.(a_unit_id) ∈ map u_id q.(q_units);
}.

(** ** Rows *)

Lemma unit_is_spec i u : unit_is i u = true ↔ u.(u_id) = i.
Proof. apply bool_decide_eq_true. Qed.
Lemma attempt_of_spec i a : attempt_of i a = true ↔ a.(a_unit_id) = i.
Proof. apply bool_decide_eq_true. Qed.
Lemma open_attempt_of_spec i a : open_attempt_of i a = attempt_of i a && is_open a.
Proof. done. Qed.

Lemma fetch_unique q u :
  queue_ok q → u ∈ q.(q_units) → select (unit_is u.(u_id)) q.(q_units) = [u].
Proof.
  intros Hq Hu. apply (select_unique u_id); [apply Hq|done|by apply unit_is_spec|].
  intros y _ ?%unit_is_spec. done.
Qed.

Lemma get_unit_elem q u : queue_ok q → u ∈ q.(q_units) → get_unit u.(u_id) q = Some u.
Proof. intros Hq Hu. unfold get_unit, fetch. by rewrite fetch_unique. Qed.

Lemma get_unit_Some q i u : get_unit i q = Some u → u ∈ q.(q_units) ∧ u.(u_id) = i.
Proof.
  unfold get_unit, fetch. intros Hu. apply head_Some_elem_of, elem_of_select in Hu as [? ?%unit_is_spec].
  done.
Qed.

Lemma same_unit q u v :
  queue_ok q → u ∈ q.(q_units) → v ∈ q.(q_units) → u.(u_id) = v.(u_id) → u = v.
Proof. intros Hq. apply (NoDup_map_inj u_id), Hq. Qed.

Lemma elem_of_mine i a t : a ∈ mine i t ↔ a ∈ t ∧ a.(a_unit_id) = i.
Proof. unfold mine. by rewrite elem_of_select, attempt_of_spec. Qed.

(** A statement on the attempts of one unit leaves those of the others alone. *)
Lemma mine_update_other i j p f t :
  i ≠ j → (∀ a, p a = true → attempt_of i a = true) → (∀ a, a_unit_id (f a) = a_unit_id a) →
  mine j (update_where p f t) = mine j t.
Proof.
  intros Hij Hp Hf. unfold mine. rewrite select_update_where.
  - apply update_where_id. intros a [_ Ha%attempt_of_spec]%elem_of_select Hpa.
    apply Hp, attempt_of_spec in Hpa. congruence.
  - intros a _. unfold attempt_of. by rewrite Hf.
Qed.

Lemma mine_update_same i p f t :
  (∀ a, a_unit_id (f a) = a_unit_id a) →
  mine i (update_where p f t) = update_where p f (mine i t).
Proof.
  intros Hf. unfold mine. apply select_update_where. intros a _. unfold attempt_of. by rewrite Hf.
Qed.

(** The shape of every statement on units: rows of one id, id and key kept. *)
Lemma queue_ok_local q p f i t' ms ws rs :
  queue_ok q →
  (∀ u, u ∈ q.(q_units) → p u = true →
     u.(u_id) = i ∧ u_id (f u) = u_id u ∧ u_idempotency_key (f u) = u_idempotency_key u) →
  (∀ j, j ≠ i → mine j t' = mine j q.(q_attempts)) →
  (∀ a, a ∈ t' → a.(a_unit_id) ∈ map u_id q.(q_units)) →
  (∀ u, u ∈ q.(q_units) → u.(u_id) = i → unit_ok (mine i t') (if p u then f u else u)) →
  queue_ok (mkQueue (update_where p f q.(q_units)) t' ms ws rs).
Proof.
  intros [Hid Hkey Hok Hown] Hp Hother Hown' Hi. split; simpl.
  - rewrite update_where_map; [done|]. intros u Hu Hpu. by apply Hp.
  - rewrite update_where_map; [done|]. intros u Hu Hpu. by apply Hp.
  - intros v (u & Hu & ->)%elem_of_update_where.
    assert (u_id (if p u then f u else u) = u_id u) as ->.
    { destruct (p u) eqn:E; [by apply Hp|done]. }
    destruct (decide (u.(u_id) = i)) as [<-|Hne]; [by apply Hi|].
    rewrite Hother by done. destruct (p u) eqn:E; [by apply Hp in E as (? & _)|]. by apply Hok.
  - rewrite update_where_map; [done|]. intros u Hu Hpu. by apply Hp.
Qed.

Lemma queue_ok_units q p f i ms ws rs :
  queue_ok q →
  (∀ u, u ∈ q.(q_units) → p u = true →
     u.(u_id) = i ∧ u_id (f u) = u_id u ∧ u_idempotency_key (f u) = u_idempotency_key u) →
  (∀ u, u ∈ q.(q_units) → p u = true → unit_ok (mine i q.(q_attempts)) u →
        unit_ok (mine i q.(q_attempts)) (f u)) →
  queue_ok (mkQueue (update_where p f q.(q_units)) q.(q_attempts) ms ws rs).
Proof.
  intros Hq Hp Hf. apply (queue_ok_local q p f i); auto; try apply Hq.
  intros u Hu <-. pose proof (units_ok q Hq u Hu). destruct (p u) eqn:E; auto.
Qed.

(** Statements that touch neither units nor attempts. *)
Lemma queue_ok_rest q ms ws rs :
  queue_ok q → queue_ok (mkQueue q.(q_units) q.(q_attempts) ms ws rs).
Proof. intros []. by split. Qed.

(** ** Ordinals and open attempts *)

Lemma foldr_max_eq (l : list Z) g :
  0 ≤ g → (∀ x, x ∈ l → x ≤ g) → g = 0 ∨ g ∈ l → foldr Z.max 0 l = g.
Proof.
  intros Hg Hl Hin. apply Z.le_antisymm.
  - clear Hin. induction l as [|x l IH]; simpl; [done|].
    pose proof (Hl x ltac:(set_solver)). specialize (IH ltac:(set_solver)). lia.
  - destruct Hin as [->|Hin].
    + clear Hl. induction l as [|x l IH]; simpl; lia.
    + clear Hl. induction l as [|x l IH]; [set_solver|]. simpl.
      apply elem_of_cons in Hin as [->|Hin]; [lia|]. specialize (IH Hin). lia.
Qed.

Lemma ordinals_next i t g :
  0 ≤ g → map a_attempt (mine i t) = seqZ 1 g → next_ordinal i t = g + 1.
Proof.
  intros Hg Hl. unfold next_ordinal. fold (mine i t). rewrite Hl. f_equal.
  apply foldr_max_eq; [done| |].
  - intros x Hx%elem_of_seqZ. lia.
  - destruct (decide (g = 0)); [by left|right]. apply elem_of_seqZ. lia.
Qed.

Lemma unit_ok_generation l u : unit_ok l u → 0 ≤ u.(u_lease_generation).
Proof. intros [H _ _ _ _ _ _ _ _ _]. unfold unit_checks in H. bool_prop. done. Qed.
#[export] Hint Resolve unit_ok_generation : omni.

Lemma attempt_gen_bounds l u a :
  unit_ok l u → a ∈ l → 1 ≤ a.(a_lease_generation) ≤ u.(u_lease_generation) ∧ a.(a_attempt) = a.(a_lease_generation).
Proof.
  intros Hok Ha. apply list_elem_of_lookup in Ha as [k Hk].
  pose proof (f_equal (lookup k) (ok_ordinals l u Hok)) as Ho.
  pose proof (f_equal (lookup k) (ok_generations l u Hok)) as Hg.
  rewrite !list_lookup_fmap, Hk in Ho, Hg. simpl in *. symmetry in Ho, Hg.
  apply lookup_seqZ in Ho as [Ho ?]. apply lookup_seqZ in Hg as [Hg ?]. lia.
Qed.

Lemma NoDup_generations l u : unit_ok l u → NoDup (map a_lease_generation l).
Proof. intros Hok. rewrite (ok_generations l u Hok). apply NoDup_seqZ. Qed.

(** The newest attempt is the only one that can be open. *)
Lemma open_unique l u a b :
  unit_ok l u → a ∈ l → b ∈ l → is_open a = true → is_open b = true → a = b.
Proof.
  intros Hok Ha Hb Hoa Hob. apply (NoDup_map_inj a_lease_generation l); auto.
  - by eapply NoDup_generations.
  - destruct (ok_open l u Hok a Ha Hoa), (ok_open l u Hok b Hb Hob). congruence.
Qed.

Lemma open_count_le l u : unit_ok l u → (rowcount is_open l ≤ 1)%nat.
Proof.
  intros Hok. unfold rowcount. destruct (select is_open l) as [|a [|b k]] eqn:E; simpl; try lia.
  assert (NoDup (map a_lease_generation (select is_open l))) as Hnd.
  { by eapply NoDup_map_select, NoDup_generations. }
  rewrite E in Hnd. simpl in Hnd. apply NoDup_cons in Hnd as [Hnd _]. exfalso. apply Hnd.
  assert (a ∈ select is_open l) as [Ha ?]%elem_of_select by (rewrite E; set_solver).
  assert (b ∈ select is_open l) as [Hb ?]%elem_of_select by (rewrite E; set_solver).
  rewrite (open_unique l u a b); auto. set_solver.
Qed.

Lemma rowcount_open i t : rowcount (open_attempt_of i) t = rowcount is_open (mine i t).
Proof.
  unfold rowcount, mine, select. f_equal. induction t as [|a t IH]; [done|]. simpl.
  rewrite open_attempt_of_spec. destruct (attempt_of i a); simpl; [|done].
  destruct (is_open a); simpl; by rewrite IH.
Qed.

Lemma close_open_mine now i t :
  mine i (close_open now i t) = update_where is_open (close_row now) (mine i t).
Proof.
  unfold close_open. rewrite mine_update_same by done. apply update_where_ext; [|done].
  intros a [_ Ha%attempt_of_spec]%elem_of_mine. by rewrite open_attempt_of_spec, Ha.
Qed.

Lemma close_open_other now i j t : i ≠ j → mine j (close_open now i t) = mine j t.
Proof.
  intros. apply (mine_update_other i); auto. intros a. rewrite open_attempt_of_spec.
  by intros [? _]%andb_true_iff.
Qed.

(** After closing, the ordinals and generations stand and nothing is open. *)
Lemma closed_maps {B} (g : Attempt → B) now l :
  (∀ a, g (close_row now a) = g a) → map g (update_where is_open (close_row now) l) = map g l.
Proof. intros Hg. apply update_where_map. auto. Qed.

Lemma closed_elem now l a :
  a ∈ update_where is_open (close_row now) l →
  is_open a = false ∧ (a ∈ l ∨ ∃ b, b ∈ l ∧ is_open b = true ∧ a = close_row now b).
Proof.
  intros (b & Hb & ->)%elem_of_update_where. destruct (is_open b) eqn:E; [|by auto].
  split; [done|]. right. eauto.
Qed.

Lemma mine_app_new i t a : mine i (t ++ [a]) = mine i t ++ (if attempt_of i a then [a] else []).
Proof. unfold mine. by rewrite select_app. Qed.

(** ** Claim *)

Definition claim_result (machine_id worker_id : string) (now : timestamp) (u : WorkUnit)
    (q : WorkQueue) : WorkUnit :=
  claim_update (owner_of machine_id worker_id) (now + LEASE_TTL_S)
    (Z.of_nat (rowcount is_open (mine u.(u_id) q.(q_attempts)))) now u.

Definition claim_state (machine_id worker_id : string) (now : timestamp) (u : WorkUnit)
    (q : WorkQueue) : WorkQueue :=
  q <| q_units := update_where (unit_is u.(u_id)) (λ _, claim_result machine_id worker_id now u q) q.(q_units) |>
    <| q_attempts := close_open now u.(u_id) q.(q_attempts) ++
         [new_attempt u.(u_id) (u.(u_lease_generation) + 1) (u.(u_lease_generation) + 1)
            machine_id worker_id now] |>.

Definition claim_choice (machine_id : string) (labels : list string) (reserved_for : option string)
    (now : timestamp) (q : WorkQueue) : option WorkUnit :=
  if machine_refuses machine_id now q then None
  else List.find (labels_ok labels)
         (candidates now (match reserved_for with Some r => strip r | None => "" end) q).

Lemma choice_claimable m l r now q u :
  claim_choice m l r now q = Some u →
  u ∈ q.(q_units) ∧ claimable now (match r with Some r => strip r | None => "" end) u = true
  ∧ labels_ok l u = true ∧ machine_refuses m now q = false.
Proof.
  unfold claim_choice. destruct (machine_refuses m now q) eqn:E; [done|].
  intros (l1 & l2 & Hl & Hlab & _)%find_spec.
  assert (u ∈ candidates now (match r with Some r => strip r | None => "" end) q) as Hu.
  { rewrite Hl. set_solver. }
  unfold candidates in Hu. apply elem_of_take in Hu as (k & Hk & _).
  apply list_elem_of_lookup_2 in Hk. apply elem_of_sort_by, elem_of_select in Hk as [??]. done.
Qed.

(** On a well-formed queue the claim's two rollbacks never fire. *)
Lemma claim_eq m w l r now q :
  queue_ok q →
  claim m w l r now q =
  match claim_choice m l r now q with
  | None => (Ok None, q)
  | Some u => (Ok (Some (mkClaim (Some (claim_result m w now u q)) (u.(u_lease_generation) + 1)
                           (now + LEASE_TTL_S) (u.(u_lease_generation) + 1))),
               claim_state m w now u q)
  end.
Proof.
  intros Hq. pose proof (choice_claimable m l r now q) as Hchoice.
  unfold claim, write, claim_choice in *. destruct (machine_refuses m now q); [done|].
  destruct (List.find _ _) as [u|]; [|done]. destruct (Hchoice u eq_refl) as (Hu & _ & _ & _). clear Hchoice.
  pose proof (units_ok q Hq u Hu) as Hok.
  set (p := λ v, unit_is u.(u_id) v && (v.(u_lease_generation) =? u.(u_lease_generation))).
  assert (Hp : ∀ v, v ∈ q.(q_units) → p v = unit_is u.(u_id) v).
  { intros v Hv. unfold p. destruct (unit_is u.(u_id) v) eqn:E; [|done].
    apply unit_is_spec in E. rewrite (same_unit q v u) by auto. apply Z.eqb_refl. }
  assert (Hsel : select p q.(q_units) = [u]).
  { rewrite <-(fetch_unique q u) by done. unfold select. by apply List.filter_ext_in; intros v ?%list_elem_of_In; apply Hp. }
  assert (Hone : rowcount p q.(q_units) = 1%nat) by (unfold rowcount; by rewrite Hsel).
  rewrite (bool_decide_eq_true_2 _ Hone). cbv [negb].
  rewrite rowcount_open, Z.max_r by lia.
  rewrite (ordinals_next _ _ u.(u_lease_generation)); [|by eapply unit_ok_generation|].
  2: { rewrite close_open_mine, closed_maps by done. by apply ok_ordinals. }
  assert (Hfresh : existsb (λ a, attempt_of u.(u_id) a && (a.(a_attempt) =? u.(u_lease_generation) + 1))
            (close_open now u.(u_id) q.(q_attempts)) = false).
  { apply not_true_iff_false. intros (a & Ha & Hb)%existsb_exists. bool_prop.
    assert (a ∈ mine u.(u_id) (close_open now u.(u_id) q.(q_attempts))) as Hm.
    { apply elem_of_select. split; [by apply list_elem_of_In|done]. }
    assert (a.(a_attempt) ∈ seqZ 1 u.(u_lease_generation)) as Hs%elem_of_seqZ.
    { rewrite <-(ok_ordinals _ _ Hok), <-(closed_maps a_attempt now), <-close_open_mine by done.
      by apply list_elem_of_fmap_2. }
    lia. }
  rewrite Hfresh. cbv iota.
  assert (Hupd : update_where p (claim_update (owner_of m w) (now + LEASE_TTL_S)
             (Z.of_nat (rowcount is_open (mine u.(u_id) q.(q_attempts)))) now) q.(q_units)
           = update_where (unit_is u.(u_id)) (λ _, claim_result m w now u q) q.(q_units)).
  { apply update_where_ext; [done|]. intros v Hv Hpv. unfold claim_result. f_equal.
    rewrite Hp in Hpv by done. apply unit_is_spec in Hpv. by apply (same_unit q). }
  rewrite Hupd. unfold claim_state. do 4 f_equal.
  unfold fetch. simpl. rewrite select_update_where.
  - rewrite fetch_unique by done. unfold update_where. simpl.
    by rewrite (proj2 (unit_is_spec _ _) eq_refl).
  - intros v Hv. rewrite Hv. by apply unit_is_spec.
Qed.

Lemma unit_is_self u : unit_is u.(u_id) u = true.
Proof. by apply unit_is_spec. Qed.

Lemma claimable_spec now r u :
  claimable now r u = true →
  u.(u_cancel_requested) = false ∧ u.(u_attempt) < u.(u_max_attempts)
  ∧ (u.(u_state) = QUEUED ∨ holds_lease_state u = true ∧ lease_lapsed now u = true).
Proof.
  unfold claimable. intros [[[[Hc Hb]%andb_true_iff _]%andb_true_iff Hs]%andb_true_iff _]%andb_true_iff.
  bool_prop. split_and!; [done..|]. apply orb_true_iff in Hs as [Hs|Hs].
  - left. by apply bool_decide_eq_true in Hs.
  - right. by apply andb_true_iff.
Qed.

Lemma closed_ok_closed now l u a :
  unit_ok l u → a ∈ update_where is_open (close_row now) l → is_open a = false ∧ a.(a_outcome) ≠ None.
Proof.
  intros Hok [? [Ha|(b & Hb & Ho & ->)]]%closed_elem; split; auto. by eapply ok_closed.
Qed.

Lemma claim_unit_ok m w now u q l :
  unit_ok l u → l = mine u.(u_id) q.(q_attempts) → u.(u_attempt) < u.(u_max_attempts) →
  u.(u_cancel_requested) = false →
  unit_ok (update_where is_open (close_row now) l ++
             [new_attempt u.(u_id) (u.(u_lease_generation) + 1) (u.(u_lease_generation) + 1) m w now])
          (claim_result m w now u q).
Proof.
  intros Hok -> Hbud Hc. pose proof (unit_ok_generation _ _ Hok) as Hg.
  pose proof (ok_checks _ _ Hok) as Hch. unfold unit_checks in Hch.
  split; simpl; try done.
  - unfold unit_checks, claim_result, claim_update. simpl. bool_prop.
    repeat match goal with H : ?b = true |- _ => rewrite H; clear H end. simpl.
    rewrite !(proj2 (Z.leb_le _ _)) by lia. done.
  - lia.
  - apply Hok.
  - rewrite map_app, closed_maps by done. simpl. rewrite (ok_ordinals _ _ Hok), seqZ_snoc; done.
  - rewrite map_app, closed_maps by done. simpl. rewrite (ok_generations _ _ Hok), seqZ_snoc; done.
  - intros a [Ha|Ha]%elem_of_app Ho.
    + apply closed_elem in Ha as [Ha _]. congruence.
    + apply list_elem_of_singleton in Ha as ->. done.
  - intros a [Ha|Ha]%elem_of_app Ho.
    + by eapply closed_ok_closed.
    + apply list_elem_of_singleton in Ha as ->. done.
  - intros _. split_and!; [done..|]. eexists. split; [apply elem_of_app; right; by apply list_elem_of_singleton|done].
Qed.

Lemma claim_state_ok m w now u q :
  queue_ok q → u ∈ q.(q_units) → u.(u_attempt) < u.(u_max_attempts) →
  u.(u_cancel_requested) = false → queue_ok (claim_state m w now u q).
Proof.
  intros Hq Hu Hbud Hc. apply (queue_ok_local q (unit_is u.(u_id)) _ u.(u_id)).
  - done.
  - intros v Hv Hvu%unit_is_spec. rewrite (same_unit q v u) by auto. done.
  - intros j Hj. rewrite mine_app_new. unfold attempt_of. simpl.
    rewrite bool_decide_eq_false_2 by done. rewrite app_nil_r. apply close_open_other. congruence.
  - intros a [Ha|Ha]%elem_of_app.
    + apply elem_of_update_where in Ha as (b & Hb & ->).
      destruct (open_attempt_of _ b); exact (attempts_owned q Hq b Hb).
    + apply list_elem_of_singleton in Ha as ->. by apply (list_elem_of_fmap_2 u_id).
  - intros v Hv Hvu. assert (v = u) as -> by by apply (same_unit q). rewrite unit_is_self.
    rewrite mine_app_new. unfold attempt_of. simpl. rewrite bool_decide_eq_true_2 by done.
    rewrite close_open_mine. apply claim_unit_ok; auto. by apply units_ok.
Qed.

Lemma claim_ok m w l r now q : queue_ok q → queue_ok (claim m w l r now q).2.
Proof.
  intros Hq. rewrite claim_eq by done. destruct (claim_choice m l r now q) as [u|] eqn:E; [|done].
  apply choice_claimable in E as (Hu & (? & ? & _)%claimable_spec & _). by apply claim_state_ok.
Qed.

(** ** Results *)

Section results.
Context (escalation : gmap string string).

Lemma select_by_id t u :
  NoDup (map u_id t) → u ∈ t → select (unit_is u.(u_id)) t = [u].
Proof.
  intros Hnd Hu. apply (select_unique u_id); [done..|apply unit_is_self|].
  intros y _ ?%unit_is_spec. done.
Qed.

(** A condition that only the row [u] satisfies. *)
Lemma only_row t p f u :
  NoDup (map u_id t) → u ∈ t → p u = true → (∀ v, p v = true → u_id v = u_id u) →
  rowcount p t = 1%nat ∧ update_where p f t = update_where (unit_is u.(u_id)) (λ _, f u) t.
Proof.
  intros Hnd Hu Hpu Hp. split.
  - unfold rowcount. by rewrite (select_unique u_id _ _ u) by auto.
  - assert (∀ v, v ∈ t → unit_is u.(u_id) v = true → v = u) as Hsame.
    { intros v Hv ?%unit_is_spec. by apply (NoDup_map_inj u_id t). }
    apply update_where_ext.
    + intros v Hv. destruct (unit_is u.(u_id) v) eqn:E.
      * by rewrite (Hsame v Hv E).
      * apply not_true_iff_false. intros Hpv%Hp. apply unit_is_spec in Hpv. congruence.
    + intros v Hv Hpv. f_equal. apply (NoDup_map_inj u_id t); auto.
Qed.

Lemma fetch_updated t u v :
  NoDup (map u_id t) → u ∈ t → v.(u_id) = u.(u_id) →
  fetch (unit_is u.(u_id)) (update_where (unit_is u.(u_id)) (λ _, v) t) = Some v.
Proof.
  intros Hnd Hu Hv. unfold fetch. rewrite select_update_where.
  - rewrite select_by_id by done. unfold update_where. simpl. by rewrite unit_is_self.
  - intros w Hw. rewrite Hw. by apply unit_is_spec.
Qed.

Lemma update_twice t i v w :
  v.(u_id) = i → update_where (unit_is i) (λ _, w) (update_where (unit_is i) (λ _, v) t)
               = update_where (unit_is i) (λ _, w) t.
Proof.
  intros Hv. unfold update_where. rewrite map_map. apply map_ext. intros u.
  destruct (unit_is i u) eqn:E; [|by rewrite E]. by rewrite (proj2 (unit_is_spec _ _) Hv).
Qed.

Definition park_alert (now : timestamp) (u : WorkUnit) : Alert :=
  mkAlert "unit-park" (Some u.(u_id)) (Some u.(u_state)) u.(u_terminal_reason) u.(u_park_remedy)
    None None None None now.
Definition alert_unit (now : timestamp) (u : WorkUnit) : WorkUnit := u <| u_alerted_at := Some now |>.

Lemma claim_alert_eq now q u :
  NoDup (map u_id q.(q_units)) → u ∈ q.(q_units) →
  claim_alert u.(u_id) now q =
  if bool_decide (u.(u_alerted_at) = None)
  then (Some (park_alert now u),
        q <| q_units := update_where (unit_is u.(u_id)) (λ _, alert_unit now u) q.(q_units) |>)
  else (None, q).
Proof.
  intros Hnd Hu. unfold claim_alert.
  set (p := λ v, unit_is u.(u_id) v && bool_decide (v.(u_alerted_at) = None)).
  assert (Hp : ∀ v, p v = true → v.(u_id) = u.(u_id)) by (intros v [? _]%andb_true_iff; by apply unit_is_spec).
  destruct (decide (u.(u_alerted_at) = None)) as [Ha|Ha].
  - rewrite (bool_decide_eq_true_2 (u.(u_alerted_at) = None)) by done.
    assert (p u = true) as Hpu by (apply andb_true_iff; split; [apply unit_is_self|by apply bool_decide_eq_true_2]).
    destruct (only_row _ p (alert_unit now) u Hnd Hu Hpu Hp) as [Hone Hupd].
    rewrite (bool_decide_eq_true_2 _ Hone). cbv [negb].
    change (λ u0, u0 <| u_alerted_at := Some now |>) with (alert_unit now). rewrite Hupd.
    cbn [q_units modify]. simpl q_units. rewrite fetch_updated by done. done.
  - rewrite (bool_decide_eq_false_2 (u.(u_alerted_at) = None)) by done.
    assert (∀ v, v ∈ q.(q_units) → p v = false) as Hnone.
    { intros v Hv. apply not_true_iff_false. intros Hpv. pose proof (Hp v Hpv).
      assert (v = u) as -> by by apply (NoDup_map_inj u_id q.(q_units)).
      apply andb_true_iff in Hpv as [_ ?%bool_decide_eq_true]. done. }
    assert (rowcount p q.(q_units) = 0%nat) as H0 by (unfold rowcount; by rewrite select_none).
    rewrite H0. simpl. rewrite update_where_id; [by destruct q|].
    intros v Hv Hpv. rewrite Hnone in Hpv; done.
Qed.

Definition held_unit (unit_id owner : string) (g : Z) (q : WorkQueue) : option WorkUnit :=
  fetch (λ u, lease_is unit_id owner g u && holds_lease_state u) q.(q_units).

Lemma held_unit_Some i o g q u :
  held_unit i o g q = Some u →
  u ∈ q.(q_units) ∧ u.(u_id) = i ∧ u.(u_lease_owner) = Some o ∧ u.(u_lease_generation) = g
  ∧ holds_lease_state u = true.
Proof.
  unfold held_unit, fetch. intros Hu. apply head_Some_elem_of, elem_of_select in Hu as [Hu Hp].
  unfold lease_is in Hp. bool_prop. split_and!; try done; [by apply unit_is_spec|by apply Z.eqb_eq].
Qed.

Lemma held_unit_intro q u o :
  NoDup (map u_id q.(q_units)) → u ∈ q.(q_units) → u.(u_lease_owner) = Some o →
  holds_lease_state u = true → held_unit u.(u_id) o u.(u_lease_generation) q = Some u.
Proof.
  intros Hnd Hu Ho Hh. unfold held_unit, fetch.
  rewrite (select_unique u_id _ _ u); [done..| |].
  - unfold lease_is. by rewrite unit_is_self, bool_decide_eq_true_2, Z.eqb_refl, Hh.
  - intros v _ Hv. unfold lease_is in Hv. bool_prop. by apply unit_is_spec.
Qed.

(** What a result leaves in the unit's row, and whether it wins the alert. *)
Definition result_wins_alert (plan : Plan) (report : Report) (u : WorkUnit) (q : WorkQueue) : bool :=
  plan.(n_alertable) && negb (storm_already_announced report.(p_input_key) q)
  && bool_decide (u.(u_alerted_at) = None).
Definition result_unit (plan : Plan) (report : Report) (now : timestamp) (u : WorkUnit) (q : WorkQueue) :
    WorkUnit :=
  let v := result_update plan report now u in
  if result_wins_alert plan report u q then alert_unit now v else v.
Definition result_state (o : Outcome) (report : Report) (now : timestamp) (u : WorkUnit) (q : WorkQueue) :
    WorkQueue :=
  let plan := plan_result escalation u o report.(p_retryable) report.(p_remedy) now q in
  q <| q_units := update_where (unit_is u.(u_id)) (λ _, result_unit plan report now u q) q.(q_units) |>
    <| q_attempts := update_where
         (λ a, open_attempt_of u.(u_id) a && (a.(a_lease_generation) =? u.(u_lease_generation)))
         (attempt_update o report now) q.(q_attempts) |>.
Definition result_alert (o : Outcome) (report : Report) (now : timestamp) (u : WorkUnit) (q : WorkQueue) :
    option Alert :=
  let plan := plan_result escalation u o report.(p_retryable) report.(p_remedy) now q in
  if result_wins_alert plan report u q
  then Some (park_alert now (result_update plan report now u)) else None.

Lemma record_result_eq i o g text report now q :
  NoDup (map u_id q.(q_units)) →
  record_result escalation i o g text report now q =
  match member outcome_value ALL_OUTCOMES text with
  | None => (Err (UnknownOutcome text), q)
  | Some oc =>
      match held_unit i o g q with
      | None => (Err LeaseLost, q)
      | Some u => (Ok (mkReply (Some (result_unit (plan_result escalation u oc report.(p_retryable)
                                  report.(p_remedy) now q) report now u q))
                          (result_alert oc report now u q)), result_state oc report now u q)
      end
  end.
Proof.
  intros Hnd. unfold record_result, write. destruct (member _ _ _) as [oc|]; [|done].
  fold (held_unit i o g q). destruct (held_unit i o g q) as [u|] eqn:E; [|done].
  apply held_unit_Some in E as (Hu & <- & Ho & <- & Hh).
  set (plan := plan_result escalation u oc report.(p_retryable) report.(p_remedy) now q).
  set (p := lease_is u.(u_id) o u.(u_lease_generation)).
  assert (Hpu : p u = true).
  { unfold p, lease_is. by rewrite unit_is_self, bool_decide_eq_true_2, Z.eqb_refl. }
  assert (Hp : ∀ v, p v = true → v.(u_id) = u.(u_id)).
  { intros v Hv. unfold p, lease_is in Hv. bool_prop. by apply unit_is_spec. }
  destruct (only_row _ p (result_update plan report now) u Hnd Hu Hpu Hp) as [Hone Hupd].
  rewrite (bool_decide_eq_true_2 _ Hone). cbv [negb]. rewrite Hupd.
  unfold result_state, result_unit, result_alert, result_wins_alert, storm_already_announced.
  fold plan. set (v := result_update plan report now u).
  set (attempts' := update_where _ (attempt_update oc report now) _).
  set (q' := q <| q_units := _ |> <| q_attempts := attempts' |>).
  assert (Hnd' : NoDup (map u_id q'.(q_units))).
  { unfold q'. simpl. rewrite update_where_map; [done|]. intros w _ Hw%unit_is_spec. done. }
  assert (Hv : v ∈ q'.(q_units)).
  { unfold q'. simpl. apply elem_of_update_where. exists u. by rewrite unit_is_self. }
  assert (Hget : fetch (unit_is u.(u_id)) q'.(q_units) = Some v) by (by apply fetch_updated).
  change (q_refusals q') with (q_refusals q).
  destruct (n_alertable plan && _); simpl andb; [|by rewrite Hget].
  pose proof (claim_alert_eq now q' v Hnd' Hv) as Hca.
  change v.(u_id) with u.(u_id) in Hca. change v.(u_alerted_at) with u.(u_alerted_at) in Hca.
  rewrite Hca. destruct (bool_decide (u_alerted_at u = None)); [|by rewrite Hget].
  assert (update_where (unit_is u.(u_id)) (λ _, alert_unit now v) q'.(q_units) =
          update_where (unit_is u.(u_id)) (λ _, alert_unit now v) q.(q_units)) as -> by by apply update_twice.
  simpl q_units at 1. rewrite fetch_updated by done. done.
Qed.

(** The state machine's result never keeps the lease and stays within the CHECKs. *)
Lemma plan_result_facts u o retryable remedy now q :
  let plan := plan_result escalation u o retryable remedy now q in
  0 ≤ u.(u_attempt) → 0 ≤ u.(u_instrument_retries) ≤ INSTRUMENT_RETRY_CAP →
  (0 ≤ plan.(n_attempt) ≤ u.(u_attempt))
  ∧ (0 ≤ plan.(n_instrument_retries) ≤ INSTRUMENT_RETRY_CAP)
  ∧ plan.(n_state) ≠ CLAIMED ∧ plan.(n_state) ≠ RUNNING
  ∧ (plan.(n_state) = QUEUED → u.(u_cancel_requested) = false).
Proof.
  intros plan Ha Hr. subst plan. unfold plan_result, INSTRUMENT_RETRY_CAP in *.
  destruct o; simpl; unfold park_plan, INSTRUMENT_RETRY_CAP; simpl;
    repeat (case_match; simpl in *); bool_prop; simplify_eq/=;
    split_and!; try done; try lia; intros; try done; by destruct (u_cancel_requested u).
Qed.

Lemma result_mine o report now u t :
  unit_ok (mine u.(u_id) t) u →
  mine u.(u_id) (update_where
    (λ a, open_attempt_of u.(u_id) a && (a.(a_lease_generation) =? u.(u_lease_generation)))
    (attempt_update o report now) t)
  = update_where is_open (attempt_update o report now) (mine u.(u_id) t).
Proof.
  intros Hok. rewrite mine_update_same by done. apply update_where_ext; [|done].
  intros a Ha. pose proof Ha as [_ Hi]%elem_of_mine. rewrite open_attempt_of_spec.
  rewrite (proj2 (attempt_of_spec _ _) Hi). simpl. destruct (is_open a) eqn:E; [|done].
  destruct (ok_open _ _ Hok a Ha E) as [-> _]. by rewrite Z.eqb_refl.
Qed.

Lemma unit_checks_update u v :
  unit_checks u = true → v.(u_timeout_s) = u.(u_timeout_s) → v.(u_priority) = u.(u_priority) →
  v.(u_max_attempts) = u.(u_max_attempts) → 0 ≤ v.(u_attempt) → 0 ≤ v.(u_instrument_retries) →
  0 ≤ v.(u_lease_generation) → unit_checks v = true.
Proof.
  unfold unit_checks. intros Hc -> -> -> ? ? ?. bool_prop.
  repeat match goal with H : ?b = true |- _ => rewrite H; clear H end. simpl.
  by rewrite !(proj2 (Z.leb_le _ _)) by lia.
Qed.

Lemma unit_checks_nonneg u :
  unit_checks u = true → 0 ≤ u.(u_attempt) ∧ 0 ≤ u.(u_instrument_retries) ∧ 0 ≤ u.(u_lease_generation)
  ∧ 1 ≤ u.(u_max_attempts) ≤ 5.
Proof. unfold unit_checks, between. intros. bool_prop. lia. Qed.

(** A row whose lease is dropped over attempts with no new open one. *)
Lemma unit_ok_drop l l' u v :
  unit_ok l u →
  map a_attempt l' = map a_attempt l → map a_lease_generation l' = map a_lease_generation l →
  (∀ a, a ∈ l' → a ∈ l ∨ is_open a = false ∧ a.(a_outcome) ≠ None) →
  v.(u_timeout_s) = u.(u_timeout_s) → v.(u_priority) = u.(u_priority) →
  v.(u_max_attempts) = u.(u_max_attempts) → v.(u_lease_generation) = u.(u_lease_generation) →
  0 ≤ v.(u_attempt) ≤ u.(u_max_attempts) → 0 ≤ v.(u_instrument_retries) ≤ INSTRUMENT_RETRY_CAP →
  v.(u_state) ≠ CLAIMED → v.(u_state) ≠ RUNNING →
  (v.(u_state) = QUEUED → v.(u_cancel_requested) = false) →
  v.(u_lease_owner) = None → v.(u_lease_expires_at) = None →
  unit_ok l' v.
Proof.
  intros Hok Ho Hg Hl Ht Hp Hm Hgen Ha Hr Hs1 Hs2 Hq Hlo Hle.
  pose proof (unit_checks_nonneg _ (ok_checks _ _ Hok)).
  assert (holds_lease_state v = false) as Hh.
  { unfold holds_lease_state, in_state. by rewrite !bool_decide_eq_false_2. }
  split; try done; try lia.
  - apply (unit_checks_update u); auto; try lia. apply Hok.
  - rewrite Ho, Hgen. apply Hok.
  - rewrite Hg, Hgen. apply Hok.
  - intros a [Hin|[? _]]%Hl Hopen; [|congruence]. rewrite Hgen. by apply (ok_open _ _ Hok).
  - intros a [Hin|[_ ?]]%Hl Hopen; [|done]. by apply (ok_closed _ _ Hok).
  - intros Hh'. congruence.
Qed.

Lemma result_ok i o g text report now q :
  queue_ok q → queue_ok (record_result escalation i o g text report now q).2.
Proof.
  intros Hq. rewrite record_result_eq by apply Hq. destruct (member _ _ _) as [oc|]; [|done].
  destruct (held_unit i o g q) as [u|] eqn:E; [|done].
  apply held_unit_Some in E as (Hu & <- & _ & <- & Hh). simpl.
  pose proof (units_ok q Hq u Hu) as Hok. pose proof (unit_checks_nonneg _ (ok_checks _ _ Hok)) as Hnn.
  destruct (plan_result_facts u oc (p_retryable report) (p_remedy report) now q) as (? & ? & ? & ? & ?);
    [lia|split; [lia|apply Hok]|].
  apply (queue_ok_local q (unit_is u.(u_id)) _ u.(u_id)).
  - done.
  - intros v Hv Hvu%unit_is_spec. rewrite (same_unit q v u) by auto.
    unfold result_unit. by case_match.
  - intros j Hj. apply (mine_update_other u.(u_id)); [congruence| |done].
    intros a Ha. rewrite open_attempt_of_spec in Ha. by bool_prop.
  - intros a (b & Hb & ->)%elem_of_update_where.
    case_match; exact (attempts_owned q Hq b Hb).
  - intros v Hv Hvu. assert (v = u) as -> by by apply (same_unit q). rewrite unit_is_self, result_mine by done.
    apply (unit_ok_drop (mine u.(u_id) q.(q_attempts)) _ u); try done.
    3: intros a (b & Hb & ->)%elem_of_update_where; destruct (is_open b); auto.
    1,2: by apply update_where_map.
    all: pose proof (ok_budget _ _ Hok); unfold result_unit; case_match; simpl; done || lia.
Qed.
End results.

(** ** The other operations *)

Lemma closed_in_all now l u a :
  unit_ok l u → a ∈ update_where is_open (close_row now) l → a ∈ l ∨ is_open a = false ∧ a.(a_outcome) ≠ None.
Proof. intros Hok Ha. right. by eapply closed_ok_closed. Qed.

Lemma reap_step_ok now q row : queue_ok q → queue_ok (reap_step now q row).
Proof.
  intros Hq. apply (queue_ok_local q (unit_is row.(u_id)) _ row.(u_id)
    (close_open now row.(u_id) q.(q_attempts))).
  - done.
  - intros v _ Hv%unit_is_spec. unfold reap_unit. by case_match.
  - intros j Hj. apply close_open_other. congruence.
  - intros a (b & Hb & ->)%elem_of_update_where. case_match; exact (attempts_owned q Hq b Hb).
  - intros v Hv Hvi. rewrite (proj2 (unit_is_spec _ _) Hvi), close_open_mine, <-Hvi.
    pose proof (units_ok q Hq v Hv) as Hok. pose proof (unit_checks_nonneg _ (ok_checks _ _ Hok)).
    pose proof (ok_budget _ _ Hok). pose proof (ok_retries _ _ Hok).
    apply (unit_ok_drop (mine v.(u_id) q.(q_attempts)) _ v); try done.
    1,2: by apply closed_maps.
    1: by intros a; apply closed_in_all with (u := v).
    all: unfold reap_unit; case_match; simpl; done || lia.
Qed.

Lemma reap_ok now q : queue_ok q → queue_ok (reap_expired now q).2.
Proof.
  unfold reap_expired, write. simpl. generalize (select (expired now) q.(q_units)). intros rows.
  revert q. induction rows as [|row rows IH]; intros q Hq; [done|]. simpl. by apply IH, reap_step_ok.
Qed.

(** A statement that frees the lease of one unit and leaves the attempts alone. *)
Lemma free_unit_ok q i f :
  queue_ok q →
  (∀ u, u_id (f u) = u_id u ∧ u_idempotency_key (f u) = u_idempotency_key u) →
  (∀ u, u_timeout_s (f u) = u_timeout_s u ∧ u_priority (f u) = u_priority u
        ∧ u_max_attempts (f u) = u_max_attempts u ∧ u_lease_generation (f u) = u_lease_generation u
        ∧ u_lease_owner (f u) = None ∧ u_lease_expires_at (f u) = None) →
  (∀ u, u_attempt (f u) = u_attempt u ∨ u_attempt (f u) = 0) →
  (∀ u, u_instrument_retries (f u) = u_instrument_retries u ∨ u_instrument_retries (f u) = 0) →
  (∀ u, get_unit i q = Some u →
        u_state (f u) = PARKED ∨ u_state (f u) = CANCELLED ∨ u_state (f u) = QUEUED ∧ u_cancel_requested (f u) = false) →
  queue_ok (q <| q_units := update_where (unit_is i) f q.(q_units) |>).
Proof.
  intros Hq Hid Hf Ha Hr Hs. apply (queue_ok_units q _ _ i); [done| |].
  - intros u _ ?%unit_is_spec. split; [done|]. apply Hid.
  - intros u Hu Hui%unit_is_spec Hok. pose proof (unit_checks_nonneg _ (ok_checks _ _ Hok)).
    pose proof (ok_budget _ _ Hok). pose proof (ok_retries _ _ Hok). unfold INSTRUMENT_RETRY_CAP in *.
    destruct (Hf u) as (? & ? & ? & ? & ? & ?).
    assert (get_unit i q = Some u) as Hget by (rewrite <-Hui; by apply get_unit_elem).
    specialize (Hs u Hget).
    apply (unit_ok_drop (mine i q.(q_attempts)) _ u); try done; auto.
    1: destruct (Ha u) as [-> | ->]; lia.
    1: unfold INSTRUMENT_RETRY_CAP; destruct (Hr u) as [-> | ->]; lia.
    all: destruct Hs as [-> | [-> | [-> ?]]]; done.
Qed.

(** Flags that only matter to alerts. *)
Lemma alert_ok i now q : queue_ok q → queue_ok (claim_alert i now q).2.
Proof.
  intros Hq. unfold claim_alert.
  assert (queue_ok (q <| q_units := update_where (λ u, unit_is i u && bool_decide (u.(u_alerted_at) = None))
                           (λ u, u <| u_alerted_at := Some now |>) q.(q_units) |>)) as H.
  { apply (queue_ok_units q _ _ i); [done| |].
    - intros u _ [?%unit_is_spec _]%andb_true_iff. done.
    - intros u _ _ []. by split. }
  by destruct (negb _).
Qed.

Lemma park_ok i reason remedy now q : queue_ok q → queue_ok (park i reason remedy now q).2.
Proof.
  intros Hq. unfold park, write.
  destruct (match reason with None => _ | Some _ => _ end) as [r|]; simpl; [|done].
  destruct (fetch _ _); [|done].
  assert (queue_ok (q <| q_units := update_where (unit_is i) (park_unit r remedy now) q.(q_units) |>)) as H.
  { apply free_unit_ok; try done; intros; auto. }
  destruct r; simpl; [|done]. pose proof (alert_ok i now _ H) as Ha. by destruct (claim_alert _ _ _).
Qed.

Lemma cancel_now_ok i now q : queue_ok q → queue_ok (cancel_now i now q).
Proof. intros Hq. apply free_unit_ok; try done; intros; auto. Qed.

Lemma refusals_ok q rs : queue_ok q → queue_ok (q <| q_refusals := rs |>).
Proof. intros. by apply queue_ok_rest. Qed.

Lemma requeue_ok i now q : queue_ok q → queue_ok (requeue i now q).2.
Proof.
  intros Hq. unfold requeue, write. destruct (fetch _ _) as [u|] eqn:E; [|done].
  destruct (negb _); [done|]. destruct (u_cancel_requested u) eqn:Ec; [by apply cancel_now_ok|].
  destruct (u_terminal_reason u); [done|]. simpl. apply free_unit_ok; try done; intros; auto.
  right; right. split; [done|]. unfold get_unit in *. simpl. congruence.
Qed.

Lemma unpark_ok i b now q : queue_ok q → queue_ok (unpark i b now q).2.
Proof.
  intros Hq. unfold unpark, write. case_bool_decide; [done|].
  destruct (fetch _ _) as [u|] eqn:E; [|done].
  destruct (negb _); [done|]. destruct (u_cancel_requested u) eqn:Ec; [by apply cancel_now_ok|].
  simpl. set (q' := match last_input_key i q with Some _ => _ | None => q end).
  assert (queue_ok q' ∧ get_unit i q' = Some u) as [Hq' Hget].
  { subst q'. destruct (last_input_key i q); split; auto using refusals_ok. }
  apply free_unit_ok; try done; intros; auto.
  right; right. split; [done|]. simpl. congruence.
Qed.

Lemma cancel_ok i now q : queue_ok q → queue_ok (cancel i now q).2.
Proof.
  intros Hq. unfold cancel, write. simpl. unfold modify. simpl.
  set (units' := update_where (λ u, _ && (_ || _)) _ _).
  assert (units' = update_where (unit_is i)
    (λ u, let v := u <| u_cancel_requested := true |> <| u_updated_at := now |> in
          if in_state QUEUED u || in_state PARKED u then cancel_unit now v else v) q.(q_units)) as ->.
  { subst units'. unfold update_where. rewrite map_map. apply map_ext. intros u.
    destruct (unit_is i u) eqn:E; [|by rewrite E].
    change (unit_is i _) with (unit_is i u). rewrite E. simpl.
    unfold in_state. simpl. by destruct (_ || _). }
  apply (queue_ok_units q _ _ i); [done| |].
  - intros u _ ?%unit_is_spec. simpl. by case_match.
  - intros u Hu Hui%unit_is_spec Hok. pose proof (ok_checks _ _ Hok) as Hc.
    destruct (in_state QUEUED u || in_state PARKED u) eqn:Es; simpl.
    + assert (holds_lease_state u = false) as [Hlo Hle]%(ok_free _ _ Hok).
      { unfold holds_lease_state, in_state in *.
        apply orb_true_iff in Es as [->%bool_decide_eq_true | ->%bool_decide_eq_true]; done. }
      pose proof (unit_checks_nonneg _ Hc). pose proof (ok_budget _ _ Hok). pose proof (ok_retries _ _ Hok).
      apply (unit_ok_drop (mine i q.(q_attempts)) _ u); simpl; try done; try lia; auto.
    + destruct Hok. split; try done. intros Hs. simpl in Hs.
      unfold in_state in Es. simpl in *. rewrite Hs in Es. done.
Qed.

Lemma heartbeat_ok i o g now q : queue_ok q → queue_ok (heartbeat i o g now q).2.
Proof.
  intros Hq. unfold heartbeat. simpl. apply (queue_ok_units q _ _ i); [done| |].
  - intros u _ Hu. unfold lease_is in Hu. bool_prop. split; [by apply unit_is_spec|done].
  - intros u _ Hu [? ? ? ? ? ? ? ? Hheld ?]. apply andb_true_iff in Hu as [_ Hh]. split; try done.
    + intros _. destruct (Hheld Hh) as (? & _ & ?). simpl. eauto.
    + intros Hh'. change (holds_lease_state u = false) in Hh'. congruence.
Qed.

Lemma enqueue_ok s fresh now q : queue_ok q → queue_ok (enqueue s fresh now q).2.
Proof.
  intros Hq. unfold enqueue, write.
  destruct (List.find _ _) as [[]|]; [done|]. destruct (negb (sha40 _)); [done|].
  destruct (member _ _ _) as [risk|]; [|done]. destruct (s_owned_paths s) as [|p ps] eqn:Ep; [done|].
  destruct (fetch _ _) as [u|] eqn:Ef; [done|]. destruct (_ && _) eqn:Ec; [|done]. simpl. bool_prop.
  set (u := new_unit _ _ _ _ _ _) in *.
  assert (u.(u_id) ∉ map u_id q.(q_units)) as Hid.
  { intros (v & Hv & Hin)%list_elem_of_fmap.
    assert (existsb (unit_is (text_or fresh s.(s_id))) q.(q_units) = true) as Hex; [|congruence].
    apply existsb_exists. exists v. split; [by apply list_elem_of_In|]. apply unit_is_spec. by rewrite <-Hv. }
  assert (mine u.(u_id) q.(q_attempts) = []) as Hnone.
  { apply select_none. intros a Ha. apply not_true_iff_false. intros Hau%attempt_of_spec.
    apply Hid. rewrite <-Hau. by apply (attempts_owned q Hq). }
  destruct Hq as [Hnd Hkeys Hok Hown]. split; simpl.
  - rewrite map_app. apply NoDup_app. split_and!; [done| |apply NoDup_singleton].
    intros x Hx ->%list_elem_of_singleton. done.
  - rewrite map_app. apply NoDup_app. split_and!; [done| |apply NoDup_singleton].
    intros x (v & -> & Hv)%list_elem_of_fmap Hx%list_elem_of_singleton.
    assert (v ∈ select (λ u, bool_decide (u.(u_idempotency_key) = default "" s.(s_idempotency_key))) q.(q_units)) as Hsel.
    { apply elem_of_select. split; [done|]. by apply bool_decide_eq_true. }
    unfold fetch in Ef. destruct (select _ _); [by apply not_elem_of_nil in Hsel|done].
  - intros v [Hv|Hv]%elem_of_app; [by apply Hok|]. apply list_elem_of_singleton in Hv as ->.
    rewrite Hnone. split; try done.
    + match goal with H : unit_checks u = true |- _ => apply unit_checks_nonneg in H end. simpl in *. lia.
    + by intros a ?%not_elem_of_nil.
    + by intros a ?%not_elem_of_nil.
  - intros a Ha. rewrite map_app. apply elem_of_app. left. by apply Hown.
Qed.

(** ** Every reachable queue is well formed *)

Lemma enroll_ok al e now q : queue_ok q → queue_ok (enroll_machine al e now q).2.
Proof. intros Hq. unfold enroll_machine, write. destruct (negb _); [done|]. by apply queue_ok_rest. Qed.

Lemma beat_ok m b now q : queue_ok q → queue_ok (machine_beat m b now q).2.
Proof.
  intros Hq. unfold machine_beat, write. destruct (fetch _ _); [|done].
  destruct (b_worker_id b) as [[|]|]; exact (queue_ok_rest q _ _ _ Hq).
Qed.

Lemma refuse_ok k g cl rt rem u now q : queue_ok q → queue_ok (refusal_record k g cl rt rem u now q).2.
Proof.
  intros Hq. unfold refusal_record, write. destruct (fetch _ _); destruct (_ <=? _); exact (queue_ok_rest q _ _ _ Hq).
Qed.

Lemma exec_ok esc now c q : queue_ok q → queue_ok (exec esc now c q).2.
Proof.
  intros Hq. destruct c; cbn [exec snd].
  4: { pose proof (result_ok esc unit_id owner generation outcome report now q Hq) as H.
       by destruct (record_result _ _ _ _ _ _ _ _). }
  5: { pose proof (park_ok unit_id reason remedy now q Hq) as H. by destruct (park _ _ _ _ _). }
  all: auto using enqueue_ok, claim_ok, heartbeat_ok, reap_ok, requeue_ok, unpark_ok, cancel_ok,
         enroll_ok, beat_ok, refuse_ok.
  all: exact (queue_ok_rest q _ _ _ Hq).
Qed.

Lemma final_ok esc tr q : queue_ok q → queue_ok (final esc tr q).
Proof.
  revert q. induction tr as [|[now c] tr IH]; intros q Hq; [done|].
  rewrite final_cons. by apply IH, exec_ok.
Qed.

Lemma empty_queue_ok : queue_ok empty_queue.
Proof. split; simpl; try apply NoDup_nil_2; by intros ? ?%not_elem_of_nil. Qed.
#[export] Hint Resolve exec_ok final_ok empty_queue_ok : omni.
