(* ===== verification/WorkQueueSteps.v ===== *)
(** * WorkQueueSteps: the queue refines one state machine per unit

    [unit_step] is what may happen to one unit and its attempts; [exec_refines] shows
    that every call of the store is, for every unit, one such step.  The properties of
    the queue are inductions over the steps of one unit. *)

From Stdlib Require Import Ascii QArith.
From S2P Require Import Prelude PyString Records WorkQueueSchema WorkQueue WorkQueueInv.
Open Scope Z_scope.

Inductive unit_label :=
  | Idle
  | StepClaim (machine_id worker_id reserved_owner : string)
  | StepBeat
  | StepResult (o : Outcome) (report : Report) (alert : bool)
  | StepReap
  | StepPark (reason : option TerminalReason) (remedy : option string) (alert : bool)
  | StepRequeue
  | StepUnpark
  | StepCancelParked
  | StepCancel.

Definition close_all (now : timestamp) (l : list Attempt) : list Attempt :=
  update_where is_open (close_row now) l.

Definition cancelled_unit (now : timestamp) (u : WorkUnit) : WorkUnit :=
  cancel_unit now u <| u_lease_owner := None |> <| u_lease_expires_at := None |>.

Definition cancel_requested_unit (now : timestamp) (u : WorkUnit) : WorkUnit :=
  let v := u <| u_cancel_requested := true |> <| u_updated_at := now |> in
  if in_state QUEUED u || in_state PARKED u then cancel_unit now v else v.

Definition with_alert (alert : bool) (now : timestamp) (u : WorkUnit) : WorkUnit :=
  if alert then alert_unit now u else u.

Section steps.
Context (escalation : gmap string string) (now : timestamp).

(** A unit with its attempts, before and after. *)
Inductive unit_step : unit_label → WorkUnit → list Attempt → WorkUnit → list Attempt → Prop :=
  | step_idle u l : unit_step Idle u l u l
  | step_claim m w r u l :
      claimable now r u = true →
      unit_step (StepClaim m w r) u l
        (claim_update (owner_of m w) (now + LEASE_TTL_S) (Z.of_nat (rowcount is_open l)) now u)
        (close_all now l ++ [new_attempt u.(u_id) (u.(u_lease_generation) + 1) (u.(u_lease_generation) + 1) m w now])
  | step_beat u l :
      holds_lease_state u = true →
      unit_step StepBeat u l
        (u <| u_lease_expires_at := Some (now + LEASE_TTL_S) |> <| u_updated_at := now |>) l
  | step_result u l o report q alert :
      holds_lease_state u = true →
      (alert = true → u.(u_alerted_at) = None) →
      mine u.(u_id) q.(q_attempts) = l →
      unit_step (StepResult o report alert) u l
        (with_alert alert now (result_update
           (plan_result escalation u o report.(p_retryable) report.(p_remedy) now q) report now u))
        (update_where is_open (attempt_update o report now) l)
  | step_reap u l :
      expired now u = true →
      unit_step StepReap u l (reap_unit (Z.of_nat (rowcount is_open l)) now u) (close_all now l)
  | step_park reason remedy alert u l :
      (alert = true → u.(u_alerted_at) = None ∧ reason ≠ None) →
      unit_step (StepPark reason remedy alert) u l (with_alert alert now (park_unit reason remedy now u)) l
  | step_requeue u l :
      u.(u_state) = PARKED → u.(u_terminal_reason) = None → u.(u_cancel_requested) = false →
      unit_step StepRequeue u l (requeue_unit now u) l
  | step_unpark u l :
      u.(u_state) = PARKED → u.(u_cancel_requested) = false →
      unit_step StepUnpark u l (unpark_unit now u) l
  | step_cancel_parked u l :
      u.(u_state) = PARKED → u.(u_cancel_requested) = true →
      unit_step StepCancelParked u l (cancelled_unit now u) l
  | step_cancel u l : unit_step StepCancel u l (cancel_requested_unit now u) l.

Definition label_alerts (lab : unit_label) : bool :=
  match lab with StepResult _ _ a | StepPark _ _ a => a | _ => false end.

(** The labels a call may put on the unit [u]: which call it is, under which lease, and with which arguments. *)
Definition label_fits (c : call) (u : WorkUnit) (lab : unit_label) : Prop :=
  match lab with
  | Idle => True
  | StepClaim m w owner => ∃ l r, c = CallClaim m w l r ∧ labels_ok l u = true
      ∧ owner = match r with Some r => strip r | None => "" end
  | StepBeat => ∃ o, u.(u_lease_owner) = Some o ∧ c = CallHeartbeat u.(u_id) o u.(u_lease_generation)
  | StepResult o report _ => ∃ w text, u.(u_lease_owner) = Some w
      ∧ c = CallResult u.(u_id) w u.(u_lease_generation) text report
      ∧ member outcome_value ALL_OUTCOMES text = Some o
  | StepReap => c = CallReap
  | StepPark reason remedy _ => ∃ text, c = CallPark u.(u_id) text remedy
      ∧ match text with
        | None => reason = None
        | Some t => ∃ r, member reason_value ALL_REASONS t = Some r ∧ reason = Some r
        end
  | StepRequeue => c = CallRequeue u.(u_id)
  | StepUnpark => ∃ b, c = CallUnpark u.(u_id) b
  | StepCancelParked => c = CallRequeue u.(u_id) ∨ ∃ b, c = CallUnpark u.(u_id) b
  | StepCancel => c = CallCancel u.(u_id)
  end.

(** The effect of a call on the unit [u] of [q]. *)
Definition refines_unit (c : call) (a : option Alert) (q q' : WorkQueue) (u : WorkUnit) : Prop :=
  ∃ lab u', unit_step lab u (mine u.(u_id) q.(q_attempts)) u' (mine u.(u_id) q'.(q_attempts))
    ∧ u' ∈ q'.(q_units) ∧ label_fits c u lab
    ∧ (∀ al, a = Some al → al.(al_unit_id) = Some u.(u_id) → label_alerts lab = true).
End steps.

Lemma step_id esc now lab u l u' l' :
  unit_step esc now lab u l u' l' → u'.(u_id) = u.(u_id).
Proof.
  destruct 1; try done; unfold with_alert, reap_unit, cancel_requested_unit; by case_match.
Qed.

Lemma refines_idle esc now c q q' u :
  u ∈ q'.(q_units) → mine u.(u_id) q'.(q_attempts) = mine u.(u_id) q.(q_attempts) →
  refines_unit esc now c None q q' u.
Proof. intros Hu Hm. exists Idle, u. rewrite Hm. split_and!; try done. constructor. Qed.

(** A call that rewrites only the row [v], which has the new attempts [l']. *)
Lemma refines_one esc now c a q q' lab v v' :
  queue_ok q → v ∈ q.(q_units) →
  q'.(q_units) = update_where (unit_is v.(u_id)) (λ _, v') q.(q_units) →
  (∀ j, j ≠ v.(u_id) → mine j q'.(q_attempts) = mine j q.(q_attempts)) →
  unit_step esc now lab v (mine v.(u_id) q.(q_attempts)) v' (mine v.(u_id) q'.(q_attempts)) →
  label_fits c v lab →
  (∀ al, a = Some al → al.(al_unit_id) = Some v.(u_id) ∧ label_alerts lab = true) →
  ∀ u, u ∈ q.(q_units) → refines_unit esc now c a q q' u.
Proof.
  intros Hq Hv Hunits Hmine Hstep Hfit Hal u Hu.
  destruct (decide (u.(u_id) = v.(u_id))) as [Heq|Hne].
  - assert (u = v) as -> by by apply (same_unit q).
    exists lab, v'. split_and!; try done.
    + rewrite Hunits. apply elem_of_update_where. exists v. by rewrite unit_is_self.
    + intros al H. by apply Hal in H as [_ ?].
  - exists Idle, u. rewrite Hmine by done. split_and!; [constructor| |done|].
    + rewrite Hunits. apply elem_of_update_where. exists u. split; [done|].
      destruct (unit_is v.(u_id) u) eqn:E; [|done]. apply unit_is_spec in E. done.
    + intros al H Hid. apply Hal in H as [H _]. congruence.
Qed.

Lemma update_self q v f :
  queue_ok q → v ∈ q.(q_units) →
  update_where (unit_is v.(u_id)) f q.(q_units) = update_where (unit_is v.(u_id)) (λ _, f v) q.(q_units).
Proof.
  intros Hq Hv. apply update_where_ext; [done|]. intros x Hx ?%unit_is_spec. f_equal. by apply (same_unit q).
Qed.

Lemma reap_step_units now q row u :
  queue_ok q → row ∈ q.(q_units) → u ∈ q.(q_units) →
  if bool_decide (u.(u_id) = row.(u_id))
  then reap_unit (Z.of_nat (rowcount is_open (mine u.(u_id) q.(q_attempts)))) now u ∈ (reap_step now q row).(q_units)
       ∧ mine u.(u_id) (reap_step now q row).(q_attempts) = close_all now (mine u.(u_id) q.(q_attempts))
  else u ∈ (reap_step now q row).(q_units)
       ∧ mine u.(u_id) (reap_step now q row).(q_attempts) = mine u.(u_id) q.(q_attempts).
Proof.
  intros Hq Hrow Hu. unfold reap_step. rewrite Z.max_r by lia. rewrite rowcount_open.
  case_bool_decide as Heq; simpl.
  - rewrite <-Heq. split; [|apply close_open_mine]. apply elem_of_update_where. exists u.
    by rewrite unit_is_self.
  - split; [|apply close_open_other; congruence]. apply elem_of_update_where. exists u.
    split; [done|]. destruct (unit_is row.(u_id) u) eqn:E; [|done]. by apply unit_is_spec in E.
Qed.

Lemma reap_unit_id refund now u : u_id (reap_unit refund now u) = u.(u_id).
Proof. unfold reap_unit. by destruct (u_cancel_requested _). Qed.

(** The reaper treats every expired unit once, on its own attempts. *)
Lemma reap_rows now rows q u :
  queue_ok q → NoDup (map u_id rows) → (∀ r, r ∈ rows → r ∈ q.(q_units)) → u ∈ q.(q_units) →
  let q' := foldl (reap_step now) q rows in
  if bool_decide (u.(u_id) ∈ map u_id rows)
  then reap_unit (Z.of_nat (rowcount is_open (mine u.(u_id) q.(q_attempts)))) now u ∈ q'.(q_units)
       ∧ mine u.(u_id) q'.(q_attempts) = close_all now (mine u.(u_id) q.(q_attempts))
  else u ∈ q'.(q_units) ∧ mine u.(u_id) q'.(q_attempts) = mine u.(u_id) q.(q_attempts).
Proof.
  revert q u. induction rows as [|r rows IH]; intros q u Hq Hnd Hrows Hu; simpl.
  { done. }
  simpl in Hnd. apply NoDup_cons in Hnd as [Hr Hnd].
  assert (r ∈ q.(q_units)) as Hrq by (apply Hrows; set_solver).
  pose proof (reap_step_ok now q r Hq) as Hq1. pose proof (reap_step_units now q r u Hq Hrq Hu) as Hstep.
  assert (∀ r', r' ∈ rows → r' ∈ (reap_step now q r).(q_units)) as Hrows1.
  { intros r' Hr'. pose proof (reap_step_units now q r r' Hq Hrq (Hrows r' ltac:(set_solver))) as H.
    rewrite bool_decide_eq_false_2 in H; [by destruct H|]. intros Heq. apply Hr. rewrite <-Heq.
    by apply list_elem_of_fmap_2. }
  destruct (decide (u.(u_id) = r.(u_id))) as [Heq|Hne].
  - rewrite bool_decide_eq_true_2 in Hstep by done. destruct Hstep as [Hin Hm].
    rewrite bool_decide_eq_true_2 by set_solver.
    specialize (IH _ _ Hq1 Hnd Hrows1 Hin).
    rewrite reap_unit_id, Heq, bool_decide_eq_false_2 in IH by done. destruct IH as [IH1 IH2].
    rewrite Heq in *. split; [done|]. by rewrite IH2.
  - rewrite bool_decide_eq_false_2 in Hstep by done. destruct Hstep as [Hin Hm].
    specialize (IH _ _ Hq1 Hnd Hrows1 Hin). rewrite Hm in IH.
    rewrite (bool_decide_ext (u_id u ∈ u_id r :: map u_id rows) (u_id u ∈ map u_id rows)); [done|].
    rewrite elem_of_cons. naive_solver.
Qed.

Section refinement.
Context (esc : gmap string string).

Lemma reap_refines now q u :
  queue_ok q → u ∈ q.(q_units) →
  refines_unit esc now CallReap None q (reap_expired now q).2 u.
Proof.
  intros Hq Hu. unfold reap_expired, write. simpl.
  pose proof (reap_rows now (select (expired now) q.(q_units)) q u Hq) as H. simpl in H.
  specialize (H ltac:(apply NoDup_map_select, Hq) ltac:(by intros r [? _]%elem_of_select) Hu).
  case_bool_decide as Hin.
  - destruct H as [H1 H2]. eexists StepReap, _. rewrite H2. split_and!; [|exact H1|done|done].
    constructor. apply list_elem_of_fmap in Hin as (v & Hv & [Hv1 Hv2]%elem_of_select).
    by rewrite (same_unit q u v).
  - destruct H as [H1 H2]. by apply refines_idle.
Qed.

Lemma claim_refines now m w l r q u :
  queue_ok q → u ∈ q.(q_units) →
  refines_unit esc now (CallClaim m w l r) None q (claim m w l r now q).2 u.
Proof.
  intros Hq Hu. rewrite claim_eq by done. destruct (claim_choice m l r now q) as [v|] eqn:E.
  2: by apply refines_idle.
  apply choice_claimable in E as (Hv & Hcl & Hlab & _).
  apply (refines_one esc now _ _ q _ (StepClaim m w (match r with Some r => strip r | None => "" end)) v (claim_result m w now v q)); try done.
  - intros j Hj. simpl. rewrite mine_app_new. unfold attempt_of. simpl.
    rewrite bool_decide_eq_false_2 by done. rewrite app_nil_r. apply close_open_other. congruence.
  - simpl. rewrite mine_app_new. unfold attempt_of. simpl. rewrite bool_decide_eq_true_2 by done.
    rewrite close_open_mine. by eapply step_claim.
  - exists l, r. done.
Qed.

Lemma result_refines now i o g text report q u :
  queue_ok q → u ∈ q.(q_units) →
  let c := CallResult i o g text report in
  refines_unit esc now c (exec esc now c q).1 q (exec esc now c q).2 u.
Proof.
  intros Hq Hu. simpl. rewrite record_result_eq by apply Hq.
  destruct (member _ _ _) as [oc|] eqn:Eo; [|by apply refines_idle].
  destruct (held_unit i o g q) as [v|] eqn:E; [|by apply refines_idle].
  apply held_unit_Some in E as (Hv & <- & Ho & <- & Hh). simpl.
  set (plan := plan_result esc v oc (p_retryable report) (p_remedy report) now q).
  apply (refines_one esc now _ _ q _ (StepResult oc report (result_wins_alert plan report v q)) v
           (result_unit plan report now v q)); try done.
  - intros j Hj. apply (mine_update_other v.(u_id)); [congruence| |done].
    intros a Ha. rewrite open_attempt_of_spec in Ha. by bool_prop.
  - simpl. rewrite result_mine by by apply units_ok.
    apply step_result; [done| |done]. unfold result_wins_alert. intros Hw. by bool_prop.
  - exists o, text. done.
  - intros al Hal. unfold result_alert in Hal. fold plan in Hal. simpl.
    destruct (result_wins_alert plan report v q); by simplify_eq/=.
Qed.

Lemma park_refines now i reason remedy q u :
  queue_ok q → u ∈ q.(q_units) →
  let c := CallPark i reason remedy in
  refines_unit esc now c (exec esc now c q).1 q (exec esc now c q).2 u.
Proof.
  intros Hq Hu. simpl. unfold park, write.
  destruct (match reason with None => _ | Some _ => _ end) as [r|] eqn:Er; simpl; [|by apply refines_idle].
  assert (match reason with None => r = None | Some t => ∃ r0, member reason_value ALL_REASONS t = Some r0 ∧ r = Some r0 end) as Hr.
  { destruct reason as [t|]; [|by injection Er as <-]. destruct (member _ _ _) as [r0|]; [|done]. injection Er as <-. eauto. }
  destruct (fetch _ _) as [v|] eqn:E; [|by apply refines_idle].
  apply (get_unit_Some q) in E as [Hv <-].
  assert (∀ al, label_fits (CallPark v.(u_id) reason remedy) v (StepPark r remedy al)) as Hfit by (intros al; by exists reason).
  pose proof (update_self q v (park_unit r remedy now) Hq Hv) as Hupd.
  set (q1 := q <| q_units := _ |>).
  destruct r as [reason'|]; simpl.
  2: { apply (refines_one esc now _ _ q _ (StepPark None remedy false) v (park_unit None remedy now v)); [done|done|exact Hupd|done| | |done|done].
       - by apply (step_park esc now None remedy false).
       - apply Hfit. }
  assert (Hnd1 : NoDup (map u_id q1.(q_units))).
  { unfold q1. simpl. rewrite update_where_map; [apply Hq|done]. }
  assert (Hin1 : park_unit (Some reason') remedy now v ∈ q1.(q_units)).
  { apply elem_of_update_where. exists v. by rewrite unit_is_self. }
  pose proof (claim_alert_eq now q1 _ Hnd1 Hin1) as Hca.
  change (u_id (park_unit _ _ _ v)) with v.(u_id) in Hca.
  change (u_alerted_at (park_unit _ _ _ v)) with v.(u_alerted_at) in Hca. rewrite Hca.
  case_bool_decide as Ha; simpl.
  - apply (refines_one esc now _ _ q _ (StepPark (Some reason') remedy true) v
             (alert_unit now (park_unit (Some reason') remedy now v))); [done|done| |done| |apply Hfit| |done].
    + unfold q1. cbn [q_units modify]. simpl q_units. rewrite Hupd. by apply update_twice.
    + by apply (step_park esc now (Some reason') remedy true).
    + by intros al [= <-].
  - apply (refines_one esc now _ _ q _ (StepPark (Some reason') remedy false) v
             (park_unit (Some reason') remedy now v)); [done|done|exact Hupd|done| |apply Hfit|done|done].
    by apply (step_park esc now (Some reason') remedy false).
Qed.

Lemma cancel_now_refines c now i q v u :
  queue_ok q → get_unit i q = Some v → v.(u_state) = PARKED → v.(u_cancel_requested) = true →
  c = CallRequeue i ∨ (∃ b, c = CallUnpark i b) →
  u ∈ q.(q_units) → refines_unit esc now c None q (cancel_now i now q) u.
Proof.
  intros Hq [Hv <-]%get_unit_Some Hs Hc Hcall Hu.
  apply (refines_one esc now _ _ q _ StepCancelParked v (cancelled_unit now v)); try done.
  - by rewrite <-(update_self q v (cancelled_unit now)).
  - by constructor.
Qed.

Lemma requeue_refines now i q u :
  queue_ok q → u ∈ q.(q_units) → refines_unit esc now (CallRequeue i) None q (requeue i now q).2 u.
Proof.
  intros Hq Hu. unfold requeue, write. destruct (fetch _ _) as [v|] eqn:E; [|by apply refines_idle].
  destruct (in_state PARKED v) eqn:Es; simpl; [|by apply refines_idle].
  apply bool_decide_eq_true in Es. destruct (u_cancel_requested v) eqn:Ec.
  { apply (cancel_now_refines _ now i q v); eauto. }
  destruct (u_terminal_reason v) eqn:Et; [by apply refines_idle|]. simpl.
  apply (get_unit_Some q) in E as [Hv <-].
  apply (refines_one esc now _ _ q _ StepRequeue v (requeue_unit now v)); try done.
  - by rewrite <-(update_self q v (requeue_unit now)).
  - by constructor.
Qed.

Lemma unpark_refines now i b q u :
  queue_ok q → u ∈ q.(q_units) → refines_unit esc now (CallUnpark i b) None q (unpark i b now q).2 u.
Proof.
  intros Hq Hu. unfold unpark, write. case_bool_decide; [by apply refines_idle|].
  destruct (fetch _ _) as [v|] eqn:E; [|by apply refines_idle].
  destruct (in_state PARKED v) eqn:Es; simpl; [|by apply refines_idle].
  apply bool_decide_eq_true in Es. destruct (u_cancel_requested v) eqn:Ec.
  { apply (cancel_now_refines _ now i q v); eauto. }
  apply (get_unit_Some q) in E as [Hv <-]. simpl.
  apply (refines_one esc now _ _ q _ StepUnpark v (unpark_unit now v)); try done.
  - rewrite <-(update_self q v (unpark_unit now)) by done. by destruct (last_input_key _ q).
  - intros j _. by destruct (last_input_key _ q).
  - destruct (last_input_key _ q); by constructor.
  - simpl. eauto.
Qed.

Lemma cancel_units now i q :
  (cancel i now q).2.(q_units) = update_where (unit_is i) (cancel_requested_unit now) q.(q_units).
Proof.
  unfold cancel, write. simpl. unfold modify. simpl. unfold update_where. rewrite map_map. apply map_ext.
  intros u. destruct (unit_is i u) eqn:E; [|by rewrite E].
  change (unit_is i _) with (unit_is i u). rewrite E. unfold cancel_requested_unit, in_state. simpl.
  by destruct (_ || _).
Qed.

Lemma cancel_refines now i q u :
  queue_ok q → u ∈ q.(q_units) → refines_unit esc now (CallCancel i) None q (cancel i now q).2 u.
Proof.
  intros Hq Hu. destruct (decide (u.(u_id) = i)) as [<-|Hne].
  - apply (refines_one esc now _ _ q _ StepCancel u (cancel_requested_unit now u)); try done.
    + rewrite cancel_units. by apply update_self.
    + constructor.
  - apply refines_idle; [|done]. rewrite cancel_units. apply elem_of_update_where. exists u.
    split; [done|]. destruct (unit_is i u) eqn:E; [|done]. by apply unit_is_spec in E.
Qed.

Lemma heartbeat_refines now i o g q u :
  queue_ok q → u ∈ q.(q_units) → refines_unit esc now (CallHeartbeat i o g) None q (heartbeat i o g now q).2 u.
Proof.
  intros Hq Hu. unfold heartbeat. simpl.
  set (p := λ v, lease_is i o g v && holds_lease_state v).
  destruct (p u) eqn:Hp.
  - eexists StepBeat, _. split_and!; [|apply elem_of_update_where; exists u; rewrite Hp; done| |done].
    + constructor. unfold p in Hp. by bool_prop.
    + exists o. unfold p, lease_is in Hp. rewrite !andb_true_iff, unit_is_spec, bool_decide_eq_true, Z.eqb_eq in Hp.
      by destruct Hp as [[[-> ->] ->] _].
  - apply refines_idle; [|done]. apply elem_of_update_where. exists u. by rewrite Hp.
Qed.

Lemma enqueue_refines now s fresh q u :
  queue_ok q → u ∈ q.(q_units) → refines_unit esc now (CallEnqueue s fresh) None q (enqueue s fresh now q).2 u.
Proof.
  intros Hq Hu. unfold enqueue, write.
  destruct (List.find _ _) as [[]|]; [by apply refines_idle|].
  destruct (negb (sha40 _)); [by apply refines_idle|].
  destruct (member _ _ _); [|by apply refines_idle]. destruct (s_owned_paths s); [by apply refines_idle|].
  destruct (fetch _ _); [by apply refines_idle|]. destruct (_ && _); [|by apply refines_idle].
  apply refines_idle; [|done]. simpl. apply elem_of_app. by left.
Qed.

Lemma exec_refines now c q u :
  queue_ok q → u ∈ q.(q_units) → refines_unit esc now c (exec esc now c q).1 q (exec esc now c q).2 u.
Proof.
  intros Hq Hu. destruct c.
  4: by apply result_refines.
  5: by apply park_refines.
  all: cbn [exec fst snd].
  all: auto using enqueue_refines, claim_refines, heartbeat_refines, reap_refines, requeue_refines,
         unpark_refines, cancel_refines.
  - unfold enroll_machine, write. destruct (negb _); by apply refines_idle.
  - unfold machine_beat, write. destruct (fetch _ _); [|by apply refines_idle].
    destruct (b_worker_id beat) as [[|]|]; by apply refines_idle.
  - by apply refines_idle.
  - unfold refusal_record, write. destruct (fetch _ _); destruct (_ <=? _); by apply refines_idle.
  - by apply refines_idle.
Qed.

Lemma ids_update p f t :
  (∀ u, u_id (f u) = u_id u) → map u_id (update_where p f t) = map u_id t.
Proof. intros Hf. by apply update_where_map. Qed.

Lemma reap_ids now rows q : map u_id (foldl (reap_step now) q rows).(q_units) = map u_id q.(q_units).
Proof.
  revert q. induction rows as [|r rows IH]; intros q; [done|]. simpl. rewrite IH.
  apply ids_update. intros u. apply reap_unit_id.
Qed.

Lemma claim_alert_ids i now q : map u_id (claim_alert i now q).2.(q_units) = map u_id q.(q_units).
Proof. unfold claim_alert. destruct (negb _); by apply ids_update. Qed.

Lemma exec_ids now c q :
  queue_ok q → (∀ s f, c ≠ CallEnqueue s f) → map u_id (exec esc now c q).2.(q_units) = map u_id q.(q_units).
Proof.
  intros Hq Hc. destruct c; cbn [exec snd].
  - by destruct (Hc submit fresh).
  - rewrite claim_eq by done. destruct (claim_choice _ _ _ _ _) as [u|] eqn:E; [|done].
    apply choice_claimable in E as (Hu & _). simpl. rewrite update_where_map; [done|].
    intros v _ Hv%unit_is_spec. done.
  - by apply ids_update.
  - rewrite record_result_eq by apply Hq. destruct (member _ _ _) as [oc|]; [|done].
    destruct (held_unit _ _ _ _) as [u|]; [|done]. simpl. rewrite update_where_map; [done|].
    intros v _ Hv%unit_is_spec. unfold result_unit. by case_match.
  - unfold reap_expired, write. simpl. apply reap_ids.
  - unfold park, write. destruct (match reason with None => _ | Some _ => _ end) as [r|]; simpl; [|done].
    destruct (fetch _ _); [|done]. destruct r as [r|]; simpl; [|by apply ids_update].
    set (q1 := q <| q_units := _ |>). pose proof (claim_alert_ids unit_id now q1) as H.
    destruct (claim_alert unit_id now q1). simpl in *. rewrite H. by apply ids_update.
  - unfold requeue, write. destruct (fetch _ _) as [v|]; [|done]. destruct (negb _); [done|].
    destruct (u_cancel_requested v); [by apply ids_update|].
    destruct (u_terminal_reason v); [done|]. by apply ids_update.
  - unfold unpark, write. case_bool_decide; [done|]. destruct (fetch _ _) as [v|]; [|done].
    destruct (negb _); [done|]. destruct (u_cancel_requested v); [by apply ids_update|].
    simpl. destruct (last_input_key _ q); by apply ids_update.
  - rewrite cancel_units. apply ids_update. intros u. unfold cancel_requested_unit. by case_match.
  - unfold enroll_machine, write. by destruct (negb _).
  - unfold machine_beat, write. destruct (fetch _ _); [|done]. by destruct (b_worker_id beat) as [[|]|].
  - done.
  - unfold refusal_record, write. destruct (fetch _ _); by destruct (_ <=? _).
  - done.
Qed.

(** Units are never deleted, and a new one starts queued without attempts. *)
Lemma exec_new now c q u' :
  queue_ok q → u' ∈ (exec esc now c q).2.(q_units) → u'.(u_id) ∉ map u_id q.(q_units) →
  u'.(u_state) = QUEUED ∧ u'.(u_attempt) = 0 ∧ u'.(u_cancel_requested) = false
  ∧ u'.(u_lease_generation) = 0 ∧ (u'.(u_alerted_at) = None ∧ u'.(u_instrument_retries) = 0)
  ∧ mine u'.(u_id) (exec esc now c q).2.(q_attempts) = [].
Proof.
  intros Hq Hu' Hnew.
  assert (¬ ∀ s f, c ≠ CallEnqueue s f) as Hc.
  { intros Hc. apply Hnew. rewrite <-(exec_ids now c q Hq Hc). by apply (list_elem_of_fmap_2 u_id). }
  destruct c; try (exfalso; apply Hc; intros; discriminate).
  assert (Hold : u' ∈ q.(q_units) → False).
  { intros Hin. apply Hnew. by apply (list_elem_of_fmap_2 u_id). }
  cbn [exec snd] in *. unfold enqueue, write in *.
  destruct (List.find _ _) as [[]|]; [by destruct (Hold Hu')|].
  destruct (negb (sha40 _)); [by destruct (Hold Hu')|].
  destruct (member _ _ _); [|by destruct (Hold Hu')].
  destruct (s_owned_paths submit); [by destruct (Hold Hu')|].
  destruct (fetch _ _); [by destruct (Hold Hu')|]. destruct (_ && _); [|by destruct (Hold Hu')].
  simpl in *. apply elem_of_app in Hu' as [Hu'|Hu']; [by destruct (Hold Hu')|].
  apply list_elem_of_singleton in Hu' as ->. split_and!; try done. simpl.
  apply select_none. intros a Ha. apply not_true_iff_false. intros Hau%attempt_of_spec.
  apply Hnew. simpl. rewrite <-Hau. by apply (attempts_owned q Hq).
Qed.

(** Every unit of the next queue is a step of an old one or fresh. *)
Lemma exec_unit_cases now c q u' :
  queue_ok q → u' ∈ (exec esc now c q).2.(q_units) →
  (∃ u lab, u ∈ q.(q_units) ∧ u'.(u_id) = u.(u_id)
     ∧ unit_step esc now lab u (mine u.(u_id) q.(q_attempts)) u'
         (mine u'.(u_id) (exec esc now c q).2.(q_attempts))
     ∧ label_fits c u lab)
  ∨ (u'.(u_state) = QUEUED ∧ u'.(u_attempt) = 0 ∧ u'.(u_cancel_requested) = false
     ∧ u'.(u_lease_generation) = 0 ∧ (u'.(u_alerted_at) = None ∧ u'.(u_instrument_retries) = 0)
     ∧ mine u'.(u_id) (exec esc now c q).2.(q_attempts) = []
     ∧ u'.(u_id) ∉ map u_id q.(q_units)).
Proof.
  intros Hq Hu'. pose proof (exec_ok esc now c q Hq) as Hq'.
  destruct (decide (u'.(u_id) ∈ map u_id q.(q_units))) as [Hin|Hnew].
  - left. apply list_elem_of_fmap in Hin as (u & Hid & Hu).
    destruct (exec_refines now c q u Hq Hu) as (lab & u1 & Hstep & Hu1 & Hfit & _).
    pose proof (step_id _ _ _ _ _ _ _ Hstep) as Hid1.
    assert (u1 = u') as -> by (apply (same_unit (exec esc now c q).2); [done..|congruence]).
    exists u, lab. rewrite Hid. done.
  - right. destruct (exec_new now c q u' Hq Hu' Hnew) as (? & ? & ? & ? & ? & ?). done.
Qed.
End refinement.
