(* ===== verification/WorkQueueSpec.v ===== *)
(** * WorkQueueSpec: what the work queue promises *)

From Stdlib Require Import Ascii QArith.
From S2P Require Import Prelude PyString Records WorkQueueSchema WorkQueue WorkQueueInv WorkQueueSteps.
Open Scope Z_scope.

(** ** Induction over the steps of units *)

(** The clock of each call is related to the one before. *)
Fixpoint clocked (C : timestamp → timestamp → Prop) (T : timestamp) (tr : list (timestamp * call)) : Prop :=
  match tr with
  | [] => True
  | (now, _) :: tr => C T now ∧ clocked C now tr
  end.
Definition last_time (T : timestamp) (tr : list (timestamp * call)) : timestamp :=
  default T (last (map fst tr)).

Lemma last_time_cons T now c tr : last_time T ((now, c) :: tr) = last_time now tr.
Proof. unfold last_time. cbn [map fst]. rewrite last_cons. by destruct (last _). Qed.

Section induction.
Context (esc : gmap string string) (C : timestamp → timestamp → Prop) (allowed : call → Prop).
Context (P : timestamp → WorkUnit → list Attempt → Prop).
Hypothesis fresh_ok : ∀ now u,
  u.(u_state) = QUEUED → u.(u_attempt) = 0 → u.(u_cancel_requested) = false →
  u.(u_lease_generation) = 0 → u.(u_alerted_at) = None ∧ u.(u_instrument_retries) = 0 → 1 ≤ u.(u_max_attempts) → P now u [].
Hypothesis step_ok : ∀ T now c lab u l u' l',
  C T now → allowed c → unit_ok l u → unit_ok l' u' → label_fits c u lab →
  unit_step esc now lab u l u' l' → P T u l → P now u' l'.

Definition all_units (T : timestamp) (q : WorkQueue) : Prop :=
  ∀ u, u ∈ q.(q_units) → P T u (mine u.(u_id) q.(q_attempts)).

Lemma exec_all T now c q :
  queue_ok q → C T now → allowed c → all_units T q → all_units now (exec esc now c q).2.
Proof.
  intros Hq HC Hc HP u' Hu'. pose proof (units_ok _ (exec_ok esc now c q Hq) u' Hu') as Hok'.
  destruct (exec_unit_cases esc now c q u' Hq Hu')
    as [(u & lab & Hu & Hid & Hstep & Hfit)|(? & ? & ? & ? & ? & Hm & _)].
  - apply (step_ok T now c lab u (mine u.(u_id) q.(q_attempts)) u' _); auto. by apply units_ok.
  - rewrite Hm in *. apply fresh_ok; auto.
    pose proof (unit_checks_nonneg _ (ok_checks _ _ Hok')). lia.
Qed.

Lemma final_all T tr q :
  queue_ok q → clocked C T tr → Forall (λ p, allowed p.2) tr → all_units T q →
  all_units (last_time T tr) (final esc tr q).
Proof.
  revert T q. induction tr as [|[now c] tr IH]; intros T q Hq HC Ha HP; [done|].
  destruct HC as [HC1 HC]. apply Forall_cons in Ha as [Ha1 Ha]. rewrite last_time_cons, final_cons.
  apply IH; auto with omni. by eapply exec_all.
Qed.
End induction.

Lemma clocked_any T tr : clocked (λ _ _, True) T tr.
Proof. revert T. induction tr as [|[]]; simpl; auto. Qed.

(** The same from the empty queue, without a clock. *)
Lemma reachable_all esc (allowed : call → Prop) (P : WorkUnit → list Attempt → Prop) tr u :
  (∀ u, u.(u_state) = QUEUED → u.(u_attempt) = 0 → u.(u_cancel_requested) = false →
        u.(u_lease_generation) = 0 → u.(u_alerted_at) = None ∧ u.(u_instrument_retries) = 0 → 1 ≤ u.(u_max_attempts) → P u []) →
  (∀ now c lab u l u' l', allowed c → unit_ok l u → unit_ok l' u' → label_fits c u lab →
        unit_step esc now lab u l u' l' → P u l → P u' l') →
  Forall (λ p, allowed p.2) tr → u ∈ (final esc tr empty_queue).(q_units) →
  P u (mine u.(u_id) (final esc tr empty_queue).(q_attempts)).
Proof.
  intros Hf Hs Ha Hu.
  assert (all_units (λ _, P) (last_time 0 tr) (final esc tr empty_queue)) as H; [|by apply H].
  apply (final_all esc (λ _ _, True) allowed); auto using clocked_any with omni.
  - intros T now c lab v l v' l' _ Hc ???? HP. by apply (Hs now c lab v l v' l').
  - by intros v ?%not_elem_of_nil.
Qed.

(** ** Executions never overlap *)

Definition timeline (T : timestamp) (u : WorkUnit) (l : list Attempt) : Prop :=
  (∀ a, a ∈ l → a.(a_started_at) ≤ T ∧ ∀ f, a.(a_finished_at) = Some f → f ≤ T) ∧
  (∀ a b, a ∈ l → b ∈ l → a.(a_attempt) < b.(a_attempt) →
          ∃ f, a.(a_finished_at) = Some f ∧ f ≤ b.(a_started_at)).

(** Finishing the open attempts, then starting nothing. *)
Lemma timeline_finish T now u u' l (f : Attempt → Attempt) :
  T ≤ now → unit_ok l u → timeline T u l →
  (∀ a, a_attempt (f a) = a_attempt a ∧ a_started_at (f a) = a_started_at a ∧ a_finished_at (f a) = Some now) →
  timeline now u' (update_where is_open f l).
Proof.
  intros HT Hok [H1 H2] Hf. split.
  - intros a (b & Hb & ->)%elem_of_update_where. destruct (H1 b Hb) as [Hs Hfin].
    destruct (is_open b) eqn:E.
    + destruct (Hf b) as (_ & -> & ->). split; [lia|]. intros x [= <-]. lia.
    + split; [lia|]. intros x Hx. specialize (Hfin x Hx). lia.
  - intros a b (a0 & Ha & ->)%elem_of_update_where (b0 & Hb & ->)%elem_of_update_where Hlt.
    assert (a0.(a_attempt) < b0.(a_attempt)) as Hlt'.
    { destruct (Hf a0) as (<- & _), (Hf b0) as (<- & _); destruct (is_open a0), (is_open b0); try done;
      rewrite ?(proj1 (Hf a0)), ?(proj1 (Hf b0)) in *; done. }
    destruct (H2 a0 b0 Ha Hb Hlt') as (x & Hx & Hle). exists x.
    assert (is_open a0 = false) as -> by (unfold is_open; by rewrite Hx).
    split; [done|]. destruct (is_open b0); [|done]. by destruct (Hf b0) as (_ & -> & _).
Qed.

Lemma timeline_step esc T now lab u l u' l' :
  T ≤ now → unit_ok l u → unit_step esc now lab u l u' l' → timeline T u l → timeline now u' l'.
Proof.
  intros HT Hok Hstep Ht.
  assert (Hsame : ∀ v, timeline now v l).
  { intros v. destruct Ht as [H1 H2]. split; [|done]. intros a Ha. destruct (H1 a Ha) as [? Hf].
    split; [lia|]. intros f Hfa. specialize (Hf f Hfa). lia. }
  destruct Hstep; auto; try (eapply timeline_finish; eauto; done).
  assert (timeline now u (close_all now l)) as [H1 H2] by (eapply timeline_finish; eauto; done).
  assert (Hold : ∀ a, a ∈ close_all now l → a.(a_attempt) ≤ u.(u_lease_generation)).
  { intros a (b & Hb & ->)%elem_of_update_where. destruct (attempt_gen_bounds l u b Hok Hb) as [? Heq].
    destruct (is_open b); simpl; lia. }
  split.
  - intros a [Ha| ->%list_elem_of_singleton]%elem_of_app; [by apply H1|]. simpl. split; [lia|done].
  - intros a b [Ha|Ha]%elem_of_app [Hb|Hb]%elem_of_app Hlt.
    + by apply H2.
    + apply list_elem_of_singleton in Hb as ->. simpl.
      destruct (closed_elem now l a Ha) as [Hopen _]. destruct (H1 a Ha) as [_ Hf].
      unfold is_open in Hopen. apply bool_decide_eq_false in Hopen.
      destruct (a_finished_at a) as [f|]; [|done]. exists f. split; [done|]. by apply Hf.
    + apply list_elem_of_singleton in Ha as ->. apply Hold in Hb. simpl in Hlt. lia.
    + apply list_elem_of_singleton in Ha as ->, Hb as ->. lia.
Qed.

Lemma one_execution esc tr :
  clocked Z.le (hd 0 (map fst tr)) tr → double_executions (final esc tr empty_queue) = 0.
Proof.
  intros HC. set (q := final esc tr empty_queue).
  assert (queue_ok q) as Hq by (unfold q; auto with omni).
  assert (all_units timeline (last_time (hd 0 (map fst tr)) tr) q) as Ht.
  { apply (final_all esc Z.le (λ _, True)); auto with omni.
    - intros now u _ _ _ _ _ _. split; [by intros ? ?%not_elem_of_nil|by intros ? ? ?%not_elem_of_nil].
    - intros T now c lab u l u' l' HT _ Hok _ _ Hs. by eapply timeline_step.
    - apply Forall_true. done.
    - by intros u ?%not_elem_of_nil. }
  assert (select (λ a, existsb (overlaps a) q.(q_attempts)) q.(q_attempts) = []) as Hnone.
  { apply select_none. intros a Ha. apply not_true_iff_false.
    intros (b & Hb%list_elem_of_In & Hov)%existsb_exists. unfold overlaps in Hov.
    apply andb_true_iff in Hov as [[Hid%bool_decide_eq_true Hlt%Z.ltb_lt]%andb_true_iff Hfin].
    pose proof (attempts_owned q Hq a Ha) as (u & Hu & Hin)%list_elem_of_fmap.
    destruct (Ht u Hin) as [_ H2]. destruct (H2 a b) as (f & Hf & Hle).
    - by apply elem_of_mine.
    - apply elem_of_mine. split; [done|]. congruence.
    - done.
    - rewrite Hf in Hfin. apply Z.ltb_lt in Hfin. lia. }
  unfold double_executions. by rewrite Hnone.
Qed.


(** A claim takes what is queued or lapsed. *)
Lemma claim_spares_live q m w l r now c q' u e :
  queue_ok q → claim m w l r now q = (Ok (Some c), q') → u ∈ q.(q_units) →
  u.(u_lease_expires_at) = Some e → now < e →
  u ∈ q'.(q_units) ∧ mine u.(u_id) q'.(q_attempts) = mine u.(u_id) q.(q_attempts)
  ∧ ∃ v, v ∈ q.(q_units) ∧ u_id <$> c.(c_unit) = Some v.(u_id) ∧ v.(u_id) ≠ u.(u_id)
      ∧ (v.(u_state) = QUEUED ∨ ∃ t, v.(u_lease_expires_at) = Some t ∧ t ≤ now).
Proof.
  intros Hq Hc Hu He Hlt. rewrite claim_eq in Hc by done. destruct (claim_choice m l r now q) as [v|] eqn:E; [|done].
  injection Hc as <- <-. apply choice_claimable in E as (Hv & (_ & _ & Hst)%claimable_spec & _).
  assert (v.(u_state) = QUEUED ∨ ∃ t, v.(u_lease_expires_at) = Some t ∧ t ≤ now) as Hfree.
  { destruct Hst as [?|[Hh Hl]]; [by left|right]. destruct (ok_held _ _ (units_ok q Hq v Hv) Hh) as (_ & [t Ht] & _).
    exists t. split; [done|]. unfold lease_lapsed in Hl. rewrite Ht in Hl. by apply Z.leb_le. }
  assert (v.(u_id) ≠ u.(u_id)) as Hne.
  { intros Hid. assert (v = u) as -> by by apply (same_unit q). destruct Hfree as [Hs|(t & Ht & ?)]; [|simplify_eq; lia].
    destruct (ok_free _ _ (units_ok q Hq u Hu)) as [_ Hn]; [|congruence].
    unfold holds_lease_state, in_state. by rewrite Hs. }
  split_and!.
  - apply elem_of_update_where. exists u. split; [done|]. destruct (unit_is v.(u_id) u) eqn:Ei; [|done].
    apply unit_is_spec in Ei. congruence.
  - simpl. rewrite mine_app_new. unfold attempt_of. simpl. rewrite bool_decide_eq_false_2 by done.
    rewrite app_nil_r. by apply close_open_other.
  - exists v. by split_and!.
Qed.

(** C3: Executions never overlap.  As long as the clock never runs backwards, in any interleaving of any calls from any
    workers: no two executions of a unit overlap in time as they are recorded, so the double-execution alarm of [status]
    reads zero; and a further claim hands out only a unit that nobody holds or whose lease has lapsed by then, so that
    while a lease is live, however often its worker renews it, no second execution of its unit starts. *)
Theorem no_double_execution esc tr :
  clocked Z.le (hd 0 (map fst tr)) tr →
  let q := final esc tr empty_queue in
  double_executions q = 0
  ∧ (∀ u now' e, u ∈ q.(q_units) → u.(u_lease_expires_at) = Some e → now' < e →
       ∀ m w l r c q', claim m w l r now' q = (Ok (Some c), q') →
         u ∈ q'.(q_units) ∧ mine u.(u_id) q'.(q_attempts) = mine u.(u_id) q.(q_attempts)
         ∧ ∃ v, v ∈ q.(q_units) ∧ u_id <$> c.(c_unit) = Some v.(u_id) ∧ v.(u_id) ≠ u.(u_id)
             ∧ (v.(u_state) = QUEUED ∨ ∃ t, v.(u_lease_expires_at) = Some t ∧ t ≤ now')).
Proof.
  intros HC q. split; [by apply one_execution|]. intros u now' e Hu He Hlt m w l r c q' Hc.
  eapply claim_spares_live; eauto. unfold q. auto with omni.
Qed.

(** ** Fencing *)

(** The lease of generation [g] on the unit is over. *)
Definition lease_over (g : Z) (u : WorkUnit) : Prop :=
  g < u.(u_lease_generation) ∨ g = u.(u_lease_generation) ∧ holds_lease_state u = false.

Lemma plan_released esc u o r rem now q :
  let v := plan_result esc u o r rem now q in v.(n_state) ≠ CLAIMED ∧ v.(n_state) ≠ RUNNING.
Proof.
  intros v. subst v. unfold plan_result. destruct o; simpl; unfold park_plan; simpl;
    repeat (case_match; simpl in * ); by simplify_eq/=.
Qed.

Lemma not_held_state u : u.(u_state) ≠ CLAIMED → u.(u_state) ≠ RUNNING → holds_lease_state u = false.
Proof. intros. unfold holds_lease_state, in_state. by rewrite !bool_decide_eq_false_2. Qed.

Lemma lease_over_step esc now lab u l u' l' g :
  unit_step esc now lab u l u' l' → lease_over g u → lease_over g u'.
Proof.
  unfold lease_over. destruct 1 as [| | |? ? o rep q al| | | | | |]; intros [Hg|[Hg Hh]]; simpl; auto; try congruence.
  all: try (left; simpl; lia).
  all: try (left; unfold with_alert, reap_unit, cancel_requested_unit; case_match; done).
  - unfold expired in *. bool_prop. congruence.
  - right. split; [by unfold with_alert; case_match|]. by destruct alert.
  - right. unfold cancel_requested_unit. destruct (_ || _); done.
Qed.

Lemma lease_over_final esc tr q i g :
  queue_ok q → (∃ u, get_unit i q = Some u ∧ lease_over g u) →
  ∃ u, get_unit i (final esc tr q) = Some u ∧ lease_over g u.
Proof.
  revert q. induction tr as [|[now c] tr IH]; intros q Hq (u & Hu & Hov); [by eauto|].
  rewrite final_cons. apply IH; [by apply exec_ok|]. apply get_unit_Some in Hu as [Hu <-].
  destruct (exec_refines esc now c q u Hq Hu) as (lab & u' & Hstep & Hu' & _ & _).
  exists u'. rewrite <-(step_id _ _ _ _ _ _ _ Hstep). split; [|by eapply lease_over_step].
  apply get_unit_elem; [by apply exec_ok|done].
Qed.

Lemma lease_over_rejects esc q i g u o text report now :
  queue_ok q → get_unit i q = Some u → lease_over g u →
  heartbeat i o g now q = (Err LeaseLost, q)
  ∧ ∃ e, record_result esc i o g text report now q = (Err e, q).
Proof.
  intros Hq [Hu <-]%get_unit_Some Hov.
  assert (Hnone : ∀ v, v ∈ q.(q_units) → lease_is u.(u_id) o g v && holds_lease_state v = false).
  { intros v Hv. apply not_true_iff_false. intros Hp. unfold lease_is in Hp. bool_prop.
    assert (v = u) as -> by (apply (same_unit q); [done..|by apply unit_is_spec]).
    destruct Hov as [?|[? ?]]; [|congruence].
    match goal with H : (_ =? _) = true |- _ => apply Z.eqb_eq in H end. lia. }
  split.
  - unfold heartbeat. assert (rowcount (λ v, lease_is u.(u_id) o g v && holds_lease_state v) q.(q_units) = 0%nat) as H0.
    { unfold rowcount. by rewrite select_none. }
    rewrite H0. simpl. rewrite update_where_id; [by destruct q|]. intros v Hv Hp. by rewrite Hnone in Hp.
  - rewrite record_result_eq by apply Hq. destruct (member _ _ _); [|by eauto].
    assert (held_unit u.(u_id) o g q = None) as ->; [|by eauto].
    unfold held_unit, fetch. by rewrite select_none.
Qed.

(** C14: A lease generation that has ended, because its result was recorded, it was reaped or
    reclaimed, or the unit was parked, never comes back: whatever calls follow, every heartbeat and
    every result under that generation is refused and changes nothing, for any claimed owner. *)
Theorem lease_fence_permanent esc q i u g tr :
  queue_ok q → get_unit i q = Some u → lease_over g u →
  ∀ o text report now, let q' := final esc tr q in
  heartbeat i o g now q' = (Err LeaseLost, q')
  ∧ ∃ e, record_result esc i o g text report now q' = (Err e, q').
Proof.
  intros Hq Hu Hov o text report now q'.
  destruct (lease_over_final esc tr q i g Hq) as (u' & Hu' & Hov'); [by eauto|].
  eapply lease_over_rejects; eauto. unfold q'. auto with omni.
Qed.

(** A result is recorded at most once per lease: after a successful [record_result], no sequence of
    calls makes a second result, or a heartbeat, under the same generation succeed. *)
Theorem result_recorded_once esc q i o g text report now y q1 tr :
  queue_ok q → record_result esc i o g text report now q = (Ok y, q1) →
  ∀ o' text' report' now', let q' := final esc tr q1 in
  heartbeat i o' g now' q' = (Err LeaseLost, q')
  ∧ ∃ e, record_result esc i o' g text' report' now' q' = (Err e, q').
Proof.
  intros Hq Hr. pose proof (result_ok esc i o g text report now q Hq) as Hq1. rewrite Hr in Hq1.
  rewrite record_result_eq in Hr by apply Hq. destruct (member _ _ _) as [oc|]; [|done].
  destruct (held_unit i o g q) as [u|] eqn:E; [|done]. injection Hr as _ <-.
  apply held_unit_Some in E as (Hu & <- & _ & <- & _). intros o' text' report' now' q'.
  destruct (plan_released esc u oc (p_retryable report) (p_remedy report) now q) as [Hs1 Hs2].
  set (plan := plan_result esc u oc (p_retryable report) (p_remedy report) now q) in *.
  destruct (lease_over_final esc tr (result_state esc oc report now u q) u.(u_id) u.(u_lease_generation) Hq1)
    as (u' & Hu' & Hov').
  { exists (result_unit plan report now u q). split.
    - unfold get_unit. apply fetch_updated; [apply Hq|done|]. unfold result_unit. by case_match.
    - right. unfold result_unit. case_match; (split; [done|]); by apply not_held_state. }
  eapply lease_over_rejects; eauto. unfold q'. auto with omni.
Qed.

(** Claiming hands out each unit under a generation no earlier lease had: every claim raises the
    generation, so the holder of any earlier lease is fenced from then on. *)
Theorem claim_fences_earlier_leases esc q m w l r now c q1 u g tr :
  queue_ok q → claim m w l r now q = (Ok (Some c), q1) → c.(c_unit) = Some u → g < c.(c_lease_generation) →
  ∀ o text report now', let q' := final esc tr q1 in
  heartbeat u.(u_id) o g now' q' = (Err LeaseLost, q')
  ∧ ∃ e, record_result esc u.(u_id) o g text report now' q' = (Err e, q').
Proof.
  intros Hq Hc Hcu Hg. pose proof (claim_ok m w l r now q Hq) as Hq1. rewrite Hc in Hq1.
  rewrite claim_eq in Hc by done. destruct (claim_choice m l r now q) as [v|] eqn:E; [|done].
  injection Hc as <- <-. simpl in *. injection Hcu as <-. apply choice_claimable in E as (Hv & _).
  apply (lease_fence_permanent esc _ v.(u_id) (claim_result m w now v q)); [done| |].
  - unfold get_unit. by apply fetch_updated; [apply Hq|..].
  - left. done.
Qed.

(** ** The attempt budget *)

(** The outcomes that are a verdict about the candidate. *)
Definition verdict (o : Outcome) : bool :=
  match o with PASS | CANDIDATE_DEFECT | TIMEOUT => true | _ => false end.
Definition spent (a : Attempt) : bool :=
  is_open a || match a.(a_outcome) with Some o => verdict o | None => false end.

Lemma spent_close now l :
  (∀ a, a ∈ l → is_open a = true → a.(a_outcome) = None) →
  (rowcount spent (close_all now l) + rowcount is_open l = rowcount spent l)%nat.
Proof.
  unfold rowcount, close_all, update_where, select. induction l as [|a l IH]; intros Hl; [done|]. simpl.
  specialize (IH ltac:(intros b Hb; apply Hl; set_solver)). pose proof (Hl a ltac:(set_solver)) as Ha.
  destruct (is_open a) eqn:E; unfold spent in *; simpl; rewrite ?E; simpl.
  - rewrite Ha by done. simpl. lia.
  - destruct (a_outcome a) as [[]|]; simpl; lia.
Qed.

Lemma spent_result now o report l :
  (rowcount spent (update_where is_open (attempt_update o report now) l) +
   (if verdict o then 0 else rowcount is_open l) = rowcount spent l)%nat.
Proof.
  unfold rowcount, update_where, select. induction l as [|a l IH]; [by destruct (verdict o)|]. simpl.
  destruct (is_open a) eqn:E; unfold spent in *; simpl; rewrite ?E; simpl.
  - destruct (verdict o); simpl; lia.
  - destruct (a_outcome a) as [o'|]; [destruct (verdict o')|]; simpl; lia.
Qed.

Lemma rowcount_app {A} (p : A → bool) l1 l2 : rowcount p (l1 ++ l2) = (rowcount p l1 + rowcount p l2)%nat.
Proof. unfold rowcount. by rewrite select_app, length_app. Qed.

Lemma held_open_count l u : unit_ok l u → holds_lease_state u = true → rowcount is_open l = 1%nat.
Proof.
  intros Hok Hh. destruct (ok_held _ _ Hok Hh) as (_ & _ & a & Ha & Ho).
  pose proof (open_count_le _ _ Hok). assert (0 < rowcount is_open l)%nat by (apply rowcount_pos; eauto). lia.
Qed.

Lemma open_le_spent l : (rowcount is_open l ≤ rowcount spent l)%nat.
Proof.
  unfold rowcount, select. induction l as [|a l IH]; [done|]. simpl. unfold spent at 1.
  destruct (is_open a); simpl; [lia|]. destruct (a_outcome a) as [o|]; [destruct (verdict o)|]; simpl; lia.
Qed.

Lemma plan_attempt esc u o r rem now q :
  (plan_result esc u o r rem now q).(n_attempt) =
  if verdict o then u.(u_attempt) else Z.max 0 (u.(u_attempt) - 1).
Proof.
  unfold plan_result. destruct o; simpl; unfold park_plan; simpl; repeat (case_match; simpl in * ); done.
Qed.

(** The budget counter against the attempts; [exact] without an amnesty. *)
Definition budget (exact : bool) (u : WorkUnit) (l : list Attempt) : Prop :=
  u.(u_attempt) ≤ Z.of_nat (rowcount spent l) ∧ (exact = true → u.(u_attempt) = Z.of_nat (rowcount spent l)).

Lemma budget_step esc now lab u l u' l' exact :
  unit_ok l u → unit_step esc now lab u l u' l' → (exact = true → lab ≠ StepUnpark) →
  budget exact u l → budget exact u' l'.
Proof.
  intros Hok Hstep Hlab Hb. pose proof (open_le_spent l) as Hle.
  pose proof (spent_close now l (λ a Ha Ho, proj2 (ok_open _ _ Hok a Ha Ho))) as Hcl.
  pose proof (unit_checks_nonneg _ (ok_checks _ _ Hok)) as (Hnn & _).
  unfold budget in *. destruct Hb as [Hb1 Hb2].
  destruct Hstep as [| | |u l o report q0 al Hh Hal|u l He| | | | |]; auto.
  - rewrite rowcount_app. change (rowcount spent [new_attempt _ _ _ _ _ _]) with 1%nat. simpl.
    split; [lia|intros He; specialize (Hb2 He); lia].
  - pose proof (held_open_count _ _ Hok Hh) as Hone. pose proof (spent_result now o report l) as Hr.
    assert (u_attempt (with_alert al now (result_update (plan_result esc u o (p_retryable report)
      (p_remedy report) now q0) report now u)) = if verdict o then u.(u_attempt) else Z.max 0 (u.(u_attempt) - 1)) as ->.
    { unfold with_alert. rewrite <-(plan_attempt esc u o (p_retryable report) (p_remedy report) now q0).
      by destruct al. }
    destruct (verdict o); (split; [lia|intros He; specialize (Hb2 He); lia]).
  - assert (u_attempt (reap_unit (Z.of_nat (rowcount is_open l)) now u)
            = Z.max (u.(u_attempt) - Z.of_nat (rowcount is_open l)) 0) as ->.
    { unfold reap_unit. by destruct (u_cancel_requested _). }
    split; [lia|intros He'; specialize (Hb2 He'); lia].
  - unfold with_alert. by destruct alert.
  - simpl. destruct exact; [by destruct Hlab|]. split; [lia|done].
  - unfold cancel_requested_unit. by case_match.
Qed.

Lemma budget_reachable esc exact tr u :
  (exact = true → Forall (λ p, ∀ i b, p.2 ≠ CallUnpark i b) tr) →
  u ∈ (final esc tr empty_queue).(q_units) → budget exact u (mine u.(u_id) (final esc tr empty_queue).(q_attempts)).
Proof.
  intros Hex. apply (reachable_all esc (λ c, exact = true → ∀ i b, c ≠ CallUnpark i b)).
  - intros v _ Ha _ _ _ _. split; intros; rewrite Ha; done.
  - intros now c lab v l v' l' Hc Hok _ Hfit Hstep. eapply budget_step; eauto.
    intros He ->. destruct Hfit as [b ->]. by apply (Hc He v.(u_id) b).
  - destruct exact; [specialize (Hex eq_refl)|]; apply Forall_forall; intros p Hp; [|done].
    rewrite Forall_forall in Hex. intros _. by apply Hex.
Qed.

(** The attempt counter is exactly the number of executions that are running or ended in a verdict
    about the candidate (pass, candidate-defect or timeout): a crash, a reap, an instrument fault or a
    refused input never consumes budget.  Hence, without an amnesty, a unit gets at most [max_attempts]
    verdicts. *)
Theorem budget_counts_verdicts esc tr u :
  Forall (λ p, ∀ i b, p.2 ≠ CallUnpark i b) tr → u ∈ (final esc tr empty_queue).(q_units) →
  let l := mine u.(u_id) (final esc tr empty_queue).(q_attempts) in
  u.(u_attempt) = Z.of_nat (rowcount spent l) ∧ Z.of_nat (rowcount spent l) ≤ u.(u_max_attempts) ≤ 5.
Proof.
  intros Htr Hu l. destruct (budget_reachable esc true tr u) as [_ Heq]; [done..|].
  specialize (Heq eq_refl). fold l in Heq. split; [done|].
  assert (queue_ok (final esc tr empty_queue)) as Hq by auto with omni.
  pose proof (units_ok _ Hq u Hu) as Hok. pose proof (ok_budget _ _ Hok).
  pose proof (unit_checks_nonneg _ (ok_checks _ _ Hok)). rewrite <-Heq. lia.
Qed.

(** ** No unit waits forever unseen *)

Definition waits_claimably (u : WorkUnit) (l : list Attempt) : Prop :=
  u.(u_state) = QUEUED ∨ u.(u_state) = PARKED ∧ u.(u_terminal_reason) = None →
  u.(u_attempt) < u.(u_max_attempts).

(** A result that queues the unit again, or parks it softly, leaves budget. *)
Lemma plan_waits esc u o r rem now q :
  let v := plan_result esc u o r rem now q in
  0 ≤ u.(u_attempt) ≤ u.(u_max_attempts) → 1 ≤ u.(u_max_attempts) →
  v.(n_state) = QUEUED ∨ v.(n_state) = PARKED ∧ v.(n_terminal_reason) = None →
  v.(n_attempt) < u.(u_max_attempts).
Proof.
  intros v Ha Hm. subst v. unfold plan_result.
  destruct o; simpl; unfold park_plan; simpl; repeat (case_match; simpl in * ); bool_prop;
    simplify_eq/=; intros [?|[? ?]]; simplify_eq/=; lia.
Qed.

Lemma waits_step esc now lab u l u' l' :
  unit_ok l u → unit_ok l' u' → (∀ rem al, lab ≠ StepPark None rem al) →
  unit_step esc now lab u l u' l' → waits_claimably u l → waits_claimably u' l'.
Proof.
  intros Hok Hok' Hlab Hstep Hw. pose proof (unit_checks_nonneg _ (ok_checks _ _ Hok)) as (? & _ & _ & Hm).
  pose proof (ok_budget _ _ Hok) as Hb. unfold waits_claimably in *.
  destruct Hstep as [| |u l Hh|u l o report q0 al Hh Hal|u l He|reason rem al u l Hal|u l Hs Ht Hc| | |u l]; auto.
  - by intros [?|[? _]].
  - pose proof (plan_waits esc u o (p_retryable report) (p_remedy report) now q0) as Hp. simpl in Hp.
    unfold with_alert. destruct al; simpl; auto with lia.
  - unfold expired in He. bool_prop. rewrite (held_open_count l u) by done.
    intros _. unfold reap_unit. destruct (u_cancel_requested _); simpl; lia.
  - destruct reason as [reason|]; [|by destruct (Hlab rem al)].
    unfold with_alert. destruct al; simpl; intros [?|[_ ?]]; done.
  - simpl. lia.
  - by intros [?|[? _]].
  - unfold cancel_requested_unit. destruct (in_state QUEUED u || in_state PARKED u); simpl; [|done].
    by intros [?|[? _]].
Qed.

(** Unless an operator parks a unit without a reason, every queued unit is claimable: it is not
    cancelled, it has budget left, and from its backoff time on an unrestricted worker may claim it.
    There is no backlog that no worker can take. *)
Theorem queued_is_claimable esc tr u now :
  Forall (λ p, ∀ i rem, p.2 ≠ CallPark i None rem) tr → u ∈ (final esc tr empty_queue).(q_units) →
  u.(u_state) = QUEUED → (∀ t, u.(u_not_before) = Some t → t ≤ now) → claimable now "" u = true.
Proof.
  intros Htr Hu Hs Hnb.
  assert (queue_ok (final esc tr empty_queue)) as Hq by auto with omni.
  pose proof (ok_queued _ _ (units_ok _ Hq u Hu) Hs) as Hc.
  assert (waits_claimably u (mine u.(u_id) (final esc tr empty_queue).(q_attempts))) as Hw.
  { apply (reachable_all esc (λ c, ∀ i rem, c ≠ CallPark i None rem)); [| |done|done].
    - intros v _ Ha _ _ _ Hm _. rewrite Ha. lia.
    - intros now' c lab v l v' l' Hc' Hok Hok' Hfit Hstep. eapply waits_step; eauto.
      intros rem al ->. destruct Hfit as ([t|] & -> & Ht); [by destruct Ht as (? & _ & ?)|]. by apply (Hc' v.(u_id) rem). }
  specialize (Hw (or_introl Hs)). unfold claimable.
  rewrite Hc, (proj2 (Z.ltb_lt _ _)) by done. unfold in_state at 1. rewrite bool_decide_eq_true_2 by done.
  simpl. rewrite andb_true_r. destruct (u_not_before u) as [t|]; [|done]. simpl.
  by rewrite (proj2 (Z.leb_le _ _)) by by apply Hnb.
Qed.

(** ** One alert per park *)

Definition alert_of (i : string) (a : Alert) : bool := bool_decide (a.(al_unit_id) = Some i).

Lemma alert_step esc now lab u l u' l' :
  unit_step esc now lab u l u' l' → lab ≠ StepUnpark →
  (label_alerts lab = true → u.(u_alerted_at) = None ∧ u'.(u_alerted_at) ≠ None)
  ∧ (u.(u_alerted_at) ≠ None → u'.(u_alerted_at) ≠ None).
Proof.
  intros Hstep Hlab. destruct Hstep as [| | |u l o report q0 al Hh Hal|u l He|reason rem al u l Hal| | | |]; simpl; try done.
  - unfold with_alert. destruct al; simpl; [|done]. by rewrite Hal.
  - unfold reap_unit. by destruct (u_cancel_requested _).
  - unfold with_alert. destruct al; simpl; [|done]. by destruct Hal as [-> _].
  - unfold cancel_requested_unit. by case_match.
Qed.

(** An alert names an existing unit. *)
Lemma exec_alert_unit esc now c q a :
  queue_ok q → (exec esc now c q).1 = Some a → ∃ u, u ∈ q.(q_units) ∧ a.(al_unit_id) = Some u.(u_id).
Proof.
  intros Hq. destruct c; try done; cbn [exec].
  - rewrite record_result_eq by apply Hq. destruct (member _ _ _) as [oc|]; [|done].
    destruct (held_unit _ _ _ _) as [u|] eqn:E; [|done]. apply held_unit_Some in E as (Hu & _).
    simpl. unfold result_alert. case_match; [|done]. intros [= <-]. eauto.
  - unfold park, write. destruct (match reason with None => _ | Some _ => _ end) as [r|]; simpl; [|done].
    destruct (fetch _ _) as [u|] eqn:E; [|done]. apply (get_unit_Some q) in E as [Hu <-].
    destruct r as [r|]; simpl; [|done].
    pose proof (claim_alert_eq now (q <| q_units := update_where (unit_is u.(u_id)) (park_unit (Some r) remedy now) q.(q_units) |>)
      (park_unit (Some r) remedy now u)) as Hca.
    change (u_id (park_unit _ _ _ u)) with u.(u_id) in Hca. rewrite Hca.
    + case_bool_decide; simpl; [|done]. intros [= <-]. eauto.
    + simpl. rewrite update_where_map; [apply Hq|done].
    + apply elem_of_update_where. exists u. by rewrite unit_is_self.
Qed.

Lemma alerts_after esc tr q i :
  queue_ok q → Forall (λ p, ∀ b, p.2 ≠ CallUnpark i b) tr →
  (length (List.filter (alert_of i) (alerted esc tr q)) ≤ 1)%nat
  ∧ ((∃ u, get_unit i q = Some u ∧ u.(u_alerted_at) ≠ None) → List.filter (alert_of i) (alerted esc tr q) = []).
Proof.
  revert q. induction tr as [|[now c] tr IH]; intros q Hq Htr; [simpl; split; [lia|done]|].
  apply Forall_cons in Htr as [Hc Htr]. simpl in Hc. rewrite alerted_cons, List.filter_app.
  pose proof (exec_ok esc now c q Hq) as Hq'. destruct (IH _ Hq' Htr) as [IH1 IH2].
  assert (Hstep : ∀ u, get_unit i q = Some u → ∃ u', get_unit i (exec esc now c q).2 = Some u'
    ∧ (∀ a, (exec esc now c q).1 = Some a → alert_of i a = true → u.(u_alerted_at) = None ∧ u'.(u_alerted_at) ≠ None)
    ∧ (u.(u_alerted_at) ≠ None → u'.(u_alerted_at) ≠ None)).
  { intros u [Hu <-]%get_unit_Some.
    destruct (exec_refines esc now c q u Hq Hu) as (lab & u' & Hs & Hu' & Hfit & Hal).
    exists u'. rewrite <-(step_id _ _ _ _ _ _ _ Hs). split; [by apply get_unit_elem|].
    destruct (alert_step _ _ _ _ _ _ _ Hs) as [H1 H2].
    { intros ->. destruct Hfit as [b ->]. by apply (Hc b). }
    split; [|done]. intros a Ha Hid%bool_decide_eq_true. apply H1, (Hal a Ha).
    by rewrite Hid, (step_id _ _ _ _ _ _ _ Hs). }
  destruct (exec esc now c q).1 as [a|] eqn:Ea; simpl.
  2: { split; [done|]. intros (u & Hu & Hn). apply IH2.
       destruct (Hstep u Hu) as (u' & Hu' & _ & H2). eauto. }
  destruct (alert_of i a) eqn:Eai; simpl.
  - destruct (exec_alert_unit esc now c q a Hq Ea) as (u & Hu & Hid).
    apply bool_decide_eq_true in Eai as Hid'. assert (u.(u_id) = i) as <- by congruence.
    destruct (Hstep u (get_unit_elem q u Hq Hu)) as (u' & Hu' & H1 & _).
    destruct (H1 a eq_refl Eai) as [Hnone Hsome]. rewrite IH2 by eauto. simpl. split; [lia|].
    intros (v & Hv & Hne). rewrite (get_unit_elem q u Hq Hu) in Hv. by injection Hv as <-.
  - split; [done|]. intros (u & Hu & Hn). apply IH2. destruct (Hstep u Hu) as (u' & Hu' & _ & H2). eauto.
Qed.

(** Between two amnesties of a unit at most one park alert for it is handed out, however many
    results, parks and requeues race; and none once the unit is marked as alerted. *)
Theorem park_alert_once esc tr q i :
  queue_ok q → Forall (λ p, ∀ b, p.2 ≠ CallUnpark i b) tr →
  (length (List.filter (alert_of i) (alerted esc tr q)) ≤ 1)%nat
  ∧ ((∃ u, get_unit i q = Some u ∧ u.(u_alerted_at) ≠ None) → List.filter (alert_of i) (alerted esc tr q) = []).
Proof. apply alerts_after. Qed.

(** ** Claims *)

(** [u] comes before [v] in the claim order. *)
Definition claim_before (u v : WorkUnit) : Prop := py_le (claim_key u) (claim_key v) = true.

(** A claim hands out nothing exactly when the machine is drained or at capacity, or none of the
    twenty first claimable units asks only for labels the worker declared.  Otherwise it hands out the
    first such unit: claimable, admitted by the labels and the reservation, and no claimable unit before
    it in (priority, creation, id) order was admitted; the unit gets a fresh generation, a lease of
    [LEASE_TTL_S] seconds, and a new open attempt with that generation as its ordinal. *)
Theorem claim_exact q m w l r now :
  queue_ok q →
  let owner := match r with Some r => strip r | None => "" end in
  (claim m w l r now q = (Ok None, q) ∧
     (machine_refuses m now q = true ∨ ∀ u, u ∈ candidates now owner q → labels_ok l u = false))
  ∨ ∃ u, machine_refuses m now q = false ∧ u ∈ q.(q_units) ∧ claimable now owner u = true ∧ labels_ok l u = true
      ∧ (∀ v, v ∈ candidates now owner q → labels_ok l v = true → claim_before u v)
      ∧ claim m w l r now q =
        (Ok (Some (mkClaim (get_unit u.(u_id) (claim_state m w now u q)) (u.(u_lease_generation) + 1)
               (now + LEASE_TTL_S) (u.(u_lease_generation) + 1))), claim_state m w now u q).
Proof.
  intros Hq owner. rewrite claim_eq by done. destruct (claim_choice m l r now q) as [u|] eqn:E.
  - right. exists u. pose proof E as (Hu & Hcl & Hlab & Hm)%choice_claimable.
    unfold claim_choice in E. rewrite Hm in E.
    split_and!; try done.
    + intros v Hv Hvl. fold owner in E. apply find_spec in E as (l1 & l2 & Hl & _ & Hl1).
      rewrite Hl in Hv. apply elem_of_app in Hv as [Hv|Hv]; [by rewrite Hl1 in Hvl|].
      apply elem_of_cons in Hv as [->|Hv]; [apply py_le_refl|].
      apply list_elem_of_lookup in Hv as [k Hk].
      apply (sort_by_sorted claim_key (select (claimable now owner) q.(q_units))
        (length l1) (length l1 + S k)%nat); [lia| |].
      * apply (proj1 (lookup_take_Some _ 20 (length l1) u)).
        unfold candidates in Hl. rewrite Hl. by apply list_lookup_middle.
      * apply (proj1 (lookup_take_Some _ 20 (length l1 + S k) v)).
        unfold candidates in Hl. rewrite Hl, lookup_app_r by lia.
        by replace (length l1 + S k - length l1)%nat with (S k) by lia.
    + unfold get_unit. simpl. by rewrite fetch_updated by (done || apply Hq).
  - left. split; [done|]. unfold claim_choice in E. destruct (machine_refuses m now q); [by left|right].
    intros u Hu. apply (List.find_none _ _ E u). by apply list_elem_of_In.
Qed.

Lemma counts_in_flight_not_claimable m now r u :
  u.(u_lease_expires_at) ≠ None →
  counts_in_flight m now u = true → claimable now r u = false.
Proof.
  intros He Hc. apply not_true_iff_false. intros (_ & _ & [Hs|[_ Hl]])%claimable_spec.
  - unfold counts_in_flight, holds_lease_state, in_state in Hc. rewrite Hs in Hc. done.
  - unfold counts_in_flight, lease_live, lease_lapsed in *. destruct (u_lease_expires_at u); [|done].
    bool_prop. lia.
Qed.

Lemma rowcount_update_one {A} (p q : A → bool) f (t : list A) :
  (rowcount p (update_where q f t) ≤ rowcount p t + rowcount q t)%nat.
Proof.
  unfold rowcount, update_where, select. induction t as [|x t IH]; [done|]. simpl.
  destruct (q x); simpl; destruct (p x); simpl; try destruct (p (f x)); simpl; lia.
Qed.

(** A claim never takes an enrolled machine above its [max_concurrent] live leases. *)
Theorem capacity_respected q m w l r now c q1 row :
  queue_ok q → claim m w l r now q = (Ok (Some c), q1) →
  fetch (machine_is m) q.(q_machines) = Some row →
  in_flight m now q1 ≤ row.(m_max_concurrent) ∧ row.(m_drain) = false.
Proof.
  intros Hq Hc Hrow. rewrite claim_eq in Hc by done.
  destruct (claim_choice m l r now q) as [u|] eqn:E; [|done]. injection Hc as _ <-.
  apply choice_claimable in E as (Hu & _ & _ & Hm). unfold machine_refuses in Hm. rewrite Hrow in Hm.
  bool_prop. split; [|done]. unfold in_flight in *. simpl.
  pose proof (rowcount_update_one (counts_in_flight m now) (unit_is u.(u_id)) (λ _, claim_result m w now u q) q.(q_units)).
  assert (rowcount (unit_is u.(u_id)) q.(q_units) = 1%nat) by (unfold rowcount; by rewrite fetch_unique).
  lia.
Qed.

(** *** A silent worker *)

(** A call that leaves the lease of [u] to run out: no heartbeat, result or park of the unit by anyone who names it,
    and neither a claim nor a reap once the lease has lapsed. *)
Definition spares (u : WorkUnit) (e : timestamp) (now : timestamp) (c : call) : Prop :=
  match c with
  | CallHeartbeat i o g | CallResult i o g _ _ => i ≠ u.(u_id) ∨ g ≠ u.(u_lease_generation)
  | CallPark i _ _ => i ≠ u.(u_id)
  | CallClaim _ _ _ _ | CallReap => now < e
  | _ => True
  end.
(** The same lease on the same unit, perhaps with a cancellation requested. *)
Record still_leased (u v : WorkUnit) : Prop := {
  sl_id : v.(u_id) = u.(u_id);
  sl_state : v.(u_state) = u.(u_state);
  sl_owner : v.(u_lease_owner) = u.(u_lease_owner);
  sl_expires : v.(u_lease_expires_at) = u.(u_lease_expires_at);
  sl_generation : v.(u_lease_generation) = u.(u_lease_generation);
  sl_attempt : v.(u_attempt) = u.(u_attempt);
  sl_max : v.(u_max_attempts) = u.(u_max_attempts);
  sl_retries : v.(u_instrument_retries) = u.(u_instrument_retries);
}.

Definition cancels (i : string) (c : call) : bool := match c with CallCancel j => bool_decide (j = i) | _ => false end.

#[export] Instance still_leased_preorder : PreOrder still_leased.
Proof. split; [done|]. intros u v w [] []. split; congruence. Qed.

Lemma still_held u v : still_leased u v → holds_lease_state v = holds_lease_state u.
Proof. intros Hs. unfold holds_lease_state, in_state. by rewrite (sl_state _ _ Hs). Qed.
Lemma spares_still u v e now c : still_leased u v → spares u e now c → spares v e now c.
Proof. intros Hs. unfold spares. by rewrite (sl_id _ _ Hs), (sl_generation _ _ Hs). Qed.

Lemma spared_step esc now lab c u l v l' e :
  holds_lease_state u = true → u.(u_lease_expires_at) = Some e →
  label_fits c u lab → unit_step esc now lab u l v l' → spares u e now c →
  still_leased u v ∧ l' = l ∧ (v.(u_cancel_requested) = u.(u_cancel_requested) || match lab with StepCancel => true | _ => false end).
Proof.
  intros Hh He Hfit Hstep Hs.
  assert (u.(u_state) ≠ PARKED ∧ u.(u_state) ≠ QUEUED) as [Hnp Hnq].
  { unfold holds_lease_state, in_state in Hh. by split; intros E; rewrite E in Hh. }
  destruct Hstep; cbn [label_fits] in Hfit; try done.
  - by rewrite orb_false_r.
  - destruct Hfit as (lb & rf & -> & _). exfalso. cbn in Hs.
    match goal with H : claimable _ _ _ = true |- _ => apply claimable_spec in H as (_ & _ & [?|[_ Hl]]) end; [done|].
    unfold lease_lapsed in Hl. rewrite He in Hl. apply Z.leb_le in Hl. lia.
  - destruct Hfit as (o & _ & ->). cbn in Hs. naive_solver.
  - destruct Hfit as (w & text & _ & -> & _). cbn in Hs. naive_solver.
  - subst c. cbn in Hs. exfalso. match goal with H : expired _ _ = true |- _ => unfold expired in H; rewrite He in H; bool_prop end. lia.
  - destruct Hfit as (text & -> & _). done.
  - unfold cancel_requested_unit, in_state. rewrite !bool_decide_eq_false_2 by done. split; [by split|]. split; [done|]. by rewrite orb_true_r.
Qed.
Lemma cancel_step esc now u q :
  queue_ok q → u ∈ q.(q_units) → holds_lease_state u = true →
  ∃ v, v ∈ (exec esc now (CallCancel u.(u_id)) q).2.(q_units) ∧ still_leased u v ∧ v.(u_cancel_requested) = true.
Proof.
  intros Hq Hu Hh. exists (cancel_requested_unit now u). cbn [exec snd]. rewrite cancel_units. split.
  - apply elem_of_update_where. exists u. by rewrite unit_is_self.
  - unfold cancel_requested_unit. destruct (in_state QUEUED u || in_state PARKED u) eqn:E; [|by split].
    exfalso. unfold holds_lease_state, in_state in *. by destruct (u_state u).
Qed.

Lemma spared_exec esc now c q u e :
  queue_ok q → u ∈ q.(q_units) → holds_lease_state u = true → u.(u_lease_expires_at) = Some e → spares u e now c →
  let q' := (exec esc now c q).2 in
  ∃ v, v ∈ q'.(q_units) ∧ still_leased u v ∧ mine u.(u_id) q'.(q_attempts) = mine u.(u_id) q.(q_attempts)
    ∧ v.(u_cancel_requested) = u.(u_cancel_requested) || cancels u.(u_id) c.
Proof.
  intros Hq Hu Hh He Hs q'. destruct (exec_refines esc now c q u Hq Hu) as (lab & v & Hstep & Hv & Hfit & _).
  destruct (spared_step _ _ _ _ _ _ _ _ _ Hh He Hfit Hstep Hs) as (Hst & Hm & Hc). exists v. split_and!; [done..|].
  destruct (cancels u.(u_id) c) eqn:Ec.
  - destruct c; try done. apply bool_decide_eq_true in Ec as ->.
    destruct (cancel_step esc now u q Hq Hu Hh) as (v' & Hv' & Hst' & Hc').
    assert (v = v') as ->; [|by rewrite Hc', orb_true_r].
    apply (same_unit q'); [by apply exec_ok|done..|]. by rewrite (sl_id _ _ Hst), (sl_id _ _ Hst').
  - rewrite Hc. f_equal. destruct lab; try done. cbn in Hfit. subst c. cbn in Ec. by rewrite bool_decide_eq_true_2 in Ec.
Qed.

Lemma spared_final esc tr q u e :
  queue_ok q → u ∈ q.(q_units) → holds_lease_state u = true → u.(u_lease_expires_at) = Some e →
  Forall (λ p, spares u e p.1 p.2) tr →
  let q' := final esc tr q in
  ∃ v, v ∈ q'.(q_units) ∧ still_leased u v ∧ mine u.(u_id) q'.(q_attempts) = mine u.(u_id) q.(q_attempts)
    ∧ v.(u_cancel_requested) = u.(u_cancel_requested) || existsb (λ p, cancels u.(u_id) p.2) tr.
Proof.
  revert q u. induction tr as [|[now c] tr IH]; intros q u Hq Hu Hh He Htr.
  { exists u. split_and!; try done. by rewrite orb_false_r. }
  apply Forall_cons in Htr as [Hc Htr]. rewrite final_cons.
  destruct (spared_exec esc now c q u e Hq Hu Hh He Hc) as (v & Hv & Hst & Hm & Hcv).
  destruct (IH (exec esc now c q).2 v) as (w & Hw & Hst' & Hm' & Hcw); try done.
  - by apply exec_ok.
  - by rewrite (still_held u).
  - by rewrite (sl_expires _ _ Hst).
  - eapply Forall_impl; [exact Htr|]. intros p. by apply spares_still.
  - rewrite (sl_id _ _ Hst) in *. exists w. split_and!; [done|by etrans|congruence|]. rewrite Hcw, Hcv. cbn. by rewrite orb_assoc.
Qed.

(** C39: A worker that goes silent costs the unit nothing.  Take a unit under a lease, claimed or running, in a
    well-formed queue, and any calls that leave that lease to run out: no heartbeat or result under it, no park of the
    unit, no claim and no reap after it lapsed.  Then the first reap at or after its expiry ends it: the unit is queued
    again, or cancelled if that was requested before or meanwhile; its lease columns are empty, its generation and its
    instrument retries are what they were, the execution that was lost is taken off its attempts, and of its attempts
    just the open one changed: it is closed as abandoned at the time of the reap. *)
Theorem silent_worker_recovered esc q u e tr later :
  queue_ok q → u ∈ q.(q_units) → holds_lease_state u = true → u.(u_lease_expires_at) = Some e →
  Forall (λ p, spares u e p.1 p.2) tr → e ≤ later →
  let q1 := final esc tr q in
  let q2 := (reap_expired later q1).2 in
  ∃ v, get_unit u.(u_id) q2 = Some v
    ∧ v.(u_state) = (if u.(u_cancel_requested) || existsb (λ p, cancels u.(u_id) p.2) tr then CANCELLED else QUEUED)
    ∧ v.(u_lease_owner) = None ∧ v.(u_lease_expires_at) = None
    ∧ v.(u_lease_generation) = u.(u_lease_generation) ∧ v.(u_instrument_retries) = u.(u_instrument_retries)
    ∧ v.(u_attempt) = Z.max (u.(u_attempt) - 1) 0 ∧ v.(u_max_attempts) = u.(u_max_attempts)
    ∧ mine u.(u_id) q2.(q_attempts) = close_all later (mine u.(u_id) q.(q_attempts))
    ∧ ∃ a, a ∈ mine u.(u_id) q.(q_attempts) ∧ is_open a = true ∧ a.(a_lease_generation) = u.(u_lease_generation)
         ∧ close_row later a ∈ mine u.(u_id) q2.(q_attempts) ∧ (close_row later a).(a_outcome) = Some ABANDONED.
Proof.
  intros Hq Hu Hh He Htr Hlate q1 q2. destruct (spared_final esc tr q u e Hq Hu Hh He Htr) as (v & Hv & Hst & Hm & Hc).
  fold q1 in Hv, Hm. assert (queue_ok q1) as Hq1 by (unfold q1; auto with omni).
  assert (expired later v = true) as Hexp.
  { unfold expired. rewrite (still_held u v Hst), Hh, (sl_expires _ _ Hst), He. cbn. by apply Z.leb_le. }
  pose proof (reap_rows later (select (expired later) q1.(q_units)) q1 v Hq1) as H. cbv zeta in H.
  specialize (H ltac:(apply NoDup_map_select, Hq1) ltac:(by intros ? [? _]%elem_of_select) Hv).
  rewrite bool_decide_eq_true_2 in H by (apply list_elem_of_fmap; exists v; split; [done|by apply elem_of_select]).
  rewrite (sl_id _ _ Hst), Hm in H. destruct H as [Hr Hmr].
  rewrite (held_open_count _ u) in Hr by (try apply units_ok; done).
  destruct (ok_held _ _ (units_ok q Hq u Hu) Hh) as (_ & _ & a & Ha & Ho).
  destruct (ok_open _ _ (units_ok q Hq u Hu) a Ha Ho) as [Hg Hn].
  exists (reap_unit (Z.of_nat 1) later v). split_and!.
  - rewrite <-(sl_id _ _ Hst), <-(reap_unit_id (Z.of_nat 1) later v). apply get_unit_elem; [by apply reap_ok|exact Hr].
  - rewrite <-Hc. unfold reap_unit. cbv zeta. simpl. by destruct (u_cancel_requested v).
  - unfold reap_unit. by destruct (u_cancel_requested _).
  - unfold reap_unit. by destruct (u_cancel_requested _).
  - rewrite <-(sl_generation _ _ Hst). unfold reap_unit. by destruct (u_cancel_requested _).
  - rewrite <-(sl_retries _ _ Hst). unfold reap_unit. by destruct (u_cancel_requested _).
  - rewrite <-(sl_attempt _ _ Hst). unfold reap_unit. by destruct (u_cancel_requested _).
  - rewrite <-(sl_max _ _ Hst). unfold reap_unit. by destruct (u_cancel_requested _).
  - exact Hmr.
  - exists a. split_and!; [done..| |].
    + change (mine u.(u_id) q2.(q_attempts)) with
        (mine u.(u_id) (foldl (reap_step later) q1 (select (expired later) q1.(q_units))).(q_attempts)).
      rewrite Hmr. apply elem_of_update_where. exists a. by rewrite Ho.
    + simpl. by rewrite Hn.
Qed.

(** ** Concrete runs *)

Definition demo_submit : Submit :=
  mkSubmit None (Some "k1") (Some "https://git/r") (Some "r")
    (Some "0123456789abcdef0123456789abcdef01234567") None (Some "wq/r-0101") ["src/**"] (Some "brief") None
    (Some "bob") (Some "codex") None ["gpu"] (Some "standard") (Some "make test") None None None.
Definition demo_report : Report := mkReport (Some 0) None None None None None None None None.

Definition demo_start : list (timestamp * call) :=
  [(0, CallEnqueue demo_submit "wq_1"); (10, CallClaim "m1" "m1:1:aa" ["gpu"; "mac"] None)].
Definition demo_queue : WorkQueue := final ∅ demo_start empty_queue.
Definition demo_trace : list (timestamp * call) :=
  demo_start ++ [(200, CallReap); (210, CallClaim "m2" "m2:7:bb" ["gpu"] None);
                 (220, CallResult "wq_1" "m2:m2:7:bb" 2 "pass" demo_report)].

Lemma demo_queue_ok : queue_ok demo_queue.
Proof. apply final_ok, empty_queue_ok. Qed.

Example demo_lifecycle :
  (λ u, (u.(u_state), u.(u_attempt), u.(u_lease_generation), u.(u_terminal_reason))) <$>
    get_unit "wq_1" (final ∅ demo_trace empty_queue) = Some (DONE, 1, 2, Some REASON_ACCEPTED)
  ∧ map a_outcome (list_attempts "wq_1" (final ∅ demo_trace empty_queue)) = [Some ABANDONED; Some PASS].
Proof. by vm_compute. Qed.

Lemma no_double_execution_witness :
  double_executions (final ∅ demo_trace empty_queue) = 0 ∧
  ∀ u, get_unit "wq_1" demo_queue = Some u → ∀ m w l r c q', claim m w l r 50 demo_queue = (Ok (Some c), q') → u ∈ q'.(q_units).
Proof.
  split; [apply (no_double_execution ∅ demo_trace); vm_compute; repeat split; discriminate|].
  intros u Hu m w l r c q' Hc.
  destruct (no_double_execution ∅ demo_start) as [_ H]; [vm_compute; repeat split; discriminate|].
  refine (proj1 (H u 50 130 _ _ _ m w l r c q' Hc)).
  - by apply get_unit_Some in Hu as [? _].
  - vm_compute in Hu. injection Hu as <-. reflexivity.
  - reflexivity.
Defined.

Lemma budget_counts_verdicts_witness :
  match get_unit "wq_1" (final ∅ demo_trace empty_queue) with
  | Some u => u.(u_attempt) = Z.of_nat (rowcount spent (mine u.(u_id) (final ∅ demo_trace empty_queue).(q_attempts)))
  | None => False end.
Proof.
  destruct (get_unit "wq_1" (final ∅ demo_trace empty_queue)) as [u|] eqn:E; [|vm_compute in E; discriminate].
  apply get_unit_Some in E as [Hu _].
  refine (proj1 (budget_counts_verdicts ∅ demo_trace u _ Hu)).
  repeat (constructor; [discriminate|]). constructor.
Defined.

Definition demo_back : list (timestamp * call) := demo_start ++ [(200, CallReap)].
Lemma queued_is_claimable_witness :
  match get_unit "wq_1" (final ∅ demo_back empty_queue) with
  | Some u => claimable 300 "" u = true | None => False end.
Proof.
  destruct (get_unit "wq_1" (final ∅ demo_back empty_queue)) as [u|] eqn:E; [|vm_compute in E; discriminate].
  pose proof E as E'. apply get_unit_Some in E as [Hu _].
  apply (queued_is_claimable ∅ demo_back u 300).
  - repeat (constructor; [discriminate|]). constructor.
  - exact Hu.
  - vm_compute in E'. injection E' as <-. reflexivity.
  - vm_compute in E'. injection E' as <-. discriminate.
Defined.

(** The first worker's lease, after the unit went to a second one. *)
Definition demo_second : WorkQueue := final ∅ (take 4 demo_trace) empty_queue.
Lemma demo_second_ok : queue_ok demo_second.
Proof. apply final_ok, empty_queue_ok. Qed.
Lemma lease_fence_permanent_witness :
  let q' := final ∅ [(212, CallReap)] demo_second in
  heartbeat "wq_1" "m1:m1:1:aa" 1 215 q' = (Err LeaseLost, q').
Proof.
  destruct (get_unit "wq_1" demo_second) as [u|] eqn:E; [|vm_compute in E; discriminate].
  assert (lease_over 1 u) as Hov by (left; vm_compute in E; injection E as <-; reflexivity).
  exact (proj1 (lease_fence_permanent ∅ demo_second "wq_1" u 1 [(212, CallReap)] demo_second_ok E Hov
           "m1:m1:1:aa" "pass" demo_report 215)).
Defined.

Lemma result_recorded_once_witness :
  match record_result ∅ "wq_1" "m1:m1:1:aa" 1 "pass" demo_report 20 demo_queue with
  | (Ok _, q1) => ∃ e, record_result ∅ "wq_1" "m1:m1:1:aa" 1 "candidate-defect" demo_report 25 q1 = (Err e, q1)
  | _ => False end.
Proof.
  destruct (record_result ∅ "wq_1" "m1:m1:1:aa" 1 "pass" demo_report 20 demo_queue) as [[y|e] q1] eqn:E.
  - exact (proj2 (result_recorded_once ∅ demo_queue _ _ _ _ _ _ y q1 [] demo_queue_ok E
             "m1:m1:1:aa" "candidate-defect" demo_report 25)).
  - apply (f_equal fst) in E. vm_compute in E. discriminate.
Defined.

Definition demo_reaped : WorkQueue := final ∅ demo_back empty_queue.
Lemma demo_reaped_ok : queue_ok demo_reaped.
Proof. apply final_ok, empty_queue_ok. Qed.

Lemma claim_fences_earlier_leases_witness :
  match claim "m2" "m2:7:bb" ["gpu"] None 210 demo_reaped with
  | (Ok (Some c), q1) => heartbeat "wq_1" "m1:m1:1:aa" 1 215 q1 = (Err LeaseLost, q1)
  | _ => False end.
Proof.
  destruct (claim "m2" "m2:7:bb" ["gpu"] None 210 demo_reaped) as [r q1] eqn:E.
  pose proof (f_equal fst E) as Er. vm_compute in Er. subst r.
  refine (proj1 (claim_fences_earlier_leases ∅ _ _ _ _ _ _ _ _ _ 1 [] demo_reaped_ok E eq_refl _
            "m1:m1:1:aa" "pass" demo_report 215)).
  reflexivity.
Defined.

Definition demo_parks : list (timestamp * call) :=
  [(20, CallPark "wq_1" (Some "superseded") None); (21, CallPark "wq_1" (Some "cancelled") None)].
Lemma park_alert_once_witness :
  (length (List.filter (alert_of "wq_1") (alerted ∅ demo_parks demo_queue)) ≤ 1)%nat.
Proof.
  refine (proj1 (park_alert_once ∅ demo_parks demo_queue "wq_1" demo_queue_ok _)).
  repeat (constructor; [discriminate|]). constructor.
Defined.

Lemma claim_exact_witness :
  ∃ u, u ∈ demo_reaped.(q_units) ∧ labels_ok ["gpu"] u = true ∧ claimable 210 "" u = true.
Proof.
  destruct (claim_exact demo_reaped "m2" "m2:7:bb" ["gpu"] None 210 demo_reaped_ok)
    as [[Hc _]|(u & _ & Hu & Hcl & Hl & _)].
  - apply (f_equal fst) in Hc. vm_compute in Hc. discriminate.
  - exists u. split; [exact Hu|]. split; [exact Hl|exact Hcl].
Defined.

Definition demo_enrollment : Enrollment :=
  mkEnrollment "m2" None None None ["gpu"] (Some 1) None None None None None None None.
Definition demo_enrolled : WorkQueue :=
  final ∅ (demo_back ++ [(205, CallEnroll ["m2"] demo_enrollment)]) empty_queue.
Lemma capacity_respected_witness :
  match claim "m2" "m2:7:bb" ["gpu"] None 210 demo_enrolled with
  | (Ok (Some c), q1) => in_flight "m2" 210 q1 ≤ 1
  | _ => False end.
Proof.
  destruct (claim "m2" "m2:7:bb" ["gpu"] None 210 demo_enrolled) as [r q1] eqn:E.
  pose proof (f_equal fst E) as Er. vm_compute in Er. subst r.
  destruct (fetch (machine_is "m2") demo_enrolled.(q_machines)) as [row|] eqn:Em; [|vm_compute in Em; discriminate].
  assert (queue_ok demo_enrolled) as Hq by apply final_ok, empty_queue_ok.
  pose proof (proj1 (capacity_respected _ _ _ _ _ _ _ _ row Hq E Em)) as H.
  vm_compute in Em. injection Em as <-. exact H.
Defined.

(** The first worker beats once and goes silent; others come and go, and someone asks to cancel the unit. *)
Definition demo_silence : list (timestamp * call) :=
  [(20, CallHeartbeat "wq_1" "m1:m1:1:aa" 7); (25, CallClaim "m2" "m2:7:bb" ["gpu"] None); (30, CallReap);
   (35, CallCancel "wq_1"); (40, CallBeat "m2" (mkBeat None None None None None None))].
Lemma silent_worker_recovered_witness :
  ∃ v, get_unit "wq_1" (reap_expired 400 (final ∅ demo_silence demo_queue)).2 = Some v
    ∧ v.(u_state) = CANCELLED ∧ v.(u_attempt) = 0.
Proof.
  destruct (get_unit "wq_1" demo_queue) as [u|] eqn:E; [|vm_compute in E; discriminate].
  pose proof E as E'. apply get_unit_Some in E as [Hu Hid]. vm_compute in E'. injection E' as E'.
  destruct (silent_worker_recovered ∅ demo_queue u 130 demo_silence 400 demo_queue_ok Hu)
    as (v & Hv & Hs & _ & _ & _ & _ & Ha & _).
  - rewrite <-E'. vm_compute. reflexivity.
  - rewrite <-E'. vm_compute. reflexivity.
  - rewrite <-E'. unfold demo_silence. apply Forall_forall. intros p Hp.
    repeat (apply elem_of_cons in Hp as [->|Hp]; [cbn; try done; try lia; try (right; discriminate)|]). by apply not_elem_of_nil in Hp.
  - lia.
  - exists v. rewrite Hid in Hv. split; [exact Hv|]. rewrite <-E' in Hs, Ha. split; [exact Hs|exact Ha].
Defined.

(** A soft administrative park of a unit on its last attempt, then a requeue: the unit is queued, not
    cancelled, and no worker can ever claim it. *)
Definition stranding : list (timestamp * call) :=
  [(0, CallEnqueue (demo_submit) "wq_1"); (1, CallClaim "m1" "w" ["gpu"] None);
   (2, CallResult "wq_1" "m1:w" 1 "candidate-defect" demo_report); (3, CallClaim "m1" "w" ["gpu"] None);
   (4, CallResult "wq_1" "m1:w" 2 "timeout" demo_report); (5, CallClaim "m1" "w" ["gpu"] None);
   (6, CallPark "wq_1" None (Some "look at this")); (7, CallRequeue "wq_1")].
Lemma soft_park_strands_unit :
  ∃ u, get_unit "wq_1" (final ∅ stranding empty_queue) = Some u
    ∧ u.(u_state) = QUEUED ∧ u.(u_cancel_requested) = false ∧ u.(u_not_before) = None
    ∧ ∀ now owner, claimable now owner u = false.
Proof.
  destruct (get_unit "wq_1" (final ∅ stranding empty_queue)) as [u|] eqn:E; [|by vm_compute in E].
  exists u. vm_compute in E. injection E as <-. split_and!; try done.
Qed.
