(* ===== verification/WorkWorker.v ===== *)
(** * WorkWorker: [omniagentos/workqueue/worker.py] with its classifier and fingerprint

    The worker's decisions: which paths a unit may write, the key of an input, the
    refusal ledger, the classification of a log, the verdict of a run, and what is
    written back to the queue.  What git, the agent and the acceptance command did is
    the record [World]. *)

From Stdlib Require Import Ascii QArith.
From stdpp Require Import pretty.
From S2P Require Import Prelude PyString PyRegex PyFnmatch PyYaml ProtectedPaths Records RiskGovernance WorkTree.
From S2P Require Import WorkQueueSchema WorkQueue.
Open Scope Z_scope.

(** ** Scope globs *)

Definition slash_char : ascii := "/"%char.

Fixpoint walk (p_parts t_parts : list string) : bool :=
  match p_parts with
  | [] => match t_parts with [] => true | _ => false end
  | p :: p_rest =>
      if bool_decide (p = "**") then
        match p_rest with
        | [] => true
        | _ => (fix skip (t : list string) : bool :=
                  walk p_rest t || match t with [] => false | _ :: t => skip t end) t_parts
        end
      else match t_parts with
           | [] => false
           | t :: t_rest => fnmatchcase t p && walk p_rest t_rest
           end
  end.

Definition ends_with_slash (s : string) : bool :=
  match last_char s with Some c => Ascii.eqb c slash_char | None => false end.

Definition segment_match (path pattern : string) : bool :=
  if bool_decide (pattern = "") || bool_decide (pattern = ".") then false
  else
    let pattern := if ends_with_slash pattern then pattern +:+ "**" else pattern in
    walk (split slash_char pattern) (split slash_char path).

Definition path_in_scope (path : string) (owned : list string) : bool :=
  existsb (segment_match path) owned.

(** ** Load and polling *)

(** The operations on doubles round the exact result with [rnd]. *)
Section polling.
Context (rnd : Q → Q).

Definition IDLE_POLL_MIN_S : Q := 5.
Definition IDLE_POLL_MAX_S : Q := 60.
Definition IDLE_POLL_IDLE_RATIO : Q := rnd (3 # 10).

Definition load_ratio (current : option Q) (ceiling_fraction : Q) (ncpu : Z) : option Q :=
  current ← current;
  let ceiling := rnd (ceiling_fraction * inject_Z (Z.max 1 ncpu)) in
  if Qle_bool ceiling 0 then None else Some (rnd (current / ceiling)).
Definition capacity_ok (ratio : option Q) : bool :=
  match ratio with None => true | Some r => Qle_bool r 1 end.

Definition idle_poll_delay_s (load_ratio : option Q) : Q :=
  match load_ratio with
  | None => IDLE_POLL_MIN_S
  | Some r =>
      if Qle_bool r IDLE_POLL_IDLE_RATIO then IDLE_POLL_MIN_S
      else if Qle_bool 1 r then IDLE_POLL_MAX_S
      else
        let span := rnd (rnd (r - IDLE_POLL_IDLE_RATIO) / rnd (1 - IDLE_POLL_IDLE_RATIO)) in
        rnd (IDLE_POLL_MIN_S + rnd (span * rnd (IDLE_POLL_MAX_S - IDLE_POLL_MIN_S)))
  end.
End polling.

(** [--reserved-for]: present but blank refuses to start. *)
Inductive startup := RefusesToStart | Starts (reserved_for : option string).
Definition resolve_reserved_for (raw : option string) : startup :=
  match raw with
  | None => Starts None
  | Some text => if bool_decide (strip text = "") then RefusesToStart else Starts (Some (strip text))
  end.

(** ** Fingerprint, [omniagentos/workqueue/fingerprint.py] *)

Definition US : ascii := ascii_of_nat 31.
Definition KNOWN_KINDS : list string := ["gate"; "tree"; "self"; "file"; "cmd"].

(** The bytes [_feed] hashes for one entry. *)
Definition feed (kind payload : string) : string :=
  kind +:+ String US (pretty (String.length payload) +:+ String US payload).

Inductive key_error := UnknownKind (kind spec : string) | TreeError (text : string).

(** [str.partition(":")] *)
Fixpoint partition_colon (s : string) : string * string :=
  match s with
  | "" => ("", "")
  | String c s' => if Ascii.eqb c ":" then ("", s')
                   else let '(k, v) := partition_colon s' in (String c k, v)
  end.

Section fingerprint.
(** The bytes of a file or its ABSENT marker, git's tree payload of a worktree, the
    pinned payload of a commit, and SHA-256. *)
Context (bytes_payload : string → string) (tree_payload : string → result key_error string)
        (pinned_tree_payload : string → string → result key_error string) (sha256 : string → string).

Definition entry (pinned : option string) (spec : string) : result key_error (string * string) :=
  let '(kind, value) := partition_colon spec in
  if negb (bool_decide (kind ∈ KNOWN_KINDS)) then Err (UnknownKind kind spec)
  else if bool_decide (kind = "tree") then
    payload ← match pinned with Some p => Ok p | None => tree_payload value end;
    Ok (kind, payload)
  else if bool_decide (kind = "self") || bool_decide (kind = "file") then Ok (kind, bytes_payload value)
  else Ok (kind, value).

Definition hashed (entries : list (string * string)) : string :=
  String.concat "" (map (λ e, feed e.1 e.2) entries).

Definition input_key_from_specs (specs : list string) (pinned : option string) : result key_error string :=
  entries ← traverse (entry pinned) specs;
  Ok (sha256 (hashed entries)).

Definition input_key (gate worktree : string) (gate_script : option string) (config_files : list string)
    (acceptance_cmd : option string) (pinned_at : option (string * string)) : result key_error string :=
  let specs := ["gate:" +:+ gate; "tree:" +:+ worktree]
    ++ (match gate_script with None | Some EmptyString => [] | Some s => ["self:" +:+ s] end)
    ++ map (λ p, "file:" +:+ p) config_files
    ++ (match acceptance_cmd with None => [] | Some c => ["cmd:" +:+ c] end) in
  payload ← match pinned_at with
            | Some (repo, sha) => p ← pinned_tree_payload repo sha; Ok (Some p)
            | None => Ok None end;
  input_key_from_specs specs payload.
End fingerprint.

(** ** Log classification, [omniagentos/workqueue/classify.py] *)

Record Signature := mkSignature { g_outcome : string; g_retryable : Z; g_remedy : string }.

Definition ci : string → regex := lit true.
Definition SIGNATURES : list (regex * Signature) := [
  (alts [seqs [WordB; ci "401"; WordB]; seqs [WordB; ci "403"; WordB]; ci "invalid_api_key";
         seqs [ci "authentication"; Star dot; ci "fail"]; seqs [ci "account"; Star dot; ci "suspend"]],
   mkSignature "environment" 0
     "credential/authorisation fault on this box — TERMINAL at the first occurrence: re-run the same key and it fails identically. Repair the provider credential (~/.config/omni/connections.env, mode 600), then `wq unpark <unit> --because '<what you fixed>'`.");
  (alts [seqs [ci "quota "; alts [ci "exceeded"; ci "exhausted"]]; seqs [ci "rate"; opt dot; ci "limit"];
         seqs [WordB; ci "429"; WordB]; ci "insufficient_quota"],
   mkSignature "environment" 1
     "provider quota/rate limit — the box was unfit, the code was never graded. Retries back off 60/300/900s and park as terminal-instrument after the third. This never enters the defect count.");
  (alts [ci "database is locked"; ci "disk I/O error"; ci "No space left on device"],
   mkSignature "instrument-error" 1
     "local storage/SQLite instrument fault — free disk or clear the writer contention on this machine, then re-run the SAME key (the instrument is not part of the fingerprint, so a repair never changes it).");
  (alts [ci "ssh: connect to host"; ci "Connection refused"; ci "Could not resolve host"],
   mkSignature "environment" 1
     "network/transport fault reaching another host — check the tunnel or tailnet route, then re-run the same key.");
  (alts [seqs [lit false "Operation not permitted"; Star dot; lit false ".git/"];
         seqs [lit false ".git/"; Star dot; lit false "Operation not permitted"]],
   mkSignature "instrument-error" 1
     "sandbox denied a write under .git/ — this is the sandbox, not the code (scripts/land-lane.sh:9-19). Run the unit on a machine whose profile grants git metadata writes, or widen the profile sandbox.")
].

Definition classify_log (text : string) : option Signature :=
  if bool_decide (text = "") then None
  else snd <$> List.find (λ s, search s.1 text) SIGNATURES.

Definition LOAD_MULTIPLIER : Z := 4.
Definition CONTENTION : Signature :=
  mkSignature "contention-flake" 1
    "the box was above 4x its performance-core count when the unit started — the reading is void, not the code. Re-run ONCE in a quiet window; if it fails quiet, it is a candidate-defect.".
Definition classify_start_load (load1 : option Q) (perf_cores : option Z) : option Signature :=
  match load1, perf_cores with
  | Some load, Some cores =>
      if cores <=? 0 then None
      else if negb (Qle_bool load (inject_Z (LOAD_MULTIPLIER * cores))) then Some CONTENTION else None
  | _, _ => None
  end.

(** ** Results *)

Record UnitResult := mkResult {
  x_outcome : string;
  x_exit_code : option Z;
  x_gate_exit_code : option Z;
  x_retryable : option Z;
  x_remedy : option string;
  x_input_key : option string;
  x_head_sha : option string;
  x_result_branch : option string;
  x_result_sha : option string;
  x_log_path : option string;
}.
#[export] Instance UnitResult_rebuild : Rebuild UnitResult := λ x,
  mkResult x.(x_outcome) x.(x_exit_code) x.(x_gate_exit_code) x.(x_retryable) x.(x_remedy)
    x.(x_input_key) x.(x_head_sha) x.(x_result_branch) x.(x_result_sha) x.(x_log_path).
Definition plain_result (outcome : string) (retryable : option Z) (remedy : option string) : UnitResult :=
  mkResult outcome None None retryable remedy None None None None None.

Record WorkerFault := mkFault { f_outcome : string; f_remedy : string; f_retryable : Z }.

Definition REFINE : list (string * Z) :=
  [("instrument-error", 1); ("environment", 1); ("contention-flake", 1); ("unchanged-retry", 0); ("storm-parked", 0)].

Definition verdict_of (rc : Z) (gate_rc : option Z) (gate_class : option string) (log_text : string)
    (gate_remedy : option string) : UnitResult :=
  let '(outcome, retryable, remedy) :=
    if rc =? 0 then ("pass", None, "accepted")
    else if rc =? 1 then
      ("candidate-defect", Some 0,
       "read the log, fix the named cause; the next run's input_key differs and is admitted automatically.")
    else
      let '(outcome, retryable) :=
        match gate_class ≫= (λ c, List.find (λ p, bool_decide (p.1 = c)) REFINE) with
        | Some (c, n) => (c, n)
        | None => ("instrument-error", 1)
        end in
      let remedy := "acceptance could not produce a verdict (process exit " +:+ pretty rc +:+ ")" in
      (outcome, Some retryable,
       match gate_remedy with None | Some EmptyString => remedy | Some g => remedy +:+ ": " +:+ g end) in
  let result := mkResult outcome (Some rc) gate_rc retryable (Some remedy) None None None None None in
  match classify_log log_text with
  | Some s => result <| x_outcome := s.(g_outcome) |> <| x_retryable := Some s.(g_retryable) |>
                     <| x_remedy := Some s.(g_remedy) |>
  | None => result
  end.

Section worker.
(** The cap of the machine's configuration and the text of a time. *)
Context (storm_cap : Z) (iso : timestamp → string).

(** A row is read from the ledger; a failed read is [None]. *)
Definition check_ledger (row : option Refusal) : option UnitResult :=
  match row with
  | None => None
  | Some row =>
      let count := row.(r_count) in
      if storm_cap <=? count then
        Some (plain_result "storm-parked" (Some 0)
          (Some (pretty count +:+ " refusals for this exact input (class " +:+ row.(r_refusal_class)
            +:+ ") — PARKED, terminal. A human or a CHANGED INPUT unparks it; retrying is prohibited. Original remedy: "
            +:+ row.(r_remedy))))
      else if (row.(r_retryable) =? 0)
              && negb (bool_decide (row.(r_refusal_class) ∈ ["instrument-error"; "contention-flake"])) then
        Some (plain_result "unchanged-retry" (Some 0)
          (Some ("identical input was refused " +:+ pretty count +:+ "x (class " +:+ row.(r_refusal_class)
            +:+ ", last " +:+ iso row.(r_last_seen_at)
            +:+ "). Change the tree, the gate config or the gate itself; re-running unchanged is not a strategy. Original remedy: "
            +:+ row.(r_remedy))))
      else None
  end.

(** ** Processes and faults *)

Record Process := mkProcess { returncode : Z; stdout : string; stderr : string }.

Definition git_fault (step : string) (res : Process) : WorkerFault :=
  let text := res.(stdout) +:+ String "010" res.(stderr) in
  match classify_log text with
  | Some s => mkFault s.(g_outcome) ("git " +:+ step +:+ ": " +:+ s.(g_remedy)) s.(g_retryable)
  | None => mkFault "instrument-error"
              ("git " +:+ step +:+ " failed (exit " +:+ pretty res.(returncode) +:+ "): "
               +:+ String.substring 0 400 (strip text)) 1
  end.

Definition key_fault (e : key_error) : WorkerFault :=
  mkFault "instrument-error"
    (match e with TreeError text => text
     | UnknownKind kind spec => "unknown input_key kind " +:+ repr kind +:+ " in " +:+ repr spec end) 1.

(** [_scope_check]: the paths the unit owns are the declared paths. *)
Definition scope_check (registry : ProtectedPathsRegistry) (owned : list string) (observed : ObservedChange) :
    option UnitResult :=
  let entries := map (λ path, mkEntry (default "M" (observed.(status_by_path) !! path)) path None [] "")
                     observed.(observed_paths) in
  let declared := List.filter (λ path, path_in_scope path owned) observed.(observed_paths) in
  let verdict := scope_verdict registry (Some declared) [] entries observed 1 "enforce" in
  if verdict.(v_degraded) then
    Some (plain_result "instrument-error" (Some 1)
      (Some ("the working tree could not be observed, so owned_paths could not be verified ("
        +:+ join "; " verdict.(v_reasons)
        +:+ "). Inconclusive is not clean — repair git in the workdir and re-run the same key.")))
  else match verdict.(v_missing) with
  | [] => None
  | missing =>
      Some (plain_result "candidate-defect" (Some 0)
        (Some ("wrote outside owned_paths: " +:+ join ", " missing +:+ " (owned: " +:+ join ", " owned
               +:+ "). Acceptance fails regardless of exit code.")))
  end.

(** ** One execution *)

Inductive mirror_end := CloneFailed (res : Process) | FetchFailed (res : Process) | ShaMissing (remedy : string) | MirrorReady.
(** A child process: it could not start, hit the deadline or exited; for an agent the
    brief may lie outside the checkout, for a command its text may not split. *)
Inductive child_end := BriefEscapes (remedy : string) | CannotSplit (text : string) | CannotStart (text : string)
  | TimedOut | Exited (rc : Z).

(** What happened during one execution. *)
Record World := mkWorld {
  o_profiles : gmap string bool;
  o_mirror : mirror_end;
  o_key_pinned : result key_error string;
  o_key_live : result key_error string;
  o_ledger : string → option Refusal;
  o_perf_cores : option Z;
  o_start_load : option Q;
  o_clone : option (string * Process);
  o_head_cloned : option string;
  o_agent : child_end;
  o_lost_after_agent : bool;
  o_observed : ObservedChange;
  o_acceptance : child_end;
  o_gate : option Z * option string * option string;
  o_log_tail : string;
  o_lost_after_acceptance : bool;
  o_head_after : option string;
  o_push_mirror : Process;
  o_upstream : bool;
  o_push_upstream : Process;
}.

Inductive inner_end := Returned (r : UnitResult) | Faulted (f : WorkerFault) | Raised (text : string).

Definition faulted (result : UnitResult) (f : WorkerFault) : UnitResult :=
  result <| x_outcome := f.(f_outcome) |> <| x_retryable := Some f.(f_retryable) |>
         <| x_remedy := Some f.(f_remedy) |>.

(** [_push]; a repository without a push remote ends after the mirror. *)
Definition push (branch : string) (w : World) (result : UnitResult) : UnitResult :=
  if negb (w.(o_push_mirror).(returncode) =? 0) then faulted result (git_fault "push to mirror" w.(o_push_mirror))
  else
    let result := result <| x_result_branch := Some branch |> <| x_result_sha := result.(x_head_sha) |> in
    if negb w.(o_upstream) then result
    else if negb (w.(o_push_upstream).(returncode) =? 0)
    then faulted result (git_fault "push to origin" w.(o_push_upstream)) else result.

(** [_profile]: whether the profile has an agent turn. *)
Definition profile_of (name : string) (w : World) : WorkerFault + bool :=
  match w.(o_profiles) !! name with
  | Some has_cmd => inr has_cmd
  | None => inl (mkFault "instrument-error"
      ("agent_profile " +:+ repr name +:+ " is not declared in configs/workqueue.yaml on this machine — add the profile (and its lineage) there, then unpark. A unit can never inject a shell command onto another box.") 0)
  end.

Definition ensure_mirror (w : World) : option WorkerFault :=
  match w.(o_mirror) with
  | MirrorReady => None
  | CloneFailed res => Some (git_fault "clone --mirror" res)
  | FetchFailed res => Some (git_fault "fetch --prune" res)
  | ShaMissing remedy => Some (mkFault "instrument-error" remedy 1)
  end.

(** The end of a child that did not run to an exit code or the deadline. *)
Definition start_failure (label : string) (e : child_end) : option inner_end :=
  match e with
  | BriefEscapes remedy => Some (Faulted (mkFault "instrument-error" remedy 0))
  | CannotSplit text => Some (Raised text)
  | CannotStart text => Some (Faulted (mkFault "instrument-error" (label +:+ " could not start: " +:+ text) 1))
  | TimedOut | Exited _ => None
  end.

Section execution.
Context (registry : ProtectedPathsRegistry) (unit : WorkUnit) (log_path : string).

Definition logged (r : UnitResult) : UnitResult := r <| x_log_path := Some log_path |>.
Definition gated : bool := match unit.(u_acceptance_gate) with None | Some EmptyString => false | Some _ => true end.

(** From the acceptance run on. *)
Definition grade (w : World) (has_agent_turn : bool) (key : string) : inner_end :=
  match start_failure "acceptance" w.(o_acceptance) with
  | Some e => e
  | None =>
  let '(gate_rc, gate_class, gate_remedy) := if gated then w.(o_gate) else (None, None, None) in
  if w.(o_lost_after_acceptance) then Returned (logged (plain_result "lease-lost" None None <| x_input_key := Some key |>))
  else match w.(o_acceptance) with
  | Exited rc =>
      match (if has_agent_turn then None else scope_check registry unit.(u_owned_paths) w.(o_observed)) with
      | Some v => Returned (logged (v <| x_input_key := Some key |> <| x_exit_code := Some rc |>
                                      <| x_head_sha := w.(o_head_after) |>))
      | None =>
          let result := logged (verdict_of rc gate_rc gate_class w.(o_log_tail) gate_remedy
                          <| x_input_key := Some key |> <| x_head_sha := w.(o_head_after) |>) in
          Returned (if bool_decide (result.(x_outcome) = "pass") then push unit.(u_branch) w result else result)
      end
  | _ => Returned (logged (plain_result "timeout" (Some 0)
           (Some ("acceptance exceeded timeout_s=" +:+ pretty unit.(u_timeout_s)))
           <| x_input_key := Some key |> <| x_head_sha := w.(o_head_after) |>))
  end end.

(** Once the agent turn is over. *)
Definition after_agent (w : World) (has_agent_turn : bool) (key : option string) : inner_end :=
  let head := w.(o_head_cloned) in
  if w.(o_lost_after_agent) then Returned (logged (plain_result "lease-lost" None None <| x_input_key := key |>))
  else match (if has_agent_turn then w.(o_agent) else Exited 0), key with
  | TimedOut, _ => Returned (logged (plain_result "timeout" (Some 0)
      (Some ("agent turn exceeded timeout_s=" +:+ pretty unit.(u_timeout_s) +:+ "; child tree killed"))
      <| x_input_key := key |> <| x_head_sha := head |>))
  | _, Some key => grade w has_agent_turn key
  | _, None =>
      match w.(o_key_live) with
      | Err e => Faulted (key_fault e)
      | Ok key =>
      match check_ledger (w.(o_ledger) key) with
      | Some refused => Returned (logged (refused <| x_input_key := Some key |> <| x_head_sha := head |>))
      | None =>
      match scope_check registry unit.(u_owned_paths) w.(o_observed) with
      | Some v => Returned (logged (v <| x_input_key := Some key |> <| x_head_sha := w.(o_head_after) |>))
      | None => grade w has_agent_turn key
      end end end
  end.

(** From the load check on; the key is known when no agent will edit the tree. *)
Definition clone_and_run (w : World) (has_agent_turn : bool) (key : option string) : inner_end :=
  match classify_start_load w.(o_start_load) w.(o_perf_cores) with
  | Some s => Returned (logged (plain_result s.(g_outcome) (Some s.(g_retryable)) (Some s.(g_remedy))
                                 <| x_input_key := key |>))
  | None =>
  match w.(o_clone) with
  | Some (step, res) => Faulted (git_fault step res)
  | None =>
  match (if has_agent_turn then start_failure ("agent:" +:+ unit.(u_agent_profile)) w.(o_agent) else None) with
  | Some e => e
  | None => after_agent w has_agent_turn key
  end end end.

(** [_execute_inner]: a fault or any other exception leaves it as such. *)
Definition execute_inner (w : World) : inner_end :=
  match profile_of unit.(u_agent_profile) w with
  | inl f => Faulted f
  | inr has_agent_turn =>
  match ensure_mirror w with
  | Some f => Faulted f
  | None =>
  if has_agent_turn then clone_and_run w true None
  else match w.(o_key_pinned) with
  | Err e => Faulted (key_fault e)
  | Ok key =>
      match check_ledger (w.(o_ledger) key) with
      | Some refused => Returned (logged (refused <| x_input_key := Some key |>))
      | None => clone_and_run w false (Some key)
      end
  end end end.
End execution.

(** How [execute] turns what happened into the result it records. *)
Definition settle (e : inner_end) (lease_lost : bool) (log_path : string) : UnitResult :=
  let result := match e with
    | Returned r => r
    | Faulted f => plain_result f.(f_outcome) (Some f.(f_retryable)) (Some f.(f_remedy)) <| x_log_path := Some log_path |>
    | Raised text => plain_result "instrument-error" (Some 1) (Some ("worker raised " +:+ text))
                       <| x_log_path := Some log_path |>
    end in
  if lease_lost
  then plain_result "lease-lost" (Some 1)
         (Some "lease was adopted by another worker; child tree killed, no result written")
         <| x_log_path := Some log_path |> <| x_input_key := result.(x_input_key) |>
  else result.
End worker.

(** ** Writing back *)

Section record.
Context (escalation : gmap string string).

Definition nonzero (n : option Z) : bool := match n with Some n => negb (n =? 0) | None => false end.

(** [_record]: the alerts it announces, and the queue.  The ledger is written first;
    a refused result is dropped. *)
Definition record (unit_id owner : string) (generation : Z) (gate : string) (result : UnitResult)
    (now : timestamp) (q : WorkQueue) : list Alert * WorkQueue :=
  let '(storm, q) :=
    match result.(x_input_key) with
    | Some (String _ _ as key) =>
        if bool_decide (result.(x_outcome) ∈ ["lease-lost"; "abandoned"]) then (None, q)
        else if bool_decide (result.(x_outcome) = "pass") then (None, (refusal_clear key gate q).2)
        else
          let '(r, q) := refusal_record key gate result.(x_outcome)
                           (if nonzero result.(x_retryable) then 1 else 0)
                           (text_or "(no remedy recorded)" result.(x_remedy)) (Some unit_id) now q in
          (match r with Ok (_, a) => a | Err _ => None end, q)
    | _ => (None, q)
    end in
  let report := mkReport result.(x_exit_code) result.(x_gate_exit_code) result.(x_input_key)
                  result.(x_retryable) result.(x_remedy) result.(x_head_sha) result.(x_result_branch)
                  result.(x_result_sha) result.(x_log_path) in
  let '(r, q) := record_result escalation unit_id owner generation result.(x_outcome) report now q in
  (option_list storm ++ match r with Ok y => option_list y.(y_alert) | Err _ => [] end, q).
End record.
