(* ===== verification/WorkWorkerSpec.v ===== *)
(** * WorkWorkerSpec: what the worker promises *)

From Stdlib Require Import Ascii QArith Qround.
From stdpp Require Import pretty.
From S2P Require Import Prelude PyString PyRegex PyFnmatch PathContainment PyYaml ProtectedPaths ProtectedPathsSpec.
From S2P Require Import Records RiskGovernance RiskGovernanceSpec WorkTree WorkTreeSpec WorkQueueSchema WorkQueue.
From S2P Require Import WorkQueueInv WorkQueueSteps WorkQueueSpec WorkWorker.
Open Scope Z_scope.

(** ** Scope globs *)

(** What a list of pattern segments admits. *)
Inductive path_glob : list string → list string → Prop :=
  | pg_nil : path_glob [] []
  | pg_tail t : path_glob ["**"] t
  | pg_deep p ps t1 t2 : path_glob (p :: ps) t2 → path_glob ("**" :: p :: ps) (t1 ++ t2)
  | pg_segment p ps t ts :
      p ≠ "**" → glob (glob_tokens p) t → path_glob ps ts → path_glob (p :: ps) (t :: ts).

Lemma walk_deep p ps t :
  walk ("**" :: p :: ps) t = true ↔ ∃ t1 t2, t = t1 ++ t2 ∧ walk (p :: ps) t2 = true.
Proof.
  change (walk ("**" :: p :: ps) t) with ((fix skip (t : list string) : bool :=
    walk (p :: ps) t || match t with [] => false | _ :: t => skip t end) t).
  induction t as [|x t IH]; rewrite orb_true_iff.
  - split.
    + intros [H|H]; [|done]. by exists [], [].
    + intros (t1 & t2 & [-> ->]%eq_sym%app_eq_nil & H). by left.
  - rewrite IH. split.
    + intros [H|(t1 & t2 & -> & H)]; [by exists [], (x :: t)|by exists (x :: t1), t2].
    + intros ([|y t1] & t2 & Heq & H); simplify_eq/=; [by left|right; eauto].
Qed.

Lemma walk_iff ps ts : walk ps ts = true ↔ path_glob ps ts.
Proof.
  revert ts. induction ps as [|p ps IH]; intros ts.
  - destruct ts; simpl; split; intros H; try constructor; try done; inversion H.
  - destruct (decide (p = "**")) as [->|Hp].
    + destruct ps as [|p' ps]; [split; [constructor|done]|]. rewrite walk_deep. split.
      * intros (t1 & t2 & -> & H%IH). by constructor.
      * inversion 1 as [| |? ? t1 t2|]; subst; [|done]. exists t1, t2. by rewrite IH.
    + simpl. rewrite bool_decide_eq_false_2 by done. destruct ts as [|t ts].
      * split; [done|inversion 1; congruence].
      * rewrite andb_true_iff, fnmatchcase_iff, IH. split.
        -- intros [? ?]. by constructor.
        -- inversion 1; subst; [done..|]. done.
Qed.

Definition expanded (pattern : string) : string :=
  if ends_with_slash pattern then pattern +:+ "**" else pattern.

(** A path is in scope exactly when one of the owned globs, split at slashes, admits its segments one
    by one, a [**] segment standing for any number of segments and a [*] staying inside its segment; the
    empty glob and [.] admit nothing. *)
Theorem path_in_scope_iff path owned :
  path_in_scope path owned = true ↔
  ∃ pattern, pattern ∈ owned ∧ pattern ≠ "" ∧ pattern ≠ "."
    ∧ path_glob (split slash_char (expanded pattern)) (split slash_char path).
Proof.
  unfold path_in_scope. rewrite existsb_exists. apply exist_proper. intros pattern.
  rewrite <-list_elem_of_In. unfold segment_match, expanded.
  case_bool_decide as H1; [naive_solver|]. case_bool_decide as H2; [naive_solver|]. simpl.
  rewrite walk_iff. naive_solver.
Qed.

(** A pattern without [**] admits only paths with as many segments. *)
Lemma path_glob_segments ps ts :
  path_glob ps ts → "**" ∉ ps → Forall2 (λ p t, glob (glob_tokens p) t) ps ts.
Proof. induction 1; intros Hn; [constructor| | |constructor; [done|]]; set_solver. Qed.

(** ** Fingerprints *)

Lemma pretty_no_US (n : nat) : has_char US (pretty n) = false.
Proof. by apply pretty_no_char. Qed.

Lemma feed_inj k1 k2 p1 p2 r1 r2 :
  has_char US k1 = false → has_char US k2 = false →
  feed k1 p1 +:+ r1 = feed k2 p2 +:+ r2 → k1 = k2 ∧ p1 = p2 ∧ r1 = r2.
Proof.
  intros H1 H2. unfold feed.
  repeat (rewrite ?string_app_assoc, ?string_app_cons).
  intros [-> Heq]%app_sep_inj; [|done..]. apply app_sep_inj in Heq as [Hlen Heq]; [|apply pretty_no_US..].
  apply (inj pretty) in Hlen. apply app_length_inj in Heq as [-> ->]; done.
Qed.

Lemma known_kind_no_US k : k ∈ KNOWN_KINDS → has_char US k = false.
Proof. unfold KNOWN_KINDS. intros H. repeat (apply elem_of_cons in H as [->|H]; [done|]). by apply not_elem_of_nil in H. Qed.

(** The bytes hashed for an input determine its entries, kinds and payloads: no two different lists of
    entries feed the hash the same bytes, whatever the payloads contain. *)
Theorem fingerprint_unambiguous l1 l2 :
  Forall (λ e, e.1 ∈ KNOWN_KINDS) l1 → Forall (λ e, e.1 ∈ KNOWN_KINDS) l2 →
  hashed l1 = hashed l2 → l1 = l2.
Proof.
  unfold hashed. intros H1. revert l2.
  assert (Hne : ∀ e l, String.concat "" (map (λ e, feed e.1 e.2) (e :: l)) ≠ "").
  { intros [k p] l. cbn [map fst snd]. rewrite concat_cons. by destruct k. }
  induction H1 as [|[k p] l1 Hk _ IH]; intros [|[k' p'] l2] H2 Heq.
  - done.
  - by destruct (Hne (k', p') l2).
  - by destruct (Hne (k, p) l1).
  - apply Forall_cons in H2 as [Hk' H2]. cbn [map fst snd] in Heq. rewrite !concat_cons in Heq.
    apply feed_inj in Heq as (-> & -> & Heq); [|by apply known_kind_no_US..]. f_equal. by apply IH.
Qed.

(** ** Polling *)

Section polling.
Context (rnd : Q → Q).
Hypothesis rnd_mono : ∀ x y, (x <= y)%Q → (rnd x <= rnd y)%Q.
Hypothesis rnd_exact : ∀ n, 0 ≤ n ≤ 60 → (rnd (inject_Z n) == inject_Z n)%Q.
Hypothesis rnd_span : (0 < rnd (1 - rnd (3 # 10)))%Q.

Lemma rnd_proper x y : (x == y)%Q → (rnd x == rnd y)%Q.
Proof. intros H. apply Qle_antisym; apply rnd_mono; rewrite H; apply Qle_refl. Qed.

Lemma rnd_ge n x : 0 ≤ n ≤ 60 → (inject_Z n <= x)%Q → (inject_Z n <= rnd x)%Q.
Proof. intros Hn Hx. rewrite <-(rnd_exact n Hn). by apply rnd_mono. Qed.
Lemma rnd_le n x : 0 ≤ n ≤ 60 → (x <= inject_Z n)%Q → (rnd x <= inject_Z n)%Q.
Proof. intros Hn Hx. rewrite <-(rnd_exact n Hn). by apply rnd_mono. Qed.

(** The delay between the two ends. *)
Definition ramp (r : Q) : Q :=
  rnd (5 + rnd (rnd (rnd (r - rnd (3 # 10)) / rnd (1 - rnd (3 # 10))) * rnd (60 - 5)))%Q.

Lemma ramp_mono r r' : (r <= r')%Q → (ramp r <= ramp r')%Q.
Proof.
  intros Hr. unfold ramp. apply rnd_mono, Qplus_le_r, rnd_mono, Qmult_le_compat_r.
  - apply rnd_mono. unfold Qdiv. apply Qmult_le_compat_r.
    + apply rnd_mono. unfold Qminus. by apply Qplus_le_l.
    + apply Qlt_le_weak, Qinv_lt_0_compat, rnd_span.
  - apply (rnd_ge 0); [lia|]. discriminate.
Qed.

Lemma ramp_bounds r : (rnd (3 # 10) <= r)%Q → (r <= 1)%Q → (5 <= ramp r <= 60)%Q.
Proof.
  intros Hlo Hhi.
  assert (0 <= rnd (r - rnd (3 # 10)))%Q as H0.
  { apply (rnd_ge 0); [lia|]. by apply Qle_minus_iff in Hlo. }
  assert (rnd (r - rnd (3 # 10)) <= rnd (1 - rnd (3 # 10)))%Q as H1.
  { apply rnd_mono. unfold Qminus. by apply Qplus_le_l. }
  set (span := (rnd (rnd (r - rnd (3 # 10)) / rnd (1 - rnd (3 # 10))))%Q).
  assert (0 <= span <= 1)%Q as [Hs0 Hs1].
  { split.
    - apply (rnd_ge 0); [lia|]. apply Qle_shift_div_l; [apply rnd_span|]. by rewrite Qmult_0_l.
    - apply (rnd_le 1); [lia|]. apply Qle_shift_div_r; [apply rnd_span|]. by rewrite Qmult_1_l. }
  assert (rnd (60 - 5) == 55)%Q as H55 by (rewrite (rnd_proper (60 - 5)%Q (inject_Z 55)); [apply (rnd_exact 55); lia|done]).
  assert (0 <= rnd (span * rnd (60 - 5)) <= 55)%Q as [Hm0 Hm1].
  { split.
    - apply (rnd_ge 0); [lia|]. apply Qmult_le_0_compat; [done|]. rewrite H55. discriminate.
    - apply (rnd_le 55); [lia|]. rewrite H55. change (inject_Z 55) with 55%Q.
      rewrite <-(Qmult_1_l 55) at 2. apply Qmult_le_compat_r; [done|discriminate]. }
  unfold ramp. fold span. split.
  - apply (rnd_ge 5); [lia|]. rewrite <-(Qplus_0_r (inject_Z 5)). by apply Qplus_le_r.
  - apply (rnd_le 60); [lia|]. apply Qle_trans with (5 + 55)%Q; [by apply Qplus_le_r|discriminate].
Qed.

Lemma idle_cases ratio :
  idle_poll_delay_s rnd ratio = match ratio with
  | None => 5%Q
  | Some r => if Qle_bool r (rnd (3 # 10)) then 5%Q else if Qle_bool 1 r then 60%Q else ramp r
  end.
Proof. done. Qed.

(** The wait after an empty claim is always between 5 and 60 seconds and never shorter on a busier
    machine, however the double operations round; an unmeasured load waits the minimum. *)
Theorem idle_delay_bounded_monotone ratio ratio' :
  (5 <= idle_poll_delay_s rnd ratio <= 60)%Q
  ∧ (∀ r r', ratio = Some r → ratio' = Some r' → (r <= r')%Q →
       (idle_poll_delay_s rnd ratio <= idle_poll_delay_s rnd ratio')%Q)
  ∧ (ratio = None → idle_poll_delay_s rnd ratio = 5%Q).
Proof.
  assert (Hb : ∀ x, (5 <= idle_poll_delay_s rnd x <= 60)%Q).
  { intros x. rewrite idle_cases. destruct x as [r|]; [|by split].
    destruct (Qle_bool r _) eqn:E1; [by split|]. destruct (Qle_bool 1 r) eqn:E2; [by split|].
    apply ramp_bounds; apply Qlt_le_weak, Qnot_le_lt; rewrite <-Qle_bool_iff; congruence. }
  split; [apply Hb|]. split; [|by intros ->].
  intros r r' -> -> Hr. pose proof (Hb (Some r)) as [_ Hhi]. pose proof (Hb (Some r')) as [Hlo _].
  rewrite !idle_cases in *. destruct (Qle_bool r (rnd _)) eqn:E1; [done|].
  destruct (Qle_bool r' (rnd _)) eqn:E1'.
  { apply Qle_bool_iff in E1'. assert (Qle_bool r (rnd (3 # 10)) = true); [|congruence].
    apply Qle_bool_iff. by eapply Qle_trans. }
  destruct (Qle_bool 1 r') eqn:E2'; [done|].
  destruct (Qle_bool 1 r) eqn:E2.
  { apply Qle_bool_iff in E2. assert (Qle_bool 1 r' = true); [|congruence].
    apply Qle_bool_iff. by eapply Qle_trans. }
  by apply ramp_mono.
Qed.
End polling.

(** Rounding down to sixtieths of a second, for instance. *)
Definition coarse (x : Q) : Q := Qfloor (x * 60) # 60.
Lemma coarse_mono x y : (x <= y)%Q → (coarse x <= coarse y)%Q.
Proof.
  intros H. change (Qfloor (x * 60) * 60 ≤ Qfloor (y * 60) * 60). apply Z.mul_le_mono_nonneg_r; [done|].
  apply Qfloor_resp_le. by apply Qmult_le_compat_r.
Qed.
Lemma coarse_exact n : 0 ≤ n ≤ 60 → (coarse (inject_Z n) == inject_Z n)%Q.
Proof.
  intros _. unfold coarse. assert (inject_Z n * 60 == inject_Z (n * 60))%Q as H by (unfold Qeq; simpl; lia).
  rewrite (Qfloor_comp _ _ H), Qfloor_Z. unfold Qeq. simpl. lia.
Qed.
Lemma idle_delay_bounded_monotone_witness :
  (idle_poll_delay_s coarse (Some (1 # 2)) <= idle_poll_delay_s coarse (Some (4 # 5)))%Q.
Proof.
  refine (proj1 (proj2 (idle_delay_bounded_monotone coarse coarse_mono coarse_exact _ (Some (1 # 2)) (Some (4 # 5))))
            _ _ eq_refl eq_refl _); [reflexivity|discriminate].
Defined.

(** ** What a worker may write *)

(** The scope check admits a tree exactly when it was observed and every observed path is the unit's. *)
Lemma scope_check_None registry owned observed :
  scope_check registry owned observed = None ↔
  observed.(observed_source) ≠ "unobserved"
  ∧ ∀ p, p ≠ "" → (∃ q, q ∈ observed.(observed_paths) ∧ q ≠ "" ∧ norm_path q = p) →
         p ∈ observed.(observed_paths) ∧ path_in_scope p owned = true.
Proof.
  unfold scope_check. set (entries := map _ _). set (declared := List.filter _ _).
  destruct (scope_verdict_exact registry (Some declared) [] entries observed 1 "enforce") as (_ & Hmiss & Hact).
  set (v := scope_verdict _ _ _ _ _ _ _) in *.
  assert (v.(v_degraded) = bool_decide (observed.(observed_source) = "unobserved")) as -> by done.
  destruct (bool_decide_reflect (observed.(observed_source) = "unobserved")); [split; [done|by intros [? _]]|].
  assert (Hdecl : ∀ p, admitted (Some declared) [] p ↔ p ∈ observed.(observed_paths) ∧ path_in_scope p owned = true).
  { intros p. unfold admitted, declared. rewrite (elem_of_select (λ p, path_in_scope p owned)). split.
    - intros [?|(r & ?%not_elem_of_nil & _)]; done.
    - by left. }
  assert (Hpaths : ∀ p, p ∈ v.(v_actual) ↔ p ≠ "" ∧ ∃ q, q ∈ observed.(observed_paths) ∧ q ≠ "" ∧ norm_path q = p).
  { intros p. rewrite Hact. apply and_iff_compat_l. split.
    - intros (e & q & (path & -> & Hp)%list_elem_of_fmap & Hn & Hq & [->|?]); [|done]. eauto.
    - intros (q & Hq & Hne & <-). eexists _, q. split; [apply list_elem_of_fmap; eauto|]. split_and!; eauto. }
  transitivity (∀ p, p ∈ v.(v_actual) → admitted (Some declared) [] p).
  - split.
    + intros H p Hp. destruct v.(v_missing) as [|m l] eqn:E; [|done].
      apply Hdecl, dec_stable. rewrite <-Hdecl. intros Hn. assert (p ∈ []) as []%not_elem_of_nil. by apply Hmiss.
    + intros Hall. destruct v.(v_missing) as [|m l] eqn:E; [done|]. exfalso.
      assert (m ∈ v.(v_actual) ∧ ¬ admitted (Some declared) [] m) as [Hm Hn] by (apply Hmiss; set_solver).
      by apply Hn, Hall.
  - setoid_rewrite Hpaths. setoid_rewrite Hdecl. naive_solver.
Qed.

(** When git names the changed paths in canonical form, the worker's scope check admits a tree exactly when
    every changed path, the sources of renames and copies included, is admitted by one of the unit's owned
    globs; a tree that could not be read is never admitted. *)
Theorem writes_confined registry owned name_status path_diff realpath root base :
  (∀ text q, name_status = Some text → changed text q → norm_path q = q ∧ q ≠ "") →
  (∀ q, is_Some (path_diff q)) →
  scope_check registry owned (observe_working_tree name_status path_diff realpath root base) = None
  ↔ ∃ text, name_status = Some text ∧ ∀ q, changed text q → path_in_scope q owned = true.
Proof.
  intros Hcanon Hdiff. rewrite scope_check_None. unfold observe_working_tree.
  destruct name_status as [text|]; simpl.
  2: { split; [by intros [? _]|by intros (? & ? & _)]. }
  destruct (entries_total text path_diff realpath root Hdiff) as [entries Hread].
  unfold entries_from_index in Hread. simpl in Hread. rewrite Hread. simpl.
  assert (Hobs : ∀ p, p ∈ dedupe (entries ≫= truthy_paths) ↔ changed text p).
  { intros p. rewrite actual_paths. pose proof (named_changed text path_diff realpath root entries Hread
      (λ q, Hcanon text q eq_refl)) as Hent. split.
    - intros (Hp & e & q & He & <- & Hq & Hqe). assert (changed text q) as Hch by (apply Hent; eauto).
      by rewrite (proj1 (Hcanon text q eq_refl Hch)).
    - intros Hch. destruct (Hcanon text p eq_refl Hch) as [Hn Hp]. split; [done|].
      apply Hent in Hch as (e & He & Hpe); [|done]. exists e, p. by split_and!. }
  setoid_rewrite Hobs. split.
  - intros [_ H]. exists text. split; [done|]. intros q Hq. destruct (Hcanon text q eq_refl Hq) as [Hn Hne].
    apply H; [done|]. by exists q.
  - intros (text' & [= <-] & H). split; [done|]. intros p Hp (q & Hq & Hne & <-).
    rewrite (proj1 (Hcanon text q eq_refl Hq)). auto.
Qed.

Lemma writes_confined_witness :
  scope_check floor_registry ["src/**"]
    (observe_working_tree (Some demo_status) (λ _, Some "") Some "/w" "main") = None.
Proof.
  apply (writes_confined floor_registry ["src/**"] (Some demo_status) (λ _, Some "") Some "/w" "main").
  - intros text q Heq. injection Heq as <-. apply demo_tree_canonical.
  - intros q. exists "". reflexivity.
  - exists demo_status. split; [reflexivity|]. intros q Hq%changed_list_spec%list_elem_of_In. revert q Hq.
    apply forallb_forall. vm_compute. reflexivity.
Defined.

(** ** Verdicts *)

(** No class the worker can name on its own, or read in a log, is a pass or a defect. *)
Definition not_graded (outcome : string) : Prop := outcome ≠ "pass" ∧ outcome ≠ "candidate-defect".

Lemma classify_log_class text s : classify_log text = Some s → not_graded s.(g_outcome).
Proof.
  unfold classify_log. case_bool_decide; [done|]. intros ([re g] & Hf & ->)%fmap_Some.
  apply List.find_some in Hf as [Hin _]. unfold SIGNATURES in Hin. simpl in Hin.
  repeat (destruct Hin as [[= _ <-]|Hin]; [by split|]). done.
Qed.

Lemma refine_class c n : (c, n) ∈ REFINE → not_graded c.
Proof.
  intros Hin%list_elem_of_In. simpl in Hin. repeat (destruct Hin as [[= <- _]|Hin]; [by split|]). done.
Qed.

(** The verdict on an acceptance run comes from the process exit code alone: it is a pass exactly for exit 0 and a
    candidate defect exactly for exit 1, provided no known fault signature is in the log; whatever class and remedy the
    gate prints, they never turn a failure into a pass, nor an instrument failure into a defect. *)
Theorem verdict_trichotomy rc gate_rc gate_class log gate_remedy :
  let r := verdict_of rc gate_rc gate_class log gate_remedy in
  (r.(x_outcome) = "pass" ↔ rc = 0 ∧ classify_log log = None)
  ∧ (r.(x_outcome) = "candidate-defect" ↔ rc = 1 ∧ classify_log log = None)
  ∧ r.(x_exit_code) = Some rc ∧ r.(x_gate_exit_code) = gate_rc.
Proof.
  unfold verdict_of. set (p := match gate_class ≫= _ with Some _ => _ | None => _ end).
  assert (not_graded p.1) as Hp.
  { subst p. destruct (gate_class ≫= _) as [[c n]|] eqn:E; [|by split].
    destruct gate_class as [g|]; [|done]. apply List.find_some in E as [E _]. by eapply refine_class, list_elem_of_In. }
  destruct p as [c n]. destruct Hp as [Hp1 Hp2]. simpl in Hp1, Hp2.
  destruct (classify_log log) as [s|] eqn:El.
  - apply classify_log_class in El as [H1 H2].
    destruct (rc =? 0); [|destruct (rc =? 1)]; simpl; split_and!; try done; naive_solver.
  - destruct (Z.eqb_spec rc 0); [|destruct (Z.eqb_spec rc 1)]; simpl; subst; split_and!; try done; naive_solver.
Qed.

(** ** Passing *)

Definition outcome_of (e : inner_end) : string :=
  match e with Returned r => r.(x_outcome) | Faulted f => f.(f_outcome) | Raised _ => "instrument-error" end.

Lemma settle_outcome e lost log :
  (settle e lost log).(x_outcome) = if lost then "lease-lost" else outcome_of e.
Proof. unfold settle. destruct lost; [done|]. by destruct e. Qed.

Lemma git_fault_class step res : not_graded (git_fault step res).(f_outcome).
Proof.
  unfold git_fault. destruct (classify_log _) eqn:E; [|by split]. by apply classify_log_class in E.
Qed.

Lemma check_ledger_class cap iso row r : check_ledger cap iso row = Some r → not_graded r.(x_outcome).
Proof.
  unfold check_ledger. destruct row as [row|]; [|done].
  destruct (cap <=? _); [by intros [= <-]|]. destruct (_ && _); [by intros [= <-]|done].
Qed.

Lemma scope_check_class registry owned observed r :
  scope_check registry owned observed = Some r → r.(x_outcome) ≠ "pass".
Proof.
  unfold scope_check. destruct (v_degraded _); [by intros [= <-]|]. by destruct (v_missing _); [|intros [= <-]].
Qed.

Lemma load_class load cores s : classify_start_load load cores = Some s → s.(g_outcome) ≠ "pass".
Proof.
  unfold classify_start_load. destruct load, cores; try done. destruct (_ <=? 0); [done|].
  destruct (negb _); [by intros [= <-]|done].
Qed.

Lemma push_outcome branch w r :
  r.(x_outcome) = "pass" →
  (push branch w r).(x_outcome) = "pass" ↔
  w.(o_push_mirror).(returncode) = 0 ∧ (w.(o_upstream) = true → w.(o_push_upstream).(returncode) = 0).
Proof.
  intros Hr. unfold push.
  destruct (Z.eqb_spec w.(o_push_mirror).(returncode) 0) as [H1|H1]; simpl.
  2: { pose proof (git_fault_class "push to mirror" w.(o_push_mirror)) as [? _]. naive_solver. }
  destruct (o_upstream w); simpl; [|naive_solver].
  destruct (Z.eqb_spec w.(o_push_upstream).(returncode) 0) as [H2|H2]; simpl; [naive_solver|].
  pose proof (git_fault_class "push to origin" w.(o_push_upstream)) as [? _]. naive_solver.
Qed.

Section passing.
Context (registry : ProtectedPathsRegistry) (cap : Z) (iso : timestamp → string) (unit : WorkUnit) (log : string).

(** The acceptance run accepted, in scope, with a clean log, and the branch was pushed. *)
Definition graded_pass (w : World) (has_agent_turn : bool) : Prop :=
  w.(o_acceptance) = Exited 0 ∧ w.(o_lost_after_acceptance) = false
  ∧ (has_agent_turn = false → scope_check registry unit.(u_owned_paths) w.(o_observed) = None)
  ∧ classify_log w.(o_log_tail) = None
  ∧ w.(o_push_mirror).(returncode) = 0 ∧ (w.(o_upstream) = true → w.(o_push_upstream).(returncode) = 0).

Lemma grade_pass w has key : outcome_of (grade registry unit log w has key) = "pass" ↔ graded_pass w has.
Proof.
  unfold grade, graded_pass. set (gate := if gated unit then _ else _).
  destruct (o_acceptance w) as [| | | |rc] eqn:Ea; cbn [start_failure outcome_of]; try naive_solver.
  { destruct gate as [[g c] t], (o_lost_after_acceptance w); cbn; naive_solver. }
  destruct gate as [[g c] t]. destruct (o_lost_after_acceptance w); cbn [outcome_of]; [cbn; naive_solver|].
  destruct (if has then None else _) as [v|] eqn:Es; cbn [outcome_of].
  - destruct has; [done|]. pose proof (scope_check_class _ _ _ _ Es). cbn. naive_solver.
  - assert (Hs : has = false → scope_check registry unit.(u_owned_paths) w.(o_observed) = None) by by destruct has.
    destruct (verdict_trichotomy rc g c w.(o_log_tail) t) as (Hp & _).
    match goal with |- context [logged log ?x] => set (r := logged log x) end.
    change (x_outcome (verdict_of _ _ _ _ _)) with r.(x_outcome) in Hp.
    destruct (bool_decide_reflect (x_outcome r = "pass")) as [Hr|Hr].
    + rewrite push_outcome by done. apply Hp in Hr as [-> ?]. naive_solver.
    + split; [done|]. intros ([= ->] & _ & _ & Hc & _). destruct Hr. by apply Hp.
Qed.

(** The agent turn, if there is one, produced a tree whose input is admitted. *)
Definition after_pass (w : World) (has : bool) (key : option string) : Prop :=
  (has = true → ∃ rc, w.(o_agent) = Exited rc)
  ∧ (key = None → ∃ key, w.(o_key_live) = Ok key ∧ check_ledger cap iso (w.(o_ledger) key) = None
                      ∧ scope_check registry unit.(u_owned_paths) w.(o_observed) = None)
  ∧ graded_pass w has.

Lemma after_agent_pass w has key :
  start_failure "" w.(o_agent) = None ∨ has = false →
  outcome_of (after_agent cap iso registry unit log w has key) = "pass"
  ↔ w.(o_lost_after_agent) = false ∧ after_pass w has key.
Proof.
  intros Hstart. unfold after_agent, after_pass.
  destruct (o_lost_after_agent w); cbn [outcome_of]; [cbn; naive_solver|].
  destruct (if has then o_agent w else Exited 0) as [| | | |rc] eqn:Ea.
  1-3: destruct has; [rewrite Ea in Hstart; by destruct Hstart|done].
  - destruct has; [|done]. cbn. split; [done|]. intros (_ & H & _). destruct (H eq_refl). congruence.
  - assert (has = true → ∃ rc, o_agent w = Exited rc) as Hag by (destruct has; naive_solver).
    destruct key as [key|]; [rewrite grade_pass; naive_solver|].
    destruct (o_key_live w) as [key|e]; cbn [outcome_of]; [|naive_solver].
    destruct (check_ledger cap iso (o_ledger w key)) as [r|] eqn:El; cbn [outcome_of].
    { pose proof (check_ledger_class _ _ _ _ El) as [? _]. cbn. naive_solver. }
    destruct (scope_check _ _ _) as [v|] eqn:Es; cbn [outcome_of].
    { pose proof (scope_check_class _ _ _ _ Es). cbn. naive_solver. }
    rewrite grade_pass. naive_solver.
Qed.

Lemma clone_pass w has key :
  outcome_of (clone_and_run cap iso registry unit log w has key) = "pass"
  ↔ classify_start_load w.(o_start_load) w.(o_perf_cores) = None ∧ w.(o_clone) = None
    ∧ w.(o_lost_after_agent) = false ∧ after_pass w has key.
Proof.
  unfold clone_and_run.
  destruct (classify_start_load _ _) as [s|] eqn:El; cbn [outcome_of].
  { apply load_class in El. cbn. naive_solver. }
  destruct (o_clone w) as [[step res]|]; cbn [outcome_of].
  { pose proof (git_fault_class step res) as [? _]. naive_solver. }
  destruct (if has then start_failure _ _ else None) as [e|] eqn:Es.
  - destruct has; [|done]. unfold after_pass. destruct (o_agent w); simplify_eq/=; naive_solver.
  - rewrite after_agent_pass; [naive_solver|]. destruct has; [|by right]. left. by destruct (o_agent w).
Qed.

(** What a pass takes, and nothing else. *)
Definition accepted (w : World) : Prop :=
  ∃ (has : bool) (key : string),
    w.(o_profiles) !! unit.(u_agent_profile) = Some has ∧ w.(o_mirror) = MirrorReady
    ∧ (if has then w.(o_key_live) else w.(o_key_pinned)) = Ok key
    ∧ check_ledger cap iso (w.(o_ledger) key) = None
    ∧ classify_start_load w.(o_start_load) w.(o_perf_cores) = None ∧ w.(o_clone) = None
    ∧ (has = true → ∃ rc, w.(o_agent) = Exited rc) ∧ w.(o_lost_after_agent) = false
    ∧ scope_check registry unit.(u_owned_paths) w.(o_observed) = None
    ∧ graded_pass w has.

(** A unit passes exactly when its lease was held to the end, its profile and mirror were usable, its
    input was not refused before, the machine was not overloaded, every step ran, every change stayed
    in the unit's scope, the acceptance command exited 0 with no known fault in its log, and the
    branch reached the mirror and, if there is one, the upstream. *)
Theorem pass_exact w lost :
  (settle (execute_inner cap iso registry unit log w) lost log).(x_outcome) = "pass" ↔ lost = false ∧ accepted w.
Proof.
  rewrite settle_outcome. destruct lost; [naive_solver|]. transitivity (accepted w); [|naive_solver].
  unfold execute_inner, profile_of, accepted, ensure_mirror.
  destruct (o_profiles w !! _) as [has|]; cbn [outcome_of f_outcome]; [|naive_solver].
  destruct (o_mirror w) eqn:Em; cbn [outcome_of];
    try (match goal with |- context [git_fault ?s ?r] => pose proof (git_fault_class s r) as [? _] end; naive_solver);
    try naive_solver.
  destruct has.
  - rewrite clone_pass. unfold after_pass. naive_solver.
  - destruct (o_key_pinned w) as [key|e]; cbn [outcome_of]; [|naive_solver].
    destruct (check_ledger cap iso (o_ledger w key)) as [r|] eqn:El; cbn [outcome_of].
    + pose proof (check_ledger_class _ _ _ _ El) as [? _]. cbn. naive_solver.
    + rewrite clone_pass. cbn. unfold after_pass, graded_pass. naive_solver.
Qed.
End passing.

(** ** Concrete runs *)

Lemma fingerprint_unambiguous_witness :
  ("cmd", "a") :: [("gate", "b")] = ("cmd", "a") :: [("gate", "b")]
  ∧ hashed [("cmd", "a" +:+ feed "gate" "b")] ≠ hashed [("cmd", "a"); ("gate", "b")].
Proof.
  split.
  - apply (fingerprint_unambiguous [("cmd", "a"); ("gate", "b")]); [| |reflexivity];
      (repeat constructor; apply (bool_decide_unpack _); vm_compute; exact I).
  - vm_compute. discriminate.
Defined.

Definition clean_process : Process := mkProcess 0 "" "".
Definition clean_world : World :=
  mkWorld {["codex" := true]} MirrorReady (Ok "k") (Ok "k1") (λ _, None) (Some 8) (Some (3 # 2)) None
    (Some "c0") (Exited 0) false (observe_working_tree (Some demo_status) (λ _, Some "") Some "/w" "c0") (Exited 0)
    (None, None, None) "all tests passed" false (Some "c1") clean_process true clean_process.
Definition demo_unit : WorkUnit := new_unit "wq_1" "k1" "0123" STANDARD demo_submit 0.

Example execution_demo :
  (λ w, (settle (execute_inner 5 pretty floor_registry demo_unit "/log" w) false "/log").(x_outcome)) <$>
    [clean_world;
     mkWorld {["codex" := true]} MirrorReady (Ok "k") (Ok "k1") (λ _, None) (Some 8) (Some (33 # 1)) None
       (Some "c0") (Exited 0) false (mkObserved "unobserved" None None [] ∅) (Exited 0)
       (None, None, None) "" false None clean_process true clean_process;
     mkWorld {["codex" := true]} MirrorReady (Ok "k") (Ok "k1") (λ _, None) (Some 8) (Some (3 # 2)) None
       (Some "c0") (Exited 0) false (mkObserved "unobserved" None None [] ∅) (Exited 0)
       (None, None, None) "" false None clean_process true clean_process;
     mkWorld {["codex" := true]} MirrorReady (Ok "k") (Ok "k1") (λ _, None) (Some 8) (Some (3 # 2)) None
       (Some "c0") (Exited 0) false (mkObserved "git-index" None None ["src/a.py"] ∅) (Exited 0)
       (None, None, None) "server said 429, slow down" false None clean_process true clean_process]
  = ["pass"; "contention-flake"; "instrument-error"; "environment"].
Proof. vm_compute. reflexivity. Qed.

(** A worker whose lease was reclaimed still writes the refusal ledger: its result is refused and the unit
    keeps its state, but the row of its input is there afterwards. *)
Definition zombie_result : UnitResult :=
  plain_result "candidate-defect" (Some 0) (Some "fix it") <| x_input_key := Some "key" |>.
Example zombie_touches_ledger :
  let after := (record ∅ "wq_1" "m1:m1:1:aa" 1 "raw" zombie_result 215 demo_second).2 in
  (record_result ∅ "wq_1" "m1:m1:1:aa" 1 "candidate-defect" (mkReport None None (Some "key") None None None None None None)
     215 demo_second).1 = Err LeaseLost
  ∧ demo_second.(q_refusals) = [] ∧ map r_refusal_class after.(q_refusals) = ["candidate-defect"].
Proof. vm_compute. by split_and!. Qed.
