(* ===== verification/WorkQueueLedger.v ===== *)
(** * WorkQueueLedger: retries that end, refusals that stay, roles that are revoked

    The second group of properties of the work queue: bounds on what a unit can
    consume, the refusal ledger over whole runs, and who may claim. *)

From Stdlib Require Import Ascii QArith.
From stdpp Require Import pretty.
From S2P Require Import Prelude PyString Records WorkQueueSchema WorkQueue WorkQueueInv WorkQueueSteps WorkQueueSpec.
From S2P Require Import WorkWorker.
Open Scope Z_scope.

(** ** The type of a reachable queue *)


(** The unit a call names. *)
Definition named (c : call) : option string :=
  match c with
  | CallHeartbeat i _ _ | CallResult i _ _ _ _ | CallPark i _ _ | CallRequeue i | CallUnpark i _ | CallCancel i => Some i
  | _ => None
  end.
Definition untouched (u : WorkUnit) (q q' : WorkQueue) : Prop :=
  u ∈ q'.(q_units) ∧ mine u.(u_id) q'.(q_attempts) = mine u.(u_id) q.(q_attempts).

Lemma fits_named c u lab : label_fits c u lab →
  lab = Idle ∨ c = CallReap ∨ (∃ m w l r, c = CallClaim m w l r) ∨ named c = Some u.(u_id).
Proof. destruct lab; cbn; [by left|..]; right; naive_solver. Qed.

Lemma named_alone esc now c q u :
  queue_ok q → u ∈ q.(q_units) → c ≠ CallReap → (∀ m w l r, c ≠ CallClaim m w l r) → named c ≠ Some u.(u_id) →
  untouched u q (exec esc now c q).2.
Proof.
  intros Hq Hu Hr Hc Hn. destruct (exec_refines esc now c q u Hq Hu) as (lab & u' & Hs & Hu' & Hfit & _).
  destruct (fits_named c u lab Hfit) as [->|[?|[(? & ? & ? & ? & ?)|?]]]; [|naive_solver..].
  inversion Hs; subst. by split.
Qed.
Lemma claim_alone m w l r now q u v :
  queue_ok q → u ∈ q.(q_units) → v ∈ q.(q_units) → u.(u_id) ≠ v.(u_id) →
  untouched u q (claim m w l r now q).2 ∨ untouched v q (claim m w l r now q).2.
Proof.
  intros Hq Hu Hv Hne. rewrite claim_eq by done. destruct (claim_choice m l r now q) as [x|] eqn:E; [|by left; split].
  assert (∀ y, y ∈ q.(q_units) → y.(u_id) ≠ x.(u_id) → untouched y q (claim_state m w now x q)) as Hy.
  { intros y Hy Hyx. split.
    - apply elem_of_update_where. exists y. split; [done|]. destruct (unit_is x.(u_id) y) eqn:Ei; [|done].
      by apply unit_is_spec in Ei.
    - simpl. rewrite mine_app_new. unfold attempt_of. simpl. rewrite bool_decide_eq_false_2 by done.
      rewrite app_nil_r. by apply close_open_other. }
  cbn [snd]. destruct (decide (u.(u_id) = x.(u_id))); [right|left]; apply Hy; congruence.
Qed.

(** C29: Every call of the store is, for each unit, one step of the unit's life cycle, and the step is the call's: the
    claim of an admitted worker of a claimable unit, a heartbeat or a result by the owner under the current generation
    of a unit that is held (with the outcome and the report of the call), a reap of an expired unit, a park, requeue,
    amnesty or cancellation that names it (a requeue or amnesty of a unit that is parked), or nothing.  A call other
    than the reap changes at most one unit; and no unit appears but a fresh one by an enqueue, queued without attempts. *)
Theorem calls_refine_lifecycle esc now c q :
  queue_ok q →
  let q' := (exec esc now c q).2 in
  (∀ u, u ∈ q.(q_units) →
     ∃ lab u', u' ∈ q'.(q_units) ∧ u'.(u_id) = u.(u_id)
       ∧ unit_step esc now lab u (mine u.(u_id) q.(q_attempts)) u' (mine u.(u_id) q'.(q_attempts))
       ∧ label_fits c u lab)
  ∧ (c ≠ CallReap → ∀ u v, u ∈ q.(q_units) → v ∈ q.(q_units) → u.(u_id) ≠ v.(u_id) →
       untouched u q q' ∨ untouched v q q')
  ∧ (∀ u', u' ∈ q'.(q_units) → u'.(u_id) ∉ map u_id q.(q_units) →
       (∃ s fresh, c = CallEnqueue s fresh) ∧ u'.(u_state) = QUEUED ∧ u'.(u_attempt) = 0
       ∧ mine u'.(u_id) q'.(q_attempts) = []).
Proof.
  intros Hq q'. split_and!.
  - intros u Hu. destruct (exec_refines esc now c q u Hq Hu) as (lab & u' & Hs & Hu' & Hfit & _).
    exists lab, u'. split_and!; try done. by apply (step_id _ _ _ _ _ _ _ Hs).
  - intros Hr u v Hu Hv Hne. unfold q'. destruct c; try done; try by apply claim_alone.
    all: match goal with
      | |- context [exec _ _ ?c _] => destruct (decide (named c = Some u.(u_id))) as [Hn|Hn];
          [right; apply named_alone; try done; cbn in *; congruence|left; by apply named_alone]
      end.
  - intros u' Hu' Hnew. destruct (exec_new esc now c q u' Hq Hu' Hnew) as (? & ? & _ & _ & _ & ?).
    split; [|done]. destruct c; try (exfalso; apply Hnew; erewrite <-exec_ids; [by apply list_elem_of_fmap_2|done|done]).
    by eexists _, _.
Qed.

Lemma calls_refine_lifecycle_witness :
  match get_unit "wq_1" demo_queue with
  | Some u => ∃ u', u' ∈ (exec ∅ 200 CallReap demo_queue).2.(q_units) ∧ u'.(u_id) = u.(u_id)
  | None => False end.
Proof.
  destruct (get_unit "wq_1" demo_queue) as [u|] eqn:E; [|vm_compute in E; discriminate].
  apply get_unit_Some in E as [Hu _].
  destruct (proj1 (calls_refine_lifecycle ∅ 200 CallReap demo_queue demo_queue_ok) u Hu) as (lab & u' & Hu' & Hid & _).
  exists u'. split; [exact Hu'|exact Hid].
Defined.

(** ** Retries end *)

(** A result that is neither a verdict nor a lost lease. *)
Definition excused_outcome (o : Outcome) : bool :=
  bool_decide (o ∈ INSTRUMENT_RETRY_OUTCOMES) || bool_decide (o ∈ [UNCHANGED_RETRY; STORM_PARKED]).
Definition excused (a : Attempt) : bool :=
  match a.(a_outcome) with Some o => excused_outcome o | None => false end.
(** A result some worker recorded, other than that it lost or abandoned the lease, which charges nothing. *)
Definition concluded (a : Attempt) : bool :=
  match a.(a_outcome) with Some o => negb (bool_decide (o ∈ [LEASE_LOST; ABANDONED])) | None => false end.
Definition live (u : WorkUnit) : bool := in_state QUEUED u || holds_lease_state u.

Lemma concluded_split l : (rowcount concluded l ≤ rowcount spent l + rowcount excused l)%nat.
Proof.
  unfold rowcount, select. induction l as [|a l IH]; [done|]. simpl. unfold concluded at 1, spent at 1, excused at 1.
  destruct (is_open a); simpl; destruct (a_outcome a) as [[]|]; simpl; lia.
Qed.

Lemma excused_close now l :
  (∀ a, a ∈ l → is_open a = true → a.(a_outcome) = None) → rowcount excused (close_all now l) = rowcount excused l.
Proof.
  unfold rowcount, close_all, update_where, select. induction l as [|a l IH]; intros Hl; [done|]. simpl.
  specialize (IH ltac:(intros b Hb; apply Hl; set_solver)). pose proof (Hl a ltac:(set_solver)) as Ha.
  destruct (is_open a); [|destruct (excused a); simpl; lia].
  assert (excused a = false ∧ excused (close_row now a) = false) as [-> ->]; [|done].
  unfold excused. simpl. by rewrite Ha.
Qed.

Lemma excused_result now o report l :
  (∀ a, a ∈ l → is_open a = true → a.(a_outcome) = None) →
  rowcount excused (update_where is_open (attempt_update o report now) l)
  = (rowcount excused l + if excused_outcome o then rowcount is_open l else 0)%nat.
Proof.
  unfold rowcount, update_where, select. induction l as [|a l IH]; intros Hl; [by destruct (excused_outcome o)|].
  simpl. specialize (IH ltac:(intros b Hb; apply Hl; set_solver)). pose proof (Hl a ltac:(set_solver)) as Ha.
  destruct (is_open a); simpl; [|destruct (excused a); simpl; rewrite IH; lia].
  assert (excused a = false ∧ excused (attempt_update o report now a) = excused_outcome o) as [-> ->].
  { unfold excused. simpl. by rewrite Ha. }
  destruct (excused_outcome o); simpl; rewrite IH; lia.
Qed.

(** A live unit has used as many instrument retries as it has excused results. *)
Definition retries (u : WorkUnit) (l : list Attempt) : Prop :=
  Z.of_nat (rowcount excused l) ≤ INSTRUMENT_RETRY_CAP + 1
  ∧ (live u = true → Z.of_nat (rowcount excused l) = u.(u_instrument_retries)).

Lemma plan_retries esc u o r rem now q :
  let v := plan_result esc u o r rem now q in
  v.(n_state) = QUEUED →
  v.(n_instrument_retries) = u.(u_instrument_retries) + (if excused_outcome o then 1 else 0).
Proof.
  intros v. subst v. unfold plan_result. destruct o; simpl; unfold park_plan; simpl;
    repeat (case_match; simpl in * ); intros; simplify_eq/=; lia.
Qed.

Lemma retries_step esc now lab u l u' l' :
  unit_ok l u → unit_step esc now lab u l u' l' → lab ≠ StepUnpark → lab ≠ StepRequeue →
  retries u l → retries u' l'.
Proof.
  intros Hok Hstep Hl1 Hl2 [Hcap Hlive]. pose proof (ok_retries _ _ Hok) as Hr.
  assert (Hopen : ∀ a, a ∈ l → is_open a = true → a.(a_outcome) = None) by apply (ok_open _ _ Hok).
  assert (Hheld : holds_lease_state u = true → live u = true) by (unfold live; by intros ->; rewrite orb_true_r).
  unfold retries in *.
  destruct Hstep as [| m w r u l Hc|u l Hh|u l o report q0 al Hh Hal|u l He|reason rem al u l Hal| | | |u l]; try done.
  - rewrite rowcount_app, excused_close by done. change (rowcount excused [new_attempt _ _ _ _ _ _]) with 0%nat.
    rewrite Nat.add_0_r. split; [done|]. intros _. apply Hlive. apply claimable_spec in Hc as (_ & _ & Hst).
    unfold live. destruct Hst as [Hst|[Hst _]].
    + unfold in_state. by rewrite Hst.
    + by rewrite Hst, orb_true_r.
  - rewrite excused_result by done. pose proof (held_open_count _ _ Hok Hh) as Hone.
    specialize (Hlive (Hheld Hh)).
    pose proof (plan_retries esc u o (p_retryable report) (p_remedy report) now q0) as Hp. simpl in Hp.
    pose proof (plan_released esc u o (p_retryable report) (p_remedy report) now q0) as [Hs1 Hs2].
    set (plan := plan_result _ _ _ _ _ _ _) in *. split; [destruct (excused_outcome o); lia|].
    intros Hlv. assert (n_state plan = QUEUED) as Hq.
    { unfold live, holds_lease_state, in_state, with_alert in Hlv. destruct al; simpl in Hlv;
        by destruct (n_state plan). }
    specialize (Hp Hq). unfold with_alert.
    destruct al; simpl; rewrite Hp; destruct (excused_outcome o); lia.
  - rewrite excused_close by done. split; [done|]. intros _.
    assert (u_instrument_retries (reap_unit (Z.of_nat (rowcount is_open l)) now u) = u.(u_instrument_retries)) as ->.
    { unfold reap_unit. by destruct (u_cancel_requested _). }
    apply Hlive, Hheld. unfold expired in He. by apply andb_true_iff in He as [-> _].
  - split; [done|]. unfold with_alert. by destruct al.
  - unfold cancel_requested_unit. destruct (in_state QUEUED u || in_state PARKED u) eqn:E; [done|].
    split; [done|]. exact Hlive.
Qed.

(** C37: Retrying ends.  Without an operator's requeue or amnesty, at most [max_attempts] + 4, so at most nine, results
    are ever recorded for a unit that say anything about the candidate, its instruments or its inputs (every outcome but
    'lease-lost' and 'abandoned'), whatever workers report and however often leases are lost: each of them consumes
    budget or an instrument retry, or takes the unit out of the queue.  Executions that were lost, and results that
    report a lost or abandoned lease, are refunded and not counted here; they are unbounded (see [lost_leases_unbounded]). *)
Theorem retries_terminate esc tr u :
  Forall (λ p, ∀ i b, p.2 ≠ CallUnpark i b ∧ p.2 ≠ CallRequeue i) tr →
  u ∈ (final esc tr empty_queue).(q_units) →
  Z.of_nat (rowcount concluded (mine u.(u_id) (final esc tr empty_queue).(q_attempts)))
    ≤ u.(u_max_attempts) + INSTRUMENT_RETRY_CAP + 1 ≤ 9.
Proof.
  intros Htr Hu. set (l := mine _ _).
  assert (queue_ok (final esc tr empty_queue)) as Hq by auto with omni.
  pose proof (units_ok _ Hq u Hu) as Hok. fold l in Hok.
  destruct (budget_reachable esc true tr u) as [_ Hspent]; [|done|].
  { intros _. eapply Forall_impl; [exact Htr|]. intros p Hp i b. apply (Hp i b). }
  assert (retries u l) as [Hex _].
  { apply (reachable_all esc (λ c, ∀ i b, c ≠ CallUnpark i b ∧ c ≠ CallRequeue i)); [| |done|done].
    - intros v _ _ _ _ [_ Hz] _. split; [done|]. intros _. by rewrite Hz.
    - intros now c lab v k v' k' Hc Hok' _ Hfit Hstep. apply (retries_step esc now lab); [done|done| |].
      + intros ->. destruct Hfit as [b ->]. by apply (proj1 (Hc v.(u_id) b)).
      + intros ->. simpl in Hfit. subst c. by apply (proj2 (Hc v.(u_id) "")). }
  specialize (Hspent eq_refl). fold l in Hspent. pose proof (concluded_split l). pose proof (ok_budget _ _ Hok).
  pose proof (unit_checks_nonneg _ (ok_checks _ _ Hok)). unfold INSTRUMENT_RETRY_CAP in *. lia.
Qed.

Lemma retries_terminate_witness :
  match get_unit "wq_1" (final ∅ demo_trace empty_queue) with
  | Some u => Z.of_nat (rowcount concluded (mine u.(u_id) (final ∅ demo_trace empty_queue).(q_attempts)))
              ≤ u.(u_max_attempts) + INSTRUMENT_RETRY_CAP + 1
  | None => False end.
Proof.
  destruct (get_unit "wq_1" (final ∅ demo_trace empty_queue)) as [u|] eqn:E; [|vm_compute in E; discriminate].
  apply get_unit_Some in E as [Hu _]. refine (proj1 (retries_terminate ∅ demo_trace u _ Hu)).
  repeat (constructor; [split; discriminate|]). constructor.
Defined.

(** A worker that claims and reports a lost lease, over and over: more than nine results, the unit still queued. *)
Definition losing (n : nat) : list (timestamp * call) :=
  (0, CallEnqueue demo_submit "wq_1") :: flat_map (λ k, let g := Z.of_nat (S k) in
    [(10 * g, CallClaim "m1" "w" ["gpu"] None); (10 * g + 1, CallResult "wq_1" "m1:w" g "lease-lost" demo_report)]) (seq 0 n).
Example lost_leases_unbounded :
  let q := final ∅ (losing 12) empty_queue in
  u_state <$> get_unit "wq_1" q = Some QUEUED ∧ u_attempt <$> get_unit "wq_1" q = Some 0
  ∧ rowcount (λ a, bool_decide (a.(a_outcome) = Some LEASE_LOST)) q.(q_attempts) = 12%nat.
Proof. by vm_compute. Qed.

(** ** Refusals stay *)

Lemma fetch_update_where {A} (p q : A → bool) f t :
  (∀ r, p (f r) = p r) → fetch p (update_where q f t) = (λ r, if q r then f r else r) <$> fetch p t.
Proof.
  intros Hf. unfold fetch, select, update_where. induction t as [|r t IH]; [done|]. simpl.
  assert (p (if q r then f r else r) = p r) as -> by by destruct (q r). by destruct (p r).
Qed.

Lemma fetch_app {A} (p : A → bool) t k r : fetch p t = Some r → fetch p (t ++ k) = Some r.
Proof. unfold fetch. rewrite select_app. by destruct (select p t). Qed.

Lemma fetch_filter {A} (p q : A → bool) t :
  (∀ r, p r = true → q r = true) → fetch p (List.filter q t) = fetch p t.
Proof.
  intros Hpq. unfold fetch, select. induction t as [|r t IH]; [done|]. simpl.
  destruct (p r) eqn:E; [rewrite (Hpq r E); simpl; by rewrite E|]. destruct (q r); simpl; [by rewrite E|done].
Qed.

Lemma refusals_reap now rows q : (foldl (reap_step now) q rows).(q_refusals) = q.(q_refusals).
Proof. revert q. induction rows as [|r rows IH]; intros q; [done|]. simpl. by rewrite IH. Qed.

(** The calls that write the ledger. *)
Definition writes_ledger (c : call) : bool :=
  match c with CallRefuse _ _ _ _ _ _ | CallClear _ _ | CallUnpark _ _ => true | _ => false end.

Lemma exec_refusals esc now c q :
  queue_ok q → writes_ledger c = false → (exec esc now c q).2.(q_refusals) = q.(q_refusals).
Proof.
  intros Hq Hc. destruct c; try done; cbn [exec snd].
  - unfold enqueue, write. destruct (List.find _ _) as [[]|]; [done|]. destruct (negb _); [done|].
    destruct (member _ _ _); [|done]. destruct (s_owned_paths submit); [done|].
    destruct (fetch _ _); [done|]. by destruct (_ && _).
  - rewrite claim_eq by done. by destruct (claim_choice _ _ _ _ _).
  - rewrite record_result_eq by apply Hq. destruct (member _ _ _); [|done]. by destruct (held_unit _ _ _ _).
  - unfold reap_expired, write. simpl. apply refusals_reap.
  - unfold park, write. destruct (match reason with None => _ | Some _ => _ end) as [r|]; simpl; [|done].
    destruct (fetch _ _); [|done]. destruct r; simpl; [|done]. unfold claim_alert. by destruct (negb _).
  - unfold requeue, write. destruct (fetch _ _) as [v|]; [|done]. destruct (negb _); [done|].
    destruct (u_cancel_requested v); [done|]. by destruct (u_terminal_reason v).
  - unfold enroll_machine, write. by destruct (negb _).
  - unfold machine_beat, write. destruct (fetch _ _); [|done]. by destruct (b_worker_id beat) as [[|]|].
Qed.

Section ledger.
Context (storm_cap : Z) (iso : timestamp → string).

Definition blocks (row : Refusal) : Prop :=
  storm_cap ≤ row.(r_count)
  ∨ row.(r_retryable) = 0 ∧ row.(r_refusal_class) ∉ ["instrument-error"; "contention-flake"].

Lemma check_ledger_blocks row : check_ledger storm_cap iso (Some row) ≠ None ↔ blocks row.
Proof.
  unfold check_ledger, blocks. destruct (Z.leb_spec storm_cap row.(r_count)); [naive_solver|].
  destruct (Z.eqb_spec row.(r_retryable) 0); simpl; [|naive_solver lia].
  case_bool_decide; simpl; naive_solver lia.
Qed.

(** A call that may lift or soften the refusals of an input. *)
Definition softens (input_key gate : string) (c : call) : Prop :=
  match c with
  | CallClear k g => k = input_key ∧ g = gate
  | CallUnpark _ _ => True
  | CallRefuse k g class retryable _ _ =>
      k = input_key ∧ g = gate ∧ (class ∉ NON_OVERWRITING_CLASSES)
      ∧ (retryable ≠ 0 ∨ class ∈ ["instrument-error"; "contention-flake"])
  | _ => False
  end.

Lemma refusal_is_spec k g r : refusal_is k g r = true ↔ r.(r_input_key) = k ∧ r.(r_gate) = g.
Proof. unfold refusal_is. rewrite andb_true_iff, !bool_decide_eq_true. done. Qed.

(** What recording a refusal does to the row of an input. *)
Lemma refuse_row k g class retryable remedy u now key gate q row :
  refusal_check key gate q = Some row →
  ∃ row', refusal_check key gate (refusal_record k g class retryable remedy u now q).2 = Some row'
    ∧ r_count row ≤ r_count row'
    ∧ (r_retryable row' = r_retryable row ∧ r_refusal_class row' = r_refusal_class row
       ∨ k = key ∧ g = gate ∧ (class ∉ NON_OVERWRITING_CLASSES) ∧ r_retryable row' = retryable ∧ r_refusal_class row' = class).
Proof.
  unfold refusal_check, refusal_record, write. intros Hrow.
  destruct (fetch (refusal_is k g) q.(q_refusals)) as [e|] eqn:Ee.
  2: { simpl. exists row. split; [by apply fetch_app|]. split; [lia|by left]. }
  set (count := r_count e + 1).
  assert (Hfirst : fetch (refusal_is key gate)
      (update_where (refusal_is k g) (count_refusal class retryable remedy u now count e) q.(q_refusals))
    = Some (if refusal_is k g row then count_refusal class retryable remedy u now count e row else row)).
  { rewrite fetch_update_where by done. by rewrite Hrow. }
  set (row1 := if refusal_is k g row then _ else row) in Hfirst.
  assert (∃ row', fetch (refusal_is key gate) (q_refusals (refusal_record k g class retryable remedy u now q).2) = Some row'
    ∧ r_count row' = r_count row1 ∧ r_retryable row' = r_retryable row1 ∧ r_refusal_class row' = r_refusal_class row1)
    as (row' & Hrow' & Hc & Hr & Hcl).
  { unfold refusal_record, write. rewrite Ee. fold count. destruct (REFUSAL_STORM_CAP <=? count); simpl; [|by exists row1].
    rewrite 2!fetch_update_where by done. rewrite Hfirst. simpl. eexists. split; [done|].
    destruct (refusal_is k g row1); simpl; destruct (refusal_is k g _ && _); by split_and!. }
  unfold refusal_record, write in Hrow'. rewrite Ee in Hrow'. fold count in Hrow'. exists row'. split; [exact Hrow'|].
  rewrite Hc, Hr, Hcl. subst row1. destruct (refusal_is k g row) eqn:Ek; [|split; [lia|by left]].
  apply refusal_is_spec in Ek as [<- <-].
  assert (fetch (refusal_is (r_input_key row) (r_gate row)) q.(q_refusals) = Some row) as Hsame.
  { pose proof Hrow as Hin. apply head_Some_elem_of, elem_of_select in Hin as [_ [<- <-]%refusal_is_spec]. done. }
  rewrite Hsame in Ee. injection Ee as <-. simpl. split; [lia|].
  unfold count_refusal. cbv zeta. destruct (bool_decide_reflect (class ∈ NON_OVERWRITING_CLASSES)) as [Hk|Hk]; [by left|].
  right. apply head_Some_elem_of, elem_of_select in Hrow as [_ [-> ->]%refusal_is_spec]. by split_and!.
Qed.

(** An input that was refused stays refused: from a state in which the ledger blocks an input of a gate, no calls
    lift that, whatever runs and with however many workers, except clearing that very row (a pass), an
    operator's amnesty, or a new refusal of the same input in a class that asks for a re-run; the count of
    its refusals never goes down. *)
Theorem refusal_stays esc q key gate row tr :
  queue_ok q → refusal_check key gate q = Some row → check_ledger storm_cap iso (Some row) ≠ None →
  Forall (λ p, ¬ softens key gate p.2) tr →
  ∃ row', refusal_check key gate (final esc tr q) = Some row'
    ∧ check_ledger storm_cap iso (Some row') ≠ None ∧ r_count row ≤ r_count row'.
Proof.
  rewrite check_ledger_blocks. setoid_rewrite check_ledger_blocks. intros Hq Hrow Hb Htr.
  revert q row Hq Hrow Hb. induction Htr as [|[now c] tr Hc Htr IH]; intros q row Hq Hrow Hb.
  { exists row. split; [done|]. split; [done|lia]. }
  simpl in Hc. rewrite final_cons.
  assert (∃ row1, refusal_check key gate (exec esc now c q).2 = Some row1 ∧ blocks row1 ∧ r_count row ≤ r_count row1)
    as (row1 & Hrow1 & Hb1 & Hle).
  { destruct (writes_ledger c) eqn:Ew.
    2: { exists row. split; [|split; [done|lia]]. unfold refusal_check. by rewrite exec_refusals. }
    destruct c; try done; cbn [exec snd].
    - destruct (refuse_row input_key gate0 refusal_class retryable remedy unit_id now key gate q row Hrow)
        as (row1 & Hr1 & Hle & Hsame). exists row1. split_and!; [done| |done].
      destruct Hsame as [[Hr Hcl]|(-> & -> & Hk & Hr & Hcl)].
      + unfold blocks in *. rewrite Hr, Hcl. destruct Hb; [left; lia|by right].
      + right. rewrite Hr, Hcl. simpl in Hc. split.
        * apply dec_stable. intros Hz. apply Hc. auto.
        * intros Hin. apply Hc. auto.
    - exists row. split; [|split; [done|lia]]. unfold refusal_check, refusal_clear in *. simpl.
      rewrite fetch_filter; [done|]. intros r [H1 H2]%refusal_is_spec. apply negb_true_iff, not_true_iff_false.
      intros [H3 H4]%refusal_is_spec. apply Hc. simpl. split; congruence. }
  destruct (IH _ row1 (exec_ok esc now c q Hq) Hrow1 Hb1) as (row' & ? & ? & ?).
  exists row'. split_and!; [done..|lia].
Qed.
End ledger.

Definition refused_once : WorkQueue :=
  final ∅ [(5, CallRefuse "k" "raw" "candidate-defect" 0 "fix it" (Some "wq_1"))] demo_queue.
Lemma refusal_stays_witness :
  match refusal_check "k" "raw" refused_once with
  | Some row => ∃ row', refusal_check "k" "raw" (final ∅ [(9, CallReap); (10, CallRefuse "k" "raw" "unchanged-retry" 0 "x" None);
                          (11, CallRefuse "other" "raw" "environment" 1 "x" None)] refused_once) = Some row'
                        ∧ check_ledger 5 pretty (Some row') ≠ None
  | None => False end.
Proof.
  assert (queue_ok refused_once) as Hq by (apply final_ok, demo_queue_ok).
  destruct (refusal_check "k" "raw" refused_once) as [row|] eqn:E; [|vm_compute in E; discriminate].
  destruct (refusal_stays 5 pretty ∅ refused_once "k" "raw" row
    [(9, CallReap); (10, CallRefuse "k" "raw" "unchanged-retry" 0 "x" None);
     (11, CallRefuse "other" "raw" "environment" 1 "x" None)] Hq E) as (row' & H1 & H2 & _).
  - vm_compute in E. injection E as <-. vm_compute. discriminate.
  - repeat constructor; cbn [softens snd]; [intros H; exact H| |].
    + intros (_ & _ & H & _). apply H. apply (bool_decide_unpack _). vm_compute. exact I.
    + intros (H & _). discriminate.
  - exists row'. split; [exact H1|exact H2].
Defined.

(** ** Who may claim *)

Definition cache_stale (monotonic : Q) (c : AllowlistCache) : Prop :=
  match c.(l_read_at) with None => True | Some last => (WORKER_ALLOWLIST_TTL_S <= monotonic - last)%Q end.

Lemma allowlist_reread file monotonic c :
  cache_stale monotonic c →
  (worker_allowlist file monotonic c).1 = List.filter (λ e, negb (bool_decide (strip e = ""))) (default [] file).
Proof.
  unfold cache_stale, worker_allowlist. destruct (l_read_at c) as [last|]; [|done].
  intros ->%Qle_bool_iff. done.
Qed.

(** The role the machine's row gives it, if it is enrolled. *)
Definition is_dispatcher (machine_id : string) (q : WorkQueue) : bool :=
  match fetch (machine_is machine_id) q.(q_machines) with
  | Some m => bool_decide (m.(m_role) = ROLE_DISPATCHER) | None => false end.

(** Revoking a machine takes effect within the lifetime of the cached allowlist: once the file was last read
    thirty seconds ago, an enforcing server refuses every claim of a machine the file no longer names, or
    whose row says dispatcher, without touching the queue, and serves the machines it names exactly as
    the store does; a missing or unreadable file refuses everyone. *)
Theorem revoked_within_ttl file monotonic cache machine worker labels reserved now q :
  cache_stale monotonic cache →
  let allowed := (worker_allowlist file monotonic cache).1 in
  (machine ∉ default [] file ∨ is_dispatcher machine q = true →
     ∃ reason, claim_route true allowed machine worker labels reserved now q = (Ok (Forbidden reason), q))
  ∧ (machine ∈ default [] file → strip machine ≠ "" → is_dispatcher machine q = false →
     claim_route true allowed machine worker labels reserved now q
     = claim_route false allowed machine worker labels reserved now q).
Proof.
  intros Hstale allowed. subst allowed. rewrite allowlist_reread by done. set (allowed := List.filter _ _).
  assert (machine ∈ allowed ↔ machine ∈ default [] file ∧ strip machine ≠ "") as Hin.
  { unfold allowed. rewrite (elem_of_select (λ e, negb (bool_decide (strip e = "")))).
    by rewrite negb_true_iff, bool_decide_eq_false. }
  unfold claim_route, claim_role_refusal. fold (is_dispatcher machine q). split.
  - destruct (is_dispatcher machine q) eqn:Ed; [by eexists|]. intros [Hn|?]; [|done].
    rewrite bool_decide_eq_false_2 by naive_solver. by eexists.
  - intros Hm Hs ->. rewrite bool_decide_eq_true_2 by naive_solver. done.
Qed.

Lemma revoked_within_ttl_witness :
  (∃ reason, claim_route true (worker_allowlist (Some ["m2"]) 130 (mkCache ["m1"] (Some 100%Q))).1 "m1" "w" [] None 210 demo_reaped
             = (Ok (Forbidden reason), demo_reaped)).
Proof.
  refine (proj1 (revoked_within_ttl (Some ["m2"]) 130 (mkCache ["m1"] (Some 100%Q)) "m1" "w" [] None 210 demo_reaped _) _).
  - vm_compute. discriminate.
  - left. apply (bool_decide_unpack _). vm_compute. exact I.
Defined.
