(* ===== verification/PyJson.v ===== *)
(** * PyJson: Python floats and the values of [json.loads]

    A [float] is a number, an infinity or NaN; an operation on numbers rounds its
    exact result with a parameter.  A JSON object is its list of members in insertion
    order, without equal keys.  What the code asks of such values: truth, [==],
    [int()], [float()] and [str()]. *)

From Stdlib Require Import Ascii QArith Qround.
From stdpp Require Import pretty.
From S2P Require Import Prelude PyString.
Open Scope Z_scope.

(** ** Floats *)

Inductive float :=
  | Fin (x : Q)
  | Inf (negative : bool)
  | NaN.

Definition fl_lt (a b : float) : bool :=
  match a, b with
  | NaN, _ | _, NaN => false
  | Fin x, Fin y => negb (Qle_bool y x)
  | Inf n, Inf m => n && negb m
  | Inf n, Fin _ => n
  | Fin _, Inf n => negb n
  end.
Definition fl_eq (a b : float) : bool :=
  match a, b with
  | Fin x, Fin y => Qeq_bool x y
  | Inf n, Inf m => Bool.eqb n m
  | _, _ => false
  end.
Definition fl_le (a b : float) : bool := fl_lt a b || fl_eq a b.
Definition is_nan (a : float) : bool := match a with NaN => true | _ => false end.

(** [min(a, *l)]: a later argument replaces an earlier one that it is below. *)
Definition py_min (a : float) (l : list float) : float := foldl (λ m x, if fl_lt x m then x else m) a l.

Definition fl_zero : float := Fin 0.
Definition fl_int (n : Z) : float := Fin (inject_Z n).

Section rounding.
Context (rnd : Q → float).
Definition fl_add (a b : float) : float :=
  match a, b with
  | NaN, _ | _, NaN => NaN
  | Inf n, Inf m => if Bool.eqb n m then Inf n else NaN
  | Inf n, Fin _ | Fin _, Inf n => Inf n
  | Fin x, Fin y => rnd (x + y)%Q
  end.
(** Division by a positive number. *)
Definition fl_div (a : float) (d : positive) : float :=
  match a with Fin x => rnd (x / inject_Z (Zpos d))%Q | _ => a end.
End rounding.

(** What SQLite stores for a bound float: NaN becomes NULL. *)
Definition sql_real (a : float) : option float := match a with NaN => None | _ => Some a end.

Lemma fl_lt_false a b : is_nan a = false → is_nan b = false → fl_lt b a = false → fl_le a b = true.
Proof.
  unfold fl_le. destruct a as [x|n|], b as [y|m|]; simpl; try done.
  - intros _ _ H%negb_false_iff%Qle_bool_iff. destruct (Qle_bool y x) eqn:E; simpl; [|done].
    apply Qle_bool_iff in E. apply Qeq_bool_iff, Qle_antisym; done.
  - by intros _ _ ->.
  - by destruct n.
  - by destruct n, m.
Qed.

Lemma fl_add_nan rnd a b : is_nan (fl_add rnd a b) = false → is_nan a = false ∧ is_nan b = false.
Proof. by destruct a, b. Qed.

(** ** Values *)

Inductive json :=
  | JNull
  | JBool (b : bool)
  | JInt (n : Z)
  | JFloat (x : float)
  | JStr (s : string)
  | JList (l : list json)
  | JDict (l : list (string * json)).

Abbreviation dict := (list (string * json)).

(** [d.get(key)], [key in d] and [d[key] = v] *)
Definition dict_get {A} (key : string) (l : list (string * A)) : option A :=
  snd <$> List.find (λ p, bool_decide (p.1 = key)) l.
Definition dict_mem {A} (key : string) (l : list (string * A)) : bool :=
  existsb (λ p, bool_decide (p.1 = key)) l.
Definition dict_set {A} (key : string) (v : A) (l : list (string * A)) : list (string * A) :=
  if dict_mem key l then map (λ p, if bool_decide (p.1 = key) then (key, v) else p) l else l ++ [(key, v)].
(** [{**a, **b}] *)
Definition dict_update {A} (a b : list (string * A)) : list (string * A) :=
  foldl (λ d p, dict_set p.1 p.2 d) a b.

Definition truthy (v : json) : bool :=
  match v with
  | JNull => false
  | JBool b => b
  | JInt n => negb (n =? 0)
  | JFloat x => negb (fl_eq x fl_zero)
  | JStr s => negb (bool_decide (s = ""))
  | JList l => match l with [] => false | _ => true end
  | JDict l => match l with [] => false | _ => true end
  end.

Definition number_of (v : json) : option float :=
  match v with
  | JBool b => Some (fl_int (if b then 1 else 0))
  | JInt n => Some (fl_int n)
  | JFloat x => Some x
  | _ => None
  end.

(** [a == b] *)
Fixpoint json_eq (a b : json) : bool :=
  match number_of a, number_of b with
  | Some x, Some y => fl_eq x y
  | _, _ =>
      match a, b with
      | JNull, JNull => true
      | JStr s, JStr t => bool_decide (s = t)
      | JList l, JList m =>
          (fix go l m := match l, m with
                         | [], [] => true
                         | x :: l, y :: m => json_eq x y && go l m
                         | _, _ => false end) l m
      | JDict l, JDict m =>
          bool_decide (length l = length m)
          && (fix go l := match l with
                          | [] => true
                          | (k, x) :: l => match dict_get k m with Some y => json_eq x y | None => false end
                                           && go l end) l
      | _, _ => false
      end
  end.

Definition is_hashable (v : json) : bool := match v with JList _ | JDict _ => false | _ => true end.

(** ** [int()], [float()], [str()] *)

Inductive cast_error := TypeError | ValueError | OverflowError.

(** Decimal digits, single underscores between them. *)
Fixpoint int_digits (after_digit : bool) (acc : Z) (s : string) : option Z :=
  match s with
  | "" => if after_digit then Some acc else None
  | String c s =>
      if is_digit c then int_digits true (10 * acc + Z.of_nat (code c - 48)) s
      else if Ascii.eqb c "_" && after_digit then int_digits false acc s
      else None
  end.
Definition int_of_text (s : string) : option Z :=
  match strip s with
  | String "-" s => Z.opp <$> int_digits false 0 s
  | String "+" s => int_digits false 0 s
  | s => int_digits false 0 s
  end.

(** Rounding to zero. *)
Definition truncate (x : Q) : Z := if Qle_bool 0 x then Qfloor x else Qceiling x.

Definition py_int (v : json) : result cast_error Z :=
  match v with
  | JBool b => Ok (if b then 1 else 0)
  | JInt n => Ok n
  | JFloat (Fin x) => Ok (truncate x)
  | JFloat (Inf _) => Err OverflowError
  | JFloat NaN => Err ValueError
  | JStr s => match int_of_text s with Some n => Ok n | None => Err ValueError end
  | _ => Err TypeError
  end.

Section casts.
(** Rounding, the reading of a text by [float()] and [repr] of a float. *)
Context (rnd : Q → float) (float_of_text : string → option float) (float_repr : float → string).

Definition py_float (v : json) : result cast_error float :=
  match v with
  | JBool b => Ok (fl_int (if b then 1 else 0))
  | JInt n => match rnd (inject_Z n) with Fin x => Ok (Fin x) | _ => Err OverflowError end
  | JFloat x => Ok x
  | JStr s => match float_of_text s with Some x => Ok x | None => Err ValueError end
  | _ => Err TypeError
  end.

Fixpoint py_repr (v : json) : string :=
  match v with
  | JNull => "None"
  | JBool b => if b then "True" else "False"
  | JInt n => pretty n
  | JFloat x => float_repr x
  | JStr s => repr s
  | JList l => "[" +:+ join ", " (map py_repr l) +:+ "]"
  | JDict l => "{" +:+ join ", " (map (λ p, repr p.1 +:+ ": " +:+ py_repr p.2) l) +:+ "}"
  end.
Definition py_str (v : json) : string := match v with JStr s => s | _ => py_repr v end.
End casts.

(** ** Lemmas *)

Lemma dict_get_mem {A} key (l : list (string * A)) : dict_mem key l = true ↔ is_Some (dict_get key l).
Proof.
  unfold dict_mem, dict_get. rewrite existsb_exists. split.
  - intros (p & Hp & Hk). destruct (List.find _ l) as [q|] eqn:E; [by eexists|].
    by rewrite (List.find_none _ _ E p Hp) in Hk.
  - intros [v Hv]. destruct (List.find _ l) as [q|] eqn:E; [|done]. exists q. by apply (List.find_some _ _ E).
Qed.

Lemma dict_get_cons {A} key k (v : A) l :
  dict_get key ((k, v) :: l) = if bool_decide (k = key) then Some v else dict_get key l.
Proof. unfold dict_get. simpl. by destruct (bool_decide _). Qed.

Lemma dict_get_replace {A} key key' (v : A) l :
  dict_get key' (map (λ p, if bool_decide (p.1 = key) then (key, v) else p) l)
  = if bool_decide (key' = key) then (if dict_mem key l then Some v else None) else dict_get key' l.
Proof.
  induction l as [|[k w] l IH]; [simpl; by case_bool_decide|].
  cbn [map fst]. change (dict_mem key ((k, w) :: l)) with (bool_decide (k = key) || dict_mem key l).
  rewrite (dict_get_cons key' k w). destruct (decide (k = key)) as [<-|Hk].
  - rewrite (bool_decide_eq_true_2 (k = k)), dict_get_cons, IH by done. cbn [orb].
    destruct (decide (k = key')) as [<-|]; [by rewrite !bool_decide_eq_true_2|].
    by rewrite !bool_decide_eq_false_2 by congruence.
  - rewrite (bool_decide_eq_false_2 (k = key)), dict_get_cons, IH by done. cbn [orb].
    destruct (decide (k = key')) as [<-|]; [|by rewrite (bool_decide_eq_false_2 (k = key'))].
    by rewrite bool_decide_eq_true_2, bool_decide_eq_false_2.
Qed.

Lemma dict_get_app {A} key (l m : list (string * A)) :
  dict_get key (l ++ m) = match dict_get key l with Some v => Some v | None => dict_get key m end.
Proof. induction l as [|[k w] l IH]; [done|]. cbn [app]. rewrite !dict_get_cons. by case_bool_decide. Qed.

Lemma dict_get_set {A} key key' (v : A) l :
  dict_get key' (dict_set key v l) = if bool_decide (key' = key) then Some v else dict_get key' l.
Proof.
  unfold dict_set. destruct (dict_mem key l) eqn:Hm; [by rewrite dict_get_replace, Hm|].
  rewrite dict_get_app, dict_get_cons. destruct (dict_get key' l) as [w|] eqn:Hg.
  - case_bool_decide as E; [|done]. subst key'. assert (dict_mem key l = true) by (apply dict_get_mem; by eexists).
    congruence.
  - by rewrite (bool_decide_ext (key = key') (key' = key)).
Qed.
