(* ===== verification/Connectors.v ===== *)
(** * Connectors: [omniagentos/connectors/__init__.py] and [extractors.py]

    The registry of connectors and capabilities with the checks of its loading, the
    properties derived from an action class, and the facts a request body states about
    a call.  The documents are their validated models; parsing a mail, [repr] and
    reading of floats and SHA-256 are parameters, a pattern is the compiled one. *)

From Stdlib Require Import Ascii QArith.
From stdpp Require Import pretty.
From S2P Require Import Prelude PyString PyRegex PyJson Records.
Open Scope Z_scope.

(** ** Data *)

Inductive ActionClass := READ_ONLY | SANDBOXED_CREATION | INTERNAL_REVERSIBLE | EXTERNAL_REVERSIBLE
  | CONSEQUENTIAL | IRREVERSIBLE.
#[export] Instance ActionClass_eq_dec : EqDecision ActionClass.
Proof. solve_decision. Defined.
Definition action_class_value (c : ActionClass) : string :=
  match c with
  | READ_ONLY => "read_only"
  | SANDBOXED_CREATION => "sandboxed_creation"
  | INTERNAL_REVERSIBLE => "internal_reversible"
  | EXTERNAL_REVERSIBLE => "external_reversible"
  | CONSEQUENTIAL => "consequential"
  | IRREVERSIBLE => "irreversible"
  end.
Definition AUTO_CLASSES : list ActionClass := [READ_ONLY; SANDBOXED_CREATION; INTERNAL_REVERSIBLE].

Inductive SideEffectClass := SE_NONE | SE_SANDBOX_WRITE | SE_INTERNAL_WRITE | SE_EXTERNAL_WRITE | SE_IRREVERSIBLE.
#[export] Instance SideEffectClass_eq_dec : EqDecision SideEffectClass.
Proof. solve_decision. Defined.
Inductive ResultSizeClass := SMALL | MEDIUM | LARGE | STREAMING.
Definition result_size_value (c : ResultSizeClass) : string :=
  match c with SMALL => "small" | MEDIUM => "medium" | LARGE => "large" | STREAMING => "streaming" end.

Definition ACTION_CLASS_SIDE_EFFECT (c : ActionClass) : SideEffectClass :=
  match c with
  | READ_ONLY => SE_NONE
  | SANDBOXED_CREATION => SE_SANDBOX_WRITE
  | INTERNAL_REVERSIBLE => SE_INTERNAL_WRITE
  | EXTERNAL_REVERSIBLE => SE_EXTERNAL_WRITE
  | CONSEQUENTIAL | IRREVERSIBLE => SE_IRREVERSIBLE
  end.

Record HttpSpec := mkHttp {
  h_base_url : string;
  h_methods : list string;
  h_path_prefixes : list string;
  h_path_regex : option regex;
  h_auth : string;
  h_headers : list (string * string);
}.

Record Capability := mkCapability {
  cap_id : string;
  cap_connector : string;
  cap_group : string;
  cap_label : string;
  cap_action_class : ActionClass;
  cap_http : option HttpSpec;
  cap_namespace : string;
  cap_compact_hint : string;
  cap_read_only : option bool;
  cap_side_effect_class : option SideEffectClass;
  cap_resource_keys : list string;
  cap_idempotent : option bool;
  cap_parallel_safe : option bool;
  cap_cancellation_group : string;
  cap_credential_scope : string;
  cap_result_size_class : option ResultSizeClass;
}.
#[export] Instance Capability_rebuild : Rebuild Capability := λ c,
  mkCapability c.(cap_id) c.(cap_connector) c.(cap_group) c.(cap_label) c.(cap_action_class) c.(cap_http)
    c.(cap_namespace) c.(cap_compact_hint) c.(cap_read_only) c.(cap_side_effect_class) c.(cap_resource_keys)
    c.(cap_idempotent) c.(cap_parallel_safe) c.(cap_cancellation_group) c.(cap_credential_scope)
    c.(cap_result_size_class).

Record Connector := mkConnector {
  cn_id : string;
  cn_label : string;
  cn_group : string;
  cn_env : list string;
  cn_capabilities : list (string * Capability);
}.
Record Group := mkGroup { gr_label : string; gr_danger : bool }.
Record ConnectorRegistry := mkRegistry {
  rg_version : Z;
  rg_groups : list (string * Group);
  rg_connectors : list (string * Connector);
}.

(** ** Properties of a capability *)

Definition is_auto (c : Capability) : bool := bool_decide (c.(cap_action_class) ∈ AUTO_CLASSES).
Definition callable_now (c : Capability) : bool := match c.(cap_http) with Some _ => true | None => false end.
Definition or_text (a b : string) : string := if bool_decide (a = "") then b else a.
Definition resolved_namespace (c : Capability) : string := or_text c.(cap_namespace) c.(cap_connector).
Definition resolved_compact_hint (c : Capability) : string := or_text c.(cap_compact_hint) c.(cap_label).
Definition resolved_side_effect_class (c : Capability) : SideEffectClass :=
  default (ACTION_CLASS_SIDE_EFFECT c.(cap_action_class)) c.(cap_side_effect_class).
Definition resolved_read_only (c : Capability) : bool :=
  default (bool_decide (resolved_side_effect_class c = SE_NONE)) c.(cap_read_only).
Definition resolved_idempotent (c : Capability) : bool := default (resolved_read_only c) c.(cap_idempotent).
Definition resolved_parallel_safe (c : Capability) : bool := default (resolved_read_only c) c.(cap_parallel_safe).
Definition resolved_resource_keys (c : Capability) : list string :=
  match c.(cap_resource_keys) with [] => ["connector:" +:+ c.(cap_connector)] | l => l end.
Definition resolved_cancellation_group (c : Capability) : string :=
  or_text c.(cap_cancellation_group) c.(cap_connector).
Definition resolved_credential_scope (c : Capability) : string :=
  or_text c.(cap_credential_scope) c.(cap_connector).
Definition resolved_result_size_class (c : Capability) : ResultSizeClass :=
  default (if resolved_read_only c then MEDIUM else SMALL) c.(cap_result_size_class).

(** ** The registry *)

(** Every capability by its id; a later one replaces an earlier one. *)
Definition capabilities (r : ConnectorRegistry) : list (string * Capability) :=
  foldl (λ out c, dict_set c.(cap_id) c out) []
    (r.(rg_connectors) ≫= λ p, map snd p.2.(cn_capabilities)).

Inductive connector_error := UnknownCapability (cap : string) | NotNamespaced (cap : string)
  | UnknownGroup (group : string) | ConnectorLookup (connector : string) | BadMode | BadExpiry.

Definition capability (r : ConnectorRegistry) (cap_id : string) : result connector_error Capability :=
  match dict_get cap_id (capabilities r) with Some c => Ok c | None => Err (UnknownCapability cap_id) end.

Definition env_for (r : ConnectorRegistry) (cap_ids : list string) : result connector_error (gset string) :=
  foldl (λ acc id,
    names ← acc;
    c ← capability r id;
    match dict_get c.(cap_connector) r.(rg_connectors) with
    | Some cn => Ok (names ∪ list_to_set cn.(cn_env))
    | None => Err (ConnectorLookup c.(cap_connector))
    end) (Ok ∅) cap_ids.

(** The ids written down the tree before validation; an absent namespace is the empty text. *)
Definition denormalise (p : string * Connector) : string * Connector :=
  let '(connector_id, c) := p in
  (connector_id, mkConnector connector_id c.(cn_label) c.(cn_group) c.(cn_env)
     (map (λ q : string * Capability, (q.1, q.2 <| cap_id := q.1 |> <| cap_connector := connector_id |>
             <| cap_group := c.(cn_group) |>
             <| cap_namespace := or_text q.2.(cap_namespace) connector_id |>)) c.(cn_capabilities))).

(** [load_registry] after the document is read and its models are validated. *)
Definition load_registry (version : Z) (groups : list (string * Group)) (connectors : list (string * Connector)) :
    result connector_error ConnectorRegistry :=
  let r := mkRegistry version groups (map denormalise connectors) in
  let caps := map snd (capabilities r) in
  match List.find (λ c, negb (startswith (c.(cap_connector) +:+ ".") c.(cap_id))) caps with
  | Some c => Err (NotNamespaced c.(cap_id))
  | None =>
      match List.find (λ p : string * Connector, negb (dict_mem p.2.(cn_group) groups)) r.(rg_connectors) with
      | Some p => Err (UnknownGroup p.2.(cn_group))
      | None => Ok r
      end
  end.

(** ** Denials *)

(** [BrokerDenied].  Of the detail the codes are kept; explanatory text is left out. *)
Record BrokerDenied := mkDenied { b_reason : string; b_cap_id : string; b_detail : string }.
Definition denied {A} (reason cap detail : string) : result BrokerDenied A := Err (mkDenied reason cap detail).

(** ** Extractors, [extractors.py] *)

Record CallBounds := mkBounds {
  cb_recipients : list string;
  cb_recipient_count : Z;
  cb_spend_usd : option float;
  cb_account_id : option string;
  cb_resource_ids : list string;
  cb_mutates_fields : list string;
}.
Definition no_bounds : CallBounds := mkBounds [] 0 None None [] [].
Definition to_recipients (l : list string) : CallBounds := mkBounds l (Z.of_nat (length l)) None None [] [].

(** [s.partition(c)] *)
Fixpoint partition (sep : ascii) (s : string) : string * bool * string :=
  match s with
  | "" => ("", false, "")
  | String c s' => if Ascii.eqb c sep then ("", true, s')
                   else let '(a, found, b) := partition sep s' in (String c a, found, b)
  end.

(** The connector by its bare name or with a suffix. *)
Definition connector_named (name connector : string) : bool :=
  bool_decide (connector = name) || startswith (name +:+ "_") connector.

Definition is_broadcast_capability (id : string) : bool :=
  let '(connector, sep, action) := partition "." id in
  if negb sep then false
  else if bool_decide (action = "send") && connector_named "gmail" connector then true
  else if bool_decide (action = "conversation_send") && connector_named "piedpiper" connector then true
  else bool_decide (action = "trigger_broadcast") && connector_named "customerio" connector.

(** [sorted(set(...))] *)
Definition sorted_set (l : list string) : list string := sort_by id (elements (list_to_set l : gset string)).

(** The text [audience_snapshot_hash] hashes. *)
Definition audience_text (recipients : list string) : string :=
  String.concat "" (map (λ s, pretty (String.length s) +:+ ":" +:+ s +:+ "|")
    (sorted_set (List.filter (λ s, negb (bool_decide (s = ""))) recipients))).

(** [path.strip("/")] *)
Definition strip_slashes : string → string := strip_by (Ascii.eqb "/").

Section extractors.
Context (rnd : Q → float) (float_of_text : string → option float) (float_repr : float → string)
        (sha256 : string → string) (mail_recipients : string → option (list string)).
Abbreviation str := (py_str float_repr).

Definition audience_snapshot_hash (recipients : list string) : string := sha256 (audience_text recipients).

(** The recipient headers of the decoded message; [None] when any step raised. *)
Definition gmail_send_bounds (body : json) : CallBounds :=
  match body with
  | JDict d =>
      match dict_get "raw" d with
      | Some (JStr (String _ _ as raw)) => match mail_recipients raw with Some l => to_recipients l | None => no_bounds end
      | _ => no_bounds
      end
  | _ => no_bounds
  end.

Definition piedpiper_conversation_send_bounds (body : json) : CallBounds :=
  match body with
  | JDict d =>
      let contact := default JNull (dict_get "contactId" d) in
      let recipients := if truthy contact then [str contact] else [] in
      mkBounds recipients (Z.of_nat (length recipients)) None None [] (sort_by id (map fst d))
  | _ => no_bounds
  end.

Definition customerio_trigger_broadcast_bounds (body : json) : CallBounds :=
  match body with
  | JDict d =>
      let segment_ids :=
        match dict_get "recipients" d with
        | Some (JDict r) => match dict_get "segment" r with
                            | Some (JDict g) => match dict_get "ids" g with
                                                | Some (JList ids) => map str ids | _ => [] end
                            | _ => [] end
        | _ => [] end in
      let emails := match dict_get "emails" d with Some (JList l) => map str l | _ => [] end in
      to_recipients (segment_ids ++ emails)
  | _ => no_bounds
  end.

Definition META_LAUNCH_FIELDS : gset string := {["status"]}.
Definition META_BUDGET_FIELDS : gset string := {["daily_budget"; "lifetime_budget"; "bid_amount"]}.

Definition payload_keys (id : string) (payload : option json) : result BrokerDenied (list string) :=
  match payload with
  | None | Some JNull => Ok []
  | Some (JDict d) => Ok (map fst d)
  | Some _ => denied "body_field_not_allowed" id ""
  end.
Definition meta_strict_fields (id : string) (body form : option json) (allowed : gset string) :
    result BrokerDenied (list string) :=
  a ← payload_keys id body;
  b ← payload_keys id form;
  let keys : gset string := list_to_set (a ++ b) in
  if bool_decide (keys ⊆ allowed) then Ok (sort_by Datatypes.id (elements keys))
  else denied "body_field_not_allowed" id "".

Definition meta_account_id (path : string) : option string :=
  match split "/" (strip_slashes path) with
  | first :: _ => if startswith "act_" first && negb (bool_decide (drop_str 4 first = ""))
                  then Some (drop_str 4 first) else None
  | [] => None
  end.

(** The first budget of the body, then of the form; [Err] is an exception other than the
    two caught. *)
Definition budget_of (v : json) : result cast_error (option float) :=
  match py_float rnd float_of_text v with
  | Ok x => let value := fl_div rnd x 100 in Ok (if fl_le fl_zero value then Some value else None)
  | Err OverflowError => Err OverflowError
  | Err _ => Ok None
  end.
Definition budget_key (d : dict) : option json :=
  match dict_get "daily_budget" d with Some v => Some v | None => dict_get "lifetime_budget" d end.
Definition meta_budget_spend_usd (body form : option json) : result cast_error (option float) :=
  let find p := match p with Some (JDict d) => budget_key d | _ => None end in
  match find body, find form with
  | Some v, _ => budget_of v
  | None, Some v => budget_of v
  | None, None => Ok None
  end.

(** An exception of [extract_call_bounds]: a refusal, or [OverflowError]. *)
Inductive call_error := Denied (d : BrokerDenied) | Raised (what : string).
Definition lift {A} (m : result BrokerDenied A) : result call_error A := map_err Denied m.

Definition extract_call_bounds (id path : string) (body : json) (form : option json) : result call_error CallBounds :=
  let '(connector, _, action) := partition "." id in
  if bool_decide (action = "send") && connector_named "gmail" connector then Ok (gmail_send_bounds body)
  else if bool_decide (action = "conversation_send") && connector_named "piedpiper" connector
  then Ok (piedpiper_conversation_send_bounds body)
  else if bool_decide (action = "trigger_broadcast") && connector_named "customerio" connector
  then Ok (customerio_trigger_broadcast_bounds body)
  else if startswith "meta_" connector && bool_decide (action = "launch") then
    fields ← lift (meta_strict_fields id (Some body) form META_LAUNCH_FIELDS);
    Ok (mkBounds [] 0 None (meta_account_id path) [strip_slashes path] fields)
  else if startswith "meta_" connector && bool_decide (action = "budget_change") then
    fields ← lift (meta_strict_fields id (Some body) form META_BUDGET_FIELDS);
    spend ← map_err (λ _, Raised "OverflowError") (meta_budget_spend_usd (Some body) form);
    Ok (mkBounds [] 0 spend (meta_account_id path) [strip_slashes path] fields)
  else Ok no_bounds.
End extractors.

Lemma elem_of_id_set k l : k ∈ sorted_set l ↔ k ∈ l.
Proof. unfold sorted_set. by rewrite elem_of_sort_by, elem_of_elements, elem_of_list_to_set. Qed.
