(* ===== verification/Grants.v ===== *)
(** * Grants: [omniagentos/grants/store.py] and [validation.py]

    Campaign grants and their actions as a database of two tables, the validation of a
    durable approval token, and its atomic consumption.  A JSON column is its value, a
    REAL a float, and reading an ISO time a parameter.  [now] is the clock of
    [utc_now_iso], a text. *)

From Stdlib Require Import Ascii QArith.
From S2P Require Import Prelude PyString PyJson Records Connectors.
Open Scope Z_scope.

(** ** Rows *)

Record Grant := mkGrant {
  g_id : string;
  g_created_at : string;
  g_label : string;
  g_capability : string;
  g_target_set : json;
  g_project_id : option string;
  g_approval_id : option string;
  g_plan_approval_state : string;
  g_max_actions : option Z;
  g_max_spend_usd : option float;
  g_actions_used : Z;
  g_spend_used_usd : float;
  g_expires_at : option string;
  g_revoked_at : option string;
  g_revoke_reason : option string;
  g_metadata : json;
}.
#[export] Instance Grant_rebuild : Rebuild Grant := λ g,
  mkGrant g.(g_id) g.(g_created_at) g.(g_label) g.(g_capability) g.(g_target_set) g.(g_project_id) g.(g_approval_id)
    g.(g_plan_approval_state) g.(g_max_actions) g.(g_max_spend_usd) g.(g_actions_used) g.(g_spend_used_usd)
    g.(g_expires_at) g.(g_revoked_at) g.(g_revoke_reason) g.(g_metadata).

Record Action := mkAction {
  ac_id : string;
  ac_created_at : string;
  ac_grant_id : string;
  ac_capability : string;
  ac_target : option string;
  ac_spend_usd : float;
  ac_outcome : string;
  ac_ref_type : option string;
  ac_ref_id : option string;
  ac_detail : string;
}.

Record GrantsDb := mkGrants { gd_grants : list Grant; gd_actions : list Action }.
#[export] Instance GrantsDb_rebuild : Rebuild GrantsDb := λ d, mkGrants d.(gd_grants) d.(gd_actions).

Definition OUTCOMES : list string := ["ok"; "failed"; "broke_out"; "refused"].

Definition grant_is (id : string) (g : Grant) : bool := bool_decide (g.(g_id) = id).
Definition find_grant (id : string) (d : GrantsDb) : option Grant := List.find (grant_is id) d.(gd_grants).

(** [_grant]: an absent target set is empty, metadata that is not an object is empty. *)
Definition target_set (g : Grant) : json := match g.(g_target_set) with JNull => JList [] | v => v end.
Definition metadata (g : Grant) : dict := match g.(g_metadata) with JDict d => d | _ => [] end.

Section grants.
Context (rnd : Q → float) (float_repr : float → string) (sha256 : string → string)
        (mail_recipients : string → option (list string)) (as_datetime : string → option Z).

(** ** A live grant *)

Definition is_expired (expires_at : option string) (now : string) : bool :=
  match expires_at with
  | None | Some "" => false
  | Some text =>
      match as_datetime text, as_datetime now with
      | Some expiry, Some moment => expiry <=? moment
      | _, _ => true
      end
  end.
Definition blank (s : option string) : bool := match s with None | Some "" => true | _ => false end.

Definition dict_value (key : string) (d : dict) : json := default JNull (dict_get key d).

(** [None] for a live grant, else the reason; the second reading of a JSON number may raise. *)
Definition is_grant_live (g : Grant) (capability : option string) (spend_usd : float) (now : string) : option string :=
  if negb (blank g.(g_revoked_at)) then Some "revoked"
  else if negb (bool_decide (g.(g_plan_approval_state) = "approved")) then Some "not_approved"
  else if blank g.(g_expires_at) then Some "no_expiry"
  else if is_expired g.(g_expires_at) now then Some "expired"
  else if match capability with Some c => negb (bool_decide (c = g.(g_capability))) | None => false end
  then Some "capability_mismatch"
  else if match capability with
          | Some c => is_broadcast_capability c
                      && (match dict_value "max_recipients" (metadata g) with JNull => true | _ => false end
                          || negb (truthy (dict_value "audience_snapshot_hash" (metadata g))))
          | None => false end
  then Some "no_audience_bound"
  else match g.(g_max_actions) with
  | None => Some "no_max_actions"
  | Some max_actions =>
  if max_actions <=? g.(g_actions_used) then Some "max_actions"
  else if fl_lt spend_usd fl_zero then Some "invalid_spend"
  else match g.(g_max_spend_usd) with
  | None => Some "no_max_spend"
  | Some maximum =>
  let used := g.(g_spend_used_usd) in
  if fl_le maximum used || fl_lt maximum (fl_add rnd used spend_usd) then Some "max_spend"
  else None
  end end.

(** ** Validation of a token *)

Definition tool_name (capability : string) : string := (partition "." capability).2.
Definition connector_name (capability : string) : string := (partition "." capability).1.1.

(** [_as_int]: [TypeError] and [ValueError] give [None], an infinite float raises. *)
Definition as_int (v : json) (default : option Z) : result cast_error (option Z) :=
  match v with
  | JNull => Ok default
  | _ => match py_int v with
         | Ok n => Ok (Some n)
         | Err OverflowError => Err OverflowError
         | Err _ => Ok None end
  end.

Definition scoped_args_match (allowed : json) (presented : option dict) : option string :=
  match allowed with
  | JNull | JDict [] => None
  | JDict pins =>
      match presented with
      | None => Some "scoped_args_missing"
      | Some presented =>
          (fix go pins := match pins with
           | [] => None
           | (key, expected) :: pins =>
               match dict_get key presented with
               | None => Some "scoped_args_missing"
               | Some v => if json_eq v expected then go pins else Some "scoped_args_mismatch"
               end
           end) pins
      end
  | _ => Some "scoped_args_ambiguous"
  end.

Definition as_text (v : json) : option string := match v with JStr s => Some s | _ => None end.

(** [target not in set(target_set)] raises on an unhashable member. *)
Definition target_allowed (g : Grant) (target : option string) : result cast_error (option string) :=
  match target_set g with
  | JList [] => Ok None
  | JList l =>
      match target with
      | None => Ok (Some "target_ambiguous")
      | Some t => if negb (forallb is_hashable l) then Err TypeError
                  else if existsb (json_eq (JStr t)) l then Ok None else Ok (Some "target_breakout")
      end
  | _ => Ok (Some "target_set_ambiguous")
  end.

Definition AUDIENCE_DRIFT_TOLERANCE : Z := 0.

Definition body_bounds (capability : string) (scoped_args : option dict) : result call_error CallBounds :=
  extract_call_bounds rnd (λ _, None) float_repr mail_recipients capability ""
    (JDict (default [] scoped_args)) None.

Definition audience_bound_ok (g : Grant) (capability : string) (scoped_args : option dict) :
    result cast_error (option string) :=
  if negb (is_broadcast_capability capability) then Ok None
  else
    let meta := metadata g in
    max_recipients ← as_int (dict_value "max_recipients" meta) None;
    match max_recipients, dict_get "audience_snapshot_hash" meta with
    | Some max_recipients, Some (JStr (String _ _ as snapshot_hash)) =>
        count ← as_int (dict_value "audience_snapshot_count" meta) (Some 0);
        let snapshot_count := default 0 count in
        match body_bounds capability scoped_args with
        | Err _ => Err ValueError
        | Ok bounds =>
            if bool_decide (bounds.(cb_recipients) = []) then Ok (Some "audience_unverifiable")
            else if max_recipients <? bounds.(cb_recipient_count) then Ok (Some "max_recipients_exceeded")
            else if snapshot_count + AUDIENCE_DRIFT_TOLERANCE <? bounds.(cb_recipient_count)
            then Ok (Some "audience_drift")
            else if negb (bool_decide (audience_snapshot_hash sha256 bounds.(cb_recipients) = snapshot_hash))
            then Ok (Some "audience_snapshot_mismatch")
            else Ok None
        end
    | _, _ => Ok (Some "no_audience_bound")
    end.

Definition generation_match (g : Grant) (generation : option Z) : result cast_error (option string) :=
  match dict_get "generation" (metadata g) with
  | None => Ok (Some "generation_ambiguous")
  | Some pin =>
      expected ← as_int pin None;
      match expected, generation with
      | Some expected, Some presented => Ok (if presented =? expected then None else Some "generation_mismatch")
      | _, _ => Ok (Some "generation_ambiguous")
      end
  end.

(** A metadata pin against the name derived from the capability and the one presented. *)
Definition pin_mismatch (pinned : json) (derived : string) (presented : option string) : bool :=
  match pinned with
  | JNull => false
  | _ => let text := py_str float_repr pinned in
         negb (bool_decide (text = derived))
         || match presented with Some p => negb (bool_decide (text = p)) | None => false end
  end.

Definition pins_match (g : Grant) (capability : string) (action_class connector tool : option string) : option string :=
  let meta := metadata g in
  let derived_connector := connector_name g.(g_capability) in
  let derived_tool := tool_name g.(g_capability) in
  if negb (bool_decide (capability = g.(g_capability))) then Some "capability_mismatch"
  else if match connector with Some c => negb (bool_decide (c = derived_connector)) | None => false end
  then Some "connector_mismatch"
  else if match tool with Some t => negb (bool_decide (t = derived_tool)) | None => false end
  then Some "tool_mismatch"
  else match dict_value "action_class" meta, action_class with
  | JNull, _ | _, None => Some "action_class_ambiguous"
  | pinned, Some action_class =>
      if negb (bool_decide (py_str float_repr pinned = action_class)) then Some "action_class_mismatch"
      else if pin_mismatch (dict_value "connector" meta) derived_connector connector then Some "connector_mismatch"
      else if pin_mismatch (dict_value "tool" meta) derived_tool tool then Some "tool_mismatch"
      else None
  end.

(** What a caller presents with a token. *)
Record Presented := mkPresented {
  pr_capability : string;
  pr_action_class : option string;
  pr_connector : option string;
  pr_tool : option string;
  pr_target : option string;
  pr_generation : option Z;
  pr_scoped_args : option dict;
  pr_spend_usd : float;
}.

(** The checks of a loaded row, in their order: [Ok None] when all hold. *)
Definition check_row (g : Grant) (p : Presented) (now : string) : result cast_error (option string) :=
  match is_grant_live g (Some p.(pr_capability)) p.(pr_spend_usd) now with
  | Some reason => Ok (Some reason)
  | None =>
  match pins_match g p.(pr_capability) p.(pr_action_class) p.(pr_connector) p.(pr_tool) with
  | Some reason => Ok (Some reason)
  | None =>
  generation ← generation_match g p.(pr_generation);
  match generation with
  | Some reason => Ok (Some reason)
  | None =>
  target ← target_allowed g p.(pr_target);
  match target with
  | Some reason => Ok (Some reason)
  | None =>
  audience ← audience_bound_ok g p.(pr_capability) p.(pr_scoped_args);
  match audience with
  | Some reason => Ok (Some reason)
  | None => Ok (scoped_args_match (dict_value "scoped_args" (metadata g)) p.(pr_scoped_args))
  end end end end end.

Record ApprovalValidation := mkValidation { av_ok : bool; av_reason : string; av_grant : option Grant }.
Definition invalid (reason : string) : result cast_error ApprovalValidation := Ok (mkValidation false reason None).

(** What [grant_store.get_grant] gives for an id. *)
Inductive loaded := LoadRaised | LoadNone | LoadRow (g : Grant) | LoadOther.

(** The store is its [get_grant], [None] without a store or without the method. *)
Definition validate_approval_token (token : option string) (get_grant : option (string → loaded)) (p : Presented)
    (now : string) : result cast_error ApprovalValidation :=
  match get_grant with
  | None => invalid "grant_store_unavailable"
  | Some get_grant =>
  match token with
  | None => invalid "token_missing"
  | Some token =>
  let token := strip token in
  if bool_decide (token = "") then invalid "token_malformed"
  else match get_grant token with
  | LoadRaised => invalid "grant_store_error"
  | LoadNone => invalid "token_not_found"
  | LoadOther => invalid "token_malformed"
  | LoadRow g =>
      if negb (bool_decide (g.(g_id) = token)) then invalid "token_not_found"
      else
        reason ← check_row g p now;
        Ok (match reason with
            | Some reason => mkValidation false reason (Some g)
            | None => mkValidation true "ok" (Some g) end)
  end end end.

Definition normalize_grant_ref (approval_token grant_id : option string) : option string * string :=
  let token := strip <$> approval_token in
  let gid := strip <$> grant_id in
  if bool_decide (token = Some "") then (None, "token_malformed")
  else if bool_decide (gid = Some "") then (None, "token_malformed")
  else match token, gid with
  | Some t, Some g => if bool_decide (t = g) then (Some t, "") else (None, "token_grant_mismatch")
  | Some t, None => (Some t, "")
  | None, _ => (gid, "")
  end.

(** ** The store *)

Inductive grants_error :=
  | MintRefused (why : string)
  | BadOutcome (outcome : string)
  | IntegrityError
  | CastError (e : cast_error).

Definition with_cast {A} (m : result cast_error A) : result grants_error A := map_err CastError m.

(** [INSERT INTO grant_actions]: the grant exists, the id is new, the spend is a number. *)
Definition insert_action (action_id grant_id capability : string) (target : option string) (spend_usd : float)
    (outcome : string) (ref_type ref_id : option string) (detail now : string) :
    op GrantsDb grants_error Action := λ d,
  if negb (bool_decide (outcome ∈ OUTCOMES)) then (Err (BadOutcome outcome), d)
  else match sql_real spend_usd, find_grant grant_id d with
  | Some spend, Some _ =>
      if existsb (λ a, bool_decide (a.(ac_id) = action_id)) d.(gd_actions) then (Err IntegrityError, d)
      else
        let a := mkAction action_id now grant_id capability target spend outcome ref_type ref_id detail in
        (Ok a, d <| gd_actions := d.(gd_actions) ++ [a] |>)
  | _, _ => (Err IntegrityError, d)
  end.

Definition record_action (action_id grant_id capability : string) (target : option string) (spend_usd : float)
    (outcome : string) (ref_type ref_id : option string) (detail now : string) :
    op GrantsDb grants_error Action := write (λ d,
  let '(a, d) := insert_action action_id grant_id capability target spend_usd outcome ref_type ref_id detail now d in
  a ← a; Ok (a, d)).

Record ConsumeResult := mkConsume {
  cr_ok : bool;
  cr_outcome : string;
  cr_reason : string;
  cr_grant : option Grant;
  cr_action : option Action;
}.

Definition consume_update (spent : float) (g : Grant) : Grant :=
  g <| g_actions_used := g.(g_actions_used) + 1 |> <| g_spend_used_usd := spent |>.

(** [capability] defaults to the grant's own; [new_id] is the id of the action. *)
Definition try_consume (action_id grant_id : string) (capability : option string) (p : Presented)
    (ref_type ref_id : option string) (detail now : string) : op GrantsDb grants_error ConsumeResult := write (λ d,
  match find_grant grant_id d with
  | None => Ok (mkConsume false "refused" "not_found" None None, d)
  | Some g =>
      let requested := match capability with Some (String _ _ as c) => c | _ => g.(g_capability) end in
      let p := mkPresented requested p.(pr_action_class) p.(pr_connector) p.(pr_tool) p.(pr_target)
                 p.(pr_generation) p.(pr_scoped_args) p.(pr_spend_usd) in
      let get gid := if bool_decide (gid = grant_id) then LoadRow g else LoadNone in
      validation ← with_cast (validate_approval_token (Some grant_id) (Some get) p now);
      if negb validation.(av_ok) then
        let outcome := if bool_decide (validation.(av_reason) ∈ ["target_breakout"; "target_ambiguous"])
                       then "broke_out" else "refused" in
        let '(a, d) := insert_action action_id grant_id requested p.(pr_target) p.(pr_spend_usd) outcome
                         ref_type ref_id (if bool_decide (detail = "") then validation.(av_reason) else detail) now d in
        a ← a;
        Ok (mkConsume false outcome validation.(av_reason) (Some g) (Some a), d)
      else
        match sql_real (fl_add rnd g.(g_spend_used_usd) p.(pr_spend_usd)) with
        | None => Err IntegrityError
        | Some spent =>
            let d := d <| gd_grants := update_where (grant_is grant_id) (consume_update spent) d.(gd_grants) |> in
            let '(a, d) := insert_action action_id grant_id requested p.(pr_target) p.(pr_spend_usd) "ok"
                             ref_type ref_id detail now d in
            a ← a;
            Ok (mkConsume true "ok" "" (find_grant grant_id d) (Some a), d)
        end
  end).

(** The arguments of [create_grant] after the capability. *)
Record GrantRequest := mkRequest {
  rq_label : string;
  rq_target_set : json;
  rq_project_id : option string;
  rq_approval_id : option string;
  rq_max_actions : option Z;
  rq_max_spend_usd : option float;
  rq_max_recipients : option Z;
  rq_expires_at : option string;
  rq_metadata : dict;
  rq_plan_approval_state : option string;
}.
Definition refuse {A} (why : string) : result grants_error A := Err (MintRefused why).
Definition require (ok : bool) (why : string) : result grants_error () := if ok then Ok () else refuse why.
Definition blank_text (s : option string) : bool := match s with Some t => bool_decide (strip t = "") | None => true end.

(** The recipients bound of the metadata of a customer-message grant. *)
Definition audience_metadata (capability : string) (targets : list json) (max_recipients : option Z) (meta : dict) :
    result grants_error dict :=
  if is_broadcast_capability capability then
    require (negb (bool_decide (length targets = 0%nat))) "target_set";;
    let count := Z.of_nat (length targets) in
    let cap := default count max_recipients in
    require (count <=? cap) "max_recipients";;
    Ok (dict_set "audience_snapshot_count" (JInt count)
         (dict_set "audience_snapshot_hash"
            (JStr (audience_snapshot_hash sha256 (map (py_str float_repr) (List.filter truthy targets))))
            (dict_set "max_recipients" (JInt cap) meta)))
  else
    require (match max_recipients with None => true | Some _ => false end) "max_recipients";;
    Ok meta.

(** The checks in their order; [registry] is [None] when it cannot be loaded. *)
Definition checked_metadata (registry : option ConnectorRegistry) (capability : string) (r : GrantRequest) :
    result grants_error dict :=
  require (negb (blank_text r.(rq_approval_id))) "approval_id";;
  require (match r.(rq_max_actions) with Some n => 1 <=? n | None => false end) "max_actions";;
  require (match r.(rq_max_spend_usd) with Some x => negb (fl_lt x fl_zero) | None => false end) "max_spend_usd";;
  require (negb (blank_text r.(rq_expires_at))) "expires_at";;
  require (match r.(rq_target_set) with JNull | JList _ => true | _ => false end) "target_set";;
  require (match r.(rq_plan_approval_state) with None | Some "" | Some "approved" => true | _ => false end) "plan_approval_state";;
  generation ← match dict_get "generation" r.(rq_metadata) with
               | None => refuse "generation"
               | Some v => match py_int v with
                           | Ok n => Ok n
                           | Err OverflowError => Err (CastError OverflowError)
                           | Err _ => refuse "generation" end
               end;
  let meta := dict_set "generation" (JInt generation) r.(rq_metadata) in
  authoritative ← match registry with
                  | Some reg => match Connectors.capability reg capability with
                                | Ok c => Ok (action_class_value c.(cap_action_class))
                                | Err _ => refuse "capability" end
                  | None => refuse "capability" end;
  match dict_get "action_class" meta with
  | Some (JStr pinned) =>
      require (negb (bool_decide (strip pinned = ""))) "action_class";;
      require (bool_decide (pinned = authoritative)) "action_class";;
      audience_metadata capability (match r.(rq_target_set) with JList l => l | _ => [] end) r.(rq_max_recipients) meta
  | _ => refuse "action_class"
  end.

Definition create_grant (registry : option ConnectorRegistry) (grant_id capability : string) (r : GrantRequest)
    (now : string) : op GrantsDb grants_error Grant := write (λ d,
  meta ← checked_metadata registry capability r;
  if existsb (grant_is grant_id) d.(gd_grants) then Err IntegrityError
  else
    let g := mkGrant grant_id now r.(rq_label) capability
               (match r.(rq_target_set) with JNull => JList [] | v => v end) r.(rq_project_id) r.(rq_approval_id)
               "approved" r.(rq_max_actions) (r.(rq_max_spend_usd) ≫= sql_real) 0 fl_zero r.(rq_expires_at)
               None None (JDict meta) in
    Ok (g, d <| gd_grants := d.(gd_grants) ++ [g] |>)).

Definition get_grant (grant_id : string) (d : GrantsDb) : option Grant := find_grant grant_id d.

Definition revoke_update (reason now : string) (g : Grant) : Grant :=
  g <| g_revoked_at := Some now |> <| g_revoke_reason := Some reason |>.
Definition revoke_grant (grant_id reason now : string) : op GrantsDb grants_error (option Grant) := write (λ d,
  let d' := d <| gd_grants := update_where (grant_is grant_id) (revoke_update reason now) d.(gd_grants) |> in
  Ok (if bool_decide (rowcount (grant_is grant_id) d.(gd_grants) = 0%nat) then None else find_grant grant_id d', d')).

Definition matches_opt (want : option string) (have : option string) : bool :=
  match want with None => true | Some w => bool_decide (have = Some w) end.
Definition list_active_grants (capability project_id : option string) (now : string) (d : GrantsDb) : list Grant :=
  sort_by (λ g, (g.(g_created_at), g.(g_id)))
    (select (λ g, match g.(g_revoked_at) with None => true | Some _ => false end
                  && match g.(g_expires_at) with None => true | Some e => py_lt now e end
                  && matches_opt capability (Some g.(g_capability)) && matches_opt project_id g.(g_project_id))
       d.(gd_grants)).
End grants.
