(* ===== verification/CapabilityStore.v ===== *)
(** * CapabilityStore: [omniagentos/connectors/store.py]

    Standing capability grants, their append-only log, the bearer tokens of runs and
    the audit rows of broker calls, as a database of four tables.  The instants of a
    token are numbers; the expiry of a grant is its text.  The rows of [agents] that a
    grant may name, and the reading of an ISO time, are parameters. *)

From Stdlib Require Import Ascii.
From S2P Require Import Prelude PyString Records Connectors.
Open Scope Z_scope.

Record StandingGrant := mkStanding {
  sg_agent_id : string;
  sg_capability_id : string;
  sg_granted_at : string;
  sg_granted_by : string;
  sg_note : string;
  sg_mode : option string;
  sg_expires_at : option string;
  sg_issued_by : option string;
  sg_request_id : option string;
  sg_project_id : option string;
}.

Record LogRow := mkLog {
  lg_agent_id : string;
  lg_capability_id : string;
  lg_action : string;
  lg_action_class : string;
  lg_actor : string;
  lg_note : string;
  lg_ts : string;
  lg_mode : option string;
  lg_expires_at : option string;
  lg_issued_by : option string;
  lg_request_id : option string;
}.

Record Token := mkToken {
  tk_token : string;
  tk_run_id : string;
  tk_agent_id : string;
  tk_issued_at : Z;
  tk_expires_at : Z;
  tk_revoked : bool;
}.
#[export] Instance Token_rebuild : Rebuild Token := λ t,
  mkToken t.(tk_token) t.(tk_run_id) t.(tk_agent_id) t.(tk_issued_at) t.(tk_expires_at) t.(tk_revoked).

(** A row of [broker_calls], without its number and its time. *)
Record BrokerCall := mkCall {
  bc_run_id : string;
  bc_agent_id : string;
  bc_capability_id : string;
  bc_method : string;
  bc_path : string;
  bc_allowed : bool;
  bc_reason : string;
  bc_status : option Z;
  bc_call_id : string;
  bc_request_id : string;
  bc_task_id : string;
  bc_session_id : string;
  bc_holder : string;
  bc_action_mode : string;
  bc_connector : string;
  bc_env_name : string;
  bc_credential_id : string;
  bc_grant_id : string;
  bc_grant_issuer : string;
  bc_grant_expires_at : string;
  bc_target_host : string;
  bc_request_schema_hash : string;
  bc_decision : string;
  bc_reason_code : string;
  bc_upstream_status_class : string;
  bc_latency_ms : Z;
  bc_response_size_class : string;
  bc_budget_receipt_id : string;
  bc_correlation_id : string;
}.
#[export] Instance BrokerCall_rebuild : Rebuild BrokerCall := λ b,
  mkCall b.(bc_run_id) b.(bc_agent_id) b.(bc_capability_id) b.(bc_method) b.(bc_path) b.(bc_allowed) b.(bc_reason)
    b.(bc_status) b.(bc_call_id) b.(bc_request_id) b.(bc_task_id) b.(bc_session_id) b.(bc_holder) b.(bc_action_mode)
    b.(bc_connector) b.(bc_env_name) b.(bc_credential_id) b.(bc_grant_id) b.(bc_grant_issuer) b.(bc_grant_expires_at)
    b.(bc_target_host) b.(bc_request_schema_hash) b.(bc_decision) b.(bc_reason_code) b.(bc_upstream_status_class)
    b.(bc_latency_ms) b.(bc_response_size_class) b.(bc_budget_receipt_id) b.(bc_correlation_id).

Record CapDb := mkCapDb {
  cd_grants : list StandingGrant;
  cd_log : list LogRow;
  cd_tokens : list Token;
  cd_calls : list (string * BrokerCall);
}.
#[export] Instance CapDb_rebuild : Rebuild CapDb := λ d,
  mkCapDb d.(cd_grants) d.(cd_log) d.(cd_tokens) d.(cd_calls).

Inductive cap_error := Refused (e : connector_error) | RowConflict.

(** [s.replace(c, new)] for one character [c]. *)
Definition replace_with (c : ascii) (new s : string) : string :=
  concat_map_str (λ x, if Ascii.eqb x c then new else String x "") s.

Section store.
Context (registry : ConnectorRegistry) (known_agent : string → bool) (iso : string → option (bool * Z)).

(** [fromisoformat] of a text whose [Z] is spelled out: whether it has an offset, and the instant. *)
Definition parse_iso (s : string) : option (bool * Z) := iso (replace_with "Z" "+00:00" s).

Definition validate_expiry (expires_at : option string) : result cap_error () :=
  match expires_at with
  | None => Ok ()
  | Some text => match parse_iso text with Some (true, _) => Ok () | _ => Err (Refused BadExpiry) end
  end.

(** [_validate]: the class of each capability, in the order given. *)
Definition validate (capability_ids : list string) : result cap_error (list (string * ActionClass)) :=
  traverse (λ id, c ← map_err Refused (capability registry id); Ok (id, c.(cap_action_class))) capability_ids.

Definition grant_of (agent cap : string) (g : StandingGrant) : bool :=
  bool_decide (g.(sg_agent_id) = agent) && bool_decide (g.(sg_capability_id) = cap).
Definition of_agent (agent : string) (g : StandingGrant) : bool := bool_decide (g.(sg_agent_id) = agent).

Definition get_grant (agent_id : string) (d : CapDb) : list string :=
  sort_by id (map sg_capability_id (select (of_agent agent_id) d.(cd_grants))).
Definition holders_of (capability_id : string) (d : CapDb) : list string :=
  sort_by id (map sg_agent_id (select (λ g, bool_decide (g.(sg_capability_id) = capability_id)) d.(cd_grants))).
Definition grants_for_all (d : CapDb) : list (string * list string) :=
  foldl (λ out p, match p with (agent, cap) =>
           PyJson.dict_set agent (default [] (PyJson.dict_get agent out) ++ [cap]) out end) []
    (sort_by id (map (λ g, (g.(sg_agent_id), g.(sg_capability_id))) d.(cd_grants))).
Definition get_grant_row (agent_id capability_id : string) (d : CapDb) : option StandingGrant :=
  List.find (grant_of agent_id capability_id) d.(cd_grants).

Definition revoke_row (agent_id actor note now cap : string) : LogRow :=
  mkLog agent_id cap "revoke" "" actor note now None None None None.
Definition delete_one (agent_id actor note now : string) (d : CapDb) (cap : string) : CapDb :=
  d <| cd_grants := List.filter (λ g, negb (grant_of agent_id cap g)) d.(cd_grants) |>
    <| cd_log := d.(cd_log) ++ [revoke_row agent_id actor note now cap] |>.

(** [INSERT]: the agent exists and the key is new. *)
Definition insert_one (agent_id actor note now : string) (d : CapDb) (p : string * ActionClass) :
    result cap_error CapDb :=
  let '(cap, cls) := p in
  if negb (known_agent agent_id) || existsb (grant_of agent_id cap) d.(cd_grants) then Err RowConflict
  else Ok (d <| cd_grants := d.(cd_grants) ++
                  [mkStanding agent_id cap now actor note (Some "read") None None None None] |>
             <| cd_log := d.(cd_log) ++
                  [mkLog agent_id cap "grant" (action_class_value cls) actor note now None None None None] |>).

Fixpoint each_row {A} (f : CapDb → A → result cap_error CapDb) (d : CapDb) (l : list A) : result cap_error CapDb :=
  match l with [] => Ok d | x :: l => d ← f d x; each_row f d l end.

(** The transaction of [set_grant], with what was held when the differences were taken. *)
Definition apply_grant (agent_id : string) (classes : list (string * ActionClass)) (current : list string)
    (actor note now : string) : op CapDb cap_error (list string) := write (λ d,
  let desired := map fst classes in
  let removed := List.filter (λ c, negb (bool_decide (c ∈ desired))) (sorted_set current) in
  let added := List.filter (λ p, negb (bool_decide (p.1 ∈ current))) classes in
  let d := foldl (delete_one agent_id actor note now) d removed in
  d ← each_row (insert_one agent_id actor note now) d added;
  Ok (desired, d)).

Definition set_grant (agent_id : string) (capability_ids : list string) (actor note now : string) :
    op CapDb cap_error (list string) := λ d,
  match validate (sorted_set capability_ids) with
  | Err e => (Err e, d)
  | Ok classes =>
      let current := map sg_capability_id (select (of_agent agent_id) d.(cd_grants)) in
      apply_grant agent_id classes current actor note now d
  end.

Definition upsert_grant (row : StandingGrant) (t : list StandingGrant) : list StandingGrant :=
  let p := grant_of row.(sg_agent_id) row.(sg_capability_id) in
  if existsb p t then update_where p (λ _, row) t else t ++ [row].

Definition issue_one (agent_id mode : string) (expires_at : option string) (issued_by : string)
    (request_id project_id : option string) (actor note now : string) (d : CapDb) (p : string * ActionClass) :
    result cap_error CapDb :=
  let '(cap, cls) := p in
  if negb (known_agent agent_id) then Err RowConflict
  else Ok (d <| cd_grants := upsert_grant (mkStanding agent_id cap now actor note (Some mode) expires_at
                               (Some issued_by) request_id project_id) d.(cd_grants) |>
             <| cd_log := d.(cd_log) ++ [mkLog agent_id cap "grant" (action_class_value cls) actor note now
                               (Some mode) expires_at (Some issued_by) request_id] |>).

Definition issue_scoped_grant (agent_id : string) (capability_ids : list string) (mode : string)
    (expires_at : option string) (issued_by : string) (request_id project_id : option string)
    (actor note now : string) : op CapDb cap_error (list string) := write (λ d,
  classes ← validate (sorted_set capability_ids);
  if negb (bool_decide (mode ∈ ["read"; "write"])) then Err (Refused BadMode)
  else
    validate_expiry expires_at;;
    d ← each_row (issue_one agent_id mode expires_at issued_by request_id project_id actor note now) d classes;
    Ok (map fst classes, d)).

(** [ORDER BY id DESC LIMIT ?]; a negative limit is no limit. *)
Definition newest {A} (limit : Z) (l : list A) : list A :=
  let l := rev l in if limit <? 0 then l else take (Z.to_nat limit) l.
Definition grant_log (agent_id : option string) (limit : Z) (d : CapDb) : list LogRow :=
  newest limit (match agent_id with
                | Some (String _ _ as a) => select (λ r, bool_decide (r.(lg_agent_id) = a)) d.(cd_log)
                | _ => d.(cd_log) end).

(** ** Tokens *)

Definition issue_token (token run_id agent_id : string) (ttl_seconds now : Z) : op CapDb cap_error string := write (λ d,
  if existsb (λ t, bool_decide (t.(tk_token) = token)) d.(cd_tokens) then Err RowConflict
  else Ok (token, d <| cd_tokens := d.(cd_tokens) ++ [mkToken token run_id agent_id now (now + ttl_seconds) false] |>)).

Definition resolve_token (token : string) (now : Z) (d : CapDb) : option (string * string) :=
  match List.find (λ t, bool_decide (t.(tk_token) = token) && negb t.(tk_revoked)) d.(cd_tokens) with
  | Some t => if t.(tk_expires_at) <=? now then None else Some (t.(tk_run_id), t.(tk_agent_id))
  | None => None
  end.

Definition revoke_tokens_for_run (run_id : string) : op CapDb cap_error () := write (λ d,
  Ok (tt, d <| cd_tokens := update_where (λ t, bool_decide (t.(tk_run_id) = run_id))
                              (λ t, t <| tk_revoked := true |>) d.(cd_tokens) |>)).

(** ** The audit rows of calls *)

Definition log_call (row : BrokerCall) (now : string) : op CapDb cap_error () := write (λ d,
  let row := row <| bc_reason := or_text row.(bc_reason_code) row.(bc_reason) |>
                 <| bc_reason_code := or_text row.(bc_reason_code) row.(bc_reason) |>
                 <| bc_holder := or_text row.(bc_holder) row.(bc_agent_id) |>
                 <| bc_latency_ms := Z.max 0 row.(bc_latency_ms) |> in
  Ok (tt, d <| cd_calls := d.(cd_calls) ++ [(now, row)] |>)).

Definition call_log (run_id : option string) (limit : Z) (d : CapDb) : list (string * BrokerCall) :=
  newest limit (match run_id with
                | Some (String _ _ as r) => select (λ p, bool_decide (p.2.(bc_run_id) = r)) d.(cd_calls)
                | _ => d.(cd_calls) end).
End store.
