(* ===== verification/Broker.v ===== *)
(** * Broker: authorization in [omniagentos/connectors/broker.py]

    Who may make a call: membership, lifecycle, project binding, the hard-human gate and
    the request allowlist.  The grant store is whatever object the caller passes in: the
    class [GrantStore] has the methods the broker looks for, an absent one is [None].
    Both stores of the program are instances. *)

From Stdlib Require Import Ascii QArith.
From S2P Require Import Prelude PyString PyRegex PyJson Records Connectors Grants CapabilityStore.
Open Scope Z_scope.

(** ** The store the broker is given *)

Inductive got := GotRaised | GotNone | GotRow (g : Grant) | GotList (l : list string).
Inductive got_row := RowRaised | RowNone | RowIs (r : StandingGrant).

Class GrantStore (S : Type) := {
  gs_get_grant : string → S → got;
  gs_get_grant_row : option (string → string → S → got_row);
  gs_try_consume : option (string → option string → Presented → string → op S grants_error ConsumeResult);
}.

(** ** Classification of a call *)

Definition HARD_HUMAN_CLASSES : list ActionClass := [CONSEQUENTIAL; IRREVERSIBLE].
Definition PAYMENT_GROUPS : list string := ["payments"].
Definition READ_METHODS : list string := ["GET"; "HEAD"; "OPTIONS"].

(** [str.upper] of letters; code points whose capital is not one Latin-1 character stay. *)
Definition upper_char (c : ascii) : ascii :=
  let n := code c in
  if (is_lower c || (224 <=? n) && (n <=? 254) && negb (n =? 247))%nat then ascii_of_nat (n - 32) else c.
Definition upper : string → string := map_str upper_char.

Definition is_read_only_query_post (c : Capability) (method path : string) : bool :=
  bool_decide (c.(cap_id) ∈ ["nmi_fortpoint.read"; "nmi_glacier.read"])
  && bool_decide (upper method = "POST") && bool_decide (path = "/api/query.php").

Definition mutates (method : string) : bool := negb (bool_decide (upper method ∈ READ_METHODS)).

Definition is_money_write (c : Capability) (method path : string) : bool :=
  bool_decide (c.(cap_group) ∈ PAYMENT_GROUPS) && mutates method && negb (is_read_only_query_post c method path).

Section registry.
(** [None] when the registry cannot be loaded. *)
Context (registry : option ConnectorRegistry).

Definition danger_groups : list string :=
  match registry with
  | Some r => map fst (List.filter (λ p : string * Group, p.2.(gr_danger)) r.(rg_groups))
  | None => PAYMENT_GROUPS
  end.
Definition is_dangerous_write (c : Capability) (method path : string) : bool :=
  bool_decide (c.(cap_group) ∈ danger_groups) && mutates method && negb (is_read_only_query_post c method path).
End registry.

Definition effective_grant (agent_caps : list string) (task_caps : option (list string)) : list string :=
  match task_caps with
  | None => sorted_set agent_caps
  | Some l => sorted_set (List.filter (λ c, bool_decide (c ∈ l)) agent_caps)
  end.

(** ** The request *)

Definition full_match (r : regex) (s : string) : bool := existsb (λ q, bool_decide (q.2 = "")) (run r (None, s)).

Definition validate_request (c : Capability) (method path : string) : result BrokerDenied () :=
  match c.(cap_http) with
  | None => denied "no_call_path" c.(cap_id) ""
  | Some spec =>
      if negb (bool_decide (upper method ∈ map upper spec.(h_methods)))
      then denied "method_not_allowed" c.(cap_id) ""
      else if existsb (λ seg, bool_decide (seg ∈ [".."; "."])) (split "/" path)
      then denied "path_not_allowed" c.(cap_id) ""
      else if negb (bool_decide (spec.(h_path_prefixes) = [])) && negb (existsb (λ p, startswith p path) spec.(h_path_prefixes))
      then denied "path_not_allowed" c.(cap_id) ""
      else if match spec.(h_path_regex) with Some r => negb (full_match r path) | None => false end
      then denied "path_not_allowed" c.(cap_id) ""
      else Ok ()
  end.

Definition scoped_args_from_request (body : json) (form : option json) : option dict :=
  let merged := dict_update (match form with Some (JDict f) => dict_update [] f | _ => [] end)
                            (match body with JDict b => b | _ => [] end) in
  match merged with [] => None | _ => Some merged end.

Definition claims_budget (v : option json) : bool :=
  match v with Some (JDict d) => dict_mem "daily_budget" d || dict_mem "lifetime_budget" d | _ => false end.
Definition request_claims_budget_amount (body : json) (form : option json) : bool :=
  claims_budget (Some body) || claims_budget form.

(** ** Project binding *)

(** [_row_project]: a blank binding is none. *)
Definition row_project (project_id : option string) : option string :=
  match project_id with
  | Some text => if bool_decide (strip text = "") then None else Some (strip text)
  | None => None
  end.

Definition enforce_project_binding (cap : string) (project_id : option string)
    (bindings : list (string * option string)) : result BrokerDenied () :=
  match project_id with
  | None =>
      match List.find (λ p : string * option string, match p.2 with Some _ => true | None => false end) bindings with
      | Some _ => denied "call_project_unknown" cap ""
      | None => Ok ()
      end
  | Some project =>
      match bindings with
      | [] => denied "grant_project_unbound" cap ""
      | _ =>
          (fix go l := match l with
           | [] => Ok ()
           | (_, None) :: _ => denied "grant_project_unbound" cap ""
           | (_, Some bound) :: l =>
               if bool_decide (bound = project) then go l else denied "grant_project_mismatch" cap ""
           end) bindings
      end
  end.

(** ** Authorization *)

Record AuthRequest := mkAuth {
  au_cap_id : string;
  au_approval_token : option string;
  au_grant_id : option string;
  au_agent_id : option string;
  au_method : string;
  au_path : string;
  au_target : option string;
  au_generation : option Z;
  au_scoped_args : option dict;
  au_project_id : option string;
  au_grant_holder : option string;
}.

Section authorize.
Context (registry : option ConnectorRegistry) (rnd : Q → float) (float_repr : float → string)
        (sha256 : string → string) (mail_recipients : string → option (list string))
        (iso : string → option (bool * Z)).
Context {S : Type} `{GrantStore S}.

Definition as_datetime (s : string) : option Z := snd <$> parse_iso iso s.

Definition get_for_validation (s : S) (token : string) : loaded :=
  match gs_get_grant token s with
  | GotRaised => LoadRaised
  | GotNone => LoadNone
  | GotRow g => LoadRow g
  | GotList _ => LoadOther
  end.
Definition validate (store : option S) (token : option string) (p : Presented) (now : string) :
    result call_error ApprovalValidation :=
  map_err (λ _, Raised "cast")
    (validate_approval_token rnd float_repr sha256 mail_recipients as_datetime token
       (get_for_validation <$> store) p now).

Definition standing_project (store : option S) (holder cap : string) (required : bool) :
    result BrokerDenied (option string) :=
  match store, gs_get_grant_row with
  | Some s, Some reader =>
      match reader holder cap s with
      | RowRaised => denied "grant_store_unavailable" cap ""
      | RowNone => Ok None
      | RowIs r => Ok (row_project r.(sg_project_id))
      end
  | _, _ => if required then denied "grant_store_unavailable" cap "" else Ok None
  end.

Definition campaign_project (s : S) (grant_id cap : string) : result BrokerDenied (option string) :=
  match gs_get_grant grant_id s with
  | GotRaised => denied "grant_store_unavailable" cap ""
  | GotRow g => Ok (row_project g.(g_project_id))
  | _ => Ok None
  end.

Definition presented_by (c : Capability) (target : option string) (generation : option Z)
    (scoped_args : option dict) (spend : float) : Presented :=
  mkPresented c.(cap_id) (Some (action_class_value c.(cap_action_class))) (Some c.(cap_connector))
    (Some (tool_name c.(cap_id))) target generation scoped_args spend.

(** [(ok, reason)] *)
Definition durable_hard_human_ok (c : Capability) (store : option S) (r : AuthRequest) (now : string) :
    result call_error (bool * string) :=
  match normalize_grant_ref r.(au_approval_token) r.(au_grant_id) with
  | (None, "") => Ok (false, "token_missing")
  | (Some ref, "") =>
      match store with
      | Some _ =>
          v ← validate store (Some ref) (presented_by c r.(au_target) r.(au_generation) r.(au_scoped_args) fl_zero) now;
          Ok (v.(av_ok), v.(av_reason))
      | None => Ok (false, "grant_store_unavailable")
      end
  | (_, reason) => Ok (false, reason)
  end.

(** The current row of an identified agent: present, unexpired and of a sufficient mode. *)
Definition lifecycle_row (c : Capability) (store : option S) (agent : string) (r : AuthRequest) (now : string) :
    result BrokerDenied StandingGrant :=
  match store, gs_get_grant_row with
  | Some s, Some reader =>
      match reader agent r.(au_cap_id) s with
      | RowRaised => denied "grant_store_unavailable" r.(au_cap_id) ""
      | RowNone => denied "not_granted" r.(au_cap_id) ""
      | RowIs row =>
          let expired := match row.(sg_expires_at) with
                         | None | Some "" => false
                         | Some text => match parse_iso iso text, as_datetime now with
                                        | Some (true, e), Some moment => e <=? moment
                                        | _, _ => true end end in
          if expired then denied "grant_expired" r.(au_cap_id) ""
          else if bool_decide (or_text (default "" row.(sg_mode)) "read" = "read")
                  && (is_money_write c r.(au_method) r.(au_path)
                      || is_dangerous_write registry c r.(au_method) r.(au_path))
          then denied "mode_denied" r.(au_cap_id) ""
          else Ok row
      end
  | _, _ => denied "grant_store_unavailable" r.(au_cap_id) ""
  end.

(** The projects the durable rows of this call are bound to. *)
Definition project_bindings (store : option S) (row : option StandingGrant) (r : AuthRequest) :
    result BrokerDenied (list (string * option string)) :=
  standing ← match row, r.(au_grant_holder) with
             | Some row, _ => Ok [("standing", row_project row.(sg_project_id))]
             | None, Some holder =>
                 p ← standing_project store holder r.(au_cap_id)
                       (match r.(au_project_id) with Some _ => true | None => false end);
                 Ok [("standing", p)]
             | None, None => Ok []
             end;
  campaign ← match r.(au_grant_id), store with
             | Some gid, Some s => p ← campaign_project s gid r.(au_cap_id); Ok [("campaign", p)]
             | _, _ => Ok []
             end;
  Ok (standing ++ campaign).

Definition present {A} (o : option A) : bool := match o with Some _ => true | None => false end.

(** The hard-human gate. *)
Definition hard_human_gate (c : Capability) (store : option S) (r : AuthRequest) (now : string) :
    result call_error () :=
  if bool_decide (c.(cap_action_class) ∈ HARD_HUMAN_CLASSES) then
    '(ok, reason) ← durable_hard_human_ok c store r now;
    if (ok : bool) then Ok ()
    else
      let '(ref, norm_reason) := normalize_grant_ref r.(au_approval_token) r.(au_grant_id) in
      if present ref || negb (bool_decide (norm_reason = "")) || present r.(au_approval_token) || present r.(au_grant_id)
      then lift (denied "invalid_approval_token" r.(au_cap_id) (or_text norm_reason reason))
      else lift (denied "requires_human_approval" r.(au_cap_id) "")
  else Ok ().

Definition authorize (store : option S) (granted : list string) (r : AuthRequest) (now : string) :
    result call_error Capability :=
  match registry with
  | None => Err (Raised "ConnectorError")
  | Some reg =>
  match Connectors.capability reg r.(au_cap_id) with
  | Err _ => lift (denied "unknown_capability" r.(au_cap_id) "")
  | Ok c =>
  if negb (bool_decide (r.(au_cap_id) ∈ granted)) then lift (denied "not_granted" r.(au_cap_id) "")
  else
    row ← match r.(au_agent_id) with
          | Some agent => row ← lift (lifecycle_row c store agent r now); Ok (Some row)
          | None => Ok None
          end;
    bindings ← lift (project_bindings store row r);
    lift (enforce_project_binding r.(au_cap_id) r.(au_project_id) bindings);;
    hard_human_gate c store r now;;
    if callable_now c then Ok c else lift (denied "no_call_path" r.(au_cap_id) "")
  end end.

Definition require_dry_run_flag (value : json) (cap : string) : result BrokerDenied bool :=
  match value with JBool b => Ok b | _ => denied "invalid_dry_run_flag" cap "" end.

(** A refusal of the durable grant as a denial. *)
Definition grant_denied {A} (cap reason : string) : result call_error A :=
  lift (denied (if bool_decide (reason ∈ ["target_breakout"; "target_ambiguous"])
                then "grant_broke_out" else "grant_refused") cap reason).

Definition validate_grant_without_consuming (c : Capability) (cap : string) (s : S) (grant_id : string)
    (p : Presented) (now : string) : result call_error () :=
  match validate (Some s) (Some grant_id) p now with
  | Err _ => lift (denied "grant_refused" cap "")
  | Ok v => if v.(av_ok) then Ok () else grant_denied cap v.(av_reason)
  end.

(** What a call passes down to [authorize_with_grant]. *)
Record GrantCall := mkGrantCall {
  gc_cap_id : string;
  gc_granted : option (list string);
  gc_grant_id : option string;
  gc_grant_holder : option string;
  gc_target : option string;
  gc_spend_usd : float;
  gc_generation : option Z;
  gc_scoped_args : option dict;
  gc_agent_id : option string;
  gc_method : string;
  gc_path : string;
  gc_project_id : option string;
  gc_consume : bool;
}.

Definition standing_request (r : GrantCall) : AuthRequest :=
  mkAuth r.(gc_cap_id) None None r.(gc_agent_id) r.(gc_method) r.(gc_path) None None None r.(gc_project_id)
    r.(gc_grant_holder).
Definition campaign_request (r : GrantCall) : AuthRequest :=
  mkAuth r.(gc_cap_id) None r.(gc_grant_id) r.(gc_agent_id) r.(gc_method) r.(gc_path) r.(gc_target)
    r.(gc_generation) r.(gc_scoped_args) r.(gc_project_id) None.

(** [now] is read by the authorization, [later] by the consumption. *)
Definition authorize_with_grant (r : GrantCall) (now later : string) : op (option S) call_error Capability := λ store,
  let cap := r.(gc_cap_id) in
  match store with
  | None => (lift (denied "grant_store_unavailable" cap ""), store)
  | Some s =>
  match r.(gc_grant_holder) with
  | Some holder =>
      (match r.(gc_granted) with
       | Some _ => lift (denied "caller_supplied_grant" cap "")
       | None =>
       match r.(gc_grant_id) with
       | Some _ => lift (denied "invalid_grant_reference" cap "")
       | None =>
       match gs_get_grant holder s with
       | GotList stored => authorize store stored (standing_request r) now
       | _ => lift (denied "grant_store_unavailable" cap "")
       end end end, store)
  | None =>
  match r.(gc_grant_id), r.(gc_granted) with
  | Some grant_id, Some granted =>
      match gs_get_grant grant_id s with
      | GotRaised => (lift (denied "grant_store_unavailable" cap ""), store)
      | GotNone => (lift (denied "grant_not_found" cap ""), store)
      | _ =>
          match authorize store granted (campaign_request r) now with
          | Err e => (Err e, store)
          | Ok c =>
              let p := mkPresented cap (Some (action_class_value c.(cap_action_class))) (Some c.(cap_connector))
                         (Some (tool_name cap)) r.(gc_target) r.(gc_generation) r.(gc_scoped_args) r.(gc_spend_usd) in
              if negb r.(gc_consume) then
                (validate_grant_without_consuming c cap s grant_id p later;; Ok c, store)
              else match gs_try_consume with
              | None => (Err (Raised "AttributeError"), store)
              | Some try_consume =>
                  match try_consume grant_id (Some cap) p later s with
                  | (Err _, s') => (Err (Raised "grant store"), Some s')
                  | (Ok res, s') =>
                      (if res.(cr_ok) then Ok c
                       else if bool_decide (res.(cr_outcome) = "broke_out")
                            then lift (denied "grant_broke_out" cap res.(cr_reason))
                            else lift (denied "grant_refused" cap res.(cr_reason)), Some s')
                  end
              end
          end
      end
  | _, _ => (lift (denied "invalid_grant_reference" cap ""), store)
  end end end.
End authorize.

(** ** The two stores of the program *)

(** [fresh] is [new_id], unused in the table it is given. *)
Section instances.
Context (rnd : Q → float) (float_repr : float → string) (sha256 : string → string)
        (mail_recipients : string → option (list string)) (iso : string → option (bool * Z))
        (fresh : GrantsDb → string).
Definition GrantsDb_store : GrantStore GrantsDb := {|
  gs_get_grant id d := match find_grant id d with Some g => GotRow g | None => GotNone end;
  gs_get_grant_row := None;
  gs_try_consume := Some (λ id cap p now d,
    try_consume rnd float_repr sha256 mail_recipients (as_datetime iso) (fresh d) id cap p None None "" now d);
|}.
End instances.
#[export] Instance CapDb_store : GrantStore CapDb := {|
  gs_get_grant agent d := GotList (get_grant agent d);
  gs_get_grant_row := Some (λ agent cap d, match get_grant_row agent cap d with Some r => RowIs r | None => RowNone end);
  gs_try_consume := None;
|}.
