(* ===== verification/BrokerCalls.v ===== *)
(** * BrokerCalls: calls and credentials in [omniagentos/connectors/broker.py] and [oauth.py]

    One call: authorization, the hard stops, the credentials, the request and the two
    audit rows.  What the process does to the outside is the list of events of the
    [World].  The process environment, the catalogue of secrets, the permission guard,
    the token endpoint, the provider, the audit sink, clocks, identifiers, digests and
    encoders are the fields of [Machine]. *)

From Stdlib Require Import Ascii QArith.
From stdpp Require Import pretty.
From S2P Require Import Prelude PyString PyRegex PyJson Records Connectors Grants CapabilityStore Broker.
Open Scope Z_scope.

Record Outgoing := mkOutgoing {
  out_method : string;
  out_url : string;
  out_headers : list (string * string);
  out_params : dict;
  out_json : json;
  out_data : dict;
  out_cert : option (string * string);
  out_content : option string;
  out_sni : option string;
}.
Record Response := mkResponse { rs_status : Z; rs_json : option json; rs_text : string }.

(** The time, the identifiers and everything outside of the process. *)
Record Machine := mkMachine {
  mc_environ : string → string;
  mc_catalog : string → string;
  mc_store_present : bool;
  mc_violation : string → bool;
  mc_monotonic : float;
  mc_token_endpoint : string → string → string → option (Z * option json);
  mc_time : Z;
  mc_sha1 : string → string;
  mc_base64 : string → string;
  mc_dumps : json → string;
  mc_with_query : string → dict → string;
  mc_send : Outgoing → option Response;
  mc_sink_opens : bool;
  mc_row_written : BrokerCall → bool;
  mc_call_id : string;
  mc_request_id : string;
  mc_latency_ms : Z;
  mc_digest : json → option json → string;
  mc_hostname : string → string;
}.

Inductive event :=
  | EvAudit (row : BrokerCall)
  | EvSecret (name : string)
  | EvToken (refresh_env : string)
  | EvSend (request : Outgoing)
  | EvEcho (body : json).

Record World (S : Type) := mkWorld {
  w_store : option S;
  w_tokens : list (string * (string * float));
  w_events : list event;
}.
Arguments mkWorld {S}. Arguments w_store {S}. Arguments w_tokens {S}. Arguments w_events {S}.

Record CallResult := mkResult {
  rt_status : Z;
  rt_bounds : CallBounds;
  rt_ok : bool;
  rt_dry_run : bool;
  rt_body : json;
}.

(** The arguments of [call]. *)
Record CallRequest := mkCallRequest {
  rc_cap_id : string;
  rc_granted : option (list string);
  rc_method : string;
  rc_path : string;
  rc_query : dict;
  rc_body : json;
  rc_form : option json;
  rc_approval_token : option string;
  rc_grant_id : option string;
  rc_grant_holder : option string;
  rc_agent_id : option string;
  rc_generation : option Z;
  rc_project_id : option string;
  rc_dry_run : json;
}.

Record AuditContext := mkContext {
  cx_holder : string;
  cx_run_id : string;
  cx_task_id : string;
  cx_session_id : string;
  cx_request_id : string;
  cx_grant_id : string;
  cx_grant_issuer : string;
  cx_grant_expires_at : string;
  cx_budget_receipt_id : string;
  cx_correlation_id : string;
}.
#[export] Instance AuditContext_rebuild : Rebuild AuditContext := λ c,
  mkContext c.(cx_holder) c.(cx_run_id) c.(cx_task_id) c.(cx_session_id) c.(cx_request_id) c.(cx_grant_id)
    c.(cx_grant_issuer) c.(cx_grant_expires_at) c.(cx_budget_receipt_id) c.(cx_correlation_id).

(** [^(?:lane|loop|job|human):[^\s:]+(?:\.[^\s:]+)*$|^system$] *)
Definition name_char : regex := Chr (λ c, negb (is_space c || Ascii.eqb c ":")).
Definition plus (r : regex) : regex := Seq r (Star r).
Definition CANONICAL_HOLDER : regex :=
  Alt (seqs [alts [lit false "lane"; lit false "loop"; lit false "job"; lit false "human"]; lit false ":";
             plus name_char; Star (Seq (lit false ".") (plus name_char))])
      (lit false "system").

(** ** A monad of calls *)

Section monad.
Context {S : Type}.
Definition call_m (A : Type) : Type := op (World S) call_error A.
Definition ret {A} (a : A) : call_m A := λ w, (Ok a, w).
Definition fail {A} (e : call_error) : call_m A := λ w, (Err e, w).
Definition lift_m {A} (m : result call_error A) : call_m A := λ w, (m, w).
Definition refuse_m {A} (reason id detail : string) : call_m A := lift_m (lift (denied reason id detail)).
Definition bind_m {A B} (m : call_m A) (f : A → call_m B) : call_m B := λ w,
  match m w with (Ok a, w') => f a w' | (Err e, w') => (Err e, w') end.
Definition emit (e : event) : call_m () := λ w, (Ok tt, mkWorld w.(w_store) w.(w_tokens) (w.(w_events) ++ [e])).
End monad.
Declare Scope call_scope.
Notation "'let*' x ':=' m 'in' k" := (bind_m m (λ x, k))
  (at level 10, x binder, m at level 100, k at level 200) : call_scope.
Open Scope call_scope.

Section calls.
Context (mc : Machine).
Context (registry : option ConnectorRegistry) (rnd : Q → float) (float_of_text : string → option float)
        (float_repr : float → string) (sha256 : string → string)
        (mail_recipients : string → option (list string)) (iso : string → option (bool * Z)).
Context {S : Type} `{GrantStore S}.
Abbreviation M := (@call_m S).

(** ** Credentials *)

Definition GUARD_MODES : list string := ["off"; "shadow"; "enforce"].
Definition guard_mode : string :=
  let raw := lower (strip (mc.(mc_environ) "OMNIAGENTOS_STORE_PERMISSION_GUARD")) in
  if bool_decide (raw ∈ GUARD_MODES) then raw else "shadow".

Definition declared_env_names (c : Capability) : result call_error (list string) :=
  match registry with
  | None => Err (Raised "ConnectorError")
  | Some r => match dict_get c.(cap_connector) r.(rg_connectors) with
              | Some cn => Ok cn.(cn_env)
              | None => lift (denied "env_name_out_of_scope" c.(cap_id) "")
              end
  end.

(** The guard refuses only in [enforce]; elsewhere it logs. *)
Definition guard_refuses (env_name : string) : bool :=
  negb (bool_decide (guard_mode = "off")) && mc.(mc_store_present) && mc.(mc_violation) env_name
  && bool_decide (guard_mode = "enforce").

Definition resolve_secret (c : Capability) (env_name : string) : M string :=
  let* declared := lift_m (declared_env_names c) in
  if negb (bool_decide (env_name ∈ declared)) then refuse_m "env_name_out_of_scope" c.(cap_id) ""
  else if negb (bool_decide (mc.(mc_catalog) env_name = "")) then refuse_m (mc.(mc_catalog) env_name) env_name ""
  else if guard_refuses env_name then refuse_m "credential_unavailable" env_name ""
  else
    let* _ := emit (EvSecret env_name) in
    let value := mc.(mc_environ) env_name in
    if bool_decide (value = "") then
      if forallb (λ n, bool_decide (mc.(mc_environ) n = "")) declared
      then refuse_m "capability_unprovisioned" c.(cap_id) "" else refuse_m "credential_missing" env_name ""
    else ret value.

Fixpoint resolve_each (c : Capability) (names : list string) : M (list (string * string)) :=
  match names with
  | [] => ret []
  | n :: names => let* v := resolve_secret c n in let* rest := resolve_each c names in ret ((n, v) :: rest)
  end.
Definition resolve_for_unlogged (c : Capability) : M (list (string * string)) :=
  let* names := lift_m (declared_env_names c) in resolve_each c names.

(** The closure of [_scoped_resolver] reads a name once; [known] are the names read. *)
Definition scoped_resolve (c : Capability) (known : list (string * string)) (env_name : string) :
    M (string * list (string * string)) :=
  let* allowed := lift_m (declared_env_names c) in
  if negb (bool_decide (env_name ∈ allowed)) then refuse_m "env_name_out_of_scope" c.(cap_id) ""
  else match dict_get env_name known with
       | Some v => ret (v, known)
       | None => let* v := resolve_secret c env_name in ret (v, known ++ [(env_name, v)])
       end.

(** ** The token endpoint, [oauth.py] *)

Definition EXPIRY_SKEW_SECONDS : float := fl_int 60.

Definition token_ttl (payload : dict) : result call_error float :=
  match py_float rnd float_of_text (default (JInt 3600) (dict_get "expires_in" payload)) with
  | Ok ttl => Ok ttl
  | Err OverflowError => Err (Raised "OverflowError")
  | Err _ => Ok (fl_int 3600)
  end.
Definition cache_token (key token : string) (expiry : float) : M () := λ w,
  (Ok tt, mkWorld w.(w_store) (dict_set key (token, expiry) w.(w_tokens)) w.(w_events)).
Definition cached_token (key : string) : M (option (string * float)) := λ w, (Ok (dict_get key w.(w_tokens)), w).

(** [OAuthTokenError] becomes the denial of the caller. *)
Definition mint_fresh (c : Capability) (scheme refresh_env client_id_env client_secret_env : string) : M string :=
  let* a := scoped_resolve c [] refresh_env in
  let* b := scoped_resolve c a.2 client_id_env in
  let* d := scoped_resolve c b.2 client_secret_env in
  let* _ := emit (EvToken refresh_env) in
  match mc.(mc_token_endpoint) b.1 d.1 a.1 with
  | Some (200, Some (JDict payload)) =>
      match dict_get "access_token" payload with
      | Some (JStr (String _ _ as token)) =>
          let* ttl := lift_m (token_ttl payload) in
          let left := fl_add rnd ttl (fl_int (-60)) in
          let left := if fl_lt fl_zero left then left else fl_zero in
          let* _ := cache_token refresh_env token (fl_add rnd mc.(mc_monotonic) left) in
          ret token
      | _ => refuse_m "oauth_token_error" scheme ""
      end
  | Some (200, Some _) => fail (Raised "AttributeError")
  | _ => refuse_m "oauth_token_error" scheme ""
  end.
Definition mint_bearer (c : Capability) (scheme refresh_env client_id_env client_secret_env : string) : M string :=
  let* cached := cached_token refresh_env in
  match cached with
  | Some (token, expiry) =>
      if fl_lt mc.(mc_monotonic) expiry then ret token
      else mint_fresh c scheme refresh_env client_id_env client_secret_env
  | None => mint_fresh c scheme refresh_env client_id_env client_secret_env
  end.

(** ** The authentication of a request *)

Definition ovh_signature (app_secret consumer_key method url body_str timestamp : string) : string :=
  "$1$" +:+ mc.(mc_sha1) (join "+" [app_secret; consumer_key; upper method; url; body_str; timestamp]).
Definition ovh_body_str (body : json) : string := match body with JNull => "" | _ => mc.(mc_dumps) body end.

Definition cut (s : string) : string * string := ((partition ":" s).1.1, (partition ":" s).2).
Definition basic (text : string) : string := "Basic " +:+ mc.(mc_base64) text.
Definition nonblank (l : list string) : bool := forallb (λ x, negb (bool_decide (x = ""))) l.

(** Headers, query parameters and client certificate. *)
Definition auth_parts : Type := list (string * string) * list (string * string) * option (string * string).

Definition ovh_headers (c : Capability) (scheme rest method url : string) (body : json) (form : option json)
    (headers : list (string * string)) : M (list (string * string)) :=
  match split ":" rest with
  | [app_key_env; app_secret_env; consumer_key_env] =>
      if negb (nonblank [app_key_env; app_secret_env; consumer_key_env]) then refuse_m "bad_auth_scheme" scheme ""
      else if match form with Some f => truthy f | None => false end then refuse_m "form_not_supported" c.(cap_id) ""
      else
        let* a := scoped_resolve c [] app_key_env in
        let* b := scoped_resolve c a.2 app_secret_env in
        let* d := scoped_resolve c b.2 consumer_key_env in
        let timestamp := pretty mc.(mc_time) in
        let signature := ovh_signature b.1 d.1 method url (ovh_body_str body) timestamp in
        ret (dict_set "X-Ovh-Signature" signature (dict_set "X-Ovh-Timestamp" timestamp
              (dict_set "X-Ovh-Consumer" d.1 (dict_set "X-Ovh-Application" a.1 headers))))
  | _ => refuse_m "bad_auth_scheme" scheme ""
  end.

Definition mtls_parts (c : Capability) (scheme rest : string) (headers : list (string * string)) : M auth_parts :=
  match split ":" rest with
  | cert_env :: key_env :: token_env :: _ =>
      let* a := scoped_resolve c [] cert_env in
      let* b := scoped_resolve c a.2 key_env in
      let* d := scoped_resolve c b.2 token_env in
      ret (dict_set "Authorization" (basic (d.1 +:+ ":")) headers, [], Some (a.1, b.1))
  | _ => refuse_m "bad_auth_scheme" scheme ""
  end.

Definition auth_headers (c : Capability) (spec : HttpSpec) (method url : string) (body : json) (form : option json) :
    M auth_parts :=
  let headers := spec.(h_headers) in
  let scheme := spec.(h_auth) in
  let '(kind, rest) := cut scheme in
  if bool_decide (scheme = "") then ret (headers, [], None)
  else
  let* _ := lift_m (declared_env_names c) in
  if bool_decide (kind = "bearer") then
    let* v := scoped_resolve c [] rest in ret (dict_set "Authorization" ("Bearer " +:+ v.1) headers, [], None)
  else if bool_decide (kind = "basic") then
    let* u := scoped_resolve c [] (cut rest).1 in
    let* p := scoped_resolve c u.2 (cut rest).2 in
    ret (dict_set "Authorization" (basic (u.1 +:+ ":" +:+ p.1)) headers, [], None)
  else if bool_decide (kind = "query") then
    let* v := scoped_resolve c [] (cut rest).2 in ret (headers, [((cut rest).1, v.1)], None)
  else if bool_decide (kind = "header") then
    if negb (nonblank [(cut rest).1; (cut rest).2]) then refuse_m "bad_auth_scheme" scheme ""
    else let* v := scoped_resolve c [] (cut rest).2 in ret (dict_set (cut rest).1 v.1 headers, [], None)
  else if bool_decide (kind = "oauth2") then
    match split ":" rest with
    | [refresh_env; client_id_env; client_secret_env] =>
        if negb (nonblank [refresh_env; client_id_env; client_secret_env]) then refuse_m "bad_auth_scheme" scheme ""
        else let* token := mint_bearer c scheme refresh_env client_id_env client_secret_env in
             ret (dict_set "Authorization" ("Bearer " +:+ token) headers, [], None)
    | _ => refuse_m "bad_auth_scheme" scheme ""
    end
  else if bool_decide (kind = "ovh") then
    let* headers := ovh_headers c scheme rest method url body form headers in ret (headers, [], None)
  else if bool_decide (kind = "mtls") then mtls_parts c scheme rest headers
  else if bool_decide (kind = "form") then ret (headers, [], None)
  else refuse_m "bad_auth_scheme" scheme "".

Definition auth_form (c : Capability) (spec : HttpSpec) : M dict :=
  let scheme := spec.(h_auth) in
  if negb (startswith "form:" scheme) then ret []
  else
    let '(param, env_name) := cut (cut scheme).2 in
    if negb (nonblank [param; env_name]) then refuse_m "bad_auth_scheme" scheme ""
    else let* v := scoped_resolve c [] env_name in ret [(param, JStr v.1)].

(** ** One call *)

Definition is_inprocess (c : Capability) : bool :=
  match c.(cap_http) with
  | Some spec => bool_decide (spec.(h_base_url) = "inprocess://echo") && bool_decide (c.(cap_id) = "echo.ping")
  | None => false
  end.
Definition is_credentialed (c : Capability) : bool :=
  match c.(cap_http) with Some spec => negb (bool_decide (spec.(h_auth) = "")) | None => false end.
Definition audit_capability (id : string) : option Capability :=
  r ← registry; match Connectors.capability r id with Ok c => Some c | Err _ => None end.
Definition audits_own_calls (id : string) : bool :=
  match audit_capability id with Some c => is_credentialed c || is_inprocess c | None => false end.

Definition store_op {A} (f : op (option S) call_error A) : M A := λ w,
  let '(a, s) := f w.(w_store) in (a, mkWorld s w.(w_tokens) w.(w_events)).

(** The targets of the grant against the recipients of the body. *)
Definition recipients_in (targets : list json) (recipients : list string) (cap : string) : result call_error () :=
  if negb (forallb is_hashable targets) then Err (Raised "TypeError")
  else if bool_decide (length targets = 0%nat) then Ok ()
  else if bool_decide (length recipients = 0%nat) then lift (denied "grant_broke_out" cap "")
  else if forallb (λ r, existsb (json_eq (JStr r)) targets) recipients then Ok ()
  else lift (denied "grant_broke_out" cap "").

Definition grant_call (r : CallRequest) (grant_id : option string) (target : option string) (spend : float)
    (generation : option Z) (scoped : option dict) (consume : bool) : GrantCall :=
  mkGrantCall r.(rc_cap_id) r.(rc_granted) grant_id r.(rc_grant_holder) target spend generation scoped
    r.(rc_agent_id) r.(rc_method) r.(rc_path) r.(rc_project_id) consume.

Abbreviation bounds_of r :=
  (extract_call_bounds rnd float_of_text float_repr mail_recipients r.(rc_cap_id) r.(rc_path) r.(rc_body) r.(rc_form)).
Abbreviation with_grant := (authorize_with_grant registry rnd float_repr sha256 mail_recipients iso).

(** Path 2: a durable grant. *)
Definition durable_path (r : CallRequest) (ref : string) (s : S) (dry_run : bool) (now later : string) :
    M (Capability * CallBounds * bool) :=
  let cap := r.(rc_cap_id) in
  let* bounds := lift_m (bounds_of r) in
  match gs_get_grant ref s with
  | GotRaised => refuse_m "grant_store_unavailable" cap ""
  | GotNone => refuse_m "grant_not_found" cap ""
  | GotList _ => fail (Raised "AttributeError")
  | GotRow g =>
      match target_set g with
      | JList targets =>
          let* _ := lift_m (recipients_in targets bounds.(cb_recipients) cap) in
          let unpriced := match bounds.(cb_spend_usd) with None => true | Some _ => false end in
          if unpriced && request_claims_budget_amount r.(rc_body) r.(rc_form)
          then refuse_m "spend_unknown" cap ""
          else
            let* c := store_op (with_grant
                        (grant_call r (Some ref) (head bounds.(cb_recipients)) (default fl_zero bounds.(cb_spend_usd))
                           r.(rc_generation) (scoped_args_from_request r.(rc_body) r.(rc_form)) (negb dry_run)) now later) in
            ret (c, bounds, true)
      | _ => refuse_m "grant_refused" cap "target_set_ambiguous"
      end
  end.

(** Who authorizes, and whether a durable grant did: standing, durable or by the caller's list. *)
Definition authorized (r : CallRequest) (dry_run : bool) (now later : string) : M (Capability * CallBounds * bool) :=
  let '(ref, norm_reason) := normalize_grant_ref r.(rc_approval_token) r.(rc_grant_id) in
  let* store := (λ w, (Ok w.(w_store), w)) in
  if negb (bool_decide (norm_reason = "")) then refuse_m "invalid_approval_token" r.(rc_cap_id) norm_reason
  else match r.(rc_grant_holder), ref, store with
  | Some _, Some _, _ => refuse_m "invalid_grant_reference" r.(rc_cap_id) ""
  | Some _, None, _ =>
      let* c := store_op (with_grant (grant_call r None None fl_zero None None true) now later) in
      let* bounds := lift_m (bounds_of r) in
      ret (c, bounds, false)
  | None, Some ref, Some s => durable_path r ref s dry_run now later
  | None, _, _ =>
      let* c := lift_m (authorize registry rnd float_repr sha256 mail_recipients iso store
                  (default [] r.(rc_granted))
                  (mkAuth r.(rc_cap_id) r.(rc_approval_token) r.(rc_grant_id) r.(rc_agent_id) r.(rc_method) r.(rc_path)
                     None r.(rc_generation) (scoped_args_from_request r.(rc_body) r.(rc_form)) r.(rc_project_id) None) now) in
      let* bounds := lift_m (bounds_of r) in
      ret (c, bounds, false)
  end.

(** The hard stops after authorization. *)
Definition hard_stops (c : Capability) (r : CallRequest) (durable_ok : bool) : result BrokerDenied () :=
  validate_request c r.(rc_method) r.(rc_path);;
  if is_money_write c r.(rc_method) r.(rc_path) && negb durable_ok
  then denied "money_write_requires_approval" r.(rc_cap_id) ""
  else if is_dangerous_write registry c r.(rc_method) r.(rc_path) && negb durable_ok
  then denied "dangerous_write_requires_approval" r.(rc_cap_id) ""
  else Ok ().

(** [_dispatch_echo]: exactly one non-blank message of at most 500 characters. *)
Definition dispatch_echo (body : json) : option json :=
  match body with
  | JDict [(k, JStr m)] =>
      if bool_decide (k = "message") && negb (bool_decide (strip m = "")) && (Z.of_nat (String.length m) <=? 500)
      then Some (JDict [("pong", JBool true); ("message", JStr m)]) else None
  | _ => None
  end.

Definition is_success (status : Z) : bool := (200 <=? status) && (status <=? 299).
Fixpoint prefix_text (n : nat) (s : string) : string :=
  match n, s with Datatypes.S n, String c s => String c (prefix_text n s) | _, _ => "" end.

Definition dispatch (c : Capability) (spec : HttpSpec) (r : CallRequest) (bounds : CallBounds) : M CallResult :=
  if is_inprocess c then
    match dispatch_echo r.(rc_body) with
    | Some payload => let* _ := emit (EvEcho r.(rc_body)) in ret (mkResult 200 bounds true false payload)
    | None => refuse_m "validation_error" r.(rc_cap_id) ""
    end
  else
    let base := rstrip_by (Ascii.eqb "/") spec.(h_base_url) +:+ r.(rc_path) in
    let signed_url := match r.(rc_query) with [] => base | q => mc.(mc_with_query) base q end in
    let* parts := auth_headers c spec r.(rc_method) signed_url r.(rc_body) r.(rc_form) in
    let '(headers, auth_params, cert) := parts in
    let* secret_form := auth_form c spec in
    let form := match r.(rc_form) with Some (JDict f) => f | _ => [] end in
    let request := mkOutgoing (upper r.(rc_method)) base headers
                     (dict_update r.(rc_query) (map (λ p, (p.1, JStr p.2)) auth_params))
                     r.(rc_body) (dict_update form secret_form) cert None None in
    let* _ := emit (EvSend request) in
    match mc.(mc_send) request with
    | None => refuse_m "transport_error" r.(rc_cap_id) ""
    | Some response =>
        let payload := default (JDict [("raw", JStr (prefix_text 4000 response.(rs_text)))]) response.(rs_json) in
        ret (mkResult response.(rs_status) bounds (is_success response.(rs_status)) false payload)
    end.

Definition call_unlogged (r : CallRequest) (dry_run : bool) (now later : string) : M CallResult :=
  let* auth := authorized r dry_run now later in
  let '(c, bounds, durable_ok) := auth in
  let* _ := lift_m (lift (hard_stops c r durable_ok)) in
  if dry_run then ret (mkResult 0 bounds true true JNull)
  else match c.(cap_http) with
  | Some spec => dispatch c spec r bounds
  | None => fail (Raised "AssertionError")
  end.

(** ** The audited call *)

Definition normalized (cx : AuditContext) (grant_id : string) : result BrokerDenied AuditContext :=
  if negb (full_match CANONICAL_HOLDER cx.(cx_holder)) then denied "invalid_holder" "" ""
  else
    let request_id := or_text cx.(cx_request_id) mc.(mc_request_id) in
    Ok (cx <| cx_run_id := or_text cx.(cx_run_id) request_id |> <| cx_request_id := request_id |>
           <| cx_grant_id := or_text cx.(cx_grant_id) grant_id |>).

Definition UNAVAILABLE_AUDIT_REASONS : list string :=
  ["credential_missing"; "credential_unavailable"; "capability_unprovisioned"].
Definition terminal_decision (e : call_error) : string * string :=
  match e with
  | Raised _ => ("unknown", "internal_error")
  | Denied d =>
      if bool_decide (d.(b_reason) = "transport_error") then ("failed", d.(b_reason))
      else if bool_decide (d.(b_reason) ∈ UNAVAILABLE_AUDIT_REASONS) then ("unavailable", d.(b_reason))
      else ("denied", d.(b_reason))
  end.
Definition reached_provider (e : call_error) : bool :=
  match e with Denied d => bool_decide (d.(b_reason) = "transport_error") | Raised _ => true end.
Definition audit_failure_reason (reached : bool) : string :=
  if reached then "audit_finalization_failed" else "audit_unavailable".

(** [f"{status // 100}xx"] *)
Definition status_class (status : option Z) : string :=
  match status with Some n => if 100 <=? n then pretty (n `div` 100) +:+ "xx" else "" | None => "" end.

Definition audit_row_of (cx : AuditContext) (c : Capability) (env_names : list string) (method decision reason : string)
    (status : option Z) (schema_hash agent_id : string) : BrokerCall :=
  mkCall cx.(cx_run_id) (or_text agent_id cx.(cx_holder)) c.(cap_id) (upper method) c.(cap_id)
    (bool_decide (decision = "allowed")) reason status mc.(mc_call_id) cx.(cx_request_id) cx.(cx_task_id)
    cx.(cx_session_id) cx.(cx_holder) (if resolved_read_only c then "read" else "write") c.(cap_connector)
    (join "," env_names) (resolved_credential_scope c) cx.(cx_grant_id) cx.(cx_grant_issuer) cx.(cx_grant_expires_at)
    (match c.(cap_http) with Some spec => mc.(mc_hostname) spec.(h_base_url) | None => "" end) schema_hash decision
    reason (status_class status) (if bool_decide (decision = "intent") then 0 else mc.(mc_latency_ms))
    (result_size_value (resolved_result_size_class c)) cx.(cx_budget_receipt_id) cx.(cx_correlation_id).

(** [_audit_row]; false when it raised. *)
Definition audit_row (cx : AuditContext) (c : Capability) (method decision reason : string) (status : option Z)
    (schema_hash agent_id : string) : M bool := λ w,
  match declared_env_names c with
  | Err _ => (Ok false, w)
  | Ok env_names =>
      let row := audit_row_of cx c env_names method decision reason status schema_hash agent_id in
      if mc.(mc_row_written) row
      then (Ok true, mkWorld w.(w_store) w.(w_tokens) (w.(w_events) ++ [EvAudit row])) else (Ok false, w)
  end.

(** [try: body except]: the body's outcome, its effects kept. *)
Definition outcome_of {A} (m : M A) : M (result call_error A) := λ w, let '(a, w') := m w in (Ok a, w').

Definition call (r : CallRequest) (audit_context : AuditContext) (now later : string) : M CallResult :=
  let* dry_run := lift_m (lift (require_dry_run_flag r.(rc_dry_run) r.(rc_cap_id))) in
  match audit_capability r.(rc_cap_id) with
  | None => call_unlogged r dry_run now later
  | Some c =>
  if negb (is_credentialed c || is_inprocess c) then call_unlogged r dry_run now later
  else
    let* cx := lift_m (lift (normalized audit_context (default "" r.(rc_grant_id)))) in
    let schema_hash := mc.(mc_digest) r.(rc_body) r.(rc_form) in
    let agent := default "" r.(rc_agent_id) in
    let row decision reason status := audit_row cx c r.(rc_method) decision reason status schema_hash agent in
    if negb mc.(mc_sink_opens) then refuse_m "audit_unavailable" r.(rc_cap_id) ""
    else
      let* intent := row "intent" "" None in
      if negb (intent : bool) then refuse_m "audit_unavailable" r.(rc_cap_id) ""
      else
        let* outcome := outcome_of (call_unlogged r dry_run now later) in
        match outcome with
        | Err e =>
            let '(decision, reason) := terminal_decision e in
            let* written := row decision reason None in
            if negb (written : bool) then refuse_m (audit_failure_reason (reached_provider e)) r.(rc_cap_id) ""
            else match e with
            | Denied _ => fail e
            | Raised _ => refuse_m (audit_failure_reason true) r.(rc_cap_id) ""
            end
        | Ok res =>
            let* written := row (if dry_run then "dry_run" else "allowed") "" (Some res.(rt_status)) in
            if negb (written : bool) then refuse_m (audit_failure_reason (negb dry_run)) r.(rc_cap_id) "" else ret res
        end
  end.

(** ** The audited resolution of credentials *)

(** [resolve_for] and [resolve_one_for] differ in the body they audit. *)
Definition audited_resolution {A} (c : Capability) (audit_context : AuditContext) (body : M A) : M A :=
  let* cx := lift_m (lift (normalized audit_context "")) in
  let row decision reason := audit_row cx c "RESOLVE" decision reason None "" "" in
  let unavailable := refuse_m "audit_unavailable" c.(cap_id) "" in
  if negb mc.(mc_sink_opens) then unavailable
  else
    let* intent := row "intent" "" in
    if negb (intent : bool) then unavailable
    else
      let* outcome := outcome_of body in
      match outcome with
      | Err e =>
          let '(decision, reason) := terminal_decision e in
          let* written := row decision reason in
          if negb (written : bool) then unavailable
          else match e with Denied _ => fail e | Raised _ => unavailable end
      | Ok a =>
          let* written := row "allowed" "" in
          if negb (written : bool) then unavailable else ret a
      end.
Definition resolve_for (c : Capability) (audit_context : AuditContext) : M (list (string * string)) :=
  audited_resolution c audit_context (resolve_for_unlogged c).
Definition resolve_one_for (c : Capability) (env_name : string) (audit_context : AuditContext) : M string :=
  audited_resolution c audit_context (resolve_secret c env_name).
End calls.
