(* ===== verification/RunAuthorization.v ===== *)
(** * RunAuthorization: [omniagentos/grants/run_authorization.py]

    The owner's spend instruction read from a prompt, and the grants minted under it.
    The patterns are those of the module; the float of a decimal, SHA-256, the
    environment variable, adding hours to a time and the audit file are parameters.  The
    records that were appended to the audit file are the list of decisions. *)

From Stdlib Require Import Ascii QArith.
From S2P Require Import Prelude PyString PyRegex PyJson Records Connectors Grants.
Open Scope Z_scope.

Definition OWNER_PRINCIPAL : string := "emp_owner".
Definition DEFAULT_CEILING_USD : float := fl_int 100.
Definition ABSOLUTE_MAX_CEILING_USD : float := fl_int 1000.
Definition GRANTABLE_CLASSES : list string := ["consequential"; "irreversible"].

(** ** The patterns *)

Definition space : regex := Chr is_space.
Definition spaces : regex := Seq space (Star space).
Definition word (s : string) : regex := lit true s.
Definition authorize_word : regex := seqs [word "authori"; alts [word "s"; word "z"]; word "e"].
Definition phrase (l : list string) : regex := alts (map word l).

Definition INTENT_RE : regex := alts [
  seqs [authorize_word; opt (word "d"); spaces; opt (Seq (word "you") spaces); opt (Seq (word "to") spaces); word "spend"];
  seqs [word "spend"; spaces; word "up"; spaces; word "to"];
  seqs [word "you"; spaces;
        alts [word "may"; word "can"; seqs [word "are"; spaces; authorize_word; word "d"; spaces; word "to"]];
        spaces; word "spend"];
  seqs [word "approv"; Star (Chr is_word); spaces; opt (Seq (word "a") spaces); phrase ["budget"; "spend"]];
  seqs [word "budget"; spaces; word "of"];
  seqs [word "i"; spaces; authorize_word; spaces; opt (Seq (word "a") spaces);
        phrase ["spend"; "budget"; "purchase"; "payment"]]].

Definition AMOUNT_WINDOW_CHARS : nat := 40.

Definition digit : regex := Chr is_digit.
Definition amount_number : regex :=
  seqs [digit; Star (Chr (λ c, is_digit c || Ascii.eqb c ",")); opt (seqs [lit false "."; digit; opt digit])].
Definition dollar : regex := Seq (lit false "$") (Star space).
Definition amount_unit : regex :=
  Seq (Star space) (alts [word "usd"; Seq (word "dollar") (opt (word "s")); Seq (word "buck") (opt (word "s"))]).

(** The figures [_AMOUNT_RE] captures at a position, in the order [re] tries them. *)
Definition amounts_at (p : pos) : list string :=
  flat_map (λ q, map (between q) (ends amount_number q)) (ends dollar p)
  ++ flat_map (λ r, map (λ _, between p r) (ends amount_unit r)) (ends amount_number p).

(** The number a figure spells. *)
Fixpoint decimal_from (whole : Z) (places : option nat) (frac : Z) (s : string) : Z * nat * Z :=
  match s with
  | "" => (whole, default 0%nat places, frac)
  | String c s =>
      if Ascii.eqb c "." then decimal_from whole (Some 0%nat) frac s
      else if Ascii.eqb c "," then decimal_from whole places frac s
      else
        let d := Z.of_nat (code c - 48) in
        match places with
        | None => decimal_from (10 * whole + d) None frac s
        | Some n => decimal_from whole (Some (S n)) (10 * frac + d) s
        end
  end.
Definition decimal (s : string) : Q :=
  let '(whole, places, frac) := decimal_from 0 None 0 s in
  (inject_Z whole + (frac # Pos.of_nat (10 ^ places)))%Q.

Record SpendAuthorization := mkSpend {
  sa_cap_usd : float;
  sa_authorized_by : string;
  sa_prompt_sha256 : string;
  sa_created_at : string;
}.
Record CapabilityAsk := mkAsk {
  ask_capability : string;
  ask_action_class : string;
  ask_max_spend_usd : float;
  ask_max_actions : Z;
  ask_target_set : list json;
}.
Record MintedGrant := mkMinted {
  mg_capability : string;
  mg_grant_id : string;
  mg_max_spend_usd : float;
  mg_max_actions : Z;
  mg_expires_at : string;
}.
Record MintResult := mkMint {
  mt_minted : list MintedGrant;
  mt_refused_reason : option string;
  mt_audit_ref : string;
}.

(** One line of the audit file. *)
Record Decision := mkDecision { dc_run_id : string; dc_decision : string; dc_reason : string; dc_grants : list MintedGrant }.

Section run.
Context (rnd : Q → float) (float_of_text : string → option float) (float_repr : float → string)
        (sha256 : string → string) (plus_hours : string → Q → option string)
        (registry : option ConnectorRegistry) (fresh : GrantsDb → string)
        (audit_file : Decision → option string).

(** The first figure of the window decides; it is a number, so the loop over the figures
    never goes on. *)
Definition parse_amount (window : string) : option float :=
  match first_from amounts_at None window with
  | Some raw => let val := rnd (decimal raw) in if fl_lt fl_zero val then Some val else None
  | None => None
  end.

Definition parse_spend_authorization (human_goal authorized_by now : string) : option SpendAuthorization :=
  if negb (bool_decide (authorized_by = OWNER_PRINCIPAL)) then None
  else if bool_decide (human_goal = "") then None
  else match first_match INTENT_RE human_goal with
  | None => None
  | Some after =>
      match parse_amount (take_str AMOUNT_WINDOW_CHARS after.2) with
      | None => None
      | Some amount =>
          if fl_le amount fl_zero then None
          else Some (mkSpend (py_min amount [ABSOLUTE_MAX_CEILING_USD]) authorized_by (sha256 human_goal) now)
      end
  end.

(** [environ] is the value of the ceiling variable. *)
Definition effective_ceiling (environ : option string) (a : SpendAuthorization) (ceiling_usd : option float) : float :=
  let ceiling := match ceiling_usd with
                 | Some c => c
                 | None => match environ with
                           | None | Some "" => DEFAULT_CEILING_USD
                           | Some text => default DEFAULT_CEILING_USD (float_of_text text)
                           end
                 end in
  py_min ceiling [ABSOLUTE_MAX_CEILING_USD; a.(sa_cap_usd)].

(** The first inadmissible ask, else the total. *)
Fixpoint admissible (total : float) (asks : list CapabilityAsk) : result string float :=
  match asks with
  | [] => Ok total
  | ask :: asks =>
      if negb (bool_decide (ask.(ask_action_class) ∈ GRANTABLE_CLASSES)) then Err "ungrantable_class"
      else if fl_le ask.(ask_max_spend_usd) fl_zero || (ask.(ask_max_actions) <? 1) then Err "bad_bounds"
      else if is_broadcast_capability ask.(ask_capability) && bool_decide (length ask.(ask_target_set) = 0%nat)
      then Err "broadcast_needs_audience"
      else admissible (fl_add rnd total ask.(ask_max_spend_usd)) asks
  end.

Definition run_metadata (a : SpendAuthorization) (run_id : string) (ask : CapabilityAsk) : dict :=
  [("generation", JInt 0); ("action_class", JStr ask.(ask_action_class)); ("source", JStr "run_authorization");
   ("run_id", JStr run_id); ("authorized_by", JStr a.(sa_authorized_by)); ("prompt_sha256", JStr a.(sa_prompt_sha256))].

Definition run_request (a : SpendAuthorization) (project_id run_id expires_at : string) (ask : CapabilityAsk) :
    GrantRequest :=
  mkRequest ("run-authorized spend (" +:+ run_id +:+ ")") (JList ask.(ask_target_set)) (Some project_id)
    (Some ("runauth:" +:+ run_id +:+ ":" +:+ take_str 12 a.(sa_prompt_sha256))) (Some ask.(ask_max_actions))
    (Some ask.(ask_max_spend_usd)) None (Some expires_at) (run_metadata a run_id ask) None.

(** The loop of [create_grant]; an exception ends it, the earlier grants stay. *)
Fixpoint mint_each (a : SpendAuthorization) (project_id run_id expires_at now : string) (asks : list CapabilityAsk)
    (d : GrantsDb) : result grants_error (list MintedGrant) * GrantsDb :=
  match asks with
  | [] => (Ok [], d)
  | ask :: asks =>
      match create_grant float_repr sha256 registry (fresh d) ask.(ask_capability)
              (run_request a project_id run_id expires_at ask) now d with
      | (Err e, d') => (Err e, d')
      | (Ok g, d') =>
          let '(rest, d'') := mint_each a project_id run_id expires_at now asks d' in
          (rest ← rest;
           Ok (mkMinted ask.(ask_capability) g.(g_id) ask.(ask_max_spend_usd) ask.(ask_max_actions) expires_at :: rest),
           d'')
      end
  end.

(** [_write_audit]: the path of the file and the line, or nothing at all. *)
Definition write_audit (record : Decision) : string * list Decision :=
  match audit_file record with Some path => (path, [record]) | None => ("", []) end.

(** The outcome, the database and what was appended to the audit file. *)
Definition mint_run_grants (environ : option string) (authorization : option SpendAuthorization)
    (asks : list CapabilityAsk) (project_id run_id now : string) (horizon_hours : Q) (ceiling_usd : option float)
    (d : GrantsDb) : result grants_error MintResult * GrantsDb * list Decision :=
  let refused reason :=
    let '(ref, log) := write_audit (mkDecision run_id "refused" reason []) in
    (Ok (mkMint [] (Some reason) ref), d, log) in
  match authorization with
  | None => refused "no_authorization"
  | Some a =>
  if negb (bool_decide (a.(sa_authorized_by) = OWNER_PRINCIPAL)) then refused "not_owner"
  else match admissible fl_zero asks with
  | Err reason => refused reason
  | Ok total =>
  if fl_lt (effective_ceiling environ a ceiling_usd) total then refused "over_ceiling"
  else match plus_hours now horizon_hours with
  | None => (Err (CastError ValueError), d, [])
  | Some expires_at =>
      match mint_each a project_id run_id expires_at now asks d with
      | (Err e, d') => (Err e, d', [])
      | (Ok minted, d') =>
          let '(ref, log) := write_audit (mkDecision run_id "minted" "" minted) in
          (Ok (mkMint minted None ref), d', log)
      end
  end end end.
End run.
