(* ===== verification/BrokerFixtures.v ===== *)
(** * BrokerFixtures: a small concrete world for the broker and its stores

    Two connectors, one grant request, clocks that read a number, and a machine on which
    everything works: the inputs at which the properties of the next files are evaluated. *)

From Stdlib Require Import Ascii QArith.
From S2P Require Import Prelude PyString PyRegex PyJson Records Connectors Grants CapabilityStore Broker BrokerCalls.
Open Scope Z_scope.

Definition fx_rnd : Q → float := Fin.
Definition fx_repr (_ : float) : string := "0.0".
Definition fx_read (_ : string) : option float := None.
Definition fx_sha (s : string) : string := String "h" s.
Definition fx_mail (raw : string) : option (list string) := Some (split "," raw).
Definition fx_iso (s : string) : option (bool * Z) := (λ n, (true, n)) <$> int_of_text s.
Definition fx_time (s : string) : option Z := int_of_text s.
Definition fx_fresh (d : GrantsDb) : string := "a" +:+ String.concat "" (map (λ _, "i") d.(gd_actions)).
Definition fx_fresh_grant (d : GrantsDb) : string := "g" +:+ String.concat "" (map (λ _, "i") d.(gd_grants)).

Definition fx_capability (id connector : string) (cls : ActionClass) (http : HttpSpec) : Capability :=
  mkCapability id connector "mail" id cls (Some http) "" "" None None [] None None "" "" None.
Definition fx_send : Capability := fx_capability "gmail.send" "gmail" CONSEQUENTIAL
  (mkHttp "https://mail" ["POST"] ["/send"] None "bearer:MAIL_TOKEN" []).
Definition fx_read_cap : Capability := fx_capability "notes.read" "notes" READ_ONLY
  (mkHttp "https://notes" ["GET"] ["/v1/charges/"] None "bearer:NOTES_KEY" []).
Definition fx_registry : ConnectorRegistry :=
  mkRegistry 1 [("mail", mkGroup "Mail" false)]
    [("gmail", mkConnector "gmail" "Mail" "mail" ["MAIL_TOKEN"] [("gmail.send", fx_send)]);
     ("notes", mkConnector "notes" "Notes" "mail" ["NOTES_KEY"] [("notes.read", fx_read_cap)])].

Definition fx_request : GrantRequest :=
  mkRequest "news" (JList [JStr "ann@x"]) (Some "p1") (Some "ap1") (Some 1) (Some (fl_int 5)) None (Some "100")
    [("generation", JInt 3); ("action_class", JStr "consequential")] None.
Definition fx_presented : Presented :=
  mkPresented "gmail.send" (Some "consequential") (Some "gmail") (Some "send") (Some "ann@x") (Some 3)
    (Some [("raw", JStr "ann@x")]) fl_zero.

Definition fx_machine : Machine := mkMachine
  (λ n, if bool_decide (n = "MAIL_TOKEN") then "t" else if bool_decide (n = "NOTES_KEY") then "k" else "")
  (λ _, "") false (λ _, false) fl_zero (λ _ _ _, None) 7 id id (λ _, "") (λ s _, s)
  (λ _, Some (mkResponse 200 (Some JNull) "")) true (λ _, true) "c1" "r1" 3 (λ _ _, "d") id.
Definition fx_context : AuditContext := mkContext "lane:a" "" "" "" "" "" "" "" "" "".
Definition fx_call (grant : option string) (dry : bool) : CallRequest :=
  mkCallRequest "gmail.send" (Some ["gmail.send"]) "POST" "/send" [] (JDict [("raw", JStr "ann@x")]) None None grant
    None None (Some 3) (Some "p1") (JBool dry).
Definition fx_world {S : Type} (s : S) : World S := mkWorld (Some s) [] [].

(** The store after one mint. *)
Definition fx_db : GrantsDb := (create_grant fx_repr fx_sha (Some fx_registry) "g" "gmail.send" fx_request "1" (mkGrants [] [])).2.
