(* ===== verification/GrantsSpec.v ===== *)
(** * GrantsSpec: what a campaign grant guarantees

    Every call of the grant store is one of five changes ([change]); the invariant of
    the reachable stores ties the counters of a grant to its audit trail. *)

From Stdlib Require Import Ascii QArith.
From stdpp Require Import pretty.
From S2P Require Import Prelude PyString PyJson Records Connectors Grants BrokerFixtures.
Open Scope Z_scope.

(** ** Calls and traces *)

Inductive grants_call :=
  | Mint (registry : option ConnectorRegistry) (grant_id capability : string) (request : GrantRequest)
  | Revoke (grant_id reason : string)
  | Consume (action_id grant_id : string) (capability : option string) (p : Presented)
      (ref_type ref_id : option string) (detail : string)
  | Record_ (action_id grant_id capability : string) (target : option string) (spend : float) (outcome : string)
      (ref_type ref_id : option string) (detail : string).

(** ** Texts of an audience *)

Lemma sql_real_Some x y : sql_real x = Some y ↔ y = x ∧ is_nan x = false.
Proof. destruct x; simpl; naive_solver. Qed.

Definition audience_item (s : string) : string := pretty (String.length s) +:+ ":" +:+ s +:+ "|".
Lemma audience_item_inj s1 s2 r1 r2 : audience_item s1 +:+ r1 = audience_item s2 +:+ r2 → s1 = s2 ∧ r1 = r2.
Proof.
  unfold audience_item. rewrite !string_app_assoc. cbn [String.append].
  intros [Hlen Heq]%app_sep_inj; [|by apply pretty_no_char..].
  apply (inj pretty) in Hlen. apply app_length_inj in Heq as [-> Heq]; [|done]. by injection Heq.
Qed.
Lemma audience_items_inj l1 l2 :
  String.concat "" (map audience_item l1) = String.concat "" (map audience_item l2) → l1 = l2.
Proof.
  assert (Hne : ∀ s r, audience_item s +:+ r ≠ "").
  { intros s r. unfold audience_item. rewrite !string_app_assoc. destruct (pretty _); discriminate. }
  revert l2. induction l1 as [|s1 l1 IH]; intros [|s2 l2]; [done|..]; cbn [map]; rewrite ?concat_cons; intros H.
  - by apply symmetry, Hne in H.
  - by apply Hne in H.
  - apply audience_item_inj in H as [-> H]. f_equal. by apply IH.
Qed.

(** Equal texts, equal audiences. *)
Lemma audience_text_exact l1 l2 :
  audience_text l1 = audience_text l2 ↔ ∀ s, s ≠ "" → (s ∈ l1 ↔ s ∈ l2).
Proof.
  assert (Hin : ∀ s l, s ∈ sorted_set (List.filter (λ s, negb (bool_decide (s = ""))) l) ↔ s ≠ "" ∧ s ∈ l).
  { intros s l. unfold sorted_set. rewrite elem_of_sort_by, elem_of_elements, elem_of_list_to_set, !list_elem_of_In.
    rewrite filter_In, negb_true_iff, bool_decide_eq_false. tauto. }
  unfold audience_text. split.
  - intros Heq%audience_items_inj s Hs. pose proof (Hin s l1) as H1. rewrite Heq, (Hin s l2) in H1. tauto.
  - intros Hsame. do 2 f_equal. unfold sorted_set. do 2 f_equal. apply set_eq. intros s.
    rewrite !elem_of_list_to_set, !list_elem_of_In, !filter_In, negb_true_iff, bool_decide_eq_false, <-!list_elem_of_In.
    specialize (Hsame s). tauto.
Qed.

Section grants.
Context (rnd : Q → float) (float_repr : float → string) (sha256 : string → string)
        (mail_recipients : string → option (list string)) (as_datetime : string → option Z).
Abbreviation consume := (try_consume rnd float_repr sha256 mail_recipients as_datetime).
Abbreviation checked := (check_row rnd float_repr sha256 mail_recipients as_datetime).

Definition exec (now : string) (c : grants_call) (d : GrantsDb) : GrantsDb :=
  match c with
  | Mint reg id cap r => (create_grant float_repr sha256 reg id cap r now d).2
  | Revoke id reason => (revoke_grant id reason now d).2
  | Consume aid id cap p rt ri detail => (consume aid id cap p rt ri detail now d).2
  | Record_ aid id cap target spend outcome rt ri detail =>
      (record_action aid id cap target spend outcome rt ri detail now d).2
  end.
Definition final (tr : list (string * grants_call)) (d : GrantsDb) : GrantsDb :=
  foldl (λ d p, exec p.1 p.2 d) d tr.
Definition empty_grants : GrantsDb := mkGrants [] [].

(** The executions charged to a grant. *)
Definition charged (id : string) (a : Action) : bool :=
  bool_decide (a.(ac_grant_id) = id) && bool_decide (a.(ac_outcome) = "ok").
Definition charges (id : string) (d : GrantsDb) : list Action := select (charged id) d.(gd_actions).

(** ** What a call can change *)

(** What is presented, with the grant's own capability when the caller names none. *)
Definition requested (g : Grant) (capability : option string) (p : Presented) : Presented :=
  mkPresented (match capability with Some (String _ _ as c) => c | _ => g.(g_capability) end)
    p.(pr_action_class) p.(pr_connector) p.(pr_tool) p.(pr_target) p.(pr_generation) p.(pr_scoped_args) p.(pr_spend_usd).

Definition minted (g : Grant) : Prop :=
  g.(g_plan_approval_state) = "approved" ∧ blank_text g.(g_approval_id) = false ∧ blank_text g.(g_expires_at) = false
  ∧ (∃ n, g.(g_max_actions) = Some n ∧ 1 ≤ n) ∧ (∃ n, dict_get "generation" (metadata g) = Some (JInt n))
  ∧ (is_broadcast_capability g.(g_capability) = true →
       ∃ n h, dict_get "max_recipients" (metadata g) = Some (JInt n) ∧ 1 ≤ n
            ∧ dict_get "audience_snapshot_hash" (metadata g) = Some (JStr h)).
Definition unused (g : Grant) : Prop :=
  g.(g_actions_used) = 0 ∧ g.(g_spend_used_usd) = fl_zero ∧ g.(g_revoked_at) = None
  ∧ ∀ m, g.(g_max_spend_usd) = Some m → fl_le fl_zero m = true.

(** [claims] allows an action row that says "ok" without a charge. *)
Inductive change (claims : Prop) (now : string) (d : GrantsDb) : GrantsDb → Prop :=
  | same : change claims now d d
  | mint g : find_grant g.(g_id) d = None → minted g → unused g →
      change claims now d (d <| gd_grants := d.(gd_grants) ++ [g] |>)
  | revoke id reason :
      change claims now d (d <| gd_grants := update_where (grant_is id) (revoke_update reason now) d.(gd_grants) |>)
  | note a g : find_grant a.(ac_grant_id) d = Some g → (a.(ac_outcome) = "ok" → claims) →
      change claims now d (d <| gd_actions := d.(gd_actions) ++ [a] |>)
  | charge g a p : find_grant g.(g_id) d = Some g → checked g p now = Ok None →
      is_nan (fl_add rnd g.(g_spend_used_usd) p.(pr_spend_usd)) = false →
      a.(ac_grant_id) = g.(g_id) → a.(ac_outcome) = "ok" → a.(ac_spend_usd) = p.(pr_spend_usd) →
      change claims now d (d <| gd_grants := update_where (grant_is g.(g_id))
                          (consume_update (fl_add rnd g.(g_spend_used_usd) p.(pr_spend_usd))) d.(gd_grants) |>
                      <| gd_actions := d.(gd_actions) ++ [a] |>).

Lemma grant_is_spec id g : grant_is id g = true ↔ g.(g_id) = id.
Proof. apply bool_decide_eq_true. Qed.

Lemma find_grant_Some id d g : find_grant id d = Some g → g ∈ d.(gd_grants) ∧ g.(g_id) = id.
Proof.
  intros (l1 & l2 & -> & Hg%grant_is_spec & _)%find_spec. split; [set_solver|done].
Qed.
Lemma find_grant_None id d : find_grant id d = None ↔ existsb (grant_is id) d.(gd_grants) = false.
Proof.
  unfold find_grant. induction d.(gd_grants) as [|g l IH]; [done|]. simpl. by destruct (grant_is id g).
Qed.

Lemma fresh_action aid (l : list Action) :
  existsb (λ a, bool_decide (a.(ac_id) = aid)) l = false ↔ aid ∉ map ac_id l.
Proof.
  rewrite <-not_true_iff_false, existsb_exists, list_elem_of_fmap. apply not_iff_compat.
  setoid_rewrite bool_decide_eq_true. setoid_rewrite list_elem_of_In. naive_solver.
Qed.

Lemma insert_action_inv aid gid cap target spend outcome rt ri detail now d a d' :
  insert_action aid gid cap target spend outcome rt ri detail now d = (Ok a, d') →
  is_Some (find_grant gid d) ∧ is_nan spend = false
  ∧ a = mkAction aid now gid cap target spend outcome rt ri detail
  ∧ d' = (d <| gd_actions := d.(gd_actions) ++ [a] |>) ∧ (aid ∉ map ac_id d.(gd_actions)).
Proof.
  unfold insert_action. case_match; [done|]. destruct (sql_real spend) as [x|] eqn:Hx; [|done].
  apply sql_real_Some in Hx as [-> Hx]. destruct (find_grant gid d) as [g|]; [|done].
  case_match eqn:Hid; [done|]. intros [= <- <-]. split_and!; try done. by apply fresh_action.
Qed.

(** The validation of a loaded row. *)
Lemma validate_row g id p now :
  strip id = id → id ≠ "" → g.(g_id) = id →
  validate_approval_token rnd float_repr sha256 mail_recipients as_datetime (Some id)
    (Some (λ gid, if bool_decide (gid = id) then LoadRow g else LoadNone)) p now
  = (reason ← checked g p now;
     Ok (match reason with Some r => mkValidation false r (Some g) | None => mkValidation true "ok" (Some g) end)).
Proof.
  intros Hs Hne Hid. unfold validate_approval_token. cbv zeta. rewrite Hs.
  rewrite bool_decide_eq_false_2, bool_decide_eq_true_2 by done. simpl. rewrite bool_decide_eq_true_2 by done. done.
Qed.

(** A validated token names the row and passes its checks. *)
Lemma validate_ok g id p now v :
  validate_approval_token rnd float_repr sha256 mail_recipients as_datetime (Some id)
    (Some (λ gid, if bool_decide (gid = id) then LoadRow g else LoadNone)) p now = Ok v →
  v.(av_ok) = true → strip id = id ∧ id ≠ "" ∧ checked g p now = Ok None.
Proof.
  unfold validate_approval_token. cbv zeta. case_bool_decide as Hne; [intros [= <-]; done|].
  case_bool_decide as Hs; [|intros [= <-]; done]. rewrite Hs in *.
  case_match; [intros [= <-]; done|]. destruct (checked g p now) as [[r|]|e]; simpl; [intros [= <-]; done| |done].
  intros [= <-] _. done.
Qed.

Lemma consume_cases aid id cap p rt ri detail now d :
  (∃ e, consume aid id cap p rt ri detail now d = (Err e, d))
  ∨ consume aid id cap p rt ri detail now d = (Ok (mkConsume false "refused" "not_found" None None), d)
  ∨ (∃ g a outcome reason, find_grant id d = Some g ∧ a.(ac_grant_id) = id ∧ a.(ac_outcome) = outcome
       ∧ (outcome = "refused" ∨ outcome = "broke_out")
       ∧ consume aid id cap p rt ri detail now d
         = (Ok (mkConsume false outcome reason (Some g) (Some a)), d <| gd_actions := d.(gd_actions) ++ [a] |>))
  ∨ (∃ g a, find_grant id d = Some g ∧ strip id = id ∧ id ≠ "" ∧ checked g (requested g cap p) now = Ok None
       ∧ is_nan (fl_add rnd g.(g_spend_used_usd) p.(pr_spend_usd)) = false
       ∧ a = mkAction aid now id (requested g cap p).(pr_capability) p.(pr_target) p.(pr_spend_usd) "ok" rt ri detail
       ∧ (aid ∉ map ac_id d.(gd_actions))
       ∧ let d' := d <| gd_grants := update_where (grant_is id)
                          (consume_update (fl_add rnd g.(g_spend_used_usd) p.(pr_spend_usd))) d.(gd_grants) |>
                     <| gd_actions := d.(gd_actions) ++ [a] |> in
         consume aid id cap p rt ri detail now d = (Ok (mkConsume true "ok" "" (find_grant id d') (Some a)), d')).
Proof.
  unfold try_consume, write. destruct (find_grant id d) as [g|] eqn:Hg; [|by right; left].
  cbv zeta. change (mkPresented _ _ _ _ _ _ _ _) with (requested g cap p).
  destruct (validate_approval_token _ _ _ _ _ _ _ _ _) as [v|e] eqn:Hv; [|by left; eexists].
  cbn [map_err with_cast]. cbn [mbind result_mbind]. destruct v.(av_ok) eqn:Hok; cbn [negb].
  - destruct (validate_ok _ _ _ _ _ Hv Hok) as (Hs & Hne & Hc).
    destruct (sql_real _) as [spent|] eqn:Hsp; [|by left; eexists]. apply sql_real_Some in Hsp as [-> Hsp].
    destruct (insert_action _ _ _ _ _ _ _ _ _ _ _) as [[a|e] d2] eqn:Hi; [|by left; eexists].
    apply insert_action_inv in Hi as (_ & _ & Ha & -> & Hfresh). right; right; right. exists g, a. by split_and!; try (subst a).
  - destruct (insert_action _ _ _ _ _ _ _ _ _ _ _) as [[a|e] d2] eqn:Hi; [|by left; eexists].
    apply insert_action_inv in Hi as (_ & _ & Ha & -> & _). right; right; left. exists g, a, a.(ac_outcome), v.(av_reason).
    split_and!; try (by subst a). subst a. simpl. case_match; auto.
Qed.

(** ** Minting *)

Lemma require_Ok b why : require b why = Ok tt ↔ b = true.
Proof. by destruct b. Qed.
Lemma unit_Ok (m : result grants_error ()) u : m = Ok u → m = Ok tt.
Proof. by destruct u. Qed.

Lemma audience_metadata_Ok cap targets mr meta meta' :
  audience_metadata float_repr sha256 cap targets mr meta = Ok meta' →
  (∀ key, key ≠ "max_recipients" → key ≠ "audience_snapshot_hash" → key ≠ "audience_snapshot_count" →
     dict_get key meta' = dict_get key meta)
  ∧ (is_broadcast_capability cap = true → targets ≠ [] ∧ ∃ n, Z.of_nat (length targets) ≤ n
       ∧ dict_get "max_recipients" meta' = Some (JInt n)
       ∧ dict_get "audience_snapshot_count" meta' = Some (JInt (Z.of_nat (length targets)))
       ∧ dict_get "audience_snapshot_hash" meta'
         = Some (JStr (audience_snapshot_hash sha256 (map (py_str float_repr) (List.filter truthy targets))))).
Proof.
  unfold audience_metadata. destruct (is_broadcast_capability cap).
  - intros (u & Hne%unit_Ok%require_Ok & (u' & Hle%unit_Ok%require_Ok & [= <-])%bind_Ok)%bind_Ok.
    apply negb_true_iff, bool_decide_eq_false in Hne. apply Z.leb_le in Hle. split.
    + intros key H1 H2 H3. by rewrite !dict_get_set, !bool_decide_eq_false_2.
    + intros _. split; [by intros ->|]. eexists. split; [exact Hle|].
      rewrite !dict_get_set. repeat (rewrite bool_decide_eq_true_2 by done).
      by repeat (rewrite bool_decide_eq_false_2 by done).
  - intros (u & _ & [= <-])%bind_Ok. done.
Qed.

Lemma checked_metadata_Ok registry cap r meta :
  checked_metadata float_repr sha256 registry cap r = Ok meta →
  blank_text r.(rq_approval_id) = false ∧ blank_text r.(rq_expires_at) = false
  ∧ (∃ n, r.(rq_max_actions) = Some n ∧ 1 ≤ n)
  ∧ (∃ x, r.(rq_max_spend_usd) = Some x ∧ fl_lt x fl_zero = false)
  ∧ (∃ n, dict_get "generation" meta = Some (JInt n))
  ∧ (∃ reg c, registry = Some reg ∧ Connectors.capability reg cap = Ok c
       ∧ dict_get "action_class" meta = Some (JStr (action_class_value c.(cap_action_class))))
  ∧ ∃ base, audience_metadata float_repr sha256 cap
              (match r.(rq_target_set) with JList l => l | _ => [] end) r.(rq_max_recipients) base = Ok meta.
Proof.
  unfold checked_metadata.
  intros (? & H1%unit_Ok%require_Ok & (? & H2%unit_Ok%require_Ok & (? & H3%unit_Ok%require_Ok
    & (? & H4%unit_Ok%require_Ok & (? & _ & (? & _ & (n & _ & (cls & Hcls & H)%bind_Ok)%bind_Ok)%bind_Ok)%bind_Ok)%bind_Ok)%bind_Ok)%bind_Ok)%bind_Ok.
  apply negb_true_iff in H1, H4.
  destruct r.(rq_max_actions) as [na|]; [|done]. destruct r.(rq_max_spend_usd) as [spend|]; [|done].
  apply Z.leb_le in H2. apply negb_true_iff in H3.
  destruct registry as [reg|]; [|done].
  destruct (Connectors.capability reg cap) as [c|] eqn:Hc; [injection Hcls as <-|done].
  destruct (dict_get "action_class" _) as [[| | | |pinned| |]|] eqn:Hp in H; try done.
  apply bind_Ok in H as (? & _ & (? & H6%unit_Ok%require_Ok & H)%bind_Ok).
  apply bool_decide_eq_true in H6 as ->. destruct (audience_metadata_Ok _ _ _ _ _ H) as [Hkeep _].
  split_and!; try done; [by eexists|by eexists| | |by eexists].
  - exists n. rewrite Hkeep by done. by rewrite dict_get_set, bool_decide_eq_true_2.
  - exists reg, c. split_and!; [done|done|]. by rewrite Hkeep.
Qed.

Lemma create_grant_inv registry id cap r now d g d' :
  create_grant float_repr sha256 registry id cap r now d = (Ok g, d') →
  g.(g_id) = id ∧ g.(g_capability) = cap ∧ g.(g_max_spend_usd) = r.(rq_max_spend_usd) ≫= sql_real
  ∧ find_grant id d = None ∧ minted g ∧ unused g ∧ d' = d <| gd_grants := d.(gd_grants) ++ [g] |>
  ∧ ∃ meta, g.(g_metadata) = JDict meta ∧ checked_metadata float_repr sha256 registry cap r = Ok meta.
Proof.
  unfold create_grant. rewrite write_Ok. intros (meta & Hm & H)%bind_Ok. case_match eqn:Hex; [done|].
  injection H as <- <-. cbn [g_id g_capability g_max_spend_usd g_metadata].
  destruct (checked_metadata_Ok _ _ _ _ Hm) as (Ha & He & (n & Hn & Hn1) & (x & Hx & Hx0) & Hgen & _ & base & Hb).
  split_and!; try done; [by apply find_grant_None| | |by eexists].
  - unfold minted. cbn. split_and!; try done; [by eexists|].
    intros Hbr. destruct (audience_metadata_Ok _ _ _ _ _ Hb) as [_ Haud].
    destruct (Haud Hbr) as (Hne & k & Hk & Hmax & _ & Hhash). exists k. eexists. split_and!; [done| |done].
    destruct (match r.(rq_target_set) with JList l => l | _ => [] end); simpl in *; [done|lia].
  - unfold unused. cbn. split_and!; try done. rewrite Hx. cbn. intros m [-> Hnan]%sql_real_Some.
    by apply fl_lt_false.
Qed.

Definition honest (c : grants_call) : Prop :=
  match c with Record_ _ _ _ _ _ outcome _ _ _ => outcome ≠ "ok" | _ => True end.

Lemma exec_change now c d : change (¬ honest c) now d (exec now c d).
Proof.
  destruct c as [reg id cap r|id reason|aid id cap p rt ri detail|aid id cap target spend outcome rt ri detail];
    cbn [exec honest].
  - destruct (create_grant _ _ _ _ _ _ _ _) as [[g|e] d'] eqn:E.
    + apply create_grant_inv in E as (<- & _ & _ & Hf & Hm & Hu & -> & _). by apply mint.
    + unfold create_grant in E. apply write_Err in E as ->. apply same.
  - apply revoke.
  - destruct (consume_cases aid id cap p rt ri detail now d)
      as [[e ->]|[->|[(g & a & o & reason & Hg & Ha & Ho & Hor & ->)|(g & a & Hg & _ & _ & Hc & Hn & -> & _ & Heq)]]].
    + apply same.
    + apply same.
    + apply (note _ _ _ _ g); [by rewrite Ha|]. intros Hok. destruct Hor; congruence.
    + cbv zeta in Heq. rewrite Heq. cbn [snd]. destruct (find_grant_Some _ _ _ Hg) as [_ <-].
      by eapply (charge _ _ _ g _ (requested g cap p)).
  - unfold record_action. destruct (write _ d) as [[a|e] d'] eqn:E.
    + apply write_Ok in E. destruct (insert_action _ _ _ _ _ _ _ _ _ _ _) as [[a'|?] d2] eqn:Hi; [|done].
      injection E as -> <-. apply insert_action_inv in Hi as ([g Hg] & _ & -> & -> & _).
      apply (note _ _ _ _ g); [done|]. cbn. tauto.
    + apply write_Err in E as ->. apply same.
Qed.

(** ** The invariant of the reachable stores *)

Definition spent_by (id : string) (d : GrantsDb) : float :=
  foldl (fl_add rnd) fl_zero (map ac_spend_usd (charges id d)).

Record grant_ok (d : GrantsDb) (g : Grant) : Prop := {
  ok_minted : minted g;
  ok_actions : g.(g_actions_used) = Z.of_nat (length (charges g.(g_id) d));
  ok_spend : g.(g_spend_used_usd) = spent_by g.(g_id) d;
  ok_max_actions n : g.(g_max_actions) = Some n → g.(g_actions_used) ≤ n;
  ok_max_spend m : g.(g_max_spend_usd) = Some m → fl_le g.(g_spend_used_usd) m = true;
}.
Record grants_ok (d : GrantsDb) : Prop := {
  ok_ids : NoDup (map g_id d.(gd_grants));
  ok_orphans a : a ∈ d.(gd_actions) → is_Some (find_grant a.(ac_grant_id) d);
  ok_grants g : g ∈ d.(gd_grants) → grant_ok d g;
}.

Lemma charges_add id d d' a : d'.(gd_actions) = d.(gd_actions) ++ [a] →
  charges id d' = charges id d ++ (if charged id a then [a] else []).
Proof. unfold charges. intros ->. rewrite select_app. simpl. by destruct (charged id a). Qed.

Lemma charges_empty id d : grants_ok d → find_grant id d = None → charges id d = [].
Proof.
  intros Hok Hf. apply select_none. intros a Ha. unfold charged. case_bool_decide as Hid; [|done]. subst id.
  destruct (ok_orphans d Hok a Ha) as [g Hg]. congruence.
Qed.

Lemma if_None {A} (b : bool) (x : A) o : (if b then Some x else o) = None ↔ b = false ∧ o = None.
Proof. destruct b; naive_solver. Qed.

(** Live grants have room. *)
Lemma checked_room g p now : checked g p now = Ok None →
  (∃ n, g.(g_max_actions) = Some n ∧ g.(g_actions_used) < n)
  ∧ (∃ m, g.(g_max_spend_usd) = Some m ∧ fl_lt m (fl_add rnd g.(g_spend_used_usd) p.(pr_spend_usd)) = false).
Proof.
  unfold check_row. destruct (is_grant_live _ _ _ _ _ _) eqn:E; [done|intros _]. revert E. unfold is_grant_live.
  intros Hlive. do 6 (apply if_None in Hlive as [_ Hlive]). destruct g.(g_max_actions) as [n|]; [|done].
  do 2 (apply if_None in Hlive as [? Hlive]). destruct g.(g_max_spend_usd) as [m|]; [|done].
  apply if_None in Hlive as [[_ Hm]%orb_false_iff _]. split; eexists; (split; [done|]); [by apply Z.leb_gt|done].
Qed.

Lemma find_grant_update id id' f d : (∀ g, g_id (f g) = g_id g) →
  find_grant id' (d <| gd_grants := update_where (grant_is id) f d.(gd_grants) |>)
  = (λ g, if grant_is id g then f g else g) <$> find_grant id' d.
Proof.
  intros Hf. unfold find_grant, update_where. cbn [modify gd_grants]. induction d.(gd_grants) as [|g l IH]; [done|].
  simpl. assert (grant_is id' (if grant_is id g then f g else g) = grant_is id' g) as ->.
  { unfold grant_is at 1 3. by destruct (grant_is id g); rewrite ?Hf. }
  by destruct (grant_is id' g).
Qed.
Lemma find_grant_mint id g d :
  find_grant id (d <| gd_grants := d.(gd_grants) ++ [g] |>)
  = match find_grant id d with Some g' => Some g' | None => if grant_is id g then Some g else None end.
Proof.
  unfold find_grant. cbn [modify gd_grants]. induction d.(gd_grants) as [|g' l IH]; [done|]. simpl.
  by destruct (grant_is id g').
Qed.

Lemma charges_grants id d gs : charges id (d <| gd_grants := gs |>) = charges id d.
Proof. done. Qed.

(** A change of a grant that touches neither counters nor caps. *)
Lemma grant_ok_same d d' g g' : charges g.(g_id) d' = charges g.(g_id) d →
  g'.(g_id) = g.(g_id) → g'.(g_plan_approval_state) = g.(g_plan_approval_state) →
  g'.(g_approval_id) = g.(g_approval_id) → g'.(g_expires_at) = g.(g_expires_at) →
  g'.(g_max_actions) = g.(g_max_actions) → g'.(g_max_spend_usd) = g.(g_max_spend_usd) →
  g'.(g_metadata) = g.(g_metadata) → g'.(g_capability) = g.(g_capability) →
  g'.(g_actions_used) = g.(g_actions_used) → g'.(g_spend_used_usd) = g.(g_spend_used_usd) →
  grant_ok d g → grant_ok d' g'.
Proof.
  destruct g, g'. cbn. intros Hc -> -> -> -> -> -> -> -> -> -> [Hm Ha Hs Hma Hms].
  split; cbn in *; [exact Hm| | |done|done]; unfold spent_by in *; by rewrite Hc.
Qed.

Lemma change_mint d g : grants_ok d → find_grant g.(g_id) d = None → minted g → unused g →
  grants_ok (d <| gd_grants := d.(gd_grants) ++ [g] |>).
Proof.
  intros Hok Hf Hm Hu. split.
  - cbn [modify gd_grants]. rewrite map_app. apply NoDup_app. split_and!; [apply Hok| |apply NoDup_singleton].
    intros i (g' & -> & Hin)%list_elem_of_fmap Heq%list_elem_of_singleton.
    apply find_grant_None in Hf. apply not_true_iff_false in Hf. apply Hf, existsb_exists.
    exists g'. split; [by apply list_elem_of_In|]. by apply grant_is_spec.
  - intros a Ha. destruct (ok_orphans d Hok a Ha) as [g' Hg']. rewrite find_grant_mint, Hg'. by eexists.
  - cbn [modify gd_grants]. intros g' [Hin|Heq%list_elem_of_singleton]%elem_of_app.
    + by eapply grant_ok_same; [..|apply (ok_grants d Hok g' Hin)].
    + subst g'. pose proof (charges_empty _ _ Hok Hf) as Hc. destruct Hu as (Ha & Hs & _ & Hms).
      split; [done|..]; unfold spent_by; rewrite ?charges_grants, ?Hc, ?Ha, ?Hs; [done|done| |done].
      intros n Hn. destruct Hm as (_ & _ & _ & (n' & Hn' & Hle) & _). rewrite Hn in Hn'. injection Hn' as <-. lia.
Qed.

Lemma change_note d g a : grants_ok d → find_grant a.(ac_grant_id) d = Some g → a.(ac_outcome) ≠ "ok" →
  grants_ok (d <| gd_actions := d.(gd_actions) ++ [a] |>).
Proof.
  intros Hok Hg Ho. split; [apply Hok| |].
  - cbn [modify gd_actions]. intros a' [Hin|Heq%list_elem_of_singleton]%elem_of_app.
    + by apply (ok_orphans d Hok).
    + subst a'. by eexists.
  - intros g' Hin. eapply grant_ok_same; [|done..|by apply (ok_grants d Hok)].
    rewrite (charges_add _ d _ a) by done. unfold charged. rewrite (bool_decide_eq_false_2 (_ = "ok")), andb_false_r by done.
    apply app_nil_r.
Qed.

(** One more charge, both as a counter and as a row. *)
Lemma charge_ok d d' g p now a : grant_ok d g → checked g p now = Ok None →
  is_nan (fl_add rnd g.(g_spend_used_usd) p.(pr_spend_usd)) = false → a.(ac_spend_usd) = p.(pr_spend_usd) →
  charges g.(g_id) d' = charges g.(g_id) d ++ [a] →
  grant_ok d' (consume_update (fl_add rnd g.(g_spend_used_usd) p.(pr_spend_usd)) g).
Proof.
  intros [Hm Ha Hs Hma Hms] Hc Hnan Hsp Hcs. destruct (checked_room _ _ _ Hc) as [(n & Hn & Hlt) (m & Hmax & Hle)].
  split; cbn; [exact Hm| | | |].
  - rewrite Hcs, length_app. cbn. lia.
  - unfold spent_by. rewrite Hcs, map_app, foldl_app. cbn. rewrite Hsp. f_equal. exact Hs.
  - intros n'. rewrite Hn. intros [= <-]. lia.
  - intros m' Hm'. rewrite Hmax in Hm'. injection Hm' as <-. apply fl_lt_false; [done| |done].
    specialize (Hms _ Hmax). revert Hms. unfold fl_le. by destruct (g_spend_used_usd g), m.
Qed.

Lemma change_charge d g a p now : grants_ok d → find_grant g.(g_id) d = Some g → checked g p now = Ok None →
  is_nan (fl_add rnd g.(g_spend_used_usd) p.(pr_spend_usd)) = false →
  a.(ac_grant_id) = g.(g_id) → a.(ac_outcome) = "ok" → a.(ac_spend_usd) = p.(pr_spend_usd) →
  grants_ok (d <| gd_grants := update_where (grant_is g.(g_id))
                      (consume_update (fl_add rnd g.(g_spend_used_usd) p.(pr_spend_usd))) d.(gd_grants) |>
               <| gd_actions := d.(gd_actions) ++ [a] |>).
Proof.
  intros Hok Hf Hc Hnan Hid Ho Hsp. set (spent := fl_add _ _ _) in *.
  set (d1 := d <| gd_grants := _ |>).
  assert (Hcs : ∀ i, charges i (d1 <| gd_actions := d.(gd_actions) ++ [a] |>)
                = charges i d ++ (if bool_decide (g.(g_id) = i) then [a] else [])).
  { intros i. rewrite (charges_add i d _ a) by done. f_equal. unfold charged. rewrite Hid, (bool_decide_eq_true_2 (_ = "ok")) by done.
    by rewrite andb_true_r. }
  destruct (find_grant_Some _ _ _ Hf) as [Hin _]. split.
  - cbn [modify gd_grants d1]. rewrite update_where_map by done. apply Hok.
  - cbn [modify gd_actions]. intros a' Ha'. change (is_Some (find_grant a'.(ac_grant_id) d1)).
    unfold d1. rewrite find_grant_update by done. apply fmap_is_Some.
    apply elem_of_app in Ha' as [Ha'|Ha'%list_elem_of_singleton]; [by apply (ok_orphans d Hok)|].
    subst a'. rewrite Hid, Hf. by eexists.
  - cbn [modify gd_grants d1]. intros g' (g0 & Hin0 & ->)%elem_of_update_where.
    pose proof (ok_grants d Hok g0 Hin0) as Hg0. destruct (grant_is g.(g_id) g0) eqn:E.
    + apply grant_is_spec in E. assert (g0 = g) as -> by (by eapply (NoDup_map_inj g_id); [apply Hok|..]).
      eapply charge_ok; [done..|]. by rewrite Hcs, bool_decide_eq_true_2.
    + eapply grant_ok_same; [|done..|exact Hg0]. rewrite Hcs, bool_decide_eq_false_2; [apply app_nil_r|].
      intros Heq. symmetry in Heq. apply grant_is_spec in Heq. congruence.
Qed.

Lemma grants_ok_change claims now d d' : ¬ claims → change claims now d d' → grants_ok d → grants_ok d'.
Proof.
  intros Hno [|g Hf Hm Hu|id reason|a g Hg Ho|g a p Hg Hc Hn Hid Ho Hs] Hok; [done| | | |].
  - by apply change_mint.
  - split.
    + cbn [modify gd_grants]. rewrite update_where_map by done. apply Hok.
    + intros a Ha. rewrite find_grant_update by done. apply fmap_is_Some. by apply (ok_orphans d Hok).
    + cbn [modify gd_grants]. intros g' (g0 & Hin0 & ->)%elem_of_update_where.
      pose proof (ok_grants d Hok g0 Hin0) as Hg0.
      destruct (grant_is id g0); (eapply grant_ok_same; [..|exact Hg0]); done.
  - eapply change_note; [done..|tauto].
  - by eapply change_charge.
Qed.

Lemma empty_grants_ok : grants_ok empty_grants.
Proof. split; [apply NoDup_nil_2| |]; intros x Hx; by apply elem_of_nil in Hx. Qed.

Lemma grants_final_ok tr d : Forall (λ p, honest p.2) tr → grants_ok d → grants_ok (final tr d).
Proof.
  intros Htr. unfold final. revert d. induction Htr as [|[now c] tr Hc _ IH]; intros d Hd; [done|]. cbn [foldl fst snd]. apply IH.
  eapply grants_ok_change; [|apply (exec_change now c)|exact Hd]. intros Hn. by apply Hn.
Qed.

(** C21: On every store the grant calls can reach (mints, revocations, consumptions and recorded refusals in any order, by callers that never write an "ok" action of their own) a grant's counters are its audit trail: its used actions are the number of its "ok" rows and its used spend the floating sum of their amounts, however the machine rounds; neither counter ever exceeds its cap, and every grant row was minted approved, with an approval, an expiry, a positive action cap and a generation pin. *)
Theorem grant_counters_are_audit_trail (tr : list (string * grants_call)) :
  Forall (λ p, honest p.2) tr → grants_ok (final tr empty_grants).
Proof.
  intros Htr. apply grants_final_ok; [done|apply empty_grants_ok].
Qed.

(** ** What a consumption admits *)

Definition names_opt (presented : option string) (derived : string) : Prop :=
  ∀ c, presented = Some c → c = derived.
Definition pin_is (key derived : string) (g : Grant) (presented : option string) : Prop :=
  ∀ v, dict_get key (metadata g) = Some v → v ≠ JNull → py_str float_repr v = derived ∧ names_opt presented derived.
Definition int_value (key : string) (g : Grant) (n : Z) : Prop :=
  ∃ v, dict_get key (metadata g) = Some v ∧ as_int v None = Ok (Some n).

(** The conditions under which one action may be charged. *)
Record admits (g : Grant) (p : Presented) (now : string) : Prop := {
  ad_live : blank g.(g_revoked_at) = true ∧ g.(g_plan_approval_state) = "approved"
    ∧ blank g.(g_expires_at) = false ∧ is_expired as_datetime g.(g_expires_at) now = false;
  ad_names : p.(pr_capability) = g.(g_capability) ∧ names_opt p.(pr_connector) (connector_name g.(g_capability))
    ∧ names_opt p.(pr_tool) (tool_name g.(g_capability));
  ad_count : ∃ n, g.(g_max_actions) = Some n ∧ g.(g_actions_used) < n;
  ad_spend : fl_lt p.(pr_spend_usd) fl_zero = false ∧ ∃ m, g.(g_max_spend_usd) = Some m
    ∧ fl_le m g.(g_spend_used_usd) = false ∧ fl_lt m (fl_add rnd g.(g_spend_used_usd) p.(pr_spend_usd)) = false;
  ad_class : ∃ v c, dict_get "action_class" (metadata g) = Some v ∧ v ≠ JNull ∧ p.(pr_action_class) = Some c
    ∧ py_str float_repr v = c;
  ad_pins : pin_is "connector" (connector_name g.(g_capability)) g p.(pr_connector)
    ∧ pin_is "tool" (tool_name g.(g_capability)) g p.(pr_tool);
  ad_generation : ∃ n, int_value "generation" g n ∧ p.(pr_generation) = Some n;
  ad_target : target_allowed g p.(pr_target) = Ok None;
  ad_audience : audience_bound_ok rnd float_repr sha256 mail_recipients g p.(pr_capability) p.(pr_scoped_args) = Ok None;
  ad_args : scoped_args_match (dict_value "scoped_args" (metadata g)) p.(pr_scoped_args) = None;
}.

Definition unbounded (g : Grant) : bool :=
  match dict_value "max_recipients" (metadata g) with JNull => true | _ => false end
  || negb (truthy (dict_value "audience_snapshot_hash" (metadata g))).

Lemma live_exact g c spend now :
  is_grant_live rnd as_datetime g (Some c) spend now = None ↔
  (blank g.(g_revoked_at) = true ∧ g.(g_plan_approval_state) = "approved"
   ∧ blank g.(g_expires_at) = false ∧ is_expired as_datetime g.(g_expires_at) now = false)
  ∧ c = g.(g_capability) ∧ (is_broadcast_capability c && unbounded g = false)
  ∧ (∃ n, g.(g_max_actions) = Some n ∧ g.(g_actions_used) < n)
  ∧ fl_lt spend fl_zero = false ∧ ∃ m, g.(g_max_spend_usd) = Some m
    ∧ fl_le m g.(g_spend_used_usd) = false ∧ fl_lt m (fl_add rnd g.(g_spend_used_usd) spend) = false.
Proof.
  unfold is_grant_live. fold (unbounded g). rewrite !if_None, !negb_false_iff, !bool_decide_eq_true.
  split.
  - intros (? & ? & ? & ? & ? & ? & H). destruct g.(g_max_actions) as [n|]; [|done].
    rewrite !if_None in H. destruct H as (Hn & ? & H). destruct g.(g_max_spend_usd) as [m|]; [|done].
    apply if_None in H as [[? ?]%orb_false_iff _]. apply Z.leb_gt in Hn. split_and!; try done; eauto.
  - intros ((? & ? & ? & ?) & ? & ? & (n & -> & Hn%Z.leb_gt) & ? & m & -> & ? & ?). rewrite !if_None.
    split_and!; try done. by apply orb_false_iff.
Qed.

Lemma decide_null (v : json) : {v = JNull} + {v ≠ JNull}.
Proof. by destruct v; [left|right..]. Qed.

Lemma names_opt_spec o d :
  match o with Some c => negb (bool_decide (c = d)) | None => false end = false ↔ names_opt o d.
Proof.
  unfold names_opt. destruct o as [c|]; [|split; [by intros _ ?|done]]. rewrite negb_false_iff, bool_decide_eq_true. naive_solver.
Qed.
Lemma pin_mismatch_spec v derived o :
  pin_mismatch float_repr v derived o = false ↔ (v ≠ JNull → py_str float_repr v = derived ∧ names_opt o derived).
Proof.
  destruct (decide_null v) as [->|Hv]; [by split|].
  transitivity (py_str float_repr v = derived ∧ names_opt o derived); [|naive_solver].
  assert (pin_mismatch float_repr v derived o = negb (bool_decide (py_str float_repr v = derived))
    || match o with Some p => negb (bool_decide (py_str float_repr v = p)) | None => false end) as -> by (by destruct v).
  rewrite orb_false_iff, negb_false_iff, bool_decide_eq_true. unfold names_opt.
  destruct o as [c|]; [|split; intros [? _]; by split].
  rewrite negb_false_iff, bool_decide_eq_true. naive_solver.
Qed.
Lemma pin_spec key derived g o :
  pin_mismatch float_repr (dict_value key (metadata g)) derived o = false ↔ pin_is key derived g o.
Proof.
  rewrite pin_mismatch_spec. unfold pin_is, dict_value.
  destruct (dict_get key (metadata g)) as [v|]; cbn [default]; [|by split].
  split; [intros H ? [= <-]; exact H|intros H; exact (H v eq_refl)].
Qed.

Lemma pins_exact g c cls conn tool :
  pins_match float_repr g c cls conn tool = None ↔
  (c = g.(g_capability) ∧ names_opt conn (connector_name g.(g_capability)) ∧ names_opt tool (tool_name g.(g_capability)))
  ∧ (∃ v k, dict_get "action_class" (metadata g) = Some v ∧ v ≠ JNull ∧ cls = Some k ∧ py_str float_repr v = k)
  ∧ pin_is "connector" (connector_name g.(g_capability)) g conn ∧ pin_is "tool" (tool_name g.(g_capability)) g tool.
Proof.
  unfold pins_match. rewrite !if_None, negb_false_iff, bool_decide_eq_true, !names_opt_spec, <-!pin_spec.
  unfold dict_value at 1. destruct (dict_get "action_class" (metadata g)) as [v|]; cbn [default]; [|naive_solver].
  destruct (decide_null v) as [->|Hv]; [naive_solver|]. destruct cls as [k|]; [|destruct v; naive_solver].
  match goal with |- _ ∧ _ ∧ _ ∧ ?m = None ↔ _ =>
    assert (m = None ↔ py_str float_repr v = k
      ∧ pin_mismatch float_repr (dict_value "connector" (metadata g)) (connector_name g.(g_capability)) conn = false
      ∧ pin_mismatch float_repr (dict_value "tool" (metadata g)) (tool_name g.(g_capability)) tool = false) as -> end.
  { rewrite <-(bool_decide_eq_true (py_str float_repr v = k)), <-negb_false_iff.
    destruct v; [done|..]; cbv beta iota delta [id]; rewrite !if_None; naive_solver. }
  naive_solver.
Qed.

Lemma generation_exact g o :
  generation_match g o = Ok None ↔ ∃ n, int_value "generation" g n ∧ o = Some n.
Proof.
  unfold generation_match, int_value. destruct (dict_get "generation" (metadata g)) as [v|];
    [|split; [done|by intros (? & (? & ? & _) & _)]].
  transitivity (∃ n, as_int v None = Ok (Some n) ∧ o = Some n);
    [|split; [intros (n & ? & ?); eauto|intros (n & (? & [= <-] & ?) & ?); eauto]].
  destruct (as_int v None) as [[n|]|e]; cbn; try (split; [done|by intros (? & ? & _)]).
  destruct o as [m|]; [|split; [done|by intros (? & _ & ?)]]. split.
  - destruct (m =? n) eqn:Hmn; [apply Z.eqb_eq in Hmn as ->|done]. eauto.
  - intros (? & [= <-] & [= ->]). by rewrite Z.eqb_refl.
Qed.

Lemma audience_bounded g c args :
  audience_bound_ok rnd float_repr sha256 mail_recipients g c args = Ok None →
  is_broadcast_capability c && unbounded g = false.
Proof.
  unfold audience_bound_ok, unbounded. destruct (is_broadcast_capability c); [|done]. cbn [negb andb].
  intros (m & Hm & H)%bind_Ok. destruct m as [m|]; [|done]. unfold dict_value in *.
  destruct (dict_get "audience_snapshot_hash" (metadata g)) as [[| | | |[|a s]| |]|]; try done.
  by destruct (default JNull (dict_get "max_recipients" (metadata g))).
Qed.

(** A live grant row passes the whole validation exactly when every condition of [admits] holds: it is unrevoked, approved and unexpired; capability, connector and tool are its own; an action and the presented spend fit under the remaining caps; action class, connector, tool and generation pins agree; the target, the audience and the pinned arguments match.  In every other case the answer is a reason or an exception, never a pass. *)
Theorem check_row_exact g p now : checked g p now = Ok None ↔ admits g p now.
Proof.
  unfold check_row. split.
  - destruct (is_grant_live _ _ _ _ _ _) eqn:Hlive; [done|]. destruct (pins_match _ _ _ _ _ _) eqn:Hpins; [done|].
    intros ([|] & Hgen & H)%bind_Ok; [done|]. apply bind_Ok in H as ([|] & Htgt & H); [done|].
    apply bind_Ok in H as ([|] & Haud & H); [done|]. injection H as Hargs.
    apply live_exact in Hlive as (? & ? & ? & ? & ? & ?). apply pins_exact in Hpins as (? & ? & ? & ?).
    apply generation_exact in Hgen. by split.
  - intros [Hl Hn Hc [Hs Hm] Hcl [Hp1 Hp2] Hg Ht Ha Hargs].
    assert (is_grant_live rnd as_datetime g (Some p.(pr_capability)) p.(pr_spend_usd) now = None) as ->.
    { apply live_exact. split; [exact Hl|split; [apply Hn|split; [by eapply audience_bounded|by split]]]. }
    assert (pins_match float_repr g p.(pr_capability) p.(pr_action_class) p.(pr_connector) p.(pr_tool) = None) as ->
      by (apply pins_exact; done).
    apply generation_exact in Hg as ->. cbn. rewrite Ht. cbn. rewrite Ha. cbn. by rewrite Hargs.
Qed.

(** ** A closed grant *)

(** Revoked, or past its expiry at that time. *)
Definition closed (g : Grant) (now : string) : bool :=
  negb (blank g.(g_revoked_at)) || is_expired as_datetime g.(g_expires_at) now.

Lemma closed_not_admitted g p now : closed g now = true → checked g p now ≠ Ok None.
Proof. unfold closed. intros Hc [(Hb & _ & _ & He) _]%check_row_exact. by rewrite Hb, He in Hc. Qed.

(** The successor of a grant row under a change: the same expiry, and a revocation is kept. *)
Lemma change_find claims now d d' id g : ¬ claims → now ≠ "" → change claims now d d' → find_grant id d = Some g →
  ∃ g', find_grant id d' = Some g' ∧ g'.(g_expires_at) = g.(g_expires_at)
  ∧ (blank g.(g_revoked_at) = false → blank g'.(g_revoked_at) = false)
  ∧ (closed g now = true → charges id d' = charges id d).
Proof.
  intros Hno Hnow Hch Hf. destruct Hch as [|g0 _ _ _|rid reason|a g0 _ Ho|g0 a p Hg Hc Hn Hid Ho Hs].
  - by exists g.
  - exists g. by rewrite find_grant_mint, Hf.
  - rewrite find_grant_update, Hf by done. eexists. split; [done|]. cbn.
    destruct (grant_is rid g); cbn; [|done]. split_and!; [done| |done]. by destruct now.
  - exists g. split_and!; [done..|]. intros _. rewrite (charges_add _ d _ a) by done. unfold charged.
    rewrite (bool_decide_eq_false_2 (_ = "ok")), andb_false_r by (intros ?; tauto). apply app_nil_r.
  - set (f := consume_update _). exists (if grant_is g0.(g_id) g then f g else g). split_and!.
    + etransitivity; [exact (find_grant_update g0.(g_id) id f d (λ _, eq_refl))|]. by rewrite Hf.
    + by destruct (grant_is _ g).
    + by destruct (grant_is _ g).
    + intros Hcl. rewrite (charges_add _ d _ a) by done. unfold charged. rewrite Hid, (bool_decide_eq_false_2 (_ = id)); [apply app_nil_r|].
      intros <-. rewrite Hf in Hg. injection Hg as ->. by apply (closed_not_admitted _ p _ Hcl).
Qed.

(** A grant that is revoked, or whose expiry has passed, is closed for good: whatever mints, revocations, consumptions and recorded refusals follow, in any order, no action is ever charged to it again, as long as each step's clock reads past the expiry (or the grant was revoked). *)
Theorem closed_grant_never_charged (tr : list (string * grants_call)) d id g :
  find_grant id d = Some g → Forall (λ p, p.1 ≠ "" ∧ honest p.2 ∧ closed g p.1 = true) tr →
  charges id (final tr d) = charges id d.
Proof.
  intros Hf Htr. revert d g Hf Htr. unfold final. induction tr as [|[now c] tr IH]; intros d g Hf Htr; [done|].
  apply Forall_cons in Htr as [(Hnow & Hh & Hc) Htr]. cbn [fst snd] in *. cbn [foldl fst snd].
  destruct (change_find (¬ honest c) now d (exec now c d) id g) as (g' & Hf' & He & Hr & Hch);
    [tauto|done|apply exec_change|done|].
  rewrite (IH _ g' Hf'); [by apply Hch|]. eapply Forall_impl; [exact Htr|]. intros [t c'] (? & ? & Hcl).
  split_and!; [done..|]. cbn [fst] in *. unfold closed in *. rewrite He. apply orb_true_iff in Hcl as [Hb%negb_true_iff|Hb].
  - by rewrite (Hr Hb).
  - by rewrite Hb, orb_true_r.
Qed.

(** ** One consumption *)

Lemma consume_ok aid id cap p rt ri detail now d g :
  find_grant id d = Some g ∧ strip id = id ∧ id ≠ "" ∧ admits g (requested g cap p) now
    ∧ is_nan (fl_add rnd g.(g_spend_used_usd) p.(pr_spend_usd)) = false ∧ (aid ∉ map ac_id d.(gd_actions)) →
  ∃ r d', consume aid id cap p rt ri detail now d = (Ok (mkConsume true "ok" "" r.1 r.2), d').
Proof.
  intros (Hg & Hs & Hne & Had & Hn & Hfresh). unfold try_consume, write. rewrite Hg. cbv zeta.
  change (mkPresented _ _ _ _ _ _ _ _) with (requested g cap p).
  destruct (find_grant_Some _ _ _ Hg) as [_ Hid]. rewrite validate_row by done.
  apply check_row_exact in Had. rewrite Had. cbn [mbind result_mbind map_err with_cast negb av_ok].
  change (pr_spend_usd (requested g cap p)) with (pr_spend_usd p).
  assert (sql_real (fl_add rnd (g_spend_used_usd g) (pr_spend_usd p)) = Some (fl_add rnd (g_spend_used_usd g) (pr_spend_usd p)))
    as -> by by apply sql_real_Some.
  unfold insert_action. rewrite bool_decide_eq_true_2 by (unfold OUTCOMES; set_solver). cbn [negb].
  assert (sql_real p.(pr_spend_usd) = Some p.(pr_spend_usd)) as ->.
  { apply sql_real_Some. split; [done|]. by apply fl_add_nan in Hn as [_ ?]. }
  rewrite find_grant_update, Hg by done. cbn [fmap option_fmap option_map gd_actions modify].
  apply fresh_action in Hfresh. rewrite Hfresh. cbn. by eexists (_, _), _.
Qed.

(** A consumption succeeds exactly when the grant exists under a trimmed id, its row admits what is presented (the grant's own capability when none is named), the new total is a number, and the action id is fresh; then exactly one unit and the presented amount are charged, one "ok" row is appended, and the answer carries the updated grant.  In every other case no grant row changes, and at most one row that is not "ok" is appended. *)
Theorem consume_exact aid id cap p rt ri detail now d :
  let '(r, d') := consume aid id cap p rt ri detail now d in
  (∃ v, r = Ok v ∧ v.(cr_ok) = true
     ∧ ∃ g a, find_grant id d = Some g ∧ strip id = id ∧ id ≠ "" ∧ admits g (requested g cap p) now
         ∧ a = mkAction aid now id (requested g cap p).(pr_capability) p.(pr_target) p.(pr_spend_usd) "ok" rt ri detail
         ∧ (aid ∉ map ac_id d.(gd_actions)) ∧ v.(cr_action) = Some a
         ∧ v.(cr_grant) = Some (consume_update (fl_add rnd g.(g_spend_used_usd) p.(pr_spend_usd)) g)
         ∧ d'.(gd_grants) = update_where (grant_is id)
             (consume_update (fl_add rnd g.(g_spend_used_usd) p.(pr_spend_usd))) d.(gd_grants)
         ∧ d'.(gd_actions) = d.(gd_actions) ++ [a])
  ∨ ((∀ v, r = Ok v → v.(cr_ok) = false) ∧ d'.(gd_grants) = d.(gd_grants)
     ∧ (d' = d ∨ ∃ a, a.(ac_grant_id) = id ∧ a.(ac_outcome) ≠ "ok" ∧ d'.(gd_actions) = d.(gd_actions) ++ [a])
     ∧ ¬ ∃ g, find_grant id d = Some g ∧ strip id = id ∧ id ≠ "" ∧ admits g (requested g cap p) now
           ∧ is_nan (fl_add rnd g.(g_spend_used_usd) p.(pr_spend_usd)) = false ∧ (aid ∉ map ac_id d.(gd_actions))).
Proof.
  destruct (consume_cases aid id cap p rt ri detail now d)
    as [[e He]|[He|[(g & a & o & reason & Hg & Ha & Ho & Hor & He)|(g & a & Hg & Hs & Hne & Hc & Hn & Ha & Hfresh & He)]]].
  - rewrite He. right. split_and!; [done|done|by left|]. intros (g & H). eapply consume_ok in H as (v & d' & Hv). by rewrite Hv in He.
  - rewrite He. right. split_and!; [by intros v [= <-]|done|by left|].
    intros (g & H). eapply consume_ok in H as (v & d' & Hv). by rewrite Hv in He.
  - rewrite He. right. split_and!; [by intros v [= <-]|done|right; exists a|].
    + split_and!; [done| |done]. rewrite Ho. by destruct Hor as [->| ->].
    + intros (g' & H). eapply consume_ok in H as (v & d' & Hv). by rewrite Hv in He.
  - cbv zeta in He. rewrite He. left. eexists. split_and!; [done..|]. exists g, a.
    apply check_row_exact in Hc. split_and!; try done. cbn [cr_grant].
    etransitivity; [exact (find_grant_update id id (consume_update _) d (λ _, eq_refl))|]. rewrite Hg. cbn.
    apply find_grant_Some in Hg as [_ <-]. unfold grant_is. by rewrite bool_decide_eq_true_2.
Qed.

(** ** The audience of a customer message *)

Lemma filter_texts (ts : list string) :
  map (py_str float_repr) (List.filter truthy (map JStr ts)) = List.filter (λ s, negb (bool_decide (s = ""))) ts.
Proof. induction ts as [|t ts IH]; [done|]. cbn. destruct (negb (bool_decide (t = ""))); cbn; by rewrite IH. Qed.

(** A customer-message grant fixes its audience: for a grant minted for a list of texts, a message passes the audience check exactly when its recipients can be read and are not empty, are no more than the approved ones, and are the same set of texts, however they are ordered or repeated (given that SHA-256 does not collide). *)
Theorem minted_audience_exact registry id cap r now d g d' ts args b :
  (∀ x y, sha256 x = sha256 y → x = y) → (∀ x, sha256 x ≠ "") →
  create_grant float_repr sha256 registry id cap r now d = (Ok g, d') →
  is_broadcast_capability cap = true → r.(rq_target_set) = JList (map JStr ts) →
  body_bounds rnd float_repr mail_recipients cap args = Ok b →
  audience_bound_ok rnd float_repr sha256 mail_recipients g cap args = Ok None ↔
  b.(cb_recipients) ≠ [] ∧ b.(cb_recipient_count) ≤ Z.of_nat (length ts)
  ∧ ∀ s, s ≠ "" → (s ∈ b.(cb_recipients) ↔ s ∈ ts).
Proof.
  clear as_datetime. intros Hinj Hne Hc Hbr Hts Hb.
  apply create_grant_inv in Hc as (_ & _ & _ & _ & _ & _ & _ & meta & Hmeta & Hchk).
  destruct (checked_metadata_Ok _ _ _ _ Hchk) as (_ & _ & _ & _ & _ & _ & base & Haud). rewrite Hts in Haud.
  destruct (audience_metadata_Ok _ _ _ _ _ Haud) as [_ [_ (n & Hn & Hmax & Hcount & Hhash)]]; [done|].
  rewrite length_map in Hn, Hcount. rewrite filter_texts in Hhash.
  set (h := audience_snapshot_hash _ _) in Hhash.
  assert (Hh : ∀ l, audience_snapshot_hash sha256 l = h ↔ ∀ s, s ≠ "" → (s ∈ l ↔ s ∈ ts)).
  { intros l. rewrite <-(audience_text_exact l ts). unfold h, audience_snapshot_hash. split.
    - intros Heq%Hinj. rewrite Heq. apply audience_text_exact. intros s Hs.
      rewrite !list_elem_of_In, filter_In, negb_true_iff, bool_decide_eq_false. tauto.
    - intros ->. f_equal. apply audience_text_exact. intros s Hs.
      rewrite !list_elem_of_In, filter_In, negb_true_iff, bool_decide_eq_false. tauto. }
  unfold audience_bound_ok, metadata. rewrite Hbr, Hmeta. cbn [negb]. unfold dict_value.
  rewrite Hmax, Hhash, Hcount. cbn [default Datatypes.id as_int py_int mbind result_mbind]. rewrite Hb.
  destruct h as [|a h'] eqn:Eh; [by destruct (Hne _ Eh)|]. rewrite <-Hh.
  change (default 0 (Some (Z.of_nat (length ts)))) with (Z.of_nat (length ts)). unfold AUDIENCE_DRIFT_TOLERANCE. rewrite Z.add_0_r.
  case_bool_decide as Hempty; [naive_solver|].
  destruct (n <? _) eqn:E1; [apply Z.ltb_lt in E1; split; [done|lia]|].
  destruct (Z.of_nat (length ts) <? _) eqn:E2; [apply Z.ltb_lt in E2; split; [done|lia]|].
  apply Z.ltb_ge in E2. case_bool_decide as Heq; cbn [negb]; naive_solver.
Qed.
End grants.

(** ** On concrete inputs *)

Definition fx_trace : list (string * grants_call) :=
  [("1", Mint (Some fx_registry) "g" "gmail.send" fx_request);
   ("5", Consume "a1" "g" None fx_presented None None "");
   ("6", Consume "a2" "g" None fx_presented None None "");
   ("7", Revoke "g" "done");
   ("8", Consume "a3" "g" None fx_presented None None "")].
Abbreviation fx_final tr := (final fx_rnd fx_repr fx_sha fx_mail fx_time tr).

Lemma grant_counters_are_audit_trail_witness :
  Forall (λ p, honest p.2) fx_trace
  ∧ map ac_outcome (fx_final fx_trace empty_grants).(gd_actions) = ["ok"; "refused"; "refused"]
  ∧ grants_ok fx_rnd (fx_final fx_trace empty_grants).
Proof.
  assert (H : Forall (λ p, honest p.2) fx_trace) by by repeat constructor.
  split; [exact H|]. split; [by vm_compute|]. by apply grant_counters_are_audit_trail.
Defined.

Lemma closed_grant_never_charged_witness :
  let tr := [("101", Consume "a1" "g" None fx_presented None None ""); ("102", Revoke "g" "late")] in
  ∃ g, find_grant "g" fx_db = Some g
  ∧ Forall (λ p, p.1 ≠ "" ∧ honest p.2 ∧ closed fx_time g p.1 = true) tr
  ∧ charges "g" (fx_final tr fx_db) = charges "g" fx_db.
Proof.
  cbv zeta. destruct (find_grant "g" fx_db) as [g|] eqn:Hf; [|by vm_compute in Hf].
  vm_compute in Hf. injection Hf as <-. eexists. split; [done|].
  assert (H : ∀ g, Some g = find_grant "g" fx_db → Forall (λ p, p.1 ≠ "" ∧ honest p.2 ∧ closed fx_time g p.1 = true)
    [("101", Consume "a1" "g" None fx_presented None None ""); ("102", Revoke "g" "late")]).
  { intros g Hg. vm_compute in Hg. injection Hg as ->. repeat constructor; by vm_compute. }
  split; [by apply H|]. eapply closed_grant_never_charged; [reflexivity|by apply H].
Defined.

Lemma minted_audience_exact_witness :
  ∃ g d' b, create_grant fx_repr fx_sha (Some fx_registry) "g" "gmail.send" fx_request "1" (mkGrants [] []) = (Ok g, d')
  ∧ body_bounds fx_rnd fx_repr fx_mail "gmail.send" (Some [("raw", JStr "ann@x")]) = Ok b
  ∧ (audience_bound_ok fx_rnd fx_repr fx_sha fx_mail g "gmail.send" (Some [("raw", JStr "ann@x")]) = Ok None ↔
     b.(cb_recipients) ≠ [] ∧ b.(cb_recipient_count) ≤ Z.of_nat (length ["ann@x"])
     ∧ ∀ s, s ≠ "" → (s ∈ b.(cb_recipients) ↔ s ∈ ["ann@x"])).
Proof.
  do 3 eexists. split; [reflexivity|]. split; [reflexivity|].
  eapply (minted_audience_exact fx_rnd fx_repr fx_sha fx_mail (Some fx_registry) "g" "gmail.send" fx_request "1" (mkGrants [] []));
    [by intros x y [= ->]|done|reflexivity..].
Defined.
