(* ===== verification/BrokerSpec.v ===== *)
(** * BrokerSpec: what a brokered call guarantees

    The effects of a call are the events it appends.  A computation [grows P] when it
    keeps the store and appends events that satisfy [P]; a call is an authorization
    that appends nothing, followed by a dispatch that does. *)

From Stdlib Require Import Ascii QArith.
From stdpp Require Import pretty.
From S2P Require Import Prelude PyString PyRegex PyJson Records Connectors Grants CapabilityStore Broker BrokerCalls BrokerFixtures GrantsSpec.
Open Scope Z_scope.

Lemma lift_Ok {A} (m : result BrokerDenied A) a : lift m = Ok a ↔ m = Ok a.
Proof. destruct m; cbn; naive_solver. Qed.

Section growth.
Context {S : Type}.
Implicit Types (P : event → Prop) (w : World S).

Definition grows {A} P (m : call_m (S := S) A) : Prop := ∀ w res w', m w = (res, w') →
  w'.(w_store) = w.(w_store) ∧ ∃ evs, w'.(w_events) = w.(w_events) ++ evs ∧ Forall P evs.

Lemma bind_cases {A B} (m : call_m (S := S) A) (f : A → call_m B) w res w' :
  bind_m m f w = (res, w') →
  (∃ e, m w = (Err e, w') ∧ res = Err e) ∨ (∃ a w1, m w = (Ok a, w1) ∧ f a w1 = (res, w')).
Proof. unfold bind_m. destruct (m w) as [[a|e] w1]; [eauto|]. intros [= <- <-]. eauto. Qed.

Lemma grows_lift {A} P (m : result call_error A) : grows P (lift_m m).
Proof. intros w res w' [= <- <-]. split; [done|]. exists []. by rewrite app_nil_r. Qed.
Lemma grows_ret {A} P (a : A) : grows P (ret a).
Proof. apply (grows_lift P (Ok a)). Qed.
Lemma grows_fail {A} P e : grows P (@fail S A e).
Proof. apply (grows_lift P (Err e)). Qed.
Lemma grows_refuse {A} P reason id detail : grows P (@refuse_m S A reason id detail).
Proof. apply grows_lift. Qed.
Lemma grows_emit P e : P e → grows P (emit e).
Proof. intros He w res w' [= <- <-]. split; [done|]. exists [e]. split; [done|by constructor]. Qed.
Lemma grows_bind {A B} P (m : call_m (S := S) A) (f : A → call_m B) :
  grows P m → (∀ a, grows P (f a)) → grows P (bind_m m f).
Proof.
  intros Hm Hf w res w' [(e & He & ->)|(a & w1 & Ha & Hb)]%bind_cases; [by eapply Hm|].
  destruct (Hm _ _ _ Ha) as (Hs1 & ev1 & He1 & HP1), (Hf a _ _ _ Hb) as (Hs2 & ev2 & He2 & HP2).
  split; [congruence|]. exists (ev1 ++ ev2). rewrite He2, He1, <-app_assoc. split; [done|by apply Forall_app].
Qed.
Lemma grows_lift_bind {A B} P (m : result call_error A) (f : A → call_m B) :
  (∀ a, m = Ok a → grows P (f a)) → grows P (bind_m (lift_m m) f).
Proof.
  intros Hf w res w' [(e & [= _ <-] & _)|(a & w1 & [= Ha <-] & Hb)]%bind_cases; [|by eapply Hf].
  split; [done|]. exists []. by rewrite app_nil_r.
Qed.
Lemma grows_weaken {A} P Q (m : call_m (S := S) A) : (∀ e, P e → Q e) → grows P m → grows Q m.
Proof.
  intros HPQ Hm w res w' Hr. destruct (Hm _ _ _ Hr) as (? & evs & ? & ?). split; [done|]. exists evs.
  split; [done|by eapply Forall_impl].
Qed.
End growth.
Create HintDb grow.
#[export] Hint Resolve grows_lift grows_ret grows_fail grows_refuse grows_emit : grow.
#[export] Hint Extern 3 (grows _ (bind_m _ _)) => apply grows_bind; [|intros ?] : grow.
Ltac grow := repeat first [ solve [eauto with grow] | apply grows_bind; [|intros ?] | case_match ].

(** The bindings that let a call pass. *)
Definition bound_to (project : option string) (bindings : list (string * option string)) : Prop :=
  match project with
  | None => Forall (λ b, b.2 = None) bindings
  | Some p => bindings ≠ [] ∧ Forall (λ b, b.2 = Some p) bindings
  end.
Lemma enforce_exact cap project bindings :
  enforce_project_binding cap project bindings = Ok tt ↔ bound_to project bindings.
Proof.
  unfold enforce_project_binding, bound_to. destruct project as [p|].
  - destruct bindings as [|b0 l0]; [split; [intros [=]|by intros [? _]]|].
    transitivity (Forall (λ b : string * option string, b.2 = Some p) (b0 :: l0)); [|split; [intros Hall; by split|by intros [_ ?]]].
    revert b0. induction l0 as [|b1 l IH]; intros [k [q|]]; rewrite Forall_cons; cbn [snd];
      try (case_bool_decide as Hq; [subst q|]); try (split; [intros [=]|by intros [[= ?] _]]).
    + by split.
    + rewrite <-IH. tauto.
  - destruct (List.find _ bindings) as [b|] eqn:Hf.
    + apply find_spec in Hf as (l1 & l2 & -> & Hb & _). split; [done|]. intros [_ Hn]%Forall_app.
      apply Forall_cons in Hn as [Hn _]. by rewrite Hn in Hb.
    + split; [intros _|done]. apply Forall_forall. intros b Hb. apply list_elem_of_In in Hb.
      pose proof (find_none _ _ Hf b Hb) as Hx. cbn in Hx. by destruct b.2.
Qed.

Section broker.
Context (mc : Machine).
Context (registry : option ConnectorRegistry) (rnd : Q → float) (float_of_text : string → option float)
        (float_repr : float → string) (sha256 : string → string)
        (mail_recipients : string → option (list string)) (iso : string → option (bool * Z)).
Context {S : Type} `{GrantStore S}.
Implicit Types (w : World S) (r : CallRequest) (c : Capability).
Abbreviation M := (@call_m S).
Abbreviation authorize_call := (authorized registry rnd float_of_text float_repr sha256 mail_recipients iso (S := S)).
Abbreviation dispatched := (dispatch mc registry rnd float_of_text (S := S)).
Abbreviation unlogged := (call_unlogged mc registry rnd float_of_text float_repr sha256 mail_recipients iso (S := S)).
Abbreviation brokered := (call mc registry rnd float_of_text float_repr sha256 mail_recipients iso (S := S)).

(** ** Credentials *)

(** A secret the connector of the capability declares, that neither the catalogue nor the guard refuses. *)
Definition secret_allowed (c : Capability) (name : string) : Prop :=
  ∃ names, declared_env_names registry c = Ok names ∧ name ∈ names
         ∧ mc.(mc_catalog) name = "" ∧ guard_refuses mc name = false.
Definition credential_event (c : Capability) (e : event) : Prop :=
  match e with EvSecret n => secret_allowed c n | EvToken _ => True | _ => False end.

Lemma resolve_secret_grows c name : grows (credential_event c) (resolve_secret mc registry c name : M string).
Proof.
  unfold resolve_secret. apply grows_lift_bind. intros names Hn.
  case_bool_decide as Hin; cbn [negb]; [|grow]. case_bool_decide as Hcat; cbn [negb]; [|grow].
  destruct (guard_refuses mc name) eqn:Hg; [grow|]. apply grows_bind; [|intros _; grow].
  apply grows_emit. by exists names.
Qed.
#[local] Hint Resolve resolve_secret_grows : grow.

Lemma scoped_resolve_grows c known name : grows (credential_event c) (scoped_resolve mc registry c known name : M _).
Proof. unfold scoped_resolve. grow. Qed.
#[local] Hint Resolve scoped_resolve_grows : grow.

Lemma cache_token_grows P key token expiry : grows P (cache_token key token expiry : M ()).
Proof. intros w res w' [= <- <-]. split; [done|]. exists []. by rewrite app_nil_r. Qed.
Lemma cached_token_grows P key : grows P (cached_token key : M _).
Proof. intros w res w' [= <- <-]. split; [done|]. exists []. by rewrite app_nil_r. Qed.
#[local] Hint Resolve cache_token_grows cached_token_grows : grow.

Lemma mint_bearer_grows c scheme a b d :
  grows (credential_event c) (mint_bearer mc registry rnd float_of_text c scheme a b d : M string).
Proof.
  unfold mint_bearer, mint_fresh. grow; apply grows_emit; exact I.
Qed.
#[local] Hint Resolve mint_bearer_grows : grow.

Lemma auth_headers_grows c spec method url body form :
  grows (credential_event c) (auth_headers mc registry rnd float_of_text c spec method url body form : M auth_parts).
Proof. unfold auth_headers, ovh_headers, mtls_parts. grow. Qed.
Lemma auth_form_grows c spec : grows (credential_event c) (auth_form mc registry c spec : M dict).
Proof. unfold auth_form. grow. Qed.
#[local] Hint Resolve auth_headers_grows auth_form_grows : grow.

(** ** Dispatch *)

(** The request of the capability itself; the exchange of an OAuth token, which goes out
    before it, is [EvToken]. *)
Definition sends (e : event) : Prop := match e with EvSend _ | EvEcho _ => True | _ => False end.

(** What a dispatch appends: credentials, then at most one request, after which it only
    succeeds or reports the transport. *)
Lemma dispatch_cases c spec r b w res w' : dispatched c spec r b w = (res, w') →
  w'.(w_store) = w.(w_store) ∧ ∃ evs, Forall (credential_event c) evs ∧
  ((w'.(w_events) = w.(w_events) ++ evs ∧ ∃ e, res = Err e)
   ∨ ∃ e, sends e ∧ w'.(w_events) = w.(w_events) ++ evs ++ [e]
       ∧ (res = Err (Denied (mkDenied "transport_error" r.(rc_cap_id) "")) ∨ ∃ a, res = Ok a ∧ a.(rt_dry_run) = false)).
Proof.
  unfold dispatch. destruct (is_inprocess c).
  - destruct (dispatch_echo r.(rc_body)); intros [= <- <-]; (split; [done|]); exists []; (split; [done|]).
    + right. exists (EvEcho r.(rc_body)). split; [exact I|]. split; [done|]. right. by eexists.
    + left. rewrite app_nil_r. eauto.
  - intros [(e & Ha & ->)|([[hs ps] cert] & w1 & Ha & Hb)]%bind_cases;
      destruct (auth_headers_grows _ _ _ _ _ _ _ _ _ Ha) as (Hs1 & ev1 & He1 & HP1).
    { split; [done|]. exists ev1. eauto. }
    apply bind_cases in Hb as [(e & Hf & ->)|(sf & w2 & Hf & Hb)];
      destruct (auth_form_grows _ _ _ _ _ Hf) as (Hs2 & ev2 & He2 & HP2); rewrite He1, <-app_assoc in He2.
    { split; [congruence|]. exists (ev1 ++ ev2). split; [by apply Forall_app|]. eauto. }
    apply bind_cases in Hb as [(e & [=] & _)|(u & w3 & [= _ <-] & Hb)].
    destruct (mc_send mc _); injection Hb as <- <-; cbn [w_store w_events]; (split; [congruence|]);
      exists (ev1 ++ ev2); (split; [by apply Forall_app|]); right; eexists (EvSend _); (split; [exact I|]);
      rewrite He2, <-!app_assoc; (split; [done|]); eauto.
Qed.

(** ** Authorization appends nothing *)

Lemma store_op_quiet {A} (f : op (option S) call_error A) w res w' :
  store_op f w = (res, w') →
  w'.(w_events) = w.(w_events) ∧ w'.(w_tokens) = w.(w_tokens) ∧ f w.(w_store) = (res, w'.(w_store)).
Proof. unfold store_op. destruct (f (w_store w)) as [a s]. by intros [= <- <-]. Qed.

Definition quiet {A} (m : M A) : Prop := ∀ w res w', m w = (res, w') →
  w'.(w_events) = w.(w_events) ∧ w'.(w_tokens) = w.(w_tokens).
Lemma quiet_lift {A} (m : result call_error A) : quiet (lift_m m).
Proof. by intros w res w' [= <- <-]. Qed.
Lemma quiet_store_op {A} (f : op (option S) call_error A) : quiet (store_op f).
Proof. by intros w res w' (? & ? & _)%store_op_quiet. Qed.
Lemma quiet_bind {A B} (m : M A) (f : A → M B) : quiet m → (∀ a, quiet (f a)) → quiet (bind_m m f).
Proof.
  intros Hm Hf w res w' [(e & He & ->)|(a & w1 & Ha & Hb)]%bind_cases; [by eapply Hm|].
  destruct (Hm _ _ _ Ha), (Hf _ _ _ _ Hb). split; congruence.
Qed.

Lemma durable_path_quiet r ref s dry now later :
  quiet (durable_path registry rnd float_of_text float_repr sha256 mail_recipients iso r ref s dry now later : M _).
Proof.
  unfold durable_path. repeat first [ apply quiet_lift | apply quiet_store_op | apply quiet_bind; [|intros ?] | case_match ].
Qed.
Lemma authorized_quiet r dry now later : quiet (authorize_call r dry now later).
Proof.
  unfold authorized. destruct (normalize_grant_ref _ _) as [ref why]. apply quiet_bind; [by intros w res w' [= <- <-]|intros store].
  repeat first [ apply quiet_lift | apply quiet_store_op | apply durable_path_quiet | apply quiet_bind; [|intros ?] | case_match ].
Qed.

(** A call is refused or dry without effects, or it is authorized and dispatched. *)
Lemma unlogged_cases r dry now later w res w' : unlogged r dry now later w = (res, w') →
  (w'.(w_events) = w.(w_events) ∧ w'.(w_tokens) = w.(w_tokens)
     ∧ ∀ a, res = Ok a → dry = true ∧ a.(rt_dry_run) = true)
  ∨ (dry = false ∧ ∃ c b dok w1 spec, authorize_call r false now later w = (Ok (c, b, dok), w1)
       ∧ hard_stops registry c r dok = Ok tt ∧ c.(cap_http) = Some spec ∧ dispatched c spec r b w1 = (res, w')).
Proof.
  unfold call_unlogged.
  intros [(e & Ha & ->)|([[c b] dok] & w1 & Ha & Hb)]%bind_cases; destruct (authorized_quiet _ _ _ _ _ _ _ Ha) as [He Ht];
    [by left|].
  apply bind_cases in Hb as [(e & [= _ <-] & ->)|(u & w2 & [= Hs <-] & Hb)]; [by left|].
  destruct dry; [injection Hb as <- <-; left; split_and!; [done..|by intros a [= <-]]|].
  destruct c.(cap_http) as [spec|] eqn:Hspec; [|by injection Hb as <- <-; left].
  right. split; [done|]. exists c, b, dok, w1, spec. split_and!; try done.
  apply lift_Ok in Hs. by destruct u.
Qed.

(** ** Who authorizes *)

Definition hard_human (c : Capability) : bool := bool_decide (c.(cap_action_class) ∈ HARD_HUMAN_CLASSES).

Abbreviation authorize_standing := (authorize registry rnd float_repr sha256 mail_recipients iso (S := S)).

Lemma authorize_Ok store granted a now c : authorize_standing store granted a now = Ok c →
  (∃ reg, registry = Some reg ∧ Connectors.capability reg a.(au_cap_id) = Ok c) ∧ a.(au_cap_id) ∈ granted
  ∧ (∃ row bindings,
       match a.(au_agent_id) with
       | Some agent => ∃ x, row = Some x ∧ lifecycle_row registry iso c store agent a now = Ok x
       | None => row = None end
       ∧ project_bindings store row a = Ok bindings
       ∧ enforce_project_binding a.(au_cap_id) a.(au_project_id) bindings = Ok tt)
  ∧ hard_human_gate rnd float_repr sha256 mail_recipients iso c store a now = Ok tt.
Proof.
  unfold authorize. destruct registry as [reg|]; [|done]. destruct (Connectors.capability reg _) as [c0|] eqn:Hc; [|done].
  case_bool_decide as Hg; [cbn [negb]|done].
  intros (row & Hrow & (bs & Hbs & ([] & Hen & ([] & Hgate & Hcall)%bind_Ok)%bind_Ok)%bind_Ok)%bind_Ok.
  assert (c0 = c) as -> by (by destruct (callable_now c0); [injection Hcall|]).
  split_and!; [by eexists|done| |done]. exists row, bs. split_and!.
  - destruct a.(au_agent_id) as [agent|]; [|by injection Hrow].
    apply bind_Ok in Hrow as (x & Hx%lift_Ok & [= <-]). by exists x.
  - by apply lift_Ok.
  - by apply lift_Ok.
Qed.

(** Without a reference, or without a store, the gate refuses every hard-human class. *)
Lemma gate_closed c store a now : hard_human_gate rnd float_repr sha256 mail_recipients iso c store a now = Ok tt →
  store = None ∨ (normalize_grant_ref a.(au_approval_token) a.(au_grant_id)).1 = None → hard_human c = false.
Proof.
  unfold hard_human_gate, hard_human. case_bool_decide; [|done]. intros Hg Hor. exfalso. revert Hg.
  unfold durable_hard_human_ok. destruct (normalize_grant_ref _ _) as [[ref|] [|x y]]; cbn in *;
    try (destruct store; [by destruct Hor|]); cbn; by repeat case_match.
Qed.

(** What a call under a durable grant presents for consumption. *)
Definition presentation (r : CallRequest) (c : Capability) (b : CallBounds) : Presented :=
  mkPresented r.(rc_cap_id) (Some (action_class_value c.(cap_action_class))) (Some c.(cap_connector))
    (Some (tool_name r.(rc_cap_id))) (head b.(cb_recipients)) r.(rc_generation)
    (scoped_args_from_request r.(rc_body) r.(rc_form)) (default fl_zero b.(cb_spend_usd)).

(** What a durable grant is asked for is what the request states: the bounds are extracted
    from its body and form, no recipient is outside of the targets of the grant when it has
    any, and a request without a price claims no budget. *)
Record states (r : CallRequest) (g : Grant) (b : CallBounds) : Prop := {
  st_bounds : extract_call_bounds rnd float_of_text float_repr mail_recipients r.(rc_cap_id) r.(rc_path) r.(rc_body) r.(rc_form) = Ok b;
  st_priced : b.(cb_spend_usd) = None → request_claims_budget_amount r.(rc_body) r.(rc_form) = false;
  st_targets : ∃ targets, target_set g = JList targets
    ∧ ∀ x, x ∈ b.(cb_recipients) → targets = [] ∨ ∃ t, t ∈ targets ∧ json_eq (JStr x) t = true;
}.
Lemma recipients_in_Ok targets recipients cap : recipients_in targets recipients cap = Ok tt →
  ∀ x, x ∈ recipients → targets = [] ∨ ∃ t, t ∈ targets ∧ json_eq (JStr x) t = true.
Proof.
  unfold recipients_in. destruct (forallb is_hashable targets); cbn [negb]; [|done].
  case_bool_decide as Ht; [intros _ x _; left; by apply nil_length_inv|]. case_bool_decide; [done|].
  destruct (forallb _ recipients) eqn:Hall; [|done]. intros _ x Hx%list_elem_of_In. rewrite forallb_forall in Hall.
  apply Hall, existsb_exists in Hx as (t & Hin%list_elem_of_In & He). right. by exists t.
Qed.

(** The grant a call consumed before it was dispatched. *)
Definition consumed (r : CallRequest) (c : Capability) (b : CallBounds) (later : string) (store store' : option S) : Prop :=
  ∃ ref s g f v s', normalize_grant_ref r.(rc_approval_token) r.(rc_grant_id) = (Some ref, "") ∧ store = Some s
  ∧ gs_get_grant ref s = GotRow g ∧ row_project g.(g_project_id) = r.(rc_project_id)
  ∧ gs_try_consume = Some f ∧ f ref (Some r.(rc_cap_id)) (presentation r c b) later s = (Ok v, s')
  ∧ v.(cr_ok) = true ∧ store' = Some s' ∧ states r g b.

(** No durable grant is named, or there is no store to hold one. *)
Definition unreferenced (r : CallRequest) (store : option S) : Prop :=
  (normalize_grant_ref r.(rc_approval_token) r.(rc_grant_id)).1 = None ∨ store = None.

Lemma durable_cases r ref s now later w c b dok w1 :
  normalize_grant_ref r.(rc_approval_token) r.(rc_grant_id) = (Some ref, "") → w.(w_store) = Some s →
  r.(rc_grant_holder) = None →
  durable_path registry rnd float_of_text float_repr sha256 mail_recipients iso r ref s false now later w
    = (Ok (c, b, dok), w1) →
  dok = true ∧ (∃ reg, registry = Some reg ∧ Connectors.capability reg r.(rc_cap_id) = Ok c)
  ∧ consumed r c b later w.(w_store) w1.(w_store).
Proof.
  intros Hn Hs Hh. unfold durable_path. intros [(e & _ & [=])|(b0 & w2 & [= Hb0 <-] & Hr)]%bind_cases.
  destruct (gs_get_grant ref s) as [| |g|] eqn:Hg; try done. destruct (target_set g) as [| | | | |targets|] eqn:Ht; try done.
  apply bind_cases in Hr as [(e & _ & [=])|([] & w3 & [= Hu <-] & Hr)]. destruct (_ && request_claims_budget_amount _ _) eqn:Hpriced; [done|].
  apply bind_cases in Hr as [(e & _ & [=])|(c0 & w3 & (He & _ & Hw)%store_op_quiet & [= -> -> <- <-])].
  split; [done|]. rewrite Hs in Hw |- *. unfold authorize_with_grant in Hw. cbn [gc_grant_holder grant_call] in Hw.
  rewrite Hh in Hw. cbn [gc_grant_id gc_granted grant_call] in Hw. destruct (rc_granted r) as [granted|]; [|done].
  rewrite Hg in Hw. destruct (authorize _ _ _ _ _ _ _ _ _ _) as [c0|] eqn:Hauth; [|done].
  apply authorize_Ok in Hauth as (Hreg & _ & (row & bs & _ & Hbs & Hen%enforce_exact) & _).
  cbn [au_cap_id campaign_request gc_cap_id grant_call] in Hreg. cbn [gc_consume grant_call negb] in Hw.
  destruct gs_try_consume as [f|] eqn:Hf; [|done]. destruct (f _ _ _ _ _) as [[v|] s'] eqn:Hv; [|done].
  injection Hw as Hw Hst. destruct (cr_ok v) eqn:Hok; [|by destruct (bool_decide _)]. injection Hw as ->.
  split; [exact Hreg|]. assert (states r g b) as Hstates.
  { split; [done| |exists targets; split; [done|by eapply recipients_in_Ok]]. intros Hno. by rewrite Hno in Hpriced. }
  exists ref, s, g, f, v, s'. split_and!; try done.
  unfold project_bindings in Hbs. apply bind_Ok in Hbs as (st & _ & Hbs). cbn [au_grant_id campaign_request gc_grant_id grant_call] in Hbs.
  unfold campaign_project in Hbs. rewrite Hg in Hbs. cbn in Hbs. injection Hbs as <-.
  revert Hen. unfold bound_to. cbn. destruct (rc_project_id r) as [p|]; [intros [_ Hall]|intros Hall];
    apply Forall_app in Hall as [_ Hlast]; by apply Forall_cons in Hlast as [? _].
Qed.

Lemma authorized_cases r now later w c b dok w1 : authorize_call r false now later w = (Ok (c, b, dok), w1) →
  (∃ reg, registry = Some reg ∧ Connectors.capability reg r.(rc_cap_id) = Ok c)
  ∧ ((dok = false ∧ w1.(w_store) = w.(w_store) ∧ hard_human c = false ∧ unreferenced r w.(w_store))
     ∨ (dok = true ∧ consumed r c b later w.(w_store) w1.(w_store))).
Proof.
  unfold authorized. destruct (normalize_grant_ref _ _) as [ref why] eqn:Hn.
  intros [(e & [=] & _)|(store & w2 & [= <- <-] & Hr)]%bind_cases.
  case_bool_decide as Hwhy; cbn [negb] in Hr; [|done]. subst why.
  destruct (rc_grant_holder r) as [holder|] eqn:Hh.
  - destruct ref; [done|].
    apply bind_cases in Hr as [(e & _ & [=])|(c0 & w3 & (_ & _ & Hw)%store_op_quiet & Hr)].
    apply bind_cases in Hr as [(e & _ & [=])|(b0 & w4 & [= _ <-] & [= -> -> <- <-])].
    unfold authorize_with_grant in Hw. cbn [gc_grant_holder grant_call] in Hw. rewrite Hh in Hw.
    destruct (w_store w) as [s|]; [|done]. injection Hw as Hw ->. cbn [gc_granted gc_grant_id grant_call] in Hw.
    destruct (rc_granted r); [done|]. destruct (gs_get_grant holder s) as [| | |stored]; try done.
    apply authorize_Ok in Hw as (Hreg & _ & _ & Hgate). split; [exact Hreg|]. left. split_and!; [done..| |].
    + eapply gate_closed; [exact Hgate|]. by right.
    + left. by rewrite Hn.
  - assert (Hplain : ∀ store', store' = w.(w_store) → ref = None ∨ store' = None →
      (let* c := lift_m (authorize_standing store' (default [] r.(rc_granted))
                  (mkAuth r.(rc_cap_id) r.(rc_approval_token) r.(rc_grant_id) r.(rc_agent_id) r.(rc_method) r.(rc_path)
                     None r.(rc_generation) (scoped_args_from_request r.(rc_body) r.(rc_form)) r.(rc_project_id) None) now) in
       let* bounds := lift_m (extract_call_bounds rnd float_of_text float_repr mail_recipients r.(rc_cap_id) r.(rc_path)
                                r.(rc_body) r.(rc_form)) in
       ret (c, bounds, false)) w = (Ok (c, b, dok), w1) →
      (∃ reg, registry = Some reg ∧ Connectors.capability reg r.(rc_cap_id) = Ok c)
      ∧ (dok = false ∧ w1.(w_store) = w.(w_store) ∧ hard_human c = false)).
    { intros store' -> Hor [(e & _ & [=])|(c0 & w3 & [= Ha <-] & Hb)]%bind_cases.
      apply bind_cases in Hb as [(e & _ & [=])|(b0 & w4 & [= _ <-] & [= -> -> <- <-])].
      apply authorize_Ok in Ha as (Hreg & _ & _ & Hgate). split; [exact Hreg|]. split_and!; [done..|].
      eapply gate_closed; [exact Hgate|]. cbn. rewrite Hn. destruct Hor; auto. }
    destruct ref as [ref|], (w_store w) as [s|] eqn:Hs;
      try (eapply Hplain in Hr as (? & ? & ? & ?); [|done|by auto]; split; [done|];
           left; split_and!; [done..|unfold unreferenced; rewrite Hn; auto]).
    eapply durable_cases in Hr as (-> & ? & ?); [|done..]. rewrite Hs in *. split; [done|by right].
Qed.

(** ** Calls *)

(** A write that an unattended caller may not make. *)
Definition guarded_write (c : Capability) (r : CallRequest) : bool :=
  hard_human c || is_money_write c r.(rc_method) r.(rc_path) || is_dangerous_write registry c r.(rc_method) r.(rc_path).

(** The authorization behind the effects of a call. *)
Definition permitted (r : CallRequest) (c : Capability) (later : string) (store store' : option S) : Prop :=
  (∃ reg, registry = Some reg ∧ Connectors.capability reg r.(rc_cap_id) = Ok c)
  ∧ validate_request c r.(rc_method) r.(rc_path) = Ok tt
  ∧ ((∃ b, consumed r c b later store store') ∨ (store' = store ∧ guarded_write c r = false ∧ unreferenced r store)).

Lemma permitted_intro r now later w c b dok w1 :
  authorize_call r false now later w = (Ok (c, b, dok), w1) → hard_stops registry c r dok = Ok tt →
  permitted r c later w.(w_store) w1.(w_store).
Proof.
  intros Ha Hs. destruct (authorized_cases _ _ _ _ _ _ _ _ Ha) as (Hreg & Hor).
  unfold hard_stops in Hs. apply bind_Ok in Hs as ([] & Hv & Hs). split_and!; [done..|].
  destruct Hor as [(-> & Hst & Hh & Hun)|(_ & Hc)]; [right|left; by exists b]. split_and!; [done| |done].
  unfold guarded_write. rewrite Hh. rewrite !andb_true_r in Hs. by repeat case_match.
Qed.

(** The events of an unlogged call. *)
Definition is_audit (e : event) : bool := match e with EvAudit _ => true | _ => false end.
Definition is_send (e : event) : bool := match e with EvSend _ => true | _ => false end.
Definition effect_of (c : Capability) (e : event) : Prop := credential_event c e ∨ sends e.

Lemma unlogged_effects r dry now later w res w' : unlogged r dry now later w = (res, w') →
  ∃ evs, w'.(w_events) = w.(w_events) ++ evs
  ∧ (evs = [] ∨ dry = false ∧ ∃ c, permitted r c later w.(w_store) w'.(w_store) ∧ Forall (effect_of c) evs)
  ∧ (Exists sends evs → (∃ a, res = Ok a) ∨ res = Err (Denied (mkDenied "transport_error" r.(rc_cap_id) ""))).
Proof.
  intros [(He & _ & _)|(-> & c & b & dok & w1 & spec & Ha & Hs & _ & Hd)]%unlogged_cases.
  - exists []. rewrite app_nil_r. split_and!; [done|by left|by intros ?%Exists_nil].
  - pose proof (permitted_intro _ _ _ _ _ _ _ _ Ha Hs) as Hp. destruct (authorized_quiet _ _ _ _ _ _ _ Ha) as [He _].
    destruct (dispatch_cases _ _ _ _ _ _ _ Hd) as (Hst & evs & HP & [(Hev & e & ->)|(e & Hse & Hev & Hres)]);
      rewrite <-He, Hst.
    + exists evs. split_and!; [done| |].
      * right. split; [done|]. exists c. split; [done|]. eapply Forall_impl; [exact HP|]. by left.
      * intros Hex. exfalso. apply Exists_exists in Hex as (e' & Hin & Hse). rewrite Forall_forall in HP.
        specialize (HP _ Hin). by destruct e'.
    + exists (evs ++ [e]). split_and!; [done| |intros _; destruct Hres as [|(a & ? & _)]; eauto].
      right. split; [done|]. exists c. split; [done|]. apply Forall_app. split; [|by constructor; [right|]].
      eapply Forall_impl; [exact HP|]. by left.
Qed.

(** The verdict an audited call closes with. *)
Definition verdict (dry : bool) (o : result call_error CallResult) : string * string * option Z :=
  match o with
  | Ok a => (if dry then "dry_run" else "allowed", "", Some a.(rt_status))
  | Err e => (terminal_decision e, None)
  end.
Definition reached (dry : bool) (o : result call_error CallResult) : bool :=
  match o with Ok _ => negb dry | Err e => reached_provider e end.
Definition answer (cap : string) (o : result call_error CallResult) : result call_error CallResult :=
  match o with Err (Raised _) => Err (Denied (mkDenied "audit_finalization_failed" cap "")) | _ => o end.
Definition after (w : World S) (row : BrokerCall) : World S := mkWorld w.(w_store) w.(w_tokens) (w.(w_events) ++ [EvAudit row]).
Definition call_row (r : CallRequest) (cx : AuditContext) (c : Capability) (names : list string)
    (v : string * string * option Z) : BrokerCall :=
  audit_row_of mc cx c names r.(rc_method) v.1.1 v.1.2 v.2 (mc.(mc_digest) r.(rc_body) r.(rc_form)) (default "" r.(rc_agent_id)).

Lemma audit_row_inv cx c method decision reason status hash agent w ok w' :
  audit_row mc registry cx c method decision reason status hash agent w = (Ok ok, w') →
  (ok = false ∧ w' = w) ∨ (ok = true ∧ ∃ names, declared_env_names registry c = Ok names
    ∧ w' = after w (audit_row_of mc cx c names method decision reason status hash agent)).
Proof.
  unfold audit_row. destruct (declared_env_names registry c) as [names|]; [|intros [= <- <-]; by left].
  destruct (mc_row_written mc _); intros [= <- <-]; [right|by left]. split; [done|]. by exists names.
Qed.
(** A row is written, or the call ends there. *)
Lemma row_or_refuse {A} cx c method decision reason status hash agent why cap (k : M A) w res w' :
  (let* written := audit_row mc registry cx c method decision reason status hash agent in
   if negb (written : bool) then refuse_m why cap "" else k) w = (res, w') →
  (w' = w ∧ res = Err (Denied (mkDenied why cap "")))
  ∨ (∃ names, declared_env_names registry c = Ok names
       ∧ k (after w (audit_row_of mc cx c names method decision reason status hash agent)) = (res, w')).
Proof.
  intros [(e & He & _)|(ok & w2 & Hok & Hr)]%bind_cases.
  { exfalso. revert He. unfold audit_row. by repeat case_match. }
  apply audit_row_inv in Hok as [(-> & ->)|(-> & names & Hn & ->)]; cbn [negb] in Hr; [|right; by exists names].
  left. by injection Hr as <- <-.
Qed.

Lemma call_cases r cx now later w res w' : brokered r cx now later w = (res, w') →
  (w' = w ∧ ∃ e, res = Err e)
  ∨ ∃ dry, require_dry_run_flag r.(rc_dry_run) r.(rc_cap_id) = Ok dry ∧
    ((audits_own_calls registry r.(rc_cap_id) = false ∧ unlogged r dry now later w = (res, w'))
     ∨ ∃ cx' c names o w2, audits_own_calls registry r.(rc_cap_id) = true ∧ declared_env_names registry c = Ok names
         ∧ unlogged r dry now later (after w (call_row r cx' c names ("intent", "", None))) = (o, w2)
         ∧ ((w' = after w2 (call_row r cx' c names (verdict dry o)) ∧ res = answer r.(rc_cap_id) o)
            ∨ (w' = w2 ∧ res = Err (Denied (mkDenied (audit_failure_reason (reached dry o)) r.(rc_cap_id) ""))))).
Proof.
  unfold call, audits_own_calls. intros [(e & [= _ <-] & ->)|(dry & w1 & [= Hdry%lift_Ok <-] & Hr)]%bind_cases; [by left; eauto|].
  destruct (audit_capability registry r.(rc_cap_id)) as [c|]; [|right; exists dry; by auto].
  destruct (is_credentialed c || is_inprocess c); cbn [negb] in Hr; [|right; exists dry; by auto].
  apply bind_cases in Hr as [(e & [= _ <-] & ->)|(cx' & w2 & [= _ <-] & Hr)]; [by left; eauto|]. cbv zeta in Hr.
  destruct (mc_sink_opens mc); cbn [negb] in Hr; [|by injection Hr as <- <-; left; eauto].
  apply row_or_refuse in Hr as [[-> ->]|(names & Hn & Hr)]; [by left; eauto|].
  right. exists dry. split; [done|]. right.
  apply bind_cases in Hr as [(e & He & _)|(o & w3 & Ho & Hr)]; [by unfold outcome_of in He; destruct (unlogged _ _ _ _ _)|].
  unfold outcome_of in Ho. destruct (unlogged _ _ _ _ _) as [o' w4] eqn:Hu. injection Ho as -> ->.
  exists cx', c, names, o, w3. split_and!; [done..|exact Hu|].
  assert (Hclose : ∀ k v, v = verdict dry o → (∀ w, k w = (answer r.(rc_cap_id) o, w)) →
    (let* written := audit_row mc registry cx' c r.(rc_method) v.1.1 v.1.2 v.2 (mc.(mc_digest) r.(rc_body) r.(rc_form))
                       (default "" r.(rc_agent_id)) in
     if negb (written : bool) then refuse_m (audit_failure_reason (reached dry o)) r.(rc_cap_id) "" else k) w3 = (res, w') →
    (w' = after w3 (call_row r cx' c names (verdict dry o)) ∧ res = answer r.(rc_cap_id) o)
    ∨ (w' = w3 ∧ res = Err (Denied (mkDenied (audit_failure_reason (reached dry o)) r.(rc_cap_id) "")))).
  { intros k v -> Hk [[-> ->]|(names' & Hn' & Hr')]%row_or_refuse; [by right|]. left. rewrite Hk in Hr'.
    injection Hr' as <- <-. rewrite Hn in Hn'. by injection Hn' as <-. }
  destruct o as [a|e].
  - apply (Hclose (ret a) (verdict dry (Ok a)) eq_refl (λ w, eq_refl)). exact Hr.
  - destruct (terminal_decision e) as [decision reason] eqn:Ht.
    apply (Hclose (match e with Denied _ => fail e | Raised _ => refuse_m (audit_failure_reason true) r.(rc_cap_id) "" end)
             (decision, reason, None)); [by cbn; rewrite Ht|by destruct e|exact Hr].
Qed.

(** The events of a call: audit rows around the effects one authorization permits. *)
Lemma call_effects r cx now later w res w' : brokered r cx now later w = (res, w') →
  ∃ new, w'.(w_events) = w.(w_events) ++ new ∧
  (Forall (λ e, is_audit e = true) new
   ∨ r.(rc_dry_run) = JBool false ∧ ∃ c, permitted r c later w.(w_store) w'.(w_store)
     ∧ Forall (λ e, is_audit e = true ∨ effect_of c e) new).
Proof.
  intros [[-> _]|(dry & Hdry & Hor)]%call_cases; [exists []; rewrite app_nil_r; split; [done|by left]|].
  assert (Hflag : dry = false → r.(rc_dry_run) = JBool false) by (by intros ->; destruct (rc_dry_run r); simplify_eq/=).
  destruct Hor as [(_ & Hu)|(cx' & c0 & names & o & w2 & _ & _ & Hu & Hend)];
    destruct (unlogged_effects _ _ _ _ _ _ _ Hu) as (evs & He & Hp & _).
  - exists evs. split; [done|]. destruct Hp as [->|(Hd & c & Hp & Hall)]; [by left|]. right. split; [auto|].
    exists c. split; [done|]. eapply Forall_impl; [exact Hall|]. by right.
  - cbn [w_events w_store after] in *. set (row := call_row r cx' c0 names ("intent", "", None)) in *.
    assert (∃ tail, w'.(w_events) = w2.(w_events) ++ tail ∧ Forall (λ e, is_audit e = true) tail ∧ w'.(w_store) = w2.(w_store))
      as (tail & Ht & Haud & Hst).
    { destruct Hend as [[-> _]|[-> _]]; [eexists; split_and!; [done|by repeat constructor|done]|].
      exists []. by rewrite app_nil_r. }
    exists (EvAudit row :: evs ++ tail). rewrite Ht, He, <-!app_assoc. split; [done|].
    destruct Hp as [->|(Hd & c & Hp & Hall)]; [left; by constructor|]. right. split; [auto|].
    exists c. rewrite Hst. split; [done|]. constructor; [by left|]. apply Forall_app. split.
    + eapply Forall_impl; [exact Hall|]. by right.
    + eapply Forall_impl; [exact Haud|]. by left.
Qed.

(** C1: No unattended write: when a call of a consequential or irreversible capability, a money-moving write or a write of a dangerous group has any effect outside of its audit rows (a request, a token mint, or so much as the reading of a secret), then it was not a dry run and the store consumed, in this very call and before the effect, a durable grant that the call named and that is bound to the call's project. *)
Theorem no_unattended_write r cx now later w res w' new reg c :
  brokered r cx now later w = (res, w') → w'.(w_events) = w.(w_events) ++ new →
  Exists (λ e, is_audit e = false) new →
  registry = Some reg → Connectors.capability reg r.(rc_cap_id) = Ok c → guarded_write c r = true →
  r.(rc_dry_run) = JBool false ∧ ∃ b, consumed r c b later w.(w_store) w'.(w_store).
Proof.
  intros (new' & He & Hor)%call_effects Hnew Hex Hreg Hc Hg. rewrite He in Hnew. apply app_inv_head in Hnew as ->.
  destruct Hor as [Hall|(Hd & c' & ((reg' & Hreg' & Hc') & _ & Hp) & _)].
  - exfalso. apply Exists_exists in Hex as (e & Hin & Hn). rewrite Forall_forall in Hall. specialize (Hall _ Hin). congruence.
  - split; [done|]. assert (reg' = reg) as -> by congruence. assert (c' = c) as -> by congruence.
    destruct Hp as [?|(_ & Hno & _)]; [done|congruence].
Qed.

(** A call reads a secret only when the connector of its capability declares the name, the catalogue gives no reason against it and the permission guard does not refuse it, and only for a request that the capability's method and path allowlist has passed. *)
Theorem secrets_confined r cx now later w res w' new name :
  brokered r cx now later w = (res, w') → w'.(w_events) = w.(w_events) ++ new → EvSecret name ∈ new →
  ∃ reg c, registry = Some reg ∧ Connectors.capability reg r.(rc_cap_id) = Ok c
    ∧ validate_request c r.(rc_method) r.(rc_path) = Ok tt ∧ secret_allowed c name.
Proof.
  intros (new' & He & Hor)%call_effects Hnew Hin. rewrite He in Hnew. apply app_inv_head in Hnew as ->.
  destruct Hor as [Hall|(_ & c & ((reg & ? & ?) & ? & _) & Hall)]; rewrite Forall_forall in Hall; specialize (Hall _ Hin).
  - done.
  - exists reg, c. split_and!; try done. by destruct Hall as [|[|]].
Qed.

Lemma grant_keeps_store g now later store res store' :
  authorize_with_grant registry rnd float_repr sha256 mail_recipients iso g now later store = (res, store') →
  is_Some g.(gc_grant_holder) ∨ g.(gc_consume) = false → store' = store.
Proof.
  unfold authorize_with_grant. intros Hr [[h Hh]|Hc]; [rewrite Hh in Hr|rewrite Hc in Hr]; cbn [negb] in Hr;
    by repeat (case_match; simplify_eq).
Qed.
Definition keeps_store {A} (m : M A) : Prop := ∀ w res w', m w = (res, w') → w'.(w_store) = w.(w_store).
Lemma keeps_store_bind {A B} (m : M A) (f : A → M B) : keeps_store m → (∀ a, keeps_store (f a)) → keeps_store (bind_m m f).
Proof.
  intros Hm Hf w res w' [(e & He & ->)|(a & w1 & Ha & Hb)]%bind_cases; [by eapply Hm|].
  rewrite (Hf _ _ _ _ Hb). by eapply Hm.
Qed.
Lemma keeps_store_lift {A} (m : result call_error A) : keeps_store (lift_m m).
Proof. by intros w res w' [= <- <-]. Qed.
Lemma keeps_store_grant g now later : is_Some g.(gc_grant_holder) ∨ g.(gc_consume) = false →
  keeps_store (store_op (authorize_with_grant registry rnd float_repr sha256 mail_recipients iso g now later)).
Proof. intros Hg w res w' (_ & _ & Hs)%store_op_quiet. by eapply grant_keeps_store. Qed.

Lemma dry_keeps_store r now later : keeps_store (authorize_call r true now later).
Proof.
  unfold authorized, durable_path. destruct (normalize_grant_ref _ _) as [ref why].
  apply keeps_store_bind; [by intros w res w' [= <- <-]|intros store].
  destruct (rc_grant_holder r) as [h|] eqn:Hh.
  all: repeat first [ apply keeps_store_lift | apply keeps_store_grant; cbn; rewrite ?Hh; eauto
                    | apply keeps_store_bind; [|intros ?] | case_match ].
Qed.

(** A dry run is pure: whatever the registry, the store and the provider, it consumes no grant, mints no token, reads no secret and sends nothing; all it leaves behind is audit rows, and an answer it gives is marked as a dry run.  A flag that is not a boolean is refused before anything happens. *)
Theorem dry_run_pure r cx now later w res w' :
  brokered r cx now later w = (res, w') → r.(rc_dry_run) ≠ JBool false →
  w'.(w_store) = w.(w_store) ∧ w'.(w_tokens) = w.(w_tokens)
  ∧ (∃ new, w'.(w_events) = w.(w_events) ++ new ∧ Forall (λ e, is_audit e = true) new)
  ∧ ∀ a, res = Ok a → r.(rc_dry_run) = JBool true ∧ a.(rt_dry_run) = true.
Proof.
  intros Hcall Hflag. destruct (call_effects _ _ _ _ _ _ _ Hcall) as (new & He & Hor).
  assert (Haud : Forall (λ e, is_audit e = true) new) by (by destruct Hor as [|[? _]]).
  apply call_cases in Hcall as [[-> [e ->]]|(dry & Hdry & Hrest)]; [split_and!; try done; by exists new|].
  assert (dry = true ∧ r.(rc_dry_run) = JBool true) as [-> Htrue].
  { destruct (rc_dry_run r) as [|[]| | | | |]; simplify_eq/=; done. }
  assert (Hun : ∀ w o w', unlogged r true now later w = (o, w') →
    w'.(w_store) = w.(w_store) ∧ w'.(w_tokens) = w.(w_tokens) ∧ ∀ a, o = Ok a → a.(rt_dry_run) = true).
  { intros u o u' Hu. destruct (unlogged_cases _ _ _ _ _ _ _ Hu) as [(_ & Htok & Hres)|[? _]]; [|done].
    split_and!; [|done|intros a Ha; by destruct (Hres a Ha)]. clear Htok Hres. revert Hu. unfold call_unlogged.
    intros [(e & Ha & _)|([[c b] dok] & w1 & Ha & Hb)]%bind_cases; apply dry_keeps_store in Ha; [done|].
    apply bind_cases in Hb as [(e & [= _ <-] & _)|(u0 & w2 & [= _ <-] & [= _ <-])]; done. }
  destruct Hrest as [(_ & Hu)|(cx' & c & names & o & w2 & _ & _ & Hu & Hend)];
    destruct (Hun _ _ _ Hu) as (Hs & Ht & Ha).
  - split_and!; try done; [by exists new|]. intros a ->. split; [done|]. by apply Ha.
  - destruct Hend as [[-> ->]|[-> ->]]; split_and!; try done; try (by exists new).
    intros a Hans. split; [done|]. apply Ha. by destruct o as [|[]].
Qed.

(** C16: The audit trail brackets every audited call.  A call of a credentialed or in-process capability either is refused with no event at all, or begins with the intent row, written before any secret, token or request; then come the effects, then the closing row, which carries the call id of the intent and the verdict, and without which the caller gets no answer.  A caller told "audit_unavailable" knows that the request of the capability was not sent; what may have happened by then, when it is the closing row that could not be written, is the reading of secrets and the exchange of an OAuth token, which does leave the process. *)
Theorem audit_brackets_call r cx now later w res w' :
  brokered r cx now later w = (res, w') → audits_own_calls registry r.(rc_cap_id) = true →
  ∃ new, w'.(w_events) = w.(w_events) ++ new
  ∧ ((new = [] ∧ ∃ e, res = Err e)
     ∨ ∃ intent body tail, new = EvAudit intent :: body ++ tail
         ∧ intent.(bc_decision) = "intent" ∧ intent.(bc_call_id) = mc.(mc_call_id)
         ∧ Forall (λ e, is_audit e = false) body
         ∧ ((tail = [] ∧ ∃ e, res = Err e)
            ∨ ∃ row, tail = [EvAudit row] ∧ row.(bc_call_id) = mc.(mc_call_id) ∧ row.(bc_decision) ≠ "intent"
                ∧ ∀ a, res = Ok a → row.(bc_status) = Some a.(rt_status)
                    ∧ row.(bc_decision) = (if json_eq r.(rc_dry_run) (JBool true) then "dry_run" else "allowed")))
  ∧ ∀ d, res = Err (Denied d) → d.(b_reason) = "audit_unavailable" → ¬ Exists sends new.
Proof.
  intros Hcall Haud. apply call_cases in Hcall as [[-> [e ->]]|(dry & Hdry & [[Hno _]|Hin])]; [|congruence|].
  { exists []. rewrite app_nil_r. split_and!; [done|left; by split; [|exists e]|by intros d _ _ ?%Exists_nil]. }
  destruct Hin as (cx' & c & names & o & w2 & _ & _ & Hu & Hend).
  destruct (unlogged_effects _ _ _ _ _ _ _ Hu) as (evs & He & Hevs & Hsent). cbn [w_events after] in He.
  assert (Hbody : Forall (λ e, is_audit e = false) evs).
  { destruct Hevs as [->|(_ & c' & _ & Hall)]; [done|]. eapply Forall_impl; [exact Hall|]. by intros [] [|]. }
  assert (Hflag : json_eq r.(rc_dry_run) (JBool true) = dry).
  { destruct (rc_dry_run r) as [|[]| | | | |]; simplify_eq/=; done. }
  set (row := call_row r cx' c names ("intent", "", None)) in *.
  destruct Hend as [[-> ->]|[-> ->]].
  - set (final := call_row r cx' c names (verdict dry o)). exists (EvAudit row :: evs ++ [EvAudit final]).
    cbn [w_events after]. rewrite He, <-!app_assoc. split; [done|]. split.
    + right. exists row, evs, [EvAudit final]. split_and!; [done..|]. right. exists final. split_and!; [done..| |].
      * unfold final. destruct o as [a|[d|x]]; cbn; [by destruct dry| |done].
        by repeat case_bool_decide.
      * intros a Ha. by destruct o as [a'|[d|x]]; simplify_eq/=.
    + intros d Hd Hr Hex. apply Exists_cons in Hex as [[]|Hex]. apply Exists_app in Hex as [Hex|Hex];
        [|by apply Exists_cons in Hex as [[]|?%Exists_nil]].
        by destruct (Hsent Hex) as [[a ->]| ->]; cbn in Hd; simplify_eq; cbn in Hr.
  - exists (EvAudit row :: evs ++ []). rewrite He, <-!app_assoc, app_nil_r. split; [done|]. split.
    + right. exists row, evs, []. rewrite app_nil_r. split_and!; [done..|]. left. by eauto.
    + intros d [= <-] Hr Hex. apply Exists_cons in Hex as [[]|Hex].
      destruct (Hsent Hex) as [[a ->]| ->]; cbn in Hr; [|done]. destruct dry; [|done].
      destruct Hevs as [->|[? _]]; [by apply Exists_nil in Hex|done].
Qed.

(** ** The store under a call *)

(** One consumption, or nothing. *)
Definition store_step (later : string) (store store' : option S) : Prop :=
  store' = store ∨ ∃ s f id cap p, store = Some s ∧ gs_try_consume = Some f ∧ store' = Some (f id cap p later s).2.

Lemma grant_store_step g now later store res store' :
  authorize_with_grant registry rnd float_repr sha256 mail_recipients iso g now later store = (res, store') →
  store_step later store store'.
Proof.
  unfold authorize_with_grant. destruct store as [s|]; [|intros [= _ <-]; by left].
  destruct (gc_grant_holder g); [intros [= _ <-]; by left|].
  destruct (gc_grant_id g) as [id|], (gc_granted g) as [granted|]; try (intros [= _ <-]; by left).
  assert (Hcases : ∀ m, (match m with Err e => (Err e, Some s) | Ok c =>
     let p := mkPresented g.(gc_cap_id) (Some (action_class_value c.(cap_action_class))) (Some c.(cap_connector))
                (Some (tool_name g.(gc_cap_id))) g.(gc_target) g.(gc_generation) g.(gc_scoped_args) g.(gc_spend_usd) in
     if negb g.(gc_consume) then
       (validate_grant_without_consuming rnd float_repr sha256 mail_recipients iso c g.(gc_cap_id) s id p later;; Ok c, Some s)
     else match gs_try_consume with
     | None => (Err (Raised "AttributeError"), Some s)
     | Some f => match f id (Some g.(gc_cap_id)) p later s with
                 | (Err _, s') => (Err (Raised "grant store"), Some s')
                 | (Ok v, s') => (if v.(cr_ok) then Ok c
                                  else if bool_decide (v.(cr_outcome) = "broke_out")
                                       then lift (denied "grant_broke_out" g.(gc_cap_id) v.(cr_reason))
                                       else lift (denied "grant_refused" g.(gc_cap_id) v.(cr_reason)), Some s')
                 end
     end end) = (res, store') → store_step later (Some s) store').
  { intros [c|e]; [|intros [= _ <-]; by left]. destruct (gc_consume g); cbn [negb]; [|intros [= _ <-]; by left].
    destruct gs_try_consume as [f|] eqn:Hf; [|intros [= _ <-]; by left]. destruct (f _ _ _ _ _) as [[v|e] s'] eqn:Hv;
      intros [= _ <-]; right; eexists s, f, id, _, _; by rewrite Hv. }
  destruct (gs_get_grant id s); [intros [= _ <-]; by left|intros [= _ <-]; by left|apply Hcases|apply Hcases].
Qed.

Definition steps_store (later : string) {A} (m : M A) : Prop := ∀ w res w', m w = (res, w') →
  store_step later w.(w_store) w'.(w_store).
Lemma keeps_steps later {A} (m : M A) : keeps_store m → steps_store later m.
Proof. intros Hm w res w' Hr. left. by eapply Hm. Qed.
Lemma keeps_then_steps later {A B} (m : M A) (f : A → M B) :
  keeps_store m → (∀ a, steps_store later (f a)) → steps_store later (bind_m m f).
Proof.
  intros Hm Hf w res w' [(e & He & ->)|(a & w1 & Ha & Hb)]%bind_cases; [left; by eapply Hm|].
  rewrite <-(Hm _ _ _ Ha). by eapply Hf.
Qed.
Lemma steps_then_keeps later {A B} (m : M A) (f : A → M B) :
  steps_store later m → (∀ a, keeps_store (f a)) → steps_store later (bind_m m f).
Proof.
  intros Hm Hf w res w' [(e & He & ->)|(a & w1 & Ha & Hb)]%bind_cases; [by eapply Hm|].
  rewrite (Hf _ _ _ _ Hb). by eapply Hm.
Qed.
Lemma grant_steps g now later :
  steps_store later (store_op (authorize_with_grant registry rnd float_repr sha256 mail_recipients iso g now later)).
Proof. intros w res w' (_ & _ & Hs)%store_op_quiet. by eapply grant_store_step. Qed.

Lemma durable_steps r ref s dry now later :
  steps_store later (durable_path registry rnd float_of_text float_repr sha256 mail_recipients iso r ref s dry now later : M _).
Proof.
  unfold durable_path. repeat first [ apply keeps_then_steps; [apply keeps_store_lift|intros ?] | case_match ];
    try (apply keeps_steps, keeps_store_lift).
  all: apply steps_then_keeps; [apply grant_steps|intros ?; apply keeps_store_lift].
Qed.
Lemma authorized_steps r dry now later : steps_store later (authorize_call r dry now later).
Proof.
  unfold authorized. destruct (normalize_grant_ref _ _) as [ref why].
  apply keeps_then_steps; [by intros w res w' [= <- <-]|intros store].
  repeat case_match; try (apply keeps_steps, keeps_store_lift); try apply durable_steps;
    try (apply steps_then_keeps; [apply grant_steps|]); try (apply keeps_then_steps; [apply keeps_store_lift|]);
    intros ?; try apply keeps_steps; apply keeps_store_bind; intros; apply keeps_store_lift.
Qed.

Lemma unlogged_steps r dry now later : steps_store later (unlogged r dry now later).
Proof.
  unfold call_unlogged. apply steps_then_keeps; [apply authorized_steps|]. intros [[c b] dok].
  apply keeps_store_bind; [apply keeps_store_lift|intros _]. destruct dry; [apply keeps_store_lift|].
  destruct (cap_http c) as [spec|]; [|apply keeps_store_lift].
  intros w res w' Hd. by apply dispatch_cases in Hd as [? _].
Qed.

Lemma call_store_step r cx now later w res w' :
  brokered r cx now later w = (res, w') → store_step later w.(w_store) w'.(w_store).
Proof.
  intros [[-> _]|(dry & _ & [[_ Hu]|(cx' & c & names & o & w2 & _ & _ & Hu & Hend)])]%call_cases; [by left| |];
    apply unlogged_steps in Hu; [done|]. by destruct Hend as [[-> _]|[-> _]].
Qed.
End broker.

(** ** On concrete inputs *)

Ltac decide_now := apply (bool_decide_unpack _); vm_compute; exact I.

Section fixtures.
#[local] Instance fx_store : GrantStore GrantsDb := GrantsDb_store fx_rnd fx_repr fx_sha fx_mail fx_iso fx_fresh.
Abbreviation fx_brokered r := (call fx_machine (Some fx_registry) fx_rnd fx_read fx_repr fx_sha fx_mail fx_iso
  (S := GrantsDb) r fx_context "5" "5" (fx_world fx_db)).

Lemma no_unattended_write_witness :
  let x := fx_brokered (fx_call (Some "g") false) in
  Exists (λ e, is_audit e = false) x.2.(w_events)
  ∧ guarded_write (Some fx_registry) fx_send (fx_call (Some "g") false) = true
  ∧ (fx_call (Some "g") false).(rc_dry_run) = JBool false
  ∧ ∃ b, consumed fx_rnd fx_read fx_repr fx_mail (fx_call (Some "g") false) fx_send b "5" (Some fx_db) x.2.(w_store).
Proof.
  cbv zeta. assert (Hex : Exists (λ e, is_audit e = false) (fx_brokered (fx_call (Some "g") false)).2.(w_events)) by decide_now.
  split; [exact Hex|]. split; [by vm_compute|].
  eapply (no_unattended_write fx_machine (Some fx_registry) fx_rnd fx_read fx_repr fx_sha fx_mail fx_iso
    (fx_call (Some "g") false) fx_context "5" "5" (fx_world fx_db)); [apply surjective_pairing|reflexivity|exact Hex|reflexivity..].
Defined.

Lemma secrets_confined_witness :
  let x := fx_brokered (fx_call (Some "g") false) in
  EvSecret "MAIL_TOKEN" ∈ x.2.(w_events)
  ∧ ∃ reg c, Some fx_registry = Some reg ∧ Connectors.capability reg "gmail.send" = Ok c
    ∧ validate_request c "POST" "/send" = Ok tt ∧ secret_allowed fx_machine (Some fx_registry) c "MAIL_TOKEN".
Proof.
  cbv zeta. assert (Hin : EvSecret "MAIL_TOKEN" ∈ (fx_brokered (fx_call (Some "g") false)).2.(w_events)).
  { vm_compute. right. left. }
  split; [exact Hin|].
  eapply (secrets_confined fx_machine (Some fx_registry) fx_rnd fx_read fx_repr fx_sha fx_mail fx_iso
    (fx_call (Some "g") false) fx_context "5" "5" (fx_world fx_db)); [apply surjective_pairing|reflexivity|exact Hin].
Defined.

Lemma dry_run_pure_witness :
  let x := fx_brokered (fx_call (Some "g") true) in
  is_ok x.1 = true ∧ x.2.(w_store) = Some fx_db
  ∧ (∃ new, x.2.(w_events) = new ∧ Forall (λ e, is_audit e = true) new).
Proof.
  cbv zeta. split; [by vm_compute|].
  destruct (dry_run_pure fx_machine (Some fx_registry) fx_rnd fx_read fx_repr fx_sha fx_mail fx_iso
    (fx_call (Some "g") true) fx_context "5" "5" (fx_world fx_db) _ _ (surjective_pairing _)) as (Hs & _ & Hn & _);
    [discriminate|]. split; [exact Hs|exact Hn].
Defined.

Lemma audit_brackets_call_witness :
  let x := fx_brokered (fx_call (Some "g") false) in
  audits_own_calls (Some fx_registry) "gmail.send" = true
  ∧ ∃ intent body tail, x.2.(w_events) = EvAudit intent :: body ++ tail
    ∧ intent.(bc_decision) = "intent" ∧ Forall (λ e, is_audit e = false) body.
Proof.
  cbv zeta. split; [reflexivity|].
  destruct (audit_brackets_call fx_machine (Some fx_registry) fx_rnd fx_read fx_repr fx_sha fx_mail fx_iso
    (fx_call (Some "g") false) fx_context "5" "5" (fx_world fx_db) _ _ (surjective_pairing _) (eq_refl _))
    as (new & Hn & [[-> [e He]]|(i & b & t & -> & Hi & _ & Hb & _)] & _).
  - exfalso. by vm_compute in He.
  - exists i, b, t. split; [exact Hn|]. by split.
Defined.
End fixtures.

(** A failed exchange of an OAuth token whose closing row cannot be written is answered
    "audit_unavailable", although the secrets went to the token endpoint. *)
Example failed_mint_reads_unavailable :
  let mail := fx_capability "gmail.send" "gmail" CONSEQUENTIAL
    (mkHttp "https://mail" ["POST"] ["/send"] None "oauth2:MAIL_TOKEN:MAIL_TOKEN:MAIL_TOKEN" []) in
  let registry := mkRegistry 1 [("mail", mkGroup "Mail" false)]
    [("gmail", mkConnector "gmail" "Mail" "mail" ["MAIL_TOKEN"] [("gmail.send", mail)])] in
  let mc := mkMachine (λ _, "t") (λ _, "") false (λ _, false) fl_zero (λ _ _ _, None) 7 id id (λ _, "") (λ s _, s) (λ _, None)
    true (λ row, bool_decide (row.(bc_decision) = "intent")) "c1" "r1" 3 (λ _ _, "d") id in
  let '(res, w) := @call mc (Some registry) fx_rnd fx_read fx_repr fx_sha fx_mail fx_iso GrantsDb
    (GrantsDb_store fx_rnd fx_repr fx_sha fx_mail fx_iso fx_fresh) (fx_call (Some "g") false) fx_context "5" "5" (fx_world fx_db) in
  res = Err (Denied (mkDenied "audit_unavailable" "gmail.send" "")) ∧ EvToken "MAIL_TOKEN" ∈ w.(w_events).
Proof. vm_compute. split; [done|]. set_solver. Qed.

(** The allowlist sees a path before the provider's client resolves it: the dots are
    guarded only as a whole segment. *)
Example dots_before_a_question_mark :
  validate_request fx_read_cap "GET" "/v1/charges/.." = Err (mkDenied "path_not_allowed" "notes.read" "")
  ∧ validate_request fx_read_cap "GET" "/v1/charges/..?x" = Ok tt.
Proof. by vm_compute. Qed.

(** A cached token is served before the connector's declared names are looked at. *)
Lemma cached_token_skips_scope mc registry rnd read {S} c scheme refresh_env id_env secret_env (w : World S) token expiry :
  dict_get refresh_env w.(w_tokens) = Some (token, expiry) → fl_lt mc.(mc_monotonic) expiry = true →
  mint_bearer mc registry rnd read c scheme refresh_env id_env secret_env w = (Ok token, w).
Proof. intros Hc Hlt. unfold mint_bearer, bind_m, cached_token. rewrite Hc. by rewrite Hlt. Qed.

(** The grant is consumed before the request is checked: a refused path costs an action. *)
Example refused_request_spends_the_grant :
  let r := mkCallRequest "gmail.send" (Some ["gmail.send"]) "POST" "/elsewhere" [] (JDict [("raw", JStr "ann@x")]) None None
    (Some "g") None None (Some 3) (Some "p1") (JBool false) in
  let '(res, w) := @call fx_machine (Some fx_registry) fx_rnd fx_read fx_repr fx_sha fx_mail fx_iso GrantsDb
    (GrantsDb_store fx_rnd fx_repr fx_sha fx_mail fx_iso fx_fresh) r fx_context "5" "5" (fx_world fx_db) in
  res = Err (Denied (mkDenied "path_not_allowed" "gmail.send" ""))
  ∧ map g_actions_used (default (mkGrants [] []) w.(w_store)).(gd_grants) = [1].
Proof. by vm_compute. Qed.
