(* ===== verification/BrokerStores.v ===== *)
(** * BrokerStores: the broker over the two stores of the program

    With the campaign grants of [grants/store.py] the effects of any sequence of calls
    are bounded by the grants they name; with the standing grants of
    [connectors/store.py] a call stays within the row that was granted. *)

From Stdlib Require Import Ascii QArith.
From S2P Require Import Prelude PyString PyRegex PyJson Records Connectors Grants CapabilityStore Broker BrokerCalls BrokerFixtures GrantsSpec BrokerSpec.
Open Scope Z_scope.

Section campaign.
Context (registry : option ConnectorRegistry) (rnd : Q → float) (float_of_text : string → option float)
        (float_repr : float → string) (sha256 : string → string)
        (mail_recipients : string → option (list string)) (iso : string → option (bool * Z))
        (fresh : GrantsDb → string).
#[local] Instance campaign_store : GrantStore GrantsDb :=
  GrantsDb_store rnd float_repr sha256 mail_recipients iso fresh.
Abbreviation brokered mc := (call mc registry rnd float_of_text float_repr sha256 mail_recipients iso (S := GrantsDb)).
Abbreviation ok := (grants_ok rnd).
Abbreviation consume d id cap p later :=
  (try_consume rnd float_repr sha256 mail_recipients (as_datetime iso) (fresh d) id cap p None None "" later d).

(** A consumption keeps the invariant, and no row loses a charge or gains a cap. *)
Lemma consume_keeps d id cap p later : ok d →
  ok (consume d id cap p later).2
  ∧ ∀ ref g, find_grant ref d = Some g → ∃ g', find_grant ref (consume d id cap p later).2 = Some g'
      ∧ g'.(g_max_actions) = g.(g_max_actions) ∧ g.(g_actions_used) ≤ g'.(g_actions_used).
Proof.
  intros Hok. split.
  - eapply grants_ok_change; [|apply (exec_change rnd float_repr sha256 mail_recipients (as_datetime iso) later
      (Consume (fresh d) id cap p None None ""))|exact Hok]. intros Hn. by apply Hn.
  - intros ref g Hf.
    destruct (consume_cases rnd float_repr sha256 mail_recipients (as_datetime iso) (fresh d) id cap p None None "" later d)
      as [[e ->]|[->|[(g0 & a & o & why & _ & _ & _ & _ & ->)|(g0 & a & _ & _ & _ & _ & _ & _ & _ & Heq)]]];
      [by exists g..|]. cbv zeta in Heq. rewrite Heq. cbn [snd].
    set (f := consume_update _). exists (if grant_is id g then f g else g). split_and!.
    + etransitivity; [exact (find_grant_update id ref f d (λ _, eq_refl))|]. by rewrite Hf.
    + by destruct (grant_is id g).
    + destruct (grant_is id g); cbn; lia.
Qed.

(** The grant a permitted call consumed, before and after. *)
Lemma consumed_charge r c b later d store' : consumed rnd float_of_text float_repr mail_recipients r c b later (Some d) store' →
  ∃ ref g d', normalize_grant_ref r.(rc_approval_token) r.(rc_grant_id) = (Some ref, "")
  ∧ find_grant ref d = Some g ∧ store' = Some d' ∧ row_project g.(g_project_id) = r.(rc_project_id)
  ∧ admits rnd float_repr sha256 mail_recipients (as_datetime iso) g (requested g (Some r.(rc_cap_id)) (presentation r c b)) later
  ∧ find_grant ref d' = Some (consume_update (fl_add rnd g.(g_spend_used_usd) (default fl_zero b.(cb_spend_usd))) g)
  ∧ ∃ a, d'.(gd_actions) = d.(gd_actions) ++ [a] ∧ a.(ac_grant_id) = ref ∧ a.(ac_outcome) = "ok"
       ∧ a.(ac_spend_usd) = default fl_zero b.(cb_spend_usd) ∧ a.(ac_target) = head b.(cb_recipients)
       ∧ states rnd float_of_text float_repr mail_recipients r g b.
Proof.
  intros (ref & s & g & f & v & s' & Hn & [= <-] & Hg & Hp & [= <-] & Hf & Hok & -> & Hstates).
  cbn in Hg. destruct (find_grant ref d) as [g'|] eqn:Hfind; [injection Hg as ->|done].
  destruct (consume_cases rnd float_repr sha256 mail_recipients (as_datetime iso) (fresh d) ref (Some r.(rc_cap_id))
    (presentation r c b) None None "" later d)
    as [[e He]|[He|[(g0 & a & o & why & _ & _ & _ & _ & He)|(g0 & a & Hg0 & _ & _ & Hc & _ & Ha & _ & He)]]];
    cbv zeta in He; rewrite Hf in He; injection He; [intros; subst; done..|]. intros Hs' _.
  apply check_row_exact in Hc. rewrite Hfind in Hg0. injection Hg0 as <-. exists ref, g, s'. rewrite Hs'. split_and!; try done.
  - etransitivity; [exact (find_grant_update ref ref (consume_update _) d (λ _, eq_refl))|]. rewrite Hfind. cbn.
    apply find_grant_Some in Hfind as [_ <-]. unfold grant_is. by rewrite bool_decide_eq_true_2.
  - exists a. by rewrite Ha in *.
Qed.

(** The recipients of a message are those of its headers. *)
Lemma mail_stated r g b fields raw l : states rnd float_of_text float_repr mail_recipients r g b →
  r.(rc_cap_id) = "gmail.send" → r.(rc_body) = JDict fields → dict_get "raw" fields = Some (JStr raw) → raw ≠ "" →
  mail_recipients raw = Some l → b.(cb_recipients) = l.
Proof.
  intros [Hb _ _] Hid Hbody Hraw Hne Hl. rewrite Hid, Hbody in Hb. unfold extract_call_bounds in Hb. cbn -[dict_get] in Hb.
  injection Hb as <-. rewrite Hraw. destruct raw; [done|]. by rewrite Hl.
Qed.

(** C15: Every guarded write of a brokered call is charged: when a call over the campaign grants has an effect outside of its audit rows and its capability is hard-human, money-moving or dangerous, the call named a grant of its own project that admits exactly what the request states (recipient, spend, generation, arguments, audience), where the recipients and the spend are those the extractors read out of the body and the form of the request (for mail, the recipient headers of the message), every recipient is among the targets of the grant when it has any, and a request without a price claims no budget; and the store now holds one more "ok" action of that grant with that recipient and spend, and one more used action on its row. *)
Theorem guarded_dispatch_is_charged mc r cx now later w res w' new reg c d :
  brokered mc r cx now later w = (res, w') → w.(w_store) = Some d → w'.(w_events) = w.(w_events) ++ new →
  Exists (λ e, is_audit e = false) new →
  registry = Some reg → Connectors.capability reg r.(rc_cap_id) = Ok c → guarded_write registry c r = true →
  ∃ ref g d' b a, normalize_grant_ref r.(rc_approval_token) r.(rc_grant_id) = (Some ref, "")
    ∧ find_grant ref d = Some g ∧ w'.(w_store) = Some d' ∧ row_project g.(g_project_id) = r.(rc_project_id)
    ∧ admits rnd float_repr sha256 mail_recipients (as_datetime iso) g (requested g (Some r.(rc_cap_id)) (presentation r c b)) later
    ∧ find_grant ref d' = Some (consume_update (fl_add rnd g.(g_spend_used_usd) (default fl_zero b.(cb_spend_usd))) g)
    ∧ d'.(gd_actions) = d.(gd_actions) ++ [a] ∧ a.(ac_grant_id) = ref ∧ a.(ac_outcome) = "ok"
    ∧ a.(ac_spend_usd) = default fl_zero b.(cb_spend_usd) ∧ a.(ac_target) = head b.(cb_recipients)
    ∧ states rnd float_of_text float_repr mail_recipients r g b
    ∧ (∀ fields raw l, r.(rc_cap_id) = "gmail.send" → r.(rc_body) = JDict fields → dict_get "raw" fields = Some (JStr raw) → raw ≠ "" →
         mail_recipients raw = Some l → b.(cb_recipients) = l).
Proof.
  intros (new' & He & Hor)%call_effects Hd Hnew Hex Hreg Hc Hg. rewrite He in Hnew. apply app_inv_head in Hnew as ->.
  destruct Hor as [Hall|(_ & c' & ((reg' & Hreg' & Hc') & _ & [(b & Hcon)|(_ & Hno & _)]) & _)].
  - exfalso. apply Exists_exists in Hex as (e & Hin & Hn). rewrite Forall_forall in Hall. specialize (Hall _ Hin). congruence.
  - assert (c' = c) as -> by congruence. rewrite Hd in Hcon. apply consumed_charge in Hcon
      as (ref & g & d' & ? & ? & ? & ? & ? & ? & a & ? & ? & ? & ? & ? & Hst). exists ref, g, d', b, a. split_and!; try done.
    intros fields raw l. by eapply mail_stated.
  - assert (c' = c) as -> by congruence. congruence.
Qed.

(** ** Sequences of calls *)

Record Attempt := mkAttempt {
  at_machine : Machine;
  at_request : CallRequest;
  at_context : AuditContext;
  at_now : string;
  at_later : string;
}.
Definition attempt (a : Attempt) (w : World GrantsDb) : World GrantsDb :=
  (brokered a.(at_machine) a.(at_request) a.(at_context) a.(at_now) a.(at_later) w).2.

(** The attempts that named the grant and had an effect outside of their audit rows. *)
Definition names_grant (ref : string) (a : Attempt) : bool :=
  bool_decide ((normalize_grant_ref a.(at_request).(rc_approval_token) a.(at_request).(rc_grant_id)).1 = Some ref).
Definition had_effect (w w' : World GrantsDb) : bool :=
  existsb (λ e, negb (is_audit e)) (drop (length w.(w_events)) w'.(w_events)).
Fixpoint effectful (ref : string) (attempts : list Attempt) (w : World GrantsDb) : Z :=
  match attempts with
  | [] => 0
  | a :: attempts => let w' := attempt a w in
      (if names_grant ref a && had_effect w w' then 1 else 0) + effectful ref attempts w'
  end.

Lemma attempt_step ref a w d g : w.(w_store) = Some d → ok d → find_grant ref d = Some g →
  ∃ d' g', (attempt a w).(w_store) = Some d' ∧ ok d' ∧ find_grant ref d' = Some g'
  ∧ g'.(g_max_actions) = g.(g_max_actions)
  ∧ g.(g_actions_used) + (if names_grant ref a && had_effect w (attempt a w) then 1 else 0) ≤ g'.(g_actions_used).
Proof.
  intros Hw Hok Hf. unfold attempt. destruct (brokered _ _ _ _ _ _) as [res w'] eqn:Hc. cbn [snd].
  assert (∃ d', w'.(w_store) = Some d' ∧ ok d' ∧ ∃ g', find_grant ref d' = Some g'
     ∧ g'.(g_max_actions) = g.(g_max_actions) ∧ g.(g_actions_used) ≤ g'.(g_actions_used)) as (d' & Hw' & Hok' & g' & Hf' & Hm & Hle).
  { destruct (call_store_step _ _ _ _ _ _ _ _ _ _ _ _ _ _ _ Hc) as [Hs|(s & f & id & cap & p & Hs & [= <-] & Hs')].
    - exists d. rewrite Hs. split_and!; [done..|]. by exists g.
    - rewrite Hw in Hs. injection Hs as <-. destruct (consume_keeps d id cap p (at_later a) Hok) as [Ho Hk].
      eexists. split; [exact Hs'|]. split; [exact Ho|by apply Hk]. }
  exists d', g'. split_and!; try done. destruct (names_grant ref a && had_effect w w') eqn:Hn; [|lia].
  apply andb_true_iff in Hn as [Hn%bool_decide_eq_true Heff].
  destruct (call_effects _ _ _ _ _ _ _ _ _ _ _ _ _ _ _ Hc) as (new & Hev & Hor).
  unfold had_effect in Heff. rewrite Hev, drop_app_length in Heff. apply existsb_exists in Heff as (e & Hin & He%negb_true_iff).
  destruct Hor as [Hall|(_ & c & (_ & _ & [(b & Hcon)|(_ & _ & Hun)]) & _)].
  - rewrite Forall_forall in Hall. apply list_elem_of_In, Hall in Hin. congruence.
  - rewrite Hw in Hcon. apply consumed_charge in Hcon as (ref' & g0 & d0 & Hnorm & Hf0 & Hd0 & _ & _ & Hnew & _).
    rewrite Hnorm in Hn. injection Hn as ->. assert (d0 = d') as -> by congruence. assert (g0 = g) as -> by congruence.
    rewrite Hf' in Hnew. injection Hnew as ->. cbn. lia.
  - destruct Hun as [Hno|Hno]; congruence.
Qed.

(** C7: A campaign grant bounds what is done in its name: over any sequence of brokered calls (whatever their clocks, identifiers, providers, audit sinks and order, and whether they succeed, fail in transport or lose their audit row), the calls that name a grant and read a secret, mint a token or send a request are at most the actions the grant had left. *)
Theorem grant_bounds_effects ref attempts w d g n :
  w.(w_store) = Some d → grants_ok rnd d → find_grant ref d = Some g → g.(g_max_actions) = Some n →
  g.(g_actions_used) + effectful ref attempts w ≤ n.
Proof.
  revert w d g. induction attempts as [|a attempts IH]; intros w d g Hw Hok Hf Hn; cbn [effectful].
  - apply find_grant_Some in Hf as [Hin _]. pose proof (ok_max_actions _ _ _ (ok_grants _ _ Hok g Hin) n Hn). lia.
  - destruct (attempt_step ref a w d g Hw Hok Hf) as (d' & g' & Hw' & Hok' & Hf' & Hm & Hle).
    rewrite Hn in Hm. specialize (IH _ _ _ Hw' Hok' Hf' Hm). cbv zeta. lia.
Qed.
End campaign.

(** ** Standing grants *)

Section standing.
Context (registry : option ConnectorRegistry) (rnd : Q → float) (float_of_text : string → option float)
        (float_repr : float → string) (sha256 : string → string)
        (mail_recipients : string → option (list string)) (iso : string → option (bool * Z)).
Abbreviation brokered mc := (call mc registry rnd float_of_text float_repr sha256 mail_recipients iso (S := CapDb)).
Abbreviation authorize_call := (authorized registry rnd float_of_text float_repr sha256 mail_recipients iso (S := CapDb)).

Definition row_unexpired (row : StandingGrant) (now : string) : Prop :=
  row.(sg_expires_at) = None ∨ row.(sg_expires_at) = Some ""
  ∨ ∃ text e m, row.(sg_expires_at) = Some text ∧ parse_iso iso text = Some (true, e) ∧ as_datetime iso now = Some m ∧ m < e.

Lemma elem_of_grant cap agent d : cap ∈ CapabilityStore.get_grant agent d ↔ is_Some (get_grant_row agent cap d).
Proof.
  unfold CapabilityStore.get_grant, get_grant_row. rewrite elem_of_sort_by, list_elem_of_fmap.
  setoid_rewrite elem_of_select. unfold of_agent, grant_of. split.
  - intros (g & -> & Hin & Ha%bool_decide_eq_true). apply list_elem_of_In in Hin.
    destruct (List.find _ d.(cd_grants)) as [x|] eqn:Hf; [by eexists|].
    pose proof (find_none _ _ Hf g Hin) as Hno. cbn in Hno. by rewrite !bool_decide_eq_true_2 in Hno.
  - intros [g (l1 & l2 & -> & [Ha Hc]%andb_true_iff & _)%find_spec]. apply bool_decide_eq_true in Hc as <-.
    exists g. split_and!; [done|set_solver|done].
Qed.

Lemma lifecycle_unexpired c d agent a now row :
  lifecycle_row registry iso c (Some d) agent a now = Ok row →
  get_grant_row agent a.(au_cap_id) d = Some row ∧ row_unexpired row now.
Proof.
  unfold lifecycle_row. cbn. destruct (get_grant_row agent (au_cap_id a) d) as [x|]; [|done]. unfold row_unexpired.
  destruct (sg_expires_at x) as [[|ch s]|] eqn:He.
  - case_match; [done|]. intros [= <-]. rewrite He. auto.
  - destruct (parse_iso iso (String ch s)) as [[[] e]|] eqn:Hp; try done.
    destruct (as_datetime iso now) as [m|]; [|done]. destruct (e <=? m) eqn:Hle; [done|]. apply Z.leb_gt in Hle.
    case_match; [done|]. intros [= <-]. rewrite He. split; [done|]. do 2 right. by exists (String ch s), e, m.
  - case_match; [done|]. intros [= <-]. rewrite He. auto.
Qed.

Lemma standing_authorized r holder now later w d c b dok w1 :
  r.(rc_grant_holder) = Some holder → w.(w_store) = Some d →
  authorize_call r false now later w = (Ok (c, b, dok), w1) →
  ∃ row, get_grant_row holder r.(rc_cap_id) d = Some row
  ∧ match r.(rc_agent_id) with
    | None => row_project row.(sg_project_id) = r.(rc_project_id)
    | Some agent => ∃ own, get_grant_row agent r.(rc_cap_id) d = Some own ∧ row_unexpired own now
                      ∧ row_project own.(sg_project_id) = r.(rc_project_id)
    end.
Proof.
  intros Hh Hw. unfold authorized. destruct (normalize_grant_ref _ _) as [ref why].
  intros [(e & [=] & _)|(store & w2 & [= <- <-] & Hr)]%bind_cases. rewrite Hh in Hr.
  case_bool_decide as Hwhy; cbn [negb] in Hr; [|done]. destruct ref; [done|].
  apply bind_cases in Hr as [(e & _ & [=])|(c0 & w3 & (_ & _ & Ha)%store_op_quiet & _)].
  unfold authorize_with_grant in Ha. rewrite Hw in Ha. cbn [gc_grant_holder grant_call] in Ha. rewrite Hh in Ha.
  injection Ha as Ha _. cbn [gc_granted gc_grant_id grant_call] in Ha. destruct (rc_granted r); [done|]. cbn [gs_get_grant CapDb_store] in Ha.
  apply authorize_Ok in Ha as (_ & Hin & (row & bs & Hrow & Hbs & Hen%enforce_exact) & _).
  cbn [au_cap_id standing_request gc_cap_id grant_call au_agent_id gc_agent_id au_project_id gc_project_id] in *.
  apply elem_of_grant in Hin as [g Hg]. exists g. split; [done|].
  destruct (rc_agent_id r) as [agent|].
  - destruct Hrow as (own & -> & [Hown Hun]%lifecycle_unexpired). exists own. split_and!; [done..|].
    cbn in Hbs. injection Hbs as <-. revert Hen. unfold bound_to. cbn.
    destruct (rc_project_id r); [intros [_ Hall]|intros Hall]; by apply Forall_cons in Hall as [? _].
  - subst row. unfold project_bindings, standing_project in Hbs. cbn in Hbs. rewrite Hh, Hg in Hbs. cbn in Hbs. injection Hbs as <-.
    revert Hen. unfold bound_to. cbn.
    destruct (rc_project_id r); [intros [_ Hall]|intros Hall]; by apply Forall_cons in Hall as [? _].
Qed.

Definition standing_facts (r : CallRequest) (d : CapDb) (holder now : string) : Prop :=
  (∃ reg c, registry = Some reg ∧ Connectors.capability reg r.(rc_cap_id) = Ok c ∧ guarded_write registry c r = false)
  ∧ ∃ row, get_grant_row holder r.(rc_cap_id) d = Some row
    ∧ match r.(rc_agent_id) with
      | None => row_project row.(sg_project_id) = r.(rc_project_id)
      | Some agent => ∃ own, get_grant_row agent r.(rc_cap_id) d = Some own ∧ row_unexpired own now
                        ∧ row_project own.(sg_project_id) = r.(rc_project_id)
      end.

Lemma standing_effects mc r dry now later d holder w o w' : r.(rc_grant_holder) = Some holder → w.(w_store) = Some d →
  call_unlogged mc registry rnd float_of_text float_repr sha256 mail_recipients iso r dry now later w = (o, w') →
  w'.(w_events) = w.(w_events) ∨ standing_facts r d holder now.
Proof.
  intros Hh Hw [(? & _ & _)|(-> & c & b & dok & w1 & spec & Ha & Hs & _ & _)]%unlogged_cases; [by left|right].
  split; [|by eapply standing_authorized].
  eapply permitted_intro in Ha; [|exact Hs]. destruct Ha as ((reg & ? & ?) & _ & [(b' & Hcon)|(_ & ? & _)]).
  - by destruct Hcon as (? & ? & ? & ? & ? & ? & _ & _ & _ & _ & [=] & _).
  - by exists reg, c.
Qed.

(** A standing grant confines the calls made under it: when a call on behalf of a grant holder has an effect outside of its audit rows, the holder has a row for the capability at that time; if the call names an agent, the agent has a row too, which has not expired; the row that counts is bound to exactly the project the call names (none to none); the write is not a guarded one; and the store is as it was. *)
Theorem standing_call_confined mc r cx now later w res w' new d holder :
  brokered mc r cx now later w = (res, w') → w.(w_store) = Some d → w'.(w_events) = w.(w_events) ++ new →
  Exists (λ e, is_audit e = false) new → r.(rc_grant_holder) = Some holder →
  w'.(w_store) = Some d ∧ standing_facts r d holder now.
Proof.
  intros Hc Hw Hnew Hex Hh. split.
  { destruct (call_store_step _ _ _ _ _ _ _ _ _ _ _ _ _ _ _ Hc) as [Hs|(s & f & id & cap & p & _ & [=] & _)]. congruence. }
  apply call_cases in Hc as [[-> _]|(dry & _ & [[_ Hu]|(cx' & c & names & o & w2 & _ & _ & Hu & Hend)])].
  - exfalso. rewrite <-(app_nil_r (w_events w)) in Hnew at 1. apply app_inv_head in Hnew as <-. by apply Exists_nil in Hex.
  - apply (standing_effects _ _ _ _ _ d holder) in Hu as [Hev|]; [|done..].
    exfalso. rewrite Hev, <-(app_nil_r (w_events w)) in Hnew at 1. apply app_inv_head in Hnew as <-. by apply Exists_nil in Hex.
  - apply (standing_effects _ _ _ _ _ d holder) in Hu as [Hev|]; [|done..]. exfalso. cbn [w_events after] in Hev.
    destruct Hend as [[-> _]|[-> _]]; cbn [w_events after] in Hnew; rewrite Hev, <-?app_assoc in Hnew;
      apply app_inv_head in Hnew as <-; by repeat (apply Exists_cons in Hex as [?|Hex]; [done|]); apply Exists_nil in Hex.
Qed.
End standing.

(** ** On concrete inputs *)

Definition fx_attempt (grant : string) (dry : bool) : Attempt :=
  mkAttempt fx_machine (fx_call (Some grant) dry) fx_context "5" "5".
Abbreviation fx_effectful l := (effectful (Some fx_registry) fx_rnd fx_read fx_repr fx_sha fx_mail fx_iso fx_fresh "g" l (fx_world fx_db)).

Lemma fx_db_ok : grants_ok fx_rnd fx_db.
Proof.
  apply (grants_final_ok fx_rnd fx_repr fx_sha fx_mail fx_time [("1", Mint (Some fx_registry) "g" "gmail.send" fx_request)]
    empty_grants); [by repeat constructor|apply empty_grants_ok].
Qed.

Lemma guarded_dispatch_is_charged_witness :
  let x := @call fx_machine (Some fx_registry) fx_rnd fx_read fx_repr fx_sha fx_mail fx_iso GrantsDb
    (GrantsDb_store fx_rnd fx_repr fx_sha fx_mail fx_iso fx_fresh) (fx_call (Some "g") false) fx_context "5" "5" (fx_world fx_db) in
  Exists (λ e, is_audit e = false) x.2.(w_events)
  ∧ ∃ d' a, x.2.(w_store) = Some d' ∧ d'.(gd_actions) = [a] ∧ a.(ac_grant_id) = "g" ∧ a.(ac_target) = Some "ann@x".
Proof.
  cbv zeta. match goal with |- Exists ?p ?l ∧ _ => assert (Hex : Exists p l) by decide_now end. split; [exact Hex|].
  edestruct (guarded_dispatch_is_charged (Some fx_registry) fx_rnd fx_read fx_repr fx_sha fx_mail fx_iso fx_fresh
    fx_machine (fx_call (Some "g") false) fx_context "5" "5" (fx_world fx_db))
    as (ref & g & d' & b & a & Hn & _ & Hw & _ & _ & _ & Ha & Hid & _ & _ & Ht & _);
    [apply surjective_pairing|reflexivity|reflexivity|exact Hex|reflexivity..|].
  exists d', a. vm_compute in Hn. injection Hn as <-. split; [exact Hw|]. split; [exact Ha|]. split; [exact Hid|].
  vm_compute in Hw. injection Hw as <-. cbn in Ha. by injection Ha as <-.
Defined.

Lemma grant_bounds_effects_witness :
  fx_effectful [fx_attempt "g" true; fx_attempt "g" false; fx_attempt "g" false; fx_attempt "h" false] = 1
  ∧ 0 + fx_effectful [fx_attempt "g" true; fx_attempt "g" false; fx_attempt "g" false; fx_attempt "h" false] ≤ 1.
Proof.
  split; [by vm_compute|].
  assert (∃ g, find_grant "g" fx_db = Some g ∧ g.(g_max_actions) = Some 1 ∧ g.(g_actions_used) = 0) as (g & Hf & Hn & H0).
  { eexists. by vm_compute. }
  pose proof (grant_bounds_effects (Some fx_registry) fx_rnd fx_read fx_repr fx_sha fx_mail fx_iso fx_fresh "g"
    [fx_attempt "g" true; fx_attempt "g" false; fx_attempt "g" false; fx_attempt "h" false]
    (fx_world fx_db) fx_db g 1 eq_refl fx_db_ok Hf Hn) as H. rewrite H0 in H. exact H.
Defined.

Definition fx_caps : CapDb :=
  mkCapDb [mkStanding "lane:a" "notes.read" "1" "owner" "" (Some "read") (Some "50") None None (Some "p1")] [] [] [].
Definition fx_standing_call : CallRequest :=
  mkCallRequest "notes.read" None "GET" "/v1/charges/1" [] JNull None None None (Some "lane:a") (Some "lane:a") None
    (Some "p1") (JBool false).

Lemma standing_call_confined_witness :
  let x := call fx_machine (Some fx_registry) fx_rnd fx_read fx_repr fx_sha fx_mail fx_iso (S := CapDb)
    fx_standing_call fx_context "5" "5" (fx_world fx_caps) in
  Exists (λ e, is_audit e = false) x.2.(w_events) ∧ x.2.(w_store) = Some fx_caps
  ∧ standing_facts (Some fx_registry) fx_iso fx_standing_call fx_caps "lane:a" "5".
Proof.
  cbv zeta. match goal with |- Exists ?p ?l ∧ _ => assert (Hex : Exists p l) by decide_now end. split; [exact Hex|].
  eapply (standing_call_confined (Some fx_registry) fx_rnd fx_read fx_repr fx_sha fx_mail fx_iso fx_machine
    fx_standing_call fx_context "5" "5" (fx_world fx_caps));
    [apply surjective_pairing|reflexivity|reflexivity|exact Hex|reflexivity].
Defined.
