(* ===== verification/CapabilitySpec.v ===== *)
(** * CapabilitySpec: standing grants, their log and the tokens of runs

    Every operation of the store is a step; on the states they reach, the grants are
    the net effect of the append-only log, and a dead token stays dead. *)

From Stdlib Require Import Ascii.
From S2P Require Import Prelude PyString PyJson Records Connectors CapabilityStore Broker BrokerCalls BrokerFixtures.
Open Scope Z_scope.

Section capability_store.
Context (registry : ConnectorRegistry) (known_agent : string → bool) (iso : string → option (bool * Z)).

(** [ApplyGrant] is the transaction of [set_grant] with whatever was held when the
    differences were taken, so that another caller may have written in between. *)
Inductive cap_call :=
  | ApplyGrant (agent : string) (classes : list (string * ActionClass)) (current : list string) (actor note now : string)
  | IssueScoped (agent : string) (ids : list string) (mode : string) (expires_at : option string) (issued_by : string)
      (request_id project_id : option string) (actor note now : string)
  | IssueToken (token run_id agent_id : string) (ttl now : Z)
  | RevokeTokens (run_id : string)
  | LogCall (row : BrokerCall) (now : string).
Definition cap_exec (c : cap_call) (d : CapDb) : CapDb :=
  match c with
  | ApplyGrant agent classes current actor note now =>
      (apply_grant known_agent agent classes current actor note now d).2
  | IssueScoped agent ids mode expires_at issued_by request_id project_id actor note now =>
      (issue_scoped_grant registry known_agent iso agent ids mode expires_at issued_by request_id project_id actor note now d).2
  | IssueToken token run_id agent_id ttl now => (issue_token token run_id agent_id ttl now d).2
  | RevokeTokens run_id => (revoke_tokens_for_run run_id d).2
  | LogCall row now => (log_call row now d).2
  end.
Definition cap_run (cs : list cap_call) (d : CapDb) : CapDb := foldl (λ d c, cap_exec c d) d cs.
Definition empty_caps : CapDb := mkCapDb [] [] [] [].

(** The last word of the log on an agent and a capability. *)
Definition log_of (agent cap : string) (r : LogRow) : bool :=
  bool_decide (r.(lg_agent_id) = agent) && bool_decide (r.(lg_capability_id) = cap).
Definition granted_by_log (agent cap : string) (log : list LogRow) : bool :=
  match List.find (log_of agent cap) (rev log) with Some r => bool_decide (r.(lg_action) = "grant") | None => false end.

Definition grant_key (g : StandingGrant) : string * string := (g.(sg_agent_id), g.(sg_capability_id)).
Record grants_follow_log (d : CapDb) : Prop := {
  fl_keys : NoDup (map grant_key d.(cd_grants));
  fl_log agent cap : existsb (grant_of agent cap) d.(cd_grants) = granted_by_log agent cap d.(cd_log);
  fl_known g : g ∈ d.(cd_grants) → known_agent g.(sg_agent_id) = true;
}.

Lemma grant_of_key agent cap g : grant_of agent cap g = true ↔ grant_key g = (agent, cap).
Proof.
  unfold grant_of, grant_key. rewrite andb_true_iff, !bool_decide_eq_true. split; [by intros [-> ->]|by intros [= -> ->]].
Qed.
Lemma granted_snoc agent cap log r : granted_by_log agent cap (log ++ [r])
  = if log_of agent cap r then bool_decide (r.(lg_action) = "grant") else granted_by_log agent cap log.
Proof. unfold granted_by_log. rewrite rev_app_distr. cbn. by destruct (log_of agent cap r). Qed.

Lemma existsb_filter {A} (p q : A → bool) l : existsb p (List.filter q l) = existsb (λ x, q x && p x) l.
Proof. induction l as [|x l IH]; [done|]. cbn. destruct (q x); cbn; by rewrite IH. Qed.
Lemma existsb_ext {A} (p q : A → bool) l : (∀ x, p x = q x) → existsb p l = existsb q l.
Proof. intros Hpq. induction l as [|x l IH]; [done|]. cbn. by rewrite Hpq, IH. Qed.
Lemma existsb_false {A} (l : list A) : existsb (λ _, false) l = false.
Proof. by induction l. Qed.

Lemma pair_eq_bool (a b x y : string) :
  bool_decide (x = a) && bool_decide (y = b) = bool_decide ((x, y) = (a, b)).
Proof. repeat case_bool_decide; naive_solver. Qed.

Lemma delete_one_ok agent actor note now d cap :
  grants_follow_log d → grants_follow_log (delete_one agent actor note now d cap).
Proof.
  intros [Hk Hl Hkn]. unfold delete_one. split; cbn [modify cd_grants cd_log].
  - by apply (NoDup_map_select grant_key).
  - intros agent' cap'. rewrite granted_snoc, <-Hl, existsb_filter. unfold log_of. cbn.
    destruct (decide ((agent, cap) = (agent', cap'))) as [[= <- <-]|Hne].
    + rewrite !bool_decide_eq_true_2 by done. cbn. rewrite bool_decide_eq_false_2 by done.
      rewrite (existsb_ext _ (λ _, false)); [apply existsb_false|]. intros g. by destruct (grant_of agent cap g).
    + rewrite pair_eq_bool, bool_decide_eq_false_2 by done. apply existsb_ext. intros g.
      destruct (grant_of agent cap g) eqn:E; [|done]. apply grant_of_key in E. cbn. symmetry. apply not_true_iff_false.
      intros E'%grant_of_key. congruence.
  - intros g (Hin & _)%elem_of_select. by apply Hkn.
Qed.

Lemma insert_one_ok agent actor note now d p d' :
  insert_one known_agent agent actor note now d p = Ok d' → grants_follow_log d → grants_follow_log d'.
Proof.
  destruct p as [cap cls]. unfold insert_one. destruct (negb (known_agent agent) || _) eqn:Hc; [done|].
  apply orb_false_iff in Hc as [Hkn%negb_false_iff Hex]. intros [= <-] [Hk Hl Hknown].
  split; cbn [modify cd_grants cd_log].
  - rewrite map_app. apply NoDup_app. split_and!; [done| |apply NoDup_singleton].
    intros k (g & -> & Hin)%list_elem_of_fmap Heq%list_elem_of_singleton. apply not_true_iff_false in Hex. apply Hex.
    apply existsb_exists. exists g. split; [by apply list_elem_of_In|]. by apply grant_of_key.
  - intros agent' cap'. rewrite granted_snoc, existsb_app, Hl. unfold log_of, grant_of. cbn. rewrite orb_false_r.
    destruct (bool_decide (agent = agent') && bool_decide (cap = cap')); [apply orb_true_r|apply orb_false_r].
  - intros g [Hin|Heq%list_elem_of_singleton]%elem_of_app; [by apply Hknown|by subst g].
Qed.

Lemma existsb_update {A} (p q : A → bool) f t :
  existsb p (update_where q f t) = existsb (λ x, if q x then p (f x) else p x) t.
Proof. unfold update_where. induction t as [|x t IH]; [done|]. cbn. rewrite IH. by destruct (q x). Qed.

Lemma upsert_exists row t a k : existsb (grant_of a k) (upsert_grant row t)
  = if bool_decide (grant_key row = (a, k)) then true else existsb (grant_of a k) t.
Proof.
  assert (Hg : ∀ g, grant_of a k g = bool_decide (grant_key g = (a, k))).
  { intros g. apply Bool.eq_iff_eq_true. by rewrite grant_of_key, bool_decide_eq_true. }
  unfold upsert_grant. destruct (existsb (grant_of _ _) t) eqn:Hex.
  - rewrite existsb_update. case_bool_decide as Heq.
    + apply existsb_exists in Hex as (g & Hin & Hr). apply existsb_exists. exists g. split; [done|].
      by rewrite Hr, Hg, bool_decide_eq_true_2.
    + apply existsb_ext. intros g. destruct (grant_of _ _ g) eqn:Hr; [|done]. apply grant_of_key in Hr.
      change (sg_agent_id row, sg_capability_id row) with (grant_key row) in Hr. by rewrite !Hg, Hr.
  - rewrite existsb_app. cbn. rewrite orb_false_r, Hg. case_bool_decide; [apply orb_true_r|apply orb_false_r].
Qed.
Lemma upsert_nodup row t : NoDup (map grant_key t) → NoDup (map grant_key (upsert_grant row t)).
Proof.
  intros Hk. unfold upsert_grant. destruct (existsb _ t) eqn:Hex.
  - rewrite update_where_map; [done|]. by intros g _ Hg%grant_of_key.
  - rewrite map_app. apply NoDup_app. split_and!; [done| |apply NoDup_singleton].
    intros k (g & -> & Hin)%list_elem_of_fmap Heq%list_elem_of_singleton. apply not_true_iff_false in Hex. apply Hex.
    apply existsb_exists. exists g. split; [by apply list_elem_of_In|]. by apply grant_of_key.
Qed.

Lemma issue_one_ok agent mode expires_at issued_by request_id project_id actor note now d p d' :
  issue_one known_agent agent mode expires_at issued_by request_id project_id actor note now d p = Ok d' →
  grants_follow_log d → grants_follow_log d'.
Proof.
  destruct p as [cap cls]. unfold issue_one. destruct (known_agent agent) eqn:Hkn; [cbn [negb]|done].
  intros [= <-] [Hk Hl Hknown]. split; cbn [modify cd_grants cd_log].
  - by apply upsert_nodup.
  - intros a k. rewrite granted_snoc, upsert_exists, Hl. unfold log_of. cbn. by rewrite pair_eq_bool.
  - intros g. unfold upsert_grant. destruct (existsb _ _); intros Hin.
    + apply elem_of_update_where in Hin as (g0 & Hin & ->). destruct (grant_of _ _ g0); [done|by apply Hknown].
    + apply elem_of_app in Hin as [Hin|Heq%list_elem_of_singleton]; [by apply Hknown|by subst g].
Qed.

Lemma each_row_ok {A} (P : CapDb → Prop) (f : CapDb → A → result cap_error CapDb) l d d' :
  (∀ d x d', f d x = Ok d' → P d → P d') → each_row f d l = Ok d' → P d → P d'.
Proof.
  intros Hf. revert d. induction l as [|x l IH]; intros d; [by intros [= <-]|].
  intros (d1 & H1 & H2)%bind_Ok Hd. eapply IH; [exact H2|]. by eapply Hf.
Qed.

Lemma apply_grant_inv agent classes current actor note now d r d' :
  apply_grant known_agent agent classes current actor note now d = (Ok r, d') →
  r = map fst classes ∧
  each_row (insert_one known_agent agent actor note now)
    (foldl (delete_one agent actor note now) d
       (List.filter (λ c, negb (bool_decide (c ∈ map fst classes))) (sorted_set current)))
    (List.filter (λ p : string * ActionClass, negb (bool_decide (p.1 ∈ current))) classes) = Ok d'.
Proof. unfold apply_grant. rewrite write_Ok. cbv zeta. by intros (d1 & H & [= <- <-])%bind_Ok. Qed.

Lemma cap_exec_ok c d : grants_follow_log d → grants_follow_log (cap_exec c d).
Proof.
  intros Hd. destruct c as [agent classes current actor note now|agent ids mode expires_at issued_by rid pid actor note now
    |token run_id agent_id ttl now|run_id|row now]; cbn [cap_exec].
  - destruct (apply_grant _ _ _ _ _ _ _ _) as [[r|e] d'] eqn:E.
    + apply apply_grant_inv in E as [_ E]. eapply each_row_ok; [|exact E|]; [by intros; eapply insert_one_ok|].
      clear E. generalize (List.filter (λ c, negb (bool_decide (c ∈ map fst classes))) (sorted_set current)).
      intros l. revert d Hd. induction l as [|x l IH]; intros d Hd; [done|]. cbn. apply IH. by apply delete_one_ok.
    + unfold apply_grant in E. by apply write_Err in E as ->.
  - destruct (issue_scoped_grant _ _ _ _ _ _ _ _ _ _ _ _ _ _) as [[r|e] d'] eqn:E.
    + unfold issue_scoped_grant in E. apply write_Ok, bind_Ok in E as (classes & _ & E).
      destruct (negb _); [done|]. apply bind_Ok in E as (u & _ & (d1 & E & [= _ <-])%bind_Ok).
      eapply each_row_ok; [|exact E|exact Hd]. by intros; eapply issue_one_ok.
    + unfold issue_scoped_grant in E. by apply write_Err in E as ->.
  - unfold issue_token, write. destruct (existsb _ _); destruct Hd; by split.
  - destruct Hd. by split.
  - destruct Hd. by split.
Qed.

(** C30: The standing grants are the net effect of their append-only log: after any sequence of the store's operations (grants replaced from stale snapshots, scoped grants issued, failures rolled back, tokens and calls in between) an agent holds a capability exactly when the last log row on that pair is a grant; no pair is held twice, and only known agents hold anything. *)
Theorem grants_are_log_replay cs : grants_follow_log (cap_run cs empty_caps).
Proof.
  assert (grants_follow_log empty_caps) as Hd.
  { split; [apply NoDup_nil_2|done|]. intros g Hg. by apply elem_of_nil in Hg. }
  unfold cap_run. revert Hd. generalize empty_caps. induction cs as [|c cs IH]; intros d Hd; [done|].
  cbn. apply IH. by apply cap_exec_ok.
Qed.

(** ** Replacing a grant *)

Definition holds (d : CapDb) (agent cap : string) : bool := existsb (grant_of agent cap) d.(cd_grants).
Definition others_same (agent : string) (d d' : CapDb) : Prop :=
  ∀ other, other ≠ agent → select (of_agent other) d'.(cd_grants) = select (of_agent other) d.(cd_grants).

Lemma grant_of_bool agent cap g : grant_of agent cap g = bool_decide (grant_key g = (agent, cap)).
Proof. apply Bool.eq_iff_eq_true. by rewrite grant_of_key, bool_decide_eq_true. Qed.

Lemma delete_one_effect agent actor note now d cap :
  (∀ k, holds (delete_one agent actor note now d cap) agent k = holds d agent k && negb (bool_decide (k = cap)))
  ∧ others_same agent d (delete_one agent actor note now d cap).
Proof.
  unfold holds, others_same, delete_one. cbn [modify cd_grants]. split.
  - intros k. rewrite existsb_filter. case_bool_decide as Hk; cbn [negb]; rewrite ?andb_true_r, ?andb_false_r.
    + subst k. rewrite (existsb_ext _ (λ _, false)); [apply existsb_false|]. intros g. by destruct (grant_of agent cap g).
    + apply existsb_ext. intros g. rewrite !grant_of_bool. repeat case_bool_decide; try done; exfalso; congruence.
  - intros other Ho. unfold select. induction d.(cd_grants) as [|g l IH]; [done|]. cbn.
    destruct (grant_of agent cap g) eqn:Hg; cbn; rewrite IH; [|done].
    unfold grant_of in Hg. apply andb_true_iff in Hg as [Ha%bool_decide_eq_true _].
    unfold of_agent at 2. by rewrite bool_decide_eq_false_2 by congruence.
Qed.
Lemma delete_all_effect agent actor note now l d :
  let d' := foldl (delete_one agent actor note now) d l in
  (∀ k, holds d' agent k = holds d agent k && negb (bool_decide (k ∈ l))) ∧ others_same agent d d'.
Proof.
  revert d. induction l as [|c l IH]; intros d; cbn [foldl].
  - split; [|done]. intros k. by rewrite bool_decide_eq_false_2, andb_true_r by apply not_elem_of_nil.
  - destruct (IH (delete_one agent actor note now d c)) as [H1 H2], (delete_one_effect agent actor note now d c) as [H3 H4].
    cbv zeta. split.
    + intros k. rewrite H1, H3, <-andb_assoc. f_equal. repeat case_bool_decide; set_solver.
    + intros other Ho. rewrite H2 by done. by apply H4.
Qed.
Lemma insert_all_effect agent actor note now l d d' :
  each_row (insert_one known_agent agent actor note now) d l = Ok d' →
  (∀ k, holds d' agent k = holds d agent k || bool_decide (k ∈ map fst l)) ∧ others_same agent d d'.
Proof.
  revert d. induction l as [|[c cls] l IH]; intros d.
  - intros [= <-]. split; [|done]. intros k. by rewrite bool_decide_eq_false_2, orb_false_r by apply not_elem_of_nil.
  - intros (d1 & H1 & H2)%bind_Ok. destruct (IH _ H2) as [Hh Ho]. unfold insert_one in H1.
    destruct (negb _ || _); [done|]. injection H1 as <-. split.
    + intros k. rewrite Hh. unfold holds. cbn [modify cd_grants]. rewrite existsb_app. cbn. rewrite orb_false_r, <-orb_assoc.
      f_equal. rewrite grant_of_bool. cbn. apply Bool.eq_iff_eq_true.
      rewrite orb_true_iff, !bool_decide_eq_true, elem_of_cons. unfold grant_key. cbn. split; intros [Hk|Hk]; auto; left; congruence.
    + intros other Hne. rewrite Ho by done. cbn [modify cd_grants]. rewrite select_app. cbn. unfold of_agent at 2. cbn.
      rewrite bool_decide_eq_false_2 by congruence. apply app_nil_r.
Qed.

Lemma validate_ids ids classes : CapabilityStore.validate registry ids = Ok classes → map fst classes = ids.
Proof.
  unfold CapabilityStore.validate. revert classes. induction ids as [|i ids IH]; intros classes; cbn [traverse].
  - by intros [= <-].
  - intros (x & (c & _ & [= <-])%bind_Ok & (l & Hl & [= <-])%bind_Ok)%bind_Ok. cbn. f_equal. by apply IH.
Qed.
Lemma elem_of_held agent cap d :
  cap ∈ map sg_capability_id (select (of_agent agent) d.(cd_grants)) ↔ holds d agent cap = true.
Proof.
  unfold holds. rewrite list_elem_of_fmap, existsb_exists. setoid_rewrite elem_of_select. setoid_rewrite grant_of_key.
  setoid_rewrite list_elem_of_In. unfold of_agent, grant_key. setoid_rewrite bool_decide_eq_true. split.
  - intros (g & -> & ? & <-). eauto.
  - intros (g & ? & [= <- <-]). eauto.
Qed.

(** Replacing an agent's grant, undisturbed, is exact or nothing: on success the agent holds precisely the capabilities asked for, each of them known to the registry, and no other agent's rows change; an unknown capability, an unknown agent or a conflict changes no table. *)
Theorem set_grant_exact agent ids actor note now d :
  let '(r, d') := set_grant registry known_agent agent ids actor note now d in
  match r with
  | Ok held => held = sorted_set ids ∧ (∀ cap, cap ∈ CapabilityStore.get_grant agent d' ↔ cap ∈ ids)
      ∧ (∀ cap, cap ∈ ids → is_ok (Connectors.capability registry cap) = true) ∧ others_same agent d d'
  | Err _ => d' = d
  end.
Proof.
  unfold set_grant. destruct (CapabilityStore.validate registry (sorted_set ids)) as [classes|e] eqn:Hv; [|done].
  pose proof (validate_ids _ _ Hv) as Hids. destruct (apply_grant _ _ _ _ _ _ _ _) as [[held|e] d'] eqn:E;
    [|unfold apply_grant in E; by apply write_Err in E].
  apply apply_grant_inv in E as [-> E]. split_and!; [done| | |].
  - destruct (insert_all_effect _ _ _ _ _ _ _ E) as [Hh _]. intros cap. unfold CapabilityStore.get_grant.
    rewrite elem_of_sort_by, elem_of_held, Hh. destruct (delete_all_effect agent actor note now
      (List.filter (λ c, negb (bool_decide (c ∈ map fst classes)))
         (sorted_set (map sg_capability_id (select (of_agent agent) d.(cd_grants))))) d) as [-> _].
    assert (Hin : cap ∈ map fst (List.filter (λ p : string * ActionClass, negb (bool_decide
        (p.1 ∈ map sg_capability_id (select (of_agent agent) d.(cd_grants))))) classes) ↔ cap ∈ ids ∧ holds d agent cap = false).
    { rewrite <-(elem_of_id_set cap ids), <-Hids, !list_elem_of_fmap. setoid_rewrite list_elem_of_In. setoid_rewrite filter_In.
      setoid_rewrite negb_true_iff. setoid_rewrite bool_decide_eq_false. setoid_rewrite elem_of_held. split.
      - intros (p & -> & ? & ?%not_true_iff_false). eauto.
      - intros [(p & -> & ?) ?%not_true_iff_false]. eauto. }
    rewrite orb_true_iff, andb_true_iff, negb_true_iff, !bool_decide_eq_true, bool_decide_eq_false, Hin.
    rewrite list_elem_of_In, filter_In, <-list_elem_of_In, elem_of_id_set, elem_of_held, negb_true_iff, bool_decide_eq_false.
    rewrite Hids, elem_of_id_set. destruct (decide (cap ∈ ids)), (holds d agent cap); intuition congruence.
  - intros cap. rewrite <-(elem_of_id_set cap ids). revert Hv. unfold CapabilityStore.validate. generalize (sorted_set ids). clear.
    intros l. revert classes. induction l as [|i l IH]; intros classes; [set_solver|]. cbn [traverse].
    intros (x & (c & Hc & _)%bind_Ok & (m & Hm & _)%bind_Ok)%bind_Ok [->|Hin]%elem_of_cons; [|by eapply IH].
    by destruct (Connectors.capability registry i).
  - destruct (insert_all_effect _ _ _ _ _ _ _ E) as [_ Ho]. intros other Hne. rewrite Ho by done.
    by apply delete_all_effect.
Qed.

(** ** Tokens *)

Definition token_is (token : string) (t : Token) : bool := bool_decide (t.(tk_token) = token).
(** The row of a token; the flag [tk_revoked] only rises, nothing else of it changes. *)
Definition same_token (t t' : Token) : Prop :=
  t'.(tk_token) = t.(tk_token) ∧ t'.(tk_run_id) = t.(tk_run_id) ∧ t'.(tk_agent_id) = t.(tk_agent_id)
  ∧ t'.(tk_expires_at) = t.(tk_expires_at) ∧ (t.(tk_revoked) = true → t'.(tk_revoked) = true).
#[local] Instance same_token_preorder : PreOrder same_token.
Proof.
  split; [by intros t|]. intros t1 t2 t3 (? & ? & ? & ? & ?) (? & ? & ? & ? & ?).
  unfold same_token. split_and!; [congruence..|auto].
Qed.

Definition tokens_unique (d : CapDb) : Prop := NoDup (map tk_token d.(cd_tokens)).

Lemma tokens_of_exec c d :
  (cap_exec c d).(cd_tokens) = d.(cd_tokens)
  ∨ (∃ t, (cap_exec c d).(cd_tokens) = d.(cd_tokens) ++ [t] ∧ existsb (token_is t.(tk_token)) d.(cd_tokens) = false)
  ∨ ∃ run, (cap_exec c d).(cd_tokens)
      = update_where (λ t, bool_decide (t.(tk_run_id) = run)) (λ t, t <| tk_revoked := true |>) d.(cd_tokens).
Proof.
  assert (Hrows : ∀ A (f : CapDb → A → result cap_error CapDb) l d1 d2,
    (∀ d x d', f d x = Ok d' → d'.(cd_tokens) = d.(cd_tokens)) → each_row f d1 l = Ok d2 → d2.(cd_tokens) = d1.(cd_tokens)).
  { intros A f l d1 d2 Hf H. apply (each_row_ok (λ d, d.(cd_tokens) = d1.(cd_tokens)) f l d1 d2); [|done|done].
    intros d0 x d' Hx <-. by eapply Hf. }
  destruct c as [agent classes current actor note now|agent ids mode expires_at issued_by rid pid actor note now
    |token run_id agent_id ttl now|run_id|row now]; cbn [cap_exec]; [left|left| | |by left].
  - destruct (apply_grant _ _ _ _ _ _ _ _) as [[r|e] d'] eqn:E; [|unfold apply_grant in E; by apply write_Err in E as ->].
    apply apply_grant_inv in E as [_ E]. cbn [snd].
    apply Hrows in E; [|intros d0 [cap cls] d1; unfold insert_one; case_match; [done|by intros [= <-]]]. rewrite E. clear E. generalize (List.filter (λ c, negb (bool_decide (c ∈ map fst classes))) (sorted_set current)).
    intros l. revert d. induction l as [|x l IH]; intros d; [done|]. cbn. by rewrite IH.
  - destruct (issue_scoped_grant _ _ _ _ _ _ _ _ _ _ _ _ _ _) as [[r|e] d'] eqn:E;
      unfold issue_scoped_grant in E; [|by apply write_Err in E as ->].
    apply write_Ok, bind_Ok in E as (cl & _ & E). destruct (negb _); [done|].
    apply bind_Ok in E as (u & _ & (d1 & E & [= _ <-])%bind_Ok). cbn [snd].
    eapply Hrows; [|exact E]. intros d0 [cap cls] d2. unfold issue_one. case_match; [done|by intros [= <-]].
  - unfold issue_token, write. destruct (existsb _ _) eqn:Hex; [by left|]. right; left. eexists. split; [done|]. exact Hex.
  - right; right. by exists run_id.
Qed.

Lemma token_step c d : tokens_unique d → tokens_unique (cap_exec c d)
  ∧ ∀ t, t ∈ d.(cd_tokens) → ∃ t', t' ∈ (cap_exec c d).(cd_tokens) ∧ same_token t t'.
Proof.
  unfold tokens_unique. intros Hd. destruct (tokens_of_exec c d) as [->|[(t & -> & Hex)|(run & ->)]].
  - split; [done|]. intros t Ht. by exists t.
  - split.
    + rewrite map_app. apply NoDup_app. split_and!; [done| |apply NoDup_singleton].
      intros k (t' & -> & Hin)%list_elem_of_fmap Heq%list_elem_of_singleton. apply not_true_iff_false in Hex. apply Hex.
      apply existsb_exists. exists t'. split; [by apply list_elem_of_In|]. by apply bool_decide_eq_true.
    + intros t' Ht. exists t'. split; [set_solver|done].
  - split; [by rewrite update_where_map|]. intros t Ht.
    exists (if bool_decide (t.(tk_run_id) = run) then t <| tk_revoked := true |> else t).
    split; [apply elem_of_update_where; eauto|]. case_bool_decide; [by repeat split|done].
Qed.
Lemma token_run cs d : tokens_unique d → tokens_unique (cap_run cs d)
  ∧ ∀ t, t ∈ d.(cd_tokens) → ∃ t', t' ∈ (cap_run cs d).(cd_tokens) ∧ same_token t t'.
Proof.
  unfold cap_run. revert d. induction cs as [|c cs IH]; intros d Hd; cbn [foldl]; [split; [done|intros t Ht; by exists t]|].
  destruct (token_step c d Hd) as [Hd1 Hs], (IH _ Hd1) as [Hd2 Hs2]. split; [done|]. intros t Ht.
  destruct (Hs t Ht) as (t1 & H1 & H2), (Hs2 t1 H1) as (t2 & ? & ?). exists t2. split; [done|]. by transitivity t1.
Qed.

(** What a token resolves to is decided by its row. *)
Lemma resolve_row token now d r : resolve_token token now d = Some r →
  ∃ t, t ∈ d.(cd_tokens) ∧ t.(tk_token) = token ∧ t.(tk_revoked) = false ∧ now < t.(tk_expires_at)
     ∧ r = (t.(tk_run_id), t.(tk_agent_id)).
Proof.
  unfold resolve_token. destruct (List.find _ _) as [t|] eqn:Hf; [|done].
  apply find_spec in Hf as (l1 & l2 & Hl & [Ht%bool_decide_eq_true Hr%negb_true_iff]%andb_true_iff & _).
  destruct (tk_expires_at t <=? now) eqn:He; [done|]. apply Z.leb_gt in He. intros [= <-].
  exists t. split_and!; try done. rewrite Hl. set_solver.
Qed.
Lemma resolve_later token cs d now t : tokens_unique d → t ∈ d.(cd_tokens) → t.(tk_token) = token →
  ∀ r, resolve_token token now (cap_run cs d) = Some r →
  r = (t.(tk_run_id), t.(tk_agent_id)) ∧ now < t.(tk_expires_at) ∧ t.(tk_revoked) = false.
Proof.
  intros Hd Ht <- r (t1 & H1 & H2 & H3 & H4 & ->)%resolve_row. destruct (token_run cs d Hd) as [Hu Hs].
  destruct (Hs t Ht) as (t2 & H5 & H6 & H7 & H8 & H9 & H10).
  assert (t1 = t2) as -> by (eapply (NoDup_map_inj tk_token); [exact Hu|done..|congruence]).
  rewrite H7, H8. split_and!; [done|lia|]. destruct (tk_revoked t); [|done]. rewrite H10 in H3; done.
Qed.

(** A bearer token speaks for one run: on every reachable store, a token that resolves names the run and the agent it resolved to at every later time it still resolves; it stops at a fixed instant; and once the tokens of its run are revoked it never resolves again, whatever operations follow (its text cannot be issued a second time). *)
Theorem token_dies_for_good cs0 token t0 run agent :
  resolve_token token t0 (cap_run cs0 empty_caps) = Some (run, agent) →
  ∃ expiry, t0 < expiry
  ∧ (∀ cs now r, resolve_token token now (cap_run cs (cap_run cs0 empty_caps)) = Some r → r = (run, agent) ∧ now < expiry)
  ∧ (∀ cs now, resolve_token token now (cap_run cs (cap_exec (RevokeTokens run) (cap_run cs0 empty_caps))) = None).
Proof.
  set (d := cap_run cs0 empty_caps).
  assert (Hu : tokens_unique d) by (apply token_run, NoDup_nil_2).
  intros (t & Ht & <- & Hr & He & [= -> ->])%resolve_row. exists t.(tk_expires_at). split_and!; [done| |].
  - intros cs now r Hres. eapply resolve_later in Hres as (? & ? & _); [|done..]. done.
  - intros cs now. destruct (resolve_token _ _ _) as [r|] eqn:Hres; [|done]. exfalso.
    eapply (resolve_later _ _ _ _ (t <| tk_revoked := true |>)) in Hres as (_ & _ & Hrev); [done|by apply token_step| |done].
    cbn. apply elem_of_update_where. exists t. split; [done|]. by rewrite bool_decide_eq_true_2.
Qed.
End capability_store.

(** The effective grant of a task is the intersection of what its agent holds and what the task asks for, sorted and without repetition; without a request it is all the agent holds. *)
Theorem effective_grant_exact agent_caps task_caps cap :
  (cap ∈ effective_grant agent_caps task_caps ↔
     cap ∈ agent_caps ∧ match task_caps with None => True | Some l => cap ∈ l end)
  ∧ NoDup (effective_grant agent_caps task_caps) ∧ sorted_by id (effective_grant agent_caps task_caps).
Proof.
  assert (Hs : ∀ l, NoDup (sorted_set l) ∧ sorted_by id (sorted_set l)).
  { intros l. unfold sorted_set. split; [rewrite sort_by_perm; apply NoDup_elements|apply sort_by_sorted]. }
  unfold effective_grant. destruct task_caps as [l|]; (split; [|apply Hs]); rewrite elem_of_id_set; [|tauto].
  rewrite list_elem_of_In, filter_In, bool_decide_eq_true, <-list_elem_of_In. done.
Qed.

Lemma token_dies_for_good_witness :
  let cs0 := [IssueToken "t" "run1" "lane:a" 60 0] in
  resolve_token "t" 5 (cap_run fx_registry (λ _, true) fx_iso cs0 empty_caps) = Some ("run1", "lane:a")
  ∧ resolve_token "t" 5 (cap_run fx_registry (λ _, true) fx_iso [IssueToken "t" "run2" "lane:b" 60 4]
      (cap_exec fx_registry (λ _, true) fx_iso (RevokeTokens "run1") (cap_run fx_registry (λ _, true) fx_iso cs0 empty_caps))) = None.
Proof.
  cbv zeta. assert (H : resolve_token "t" 5 (cap_run fx_registry (λ _, true) fx_iso
    [IssueToken "t" "run1" "lane:a" 60 0] empty_caps) = Some ("run1", "lane:a")) by reflexivity.
  split; [exact H|]. apply token_dies_for_good in H as (e & _ & _ & Hdead). apply Hdead.
Defined.
