(* ===== verification/RunAuthorizationSpec.v ===== *)
(** * RunAuthorizationSpec: what the owner's spend instruction can buy

    The grants minted for a run add up to no more than the effective ceiling, which no
    configuration lifts above the absolute one as long as it is a number. *)

From Stdlib Require Import Ascii QArith.
From S2P Require Import Prelude PyString PyRegex PyJson Records Connectors Grants BrokerFixtures GrantsSpec RunAuthorization.
Open Scope Z_scope.

(** ** The order of floats *)

Lemma fl_le_spec x y : fl_le (Fin x) (Fin y) = true ↔ (x <= y)%Q.
Proof.
  unfold fl_le. cbn. rewrite orb_true_iff, negb_true_iff, <-not_true_iff_false, Qle_bool_iff, Qeq_bool_iff. split.
  - intros [Hn|Heq]; [apply Qlt_le_weak; by apply Qnot_le_lt|by rewrite Heq; apply Qle_refl].
  - intros Hle. destruct (Qlt_le_dec x y) as [Hlt|Hge]; [left; by apply Qlt_not_le|right; by apply Qle_antisym].
Qed.
Lemma fl_le_trans a b c : fl_le a b = true → fl_le b c = true → fl_le a c = true.
Proof.
  destruct a as [x|[]|], b as [y|[]|], c as [z|[]|]; try done. rewrite !fl_le_spec. apply Qle_trans.
Qed.
Lemma fl_le_refl a : is_nan a = false → fl_le a a = true.
Proof. destruct a as [x|[]|]; try done. intros _. apply fl_le_spec, Qle_refl. Qed.
Lemma fl_lt_le a b : fl_lt a b = true → fl_le a b = true.
Proof. unfold fl_le. by intros ->. Qed.

(** The least of numbers is below each of them; a NaN in front hides the others. *)
Lemma py_min_spec a l : Forall (λ x, is_nan x = false) (a :: l) →
  is_nan (py_min a l) = false ∧ Forall (λ x, fl_le (py_min a l) x = true) (a :: l).
Proof.
  unfold py_min. revert a. induction l as [|x l IH]; intros a [Ha Hl]%Forall_cons; cbn [foldl].
  - split; [done|]. constructor; [by apply fl_le_refl|done].
  - apply Forall_cons in Hl as [Hx Hl]. destruct (fl_lt x a) eqn:Hlt.
    + destruct (IH x) as [Hn Hall]; [by constructor|]. apply Forall_cons in Hall as [Hmx Hall]. split; [done|].
      constructor; [|by constructor]. eapply fl_le_trans; [exact Hmx|by apply fl_lt_le].
    + destruct (IH a) as [Hn Hall]; [by constructor|]. apply Forall_cons in Hall as [Hma Hall]. split; [done|].
      constructor; [done|]. constructor; [|done]. eapply fl_le_trans; [exact Hma|]. by apply fl_lt_false.
Qed.
Lemma py_min_nan l : py_min NaN l = NaN.
Proof. unfold py_min. induction l as [|x l IH]; [done|]. cbn [foldl]. by destruct x. Qed.

Section run.
Context (rnd : Q → float) (float_of_text : string → option float) (float_repr : float → string)
        (sha256 : string → string) (plus_hours : string → Q → option string)
        (registry : option ConnectorRegistry) (fresh : GrantsDb → string) (audit_file : Decision → option string).
Abbreviation mint := (mint_run_grants rnd float_of_text float_repr sha256 plus_hours registry fresh audit_file).
Abbreviation ceiling := (effective_ceiling float_of_text).

Definition total_of (asks : list CapabilityAsk) : float := foldl (fl_add rnd) fl_zero (map ask_max_spend_usd asks).
Definition admitted (ask : CapabilityAsk) : Prop :=
  ask.(ask_action_class) ∈ GRANTABLE_CLASSES ∧ fl_le ask.(ask_max_spend_usd) fl_zero = false ∧ 1 ≤ ask.(ask_max_actions)
  ∧ (is_broadcast_capability ask.(ask_capability) = true → ask.(ask_target_set) ≠ []).

Lemma admissible_Ok total asks t : admissible rnd total asks = Ok t →
  t = foldl (fl_add rnd) total (map ask_max_spend_usd asks) ∧ Forall admitted asks.
Proof.
  revert total. induction asks as [|ask asks IH]; intros total; cbn [admissible]; [by intros [= <-]|].
  case_bool_decide as Hc; cbn [negb]; [|done]. destruct (fl_le _ fl_zero || _) eqn:Hb; [done|].
  apply orb_false_iff in Hb as [Hs Ha%Z.ltb_ge]. destruct (is_broadcast_capability _ && _) eqn:Hbr; [done|].
  intros [-> Hall]%IH. split; [done|]. constructor; [|done]. split_and!; [done..|]. intros Hbc Hnil.
  rewrite Hbc, Hnil in Hbr. done.
Qed.

(** The grant minted for an ask. *)
Record granted_for (a : SpendAuthorization) (project_id expires_at : string) (ask : CapabilityAsk) (g : Grant) : Prop := {
  gf_capability : g.(g_capability) = ask.(ask_capability);
  gf_spend : g.(g_max_spend_usd) = sql_real ask.(ask_max_spend_usd);
  gf_actions : g.(g_max_actions) = Some ask.(ask_max_actions);
  gf_project : g.(g_project_id) = Some project_id;
  gf_expiry : g.(g_expires_at) = Some expires_at;
  gf_targets : g.(g_target_set) = JList ask.(ask_target_set);
  gf_minted : minted g;
  gf_unused : unused g;
}.

(** The asks that were granted, up to the first that raised. *)
Lemma mint_each_cases a pid rid expires_at now asks d res d' :
  mint_each float_repr sha256 registry fresh a pid rid expires_at now asks d = (res, d') →
  ∃ done rest gs, asks = done ++ rest ∧ d' = d <| gd_grants := d.(gd_grants) ++ gs |> ∧ Forall2 (granted_for a pid expires_at) done gs
    ∧ match res with
      | Ok l => rest = [] ∧ map mg_grant_id l = map g_id gs ∧ map mg_max_spend_usd l = map ask_max_spend_usd asks
      | Err _ => rest ≠ []
      end.
Proof.
  revert d res. induction asks as [|ask asks IH]; intros d res; cbn [mint_each].
  - intros [= <- <-]. exists [], [], []. split_and!; [done| |by constructor|done..]. destruct d. cbn. by rewrite app_nil_r.
  - destruct (create_grant _ _ _ _ _ _ _ _) as [[g|e] d1] eqn:Hc.
    2: { intros [= <- <-]. exists [], (ask :: asks), []. unfold create_grant in Hc. apply write_Err in Hc as ->.
         split_and!; [done| |by constructor|done]. destruct d. cbn. by rewrite app_nil_r. }
    pose proof Hc as Hi. apply create_grant_inv in Hi as (_ & Hcap & Hsp & _ & Hmt & Hun & Hd1 & _).
    assert (g.(g_max_actions) = Some ask.(ask_max_actions) ∧ g.(g_project_id) = Some pid ∧ g.(g_expires_at) = Some expires_at
      ∧ g.(g_target_set) = JList ask.(ask_target_set)) as (Hact & Hp & Hx & Ht).
    { unfold create_grant in Hc. apply write_Ok, bind_Ok in Hc as (meta & _ & Hc). case_match; [done|].
      by injection Hc as <- _. }
    destruct (mint_each _ _ _ _ _ _ _ _ _ _ _) as [more d2] eqn:Hm. intros [= <- <-].
    destruct (IH _ _ Hm) as (done & rest & gs & -> & -> & Hall & Hres). rewrite Hd1. exists (ask :: done), rest, (g :: gs). split_and!.
    + done.
    + destruct d. cbn. by rewrite <-app_assoc.
    + constructor; [by split|done].
    + destruct more as [l|e]; [|done]. destruct Hres as (-> & Hids & Hspends). cbn. by rewrite Hids, Hspends.
Qed.

(** C31: Run grants stay under the owner's ceiling, however the minting ends. It refuses, which leaves the store as it was; or it appends to the store unused, expiring, project-bound grants, each with the own spend and action caps of its ask, under an authorization of the owner and for asks all of which are admitted: one for every ask when it returns, one for each of the first asks when a grant raises in between (these stay, and the audit file has no line). In both cases, when the configured ceiling, the owner's figure and the asked amounts are numbers, the floating sum of the caps of all asks exceeds neither the ceiling, nor the owner's figure, nor the absolute maximum. What is returned names its audit line, unless the audit file could not be written, which hinders nothing. *)
Theorem run_grants_within_ceiling environ auth asks pid rid now hours ceiling_usd d res d' log :
  mint environ auth asks pid rid now hours ceiling_usd d = (res, d', log) →
  (∃ why, res = Ok (mkMint [] (Some why) (write_audit audit_file (mkDecision rid "refused" why [])).1) ∧ d' = d
      ∧ log = (write_audit audit_file (mkDecision rid "refused" why [])).2)
  ∨ ∃ a expires_at granted rest gs, auth = Some a ∧ a.(sa_authorized_by) = OWNER_PRINCIPAL
      ∧ asks = granted ++ rest ∧ Forall admitted asks
      ∧ d' = (d <| gd_grants := d.(gd_grants) ++ gs |>) ∧ Forall2 (granted_for a pid expires_at) granted gs
      ∧ match res with
        | Ok r => rest = [] ∧ r.(mt_refused_reason) = None ∧ map mg_grant_id r.(mt_minted) = map g_id gs
            ∧ (r.(mt_audit_ref), log) = write_audit audit_file (mkDecision rid "minted" "" r.(mt_minted))
        | Err _ => log = []
        end
      ∧ (is_nan (total_of asks) = false → is_nan a.(sa_cap_usd) = false →
         is_nan (ceiling environ (mkSpend ABSOLUTE_MAX_CEILING_USD "" "" "") ceiling_usd) = false →
         fl_le (total_of asks) (ceiling environ a ceiling_usd) = true
         ∧ fl_le (total_of asks) a.(sa_cap_usd) = true ∧ fl_le (total_of asks) ABSOLUTE_MAX_CEILING_USD = true).
Proof.
  unfold mint_run_grants. cbv zeta.
  assert (Hrefuse : ∀ why, (let '(ref, log) := write_audit audit_file (mkDecision rid "refused" why []) in
      (Ok (mkMint [] (Some why) ref), d, log)) = (res, d', log) →
    ∃ why, res = Ok (mkMint [] (Some why) (write_audit audit_file (mkDecision rid "refused" why [])).1) ∧ d' = d
      ∧ log = (write_audit audit_file (mkDecision rid "refused" why [])).2).
  { intros why. destruct (write_audit _ _) as [ref l] eqn:Hw. intros [= <- <- <-]. exists why. by rewrite Hw. }
  destruct auth as [a|]; [|by left; eapply Hrefuse].
  case_bool_decide as Hown; cbn [negb]; [|by left; eapply Hrefuse].
  destruct (admissible rnd fl_zero asks) as [total|why] eqn:Ha; [|by left; eapply Hrefuse].
  apply admissible_Ok in Ha as [-> Hadm]. change (foldl _ _ _) with (total_of asks).
  destruct (fl_lt _ (total_of asks)) eqn:Hover; [by left; eapply Hrefuse|]. intros Hmint. right.
  assert (∃ expires_at granted rest gs, asks = granted ++ rest
    ∧ d' = d <| gd_grants := d.(gd_grants) ++ gs |> ∧ Forall2 (granted_for a pid expires_at) granted gs
    ∧ match res with
      | Ok r => rest = [] ∧ r.(mt_refused_reason) = None ∧ map mg_grant_id r.(mt_minted) = map g_id gs
            ∧ (r.(mt_audit_ref), log) = write_audit audit_file (mkDecision rid "minted" "" r.(mt_minted))
      | Err _ => log = []
      end) as (expires_at & granted & rest & gs & Hasks & Hd & Hall & Hres).
  { destruct (plus_hours now hours) as [expires_at|].
    2: { injection Hmint as <- <- <-. exists "", [], asks, []. split_and!; [done| |by constructor|done]. destruct d. cbn. by rewrite app_nil_r. }
    destruct (mint_each _ _ _ _ _ _ _ _ _ _ _) as [[l|e] d2] eqn:Hm;
      apply mint_each_cases in Hm as (granted & rest & gs & Hasks & Hd & Hall & Hres).
    - destruct (write_audit _ _) as [ref lg] eqn:Hw. injection Hmint as <- <- <-. exists expires_at, granted, rest, gs.
      destruct Hres as (? & ? & _). by split_and!.
    - injection Hmint as <- <- <-. by exists expires_at, granted, rest, gs. }
  exists a, expires_at, granted, rest, gs. split_and!; try done.
  intros Ht Hcap Hceil. unfold effective_ceiling in *. set (top := match ceiling_usd with Some c => c | None => _ end) in *.
  assert (Hn : is_nan top = false) by (destruct top; [done..|by rewrite py_min_nan in Hceil]).
  destruct (py_min_spec top [ABSOLUTE_MAX_CEILING_USD; a.(sa_cap_usd)]) as [Hmin Hle]; [by repeat constructor|].
  apply Forall_cons in Hle as [_ Hle]. apply Forall_cons in Hle as [Habs Hle]. apply Forall_cons in Hle as [Ho _].
  assert (Hc : fl_le (total_of asks) (py_min top [ABSOLUTE_MAX_CEILING_USD; a.(sa_cap_usd)]) = true)
    by by apply fl_lt_false.
  split_and!; [done|eapply fl_le_trans; [exact Hc|done]..].
Qed.

(** The ceiling is gone when it is configured as NaN: every total passes. *)
Lemma nan_ceiling_admits_all environ a total : fl_lt (ceiling environ a (Some NaN)) total = false.
Proof. unfold effective_ceiling. by rewrite py_min_nan. Qed.

(** A spend authorization is read only from the owner's own words: it needs the owner as principal and a goal that contains a spend phrase; the cap is a positive number of at most the absolute maximum, and it is the figure that stands within the forty characters after the first such phrase; the digest is of the whole goal. *)
Theorem authorization_is_owners_words goal by_ now a :
  parse_spend_authorization rnd sha256 goal by_ now = Some a →
  by_ = OWNER_PRINCIPAL ∧ a.(sa_authorized_by) = OWNER_PRINCIPAL ∧ a.(sa_prompt_sha256) = sha256 goal
  ∧ a.(sa_created_at) = now
  ∧ fl_lt fl_zero a.(sa_cap_usd) = true ∧ fl_le a.(sa_cap_usd) ABSOLUTE_MAX_CEILING_USD = true
  ∧ ∃ after amount, first_match INTENT_RE goal = Some after
      ∧ parse_amount rnd (take_str AMOUNT_WINDOW_CHARS after.2) = Some amount
      ∧ (fl_le amount ABSOLUTE_MAX_CEILING_USD = true → a.(sa_cap_usd) = amount).
Proof.
  unfold parse_spend_authorization. case_bool_decide as Hown; cbn [negb]; [|done]. case_bool_decide; [done|].
  destruct (first_match INTENT_RE goal) as [after|]; [|done].
  destruct (parse_amount rnd _) as [amount|] eqn:Hp; [|done]. destruct (fl_le amount fl_zero) eqn:Hle; [done|].
  intros [= <-]. cbn [sa_cap_usd sa_authorized_by sa_prompt_sha256 sa_created_at].
  assert (Hpos : fl_lt fl_zero amount = true).
  { unfold parse_amount in Hp. destruct (first_from amounts_at None _) as [raw|]; [|done].
    destruct (fl_lt fl_zero (rnd (decimal raw))) eqn:Hlt; [|done]. by injection Hp as <-. }
  assert (Hn : is_nan amount = false) by by destruct amount.
  destruct (py_min_spec amount [ABSOLUTE_MAX_CEILING_USD]) as [_ Hall]; [by repeat constructor|].
  apply Forall_cons in Hall as [_ Hall]. apply Forall_cons in Hall as [Habs _]. split_and!; try done.
  - unfold py_min. cbn [foldl]. match goal with |- context [if ?b then _ else _] => by destruct b end.
  - exists after, amount. split_and!; [done..|]. intros Hsmall.
    change ((if fl_lt ABSOLUTE_MAX_CEILING_USD amount then ABSOLUTE_MAX_CEILING_USD else amount) = amount).
    destruct (fl_lt ABSOLUTE_MAX_CEILING_USD amount) eqn:Hlt; [|done]. exfalso. revert Hlt Hsmall. clear.
    destruct amount as [x|[]|]; try done. unfold ABSOLUTE_MAX_CEILING_USD, fl_int. rewrite fl_le_spec. cbn [fl_lt].
    intros Hq%negb_true_iff Hle. apply Qle_bool_iff in Hle. congruence.
Qed.
End run.

(** ** On concrete inputs *)

Definition fx_goal : string := "Spend up to $30 on the domain".
Definition fx_spend : SpendAuthorization := mkSpend (fl_int 30) OWNER_PRINCIPAL (fx_sha fx_goal) "1".
Definition fx_ask (amount : float) : CapabilityAsk := mkAsk "gmail.send" "consequential" amount 1 [JStr "ann@x"].
Abbreviation fx_mint asks :=
  (mint_run_grants fx_rnd fx_read fx_repr fx_sha (λ _ _, Some "100") (Some fx_registry) fx_fresh_grant (λ _, Some "/audit") None (Some fx_spend)
     asks "p1" "run1" "1" 6 None (mkGrants [] [])).

Lemma authorization_is_owners_words_witness :
  parse_spend_authorization fx_rnd fx_sha fx_goal OWNER_PRINCIPAL "1" = Some fx_spend
  ∧ fl_le fx_spend.(sa_cap_usd) ABSOLUTE_MAX_CEILING_USD = true.
Proof.
  assert (H : parse_spend_authorization fx_rnd fx_sha fx_goal OWNER_PRINCIPAL "1" = Some fx_spend) by by vm_compute.
  split; [exact H|]. by apply authorization_is_owners_words in H as (_ & _ & _ & _ & _ & Hle & _).
Defined.

Lemma run_grants_within_ceiling_witness :
  ∃ r d log, fx_mint [fx_ask (fl_int 10); fx_ask (fl_int 20)] = (Ok r, d, log) ∧ length r.(mt_minted) = 2%nat
  ∧ fl_le (total_of fx_rnd [fx_ask (fl_int 10); fx_ask (fl_int 20)]) ABSOLUTE_MAX_CEILING_USD = true.
Proof.
  destruct (fx_mint [fx_ask (fl_int 10); fx_ask (fl_int 20)]) as [[[r|e] d] log] eqn:H; [|by vm_compute in H].
  exists r, d, log. split; [done|]. split; [vm_compute in H; by injection H as <- _ _|].
  apply run_grants_within_ceiling in H as [(why & [= ->] & -> & ->)|(a & ex & granted & rest & gs & Ha & _ & _ & _ & _ & _ & _ & Hb)].
  - by vm_compute.
  - injection Ha as <-. by destruct Hb as (_ & _ & Hle).
Defined.

(** An ask of NaN dollars makes the sum NaN, and the asks beside it pass any ceiling. *)
Example nan_ask_hides_the_sum :
  match fx_mint [fx_ask NaN; fx_ask (fl_int 1000000)] with
  | (Ok r, d, _) => r.(mt_refused_reason) = None
      ∧ map g_max_spend_usd d.(gd_grants) = [None; Some (fl_int 1000000)]
  | _ => False
  end.
Proof. by vm_compute. Qed.

(** A mint that raises at its second ask leaves the first grant behind, and no audit line. *)
Example half_minted :
  match fx_mint [fx_ask (fl_int 1); mkAsk "nowhere.send" "consequential" (fl_int 1) 1 [JStr "ann@x"]] with
  | (Err _, d, log) => length d.(gd_grants) = 1%nat ∧ log = []
  | _ => False
  end.
Proof. by vm_compute. Qed.
