(* ===== verification/LoopBudget.v ===== *)
(** * LoopBudget: [omniagentos/scheduler/loop_budget.py]

    The pre-paid budget of loop instances: a table of reservations, admission against
    the cap of the instance and the ceiling of the UTC day, settlement, release and the
    sweep that charges what expired.  The clock reads a finite number; [quotient] is the
    double quotient of a time by the seconds of a day and [sql_sum] SQLite's SUM of
    a REAL column.  Amounts are validated before they are stored, so a stored amount is a
    rational. *)

From Stdlib Require Import QArith Qminmax Qround.
From S2P Require Import Prelude PyJson Records.
Open Scope Z_scope.

Inductive state := STATE_OPEN | STATE_SETTLED | STATE_RELEASED | STATE_EXPIRED_UNKNOWN.
#[export] Instance state_eq_dec : EqDecision state.
Proof. solve_decision. Defined.

Record Reservation := mkReservation {
  rv_id : string;
  rv_instance_id : string;
  rv_capability_id : string;
  rv_max_usd : Q;
  rv_state : state;
  rv_created_at : Q;
  rv_expires_at : float;
  rv_attempts : Z;
  rv_actual_usd : option Q;
  rv_cost_quality : string;
}.
#[export] Instance Reservation_rebuild : Rebuild Reservation := λ r,
  mkReservation r.(rv_id) r.(rv_instance_id) r.(rv_capability_id) r.(rv_max_usd) r.(rv_state) r.(rv_created_at)
    r.(rv_expires_at) r.(rv_attempts) r.(rv_actual_usd) r.(rv_cost_quality).

Abbreviation ledger := (list Reservation).

(** The arguments of the constructor that decide. *)
Record LoopConfig := mkLoopConfig {
  lc_instance_caps : list (string * float);
  lc_default_instance_cap_usd : float;
  lc_global_ceiling_usd : float;
  lc_ttl_seconds : float;
  lc_notifier : bool;
}.
Definition GLOBAL_DAILY_CEILING_USD : float := fl_int 200.
Definition DEFAULT_INSTANCE_CAP_USD : float := fl_int 50.
Definition INSTANCE_CAPS : list (string * float) := [("render_probe", fl_int 10)].
Definition DEFAULT_RESERVATION_TTL_SECONDS : float := fl_int 900.
Definition default_config : LoopConfig :=
  mkLoopConfig INSTANCE_CAPS DEFAULT_INSTANCE_CAP_USD GLOBAL_DAILY_CEILING_USD DEFAULT_RESERVATION_TTL_SECONDS false.

(** [BudgetRefused]; [UnknownCostRefused] is the refusal whose reason is [unknown_cost]. *)
Record Refusal := mkRefusal {
  rf_instance_id : string;
  rf_requested_usd : float;
  rf_settled_usd : float;
  rf_outstanding_usd : float;
  rf_cap_usd : float;
  rf_ceiling_usd : float;
  rf_reason : string;
}.
Inductive budget_error :=
  | BudgetRefused (r : Refusal)
  | NotFound
  | AlreadyExpired
  | NotOpen (s : state)
  | IntegrityError.

Record InstanceState := mkInstanceState {
  is_instance_id : string;
  is_cap_usd : float;
  is_settled_usd : float;
  is_outstanding_usd : float;
  is_committed_usd : float;
  is_available_usd : float;
  is_fraction_used : float;
  is_unaccounted_usd : float;
}.

(** ** The money columns *)

Definition CHARGED_STATES : list state := [STATE_SETTLED; STATE_EXPIRED_UNKNOWN].
Definition spent (r : Reservation) : Q :=
  if bool_decide (r.(rv_state) ∈ CHARGED_STATES) then default 0%Q r.(rv_actual_usd) else 0%Q.
Definition outstanding (r : Reservation) : Q := if bool_decide (r.(rv_state) = STATE_OPEN) then r.(rv_max_usd) else 0%Q.
Definition unaccounted (r : Reservation) : Q :=
  if bool_decide (r.(rv_state) = STATE_EXPIRED_UNKNOWN) then default 0%Q r.(rv_actual_usd) else 0%Q.

Definition reservation_is (id : string) (r : Reservation) : bool := bool_decide (r.(rv_id) = id).
Definition find_reservation (id : string) (d : ledger) : option Reservation := List.find (reservation_is id) d.

Definition get_reservation (id : string) (d : ledger) : result budget_error Reservation :=
  match find_reservation id d with Some r => Ok r | None => Err NotFound end.

(** A float that is a number and finite, and satisfies the test. *)
Definition valid_cost (ok : Q → bool) (x : option float) : option Q :=
  match x with Some (Fin q) => if ok q then Some q else None | _ => None end.
Definition Qpositive (q : Q) : bool := negb (Qle_bool q 0).
Definition Qnonneg (q : Q) : bool := Qle_bool 0 q.

(** A transaction with its arguments. *)
Inductive loop_call :=
  | Sweep (now : Q)
  | Admit (now : Q) (id instance_id capability_id : string) (est ttl : option float)
  | Settle (id : string) (actual : option float) (quality : string) (usage : bool)
  | Release (id : string).

Section ledger.
Context (rnd : Q → float) (quotient : Q → Q) (sql_sum : list Q → float) (cfg : LoopConfig).

(** [math.floor(now / 86400.0) * 86400.0] *)
Definition utc_day_start (now : Q) : Q := inject_Z (Qfloor (quotient now) * 86400).

Definition get_instance_cap (instance_id : string) : float :=
  default cfg.(lc_default_instance_cap_usd) (dict_get instance_id cfg.(lc_instance_caps)).

(** [SUM(...)], 0.0 where it is NULL. *)
Definition sum_or_zero (l : list Q) : float :=
  match l with
  | [] => fl_zero
  | _ => match sql_real (sql_sum l) with Some x => if fl_eq x fl_zero then fl_zero else x | None => fl_zero end
  end.

Definition since (day_start : Q) (r : Reservation) : bool := Qle_bool day_start r.(rv_created_at).
Definition of_instance (instance_id : string) (r : Reservation) : bool := bool_decide (r.(rv_instance_id) = instance_id).
Definition instance_since (instance_id : string) (day_start : Q) (r : Reservation) : bool :=
  of_instance instance_id r && since day_start r.

(** Both sums over the rows a query selects. *)
Definition metrics (p : Reservation → bool) (d : ledger) : float * float :=
  (sum_or_zero (map spent (select p d)), sum_or_zero (map outstanding (select p d))).

(** ** Sweep *)

Definition expired (now : Q) (r : Reservation) : bool :=
  bool_decide (r.(rv_state) = STATE_OPEN) && fl_le r.(rv_expires_at) (Fin now).
Definition charge_expired (r : Reservation) : Reservation :=
  r <| rv_state := STATE_EXPIRED_UNKNOWN |> <| rv_actual_usd := Some r.(rv_max_usd) |> <| rv_cost_quality := "unknown" |>.

(** The charged reservations, as they were, and the ledger. *)
Definition reclaim_expired (now : Q) (d : ledger) : list Reservation * ledger :=
  (select (expired now) d, update_where (expired now) charge_expired d).
(** What is handed to the notifier. *)
Definition alarms (reclaimed : list Reservation) : list (string * string * string * Q) :=
  if cfg.(lc_notifier)
  then map (λ r, (r.(rv_instance_id), "alarm", "reservation_expired_unaccounted", r.(rv_max_usd))) reclaimed else [].

(** ** Admission *)

Definition refusal (instance_id : string) (requested : float) (m : float * float) (reason : string) : budget_error :=
  BudgetRefused (mkRefusal instance_id requested m.1 m.2 (get_instance_cap instance_id) cfg.(lc_global_ceiling_usd) reason).

Definition admit_reservation (now : Q) (id instance_id capability_id : string) (estimated_max_usd : option float)
    (ttl_seconds : option float) : op ledger budget_error Reservation := write (λ d,
  let day_start := utc_day_start now in
  match valid_cost Qpositive estimated_max_usd with
  | None => Err (refusal instance_id (default fl_zero estimated_max_usd) (fl_zero, fl_zero) "unknown_cost")
  | Some est =>
      let global := metrics (since day_start) d in
      let inst := metrics (instance_since instance_id day_start) d in
      let committed m := fl_add rnd (fl_add rnd m.1 m.2) (Fin est) in
      if fl_lt (get_instance_cap instance_id) (committed inst)
      then Err (refusal instance_id (Fin est) inst "instance_cap_exceeded")
      else if fl_lt cfg.(lc_global_ceiling_usd) (committed global)
      then Err (refusal instance_id (Fin est) global "global_ceiling_exceeded")
      else
        let expires_at := fl_add rnd (Fin now) (default cfg.(lc_ttl_seconds) ttl_seconds) in
        let r := mkReservation id instance_id capability_id est STATE_OPEN now expires_at 0 None "unknown" in
        if is_nan expires_at || existsb (reservation_is id) d then Err IntegrityError else Ok (r, d ++ [r])
  end).

(** The sweep commits on its own before the admission. *)
Definition reserve (now : Q) (id instance_id capability_id : string) (estimated_max_usd : option float)
    (ttl_seconds : option float) : op ledger budget_error Reservation := λ d,
  admit_reservation now id instance_id capability_id estimated_max_usd ttl_seconds (reclaim_expired now d).2.

(** ** Disposal *)

Definition set_row (id : string) (r : Reservation) (d : ledger) : ledger := update_where (reservation_is id) (λ _, r) d.

(** The amount and its quality: without a usable figure, the whole reservation. *)
Definition resolved (max_usd : Q) (actual_usd : option float) (cost_quality : string) (usage_available : bool) : Q * string :=
  match valid_cost Qnonneg (if usage_available then actual_usd else None) with
  | Some q => (Qmax 0 q, cost_quality)
  | None => (max_usd, "unknown")
  end.

Definition settle (id : string) (actual_usd : option float) (cost_quality : string) (usage_available : bool) :
    op ledger budget_error Reservation := write (λ d,
  match find_reservation id d with
  | None => Err NotFound
  | Some r =>
      match r.(rv_state) with
      | STATE_SETTLED => Ok (r, d)
      | STATE_EXPIRED_UNKNOWN => Err AlreadyExpired
      | STATE_RELEASED => Err (NotOpen STATE_RELEASED)
      | STATE_OPEN =>
          let '(usd, quality) := resolved r.(rv_max_usd) actual_usd cost_quality usage_available in
          let r' := r <| rv_state := STATE_SETTLED |> <| rv_actual_usd := Some usd |> <| rv_cost_quality := quality |> in
          Ok (r', set_row id r' d)
      end
  end).

Definition release (id : string) : op ledger budget_error Reservation := write (λ d,
  match find_reservation id d with
  | None => Err NotFound
  | Some r =>
      match r.(rv_state) with
      | STATE_RELEASED => Ok (r, d)
      | STATE_EXPIRED_UNKNOWN => Err AlreadyExpired
      | STATE_SETTLED => Err (NotOpen STATE_SETTLED)
      | STATE_OPEN =>
          let r' := r <| rv_state := STATE_RELEASED |> <| rv_actual_usd := Some 0%Q |> in Ok (r', set_row id r' d)
      end
  end).

(** ** The report *)

(** [max(0.0, x)] *)
Definition max_zero (x : float) : float := if fl_lt fl_zero x then x else fl_zero.
Definition fl_opp (x : float) : float := match x with Fin q => Fin (- q) | Inf n => Inf (negb n) | NaN => NaN end.
(** [a / b] for a positive divisor. *)
Definition fl_ratio (a b : float) : float :=
  match a, b with
  | Fin x, Fin y => rnd (x / y)%Q
  | Fin _, Inf _ => fl_zero
  | Inf n, Fin _ => Inf n
  | _, _ => NaN
  end.

Definition get_instance_state (instance_id : string) (now : Q) (sweep : bool) (d : ledger) : InstanceState * ledger :=
  let d := if sweep then (reclaim_expired now d).2 else d in
  let rows := select (instance_since instance_id (utc_day_start now)) d in
  let settled := sum_or_zero (map spent rows) in
  let out := sum_or_zero (map outstanding rows) in
  let committed := fl_add rnd settled out in
  let cap := get_instance_cap instance_id in
  (mkInstanceState instance_id cap settled out committed (max_zero (fl_add rnd cap (fl_opp committed)))
     (if fl_lt fl_zero cap then fl_ratio committed cap else fl_zero) (sum_or_zero (map unaccounted rows)), d).

(** ** Interleavings

    Every operation is one transaction, apart from [reserve], which is two; the processes
    that share the table interleave as a sequence of them. *)

Definition exec (c : loop_call) (d : ledger) : ledger :=
  match c with
  | Sweep now => (reclaim_expired now d).2
  | Admit now id i cap est ttl => (admit_reservation now id i cap est ttl d).2
  | Settle id a q u => (settle id a q u d).2
  | Release id => (release id d).2
  end.
Definition run (tr : list loop_call) (d : ledger) : ledger := foldl (λ d c, exec c d) d tr.
End ledger.
