(* ===== verification/LoopBudgetSpec.v ===== *)
(** * LoopBudgetSpec: what the loop budget guarantees

    The caps under every interleaving of the ledger's transactions, the permanence of a
    charge, and the exact effect of a settlement and of a report. *)

From Stdlib Require Import QArith Qminmax Qround Lqa.
From S2P Require Import Prelude PyJson Records LoopBudget.
Open Scope Z_scope.

(** ** Sums *)

Fixpoint Qsum (l : list Q) : Q := match l with [] => 0 | x :: l => x + Qsum l end%Q.

Lemma Qsum_app l m : (Qsum (l ++ m) == Qsum l + Qsum m)%Q.
Proof. induction l as [|x l IH]; cbn [Qsum app]; lra. Qed.
Lemma Qsum_nonneg l : Forall (λ x, 0 <= x)%Q l → (0 <= Qsum l)%Q.
Proof. induction 1; cbn [Qsum]; lra. Qed.
Lemma Qsum_le {A} (f g : A → Q) l : (∀ x, x ∈ l → f x <= g x)%Q → (Qsum (map f l) <= Qsum (map g l))%Q.
Proof.
  induction l as [|x l IH]; intros H; cbn [Qsum map]; [lra|].
  pose proof (H x (list_elem_of_here _ _)). specialize (IH (λ y Hy, H y (list_elem_of_further _ _ _ Hy))). lra.
Qed.
Lemma Qsum_plus {A} (f g : A → Q) l : (Qsum (map f l) + Qsum (map g l) == Qsum (map (λ x, f x + g x)%Q l))%Q.
Proof. induction l as [|x l IH]; cbn [Qsum map]; lra. Qed.
(** The selected rows are fewer. *)
Lemma Qsum_select {A} (p q : A → bool) (f : A → Q) l :
  (∀ x, x ∈ l → p x = true → q x = true) → (∀ x, x ∈ l → 0 <= f x)%Q →
  (Qsum (map f (select p l)) <= Qsum (map f (select q l)))%Q.
Proof.
  unfold select. induction l as [|x l IH]; intros H Hf; cbn [List.filter]; [cbn [Qsum map]; lra|].
  pose proof (Hf x (list_elem_of_here _ _)) as Hx. pose proof (H x (list_elem_of_here _ _)) as Hp.
  specialize (IH (λ y Hy, H y (list_elem_of_further _ _ _ Hy)) (λ y Hy, Hf y (list_elem_of_further _ _ _ Hy))).
  destruct (p x); [rewrite Hp by done; cbn [Qsum map]; lra|]. destruct (q x); cbn [Qsum map]; lra.
Qed.

(** ** Rows *)

(** What a reservation counts against the caps, and the part the reservation covers. *)
Definition charge (r : Reservation) : Q := (spent r + outstanding r)%Q.
Definition covered (r : Reservation) : Q := Qmin (charge r) r.(rv_max_usd).

Record row_ok (r : Reservation) : Prop := {
  ok_max : (0 < r.(rv_max_usd))%Q;
  ok_actual : match r.(rv_state) with
    | STATE_OPEN => r.(rv_actual_usd) = None
    | STATE_SETTLED => ∃ a, r.(rv_actual_usd) = Some a ∧ (0 <= a)%Q
    | STATE_RELEASED => r.(rv_actual_usd) = Some 0%Q
    | STATE_EXPIRED_UNKNOWN => r.(rv_actual_usd) = Some r.(rv_max_usd)
    end;
}.
Record ledger_ok (d : ledger) : Prop := {
  ok_ids : NoDup (map rv_id d);
  ok_rows : ∀ r, r ∈ d → row_ok r;
}.

(** Tests of a known state. *)
Ltac decide_states := repeat match goal with
  | |- context [bool_decide (?s ∈ CHARGED_STATES)] =>
      let b := eval vm_compute in (bool_decide (s ∈ CHARGED_STATES)) in change (bool_decide (s ∈ CHARGED_STATES)) with b
  | |- context [bool_decide (?s = STATE_OPEN)] =>
      let b := eval vm_compute in (bool_decide (s = STATE_OPEN)) in change (bool_decide (s = STATE_OPEN)) with b
  | |- context [bool_decide (?s = STATE_EXPIRED_UNKNOWN)] =>
      let b := eval vm_compute in (bool_decide (s = STATE_EXPIRED_UNKNOWN)) in
      change (bool_decide (s = STATE_EXPIRED_UNKNOWN)) with b
  end; cbv iota.

Lemma charge_row r : row_ok r →
  (charge r == match r.(rv_state) with
              | STATE_OPEN | STATE_EXPIRED_UNKNOWN => r.(rv_max_usd)
              | STATE_SETTLED => default 0 r.(rv_actual_usd)
              | STATE_RELEASED => 0 end)%Q.
Proof.
  intros [_ Ha].
  unfold charge, spent, outstanding.
  destruct (rv_state r); [|destruct Ha as (a & -> & _)|..]; rewrite ?Ha; cbn; decide_states; lra.
Qed.
Lemma charge_nonneg r : row_ok r → (0 <= charge r)%Q ∧ (0 <= spent r)%Q ∧ (0 <= outstanding r)%Q.
Proof.
  intros [Hm Ha]. unfold charge, spent, outstanding.
  destruct (rv_state r); [|destruct Ha as (a & -> & ?)|..]; rewrite ?Ha; cbn; decide_states; lra.
Qed.
Lemma covered_bounds r : row_ok r → (0 <= covered r)%Q ∧ (covered r <= charge r)%Q ∧ (covered r <= r.(rv_max_usd))%Q.
Proof.
  intros Hr. pose proof (charge_nonneg r Hr) as [? _]. pose proof (ok_max r Hr). unfold covered.
  pose proof (Q.le_min_l (charge r) (rv_max_usd r)). pose proof (Q.le_min_r (charge r) (rv_max_usd r)).
  split_and!; [|done..]. apply Q.min_glb; [done|lra].
Qed.

(** ** What a transaction does to the rows *)

Definition same_identity (r r' : Reservation) : Prop :=
  r'.(rv_id) = r.(rv_id) ∧ r'.(rv_instance_id) = r.(rv_instance_id) ∧ r'.(rv_capability_id) = r.(rv_capability_id)
  ∧ r'.(rv_max_usd) = r.(rv_max_usd) ∧ r'.(rv_created_at) = r.(rv_created_at) ∧ r'.(rv_expires_at) = r.(rv_expires_at)
  ∧ r'.(rv_attempts) = r.(rv_attempts).
(** Only an open reservation changes, and then it ends. *)
Definition evolves (r r' : Reservation) : Prop :=
  r' = r ∨ (r.(rv_state) = STATE_OPEN ∧ r'.(rv_state) ≠ STATE_OPEN ∧ same_identity r r' ∧ row_ok r').

Lemma evolves_identity r r' : evolves r r' → same_identity r r'.
Proof. by intros [->|(_ & _ & H & _)]. Qed.
Lemma row_evolves_refl l : Forall2 evolves l l.
Proof. apply Forall_Forall2_diag, Forall_forall. by left. Qed.
Lemma evolves_ok l l' : Forall2 evolves l l' → ledger_ok l → ledger_ok l'.
Proof.
  intros H [Hid Hrow]. split.
  - replace (map rv_id l') with (map rv_id l); [done|]. clear Hid Hrow.
    induction H as [|r r' l l' Hr _ IH]; cbn; [done|]. by destruct (evolves_identity _ _ Hr) as [-> _]; rewrite IH.
  - intros r' (i & Hi)%list_elem_of_lookup. destruct (Forall2_lookup_r _ _ _ _ _ H Hi) as (r & Hr & [->|(_ & _ & _ & ?)]);
      [|done]. by eapply Hrow, list_elem_of_lookup_2.
Qed.
Lemma evolves_covered r r' : row_ok r → evolves r r' → (covered r' <= covered r)%Q.
Proof.
  intros Hr [->|(Ho & _ & (_ & _ & _ & Hm & _) & Hr')]; [lra|].
  pose proof (covered_bounds r' Hr') as (_ & _ & ?). rewrite Hm in *. unfold covered at 2.
  pose proof (charge_row r Hr) as E. rewrite Ho in E. apply Q.min_glb; [rewrite E|]; done.
Qed.
Lemma evolves_select (p : Reservation → bool) l l' :
  (∀ r r', same_identity r r' → p r' = p r) → Forall2 evolves l l' → Forall2 evolves (select p l) (select p l').
Proof.
  unfold select. intros Hp. induction 1 as [|r r' l l' Hr Hl IH]; cbn; [constructor|].
  rewrite (Hp r r') by by apply evolves_identity. destruct (p r); [by constructor|done].
Qed.
Lemma evolves_covered_sum l l' : (∀ r, r ∈ l → row_ok r) → Forall2 evolves l l' →
  (Qsum (map covered l') <= Qsum (map covered l))%Q.
Proof.
  intros Hok. induction 1 as [|r r' l l' Hr Hl IH]; cbn [map Qsum]; [lra|].
  pose proof (evolves_covered r r' (Hok r (list_elem_of_here _ _)) Hr).
  specialize (IH (λ y Hy, Hok y (list_elem_of_further _ _ _ Hy))). lra.
Qed.

Lemma reservation_is_spec id r : reservation_is id r = true ↔ r.(rv_id) = id.
Proof. apply bool_decide_eq_true. Qed.
Lemma find_reservation_Some id d r : find_reservation id d = Some r → r ∈ d ∧ r.(rv_id) = id.
Proof. intros (l1 & l2 & -> & H%reservation_is_spec & _)%find_spec. set_solver. Qed.

(** A row replaced by what it evolves to. *)
Lemma set_row_evolves id d r r' : NoDup (map rv_id d) → find_reservation id d = Some r → evolves r r' →
  Forall2 evolves d (set_row id r' d).
Proof.
  intros Hnd [Hin Hid]%find_reservation_Some He. unfold set_row, update_where.
  apply Forall2_fmap_r, Forall_Forall2_diag, Forall_forall. intros x Hx. unfold compose.
  destruct (reservation_is id x) eqn:E; [|by left].
  apply reservation_is_spec in E. assert (x = r) as -> by (apply (NoDup_map_inj rv_id d); congruence). exact He.
Qed.
Lemma set_row_find id d r r' : find_reservation id d = Some r → r'.(rv_id) = id →
  find_reservation id (set_row id r' d) = Some r'.
Proof.
  intros Hf Hid. unfold find_reservation, set_row, update_where in *. induction d as [|x d IH]; [done|]. cbn in *.
  destruct (reservation_is id x) eqn:E; [|rewrite E; by apply IH]. unfold reservation_is at 1. by rewrite bool_decide_eq_true_2.
Qed.

Lemma set_row_other id id' d r' : r'.(rv_id) = id → id' ≠ id → find_reservation id' (set_row id r' d) = find_reservation id' d.
Proof.
  intros <- Hne. unfold find_reservation, set_row, update_where. induction d as [|x d IH]; [done|]. cbn.
  destruct (reservation_is (rv_id r') x) eqn:E; [|by rewrite IH]. apply reservation_is_spec in E.
  assert (reservation_is id' r' = false) as -> by (by apply bool_decide_eq_false).
  assert (reservation_is id' x = false) as -> by (apply bool_decide_eq_false; congruence). exact IH.
Qed.
Lemma sweep_find id now d :
  find_reservation id (reclaim_expired now d).2 = (λ r, if expired now r then charge_expired r else r) <$> find_reservation id d.
Proof.
  unfold find_reservation, reclaim_expired, update_where. cbn [snd]. induction d as [|x d IH]; [done|]. cbn.
  assert (reservation_is id (if expired now x then charge_expired x else x) = reservation_is id x) as -> by by destruct (expired now x).
  by destruct (reservation_is id x).
Qed.
Lemma find_app_Some id d d' r : find_reservation id d = Some r → find_reservation id (d ++ d') = Some r.
Proof. unfold find_reservation. induction d as [|x d IH]; [done|]. cbn. by destruct (reservation_is id x). Qed.

Lemma Qpositive_spec q : Qpositive q = true ↔ (0 < q)%Q.
Proof.
  unfold Qpositive. rewrite negb_true_iff, <-not_true_iff_false, Qle_bool_iff. split; [apply Qnot_le_lt|].
  by intros ? ?%Qle_not_lt.
Qed.
Lemma resolved_nonneg m x q u : (0 < m)%Q → (0 <= (resolved m x q u).1)%Q.
Proof. unfold resolved. intros. case_match; cbn; [apply Q.le_max_l|lra]. Qed.

(** ** Transactions *)

Section transactions.
Context (rnd : Q → float) (quotient : Q → Q) (sql_sum : list Q → float) (cfg : LoopConfig).
Abbreviation exec := (exec rnd quotient sql_sum cfg).
Abbreviation run := (run rnd quotient sql_sum cfg).
Abbreviation admitted := (admit_reservation rnd quotient sql_sum cfg).
Abbreviation cap_of := (get_instance_cap cfg).

(** The guards an admission passed. *)
Definition within (committed : float) (limit : float) : Prop := fl_lt limit committed = false.
Definition room (now : Q) (r : Reservation) (d : ledger) : Prop :=
  let total m := fl_add rnd (fl_add rnd m.1 m.2) (Fin r.(rv_max_usd)) in
  within (total (metrics sql_sum (instance_since r.(rv_instance_id) (utc_day_start quotient now)) d)) (cap_of r.(rv_instance_id))
  ∧ within (total (metrics sql_sum (since (utc_day_start quotient now)) d)) cfg.(lc_global_ceiling_usd).

Lemma admit_Ok now id i cap est ttl d r d' : admitted now id i cap est ttl d = (Ok r, d') →
  ∃ q e, est = Some (Fin q) ∧ (0 < q)%Q ∧ is_nan e = false ∧ e = fl_add rnd (Fin now) (default cfg.(lc_ttl_seconds) ttl)
  ∧ r = mkReservation id i cap q STATE_OPEN now e 0 None "unknown" ∧ d' = d ++ [r]
  ∧ find_reservation id d = None ∧ room now r d.
Proof.
  unfold admit_reservation. rewrite write_Ok. unfold valid_cost. destruct est as [[q| |]|]; try done.
  destruct (Qpositive q) eqn:Hq; [|done]. apply Qpositive_spec in Hq. case_match eqn:H1; [done|]. case_match eqn:H2; [done|].
  case_match eqn:H3; [done|]. apply orb_false_iff in H3 as [Hnan Hid]. intros [= <- <-]. do 2 eexists. split_and!; try done.
  unfold find_reservation. destruct (List.find _ d) as [x|] eqn:Hf; [|done].
  exfalso. apply find_some in Hf. assert (existsb (reservation_is id) d = true) by (apply existsb_exists; by exists x). congruence.
Qed.
Lemma admit_cases now id i cap est ttl d :
  (∃ e, admitted now id i cap est ttl d = (Err e, d)) ∨ (∃ r, admitted now id i cap est ttl d = (Ok r, d ++ [r])).
Proof.
  destruct (admitted now id i cap est ttl d) as [[r|e] d'] eqn:H; [right|left].
  - apply admit_Ok in H as (q & e & _ & _ & _ & _ & _ & -> & _). by exists r.
  - exists e. unfold admit_reservation in H. by rewrite (write_Err _ _ _ _ H).
Qed.

Lemma sweep_evolves now d : ledger_ok d → Forall2 evolves d (reclaim_expired now d).2.
Proof.
  intros [_ Hok]. apply Forall2_fmap_r, Forall_Forall2_diag, Forall_forall. intros r Hr. unfold compose.
  destruct (expired now r) eqn:E; [|by left]. apply andb_true_iff in E as [Ho%bool_decide_eq_true _]. right.
  destruct (Hok r Hr). split_and!; [done..|]. by split.
Qed.

(** A disposal: nothing changes, or an open row is closed with an amount. *)
Definition closed_with (s : state) (usd : Q) (quality : string) (r : Reservation) : Reservation :=
  r <| rv_state := s |> <| rv_actual_usd := Some usd |> <| rv_cost_quality := quality |>.
Lemma settle_cases id a q u d res d' : settle id a q u d = (res, d') →
  (d' = d ∧ ∀ r, res = Ok r → find_reservation id d = Some r ∧ r.(rv_state) = STATE_SETTLED)
  ∨ ∃ r, find_reservation id d = Some r ∧ r.(rv_state) = STATE_OPEN
      ∧ let r' := closed_with STATE_SETTLED (resolved r.(rv_max_usd) a q u).1 (resolved r.(rv_max_usd) a q u).2 r in
        res = Ok r' ∧ d' = set_row id r' d.
Proof.
  unfold settle, write. destruct (find_reservation id d) as [r|] eqn:Hf; [|intros [= <- <-]; by left].
  destruct (rv_state r) eqn:Hs; [|intros [= <- <-]; left; split; [done|by intros ? [= <-]]|intros [= <- <-]; by left..].
  intros H. right. exists r. split; [done|]. split; [done|]. cbv zeta.
  by destruct (resolved _ _ _ _); injection H as <- <-.
Qed.
Lemma release_cases id d res d' : release id d = (res, d') →
  (d' = d ∧ ∀ r, res = Ok r → find_reservation id d = Some r ∧ r.(rv_state) = STATE_RELEASED)
  ∨ ∃ r, find_reservation id d = Some r ∧ r.(rv_state) = STATE_OPEN
      ∧ let r' := closed_with STATE_RELEASED 0 r.(rv_cost_quality) r in res = Ok r' ∧ d' = set_row id r' d.
Proof.
  unfold release, write. destruct (find_reservation id d) as [r|] eqn:Hf; [|intros [= <- <-]; by left].
  destruct (rv_state r) eqn:Hs; [|intros [= <- <-]; by left|intros [= <- <-]; left; split; [done|by intros ? [= <-]]|intros [= <- <-]; by left].
  intros [= <- <-]. right. exists r. split; [done|]. split; [done|]. split; by destruct r.
Qed.
Lemma closed_evolves s usd q r : row_ok r → r.(rv_state) = STATE_OPEN →
  match s with STATE_OPEN => False | STATE_SETTLED => (0 <= usd)%Q | STATE_RELEASED => usd = 0%Q
             | STATE_EXPIRED_UNKNOWN => usd = r.(rv_max_usd) end →
  evolves r (closed_with s usd q r).
Proof.
  intros [Hm _] Ho Hs. right. split; [done|]. split; [by destruct s|]. split; [done|]. split; [done|]. destruct s; cbn; [done|by exists usd|by subst..].
Qed.

(** A transaction closes open rows and appends at most one admitted row. *)
Lemma exec_step c d : ledger_ok d →
  Forall2 evolves d (exec c d)
  ∨ ∃ now r, exec c d = d ++ [r] ∧ row_ok r ∧ r.(rv_state) = STATE_OPEN ∧ r.(rv_created_at) = now
      ∧ find_reservation r.(rv_id) d = None ∧ room now r d.
Proof.
  intros Hd. destruct c as [now|now id i cap est ttl|id a q u|id]; cbn [exec].
  - left. by apply sweep_evolves.
  - destruct (admit_cases now id i cap est ttl d) as [[e ->]|[r H]]; [left; apply row_evolves_refl|]. right. rewrite H. exists now, r.
    apply admit_Ok in H as (q & e & -> & Hq & _ & _ & -> & _ & Hf & Hroom). split_and!; try done.
  - left. destruct (settle id a q u d) as [res d'] eqn:H. destruct (settle_cases _ _ _ _ _ _ _ H) as [[-> _]|(r & Hf & Ho & _ & ->)];
      [apply row_evolves_refl|]. destruct (find_reservation_Some _ _ _ Hf) as [Hin _]. pose proof (ok_rows _ Hd r Hin) as Hr.
    apply (set_row_evolves id d r); [by apply ok_ids|done|]. apply closed_evolves; [done..|]. by apply resolved_nonneg, Hr.
  - left. destruct (release id d) as [res d'] eqn:H. destruct (release_cases _ _ _ _ H) as [[-> _]|(r & Hf & Ho & _ & ->)];
      [apply row_evolves_refl|]. destruct (find_reservation_Some _ _ _ Hf) as [Hin _]. pose proof (ok_rows _ Hd r Hin) as Hr.
    apply (set_row_evolves id d r); [by apply ok_ids|done|]. by apply closed_evolves.
Qed.

Lemma reserve_transactions now id i cap est ttl d :
  (reserve rnd quotient sql_sum cfg now id i cap est ttl d).2 = run [Sweep now; Admit now id i cap est ttl] d.
Proof. done. Qed.

Lemma exec_keeps_ok c d : ledger_ok d → ledger_ok (exec c d).
Proof.
  intros Hd. destruct (exec_step c d Hd) as [He|(now & r & -> & Hr & _ & _ & Hf & _)]; [by eapply evolves_ok|]. split.
  - rewrite map_app, NoDup_app. split_and!; [apply Hd| |apply NoDup_singleton].
    intros x (y & -> & Hy)%list_elem_of_fmap Heq%list_elem_of_singleton. unfold find_reservation in Hf.
    rewrite list_elem_of_In in Hy. pose proof (find_none _ _ Hf y Hy) as Hn. unfold reservation_is in Hn.
    by apply bool_decide_eq_false in Hn.
  - intros x [Hx| ->%list_elem_of_singleton]%elem_of_app; [by apply Hd|done].
Qed.
Lemma run_ok tr d : ledger_ok d → ledger_ok (run tr d).
Proof. revert d. induction tr as [|c tr IH]; intros d Hd; [done|]. apply IH, exec_keeps_ok, Hd. Qed.
Lemma empty_ok : ledger_ok [].
Proof. split; [constructor|set_solver]. Qed.

(** Over any sequence the rows of the start evolve, in place. *)
Lemma row_evolves_trans r1 r2 r3 : evolves r1 r2 → evolves r2 r3 → evolves r1 r3.
Proof.
  intros [->|(Ho & Hn & Hi & Hok)]; [done|]. intros [->|(Ho' & _)]; [by right|done].
Qed.
Lemma run_evolves tr d : ledger_ok d → ∃ l1 l2, run tr d = l1 ++ l2 ∧ Forall2 evolves d l1.
Proof.
  revert d. induction tr as [|c tr IH]; intros d Hd; [exists d, []; rewrite app_nil_r; split; [done|apply row_evolves_refl]|].
  destruct (IH (exec c d) (exec_keeps_ok c d Hd)) as (l1 & l2 & Hrun & He). cbn [run foldl]. fold (run tr (exec c d)). rewrite Hrun.
  destruct (exec_step c d Hd) as [Hs|(now & r & Hs & _)].
  - exists l1, l2. split; [done|]. eapply (Forall2_trans evolves evolves evolves); [|exact Hs|exact He]. apply row_evolves_trans.
  - rewrite Hs in He. apply Forall2_app_inv_l in He as (k1 & k2 & Hk1 & _ & ->). exists k1, (k2 ++ l2). by rewrite app_assoc.
Qed.
Lemma run_find tr d id r : ledger_ok d → find_reservation id d = Some r →
  ∃ r', find_reservation id (run tr d) = Some r' ∧ evolves r r'.
Proof.
  intros Hd Hf. destruct (run_evolves tr d Hd) as (l1 & l2 & -> & He). unfold find_reservation in *. clear Hd.
  induction He as [|x x' d l1 Hx He IH]; [done|]. cbn in Hf |- *.
  assert (reservation_is id x' = reservation_is id x) as -> by (unfold reservation_is; by destruct (evolves_identity _ _ Hx) as [-> _]).
  destruct (reservation_is id x); [injection Hf as ->; by exists x'|by apply IH].
Qed.
End transactions.

(** ** The caps *)

(** A float that is at least, or a bound that is not below, a rational. *)
Definition at_least (x : float) (q : Q) : Prop := match x with Fin y => (q <= y)%Q | Inf n => n = false | NaN => False end.

(** Rounding loses at most a relative and an absolute error and keeps the sign, as a
    double operation and a SUM over a bounded number of rows do. *)
Record sound_rounding (delta eps : Q) (rnd : Q → float) (sql_sum : list Q → float) : Prop := {
  sr_delta : (0 <= delta < 1)%Q;
  sr_eps : (0 <= eps)%Q;
  sr_rnd x : (0 <= x)%Q → at_least (rnd x) ((1 - delta) * x - eps) ∧ at_least (rnd x) 0;
  sr_sum l : Forall (λ x, 0 <= x)%Q l → at_least (sql_sum l) ((1 - delta) * Qsum l - eps) ∧ at_least (sql_sum l) 0;
}.

(** What three roundings leave of an amount. *)
Definition retained (delta : Q) : Q := ((1 - delta) * (1 - delta) * (1 - delta))%Q.
Lemma retained_bounds delta : (0 <= delta < 1)%Q → (0 < retained delta <= 1)%Q.
Proof.
  intros Hd. unfold retained. set (k := (1 - delta)%Q). assert (0 < k <= 1)%Q as Hk by (subst k; lra). clearbody k. clear Hd.
  assert (0 < k * k <= 1)%Q by (split; nra). split; nra.
Qed.

Section caps.
Context (rnd : Q → float) (quotient : Q → Q) (sql_sum : list Q → float) (cfg : LoopConfig) (delta eps : Q).
Context (sound : sound_rounding delta eps rnd sql_sum).

Lemma sum_or_zero_bound l : Forall (λ x, 0 <= x)%Q l →
  at_least (sum_or_zero sql_sum l) ((1 - delta) * Qsum l - eps) ∧ at_least (sum_or_zero sql_sum l) 0.
Proof.
  pose proof (sr_eps _ _ _ _ sound). intros Hl. unfold sum_or_zero. destruct l as [|x l]; [cbn; lra|].
  pose proof (sr_sum _ _ _ _ sound (x :: l) Hl) as [H1 H2]. set (k := (_ * _ - _)%Q) in *. clearbody k.
  destruct (sql_sum _) as [y| |]; [|done..]. unfold sql_real. destruct (fl_eq (Fin y) fl_zero) eqn:E; [|done].
  apply Qeq_bool_iff in E. cbn in *. lra.
Qed.
Lemma fl_add_bound a b x y : at_least a x → at_least a 0 → at_least b y → at_least b 0 →
  at_least (fl_add rnd a b) ((1 - delta) * (x + y) - eps) ∧ at_least (fl_add rnd a b) 0.
Proof.
  pose proof (sr_delta _ _ _ _ sound). destruct a as [a|[]|], b as [b|[]|]; cbn; try done. intros Hx Ha Hy Hb.
  destruct (sr_rnd _ _ _ _ sound (a + b)%Q) as [H1 H2]; [lra|]. split; [|done]. clear H2.
  destruct (rnd (a + b)%Q); cbn in *; [nra|done..].
Qed.

(** An admission that passed a guard: the exact sum stays under the limit. *)
Lemma guard_bound p d q limit c : ledger_ok d → (0 < q)%Q →
  within (fl_add rnd (fl_add rnd (metrics sql_sum p d).1 (metrics sql_sum p d).2) (Fin q)) limit → limit = Fin c →
  (retained delta * (Qsum (map charge (select p d)) + q) <= c + 4 * eps)%Q.
Proof.
  intros Hd Hq Hw ->. unfold metrics in Hw. cbn [fst snd] in Hw.
  assert (∀ r, r ∈ select p d → row_ok r) as Hrows by (intros r [Hr _]%elem_of_select; by apply (ok_rows _ Hd)).
  destruct (sum_or_zero_bound (map spent (select p d))) as [Hs Hs0].
  { apply Forall_forall. intros x (r & -> & Hr)%list_elem_of_fmap. by apply charge_nonneg, Hrows. }
  destruct (sum_or_zero_bound (map outstanding (select p d))) as [Ho Ho0].
  { apply Forall_forall. intros x (r & -> & Hr)%list_elem_of_fmap. by apply charge_nonneg, Hrows. }
  destruct (fl_add_bound _ _ _ _ Hs Hs0 Ho Ho0) as [Hc Hc0].
  destruct (fl_add_bound _ (Fin q) _ q Hc Hc0) as [Ht _]; [cbn; lra..|].
  pose proof (Qsum_plus spent outstanding (select p d)) as Heq. unfold charge at 1.
  pose proof (sr_delta _ _ _ _ sound) as Hdelta. pose proof (sr_eps _ _ _ _ sound) as Heps.
  destruct (fl_add rnd (fl_add _ _ _) _) as [t|n|]; [|destruct n; done|done]. unfold within in Hw. cbn in Hw, Ht.
  apply negb_false_iff, Qle_bool_iff in Hw. rewrite <-Heq.
  set (S := Qsum _) in *. clearbody S. unfold retained. set (k := (1 - delta)%Q) in *.
  assert (0 < k <= 1)%Q as Hk by (subst k; lra). clearbody k.
  generalize dependent (Qsum (map outstanding (select p d))). intros out Ht. clear -Hw Ht Hk Heps Hq.
  assert (k * k <= 1)%Q by nra. assert (k * eps <= eps)%Q by nra. assert (k * k * eps <= eps)%Q by nra.
  assert (0 <= (1 - k * k) * (k * q))%Q by (apply Qmult_le_0_compat; nra). lra.
Qed.

(** A group of reservations, by what never changes of them, that every admission into it
    counted in full. *)
Lemma group_bound (p : Reservation → bool) limit c :
  (∀ r r', same_identity r r' → p r' = p r) → limit = Fin c → (0 <= c)%Q →
  (∀ now r d, ledger_ok d → row_ok r → p r = true → r.(rv_created_at) = now → room rnd quotient sql_sum cfg now r d →
     ∃ q, (∀ x, p x = true → q x = true)
       ∧ within (fl_add rnd (fl_add rnd (metrics sql_sum q d).1 (metrics sql_sum q d).2) (Fin r.(rv_max_usd))) limit) →
  ∀ tr, (retained delta * Qsum (map covered (select p (run rnd quotient sql_sum cfg tr []))) <= c + 4 * eps)%Q.
Proof.
  intros Hp -> Hc Hadm tr. pose proof (sr_delta _ _ _ _ sound) as Hdelta. pose proof (sr_eps _ _ _ _ sound) as Heps.
  assert (0 < retained delta <= 1)%Q as Hk by by apply retained_bounds. clear Hdelta.
  induction tr as [|e tr IH] using rev_ind; [cbn; lra|]. unfold run in *. rewrite foldl_app. cbn [foldl]. set (d := foldl _ _ tr) in *.
  assert (ledger_ok d) as Hd by apply run_ok, empty_ok. clearbody d.
  destruct (exec_step rnd quotient sql_sum cfg e d Hd) as [He|(now & r & -> & Hr & _ & Hnow & _ & Hroom)].
  - apply (evolves_select p) in He; [|done]. eapply Qle_trans; [|exact IH]. apply Qmult_le_l; [by apply Hk|].
    apply evolves_covered_sum; [|done]. intros r [Hr _]%elem_of_select; by apply (ok_rows _ Hd).
  - rewrite select_app, map_app, Qsum_app. destruct (p r) eqn:Hpr; cbn; rewrite Hpr; cbn [Qsum map];
      [|eapply Qle_trans; [|exact IH]; apply Qmult_le_l; [by apply Hk|lra]].
    destruct (Hadm now r d Hd Hr Hpr Hnow Hroom) as (q & Hq & Hw).
    pose proof (guard_bound q d _ _ c Hd (ok_max _ Hr) Hw eq_refl) as Hg.
    pose proof (covered_bounds r Hr) as (_ & _ & Hm).
    assert (Qsum (map covered (select p d)) <= Qsum (map charge (select q d)))%Q as Hle;
      [|eapply Qle_trans; [|exact Hg]; apply Qmult_le_l; [by apply Hk|lra]].
    eapply Qle_trans; [apply (Qsum_select p q covered d); [auto|intros x Hx; by apply covered_bounds, Hd]|].
    apply Qsum_le. intros x [Hx _]%elem_of_select. by apply covered_bounds, Hd.
Qed.

(** The reservations of the UTC day that begins at [day], as the clock was read when they were made. *)
Definition on_day (day : Q) (r : Reservation) : bool :=
  Qeq_bool (utc_day_start quotient r.(rv_created_at)) day && Qle_bool day r.(rv_created_at).

(** With an exact quotient these are the reservations made within the 86400 seconds from [day]. *)
Lemma on_day_exact day r : (∀ now, quotient now = now / 86400)%Q → on_day day r = true →
  (day <= r.(rv_created_at) < day + 86400)%Q.
Proof.
  intros Hq [H1%Qeq_bool_iff H2%Qle_bool_iff]%andb_true_iff. split; [done|]. rewrite <-H1. unfold utc_day_start. rewrite Hq.
  pose proof (Qlt_floor (rv_created_at r / 86400)) as H. rewrite inject_Z_plus in H. rewrite inject_Z_mult.
  assert (rv_created_at r == rv_created_at r / 86400 * 86400)%Q as E by field. rewrite E at 1.
  change (inject_Z 86400) with 86400%Q. change (inject_Z 1) with 1%Q in H. lra.
Qed.

(** The money of one day is under the caps of a ledger. *)
Definition under_caps (day : Q) (d : ledger) : Prop :=
  (∀ i c, get_instance_cap cfg i = Fin c → (0 <= c)%Q →
     (retained delta * Qsum (map covered (select (λ r, of_instance i r && on_day day r) d)) <= c + 4 * eps)%Q)
  ∧ (∀ c, cfg.(lc_global_ceiling_usd) = Fin c → (0 <= c)%Q →
     (retained delta * Qsum (map covered (select (on_day day) d)) <= c + 4 * eps)%Q).
Lemma run_caps tr day : under_caps day (run rnd quotient sql_sum cfg tr []).
Proof.
  assert (∀ now r x, r.(rv_created_at) = now → on_day day r = true → on_day day x = true → since (utc_day_start quotient now) x = true) as Hday.
  { intros now r x <- [H1%Qeq_bool_iff _]%andb_true_iff [_ H2%Qle_bool_iff]%andb_true_iff. apply Qle_bool_iff. by rewrite H1. }
  assert (∀ r r', same_identity r r' → on_day day r' = on_day day r) as Hid.
  { intros r r' (_ & _ & _ & _ & Hc & _). unfold on_day. by rewrite Hc. }
  split.
  - intros i c Hcap Hc. apply (group_bound _ (get_instance_cap cfg i)); [|done..|].
    + intros r r' H. rewrite (Hid r r' H). destruct H as (_ & Hi & _). unfold of_instance. by rewrite Hi.
    + intros now r d _ _ [Hi Hr]%andb_true_iff Hn [Hw _]. apply bool_decide_eq_true in Hi as Hi'. rewrite Hi' in Hw. eexists. split; [|exact Hw].
      intros x [Hix Hx]%andb_true_iff. unfold instance_since. rewrite Hix. by eapply Hday.
  - intros c Hcap Hc. apply (group_bound _ cfg.(lc_global_ceiling_usd)); [done..|].
    intros now r d _ _ Hr Hn [_ Hw]. eexists. split; [|exact Hw]. intros x Hx. by eapply Hday.
Qed.
(** C9: The caps hold under every interleaving: after any sequence of sweeps, admissions, settlements and releases, whatever their clocks and arguments, the money an instance's reservations of one UTC day hold or were charged within their reserved maximum stays under the cap of the instance, and that of all instances under the global ceiling, up to the error of the rounding. Only a provider that bills more than the reserved maximum can exceed them. *)
Theorem daily_caps_hold tr day :
  let d := run rnd quotient sql_sum cfg tr [] in
  (∀ i c, get_instance_cap cfg i = Fin c → (0 <= c)%Q →
     (retained delta * Qsum (map covered (select (λ r, of_instance i r && on_day day r) d)) <= c + 4 * eps)%Q)
  ∧ (∀ c, cfg.(lc_global_ceiling_usd) = Fin c → (0 <= c)%Q →
     (retained delta * Qsum (map covered (select (on_day day) d)) <= c + 4 * eps)%Q).
Proof. apply run_caps. Qed.
End caps.

(** ** Disposal *)

Section disposal.
Context (rnd : Q → float) (quotient : Q → Q) (sql_sum : list Q → float) (cfg : LoopConfig).

(** A charge is final: once a reservation is settled, released or charged by the sweep, no later sequence of transactions changes or removes its row; repeating the disposal it had returns the same row, the other one fails, and neither touches the ledger. In particular what expired is never handed back. *)
Theorem charge_is_final tr d id r a q u :
  ledger_ok d → find_reservation id d = Some r → r.(rv_state) ≠ STATE_OPEN →
  let d' := run rnd quotient sql_sum cfg tr d in
  find_reservation id d' = Some r
  ∧ settle id a q u d' = (if bool_decide (r.(rv_state) = STATE_SETTLED) then Ok r
                          else Err (match r.(rv_state) with STATE_EXPIRED_UNKNOWN => AlreadyExpired | s => NotOpen s end), d')
  ∧ release id d' = (if bool_decide (r.(rv_state) = STATE_RELEASED) then Ok r
                     else Err (match r.(rv_state) with STATE_EXPIRED_UNKNOWN => AlreadyExpired | s => NotOpen s end), d').
Proof.
  intros Hd Hf Hs. cbv zeta. destruct (run_find rnd quotient sql_sum cfg tr d id r Hd Hf) as (r' & Hf' & [->|(? & _)]); [|done].
  unfold settle, release, write. rewrite Hf'. by destruct (rv_state r).
Qed.

Lemma disposed_row d id r s usd q : ledger_ok d → find_reservation id d = Some r → r.(rv_state) = STATE_OPEN →
  match s with STATE_OPEN => False | STATE_SETTLED => (0 <= usd)%Q | STATE_RELEASED => usd = 0%Q
             | STATE_EXPIRED_UNKNOWN => usd = r.(rv_max_usd) end →
  let r' := closed_with s usd q r in
  find_reservation id (set_row id r' d) = Some r' ∧ (charge r' == usd)%Q
  ∧ (∀ id', id' ≠ id → find_reservation id' (set_row id r' d) = find_reservation id' d).
Proof.
  intros Hd Hf Ho Hs. destruct (find_reservation_Some _ _ _ Hf) as [Hin Hid]. pose proof (ok_rows _ Hd r Hin) as Hr. cbv zeta.
  split; [|split].
  - by apply (set_row_find id d r).
  - destruct (closed_evolves s usd q r Hr Ho Hs) as [E|(_ & _ & _ & Hr')]; [by destruct s; rewrite <-E in Ho|].
    pose proof (charge_row _ Hr') as E. rewrite E. destruct s; cbn in *; subst; done.
  - intros id' Hne. by apply set_row_other.
Qed.

(** Disposal is exact: an open reservation settles to the reported amount when that is a finite number, not negative, and the provider reported usage, and to its whole reserved maximum with quality "unknown" otherwise; a release charges nothing. Every other reservation keeps its row. *)
Theorem disposal_exact d id r a q u :
  ledger_ok d → find_reservation id d = Some r → r.(rv_state) = STATE_OPEN →
  (∃ r' d', settle id a q u d = (Ok r', d') ∧ find_reservation id d' = Some r' ∧ r'.(rv_state) = STATE_SETTLED
     ∧ same_identity r r' ∧ (∀ id', id' ≠ id → find_reservation id' d' = find_reservation id' d)
     ∧ ((∀ x, a = Some (Fin x) → (0 <= x)%Q → u = true → (charge r' == x)%Q ∧ r'.(rv_cost_quality) = q)
        ∧ ((u = false ∨ (∀ x, a = Some (Fin x) → (x < 0)%Q)) → (charge r' == r.(rv_max_usd))%Q ∧ r'.(rv_cost_quality) = "unknown")))
  ∧ ∃ r' d', release id d = (Ok r', d') ∧ find_reservation id d' = Some r' ∧ r'.(rv_state) = STATE_RELEASED
     ∧ same_identity r r' ∧ (∀ id', id' ≠ id → find_reservation id' d' = find_reservation id' d) ∧ (charge r' == 0)%Q.
Proof.
  intros Hd Hf Ho. pose proof (ok_max _ (ok_rows _ Hd r (proj1 (find_reservation_Some _ _ _ Hf)))) as Hm. split.
  - destruct (settle id a q u d) as [res d'] eqn:Hs. destruct (settle_cases _ _ _ _ _ _ _ Hs) as [[-> Hok]|(r0 & Hf0 & _ & -> & ->)].
    { exfalso. unfold settle, write in Hs. rewrite Hf, Ho in Hs. destruct (resolved _ _ _ _). injection Hs as <- _.
      destruct (Hok _ eq_refl) as [E _]. rewrite Hf in E. injection E as E. by rewrite E in Ho. }
    assert (r0 = r) as -> by congruence.
    destruct (disposed_row d id r STATE_SETTLED (resolved r.(rv_max_usd) a q u).1 (resolved r.(rv_max_usd) a q u).2 Hd Hf Ho)
      as (H1 & H2 & H3); [by apply resolved_nonneg|].
    eexists _, _. split; [reflexivity|]. split; [exact H1|]. split; [done|]. split; [done|]. split; [exact H3|]. split.
    + intros x -> Hx ->. rewrite H2. unfold resolved, valid_cost, Qnonneg. apply Qle_bool_iff in Hx as Hb. rewrite Hb.
      split; [by apply Q.max_r|done].
    + intros Hbad. rewrite H2. assert (valid_cost Qnonneg (if u then a else None) = None) as E; [|unfold resolved; cbn; by rewrite E].
      destruct u; [|done]. destruct Hbad as [|Hbad]; [done|]. destruct a as [[x| |]|]; try done. cbn. unfold Qnonneg.
      destruct (Qle_bool 0 x) eqn:E; [|done]. apply Qle_bool_iff in E. pose proof (Hbad x eq_refl). lra.
  - destruct (release id d) as [res d'] eqn:Hs. destruct (release_cases _ _ _ _ Hs) as [[-> Hok]|(r0 & Hf0 & _ & -> & ->)].
    { exfalso. unfold release, write in Hs. rewrite Hf, Ho in Hs. injection Hs as <- _.
      destruct (Hok _ eq_refl) as [E _]. rewrite Hf in E. injection E as E. by rewrite E in Ho. }
    assert (r0 = r) as -> by congruence.
    destruct (disposed_row d id r STATE_RELEASED 0%Q r.(rv_cost_quality) Hd Hf Ho eq_refl) as (H1 & H2 & H3).
    by eexists _, _.
Qed.
End disposal.

(** ** Sweep *)

Lemma sweep_charge now r : row_ok r → expired now r = true → (charge (charge_expired r) == charge r)%Q.
Proof.
  intros Hr [Ho%bool_decide_eq_true _]%andb_true_iff. pose proof (charge_row r Hr) as E. rewrite Ho in E. rewrite E.
  destruct Hr as [Hm _]. unfold charge, spent, outstanding, charge_expired. cbn. decide_states. lra.
Qed.

(** A sweep moves no money: it turns exactly the open reservations whose time is up into charges of their maximum, so that what an instance has committed on a day is the same before and after (a report that does not sweep never under-counts), every charged reservation is reported for an alarm, and a second sweep finds nothing. *)
Theorem sweep_moves_no_money now d (cfg : LoopConfig) :
  ledger_ok d →
  let d' := (reclaim_expired now d).2 in
  Forall2 (λ r r', same_identity r r' ∧ (charge r' == charge r)%Q
     ∧ (expired now r = true → r'.(rv_state) = STATE_EXPIRED_UNKNOWN ∧ (unaccounted r' == r.(rv_max_usd))%Q)
     ∧ (expired now r = false → r' = r)) d d'
  ∧ (∀ r, r ∈ (reclaim_expired now d).1 ↔ r ∈ d ∧ expired now r = true)
  ∧ (cfg.(lc_notifier) = true → map (λ a, a.1.1.1) (alarms cfg (reclaim_expired now d).1) = map rv_instance_id (reclaim_expired now d).1)
  ∧ reclaim_expired now d' = ([], d')
  ∧ ∀ i day, (Qsum (map charge (select (instance_since i day) d')) == Qsum (map charge (select (instance_since i day) d)))%Q.
Proof.
  intros [_ Hok]. cbv zeta. split_and!.
  - apply Forall2_fmap_r, Forall_Forall2_diag, Forall_forall. intros r Hr. unfold compose. destruct (expired now r) eqn:E; [|done].
    split; [done|]. split; [by apply (sweep_charge now); auto|]. split; [|done].
    intros _. split; [done|]. unfold unaccounted, charge_expired. cbn. decide_states. done.
  - intros r. unfold reclaim_expired. cbn [fst]. apply elem_of_select.
  - unfold alarms. intros ->. by rewrite map_map.
  - unfold reclaim_expired. cbn [snd]. set (d' := update_where _ _ d). assert (∀ r, r ∈ d' → expired now r = false) as Hno.
    { intros r (x & Hx & ->)%elem_of_update_where. destruct (expired now x) eqn:E; [|done]. unfold expired, charge_expired. cbn. by decide_states. }
    f_equal; [by apply select_none|]. apply update_where_id. intros x Hx. by rewrite Hno.
  - intros i day. unfold reclaim_expired. cbn [snd]. rewrite select_update_where by done.
    assert (∀ r, r ∈ select (instance_since i day) d → row_ok r) as Hs by (intros r [Hr _]%elem_of_select; auto).
    induction (select (instance_since i day) d) as [|r l IH]; [done|]. cbn [update_where map Qsum].
    specialize (IH (λ x Hx, Hs x (list_elem_of_further _ _ _ Hx))). unfold update_where in IH.
    destruct (expired now r) eqn:E; [|lra]. pose proof (sweep_charge now r (Hs r (list_elem_of_here _ _)) E). lra.
Qed.

(** ** Witnesses *)

Lemma exact_sound : sound_rounding 0 0 Fin (λ l, Fin (Qsum l)).
Proof.
  split; [lra|lra|..]; cbn; intros; [split; lra|]. pose proof (Qsum_nonneg l). split; [lra|auto].
Qed.
Definition lb_quotient (now : Q) : Q := (now / 86400)%Q.
Definition lb_trace : list loop_call :=
  [Admit 90000 "a" "render_probe" "replicate.generate" (Some (Fin 6)) None;
   Admit 90001 "b" "render_probe" "replicate.generate" (Some (Fin 6)) None;
   Admit 90002 "c" "render_probe" "model.complete" (Some (Fin 3)) None;
   Settle "c" (Some (Fin 1)) "estimated" true; Sweep 91000].
Definition lb_ledger : ledger := run Fin lb_quotient (λ l, Fin (Qsum l)) default_config lb_trace [].

Lemma daily_caps_hold_witness :
  map rv_id lb_ledger = ["a"; "c"] ∧ map rv_state lb_ledger = [STATE_EXPIRED_UNKNOWN; STATE_SETTLED]
  ∧ (retained 0 * Qsum (map covered (select (λ r, of_instance "render_probe" r && on_day lb_quotient 86400 r) lb_ledger)) <= 10 + 4 * 0)%Q
  ∧ (Qsum (map covered (select (λ r, of_instance "render_probe" r && on_day lb_quotient 86400 r) lb_ledger)) == 7)%Q.
Proof.
  split; [vm_compute; reflexivity|]. split; [vm_compute; reflexivity|]. split; [|vm_compute; reflexivity].
  apply (proj1 (daily_caps_hold Fin lb_quotient (λ l, Fin (Qsum l)) default_config 0 0 exact_sound lb_trace 86400)).
  - reflexivity.
  - discriminate.
Defined.

Lemma charge_is_final_witness :
  find_reservation "a" (run Fin lb_quotient (λ l, Fin (Qsum l)) default_config [Release "a"; Settle "a" (Some (Fin 0)) "exact" true] lb_ledger)
  = find_reservation "a" lb_ledger.
Proof.
  destruct (find_reservation "a" lb_ledger) as [r|] eqn:H; [|vm_compute in H; discriminate].
  apply (charge_is_final Fin lb_quotient (λ l, Fin (Qsum l)) default_config _ lb_ledger "a" r None "" true).
  - apply run_ok, empty_ok.
  - exact H.
  - vm_compute in H. injection H as <-. discriminate.
Defined.

Lemma disposal_exact_witness :
  let d := run Fin lb_quotient (λ l, Fin (Qsum l)) default_config (take 1 lb_trace) [] in
  ∃ r' d', release "a" d = (Ok r', d') ∧ find_reservation "a" d' = Some r' ∧ (charge r' == 0)%Q.
Proof.
  cbv zeta. set (d := run _ _ _ _ _ []). destruct (find_reservation "a" d) as [r|] eqn:H; [|vm_compute in H; discriminate].
  destruct (disposal_exact d "a" r None "" true) as [_ (r' & d' & H1 & H2 & _ & _ & _ & H3)].
  - apply run_ok, empty_ok.
  - exact H.
  - vm_compute in H. by injection H as <-.
  - by exists r', d'.
Defined.

Lemma sweep_moves_no_money_witness :
  let d := run Fin lb_quotient (λ l, Fin (Qsum l)) default_config (take 4 lb_trace) [] in
  (Qsum (map charge (select (instance_since "render_probe" 86400) (reclaim_expired 91000 d).2))
   == Qsum (map charge (select (instance_since "render_probe" 86400) d)))%Q.
Proof.
  cbv zeta. apply (sweep_moves_no_money 91000 (run Fin lb_quotient (λ l, Fin (Qsum l)) default_config (take 4 lb_trace) []) default_config).
  apply run_ok, empty_ok.
Defined.
