(* ===== verification/WebRead.v ===== *)
(** * WebRead: [omniagentos/connectors/web_read.py]

    One bounded public read through the broker's authorization and audit: every hop is
    checked and the connection pinned to the address that was checked.  Taking a URL apart
    and an IP address's properties are the fields of [NetLib]; what the resolver and the
    network answer at each hop, and the scrubbing of a text, are parameters. *)

From Stdlib Require Import Ascii QArith.
From stdpp Require Import pretty.
From S2P Require Import Prelude PyString PyRegex PyJson Records Connectors Grants CapabilityStore Broker BrokerCalls.
Open Scope Z_scope.

(** ** What [urllib.parse] and [ipaddress] answer *)

Record UrlParts := mkUrlParts {
  up_scheme : string;
  up_username : option string;
  up_password : option string;
  up_hostname : option string;
  (** [None]: reading the port raises. *)
  up_port : option (option Z);
  up_path : string;
  up_query : string;
}.
Record Ip := mkIp {
  ip_is_loopback : bool;
  ip_is_link_local : bool;
  ip_is_private : bool;
  ip_is_reserved : bool;
  ip_is_unspecified : bool;
  ip_is_global : bool;
  ip_version6 : bool;
  ip_compressed : string;
}.
(** [None]: a ValueError. *)
Record NetLib := mkNetLib {
  nl_urlsplit : string → option UrlParts;
  (** Scheme, authority, path and query; no fragment. *)
  nl_urlunsplit : string → string → string → string → string;
  nl_urljoin : string → string → option string;
  nl_ip_address : string → option Ip;
}.

Record HopResponse := mkHop {
  hr_status : Z;
  hr_location : option string;
  hr_chunks : list string;
  (** The connection fails while the body is read. *)
  hr_broken : bool;
}.

Definition FETCH_CAPABILITY : string := "web.fetch".
Definition SEARCH_CAPABILITY : string := "web.search".
Definition FETCH_MAX_REDIRECTS : nat := 5.
Definition FETCH_MAX_RESPONSE_BYTES : Z := 1048576.
Definition REDIRECTS : list Z := [301; 302; 303; 307; 308].
Definition SENSITIVE_HEADERS : list string := ["authorization"; "cookie"; "proxy-authorization"].
Definition REGISTRY_PATH : string := "/".
Definition AUDIT_PATH_MAX : nat := 512.

Record PinnedTarget := mkPinned {
  pt_url : string;
  pt_connect_url : string;
  pt_host : string;
  pt_host_header : string;
  pt_address : string;
}.

Record Receipt := mkReceipt {
  rp_url : string;
  rp_resolved_ip : string;
  rp_status_code : Z;
  rp_size_bytes : Z;
  rp_redirect_count : nat;
  rp_redactions : Z;
  rp_truncated : bool;
}.
Record FetchResult := mkFetch { fe_status : Z; fe_ok : bool; fe_receipt : Receipt; fe_content : string }.

(** The arguments of [fetch]. *)
Record FetchRequest := mkFetchRequest {
  fr_url : string;
  fr_granted : option (list string);
  fr_method : string;
  fr_body : option string;
  fr_headers : list (string * string);
  fr_grant_holder : option string;
  fr_agent_id : option string;
  fr_project_id : option string;
}.

(** ** The guard *)

Section guard.
Context (net : NetLib).

(** A public address. *)
Definition refused_ip (address : string) : bool :=
  match net.(nl_ip_address) address with
  | None => true
  | Some ip => ip.(ip_is_loopback) || ip.(ip_is_link_local) || ip.(ip_is_private) || ip.(ip_is_reserved)
               || ip.(ip_is_unspecified) || negb ip.(ip_is_global)
  end.

Definition refused_host (host : string) : bool :=
  let name := rstrip_by (Ascii.eqb ".") (lower (strip host)) in
  if bool_decide (name = "") || bool_decide (name = "localhost") || endswith ".localhost" name then true
  else match net.(nl_ip_address) name with None => false | Some _ => refused_ip name end.

(** [_public_dns]: the resolver's addresses, [None] when it fails. *)
Definition public_dns (answer : option (list string)) : result BrokerDenied (list string) :=
  match answer with
  | None => denied "host_resolution_failed" FETCH_CAPABILITY ""
  | Some records =>
      match sorted_set records with
      | [] => denied "host_resolution_failed" FETCH_CAPABILITY ""
      | addresses => Ok addresses
      end
  end.

(** The address as an authority; it has been read before. *)
Definition literal (address : string) : string :=
  match net.(nl_ip_address) address with
  | Some ip => if ip.(ip_version6) then "[" +:+ ip.(ip_compressed) +:+ "]" else ip.(ip_compressed)
  | None => ""
  end.

(** The address to connect to: the host itself, or an answer when all answers are public. *)
Definition pinned_address (resolver : string → option (list string)) (host : string) : result BrokerDenied string :=
  match net.(nl_ip_address) host with
  | Some _ => Ok host
  | None =>
      addresses ← public_dns (resolver host);
      if existsb refused_ip addresses then denied "ssrf_refused" FETCH_CAPABILITY ""
      else match addresses with a :: _ => Ok a | [] => denied "host_resolution_failed" FETCH_CAPABILITY "" end
  end.

Definition check_url (resolver : string → option (list string)) (url : string) : result BrokerDenied PinnedTarget :=
  match net.(nl_urlsplit) url with
  | None => denied "invalid_url" FETCH_CAPABILITY ""
  | Some parts =>
      let scheme := lower parts.(up_scheme) in
      if negb (bool_decide (scheme ∈ ["http"; "https"])) then denied "unsupported_scheme" FETCH_CAPABILITY ""
      else match parts.(up_username), parts.(up_password) with
      | None, None =>
          match parts.(up_hostname), parts.(up_port) with
          | None, _ | Some "", _ => denied "invalid_url" FETCH_CAPABILITY ""
          | _, None => denied "invalid_url" FETCH_CAPABILITY ""
          | Some host, Some port =>
              if refused_host host then denied "ssrf_refused" FETCH_CAPABILITY ""
              else
                address ← pinned_address resolver host;
                let suffix := match port with Some p => ":" +:+ pretty p | None => "" end in
                let name := if has_char ":" host then "[" +:+ host +:+ "]" else host in
                Ok (mkPinned url
                      (net.(nl_urlunsplit) scheme (literal address +:+ suffix) parts.(up_path) parts.(up_query))
                      host (name +:+ suffix) address)
          end
      | _, _ => denied "invalid_url" FETCH_CAPABILITY ""
      end
  end.

(** Where a call went, without the values in it. *)
Definition audit_facts (digest : string → string) (url : string) : string * string * string :=
  match net.(nl_urlsplit) url with
  | None => ("", "", digest url)
  | Some parts =>
      let host := default "" parts.(up_hostname) in
      let target := match parts.(up_port) with Some (Some p) => host +:+ ":" +:+ pretty p | _ => host end in
      (target, take_str AUDIT_PATH_MAX (or_text parts.(up_path) "/"), digest url)
  end.
End guard.

(** The first megabyte of the body; [None] when reading it raises. *)
Fixpoint bounded_bytes (size : Z) (chunks : list string) (broken : bool) : option (string * bool) :=
  match chunks with
  | [] => if broken then None else Some ("", false)
  | chunk :: chunks =>
      let remaining := FETCH_MAX_RESPONSE_BYTES - size in
      let n := Z.of_nat (String.length chunk) in
      if remaining <=? 0 then Some ("", true)
      else if remaining <? n then Some (take_str (Z.to_nat remaining) chunk, true)
      else match bounded_bytes (size + n) chunks broken with
           | Some (rest, truncated) => Some (chunk +:+ rest, truncated)
           | None => None
           end
  end.

Section fetch.
Context (mc : Machine) (net : NetLib).
Context (registry : option ConnectorRegistry) (rnd : Q → float) (float_of_text : string → option float)
        (float_repr : float → string) (sha256 : string → string)
        (mail_recipients : string → option (list string)) (iso : string → option (bool * Z)).
(** At each hop: the resolver, whether the client can build the request, and the network;
    and the decoding and scrubbing of a body. *)
Context (resolver : nat → string → option (list string)) (builds : nat → Outgoing → bool) (send : nat → Outgoing → option HopResponse)
        (scrub : string → string * Z) (digest : string → string).
Context {S : Type} `{GrantStore S}.
Abbreviation M := (@call_m S).

(** ** The hops *)

Abbreviation Trace := (string * bool)%type.

Definition base_headers (headers : list (string * string)) : list (string * string) :=
  List.filter (λ h, negb (bool_decide (lower h.1 = "host"))) headers.
Definition hop_request (method : string) (headers : list (string * string)) (content : option string) (t : PinnedTarget) :
    Outgoing :=
  mkOutgoing method t.(pt_connect_url) (dict_set "Host" t.(pt_host_header) headers) [] JNull [] None content (Some t.(pt_host)).

Definition finished (t : PinnedTarget) (redirects : nat) (response : HopResponse) : result call_error FetchResult :=
  match bounded_bytes 0 response.(hr_chunks) response.(hr_broken) with
  | None => Err (Raised "HTTPError")
  | Some (raw, truncated) =>
      let '(content, redactions) := scrub raw in
      Ok (mkFetch response.(hr_status) (is_success response.(hr_status))
            (mkReceipt t.(pt_url) t.(pt_address) response.(hr_status) (Z.of_nat (String.length raw)) redirects redactions truncated)
            content)
  end.

(** [hops] iterations of the loop; the outcome and the trace it leaves. *)
Fixpoint fetch_hops (hops redirects : nat) (headers : list (string * string)) (method : string) (content : option string)
    (current : string) (sent : bool) : M (result call_error FetchResult * Trace) :=
  match hops with
  | O => ret (Err (Raised "AssertionError"), (current, sent))
  | Datatypes.S hops =>
      match check_url net (resolver redirects) current with
      | Err d => ret (Err (Denied d), (current, sent))
      | Ok t =>
          let request := hop_request method headers content t in
          if negb (builds redirects request) then ret (Err (Raised "InvalidURL"), (current, sent)) else
          let* _ := emit (EvSend request) in
          match send redirects request with
          | None => ret (lift (denied "transport_error" FETCH_CAPABILITY ""), (current, true))
          | Some response =>
              let location := default "" response.(hr_location) in
              if bool_decide (response.(hr_status) ∈ REDIRECTS) && negb (bool_decide (location = "")) then
                if bool_decide (redirects = FETCH_MAX_REDIRECTS)
                then ret (lift (denied "redirect_limit_exceeded" FETCH_CAPABILITY ""), (current, true))
                else match net.(nl_urljoin) t.(pt_url) location with
                | None => ret (Err (Raised "ValueError"), (current, true))
                | Some next =>
                    if bool_decide (response.(hr_status) ∈ [301; 302; 303]) && bool_decide (method = "POST")
                    then fetch_hops hops (Datatypes.S redirects) headers "GET" None next true
                    else fetch_hops hops (Datatypes.S redirects) headers method content next true
                end
              else ret (finished t redirects response, (current, true))
          end
      end
  end.

Definition fetch_executor (r : FetchRequest) : M (result call_error FetchResult * Trace) :=
  let method := upper r.(fr_method) in
  if negb (bool_decide (method ∈ ["GET"; "POST"]))
  then ret (lift (denied "method_not_allowed" FETCH_CAPABILITY ""), (r.(fr_url), false))
  else if existsb (λ h, bool_decide (lower h.1 ∈ SENSITIVE_HEADERS)) r.(fr_headers)
  then ret (lift (denied "request_headers_refused" FETCH_CAPABILITY ""), (r.(fr_url), false))
  else fetch_hops (FETCH_MAX_REDIRECTS + 1) 0 (base_headers r.(fr_headers)) method r.(fr_body) r.(fr_url) false.

(** ** The audited fetch *)

(** [_audit_row] with the target of this call. *)
Definition web_audit_row_of (cx : AuditContext) (c : Capability) (env_names : list string) (r : FetchRequest)
    (decision reason : string) (status : option Z) (facts : string * string * string) : BrokerCall :=
  audit_row_of mc cx c env_names r.(fr_method) decision reason status facts.2 (default "" r.(fr_agent_id))
    <| bc_path := facts.1.2 |> <| bc_target_host := facts.1.1 |>.
Definition web_audit_row (cx : AuditContext) (c : Capability) (r : FetchRequest) (decision reason : string)
    (status : option Z) (facts : string * string * string) : M bool := λ w,
  match declared_env_names registry c with
  | Err _ => (Ok false, w)
  | Ok env_names =>
      let row := web_audit_row_of cx c env_names r decision reason status facts in
      if mc.(mc_row_written) row
      then (Ok true, mkWorld w.(w_store) w.(w_tokens) (w.(w_events) ++ [EvAudit row])) else (Ok false, w)
  end.

(** The body between the rows: authorization against the standing grant, then the hops. *)
Definition fetch_body (r : FetchRequest) (now later : string) : M (result call_error FetchResult * Trace) := λ w,
  let start := (r.(fr_url), false) in
  let authorized : M Capability :=
    match r.(fr_granted), w.(w_store), r.(fr_grant_holder) with
    | Some _, _, _ => refuse_m "caller_supplied_grant" FETCH_CAPABILITY ""
    | None, Some _, Some (String _ _ as holder) =>
        let* c := store_op (authorize_with_grant registry rnd float_repr sha256 mail_recipients iso
                    (mkGrantCall FETCH_CAPABILITY None None (Some holder) None fl_zero None None r.(fr_agent_id)
                       r.(fr_method) REGISTRY_PATH r.(fr_project_id) true) now later) in
        let* _ := lift_m (lift (validate_request c r.(fr_method) REGISTRY_PATH)) in
        ret c
    | _, _, _ => refuse_m "grant_store_unavailable" FETCH_CAPABILITY ""
    end in
  match authorized w with
  | (Err e, w') => (Ok (Err e, start), w')
  | (Ok _, w') => fetch_executor r w'
  end.

Definition fetch (r : FetchRequest) (audit_context : AuditContext) (now later : string) : M FetchResult :=
  let* cx := lift_m (lift (normalized mc audit_context "")) in
  match audit_capability registry FETCH_CAPABILITY with
  | None => refuse_m "unknown_capability" FETCH_CAPABILITY ""
  | Some c =>
      let row decision reason status url := web_audit_row cx c r decision reason status (audit_facts net digest url) in
      if negb mc.(mc_sink_opens) then refuse_m "audit_unavailable" FETCH_CAPABILITY ""
      else
        let* intent := row "intent" "" None r.(fr_url) in
        if negb (intent : bool) then refuse_m "audit_unavailable" FETCH_CAPABILITY ""
        else
          let* done := fetch_body r now later in
          let '(outcome, (url, sent)) := done in
          match outcome with
          | Err e =>
              let reached := reached_provider e || sent in
              let '(decision, reason) := terminal_decision e in
              let* written := row decision reason None url in
              if negb (written : bool) then refuse_m (audit_failure_reason reached) FETCH_CAPABILITY ""
              else match e with
              | Denied _ => fail e
              | Raised _ => refuse_m (audit_failure_reason reached) FETCH_CAPABILITY ""
              end
          | Ok res =>
              let* written := row "allowed" "" (Some res.(fe_status)) (or_text res.(fe_receipt).(rp_url) url) in
              if negb (written : bool) then refuse_m "audit_finalization_failed" FETCH_CAPABILITY "" else ret res
          end
  end.

(** ** Search *)

(** [min(max(int(limit), 1), 10)] *)
Definition max_results (limit : json) : result call_error Z :=
  match py_int limit with
  | Ok n => Ok (Z.min (Z.max n 1) 10)
  | Err OverflowError => Err (Raised "OverflowError")
  | Err _ => lift (denied "invalid_search_request" SEARCH_CAPABILITY "")
  end.

Definition search (query : string) (granted : option (list string)) (limit : json) (grant_holder agent_id project_id : option string)
    (audit_context : option AuditContext) (now later : string) : M (Z * json) :=
  let* store := (λ w, (Ok w.(w_store), w)) in
  match granted, store, grant_holder with
  | Some _, _, _ => refuse_m "caller_supplied_grant" SEARCH_CAPABILITY ""
  | None, Some _, Some (String _ _ as holder) =>
      match audit_context with
      | Some cx =>
          if bool_decide (cx.(cx_budget_receipt_id) = "") then refuse_m "budget_envelope_required" SEARCH_CAPABILITY ""
          else
            let* n := lift_m (max_results limit) in
            let body := JDict [("query", JStr query); ("max_results", JInt n); ("search_depth", JStr "basic");
                               ("include_raw_content", JBool false)] in
            let* res := call mc registry rnd float_of_text float_repr sha256 mail_recipients iso
                          (mkCallRequest SEARCH_CAPABILITY None "POST" "/search" [] body None None None (Some holder)
                             agent_id None project_id (JBool false)) cx now later in
            ret (res.(rt_status), res.(rt_body))
      | None => refuse_m "budget_envelope_required" SEARCH_CAPABILITY ""
      end
  | _, _, _ => refuse_m "grant_store_unavailable" SEARCH_CAPABILITY ""
  end.
End fetch.
