(* ===== verification/WebReadSpec.v ===== *)
(** * WebReadSpec: what a web read guarantees

    Every connection of a fetch goes to an address its guard found public, under a
    standing grant and between two audit rows, over at most six hops, and at most a
    megabyte comes back. *)

From Stdlib Require Import Ascii QArith.
From stdpp Require Import pretty.
From S2P Require Import Prelude PyString PyRegex PyJson Records Connectors Grants CapabilityStore Broker BrokerCalls BrokerFixtures BrokerSpec WebRead.
Open Scope Z_scope.

(** ** The body *)

Definition joined (chunks : list string) : string := foldr (λ a b, a +:+ b) "" chunks.

Lemma take_str_length n s : (n ≤ String.length s)%nat → String.length (take_str n s) = n.
Proof. revert s. induction n as [|n IH]; intros [|c s] H; cbn in *; [done..|lia|]. f_equal. apply IH. lia. Qed.
Lemma take_str_app n s t : (n ≤ String.length s)%nat → take_str n (s +:+ t) = take_str n s.
Proof. revert s. induction n as [|n IH]; intros [|c s] H; cbn in *; [done..|lia|]. f_equal. apply IH. lia. Qed.
Lemma take_str_over n s t : (String.length s ≤ n)%nat → take_str n (s +:+ t) = s +:+ take_str (n - String.length s) t.
Proof.
  revert s. induction n as [|n IH]; intros [|c s] H; cbn in *; [done|lia|done|].
  rewrite (string_app_cons c s t). cbn. rewrite IH by lia. done.
Qed.
Lemma take_str_0 s : take_str 0 s = "".
Proof. by destruct s. Qed.

(** What is kept is the prefix of the body that fits. *)
Lemma bounded_prefix size chunks broken raw t : 0 ≤ size ≤ FETCH_MAX_RESPONSE_BYTES → bounded_bytes size chunks broken = Some (raw, t) →
  raw = take_str (Z.to_nat (FETCH_MAX_RESPONSE_BYTES - size)) (joined chunks)
  ∧ size + Z.of_nat (String.length raw) ≤ FETCH_MAX_RESPONSE_BYTES
  ∧ (t = false → raw = joined chunks ∧ broken = false).
Proof.
  revert size raw. induction chunks as [|c chunks IH]; intros size raw Hs; cbn [bounded_bytes joined foldr].
  - destruct broken; [done|]. intros [= <- <-]. split_and!; [by destruct (Z.to_nat _)|cbn; lia|done].
  - set (rem := FETCH_MAX_RESPONSE_BYTES - size) in *. destruct (Z.leb_spec rem 0) as [Hr|Hr].
    { intros [= <- <-]. replace rem with 0 by lia. split_and!; [by rewrite take_str_0|cbn; lia|done]. }
    destruct (Z.ltb_spec rem (Z.of_nat (String.length c))) as [Hl|Hl].
    + intros [= <- <-]. rewrite take_str_app by lia. split_and!; [done| |done]. rewrite take_str_length by lia. lia.
    + destruct (bounded_bytes _ chunks broken) as [[rest t']|] eqn:Hb; [|done]. intros [= <- <-].
      apply IH in Hb as (-> & Hlen & Ht); [|lia]. rewrite take_str_over by lia. split_and!.
      * do 2 f_equal. lia.
      * rewrite string_length_app. lia.
      * intros ->. destruct (Ht eq_refl) as [E ->]. by rewrite E.
Qed.

(** ** The guard *)

Section guard.
Context (net : NetLib).
Abbreviation refused := (refused_ip net).

(** The form of a host the guard compares. *)
Definition host_name (host : string) : string := rstrip_by (Ascii.eqb ".") (lower (strip host)).
(** A host that is an address whose text reads otherwise once the guard has lowered and
    stripped it, which is the text it judges. *)
Definition reads_otherwise (host : string) : Prop :=
  is_Some (net.(nl_ip_address) host)
  ∧ (net.(nl_ip_address) (host_name host) = None ∨ refused (host_name host) = false ∧ refused host = true).
Lemma reads_otherwise_strips host : reads_otherwise host → host_name host ≠ host.
Proof. intros [[ip Hip] Hor] E. rewrite E in Hor. destruct Hor as [?|[? ?]]; congruence. Qed.

(** What the guard found of a target. *)
Record public_target (resolver : string → option (list string)) (url : string) (t : PinnedTarget) : Prop := {
  pb_url : t.(pt_url) = url;
  pb_address : refused t.(pt_address) = false ∨ t.(pt_address) = t.(pt_host) ∧ reads_otherwise t.(pt_host);
  pb_answer : t.(pt_address) = t.(pt_host)
    ∨ ∃ answers, resolver t.(pt_host) = Some answers ∧ t.(pt_address) ∈ answers ∧ ∀ a, a ∈ answers → refused a = false;
  pb_host : refused_host net t.(pt_host) = false;
  pb_parts : ∃ parts port, net.(nl_urlsplit) url = Some parts ∧ lower parts.(up_scheme) ∈ ["http"; "https"]
    ∧ parts.(up_username) = None ∧ parts.(up_password) = None ∧ parts.(up_hostname) = Some t.(pt_host) ∧ parts.(up_port) = Some port
    ∧ t.(pt_connect_url) = net.(nl_urlunsplit) (lower parts.(up_scheme))
        (literal net t.(pt_address) +:+ match port with Some p => ":" +:+ pretty p | None => "" end)
        parts.(up_path) parts.(up_query);
}.

Lemma check_url_Ok resolver url t : check_url net resolver url = Ok t → public_target resolver url t.
Proof.
  unfold check_url. destruct (nl_urlsplit net url) as [parts|] eqn:Hp; [|done].
  case_bool_decide as Hscheme; cbn [negb]; [|done]. destruct (up_username parts) eqn:Hu, (up_password parts) eqn:Hpw; try done.
  destruct (up_hostname parts) as [[|ch h]|] eqn:Hh; [done| |done]. set (host := String ch h) in *.
  destruct (up_port parts) as [port|] eqn:Hport; [|done]. destruct (refused_host net host) eqn:Hr; [done|].
  intros (a & Ha & [= <-])%bind_Ok. unfold pinned_address in Ha.
  assert (Hparts : ∃ parts0 port0, nl_urlsplit net url = Some parts0 ∧ lower parts0.(up_scheme) ∈ ["http"; "https"]
    ∧ parts0.(up_username) = None ∧ parts0.(up_password) = None ∧ parts0.(up_hostname) = Some host ∧ parts0.(up_port) = Some port0
    ∧ net.(nl_urlunsplit) (lower parts.(up_scheme)) (literal net a +:+ match port with Some p => ":" +:+ pretty p | None => "" end)
        parts.(up_path) parts.(up_query)
      = net.(nl_urlunsplit) (lower parts0.(up_scheme)) (literal net a +:+ match port0 with Some p => ":" +:+ pretty p | None => "" end)
        parts0.(up_path) parts0.(up_query)) by by exists parts, port.
  destruct (nl_ip_address net host) as [ip|] eqn:Hip.
  - injection Ha as <-. split; cbn; [done| |by left|done|exact Hparts].
    destruct (refused host) eqn:Href; [right|by left]. split; [done|]. split; [by eexists|].
    unfold refused_host in Hr. fold (host_name host) in Hr. destruct (nl_ip_address net (host_name host)); [right|by left].
    by destruct (bool_decide _ || bool_decide _ || endswith _ _).
  - apply bind_Ok in Ha as (answers & Hdns & Ha). unfold public_dns in Hdns. destruct (resolver host) as [records|] eqn:Hres; [|done].
    destruct (existsb (refused) answers) eqn:Hex; [done|]. destruct answers as [|x answers]; [done|]. injection Ha as <-.
    assert (sorted_set records = x :: answers) as Hset by (revert Hdns; by destruct (sorted_set records); intros ?; simplify_eq/=).
    assert (∀ b, b ∈ x :: answers → refused b = false) as Hall.
    { intros b Hb. apply not_true_iff_false. intros Hb'. apply not_true_iff_false in Hex. apply Hex, existsb_exists.
      exists b. by rewrite <-list_elem_of_In. }
    assert (∀ b, b ∈ records ↔ b ∈ x :: answers) as Hmem by (intros b; by rewrite <-Hset, elem_of_id_set).
    split; cbn; [done|left; apply Hall; set_solver| |done|exact Hparts].
    right. exists records. split; [done|]. split; [apply Hmem; set_solver|]. intros b Hb. by apply Hall, Hmem.
Qed.
End guard.

(** ** The hops *)

Section fetches.
Context (mc : Machine) (net : NetLib).
Context (registry : option ConnectorRegistry) (rnd : Q → float)
        (float_repr : float → string) (sha256 : string → string)
        (mail_recipients : string → option (list string)) (iso : string → option (bool * Z)).
Context (resolver : nat → string → option (list string)) (builds : nat → Outgoing → bool) (send : nat → Outgoing → option HopResponse)
        (scrub : string → string * Z) (digest : string → string).
Context {S : Type} `{GrantStore S}.
Implicit Types (w : World S) (r : FetchRequest).
Abbreviation M := (@call_m S).
Abbreviation hops := (fetch_hops net resolver builds send scrub (S := S)).
Abbreviation executor := (fetch_executor net resolver builds send scrub (S := S)).
Abbreviation body := (fetch_body net registry rnd float_repr sha256 mail_recipients iso resolver builds send scrub (S := S)).
Abbreviation fetched := (fetch mc net registry rnd float_repr sha256 mail_recipients iso resolver builds send scrub digest (S := S)).

(** One hop of a fetch: to a target the guard returned at that hop. *)
Definition hop_event (r : FetchRequest) (e : event) : Prop :=
  ∃ n url t method content, (n ≤ FETCH_MAX_REDIRECTS)%nat ∧ check_url net (resolver n) url = Ok t ∧ method ∈ ["GET"; "POST"]
  ∧ e = EvSend (hop_request method (base_headers r.(fr_headers)) content t).

(** What a result says about its last hop. *)
Definition result_ok (res : FetchResult) (evs : list event) : Prop :=
  ∃ n t request response, (n ≤ FETCH_MAX_REDIRECTS)%nat ∧ last evs = Some (EvSend request) ∧ send n request = Some response
  ∧ check_url net (resolver n) res.(fe_receipt).(rp_url) = Ok t ∧ request.(out_url) = t.(pt_connect_url)
  ∧ finished scrub t n response = Ok res.

Lemma hops_cases r k n method content current sent w res w' :
  (k + n = FETCH_MAX_REDIRECTS + 1)%nat → method ∈ ["GET"; "POST"] →
  hops k n (base_headers r.(fr_headers)) method content current sent w = (res, w') →
  w'.(w_store) = w.(w_store) ∧ ∃ evs outcome url, w'.(w_events) = w.(w_events) ++ evs ∧ (length evs ≤ k)%nat ∧ Forall (hop_event r) evs
  ∧ res = Ok (outcome, (url, sent || negb (bool_decide (evs = [])))) ∧ ∀ a, outcome = Ok a → result_ok a evs ∧ a.(fe_receipt).(rp_url) = url.
Proof.
  revert n method content current sent w. induction k as [|k IH]; intros n method content current sent w Hn Hm; cbn [fetch_hops].
  { intros [= <- <-]. split; [done|]. exists [], (Err (Raised "AssertionError")), current. by rewrite app_nil_r, orb_false_r. }
  destruct (check_url net (resolver n) current) as [t|d] eqn:Hc.
  2: { intros [= <- <-]. split; [done|]. exists [], (Err (Denied d)), current. rewrite app_nil_r, orb_false_r. split_and!; try done. cbn. lia. }
  set (request := hop_request method (base_headers (fr_headers r)) content t).
  destruct (builds n request); cbn [negb].
  2: { intros [= <- <-]. split; [done|]. exists [], (Err (Raised "InvalidURL")), current. rewrite app_nil_r, orb_false_r. split_and!; try done. cbn. lia. }
  intros [(e & [=] & _)|(u & w1 & [= _ Hw1] & Hr)]%bind_cases.
  assert (hop_event r (EvSend request)) as Hev.
  { exists n, current, t, method, content. split_and!; [lia|done..]. }
  assert (Hlast : ∀ outcome, ret (outcome, (current, true)) w1 = (res, w') → (∀ a, outcome = Ok a → result_ok a [EvSend request] ∧ a.(fe_receipt).(rp_url) = current) →
    w'.(w_store) = w.(w_store) ∧ ∃ evs outcome url, w'.(w_events) = w.(w_events) ++ evs ∧ (length evs ≤ Datatypes.S k)%nat ∧ Forall (hop_event r) evs
    ∧ res = Ok (outcome, (url, sent || negb (bool_decide (evs = [])))) ∧ ∀ a, outcome = Ok a → result_ok a evs ∧ a.(fe_receipt).(rp_url) = url).
  { intros outcome [= <- <-] Hok. rewrite <-Hw1. split; [done|]. exists [EvSend request], outcome, current.
    rewrite orb_true_r. split_and!; [done|cbn; lia|by constructor|done|done]. }
  destruct (send n request) as [response|] eqn:Hs; [|by apply (Hlast _ Hr)].
  destruct (bool_decide (hr_status response ∈ REDIRECTS) && negb (bool_decide (default "" (hr_location response) = ""))).
  - case_bool_decide as Hmax; [by apply (Hlast _ Hr)|]. destruct (nl_urljoin net (pt_url t) _) as [next|]; [|by apply (Hlast _ Hr)].
    assert (∃ method' content', method' ∈ ["GET"; "POST"]
      ∧ hops k (Datatypes.S n) (base_headers (fr_headers r)) method' content' next true w1 = (res, w')) as (m' & c' & Hm' & Hr').
    { destruct (bool_decide (hr_status response ∈ [301; 302; 303]) && bool_decide (method = "POST")); eexists _, _; (split; [|exact Hr]); [set_solver|done]. }
    apply IH in Hr' as (Hst & evs & outcome & url & He & Hl & HF & -> & Ho); [|lia|done]. rewrite <-Hw1 in *. split; [done|].
    exists (EvSend request :: evs), outcome, url. cbn in *. rewrite He, <-app_assoc. split_and!; [done|lia|by constructor| |].
    + by rewrite orb_true_r.
    + intros a Ha. destruct (Ho a Ha) as [(n' & t' & q & resp & H1 & H2 & H3) Hu]. split; [|done]. exists n', t', q, resp. split; [done|].
      split; [|done]. by destruct evs.
  - apply (Hlast _ Hr). intros a Ha. assert (a.(fe_receipt).(rp_url) = current) as Hu.
    { unfold finished in Ha. destruct (bounded_bytes _ _ _) as [[raw tr]|]; [|done]. destruct (scrub raw). injection Ha as <-. cbn.
      revert Hc. unfold check_url. repeat case_match; try done; by intros (? & _ & [= <-])%bind_Ok. }
    split; [|done]. exists n, t, request, response. rewrite Hu. split_and!; try done. lia.
Qed.

(** The hops of a fetch, and who let them happen. *)
Definition standing (r : FetchRequest) (store : option S) : Prop :=
  ∃ holder st stored c, r.(fr_granted) = None ∧ r.(fr_grant_holder) = Some holder ∧ holder ≠ "" ∧ store = Some st
  ∧ gs_get_grant holder st = GotList stored ∧ FETCH_CAPABILITY ∈ stored
  ∧ (∃ reg, registry = Some reg ∧ Connectors.capability reg FETCH_CAPABILITY = Ok c)
  ∧ validate_request c r.(fr_method) REGISTRY_PATH = Ok tt.

Record body_run (r : FetchRequest) w (res : result call_error (result call_error FetchResult * (string * bool))) w'
    (evs : list event) (outcome : result call_error FetchResult) (url : string) : Prop := {
  br_store : w'.(w_store) = w.(w_store);
  br_events : w'.(w_events) = w.(w_events) ++ evs;
  br_result : res = Ok (outcome, (url, negb (bool_decide (evs = []))));
  br_length : (length evs ≤ FETCH_MAX_REDIRECTS + 1)%nat;
  br_hops : Forall (hop_event r) evs;
  br_headers : evs ≠ [] → Forall (λ h, lower h.1 ∉ SENSITIVE_HEADERS) r.(fr_headers);
  br_standing : evs ≠ [] → standing r w.(w_store);
  br_ok : ∀ a, outcome = Ok a → result_ok a evs ∧ a.(fe_receipt).(rp_url) = url;
}.

Lemma executor_cases r w res w' : executor r w = (res, w') → ∃ evs outcome url,
  w'.(w_store) = w.(w_store) ∧ w'.(w_events) = w.(w_events) ++ evs ∧ res = Ok (outcome, (url, negb (bool_decide (evs = []))))
  ∧ (length evs ≤ FETCH_MAX_REDIRECTS + 1)%nat ∧ Forall (hop_event r) evs
  ∧ (evs ≠ [] → Forall (λ h, lower h.1 ∉ SENSITIVE_HEADERS) r.(fr_headers))
  ∧ ∀ a, outcome = Ok a → result_ok a evs ∧ a.(fe_receipt).(rp_url) = url.
Proof.
  unfold fetch_executor. case_bool_decide as Hm; cbn [negb].
  2: { intros [= <- <-]. eexists [], _, _. rewrite app_nil_r. split_and!; first [done|cbn; lia]. }
  destruct (existsb _ (fr_headers r)) eqn:Hh.
  { intros [= <- <-]. eexists [], _, _. rewrite app_nil_r. split_and!; first [done|cbn; lia]. }
  intros (Hst & evs & outcome & url & He & Hl & HF & -> & Ho)%hops_cases; [|done..]. exists evs, outcome, url. split_and!; try done.
  intros _. apply Forall_forall. intros h Hin Hs. apply not_true_iff_false in Hh. apply Hh, existsb_exists. exists h.
  rewrite <-list_elem_of_In, bool_decide_eq_true. done.
Qed.

Lemma body_cases r now later w res w' : body r now later w = (res, w') → ∃ evs outcome url, body_run r w res w' evs outcome url.
Proof.
  unfold fetch_body. set (authorized := match fr_granted r with Some _ => _ | None => _ end : M Capability).
  assert (Ha : ∀ a w1, authorized w = (a, w1) → w1.(w_store) = w.(w_store) ∧ w1.(w_events) = w.(w_events)
    ∧ ∀ c, a = Ok c → standing r w.(w_store)).
  { intros a w1. subst authorized. destruct (fr_granted r) eqn:Hg; [by intros [= <- <-]|].
    destruct (w_store w) as [st|] eqn:Hst; [|by intros [= <- <-]].
    destruct (fr_grant_holder r) as [[|ch h]|] eqn:Hh; [by intros [= <- <-]| |by intros [= <- <-]].
    intros [(e & (He & _ & Hf)%store_op_quiet & ->)|(c & w2 & (He & _ & Hf)%store_op_quiet & Hr)]%bind_cases;
      unfold authorize_with_grant in Hf; rewrite Hst in Hf; cbn [gc_grant_holder gc_granted gc_grant_id] in Hf; injection Hf as Hf Hs2.
    { split_and!; [done..|by intros]. }
    destruct (gs_get_grant _ st) as [| | |stored] eqn:Hget; try done. apply authorize_Ok in Hf as (Hreg & Hin & _ & _).
    apply bind_cases in Hr as [(e & [= _ <-] & ->)|(u & w3 & [= Hv <-] & [= <- <-])]; [by rewrite He|].
    split_and!; [done..|]. intros _ _. apply lift_Ok in Hv. destruct u. by exists (String ch h), st, stored, c. }
  destruct (authorized w) as [[c|e] w1] eqn:Haw; destruct (Ha _ _ eq_refl) as (Hs & He & Hst).
  - intros (evs & outcome & url & Hs' & He' & -> & Hl & HF & Hh & Ho)%executor_cases. exists evs, outcome, url.
    split; [congruence|congruence|done..| |done]. intros _. by eapply Hst.
  - intros [= <- <-]. exists [], (Err e), (fr_url r). split; [done|by rewrite app_nil_r|done|cbn; lia|done..].
Qed.

(** ** The audited fetch *)

Definition web_row (r : FetchRequest) (cx : AuditContext) (c : Capability) (names : list string)
    (v : string * string * option Z) (url : string) : BrokerCall :=
  web_audit_row_of mc cx c names r v.1.1 v.1.2 v.2 (audit_facts net digest url).
(** The verdict of the closing row, and what a failure to write it is called. *)
Definition fetch_verdict (o : result call_error FetchResult) : string * string * option Z :=
  match o with Ok a => ("allowed", "", Some a.(fe_status)) | Err e => (terminal_decision e, None) end.
Definition fetch_reached (o : result call_error FetchResult) (evs : list event) : bool :=
  match o with Ok _ => true | Err e => reached_provider e || negb (bool_decide (evs = [])) end.
Definition fetch_answer (o : result call_error FetchResult) : result call_error FetchResult :=
  match o with Err (Raised _) => Err (Denied (mkDenied "audit_finalization_failed" FETCH_CAPABILITY "")) | _ => o end.

Lemma web_row_or_refuse {A} cx c r decision reason status facts why cap (k : M A) w res w' :
  (let* written := web_audit_row mc registry cx c r decision reason status facts in
   if negb (written : bool) then refuse_m why cap "" else k) w = (res, w') →
  (w' = w ∧ res = Err (Denied (mkDenied why cap "")))
  ∨ (∃ names, declared_env_names registry c = Ok names
       ∧ k (after w (web_audit_row_of mc cx c names r decision reason status facts)) = (res, w')).
Proof.
  unfold web_audit_row, bind_m. destruct (declared_env_names registry c) as [names|]; [|intros [= <- <-]; by left].
  destruct (mc_row_written mc _); [|intros [= <- <-]; by left]. intros Hk. right. by exists names.
Qed.

(** A fetch is refused without a trace, or its hops come after the intent row and before
    the closing row, which is missing only when the fetch says so. *)
Lemma fetch_cases r cx now later w res w' : fetched r cx now later w = (res, w') →
  (w' = w ∧ ∃ d, res = Err (Denied d))
  ∨ ∃ cx' c names w1 w2 evs outcome url,
      declared_env_names registry c = Ok names
      ∧ w1 = after w (web_row r cx' c names ("intent", "", None) r.(fr_url))
      ∧ body_run r w1 (Ok (outcome, (url, negb (bool_decide (evs = []))))) w2 evs outcome url
      ∧ ((w' = after w2 (web_row r cx' c names (fetch_verdict outcome) url) ∧ res = fetch_answer outcome)
         ∨ (w' = w2 ∧ res = Err (Denied (mkDenied (audit_failure_reason (fetch_reached outcome evs)) FETCH_CAPABILITY "")))).
Proof.
  unfold fetch. intros [(e & [= He <-] & ->)|(cx' & w1 & [= _ <-] & Hr)]%bind_cases.
  { left. split; [done|]. destruct (normalized mc cx "") as [|d]; [done|]. injection He as <-. by exists d. }
  destruct (audit_capability registry FETCH_CAPABILITY) as [c|]; [|injection Hr as <- <-; left; by eauto]. cbv zeta in Hr.
  destruct (mc_sink_opens mc); cbn [negb] in Hr; [|injection Hr as <- <-; left; by eauto].
  apply web_row_or_refuse in Hr as [[-> ->]|(names & Hn & Hr)]; [left; by eauto|]. right.
  set (w1 := after w _) in *. apply bind_cases in Hr as [(e & Hb & _)|([outcome [url sent]] & w2 & Hb & Hr)];
    destruct (body_cases _ _ _ _ _ _ Hb) as (evs & o & u & Hrun); [discriminate (br_result _ _ _ _ _ _ _ Hrun)|].
  pose proof (br_result _ _ _ _ _ _ _ Hrun) as Hres. injection Hres as -> -> ->.
  exists cx', c, names, w1, w2, evs, o, u. split; [done|]. split; [done|]. split; [exact Hrun|].
  assert (Hclose : ∀ k why, why = audit_failure_reason (fetch_reached o evs) → (∀ w, k w = (fetch_answer o, w)) → ∀ url, url = u →
    (let* written := web_audit_row mc registry cx' c r (fetch_verdict o).1.1 (fetch_verdict o).1.2 (fetch_verdict o).2 (audit_facts net digest url) in
     if negb (written : bool) then refuse_m why FETCH_CAPABILITY "" else k) w2 = (res, w') →
    (w' = after w2 (web_row r cx' c names (fetch_verdict o) u) ∧ res = fetch_answer o)
    ∨ (w' = w2 ∧ res = Err (Denied (mkDenied (audit_failure_reason (fetch_reached o evs)) FETCH_CAPABILITY "")))).
  { intros k why -> Hk url -> [[-> ->]|(names' & Hn' & Hr')]%web_row_or_refuse; [by right|]. left. rewrite Hk in Hr'.
    injection Hr' as <- <-. rewrite Hn in Hn'. by injection Hn' as <-. }
  destruct o as [a|e].
  - apply (Hclose (ret a) _ eq_refl (λ w, eq_refl) (or_text a.(fe_receipt).(rp_url) u)); [|exact Hr].
    destruct (br_ok _ _ _ _ _ _ _ Hrun a eq_refl) as [_ ->]. unfold or_text. apply Tauto.if_same.
  - cbn [fetch_verdict fetch_reached] in Hclose |- *. destruct (terminal_decision e) as [decision reason] eqn:Ht.
    refine (Hclose _ _ eq_refl _ u eq_refl Hr). intros w0. by destruct e.
Qed.

(** The request of a hop: aimed at the checked address, naming the real host. *)
Definition pinned_request (r : FetchRequest) (t : PinnedTarget) (request : Outgoing) : Prop :=
  request.(out_url) = t.(pt_connect_url) ∧ request.(out_sni) = Some t.(pt_host)
  ∧ request.(out_headers) = dict_set "Host" t.(pt_host_header) (base_headers r.(fr_headers))
  ∧ request.(out_method) ∈ ["GET"; "POST"] ∧ request.(out_cert) = None.


Lemma fetch_events r cx now later w res w' new : fetched r cx now later w = (res, w') → w'.(w_events) = w.(w_events) ++ new →
  w'.(w_store) = w.(w_store) ∧ ∃ before evs tail, new = map EvAudit before ++ evs ++ map EvAudit tail
    ∧ (length evs ≤ FETCH_MAX_REDIRECTS + 1)%nat ∧ Forall (hop_event r) evs
    ∧ (evs ≠ [] → before ≠ [] ∧ Forall (λ h, lower h.1 ∉ SENSITIVE_HEADERS) r.(fr_headers) ∧ standing r w.(w_store)).
Proof.
  intros [[-> _]|(cx' & c & names & w1 & w2 & evs & o & u & _ & -> & Hrun & Hend)]%fetch_cases Hnew.
  { split; [done|]. rewrite <-(app_nil_r (w_events w)) in Hnew at 1. apply app_inv_head in Hnew as <-. exists [], [], []. cbn. split_and!; [done|lia|done..]. }
  destruct Hrun as [Hst Hev _ Hlen Hhops Hh Hs _]. cbn [w_store w_events after] in *. set (row := web_row _ _ _ _ _ _) in *.
  assert (∃ tail, w'.(w_store) = w2.(w_store) ∧ w'.(w_events) = w2.(w_events) ++ map EvAudit tail) as (tail & Hw & He).
  { destruct Hend as [[-> _]|[-> _]]; [by eexists [_]|exists []; by rewrite app_nil_r]. }
  split; [congruence|]. exists [row], evs, tail. rewrite He, Hev, <-!app_assoc in Hnew. apply app_inv_head in Hnew as <-.
  split; [done|]. split; [done|]. split; [done|]. intros Hne. split; [done|]. split; [by apply Hh|by apply Hs].
Qed.

Lemma hop_event_send r e : hop_event r e → is_send e = true.
Proof. by intros (? & ? & ? & ? & ? & _ & _ & _ & ->). Qed.
Lemma select_sends r before evs tail : Forall (hop_event r) evs →
  select is_send (map EvAudit before ++ evs ++ map EvAudit tail) = evs.
Proof.
  intros Hev. assert (∀ l, select is_send (map EvAudit l) = []) as Hno by (intros l; apply select_none; by intros ? (? & -> & _)%list_elem_of_fmap).
  rewrite !select_app, !Hno, app_nil_r. clear Hno. unfold select. induction Hev as [|e evs He _ IH]; [done|].
  cbn in *. by rewrite (hop_event_send r e He), IH.
Qed.

(** C18: Egress of a web read is public: whatever a fetch is asked, whatever the name server and the servers answer at each hop, it makes at most six requests, each of them to the literal of an address the guard read at that very hop as public (the host itself, or one answer of a resolution all of whose answers are public), with one exception: a host that is written as an address and reads otherwise once the guard has lowered it and stripped its spaces and trailing dots, the text the guard judges, is pinned although it may not be public. Each names the real host in the Host header and for the certificate, with GET or POST, no user information and none of the credential headers; and there is a request at all only under a standing grant of the store that holds web.fetch. The store is not changed. *)
Theorem egress_is_public r cx now later w res w' new :
  fetched r cx now later w = (res, w') → w'.(w_events) = w.(w_events) ++ new →
  w'.(w_store) = w.(w_store) ∧ (length (select is_send new) ≤ 6)%nat
  ∧ (∀ e, e ∈ new → is_audit e = false → is_send e = true)
  ∧ ∀ request, EvSend request ∈ new →
      standing r w.(w_store) ∧ Forall (λ h, lower h.1 ∉ SENSITIVE_HEADERS) r.(fr_headers)
      ∧ ∃ n url t, (n ≤ 5)%nat ∧ public_target net (resolver n) url t ∧ pinned_request r t request.
Proof.
  intros Hf Hnew. destruct (fetch_events _ _ _ _ _ _ _ _ Hf Hnew) as (Hst & before & evs & tail & -> & Hlen & Hev & Hs).
  rewrite (select_sends r before evs tail Hev). split_and!; [done|exact Hlen| |].
  - intros e [(? & -> & _)%list_elem_of_fmap|[He|(? & -> & _)%list_elem_of_fmap]%elem_of_app]%elem_of_app Ha; [done| |done].
    rewrite Forall_forall in Hev. by eapply hop_event_send, Hev.
  - intros request Hin. assert (EvSend request ∈ evs) as Hr.
    { apply elem_of_app in Hin as [(? & [=] & _)%list_elem_of_fmap|[He|(? & [=] & _)%list_elem_of_fmap]%elem_of_app]. done. }
    destruct Hs as (_ & Hh & Hst'); [by intros ->; apply not_elem_of_nil in Hr|]. split_and!; [done..|].
    rewrite Forall_forall in Hev. destruct (Hev _ Hr) as (n & url & t & m & ct & Hn & Hc & Hm & [= ->]). exists n, url, t.
    split; [done|]. split; [by apply check_url_Ok|]. by split_and!.
Qed.

(** A fetch is audited around its egress: it is refused without any trace, or a durable intent row comes before every request and one closing row after them, with the verdict of the outcome and the host and path of the last target tried; the closing row is missing only when it could not be written, and then the fetch says "audit_finalization_failed" whenever a request had left. A result is returned only with its row. *)
Theorem fetch_is_audited r cx now later w res w' :
  fetched r cx now later w = (res, w') →
  (w' = w ∧ ∃ d, res = Err (Denied d))
  ∨ ∃ cx' c names evs o url tail,
      w'.(w_events) = w.(w_events) ++ EvAudit (web_row r cx' c names ("intent", "", None) r.(fr_url)) :: evs ++ tail
      ∧ Forall (λ e, is_audit e = false) evs
      ∧ (∀ a, o = Ok a → a.(fe_receipt).(rp_url) = url)
      ∧ ((tail = [EvAudit (web_row r cx' c names (fetch_verdict o) url)] ∧ res = fetch_answer o)
         ∨ (tail = [] ∧ ∃ reason, res = Err (Denied (mkDenied reason FETCH_CAPABILITY ""))
             ∧ (reason = "audit_unavailable" ∨ reason = "audit_finalization_failed")
             ∧ (evs ≠ [] ∨ is_ok o = true → reason = "audit_finalization_failed"))).
Proof.
  intros [?|(cx' & c & names & w1 & w2 & evs & o & u & _ & -> & Hrun & Hend)]%fetch_cases; [by left|]. right.
  destruct Hrun as [Hst Hev _ _ Hhops _ _ Hok]. cbn [w_events after] in Hev.
  exists cx', c, names, evs, o, u. assert (Forall (λ e, is_audit e = false) evs) as Hno.
  { eapply Forall_impl; [exact Hhops|]. by intros e (? & ? & ? & ? & ? & _ & _ & _ & ->). }
  destruct Hend as [[-> ->]|[-> ->]].
  - eexists. cbn [w_events after]. rewrite Hev, <-!app_assoc. split_and!; [done|done|intros a Ha; by apply Hok|by left].
  - exists []. rewrite Hev, <-!app_assoc, app_nil_r. split_and!; [done|done|intros a Ha; by apply Hok|]. right. split; [done|]. eexists. split; [done|].
    unfold audit_failure_reason. split; [destruct (fetch_reached o evs); auto|].
    intros [Hne|Ho]; [|by destruct o]. destruct o as [a|e]; [done|]. cbn. rewrite (bool_decide_eq_false_2 (evs = [])) by done.
    cbn. by rewrite orb_true_r.
Qed.

(** What a fetch returns is bounded: the content is the scrubbed text of the first 1048576 bytes of the body the last hop answered, all of it unless the receipt says that it was truncated; the receipt names the checked address, the URL of that hop and at most five redirects. *)
Theorem fetch_is_bounded r cx now later w a w' :
  fetched r cx now later w = (Ok a, w') →
  ∃ n t request response, send n request = Some response ∧ EvSend request ∈ w'.(w_events) ∧ request.(out_url) = t.(pt_connect_url)
    ∧ public_target net (resolver n) a.(fe_receipt).(rp_url) t ∧ a.(fe_receipt).(rp_resolved_ip) = t.(pt_address)
    ∧ a.(fe_receipt).(rp_redirect_count) = n ∧ (n ≤ 5)%nat ∧ a.(fe_status) = response.(hr_status)
    ∧ a.(fe_content) = (scrub (take_str (Z.to_nat FETCH_MAX_RESPONSE_BYTES) (joined response.(hr_chunks)))).1
    ∧ a.(fe_receipt).(rp_size_bytes) ≤ FETCH_MAX_RESPONSE_BYTES
    ∧ (a.(fe_receipt).(rp_truncated) = false → a.(fe_content) = (scrub (joined response.(hr_chunks))).1).
Proof.
  intros [[_ [d [=]]]|(cx' & c & names & w1 & w2 & evs & o & u & _ & -> & Hrun & [[-> Ha]|[_ [=]]])]%fetch_cases.
  assert (o = Ok a) as -> by (destruct o as [|[]]; cbn in Ha; congruence). destruct Hrun as [_ Hev _ _ _ _ _ Hok].
  destruct (Hok a eq_refl) as [(n & t & request & response & Hn & Hl & Hs & Hc & Hu & Hfin) _].
  exists n, t, request, response. apply check_url_Ok in Hc. unfold finished in Hfin.
  destruct (bounded_bytes 0 _ _) as [[raw tr]|] eqn:Hb; [|done]. apply bounded_prefix in Hb as (Hraw & Hsize & Htr); [|by vm_compute].
  destruct (scrub raw) as [content red] eqn:Hsc. injection Hfin as <-.
  rewrite Z.sub_0_r in Hraw. rewrite Z.add_0_l in Hsize.
  cbn [fe_receipt fe_status fe_content rp_url rp_resolved_ip rp_status_code rp_size_bytes rp_redirect_count rp_truncated] in *.
  split; [done|]. split.
  { assert (EvSend request ∈ evs) as Hin by (apply last_Some in Hl as [l ->]; apply elem_of_app; right; by apply list_elem_of_singleton).
    cbn [w_events after]. rewrite Hev. apply elem_of_app. left. apply elem_of_app. by right. }
  split; [done|]. split; [done|]. split; [done|]. split; [done|]. split; [done|]. split; [done|].
  split; [by rewrite <-Hraw, Hsc|]. split; [exact Hsize|]. intros E. destruct (Htr E) as [<- _]. by rewrite Hsc.
Qed.
End fetches.

(** ** Witnesses

    A page that redirects to a name of a private address. *)

Definition wr_public : Ip := mkIp false false false false false true false "8.8.8.8".
Definition wr_private : Ip := mkIp false false true false false false false "10.0.0.1".
Definition wr_parts (host : string) : UrlParts := mkUrlParts "http" None None (Some host) (Some None) "/" "".
Definition wr_net : NetLib := mkNetLib
  (λ u, if startswith "http://" u then Some (wr_parts (drop_str 7 u)) else None)
  (λ scheme netloc path _, scheme +:+ "://" +:+ netloc +:+ path) (λ _ l, Some l)
  (λ t, if bool_decide (t = "8.8.8.8") then Some wr_public else if bool_decide (t = "10.0.0.1") then Some wr_private else None).
Definition wr_resolver (_ : nat) (host : string) : option (list string) :=
  if bool_decide (host = "a") then Some ["8.8.8.8"] else if bool_decide (host = "b") then Some ["10.0.0.1"] else None.
Definition wr_send (redirect : bool) (_ : nat) (_ : Outgoing) : option HopResponse :=
  Some (if redirect then mkHop 302 (Some "http://b") [] false else mkHop 200 None ["he"; "llo"] false).
Definition wr_cap : Capability := fx_capability "web.fetch" "web" READ_ONLY (mkHttp "https://web-fetch.invalid" ["GET"] ["/"] None "" []).
Definition wr_registry : ConnectorRegistry :=
  mkRegistry 1 [("mail", mkGroup "Mail" false)] [("web", mkConnector "web" "Web" "mail" [] [("web.fetch", wr_cap)])].
Definition wr_caps : CapDb := mkCapDb [mkStanding "loop:a" "web.fetch" "1" "owner" "" (Some "read") (Some "50") None None None] [] [] [].
Definition wr_request : FetchRequest := mkFetchRequest "http://a" None "GET" None [] (Some "loop:a") None None.
Definition wr_fetch (redirect : bool) : result call_error FetchResult * World CapDb :=
  fetch fx_machine wr_net (Some wr_registry) fx_rnd fx_repr fx_sha fx_mail fx_iso wr_resolver (λ _ _, true) (wr_send redirect) (λ s, (s, 0)) id
    wr_request fx_context "5" "5" (fx_world wr_caps).

Lemma egress_is_public_witness :
  (wr_fetch true).1 = Err (Denied (mkDenied "ssrf_refused" "web.fetch" "")) ∧ length (select is_send (wr_fetch true).2.(w_events)) = 1%nat
  ∧ (length (select is_send (wr_fetch true).2.(w_events)) ≤ 6)%nat.
Proof.
  split; [by vm_compute|]. split; [by vm_compute|].
  apply (egress_is_public fx_machine wr_net (Some wr_registry) fx_rnd fx_repr fx_sha fx_mail fx_iso wr_resolver (λ _ _, true) (wr_send true)
    (λ s, (s, 0)) id wr_request fx_context "5" "5" (fx_world wr_caps) (wr_fetch true).1 (wr_fetch true).2 (wr_fetch true).2.(w_events)).
  - apply surjective_pairing.
  - reflexivity.
Defined.

Lemma fetch_is_audited_witness :
  let w := (wr_fetch true).2 in
  length w.(w_events) = 3%nat ∧
  ((w = fx_world wr_caps ∧ ∃ d, (wr_fetch true).1 = Err (Denied d)) ∨ w ≠ fx_world wr_caps).
Proof.
  cbv zeta. split; [by vm_compute|].
  destruct (fetch_is_audited fx_machine wr_net (Some wr_registry) fx_rnd fx_repr fx_sha fx_mail fx_iso wr_resolver (λ _ _, true) (wr_send true)
    (λ s, (s, 0)) id wr_request fx_context "5" "5" (fx_world wr_caps) (wr_fetch true).1 (wr_fetch true).2) as [H|(cx & c & names & evs & o & url & tail & He & _)].
  - apply surjective_pairing.
  - by left.
  - right. intros E. rewrite E in He. change (w_events (fx_world wr_caps)) with (@nil event) in He. rewrite app_nil_l in He. discriminate He.
Defined.

Lemma fetch_is_bounded_witness :
  ∃ a w', wr_fetch false = (Ok a, w') ∧ a.(fe_content) = "hello" ∧ a.(fe_receipt).(rp_size_bytes) ≤ FETCH_MAX_RESPONSE_BYTES.
Proof.
  destruct (wr_fetch false) as [[a|e] w'] eqn:Hf; [|vm_compute in Hf; discriminate]. exists a, w'. split; [done|]. split.
  - vm_compute in Hf. by injection Hf as <- _.
  - destruct (fetch_is_bounded fx_machine wr_net (Some wr_registry) fx_rnd fx_repr fx_sha fx_mail fx_iso wr_resolver (λ _ _, true) (wr_send false)
      (λ s, (s, 0)) id wr_request fx_context "5" "5" (fx_world wr_caps) a w') as (n & t & q & resp & _ & _ & _ & _ & _ & _ & _ & _ & _ & H & _).
    + exact Hf.
    + exact H.
Defined.

(** The exception of the guard: "::1%." is the loopback address with the scope ".", and the
    text the guard judges, "::1%", is no address, so the request goes to the loopback. *)
Definition wr_loopback : Ip := mkIp true false false false false false true "::1%.".
Definition wr_scoped_net : NetLib := mkNetLib
  (λ u, Some (wr_parts "::1%.")) (λ scheme netloc path _, scheme +:+ "://" +:+ netloc +:+ path) (λ _ l, Some l)
  (λ t, if bool_decide (t = "::1%.") then Some wr_loopback else None).
Example scoped_loopback_is_pinned :
  refused_ip wr_scoped_net "::1%." = true ∧ reads_otherwise wr_scoped_net "::1%."
  ∧ pt_connect_url <$> (match check_url wr_scoped_net (λ _, None) "http://[::1%.]/" with Ok t => Some t | Err _ => None end)
    = Some "http://[::1%.]/".
Proof. split; [by vm_compute|]. split; [|by vm_compute]. split; [by eexists|]. left. by vm_compute. Qed.
