(* ===== verification/LlmCalls.v ===== *)
(** * LlmCalls: [omniagentos/llm/budget.py] and [client.py]

    Short model calls under a daily cap: the guard that sums today's lines of a
    JSON-lines ledger, and the client that asks it before every attempt.  The ledger is
    the list of its lines, [None] when the file does not exist.  Reading and printing
    JSON, the clock and what the network answers to the n-th request are parameters. *)

From Stdlib Require Import Ascii QArith.
From S2P Require Import Prelude PyString PyJson Records.
Open Scope Z_scope.

(** What [urllib] raises, by the type of [URLError.reason]. *)
Inductive url_reason := NameUnresolved | HostError | ConnectRefused | CertRefused | TimedOut | OtherReason.
Inductive transport_cause := FromHttp (code : Z) | FromUrl (reason : url_reason) | FromOs.
Inductive llm_error :=
  | LLMBudgetExceeded
  | LLMBudgetUnknown
  | LLMTransport (cause : transport_cause)
  | LLMClientError
  | LLMInvalidResponse
  | Crashed (exc : string).
(** What one request comes to; [None] is a body that is not UTF-8. *)
Inductive reply :=
  | HttpError (code : Z)
  | UrlError (reason : url_reason)
  | OsError
  | OtherException
  | Body (text : option string).

Record GuardConfig := mkGuardConfig {
  gc_daily_usd_cap : json;
  gc_fallback_input : json;
  gc_fallback_output : json;
  gc_proxy_base_url : json;
  gc_default_model : json;
  gc_rates : dict;
}.
Definition rate (input output : Q) : json := JDict [("input", JFloat (Fin input)); ("output", JFloat (Fin output))].
Definition DEFAULT_CONFIG : GuardConfig := mkGuardConfig
  (JFloat (Fin 10)) (JFloat (Fin (15 # 100))) (JFloat (Fin (60 # 100))) (JStr "http://localhost:4000/v1") (JStr "gemini-3.6-flash")
  [("gemini-3.6-flash", rate (75 # 1000) (30 # 100)); ("gemini-2.5-flash", rate (75 # 1000) (30 # 100));
   ("gpt-4o-mini", rate (150 # 1000) (600 # 1000)); ("claude-3-5-haiku", rate (800 # 1000) 4)].

(** [BudgetGuard.__init__], from the mapping of the configuration file. *)
Definition guard_config (loaded : dict) : result llm_error GuardConfig :=
  let get key d := default d (dict_get key loaded) in
  match get "rates" (JDict []) with
  | JDict rates => Ok (mkGuardConfig
      (get "daily_usd_cap" DEFAULT_CONFIG.(gc_daily_usd_cap))
      (get "fallback_rate_per_million_input" DEFAULT_CONFIG.(gc_fallback_input))
      (get "fallback_rate_per_million_output" DEFAULT_CONFIG.(gc_fallback_output))
      (get "proxy_base_url" DEFAULT_CONFIG.(gc_proxy_base_url))
      (get "default_model" DEFAULT_CONFIG.(gc_default_model))
      (dict_update DEFAULT_CONFIG.(gc_rates) rates))
  | _ => Err (Crashed "TypeError")
  end.

(** The ledger file and the requests sent so far. *)
Record LlmState := mkLlm { ll_lines : option (list string); ll_sent : list json }.

Record Client := mkClient { cl_config : GuardConfig; cl_base_url : json; cl_default_model : json; cl_retry_transport : bool }.
Definition or_json (a b : json) : json := if truthy a then a else b.
(** [ShortCallClient.__init__] without a URL of its own. *)
Definition short_call_client (cfg : GuardConfig) (default_model : json) (retry_transport : bool) : Client :=
  mkClient cfg (or_json cfg.(gc_proxy_base_url) (JStr "http://localhost:4000/v1"))
    (or_json default_model (or_json cfg.(gc_default_model) (JStr "gemini-3.6-flash"))) retry_transport.

Record Completion := mkCompletion { cm_content : json; cm_model : json; cm_prompt : json; cm_completion : json; cm_cost : float }.

Section llm.
Context (rnd : Q → float) (float_of_text : string → option float) (float_repr : float → string).
(** [json.loads] and [json.dumps], the ISO time and the network at the n-th request,
    whether the file can be read and appended to. *)
Context (loads : string → option json) (dumps : json → string) (clock : nat → string)
        (http : nat → json → reply) (readable writable : nat → bool).

(** ** Arithmetic of JSON numbers *)

Definition fl_mul (a b : float) : float :=
  match a, b with
  | NaN, _ | _, NaN => NaN
  | Fin x, Fin y => rnd (x * y)%Q
  | Inf n, Inf m => Inf (xorb n m)
  | Inf n, Fin x | Fin x, Inf n => if Qeq_bool x 0 then NaN else Inf (xorb n (negb (Qle_bool 0 x)))
  end.
Definition as_integer (v : json) : option Z :=
  match v with JInt n => Some n | JBool b => Some (if b then 1 else 0) | _ => None end.
(** [a op b] of two numbers; a text or list operand ends in a TypeError of the whole expression. *)
Definition arith (on_int : Z → Z → Z) (on_float : float → float → float) (a b : json) : result llm_error json :=
  match as_integer a, as_integer b with
  | Some m, Some n => Ok (JInt (on_int m n))
  | _, _ =>
      match number_of a, number_of b with
      | Some _, Some _ =>
          x ← map_err (λ _, Crashed "OverflowError") (py_float rnd float_of_text a);
          y ← map_err (λ _, Crashed "OverflowError") (py_float rnd float_of_text b);
          Ok (JFloat (on_float x y))
      | _, _ => Err (Crashed "TypeError")
      end
  end.
Definition per_million (v : json) : result llm_error float :=
  match number_of v with
  | Some _ => x ← map_err (λ _, Crashed "OverflowError") (py_float rnd float_of_text v); Ok (fl_div rnd x 1000000)
  | None => Err (Crashed "TypeError")
  end.

(** ** The guard *)

Definition spend_of_line (today line : string) : result llm_error (option float) :=
  if bool_decide (strip line = "") then Ok None
  else match loads (strip line) with
  | Some (JDict entry) =>
      let timestamp := default (JStr "") (dict_get "timestamp" entry) in
      if negb (truthy timestamp && startswith today (py_str float_repr timestamp)) then Ok None
      else match dict_get "estimated_usd_cost" entry with
      | None => Ok None
      | Some JNull => Err LLMBudgetUnknown
      | Some cost =>
          match py_float rnd float_of_text cost with
          | Ok x => Ok (Some x)
          | Err OverflowError => Ok None
          | Err _ => Err LLMBudgetUnknown
          end
      end
  | _ => Ok None
  end.
Fixpoint total_spend (today : string) (total : float) (lines : list string) : result llm_error float :=
  match lines with
  | [] => Ok total
  | line :: lines =>
      match spend_of_line today line with
      | Err e => Err e
      | Ok None => total_spend today total lines
      | Ok (Some x) => total_spend today (fl_add rnd total x) lines
      end
  end.
(** The date of an ISO time. *)
Definition date_of (now : string) : string := String.substring 0 10 now.

Definition get_today_spend (st : LlmState) : result llm_error float :=
  let n := length st.(ll_sent) in
  match st.(ll_lines) with
  | None => Ok fl_zero
  | Some lines => if readable n then total_spend (date_of (clock n)) fl_zero lines else Err LLMBudgetUnknown
  end.

Definition check_budget (cfg : GuardConfig) (st : LlmState) : result llm_error () :=
  spent ← get_today_spend st;
  match number_of cfg.(gc_daily_usd_cap) with
  | None => Err (Crashed "TypeError")
  | Some cap => if fl_le cap spent then Err LLMBudgetExceeded else Ok ()
  end.

(** [rates[model].get(key, 0.0)] *)
Definition rate_of (entry : json) (key : string) : result llm_error json :=
  match entry with JDict d => Ok (default (JFloat fl_zero) (dict_get key d)) | _ => Err (Crashed "AttributeError") end.
Definition rates_for (cfg : GuardConfig) (model : json) : result llm_error (json * json) :=
  match model with
  | JStr name =>
      match dict_get name cfg.(gc_rates) with
      | Some entry => i ← rate_of entry "input"; o ← rate_of entry "output"; Ok (i, o)
      | None => Ok (cfg.(gc_fallback_input), cfg.(gc_fallback_output))
      end
  | _ => if is_hashable model then Ok (cfg.(gc_fallback_input), cfg.(gc_fallback_output)) else Err (Crashed "TypeError")
  end.
Definition or_zero (tokens : json) : json := match tokens with JNull => JInt 0 | _ => tokens end.
Definition estimated_cost (cfg : GuardConfig) (model prompt completion : json) : result llm_error float :=
  rates ← rates_for cfg model;
  p ← arith Z.mul fl_mul (or_zero prompt) rates.1;
  c ← arith Z.mul fl_mul (or_zero completion) rates.2;
  s ← arith Z.add (fl_add rnd) p c;
  per_million s.

Definition record_spend (cfg : GuardConfig) (model prompt completion : json) (purpose : string) (st : LlmState) :
    result llm_error float * LlmState :=
  let n := length st.(ll_sent) in
  match estimated_cost cfg model prompt completion with
  | Err e => (Err e, st)
  | Ok cost =>
      let entry := JDict [("timestamp", JStr (clock n)); ("model", model); ("prompt_tokens", prompt);
                          ("completion_tokens", completion); ("estimated_usd_cost", JFloat cost); ("purpose", JStr purpose)] in
      if writable n then (Ok cost, mkLlm (Some (default [] st.(ll_lines) ++ [dumps entry])) st.(ll_sent))
      else (Err (Crashed "OSError"), st)
  end.

(** ** The client *)

(** [resp_data.get("usage", {}).get(key)] *)
Definition usage_tokens (response : json) : result llm_error (json * json) :=
  match response with
  | JDict d =>
      match default (JDict []) (dict_get "usage" d) with
      | JDict u => Ok (default JNull (dict_get "prompt_tokens" u), default JNull (dict_get "completion_tokens" u))
      | _ => Err (Crashed "AttributeError")
      end
  | _ => Err (Crashed "AttributeError")
  end.
(** [resp_data.get("choices", [])[0].get("message", {}).get("content", "")] *)
Definition message_content (response : json) : result llm_error json :=
  match response with
  | JDict d =>
      match default (JList []) (dict_get "choices" d) with
      | JList (JDict choice :: _) =>
          match default (JDict []) (dict_get "message" choice) with
          | JDict message => Ok (default (JStr "") (dict_get "content" message))
          | _ => Err LLMInvalidResponse
          end
      | JList _ | JStr _ => Err LLMInvalidResponse
      | JDict _ => Err (Crashed "KeyError")
      | _ => Err (Crashed "TypeError")
      end
  | _ => Err LLMInvalidResponse
  end.

Definition response_of (r : reply) : result llm_error json :=
  match r with
  | HttpError code => if (code =? 429) || (500 <=? code) && (code <? 600) then Err (LLMTransport (FromHttp code)) else Err LLMClientError
  | UrlError reason => Err (LLMTransport (FromUrl reason))
  | OsError => Err (LLMTransport FromOs)
  | OtherException => Err (Crashed "Exception")
  | Body None => Err LLMInvalidResponse
  | Body (Some text) => match loads text with Some v => Ok v | None => Err LLMInvalidResponse end
  end.

(** [_execute] *)
Definition execute_once (cl : Client) (payload model : json) (purpose : string) (st : LlmState) :
    result llm_error Completion * LlmState :=
  match cl.(cl_base_url) with
  | JStr _ =>
      let answer := http (length st.(ll_sent)) payload in
      let st := mkLlm st.(ll_lines) (st.(ll_sent) ++ [payload]) in
      match (response ← response_of answer; tokens ← usage_tokens response; content ← message_content response; Ok (tokens, content)) with
      | Err e => (Err e, st)
      | Ok (tokens, content) =>
          let '(cost, st) := record_spend cl.(cl_config) model tokens.1 tokens.2 purpose st in
          (c ← cost; Ok (mkCompletion content model tokens.1 tokens.2 c), st)
      end
  | _ => (Err (Crashed "AttributeError"), st)
  end.

(** [_execute_with_retry]: [more] attempts after this one. *)
Fixpoint attempts_left (more : nat) (cl : Client) (payload model : json) (purpose : string) (st : LlmState) :
    result llm_error Completion * LlmState :=
  match check_budget cl.(cl_config) st with
  | Err e => (Err e, st)
  | Ok _ =>
      let '(res, st) := execute_once cl payload model purpose st in
      match res, more with
      | Err (LLMTransport _), S more => attempts_left more cl payload model purpose st
      | _, _ => (res, st)
      end
  end.

(** The arguments of [complete]. *)
Record CompleteRequest := mkComplete {
  cq_messages : json;
  cq_model : json;
  cq_temperature : option json;
  cq_max_tokens : option json;
  cq_purpose : string;
  cq_response_format : option json;
}.
Definition payload_of (model : json) (q : CompleteRequest) : json :=
  let opt key v := match v with Some x => [(key, x)] | None => [] end in
  JDict ([("model", model); ("messages", q.(cq_messages))] ++ opt "temperature" q.(cq_temperature)
         ++ opt "max_tokens" q.(cq_max_tokens) ++ opt "response_format" q.(cq_response_format)).
Definition complete (cl : Client) (q : CompleteRequest) : LlmState → result llm_error Completion * LlmState :=
  let model := or_json q.(cq_model) cl.(cl_default_model) in
  attempts_left (if cl.(cl_retry_transport) then 1 else 0) cl (payload_of model q) model q.(cq_purpose).

(** ** JSON mode *)

Definition is_line_break (c : ascii) : bool :=
  let n := code c in ((10 <=? n) && (n <=? 13) || (28 <=? n) && (n <=? 30) || (n =? 133))%nat.
(** [str.splitlines] *)
Fixpoint splitlines_from (current : string) (after_cr : bool) (s : string) : list string :=
  match s with
  | "" => if bool_decide (current = "") then [] else [current]
  | String c s =>
      if after_cr && (code c =? 10)%nat then splitlines_from current false s
      else if is_line_break c then current :: splitlines_from "" (code c =? 13)%nat s
      else splitlines_from (current +:+ String c "") false s
  end.
Definition splitlines (s : string) : list string := splitlines_from "" false s.
Definition FENCE : string := "```".
Definition drop_fence_first (l : list string) : list string :=
  match l with x :: rest => if startswith FENCE x then rest else l | [] => [] end.
Definition drop_fence_last (l : list string) : list string := rev (drop_fence_first (rev l)).
Definition newline_text : string := String (ascii_of_nat 10) "".
(** [None]: it raised. *)
Definition clean_and_parse_json (content : json) : option json :=
  match content with
  | JStr raw =>
      let text := strip raw in
      loads (if startswith FENCE text
             then strip (join newline_text (drop_fence_last (drop_fence_first (splitlines text)))) else text)
  | _ => None
  end.

(** [needle in s] *)
Fixpoint has_substring (needle s : string) : bool :=
  startswith needle s || match s with "" => false | String _ s => has_substring needle s end.
(** [key in parsed] *)
Definition json_contains (parsed : json) (key : string) : result llm_error bool :=
  match parsed with
  | JDict d => Ok (dict_mem key d)
  | JList l => Ok (existsb (json_eq (JStr key)) l)
  | JStr s => Ok (has_substring key s)
  | _ => Err (Crashed "TypeError")
  end.
Definition keys_present (parsed : json) (required_keys : list string) : result llm_error bool :=
  l ← traverse (json_contains parsed) required_keys; Ok (forallb id l).

(** The loop of [complete_json]: [more] attempts after this one. *)
Fixpoint json_attempts (more : nat) (cl : Client) (q : CompleteRequest) (required_keys : list string) (st : LlmState) :
    result llm_error json * LlmState :=
  let '(res, st) := complete cl q st in
  let parsed := (c ← res; match clean_and_parse_json c.(cm_content) with
                          | None => Err LLMInvalidResponse
                          | Some v => ok ← keys_present v required_keys; if (ok : bool) then Ok v else Err LLMInvalidResponse
                          end) in
  match parsed, more with
  | Err LLMInvalidResponse, S more => json_attempts more cl q required_keys st
  | _, _ => (parsed, st)
  end.
Definition complete_json (cl : Client) (messages model : json) (temperature max_tokens : option json) (purpose : string)
    (required_keys : list string) : LlmState → result llm_error json * LlmState :=
  json_attempts 1 cl (mkComplete messages model temperature max_tokens purpose (Some (JDict [("type", JStr "json_object")]))) required_keys.
End llm.
