(* ===== verification/LlmCallsSpec.v ===== *)
(** * LlmCallsSpec: what the short-call client guarantees

    The requests a call can send, what it leaves in the ledger, and the daily cap over any
    sequence of calls.  The examples at the end are replies that are billed and never recorded,
    and a ledger line that lifts the cap. *)

From Stdlib Require Import Ascii QArith.
From S2P Require Import Prelude PyString PyJson Records LlmCalls.
Open Scope Z_scope.

Section llm.
Context (rnd : Q → float) (float_of_text : string → option float) (float_repr : float → string).
Context (loads : string → option json) (dumps : json → string) (clock : nat → string)
        (http : nat → json → reply) (readable writable : nat → bool).
Implicit Types (st : LlmState) (cl : Client).
Abbreviation spend := (get_today_spend rnd float_of_text float_repr loads clock readable).
Abbreviation guard := (check_budget rnd float_of_text float_repr loads clock readable).
Abbreviation once := (execute_once rnd float_of_text loads dumps clock http writable).
Abbreviation attempts := (attempts_left rnd float_of_text float_repr loads dumps clock http readable writable).
Abbreviation completed := (complete rnd float_of_text float_repr loads dumps clock http readable writable).
Abbreviation completed_json := (complete_json rnd float_of_text float_repr loads dumps clock http readable writable).

(** The guard lets a request pass. *)
Definition under_cap cl st : Prop :=
  ∃ s cap, spend st = Ok s ∧ number_of cl.(cl_config).(gc_daily_usd_cap) = Some cap ∧ fl_le cap s = false.

Lemma guard_Ok cl st u : guard cl.(cl_config) st = Ok u → under_cap cl st.
Proof.
  unfold check_budget. intros (s & Hs & Hc)%bind_Ok. destruct (number_of _) as [cap|] eqn:Hcap; [|done].
  destruct (fl_le cap s) eqn:Hle; [done|]. by exists s, cap.
Qed.

(** The line a completion leaves. *)
Definition spend_line (q : CompleteRequest) (n : nat) (c : Completion) : json :=
  JDict [("timestamp", JStr (clock n)); ("model", c.(cm_model)); ("prompt_tokens", c.(cm_prompt));
         ("completion_tokens", c.(cm_completion)); ("estimated_usd_cost", JFloat c.(cm_cost)); ("purpose", JStr q.(cq_purpose))].
(** The ledger after a call with this outcome: one line for a completion, unchanged otherwise. *)
Definition metered (q : CompleteRequest) st (res : result llm_error Completion) st' : Prop :=
  match res with
  | Ok c => st'.(ll_lines) = Some (default [] st.(ll_lines) ++ [dumps (spend_line q (length st'.(ll_sent)) c)])
  | Err _ => st'.(ll_lines) = st.(ll_lines)
  end.

Lemma once_cases cl q payload model st res st' : once cl payload model q.(cq_purpose) st = (res, st') →
  (st' = st ∧ ∃ e, res = Err (Crashed e))
  ∨ (st'.(ll_sent) = st.(ll_sent) ++ [payload] ∧ metered q st res st'
     ∧ ∀ c, res = Err (LLMTransport c) → response_of loads (http (length st.(ll_sent)) payload) = Err (LLMTransport c)).
Proof.
  unfold execute_once. destruct (cl_base_url cl); try (intros [= <- <-]; left; eauto).
  set (sent := mkLlm (ll_lines st) _). destruct (_ ≫= _) as [[tokens content]|e] eqn:Hr.
  - unfold record_spend. destruct (estimated_cost _ _ _ _ _ _) as [cost|e] eqn:Hcost.
    + destruct (writable _); intros [= <- <-]; right; (split; [done|]); (split; [|done]); done.
    + intros [= <- <-]. right. split; [done|]. split; [done|]. cbn. intros c [= ->]. exfalso. revert Hcost.
      unfold estimated_cost, rates_for, rate_of, arith, per_million, map_err. repeat first [progress cbn | case_match | done].
  - intros [= <- <-]. right. split; [done|]. split; [done|]. intros c [= ->]. revert Hr.
    destruct (response_of _ _) as [v|e']; [|by intros [= ->]]. cbn. unfold usage_tokens, message_content.
    repeat first [progress cbn | case_match | done].
Qed.

(** What a call sends: the same request a bounded number of times, each time under the
    cap, and again only after a transport failure. *)
Record sends cl (q : CompleteRequest) (payload : json) (k : nat) st (res : result llm_error Completion) st' : Prop := {
  sd_sent : st'.(ll_sent) = st.(ll_sent) ++ replicate k payload;
  sd_lines : metered q st res st';
  sd_none : k = 0%nat → st' = st;
  sd_guard i : (i < k)%nat → under_cap cl (mkLlm st.(ll_lines) (st.(ll_sent) ++ replicate i payload));
  sd_again i : (S i < k)%nat → ∃ c, response_of loads (http (length st.(ll_sent) + i) payload) = Err (LLMTransport c);
}.

Lemma sends_none cl q payload st e : sends cl q payload 0 st (Err e) st.
Proof. split; [by rewrite app_nil_r|done|done|lia..]. Qed.

Lemma attempts_cases more cl payload model q st res st' : attempts more cl payload model q.(cq_purpose) st = (res, st') →
  ∃ k, (k ≤ S more)%nat ∧ sends cl q payload k st res st'.
Proof.
  revert st. induction more as [|more IH]; intros st; cbn [attempts_left];
    (destruct (guard (cl_config cl) st) as [u|e] eqn:Hg; [|intros [= <- <-]; exists 0%nat; split; [lia|apply sends_none]]);
    destruct (once cl payload model (cq_purpose q) st) as [res1 st1] eqn:Hr; pose proof (once_cases _ _ _ _ _ _ _ Hr) as Hc; apply guard_Ok in Hg.
  - intros H0. assert (res1 = res ∧ st1 = st') as [-> ->] by (by destruct res1 as [|[]]; injection H0 as <- <-).
    destruct Hc as [[-> [e ->]]|(Hs & Hm & _)]; [exists 0%nat; split; [lia|apply sends_none]|]. exists 1%nat. split; [lia|].
    split; [done|done|done| |lia]. intros i Hi. replace i with 0%nat by lia. cbn. rewrite app_nil_r. by destruct st.
  - destruct Hc as [[-> [e ->]]|(Hs & Hm & Ht)]; [intros [= <- <-]; exists 0%nat; split; [lia|apply sends_none]|].
    assert (Hone : (res1, st1) = (res, st') → ∃ k, (k ≤ S (S more))%nat ∧ sends cl q payload k st res st').
    { intros [= <- <-]. exists 1%nat. split; [lia|]. split; [done|done|done| |lia]. intros i Hi. replace i with 0%nat by lia. cbn. rewrite app_nil_r. by destruct st. }
    destruct res1 as [c|[| |cause| | |exc]]; try exact Hone. clear Hone. intros (k & Hk & [H1 H2 H3 H4 H5])%IH. exists (S k). split; [lia|].
    cbn in Hm. rewrite Hs in *. rewrite Hm in *. cbn in H1.
    split.
    + by rewrite H1, <-app_assoc.
    + revert H2. unfold metered. destruct res; congruence.
    + done.
    + intros [|i] Hi; [cbn; rewrite app_nil_r; by destruct st|]. specialize (H4 i ltac:(lia)). cbn. by rewrite <-app_assoc in H4.
    + intros [|i] Hi; [exists cause; rewrite Nat.add_0_r; by apply Ht|]. destruct (H5 i ltac:(lia)) as [c Hc]. exists c.
      rewrite length_app in Hc. cbn in Hc. by replace (length (ll_sent st) + S i)%nat with (length (ll_sent st) + 1 + i)%nat by lia.
Qed.

Lemma complete_cases cl q st res st' :
  completed cl q st = (res, st') →
  ∃ k payload, (k ≤ if cl.(cl_retry_transport) then 2 else 1)%nat ∧ sends cl q payload k st res st'.
Proof.
  unfold complete. intros (k & Hk & Hs)%attempts_cases. exists k. eexists. split; [|exact Hs]. by destruct (cl_retry_transport cl).
Qed.

(** Short calls are metered: a call sends its one request at most twice, and at most once when transport retries are off; every attempt is made while the recorded spend of the day is readable and under the cap, a second one only after a transport failure; a completion leaves exactly one line with its cost in the ledger and any other outcome leaves the ledger as it was. *)
Theorem calls_are_metered cl q st res st' :
  completed cl q st = (res, st') →
  ∃ k payload, (k ≤ if cl.(cl_retry_transport) then 2 else 1)%nat ∧ sends cl q payload k st res st'.
Proof. apply complete_cases. Qed.

(** A call whose day cannot be summed is refused without a request: an unreadable ledger, or one line of today with a null or unreadable cost, anywhere in the file. *)
Theorem unknown_spend_refuses cl q st lines :
  st.(ll_lines) = Some lines →
  readable (length st.(ll_sent)) = false
  ∨ (∃ line, line ∈ lines ∧ spend_of_line rnd float_of_text float_repr loads (date_of (clock (length st.(ll_sent)))) line = Err LLMBudgetUnknown) →
  completed cl q st = (Err LLMBudgetUnknown, st).
Proof.
  intros Hl Hor. assert (spend st = Err LLMBudgetUnknown) as Hs.
  { unfold get_today_spend. rewrite Hl. destruct (readable _); [|done]. destruct Hor as [|(line & Hin & Hline)]; [done|].
    clear Hl. generalize fl_zero. induction lines as [|x lines IH]; [by apply not_elem_of_nil in Hin|]. intros acc. cbn [total_spend].
    apply elem_of_cons in Hin as [<-|Hin]; [by rewrite Hline|].
    destruct (spend_of_line _ _ _ _ _ x) as [[y|]|e] eqn:Hx; [by apply IH..|]. f_equal. revert Hx. clear. unfold spend_of_line.
    repeat first [progress cbn | case_match | done]; by intros [= <-]. }
  unfold complete. destruct (cl_retry_transport cl); cbn [attempts_left]; unfold check_budget; by rewrite Hs.
Qed.

(** ** The cap over a day *)

Lemma total_app today acc l m : total_spend rnd float_of_text float_repr loads today acc (l ++ m)
  = (t ← total_spend rnd float_of_text float_repr loads today acc l; total_spend rnd float_of_text float_repr loads today t m).
Proof.
  revert acc. induction l as [|x l IH]; intros acc; [done|]. cbn [app total_spend].
  destruct (spend_of_line _ _ _ _ _ x) as [[y|]|e]; [apply IH..|done].
Qed.
Lemma startswith_date s : startswith (date_of s) s = true.
Proof.
  unfold date_of. generalize 10%nat as n. intros n. revert s. induction n as [|n IH]; intros [|c s]; cbn; [done..|].
  by rewrite Ascii.eqb_refl, IH.
Qed.

(** What [json.dumps] prints of the object, [json.loads] reads back. *)
Definition reads_back (v : json) : Prop := strip (dumps v) ≠ "" ∧ loads (strip (dumps v)) = Some v.

(** A sequence of calls of clients that share the configuration. *)
Definition run (calls : list (Client * CompleteRequest)) st : LlmState := foldl (λ st p, (completed p.1 p.2 st).2) st calls.

Section day.
Context (cfg : GuardConfig) (cap m : Q).
Context (Hcap : number_of cfg.(gc_daily_usd_cap) = Some (Fin cap)).
Context (Hday : ∀ i j, date_of (clock i) = date_of (clock j)) (Hclock : ∀ i, clock i ≠ "") (Hread : ∀ i, readable i = true).
Context (Hmono : ∀ x y, (x <= y)%Q → fl_le (rnd x) (rnd y) = true).

Lemma spend_of_spend_line q n c k : reads_back (spend_line q n c) →
  spend_of_line rnd float_of_text float_repr loads (date_of (clock k)) (dumps (spend_line q n c)) = Ok (Some c.(cm_cost)).
Proof.
  unfold spend_of_line, spend_line, reads_back. match goal with |- context [JDict ?l] => set (d := l) end.
  intros [H1 H2]. rewrite bool_decide_eq_false_2, H2 by done. change (dict_get "timestamp" d) with (Some (JStr (clock n))).
  change (dict_get "estimated_usd_cost" d) with (Some (JFloat (cm_cost c))). cbn.
  rewrite bool_decide_eq_false_2 by done. by rewrite (Hday k n), startswith_date.
Qed.

Lemma spend_after cl q st res st' s : cl.(cl_config) = cfg → completed cl q st = (res, st') → spend st = Ok s →
  (∀ c, res = Ok c → reads_back (spend_line q (length st'.(ll_sent)) c)) →
  (spend st' = Ok s ∧ ∀ c, res ≠ Ok c) ∨ ∃ c, res = Ok c ∧ spend st' = Ok (fl_add rnd s c.(cm_cost)) ∧ fl_le (Fin cap) s = false.
Proof.
  intros Hcfg (k & payload & _ & [Hs Hl Hn Hg _])%complete_cases Hsp Hreads. unfold get_today_spend in *.
  rewrite (Hday _ (length (ll_sent st))). rewrite Hread in *.
  destruct res as [c|e]; cbn in Hl; [|left; rewrite Hl; destruct (ll_lines st); rewrite ?Hread; done]. right. exists c. split; [done|]. rewrite Hl.
  assert (0 < k)%nat as Hk.
  { destruct k; [|lia]. specialize (Hn eq_refl). subst st'. exfalso. apply (f_equal (λ o, length (default [] o))) in Hl. cbn in Hl.
    rewrite length_app in Hl. cbn in Hl. lia. }
  split.
  - rewrite total_app. replace (total_spend _ _ _ _ _ _ (default [] (ll_lines st))) with (Ok (E := llm_error) s) by (by destruct (ll_lines st)).
    cbn. by rewrite spend_of_spend_line by by apply Hreads.
  - destruct (Hg 0%nat Hk) as (s1 & c1 & Hs1 & Hc1 & Hle). cbn in Hs1. rewrite app_nil_r in Hs1. unfold get_today_spend in Hs1. cbn in Hs1.
    rewrite Hread in Hs1. rewrite Hcfg in Hc1. congruence.
Qed.

(** Each call reads back what it writes and is billed at most [m]. *)
Definition billed (calls : list (Client * CompleteRequest)) : Prop := ∀ cl q, (cl, q) ∈ calls →
  cl.(cl_config) = cfg ∧ ∀ st0 c st1, completed cl q st0 = (Ok c, st1) → reads_back (spend_line q (length st1.(ll_sent)) c) ∧ ∃ x, c.(cm_cost) = Fin x ∧ (x <= m)%Q.

(** The daily cap of short calls is overshot by at most one call: over any sequence of calls of one day whose replies are billed at most m dollars each, a recorded spend that is a number ends where it began or at most m above the cap (as the doubles add them). *)
Theorem daily_cap_overshoot calls st s :
  billed calls →
  spend st = Ok s → is_nan s = false →
  ∃ s', spend (run calls st) = Ok s' ∧ (s' = s ∨ fl_le s' (fl_add rnd (Fin cap) (Fin m)) = true).
Proof.
  assert (Hgen : is_nan s = false → ∀ t, billed calls →
    spend st = Ok t → t = s ∨ fl_le t (fl_add rnd (Fin cap) (Fin m)) = true →
    ∃ s', spend (run calls st) = Ok s' ∧ (s' = s ∨ fl_le s' (fl_add rnd (Fin cap) (Fin m)) = true)).
  2: { intros H1 H2 Hnan. apply (Hgen Hnan s H1 H2). by left. }
  intros Hnan. revert st. induction calls as [|[cl q] calls IH]; intros st t Hok Hs Ht; [by exists t|]. cbn [run foldl fst snd].
  destruct (Hok cl q ltac:(left)) as [Hcfg Hcost]. destruct (completed cl q st) as [res st'] eqn:Hc. cbn [snd].
  assert (billed calls) as Hok' by (intros cl' q' Hin; apply Hok; by right).
  destruct (spend_after _ _ _ _ _ _ Hcfg Hc Hs ltac:(intros c ->; apply (Hcost _ _ _ Hc))) as [[Hs' _]|(c & -> & Hs' & Hle)]; [by apply (IH st' t)|].
  apply (IH st' (fl_add rnd t (cm_cost c))); [done..|]. right. destruct (Hcost _ _ _ Hc) as (_ & x & -> & Hx).
  clear Hs Hs' IH Hok Hok' Hc. revert Hle Ht. clear -Hx Hmono Hnan.
  destruct t as [y|[]|]; cbn [fl_add]; [|intros _ _; generalize (Hmono _ _ (Qle_refl (cap + m))); by destruct (rnd _) as [|[]|]|done|].
  - unfold fl_le at 1. cbn [fl_lt]. rewrite orb_false_iff, negb_false_iff. intros [Hy%Qle_bool_iff _] _. by apply Hmono, Qplus_le_compat.
  - by intros _ [<-|Hle].
Qed.
End day.

(** ** JSON mode *)

Lemma keys_present_Ok v keys : keys_present v keys = Ok true → ∀ key, key ∈ keys → json_contains v key = Ok true.
Proof.
  unfold keys_present. intros (l & Hl%traverse_Ok & [= Hall])%bind_Ok key Hin. revert Hall. induction Hl as [|k b keys l Hk Hl IH]; [set_solver|].
  cbn. intros [Hb Hall]%andb_true_iff. unfold id in Hb. subst b. apply elem_of_cons in Hin as [->|Hin]; [done|by apply IH].
Qed.

Lemma json_attempts_cases more cl q keys st res st' :
  json_attempts rnd float_of_text float_repr loads dumps clock http readable writable more cl q keys st = (res, st') →
  ∃ k payload, (k ≤ S more * if cl.(cl_retry_transport) then 2 else 1)%nat ∧ st'.(ll_sent) = st.(ll_sent) ++ replicate k payload
    ∧ payload = payload_of (or_json q.(cq_model) cl.(cl_default_model)) q
    ∧ ∀ v, res = Ok v → ∀ key, key ∈ keys → json_contains v key = Ok true.
Proof.
  revert st. induction more as [|more IH]; intros st; cbn [json_attempts]; destruct (completed cl q st) as [r st1] eqn:Hc;
    unfold complete in Hc; apply attempts_cases in Hc as (k & Hk & [Hs _ _ _ _]); set (parsed := r ≫= _).
  all: assert (Hp : ∀ v, parsed = Ok v → ∀ key, key ∈ keys → json_contains v key = Ok true)
    by (subst parsed; intros v (c & _ & Hv)%bind_Ok; destruct (clean_and_parse_json _ _) as [u|]; [|done];
        apply bind_Ok in Hv as ([] & Hkeys & [= <-]); by apply keys_present_Ok); clearbody parsed.
  - intros H0. assert (parsed = res ∧ st1 = st') as [<- <-] by (by destruct parsed as [|[]]; injection H0 as <- <-).
    exists k. eexists. split_and!; [destruct (cl_retry_transport cl); lia|exact Hs|done|done].
  - assert (Hone : (parsed, st1) = (res, st') → ∃ k payload, (k ≤ S (S more) * if cl.(cl_retry_transport) then 2 else 1)%nat
      ∧ st'.(ll_sent) = st.(ll_sent) ++ replicate k payload ∧ payload = payload_of (or_json q.(cq_model) cl.(cl_default_model)) q
      ∧ ∀ v, res = Ok v → ∀ key, key ∈ keys → json_contains v key = Ok true).
    { intros [= <- <-]. exists k. eexists. split_and!; [destruct (cl_retry_transport cl); lia|exact Hs|done|done]. }
    destruct parsed as [v|[| | | | |]]; try exact Hone. clear Hone. intros (k' & payload & Hk' & Hs' & -> & Hv)%IH.
    exists (k + k')%nat. eexists. split_and!; [|rewrite Hs', Hs, <-app_assoc, <-replicate_add; done|done|done].
    destruct (cl_retry_transport cl); lia.
Qed.

(** JSON mode is bounded: it sends its one request at most four times (twice without transport retries), and an object it returns contains every required key. *)
Theorem json_mode_bounded cl messages model temperature max_tokens purpose keys st res st' :
  completed_json cl messages model temperature max_tokens purpose keys st = (res, st') →
  ∃ k payload, (k ≤ 4)%nat ∧ (cl.(cl_retry_transport) = false → (k ≤ 2)%nat) ∧ st'.(ll_sent) = st.(ll_sent) ++ replicate k payload
    ∧ ∀ v, res = Ok v → ∀ key, key ∈ keys → json_contains v key = Ok true.
Proof.
  unfold complete_json. intros (k & payload & Hk & Hs & _ & Hv)%json_attempts_cases. exists k, payload.
  split_and!; [destruct (cl_retry_transport cl); lia|intros E; rewrite E in Hk; lia|done|done].
Qed.
End llm.

(** ** Witnesses and examples *)

Definition lm_reply (usage : json) : json :=
  JDict [("usage", usage); ("choices", JList [JDict [("message", JDict [("content", JStr "ok")])]])].
Definition lm_usage : json := JDict [("prompt_tokens", JInt 1000000); ("completion_tokens", JInt 0)].
Definition lm_question : CompleteRequest := mkComplete (JList []) JNull None None "p" None.
Definition lm_client (retry : bool) : Client := short_call_client DEFAULT_CONFIG JNull retry.
Definition lm_line : json := spend_line (λ _, "2026-08-01T00") lm_question 0
  (mkCompletion (JStr "ok") (JStr "gemini-3.6-flash") (JInt 1000000) (JInt 0) (Fin (3 # 40))).
(** A file of three texts. *)
Definition lm_loads (usage : json) (s : string) : option json :=
  if bool_decide (s = "R") then Some (lm_reply usage) else if bool_decide (s = "L") then Some lm_line
  else if bool_decide (s = "N") then Some (JDict [("timestamp", JStr "2026-08-01T00"); ("estimated_usd_cost", JFloat NaN)]) else None.
Definition lm_rnd (x : Q) : float := Fin (Qred x).
Definition lm_complete (usage : json) (answer : reply) (retry : bool) (st : LlmState) : result llm_error Completion * LlmState :=
  complete lm_rnd (λ _, None) (λ _, "") (lm_loads usage) (λ _, "L") (λ _, "2026-08-01T00") (λ _ _, answer) (λ _, true) (λ _, true)
    (lm_client retry) lm_question st.
Definition lm_start : LlmState := mkLlm None [].

Lemma calls_are_metered_witness :
  let x := lm_complete lm_usage (HttpError 503) true lm_start in
  length x.2.(ll_sent) = 2%nat ∧ ∃ k payload, (k ≤ 2)%nat ∧ x.2.(ll_sent) = replicate k payload.
Proof.
  cbv zeta. split; [by vm_compute|].
  destruct (calls_are_metered lm_rnd (λ _, None) (λ _, "") (lm_loads lm_usage) (λ _, "L") (λ _, "2026-08-01T00") (λ _ _, HttpError 503)
    (λ _, true) (λ _, true) (lm_client true) lm_question lm_start (lm_complete lm_usage (HttpError 503) true lm_start).1
    (lm_complete lm_usage (HttpError 503) true lm_start).2) as (k & payload & Hk & [Hs _ _ _ _]).
  - apply surjective_pairing.
  - exists k, payload. split; [exact Hk|exact Hs].
Defined.

Lemma unknown_spend_refuses_witness :
  complete lm_rnd (λ _, None) (λ _, "") (lm_loads lm_usage) (λ _, "L") (λ _, "2026-08-01T00") (λ _ _, OsError) (λ _, false) (λ _, true)
    (lm_client true) lm_question (mkLlm (Some []) []) = (Err LLMBudgetUnknown, mkLlm (Some []) []).
Proof.
  apply (unknown_spend_refuses lm_rnd (λ _, None) (λ _, "") (lm_loads lm_usage) (λ _, "L") (λ _, "2026-08-01T00") (λ _ _, OsError)
    (λ _, false) (λ _, true) (lm_client true) lm_question (mkLlm (Some []) []) []).
  - reflexivity.
  - by left.
Defined.

Lemma json_mode_bounded_witness :
  let x := complete_json lm_rnd (λ _, None) (λ _, "") (lm_loads lm_usage) (λ _, "L") (λ _, "2026-08-01T00") (λ _ _, HttpError 503)
             (λ _, true) (λ _, true) (lm_client true) (JList []) JNull None None "p" ["k"] lm_start in
  ∃ k payload, (k ≤ 4)%nat ∧ x.2.(ll_sent) = replicate k payload.
Proof.
  cbv zeta. edestruct (json_mode_bounded lm_rnd (λ _, None) (λ _, "") (lm_loads lm_usage) (λ _, "L") (λ _, "2026-08-01T00")
    (λ _ _, HttpError 503) (λ _, true) (λ _, true) (lm_client true) (JList []) JNull None None "p" ["k"] lm_start)
    as (k & payload & Hk & _ & Hs & _); [apply surjective_pairing|]. exists k, payload. split; [exact Hk|exact Hs].
Defined.

Lemma daily_cap_overshoot_witness :
  let st := run lm_rnd (λ _, None) (λ _, "") (lm_loads lm_usage) (λ _, "L") (λ _, "2026-08-01T00") (λ _ _, Body (Some "R")) (λ _, true) (λ _, true)
              [(lm_client false, lm_question); (lm_client false, lm_question)] lm_start in
  ll_lines st = Some ["L"; "L"]
  ∧ ∃ s', get_today_spend lm_rnd (λ _, None) (λ _, "") (lm_loads lm_usage) (λ _, "2026-08-01T00") (λ _, true) st = Ok s'
      ∧ (s' = fl_zero ∨ fl_le s' (fl_add lm_rnd (Fin 10) (Fin (75 # 1000))) = true).
Proof.
  cbv zeta. split; [by vm_compute|].
  apply (daily_cap_overshoot lm_rnd (λ _, None) (λ _, "") (lm_loads lm_usage) (λ _, "L") (λ _, "2026-08-01T00") (λ _ _, Body (Some "R"))
    (λ _, true) (λ _, true) DEFAULT_CONFIG 10 (75 # 1000)); try reflexivity.
  - by intros i.
  - intros x y Hxy. apply fl_lt_false; [done..|]. apply negb_false_iff, Qle_bool_iff. by rewrite !Qred_correct.
  - intros cl q Hin. assert (cl = lm_client false ∧ q = lm_question) as [-> ->] by set_solver. split; [done|].
    intros st0 c st1 H. unfold complete in H. change (cl_retry_transport (lm_client false)) with false in H. cbn [attempts_left] in H.
    destruct (check_budget _ _ _ _ _ _ _ st0); [|discriminate]. vm_compute in H. injection H as <- <-. split.
    + split; [done|]. vm_compute. reflexivity.
    + exists (3 # 40)%Q. by vm_compute.
Defined.

(** A reply with a null [usage] is an answered request that the ledger never sees. *)
Example null_usage_is_unrecorded :
  lm_complete JNull (Body (Some "R")) false lm_start
  = (Err (Crashed "AttributeError"), mkLlm None [payload_of (JStr "gemini-3.6-flash") lm_question]).
Proof. by vm_compute. Qed.

(** One line of today whose cost is NaN admits every later call, whatever is recorded beside it. *)
Example nan_line_lifts_cap :
  check_budget lm_rnd (λ _, None) (λ _, "") (lm_loads lm_usage) (λ _, "2026-08-01T00") (λ _, true) DEFAULT_CONFIG
    (mkLlm (Some ("N" :: replicate 200 "L")) []) = Ok tt
  ∧ check_budget lm_rnd (λ _, None) (λ _, "") (lm_loads lm_usage) (λ _, "2026-08-01T00") (λ _, true) DEFAULT_CONFIG
    (mkLlm (Some (replicate 200 "L")) []) = Err LLMBudgetExceeded.
Proof. by split; vm_compute. Qed.
