(* ===== verification/SeamArgs.v ===== *)
(** * SeamArgs: the typed arguments of [omniagentos/scheduler/loop_effects.py]

    The taxonomy of failures, the schema of each capability of the seam, and the
    validation of what a worker sends against it. *)

From Stdlib Require Import Ascii QArith.
From S2P Require Import Prelude PyString PyRegex PyJson Records.
Open Scope Z_scope.

(** ** Outcomes *)

Inductive outcome := OUTCOME_OK | OUTCOME_REFUSED | OUTCOME_UNAVAILABLE | OUTCOME_UNKNOWN.
#[export] Instance outcome_eq_dec : EqDecision outcome.
Proof. solve_decision. Defined.
Definition outcome_value (o : outcome) : string :=
  match o with OUTCOME_OK => "ok" | OUTCOME_REFUSED => "refused" | OUTCOME_UNAVAILABLE => "unavailable" | OUTCOME_UNKNOWN => "unknown" end.

(** The outcome decides about the idempotency claim, the flag about the money. *)
Record SeamError := mkSeamError { se_outcome : outcome; se_reason : string; se_may_have_billed : bool }.
Definition SeamRefused (reason : string) : SeamError := mkSeamError OUTCOME_REFUSED reason true.
Definition SeamRefusedUnbilled (reason : string) : SeamError := mkSeamError OUTCOME_REFUSED reason false.
Definition SeamUnavailable (reason : string) : SeamError := mkSeamError OUTCOME_UNAVAILABLE reason false.
Definition SeamUnknown (reason : string) : SeamError := mkSeamError OUTCOME_UNKNOWN reason true.

(** Absence does not survive work that is paid for. *)
Definition after_billable_work (e : SeamError) : SeamError :=
  match e.(se_outcome) with OUTCOME_UNAVAILABLE => SeamRefused e.(se_reason) | _ => e end.

(** ** Patterns

    [pattern.match] of [^...$]: the dollar also matches before a last newline. *)

Definition match_line (r : regex) (s : string) : bool :=
  existsb (λ p, bool_decide (p.2 = "") || bool_decide (p.2 = String newline "")) (run r (None, s)).
Definition between_chars (lo hi c : ascii) : bool := (code lo <=? code c)%nat && (code c <=? code hi)%nat.
Definition az : ascii → bool := between_chars "a" "z".
Definition AZaz (c : ascii) : bool := az c || between_chars "A" "Z" c.
Definition az09 (c : ascii) : bool := az c || is_digit c.
Definition in_set (chars : string) (c : ascii) : bool := has_char c chars.
(** At most [n] times. *)
Fixpoint up_to (n : nat) (r : regex) : regex := match n with O => Eps | S n => opt (Seq r (up_to n r)) end.

Definition CAPABILITY_RE : regex :=
  let part := Seq (Chr az) (Star (Chr (λ c, az09 c || in_set "_" c))) in seqs [part; lit false "."; part].
Definition safe_name : regex := Seq (Chr az09) (up_to 63 (Chr (λ c, az09 c || in_set "_-" c))).
Definition INSTANCE_RE : regex := safe_name.
Definition ARTIFACT_NAME_RE : regex :=
  seqs [safe_name; lit false ".";
        alts (map (lit false) ["png"; "jpg"; "jpeg"; "webp"; "html"; "htm"; "txt"; "md"; "json"; "csv"])].
Definition PURPOSE_RE : regex := Seq (Chr az09) (up_to 63 (Chr (λ c, az09 c || in_set "_.:-" c))).
Definition MODEL_RE : regex := Seq (Chr (λ c, AZaz c || is_digit c)) (up_to 63 (Chr (λ c, AZaz c || is_digit c || in_set "._/-" c))).

(** ** Schemas *)

Record ArgSpec := mkArgSpec {
  as_kind : string;
  as_required : bool;
  as_default : option json;
  as_choices : list string;
  as_pattern : option regex;
  as_min_len : Z;
  as_max_len : Z;
  as_minimum : Z;
  as_maximum : Z;
}.
#[export] Instance ArgSpec_rebuild : Rebuild ArgSpec := λ a,
  mkArgSpec a.(as_kind) a.(as_required) a.(as_default) a.(as_choices) a.(as_pattern) a.(as_min_len) a.(as_max_len)
    a.(as_minimum) a.(as_maximum).
(** A required argument without restrictions. *)
Definition arg (kind : string) : ArgSpec := mkArgSpec kind true None [] None 0 0 0 0.
Abbreviation schema := (list (string * ArgSpec)).

Definition REPLICATE_MODELS : list string := ["black-forest-labs/flux-dev"; "black-forest-labs/flux-schnell"].
Definition REPLICATE_ARGS : schema :=
  [("model", arg "str" <| as_choices := REPLICATE_MODELS |>);
   ("prompt", arg "str" <| as_min_len := 1 |> <| as_max_len := 2000 |>);
   ("artifact_name", arg "str" <| as_pattern := Some ARTIFACT_NAME_RE |> <| as_max_len := 72 |>);
   ("aspect_ratio", arg "str" <| as_required := false |> <| as_default := Some (JStr "1:1") |>
                      <| as_choices := ["1:1"; "16:9"; "9:16"; "4:3"; "3:4"] |>);
   ("output_format", arg "str" <| as_required := false |> <| as_default := Some (JStr "png") |> <| as_choices := ["png"; "jpg"] |>);
   ("seed", arg "int" <| as_required := false |> <| as_maximum := 2 ^ 31 - 1 |>);
   ("expect_min_width", arg "int" <| as_required := false |> <| as_default := Some (JInt 1) |> <| as_minimum := 1 |> <| as_maximum := 8192 |>);
   ("expect_min_height", arg "int" <| as_required := false |> <| as_default := Some (JInt 1) |> <| as_minimum := 1 |> <| as_maximum := 8192 |>)].
Definition MODEL_ARGS : schema :=
  [("messages", arg "messages");
   ("purpose", arg "str" <| as_pattern := Some PURPOSE_RE |>);
   ("model", arg "str" <| as_required := false |> <| as_pattern := Some MODEL_RE |>);
   ("max_tokens", arg "int" <| as_required := false |> <| as_minimum := 1 |> <| as_maximum := 8192 |>);
   ("temperature_milli", arg "int" <| as_required := false |> <| as_maximum := 2000 |>)].
Definition WEB_FETCH_ARGS : schema := [("url", arg "str" <| as_min_len := 8 |> <| as_max_len := 2048 |>)].

(** ** Validation *)

Definition invalid {A} : result SeamError A := Err (SeamRefused "invalid_arguments").
Definition ensure (ok : bool) : result SeamError () := if ok then Ok () else invalid.

Section validation.
Context (float_repr : float → string).

Definition ROLES : list string := ["system"; "user"; "assistant"].
Definition MAX_MESSAGES : nat := 32.
Definition MAX_MESSAGE_CHARS : Z := 32000.

(** One message, and the characters so far. *)
Definition validate_message (total : Z) (item : json) : result SeamError (json * Z) :=
  match item with
  | JDict d =>
      let role := match dict_get "role" d with Some v => if truthy v then py_str float_repr v else "" | None => "" end in
      ensure (bool_decide (role ∈ ROLES));;
      match dict_get "content" d with
      | Some (JStr (String _ _ as content)) =>
          let total := total + Z.of_nat (String.length content) in
          ensure (total <=? MAX_MESSAGE_CHARS);;
          Ok (JDict [("role", JStr role); ("content", JStr content)], total)
      | _ => invalid
      end
  | _ => invalid
  end.
Fixpoint validate_each (total : Z) (items : list json) : result SeamError (list json) :=
  match items with
  | [] => Ok []
  | item :: items =>
      '(message, total) ← validate_message total item;
      rest ← validate_each total items;
      Ok (message :: rest)
  end.
Definition validate_messages (value : json) : result SeamError json :=
  match value with
  | JList (_ :: _ as items) => ensure (length items <=? MAX_MESSAGES)%nat;; l ← validate_each 0 items; Ok (JList l)
  | _ => invalid
  end.

Definition validate_int (spec : ArgSpec) (value : json) : result SeamError json :=
  match value with
  | JInt n => ensure ((spec.(as_minimum) <=? n) && (n <=? spec.(as_maximum)));; Ok value
  | _ => invalid
  end.
Definition validate_str (spec : ArgSpec) (value : json) : result SeamError json :=
  match value with
  | JStr s =>
      let n := Z.of_nat (String.length s) in
      ensure (bool_decide (spec.(as_choices) = []) || bool_decide (s ∈ spec.(as_choices)));;
      ensure ((spec.(as_min_len) =? 0) || (spec.(as_min_len) <=? n));;
      ensure ((spec.(as_max_len) =? 0) || (n <=? spec.(as_max_len)));;
      ensure (match spec.(as_pattern) with Some r => match_line r s | None => true end);;
      Ok value
  | _ => invalid
  end.
Definition validate_value (spec : ArgSpec) (value : json) : result SeamError json :=
  if bool_decide (spec.(as_kind) = "messages") then validate_messages value
  else if bool_decide (spec.(as_kind) = "bool") then match value with JBool _ => Ok value | _ => invalid end
  else if bool_decide (spec.(as_kind) = "int") then validate_int spec value
  else if bool_decide (spec.(as_kind) = "str") then validate_str spec value
  else invalid.

(** The loop over the schema. *)
Fixpoint coerce (schema : schema) (args : dict) : result SeamError dict :=
  match schema with
  | [] => Ok []
  | (name, spec) :: schema =>
      match dict_get name args with
      | None =>
          ensure (negb spec.(as_required));;
          rest ← coerce schema args;
          Ok (match spec.(as_default) with Some v => (name, v) :: rest | None => rest end)
      | Some value =>
          v ← validate_value spec value;
          rest ← coerce schema args;
          Ok ((name, v) :: rest)
      end
  end.
Definition validate_args (schema : schema) (args : dict) : result SeamError dict :=
  ensure (forallb (λ p : string * json, dict_mem p.1 schema) args);; coerce schema args.
End validation.
