(* ===== verification/LoopEffects.v ===== *)
(** * LoopEffects: the credential seam, [omniagentos/scheduler/loop_effects.py]

    A worker without credentials declares a typed effect; this process decides, reserves
    budget, performs it through the broker, the web read or the short-call client, and
    disposes of the reservation.  [execute] is the whole path of one request.  What the
    handlers ask of the outside (one [Turn] per brokered call), the other processes' work on
    the two stores, the files, the clocks and the configuration are fields of [SeamEnv]. *)

From Stdlib Require Import Ascii QArith.
From stdpp Require Import pretty.
From S2P Require Import Prelude PyString PyPath PathContainment PyRegex PyJson Records Connectors Grants CapabilityStore Broker BrokerCalls WebRead LlmCalls LoopBudget SeamArgs.
Open Scope Z_scope.

(** ** The environment *)

(** The exceptions of [httpx] by class; all but [InvalidURL] are [httpx.HTTPError]s. *)
Inductive http_exception :=
  | ConnectTimeout | ReadTimeout | WriteTimeout | PoolTimeout
  | ConnectError | ReadError | WriteError | CloseError
  | LocalProtocolError | RemoteProtocolError | ProxyError | UnsupportedProtocol
  | DecodingError | TooManyRedirects | HTTPStatusError | InvalidURL.
#[export] Instance http_exception_eq_dec : EqDecision http_exception.
Proof. solve_decision. Defined.
Definition is_http_error (e : http_exception) : bool := negb (bool_decide (e = InvalidURL)).

(** One call of the broker: its machine and clock, what other processes did to the store
    before it, whether the database opens, and the class of the exception where its machine
    has no answer to the request. *)
Record Turn := mkTurn {
  tn_machine : Machine;
  tn_now : string;
  tn_later : string;
  tn_others : CapDb → CapDb;
  tn_db_opens : bool;
  tn_failure : http_exception;
}.
(** The download of an artifact: what the client gets, and what the disk does with it:
    whether the partial file opens, the size up to which it can grow, whether it can be
    unlinked and whether it can be moved. *)
Inductive stream_end := EndOfStream | StreamBroken (e : http_exception) | StreamCrashed.
Inductive stream := NoResponse (e : http_exception) | Streamed (status : Z) (chunks : list Z) (ending : stream_end).
Record Disk := mkDisk { dk_opens : bool; dk_room : Z; dk_unlinks : bool; dk_replaces : bool }.

Record SeamEnv := mkSeamEnv {
  sv_registry : option ConnectorRegistry;
  sv_rnd : Q → float;
  sv_float_of_text : string → option float;
  sv_float_repr : float → string;
  sv_sha256 : string → string;
  sv_mail_recipients : string → option (list string);
  sv_iso : string → option (bool * Z);
  sv_turn : nat → Turn;
  sv_monotonic : nat → Q;
  (** The web read. *)
  sv_net : NetLib;
  sv_resolver : nat → string → option (list string);
  sv_builds : nat → Outgoing → bool;
  sv_send : nat → Outgoing → option HopResponse;
  sv_scrub : string → string * Z;
  sv_digest : string → string;
  (** The short-call client. *)
  sv_llm_loaded : dict;
  sv_loads : string → option json;
  sv_dumps : json → string;
  sv_llm_clock : nat → string;
  sv_http : nat → json → reply;
  sv_readable : nat → bool;
  sv_writable : nat → bool;
  (** Files and downloads. *)
  sv_fs : FileSystem;
  sv_root_made : bool;
  sv_url : string → option (string * string);
  sv_stream : string → stream;
  sv_disk : Disk;
  sv_var_dir : option string;
  (** The budget ledger: its configuration, its clock, the identifier of the next
      reservation and what other processes do to it while the handler runs. *)
  sv_budget : LoopConfig;
  sv_quotient : Q → Q;
  sv_sql_sum : list Q → float;
  sv_time : Q;
  sv_reservation_id : string;
  sv_others : list loop_call;
  (** Whether the ledger's database takes the disposal of the reservation; when it raises,
      its transaction is rolled back. *)
  sv_disposes : bool;
  (** Whether the audit connection opens, and its clock. *)
  sv_audit_opens : bool;
  sv_audit_now : string;
}.

(** The state a request works on.  [sm_log] tags what left the process with the call it
    belongs to. *)
Record Seam := mkSeam {
  sm_world : World CapDb;
  sm_llm : LlmState;
  sm_ledger : option ledger;
  sm_files : list (string * Z);
  sm_calls : nat;
  sm_reads : nat;
  sm_log : list (nat * event);
}.
#[export] Instance Seam_rebuild : Rebuild Seam := λ s,
  mkSeam s.(sm_world) s.(sm_llm) s.(sm_ledger) s.(sm_files) s.(sm_calls) s.(sm_reads) s.(sm_log).

(** A handler raises a classified failure, any other exception, or (in the model) has
    used up the bound on its polls. *)
Inductive failure := Classified (e : SeamError) | Crash | OutOfPolls.
Definition seam_m (A : Type) : Type := op Seam failure A.
Definition sret {A} (a : A) : seam_m A := λ s, (Ok a, s).
Definition sraise {A} (f : failure) : seam_m A := λ s, (Err f, s).
Definition srefuse {A} (e : SeamError) : seam_m A := sraise (Classified e).
Definition slift {A} (m : result SeamError A) : seam_m A := λ s, (map_err Classified m, s).
Definition sbind {A B} (m : seam_m A) (f : A → seam_m B) : seam_m B := λ s,
  match m s with (Ok a, s') => f a s' | (Err e, s') => (Err e, s') end.
Declare Scope seam_scope.
Notation "'let!' x ':=' m 'in' k" := (sbind m (λ x, k))
  (at level 10, x binder, m at level 100, k at level 200) : seam_scope.
Open Scope seam_scope.
(** [with _billable_scope(): body] *)
Definition billable_scope {A} (body : seam_m A) : seam_m A := λ s,
  match body s with
  | (Err (Classified e), s') => (Err (Classified (after_billable_work e)), s')
  | r => r
  end.

(** ** Failures of the broker and of the network *)

Definition UNREACHED_DENIALS : list string := ["credential_missing"; "capability_unprovisioned"; "credential_unavailable"].
Definition UNREACHED : list http_exception := [ConnectError; ConnectTimeout; UnsupportedProtocol; InvalidURL; ProxyError].
Definition from_transport (cause : http_exception) : SeamError :=
  if bool_decide (cause ∈ UNREACHED) then SeamUnavailable "transport_unreached" else SeamUnknown "transport_ambiguous".
Definition from_broker_denial (cause : http_exception) (d : BrokerDenied) : SeamError :=
  if bool_decide (d.(b_reason) = "audit_finalization_failed") then SeamUnknown d.(b_reason)
  else if bool_decide (d.(b_reason) ∈ UNREACHED_DENIALS) then SeamUnavailable d.(b_reason)
  else if bool_decide (d.(b_reason) = "transport_error") then from_transport cause
  else SeamRefusedUnbilled d.(b_reason).
Definition from_llm_transport (cause : transport_cause) : SeamError :=
  match cause with
  | FromHttp _ => SeamRefused "model_refused"
  | FromUrl (NameUnresolved | HostError | ConnectRefused | CertRefused) => SeamUnavailable "model_unreached"
  | FromUrl _ | FromOs => SeamUnknown "model_ambiguous"
  end.

(** ** Artifacts *)

Definition ARTIFACT_HOST_SUFFIXES : list string := [".replicate.delivery"; "replicate.delivery"].
Definition MAX_ARTIFACT_BYTES : Z := 33554432.
Definition artifact_host_allowed (host : string) : bool :=
  existsb (λ suffix,
    let domain := lower (lstrip_by (Ascii.eqb ".") suffix) in
    negb (bool_decide (domain = "")) && (bool_decide (host = domain) || endswith ("." +:+ domain) host)) ARTIFACT_HOST_SUFFIXES.

Definition artifact_root (var_dir instance_id : string) : string := var_dir +:+ "/loops/artifacts/" +:+ instance_id.
Definition artifact_path (var_dir instance_id artifact_name : string) : result SeamError string :=
  if negb (match_line ARTIFACT_NAME_RE artifact_name) then Err (SeamRefused "invalid_arguments")
  else if negb (match_line INSTANCE_RE instance_id) then Err (SeamRefused "bad_instance")
  else Ok (artifact_root var_dir instance_id +:+ "/" +:+ artifact_name).

Definition remove_file (path : string) (files : list (string * Z)) : list (string * Z) :=
  List.filter (λ f, negb (bool_decide (f.1 = path))) files.
(** [destination.with_name(f".{destination.name}.part")] *)
Definition part_name (destination : string) : string :=
  path_join (dirname destination) ("." +:+ basename destination +:+ ".part").

(** The size of the partial file when the writing ends, and why it failed: too many bytes,
    or a disk that takes no more. *)
Fixpoint write_chunks (room written : Z) (chunks : list Z) : Z * option failure :=
  match chunks with
  | [] => (written, None)
  | n :: chunks =>
      if MAX_ARTIFACT_BYTES <? written + n then (written, Some (Classified (SeamRefused "artifact_too_large")))
      else if room <? written + n then (written, Some Crash)
      else write_chunks room (written + n) chunks
  end.

(** ** Requests and capabilities *)

Record SeamRequest := mkSeamRequest {
  sq_instance_id : string;
  sq_capability : string;
  sq_args : dict;
  sq_var_dir : string;
  sq_db_path : string;
}.
Definition REPLICATE_GENERATE : string := "replicate.generate".
Definition MODEL_COMPLETE : string := "model.complete".
Definition WEB_FETCH : string := "web.fetch".
Definition PAID_CAPABILITIES : list string := [REPLICATE_GENERATE; MODEL_COMPLETE].
Definition TERMINAL_PREDICTION_STATES : list string := ["succeeded"; "failed"; "canceled"].
Definition CREATION_RETRIES : nat := 3.
Definition POLL_SECONDS : Q := 150.

(** A validated text argument. *)
Definition arg_text (key : string) (args : dict) : string := match dict_get key args with Some (JStr s) => s | _ => "" end.
Definition arg_or (key : string) (v : json) (args : dict) : json := default v (dict_get key args).
Definition holder_of (instance_id : string) : string := "loop:" +:+ instance_id.
Definition loop_context (instance_id : string) : AuditContext :=
  mkContext (holder_of instance_id) (holder_of instance_id) "" "" "" "" "" "" "" "".

Section seam.
Context (env : SeamEnv).

(** [str(d.get(key) or "")] *)
Definition text_or_empty (v : option json) : string :=
  match v with Some x => if truthy x then py_str env.(sv_float_repr) x else "" | None => "" end.

(** ** The broker *)

(** Some use of the capability store on a fresh connection. *)
Definition brokered {A} (f : Turn → op (World CapDb) call_error A) : seam_m A := λ s,
  let t := env.(sv_turn) s.(sm_calls) in
  if negb t.(tn_db_opens) then (Err Crash, s <| sm_calls := S s.(sm_calls) |>)
  else
    let w := mkWorld (t.(tn_others) <$> s.(sm_world).(w_store)) s.(sm_world).(w_tokens) s.(sm_world).(w_events) in
    let '(res, w') := f t w in
    let new := drop (length w.(w_events)) w'.(w_events) in
    (match res with
     | Ok a => Ok a
     | Err (Denied d) => Err (Classified (from_broker_denial t.(tn_failure) d))
     | Err (Raised _) => Err Crash
     end,
     s <| sm_world := w' |> <| sm_calls := S s.(sm_calls) |> <| sm_log := s.(sm_log) ++ map (pair s.(sm_calls)) new |>).

Definition broker_request (cap_id holder method path : string) (body : json) : CallRequest :=
  mkCallRequest cap_id None method path [] body None None None (Some holder) None None None (JBool false).
Definition broker_call (q : SeamRequest) (cap_id method path : string) (body : json) : seam_m CallResult :=
  brokered (λ t, BrokerCalls.call t.(tn_machine) env.(sv_registry) env.(sv_rnd) env.(sv_float_of_text) env.(sv_float_repr)
    env.(sv_sha256) env.(sv_mail_recipients) env.(sv_iso)
    (broker_request cap_id (holder_of q.(sq_instance_id)) method path body) (loop_context q.(sq_instance_id)) t.(tn_now) t.(tn_later)).

(** ** [replicate.generate] *)

Definition contained (candidate root : string) : result failure string :=
  if negb env.(sv_root_made) then Err Crash
  else match @inode_relative_parts env.(sv_fs) candidate root with
  | None => Err (Classified (SeamRefused "path_outside_root"))
  | Some _ =>
      match @fs_expanduser env.(sv_fs) candidate with
      | None => Err (Classified (SeamRefused "path_outside_root"))
      | Some p => match @fs_realpath env.(sv_fs) (@fs_abspath env.(sv_fs) p) with
                  | Some real => Ok real
                  | None => Err (Classified (SeamRefused "path_outside_root"))
                  end
      end
  end.

Definition prediction_body (args : dict) : json :=
  let seed := match dict_get "seed" args with Some v => [("seed", v)] | None => [] end in
  JDict [("input", JDict ([("prompt", arg_or "prompt" JNull args); ("aspect_ratio", arg_or "aspect_ratio" (JStr "1:1") args);
                           ("output_format", arg_or "output_format" (JStr "png") args); ("num_outputs", JInt 1)] ++ seed))].

(** The creation loop, with [retries] more attempts after this one. *)
Fixpoint create_prediction (retries : nat) (q : SeamRequest) : seam_m dict :=
  let! response := broker_call q REPLICATE_GENERATE "POST" ("/models/" +:+ arg_text "model" q.(sq_args) +:+ "/predictions")
                     (prediction_body q.(sq_args)) in
  match response.(rt_body) with
  | JDict payload =>
      let status := response.(rt_status) in
      if response.(rt_ok) then sret payload
      else
        let rejected :=
          if (400 <=? status) && (status <? 500) then srefuse (SeamRefusedUnbilled "prediction_rejected")
          else srefuse (SeamUnknown "prediction_upstream_error") in
        if bool_decide (status ∈ [404; 429]) then match retries with S retries => create_prediction retries q | O => rejected end
        else rejected
  | _ => srefuse (SeamUnknown "prediction_unparseable")
  end.

Definition read_clock : seam_m Q := λ s, (Ok (env.(sv_monotonic) s.(sm_reads)), s <| sm_reads := S s.(sm_reads) |>).

(** The polling loop; [polls] bounds it in the model only. *)
Fixpoint poll (polls : nat) (q : SeamRequest) (prediction_id : string) (deadline : Q) (payload : dict) : seam_m dict :=
  if bool_decide (text_or_empty (dict_get "status" payload) ∈ TERMINAL_PREDICTION_STATES) then sret payload
  else match polls with
  | O => sraise OutOfPolls
  | S polls =>
      let! now := read_clock in
      if negb (Qle_bool now deadline) then srefuse (SeamUnknown "prediction_timeout")
      else
        let! polled := broker_call q REPLICATE_GENERATE "GET" ("/predictions/" +:+ prediction_id) JNull in
        match polled.(rt_body) with
        | JDict payload => poll polls q prediction_id deadline payload
        | _ => srefuse (SeamUnknown "prediction_unparseable")
        end
  end.

Definition set_files (files : list (string * Z)) : seam_m () := λ s, (Ok tt, s <| sm_files := files |>).
Definition get_files : seam_m (list (string * Z)) := λ s, (Ok s.(sm_files), s).
(** Remove the partial file, suppressing what the disk says, and raise. *)
Definition discard {A} (destination : string) (f : failure) : seam_m A :=
  let! files := get_files in
  let! _ := set_files (if env.(sv_disk).(dk_unlinks) then remove_file (part_name destination) files else files) in
  sraise f.
(** What the two handlers of the download make of an exception of the client. *)
Definition stream_failed {A} (destination : string) (e : http_exception) : seam_m A :=
  discard destination (if is_http_error e then Classified (after_billable_work (from_transport e)) else Crash).

Definition download_artifact (url destination : string) : seam_m Z :=
  match env.(sv_url) url with
  | None => sraise Crash
  | Some (scheme, host) =>
      if negb (bool_decide (scheme = "https")) || negb (artifact_host_allowed (lower host))
      then srefuse (SeamRefused "artifact_host_not_allowed")
      else
        let temporary := part_name destination in
        let failed e := discard destination (Classified e) in
        match env.(sv_stream) url with
        | NoResponse e => stream_failed destination e
        | Streamed status chunks ending =>
            if 400 <=? status then failed (SeamRefused "artifact_fetch_failed")
            else if 300 <=? status then failed (SeamRefused "artifact_redirected")
            else if negb env.(sv_disk).(dk_opens) then discard destination Crash
            else
              let! files := get_files in
              let '(written, why) := write_chunks env.(sv_disk).(dk_room) 0 chunks in
              let! _ := set_files (dict_set temporary written files) in
              match why, ending with
              | Some f, _ => discard destination f
              | None, StreamBroken e => stream_failed destination e
              | None, StreamCrashed => discard destination Crash
              | None, EndOfStream =>
                  if written =? 0 then failed (SeamRefused "artifact_empty")
                  else if negb env.(sv_disk).(dk_replaces) then sraise Crash
                  else
                    let! files := get_files in
                    let! _ := set_files (dict_set destination written (remove_file temporary files)) in
                    sret written
              end
        end
  end.

Definition output_urls (payload : dict) : list string :=
  let items := match dict_get "output" payload with Some (JList l) => l | Some v => [v] | None => [] end in
  omap (λ v, match v with JStr s => Some s | _ => None end) items.

Definition finish_prediction (polls : nat) (q : SeamRequest) (destination : string) (payload : dict) : seam_m dict :=
  let prediction_id := text_or_empty (dict_get "id" payload) in
  let! start := read_clock in
  let! payload := poll polls q prediction_id (start + POLL_SECONDS)%Q payload in
  if negb (bool_decide (text_or_empty (dict_get "status" payload) = "succeeded")) then srefuse (SeamRefused "prediction_failed")
  else match output_urls payload with
  | [] => srefuse (SeamRefused "prediction_without_output")
  | url :: _ =>
      let! bytes := download_artifact url destination in
      sret [("prediction_id", JStr prediction_id); ("model", arg_or "model" JNull q.(sq_args));
            ("artifact_path", JStr destination); ("artifact_name", arg_or "artifact_name" JNull q.(sq_args)); ("bytes", JInt bytes)]
  end.

Definition run_replicate_generate (polls : nat) (q : SeamRequest) : seam_m dict :=
  let root := artifact_root q.(sq_var_dir) q.(sq_instance_id) in
  let! path := slift (artifact_path q.(sq_var_dir) q.(sq_instance_id) (arg_text "artifact_name" q.(sq_args))) in
  let! destination := (λ s, (contained path root, s)) in
  let! payload := create_prediction (CREATION_RETRIES - 1) q in
  billable_scope (finish_prediction polls q destination payload).

(** ** [model.complete] *)

(** What the capturing guard remembers of the call. *)
Definition last_call (purpose : string) (c : Completion) : json :=
  JDict [("model", c.(cm_model)); ("prompt_tokens", c.(cm_prompt)); ("completion_tokens", c.(cm_completion));
         ("estimated_usd_cost", JFloat c.(cm_cost)); ("purpose", JStr purpose); ("cost_quality", JStr "estimated");
         ("cost_source", JStr "llm.budget.rates")].
Definition temperature (args : dict) : option json :=
  match dict_get "temperature_milli" args with
  | Some (JInt n) => Some (JFloat (fl_div env.(sv_rnd) (fl_int n) 1000))
  | _ => None
  end.
Definition run_model_complete (q : SeamRequest) : seam_m dict := λ s,
  match guard_config env.(sv_llm_loaded) with
  | Err _ => (Err Crash, s)
  | Ok cfg =>
      let client := short_call_client cfg (arg_or "model" JNull q.(sq_args)) false in
      let purpose := "loop:" +:+ q.(sq_instance_id) +:+ ":" +:+ arg_text "purpose" q.(sq_args) in
      let request := mkComplete (arg_or "messages" JNull q.(sq_args)) JNull (temperature q.(sq_args))
                       (dict_get "max_tokens" q.(sq_args)) purpose None in
      let '(res, llm) := complete env.(sv_rnd) env.(sv_float_of_text) env.(sv_float_repr) env.(sv_loads) env.(sv_dumps)
                           env.(sv_llm_clock) env.(sv_http) env.(sv_readable) env.(sv_writable) client request s.(sm_llm) in
      (match res with
       | Ok c => Ok [("text", c.(cm_content)); ("cost", last_call purpose c)]
       | Err (LLMBudgetExceeded | LLMBudgetUnknown) => Err (Classified (SeamRefusedUnbilled "budget_exceeded"))
       | Err (LLMTransport cause) => Err (Classified (from_llm_transport cause))
       | Err (LLMInvalidResponse | LLMClientError) => Err (Classified (SeamRefused "model_refused"))
       | Err (Crashed _) => Err Crash
       end, s <| sm_llm := llm |>)
  end.

(** ** [web.fetch] *)

Definition receipt_json (r : Receipt) : json :=
  JDict [("url", JStr r.(rp_url)); ("resolved_ip", JStr r.(rp_resolved_ip)); ("status_code", JInt r.(rp_status_code));
         ("size_bytes", JInt r.(rp_size_bytes)); ("redirect_count", JInt (Z.of_nat r.(rp_redirect_count)));
         ("redactions", JInt r.(rp_redactions)); ("truncated", JBool r.(rp_truncated))].
Definition run_web_fetch (q : SeamRequest) : seam_m dict :=
  let! res := brokered (λ t, fetch t.(tn_machine) env.(sv_net) env.(sv_registry) env.(sv_rnd) env.(sv_float_repr) env.(sv_sha256)
    env.(sv_mail_recipients) env.(sv_iso) env.(sv_resolver) env.(sv_builds) env.(sv_send) env.(sv_scrub) env.(sv_digest)
    (mkFetchRequest (arg_text "url" q.(sq_args)) None "GET" None [] (Some (holder_of q.(sq_instance_id))) None None)
    (loop_context q.(sq_instance_id)) t.(tn_now) t.(tn_later)) in
  sret [("content", JStr res.(fe_content)); ("status", JInt res.(fe_status)); ("receipt", receipt_json res.(fe_receipt))].

(** ** The registry of the seam *)

Record ParentCapability := mkParent {
  pc_action_class : ActionClass;
  pc_broker_capability : string;
  pc_args : schema;
  pc_run : SeamRequest → seam_m dict;
}.
Definition CAPABILITIES (polls : nat) : list (string * ParentCapability) :=
  [(REPLICATE_GENERATE, mkParent SANDBOXED_CREATION REPLICATE_GENERATE REPLICATE_ARGS (run_replicate_generate polls));
   (MODEL_COMPLETE, mkParent SANDBOXED_CREATION "" MODEL_ARGS run_model_complete);
   (WEB_FETCH, mkParent READ_ONLY WEB_FETCH WEB_FETCH_ARGS run_web_fetch)].
Definition INSTANCE_CAPABILITIES : list (string * list string) :=
  [("render_probe", [REPLICATE_GENERATE; MODEL_COMPLETE]); ("grandfather_clock_html", []); ("flowers_collection", [REPLICATE_GENERATE])].
Definition granted_capabilities (instance_id : string) : list string := default [] (dict_get instance_id INSTANCE_CAPABILITIES).

(** ** Audit and cost *)

Definition seam_row (instance_id capability_id reason decision : string) (allowed : bool) : BrokerCall :=
  let holder := holder_of instance_id in
  mkCall holder holder capability_id "seam" capability_id allowed reason None "" "" "" "" holder decision "" "" "" "" "" "" "" ""
    decision "" "" 0 "" "" "".
(** Suppressed when the store cannot be opened. *)
Definition audit_seam_outcome (db_path instance_id capability_id reason decision : string) (allowed : bool) (s : Seam) : Seam :=
  if bool_decide (db_path = "") || negb env.(sv_audit_opens) then s
  else match s.(sm_world).(w_store) with
  | Some d =>
      let d' := (log_call (seam_row instance_id capability_id reason decision allowed) env.(sv_audit_now) d).2 in
      s <| sm_world := mkWorld (Some d') s.(sm_world).(w_tokens) s.(sm_world).(w_events) |>
  | None => s
  end.

Definition estimate_cost_for_capability (capability_id : string) : Q :=
  if bool_decide (capability_id = REPLICATE_GENERATE) then 1 # 10
  else if bool_decide (capability_id = MODEL_COMPLETE) then 2 # 100
  else 1.
(** [None]: the conversion raises. *)
Definition extract_cost_from_result (capability_id : string) (res : dict) : option (option float * string) :=
  let unknown := Some (None, "unknown") in
  if bool_decide (capability_id = MODEL_COMPLETE) then
    match dict_get "cost" res with
    | Some (JDict cost) =>
        match dict_get "estimated_usd_cost" cost with
        | Some (JStr _ | JNull | JList _ | JDict _) | None => unknown
        | Some actual => match py_float env.(sv_rnd) env.(sv_float_of_text) actual with Ok x => Some (Some x, "estimated") | Err _ => None end
        end
    | _ => unknown
    end
  else unknown.

(** ** One request *)

Record Answer := mkAnswer { an_outcome : outcome; an_reason : string; an_result : json }.
Definition answer (o : outcome) (reason : string) : Answer := mkAnswer o reason JNull.

(** The gates before any effect; [None]: an exception that is not a [SeamError]. *)
Definition gates (polls : nat) (payload : dict) (instance_id capability_id : string) :
    option (result SeamError (ParentCapability * dict)) :=
  match py_int (match dict_get "v" payload with Some v => if truthy v then v else JInt 0 | None => JInt 0 end) with
  | Err _ => None
  | Ok v => Some (
      if negb (v =? 1) then Err (SeamRefused "bad_protocol")
      else if negb (match_line INSTANCE_RE instance_id) then Err (SeamRefused "bad_instance")
      else if negb (match_line CAPABILITY_RE capability_id) then Err (SeamRefused "bad_capability")
      else match dict_get capability_id (CAPABILITIES polls) with
      | None => Err (SeamRefused "unknown_capability")
      | Some capability =>
          if negb (bool_decide (capability_id ∈ granted_capabilities instance_id)) then Err (SeamRefused "not_granted")
          else if negb (bool_decide (capability.(pc_action_class) ∈ AUTO_CLASSES)) then Err (SeamRefused "requires_human_approval")
          else match dict_get "args" payload with
          | Some (JDict raw) => args ← validate_args env.(sv_float_repr) capability.(pc_args) raw; Ok (capability, args)
          | _ => Err (SeamRefused "invalid_arguments")
          end
      end)
  end.

Definition or_unknown (s : string) : string := if bool_decide (s = "") then "unknown" else s.

(** The ledger's part in a request. *)
Abbreviation reserving := (reserve env.(sv_rnd) env.(sv_quotient) env.(sv_sql_sum) env.(sv_budget) env.(sv_time) env.(sv_reservation_id)).
Abbreviation others := (run env.(sv_rnd) env.(sv_quotient) env.(sv_sql_sum) env.(sv_budget) env.(sv_others)).

(** The reservation of a paid capability: [None] when none is made. *)
Definition reserve_budget (instance_id capability_id : string) (s : Seam) : result budget_error (option Reservation) * Seam :=
  match s.(sm_ledger) with
  | Some d =>
      if bool_decide (capability_id ∈ PAID_CAPABILITIES) then
        let '(res, d') := reserving instance_id capability_id (Some (Fin (estimate_cost_for_capability capability_id))) None d in
        (r ← res; Ok (Some r), s <| sm_ledger := Some d' |>)
      else (Ok None, s)
  | None => (Ok None, s)
  end.
(** A write of the ledger whose exceptions are logged and swallowed. *)
Definition ledger_after (d d' : ledger) : ledger := if env.(sv_disposes) then d' else d.
(** [_dispose_reservation]. *)
Definition dispose_reservation (reservation : option Reservation) (may_have_billed : bool) (s : Seam) : Seam :=
  match s.(sm_ledger), reservation with
  | Some d, Some r =>
      s <| sm_ledger := Some (ledger_after d
        (if may_have_billed then (settle r.(rv_id) None "unknown" false d).2 else (release r.(rv_id) d).2)) |>
  | _, _ => s
  end.
Definition settle_actual (capability_id : string) (reservation : option Reservation) (res : dict) (s : Seam) : option Seam :=
  match s.(sm_ledger), reservation with
  | Some d, Some r =>
      if bool_decide (capability_id ∈ PAID_CAPABILITIES) then
        '(actual, quality) ← extract_cost_from_result capability_id res;
        Some (s <| sm_ledger := Some (ledger_after d (settle r.(rv_id) actual quality (negb (bool_decide (quality = "unknown"))) d).2) |>)
      else Some s
  | _, _ => Some s
  end.

(** The handler, the disposal of its reservation and the answer; [None]: an exception. *)
Definition perform (capability : ParentCapability) (reservation : option Reservation) (q : SeamRequest) (s : Seam) : option Answer * Seam :=
  let capability_id := q.(sq_capability) in
  let audit reason decision allowed s := audit_seam_outcome q.(sq_db_path) q.(sq_instance_id) capability_id reason decision allowed s in
  let unbrokered := bool_decide (capability.(pc_broker_capability) = "") in
  let '(res, s) := capability.(pc_run) q s in
  let s := s <| sm_ledger := others <$> s.(sm_ledger) |> in
  match res with
  | Err (Classified e) =>
      let s := dispose_reservation reservation e.(se_may_have_billed) s in
      let s := if unbrokered then audit e.(se_reason) (outcome_value e.(se_outcome)) false s else s in
      (Some (answer e.(se_outcome) e.(se_reason)), s)
  | Err Crash =>
      let s := dispose_reservation reservation true s in
      (Some (answer OUTCOME_UNKNOWN "handler_error"), audit "handler_error" "error" false s)
  | Err OutOfPolls => (None, s)
  | Ok r =>
      let s := if unbrokered then audit "" "allowed" true s else s in
      match settle_actual capability_id reservation r s with
      | Some s => (Some (mkAnswer OUTCOME_OK "" (JDict r)), s)
      | None => (None, s)
      end
  end.

(** [execute]; [None]: it raises. *)
Definition execute (polls : nat) (payload : dict) (db_path : string) (s : Seam) : option Answer * Seam :=
  let instance_id := text_or_empty (dict_get "instance" payload) in
  let capability_id := text_or_empty (dict_get "capability" payload) in
  let refused reason s := audit_seam_outcome db_path instance_id capability_id reason "refused" false s in
  match gates polls payload instance_id capability_id with
  | None => (None, s)
  | Some (Err e) =>
      (Some (answer e.(se_outcome) e.(se_reason)),
       audit_seam_outcome db_path (or_unknown instance_id) (or_unknown capability_id) e.(se_reason) "refused" false s)
  | Some (Ok (capability, args)) =>
      if bool_decide (db_path = "") && negb (bool_decide (capability.(pc_broker_capability) = ""))
      then (Some (answer OUTCOME_UNAVAILABLE "audit_unavailable"), s)
      else match env.(sv_var_dir) with
      | None =>
          (Some (answer OUTCOME_UNAVAILABLE "runtime_path_unavailable"),
           audit_seam_outcome db_path instance_id capability_id "runtime_path_unavailable" "unavailable" false s)
      | Some var_dir =>
          match reserve_budget instance_id capability_id s with
          | (Err (BudgetRefused rf), s) => (Some (answer OUTCOME_REFUSED rf.(rf_reason)), refused rf.(rf_reason) s)
          | (Err _, s) => (None, s)
          | (Ok reservation, s) =>
              match s.(sm_ledger) with
              | None =>
                  if bool_decide (capability_id ∈ PAID_CAPABILITIES)
                  then (Some (answer OUTCOME_REFUSED "budget_ledger_unavailable"), refused "budget_ledger_missing" s)
                  else perform capability reservation (mkSeamRequest instance_id capability_id args var_dir db_path) s
              | Some _ => perform capability reservation (mkSeamRequest instance_id capability_id args var_dir db_path) s
              end
          end
      end
  end.

(** ** The transport *)

Definition MAX_REQUEST_BYTES : Z := 65536.
Definition MAX_RESPONSE_BYTES : Z := 524288.

(** The bytes received until one chunk holds a newline or the peer stops; [None]: too many. *)
Fixpoint receive (size : Z) (chunks : list string) : option string :=
  match chunks with
  | [] | "" :: _ => Some ""
  | chunk :: chunks =>
      let size := size + Z.of_nat (String.length chunk) in
      if MAX_REQUEST_BYTES <? size then None
      else if has_char newline chunk then Some chunk
      else rest ← receive size chunks; Some (chunk +:+ rest)
  end.
Definition first_line (raw : string) : string := default "" (head (split newline raw)).
(** [_write]; [encode] is the text of the answer. *)
Definition wire (encode : Answer → string) (a : Answer) : Answer :=
  if MAX_RESPONSE_BYTES <? Z.of_nat (String.length (encode a)) then answer OUTCOME_REFUSED "response_too_large" else a.

(** One connection: [_handle], and the answer of [_serve] when it raises. *)
Definition handle (polls : nat) (encode : Answer → string) (chunks : list string) (db_path : string) (s : Seam) : Answer * Seam :=
  match receive 0 chunks with
  | None => (wire encode (answer OUTCOME_REFUSED "request_too_large"), s)
  | Some raw =>
      match env.(sv_loads) (first_line raw) with
      | Some (JDict payload) =>
          match execute polls payload db_path s with
          | (Some a, s) => (wire encode a, s)
          | (None, s) => (wire encode (answer OUTCOME_UNKNOWN "handler_error"), s)
          end
      | _ => (wire encode (answer OUTCOME_REFUSED "malformed_request"), s)
      end
  end.
End seam.
