(* ===== verification/LoopEffectsSpec.v ===== *)
(** * LoopEffectsSpec: what the credential seam guarantees

    No effect without a grant, validated arguments and, when it is paid, a reservation; an
    absence is never claimed for work that may have been bought; every reservation is
    disposed of; the daily caps hold over any sequence of requests; artifacts are whole. *)

From Stdlib Require Import Ascii QArith.
From stdpp Require Import pretty.
From S2P Require Import Prelude PyString PyPath PathContainment PyRegex PyJson Records Connectors Grants CapabilityStore Broker BrokerCalls BrokerFixtures BrokerSpec WebRead LlmCalls LlmCallsSpec LoopBudget LoopBudgetSpec SeamArgs LoopEffects.
Open Scope Z_scope.

(** ** What a brokered call says about the requests it sent *)

Section broker.
Context (mc : Machine).
Context (registry : option ConnectorRegistry) (rnd : Q → float) (float_of_text : string → option float)
        (float_repr : float → string) (sha256 : string → string)
        (mail_recipients : string → option (list string)) (iso : string → option (bool * Z)).
Context {S : Type} `{GrantStore S}.
Implicit Types (w : World S) (r : CallRequest) (c : Capability).
Abbreviation dispatched := (dispatch mc registry rnd float_of_text (S := S)).
Abbreviation unlogged := (call_unlogged mc registry rnd float_of_text float_repr sha256 mail_recipients iso (S := S)).
Abbreviation brokered_call := (call mc registry rnd float_of_text float_repr sha256 mail_recipients iso (S := S)).

Definition transport_denial (cap : string) : result call_error CallResult := Err (Denied (mkDenied "transport_error" cap "")).
(** The result of a call that sent the request: its answer, or the transport. *)
Definition told (r : CallRequest) (request : Outgoing) (res : result call_error CallResult) : Prop :=
  request.(out_method) = upper r.(rc_method) ∧
  match mc.(mc_send) request with
  | Some response => ∃ a, res = Ok a ∧ a.(rt_status) = response.(rs_status) ∧ a.(rt_ok) = is_success response.(rs_status)
  | None => res = transport_denial r.(rc_cap_id)
  end.

(** Once a request has left, a dispatch says what the provider did with it. *)
Lemma dispatch_told c spec r b w res w' new request : dispatched c spec r b w = (res, w') → w'.(w_events) = w.(w_events) ++ new →
  EvSend request ∈ new → told r request res.
Proof.
  assert (Hno : ∀ evs tail rq, Forall (credential_event mc registry c) evs → EvSend rq ∈ evs ++ tail → EvSend rq ∈ tail).
  { intros evs tail rq HP [Hin|]%elem_of_app; [|done]. rewrite Forall_forall in HP. by destruct (HP _ Hin). }
  unfold dispatch. destruct (is_inprocess c).
  { destruct (dispatch_echo r.(rc_body)); intros [= <- <-] Hn Hin.
    - cbn in Hn. apply app_inv_head in Hn as <-. by apply list_elem_of_singleton in Hin.
    - rewrite <-(app_nil_r (w_events w)) in Hn at 1. apply app_inv_head in Hn as <-. by apply not_elem_of_nil in Hin. }
  intros Hd Hn Hin. apply bind_cases in Hd as [(e & Ha & ->)|([[hs ps] cert] & w1 & Ha & Hb)];
    destruct (auth_headers_grows _ _ _ _ _ _ _ _ _ _ _ _ _ Ha) as (_ & ev1 & He1 & HP1).
  { rewrite Hn in He1. apply app_inv_head in He1 as ->. rewrite <-(app_nil_r ev1) in Hin. by apply Hno, not_elem_of_nil in Hin. }
  apply bind_cases in Hb as [(e & Hf & ->)|(sf & w2 & Hf & Hb)];
    destruct (auth_form_grows _ _ _ _ _ _ _ Hf) as (_ & ev2 & He2 & HP2); rewrite He1, <-app_assoc in He2.
  { rewrite Hn in He2. apply app_inv_head in He2 as ->. apply Hno in Hin; [|done]. rewrite <-(app_nil_r ev2) in Hin.
    by apply Hno, not_elem_of_nil in Hin. }
  apply bind_cases in Hb as [(e & [=] & _)|(u & w3 & [= _ <-] & Hb)].
  assert (new = ev1 ++ ev2 ++ [EvSend (mkOutgoing (upper r.(rc_method)) (rstrip_by (Ascii.eqb "/") spec.(h_base_url) +:+ r.(rc_path)) hs
    (dict_update r.(rc_query) (map (λ p, (p.1, JStr p.2)) ps)) r.(rc_body)
    (dict_update match r.(rc_form) with Some (JDict f) => f | _ => [] end sf) cert None None)]) as ->.
  { apply (app_inv_head w.(w_events)). rewrite <-Hn. destruct (mc_send mc _); injection Hb as _ <-; cbn [w_events];
      rewrite He2, <-!app_assoc; done. }
  apply Hno in Hin; [|done]. apply Hno in Hin; [|done]. apply list_elem_of_singleton in Hin as [= ->].
  unfold told. cbn [out_method]. split; [done|].
  destruct (mc_send mc _) as [response|] eqn:Hsend; injection Hb as <- <-; [|done]. by eexists.
Qed.

Lemma dispatch_one c spec r b w res w' new : dispatched c spec r b w = (res, w') → w'.(w_events) = w.(w_events) ++ new →
  (length (select is_send new) ≤ 1)%nat.
Proof.
  intros (_ & evs & HP & Hor)%dispatch_cases Hn.
  assert (select is_send evs = []) as Hs by (apply select_none; rewrite Forall_forall in HP; intros e He; specialize (HP e He); by destruct e).
  destruct Hor as [(He & _)|(e & _ & He & _)]; rewrite Hn in He; apply app_inv_head in He as ->; [rewrite Hs; cbn; lia|].
  rewrite select_app, Hs. cbn. destruct (is_send e); cbn; lia.
Qed.
Lemma unlogged_one r dry now later w res w' new : unlogged r dry now later w = (res, w') → w'.(w_events) = w.(w_events) ++ new →
  (length (select is_send new) ≤ 1)%nat.
Proof.
  intros [(He & _ & _)|(-> & c & b & dok & w1 & spec & Ha & _ & _ & Hd)]%unlogged_cases Hn.
  - rewrite Hn in He. rewrite <-(app_nil_r (w_events w)) in He at 2. apply app_inv_head in He as ->. cbn. lia.
  - apply authorized_quiet in Ha as [He _]. rewrite <-He in Hn. by eapply dispatch_one.
Qed.

Lemma unlogged_told r dry now later w res w' new request : unlogged r dry now later w = (res, w') →
  w'.(w_events) = w.(w_events) ++ new → EvSend request ∈ new → dry = false ∧ told r request res.
Proof.
  intros [(He & _ & _)|(-> & c & b & dok & w1 & spec & Ha & _ & _ & Hd)]%unlogged_cases Hn Hin.
  - rewrite Hn in He. rewrite <-(app_nil_r (w_events w)) in He at 2. apply app_inv_head in He as ->. by apply not_elem_of_nil in Hin.
  - apply authorized_quiet in Ha as [He _]. rewrite <-He in Hn. split; [done|]. by eapply dispatch_told.
Qed.

(** So does the audited call, unless it could not close its audit; it sends at most once. *)
Lemma call_told r cx now later w res w' : brokered_call r cx now later w = (res, w') →
  ∃ new, w'.(w_events) = w.(w_events) ++ new ∧ (length (select is_send new) ≤ 1)%nat ∧ ∀ request, EvSend request ∈ new →
    told r request res ∨ request.(out_method) = upper r.(rc_method) ∧ res = Err (Denied (mkDenied "audit_finalization_failed" r.(rc_cap_id) "")).
Proof.
  intros [[-> _]|(dry & _ & [(_ & Hu)|(cx' & c & names & o & w2 & _ & _ & Hu & Hend)])]%call_cases.
  - exists []. rewrite app_nil_r. split; [done|]. split; [cbn; lia|]. by intros ? ?%not_elem_of_nil.
  - destruct (unlogged_effects _ _ _ _ _ _ _ _ _ _ _ _ _ _ _ Hu) as (new & Hn & _). exists new. split; [done|].
    split; [by eapply unlogged_one|]. intros request Hin. left. by eapply unlogged_told.
  - destruct (unlogged_effects _ _ _ _ _ _ _ _ _ _ _ _ _ _ _ Hu) as (new & Hn & _).
    pose proof (unlogged_one _ _ _ _ _ _ _ _ Hu Hn) as Hone.
    assert (Htold : ∀ request, EvSend request ∈ new → told r request o ∧ reached dry o = true).
    { intros request Hin. destruct (unlogged_told _ _ _ _ _ _ _ _ request Hu Hn Hin) as [-> [Hm Ht]]. split; [done|].
      destruct (mc_send mc request); [by destruct Ht as (a & -> & _)|by rewrite Ht]. }
    cbn [w_events after] in Hn. rewrite <-app_assoc in Hn. set (intent := call_row _ _ _ _ _ _) in Hn.
    assert (∃ tail, w'.(w_events) = w2.(w_events) ++ map EvAudit tail
      ∧ (res = BrokerSpec.answer r.(rc_cap_id) o ∨ res = Err (Denied (mkDenied (audit_failure_reason (reached dry o)) r.(rc_cap_id) "")))) as (tail & Hw & Hres).
    { destruct Hend as [[-> ->]|[-> ->]]; [by eexists [_]; auto|]. exists []. rewrite app_nil_r. auto. }
    assert (∀ l, select is_send (map EvAudit l) = []) as Hno by (intros l; apply select_none; by intros ? (? & -> & _)%list_elem_of_fmap).
    exists (map EvAudit [intent] ++ new ++ map EvAudit tail). rewrite Hw, Hn, <-!app_assoc. split; [done|].
    split; [by rewrite !select_app, !Hno, app_nil_r|].
    intros request [(? & [=] & _)%list_elem_of_fmap|[Hin|(? & [=] & _)%list_elem_of_fmap]%elem_of_app]%elem_of_app.
    destruct (Htold _ Hin) as [[Hm Ht] Hr]. destruct Hres as [->| ->]; [|right; by rewrite Hr]. left. split; [done|].
    destruct (mc_send mc request); [destruct Ht as (a & -> & Ht); by exists a|]. by rewrite Ht.
Qed.
End broker.

(** ** Handlers *)

Create HintDb nothing.
Create HintDb unguarded.

Section seam.
Context (env : SeamEnv).
Implicit Types (s : Seam) (q : SeamRequest).

(** A request that may have been paid for: a POST the provider did not refuse with a client
    error, or that failed at a moment when its bytes may have been written.  [never_sent]
    goes by what [httpx] documents of each class: the connection was not established, or
    the URL was refused. *)
Definition never_sent (e : http_exception) : bool :=
  match e with
  | ConnectTimeout | ConnectError | PoolTimeout | ProxyError | UnsupportedProtocol | InvalidURL => true
  | ReadTimeout | WriteTimeout | ReadError | WriteError | CloseError | LocalProtocolError | RemoteProtocolError
  | DecodingError | TooManyRedirects | HTTPStatusError => false
  end.
Lemma unreached_never_sent e : e ∈ UNREACHED → never_sent e = true.
Proof. unfold UNREACHED. rewrite !elem_of_cons, elem_of_nil. by intros [->|[->|[->|[->|[->|[]]]]]]. Qed.
Definition billable_status (status : Z) : bool := negb ((400 <=? status) && (status <? 500)).
Definition purchase (e : nat * event) : bool :=
  match e with
  | (n, EvSend request) =>
      bool_decide (request.(out_method) = "POST")
      && match (env.(sv_turn) n).(tn_machine).(mc_send) request with
         | Some response => billable_status response.(rs_status)
         | None => negb (never_sent (env.(sv_turn) n).(tn_failure))
         end
  | _ => false
  end.
(** A short call that may have reached the model. *)
Definition unreached_reason (reason : url_reason) : bool :=
  match reason with NameUnresolved | HostError | ConnectRefused | CertRefused => true | _ => false end.
Definition model_purchase (n : nat) (payload : json) : bool :=
  match response_of env.(sv_loads) (env.(sv_http) n payload) with Err (LLMTransport (FromUrl reason)) => negb (unreached_reason reason) | _ => true end.
Definition model_purchases (n : nat) (sent : list json) : nat := length (select id (imap (λ i, model_purchase (n + i)) sent)).

(** What a computation appends to the log, the calls in order; the ledger is not its business. *)
Definition logs s s' (new : list (nat * event)) : Prop :=
  s'.(sm_log) = s.(sm_log) ++ new ∧ s'.(sm_ledger) = s.(sm_ledger) ∧ (s.(sm_calls) ≤ s'.(sm_calls))%nat
  ∧ Forall (λ e, (s.(sm_calls) ≤ e.1 < s'.(sm_calls))%nat) new.
(** The purchases between two states. *)
Definition purchases s s' : nat :=
  length (select purchase (drop (length s.(sm_log)) s'.(sm_log)))
  + model_purchases (length s.(sm_llm).(ll_sent)) (drop (length s.(sm_llm).(ll_sent)) s'.(sm_llm).(ll_sent)).

Lemma logs_refl s : logs s s [].
Proof. unfold logs. by rewrite app_nil_r. Qed.
Lemma logs_trans s1 s2 s3 a b : logs s1 s2 a → logs s2 s3 b → logs s1 s3 (a ++ b).
Proof.
  intros (H1 & H2 & H3 & H4) (H5 & H6 & H7 & H8). unfold logs. rewrite H5, H1, <-app_assoc. split_and!; [done|congruence|lia|].
  apply Forall_app. split; (eapply Forall_impl; [eassumption|]); cbn; lia.
Qed.

Lemma sbind_cases {A B} (m : seam_m A) (f : A → seam_m B) s res s' : sbind m f s = (res, s') →
  (∃ e, m s = (Err e, s') ∧ res = Err e) ∨ ∃ a s1, m s = (Ok a, s1) ∧ f a s1 = (res, s').
Proof. unfold sbind. destruct (m s) as [[a|e] s1]; [eauto|]. intros [= <- <-]. eauto. Qed.

(** *** The broker *)

Definition denial (reason : string) (e : SeamError) : Prop := ∃ cause d, e = from_broker_denial cause d ∧ d.(b_reason) = reason.

(** The request of a brokered call, its outcome for whoever asked, and its purchases. *)
Record brokered_ok (method : string) s (res : result failure CallResult) s' (new : list (nat * event)) : Prop := {
  bk_logs : logs s s' new;
  bk_same : s'.(sm_llm) = s.(sm_llm) ∧ s'.(sm_files) = s.(sm_files) ∧ s'.(sm_calls) = S s.(sm_calls);
  bk_method n request : (n, EvSend request) ∈ new → request.(out_method) = upper method;
  bk_one : (length (select purchase new) ≤ 1)%nat;
  bk_ok a : res = Ok a → select purchase new ≠ [] → billable_status a.(rt_status) = true;
  bk_err e : res = Err (Classified e) →
    (e.(se_may_have_billed) = false → select purchase new = [])
    ∧ (e.(se_outcome) = OUTCOME_UNAVAILABLE ∨ e.(se_may_have_billed) = true ∨ ∀ n request, (n, EvSend request) ∉ new);
}.

Lemma purchase_is_send n e : is_send e = false → purchase (n, e) = false.
Proof. by destruct e. Qed.
Lemma select_purchase_map n evs : (length (select is_send evs) ≤ 1)%nat → (length (select purchase (map (pair n) evs)) ≤ 1)%nat.
Proof.
  intros Hone. enough (length (select purchase (map (pair n) evs)) ≤ length (select is_send evs))%nat by lia. clear Hone.
  induction evs as [|e evs IH]; [done|]. unfold select in *. cbn [map List.filter]. pose proof (purchase_is_send n e) as He.
  destruct (is_send e), (purchase (n, e)); cbn; try lia.
Qed.

Lemma broker_call_ok q cap method path body s res s' : broker_call env q cap method path body s = (res, s') →
  ∃ new, brokered_ok method s res s' new.
Proof.
  unfold broker_call, brokered. set (t := sv_turn env (sm_calls s)). destruct (tn_db_opens t); cbn [negb].
  2: { intros [= <- <-]. exists []. split; [|done|by intros ? ? ?%not_elem_of_nil|cbn; lia|intros ? [=]|intros ? [=]].
       unfold logs. rewrite app_nil_r. cbn. split_and!; [done|done|lia|done]. }
  set (w := mkWorld _ _ _). destruct (call _ _ _ _ _ _ _ _ _ _ _ _ w) as [r0 w'] eqn:Hc.
  destruct (call_told _ _ _ _ _ _ _ _ _ _ _ _ _ _ _ Hc) as (new & Hn & Hone & Hsend). cbn in Hn. change (w_events w) with (w_events (sm_world s)) in *.
  rewrite Hn, drop_app_length. intros [= <- <-]. exists (map (pair (sm_calls s)) new).
  assert (Hin : ∀ n request, (n, EvSend request) ∈ map (pair (sm_calls s)) new → n = sm_calls s ∧ EvSend request ∈ new).
  { intros n request (e & [= -> <-] & He)%list_elem_of_fmap. done. }
  assert (Hp : select purchase (map (pair (sm_calls s)) new) ≠ [] → ∃ request, EvSend request ∈ new ∧ purchase (sm_calls s, EvSend request) = true).
  { intros Hne. destruct (select purchase _) as [|[n e] l] eqn:Hs; [done|]. assert ((n, e) ∈ (n, e) :: l) as He by left.
    rewrite <-Hs in He. apply elem_of_select in He as [He Hpe]. destruct e as [| | |request|]; [done..| |done]. apply Hin in He as [-> He]. by exists request. }
  split.
  - unfold logs. cbn. split_and!; [done|done|lia|]. apply Forall_fmap, Forall_forall. intros e _. cbn. lia.
  - done.
  - intros n request [-> He]%Hin. by destruct (Hsend _ He) as [[Hm _]|[Hm _]].
  - by apply select_purchase_map.
  - intros a Ha (request & He & Hpe)%Hp. apply andb_true_iff in Hpe as [_ Hpe]. fold t in Hpe.
    destruct (Hsend _ He) as [[_ Ht]|[_ ->]]; [|done]. destruct (mc_send _ request); [|by rewrite Ht in Ha].
    destruct Ht as (b & -> & Hb & _). injection Ha as <-. by rewrite Hb.
  - intros e He. assert (∃ d, r0 = Err (Denied d) ∧ from_broker_denial t.(tn_failure) d = e) as (d & -> & <-).
    { destruct r0 as [a|[d|exc]]; [done| |done]. injection He as He. by exists d. }
    clear He. split.
    + intros Hfree. destruct (select purchase _); [done|]. exfalso. destruct Hp as (request & Hr & Hpe); [done|].
      apply andb_true_iff in Hpe as [_ Hpe]. fold t in Hpe. destruct (Hsend _ Hr) as [[_ Ht]|[_ [= ->]]]; [|done].
      destruct (mc_send _ request); [by destruct Ht as (b & [=] & _)|]. injection Ht as ->.
      change (se_may_have_billed (from_transport t.(tn_failure)) = false) in Hfree. unfold from_transport in Hfree.
      case_bool_decide as Hun; [|done]. by rewrite (unreached_never_sent _ Hun) in Hpe.
    + destruct (from_broker_denial _ d) as [o reason []] eqn:Hd; [by auto|]. destruct o; [|right; right|by auto|].
      all: unfold from_broker_denial, from_transport in Hd; repeat case_match; try done.
      intros n request [_ Hr]%Hin. destruct (Hsend _ Hr) as [[_ Ht]|[_ [= ->]]]; [|done].
      destruct (mc_send _ request); [by destruct Ht as (b & [=] & _)|]. by injection Ht as ->.
Qed.

(** *** After the purchase *)

(** The last call of the broker sent nothing: the broker refused it here. *)
Definition refused_here s s' (new : list (nat * event)) : Prop :=
  (s.(sm_calls) < s'.(sm_calls))%nat ∧ ∀ request, (pred s'.(sm_calls), EvSend request) ∉ new.
(** A computation that buys nothing; a failure that refunds is an absence or a refusal by
    the broker of its last call. *)
Record bought_nothing s (res : option SeamError) s' (new : list (nat * event)) : Prop := {
  bn_logs : logs s s' new;
  bn_llm : s'.(sm_llm) = s.(sm_llm);
  bn_none : select purchase new = [];
  bn_err e : res = Some e → e.(se_may_have_billed) = true ∨ e.(se_outcome) = OUTCOME_UNAVAILABLE ∨ refused_here s s' new;
}.
Definition error_of {A} (res : result failure A) : option SeamError := match res with Err (Classified e) => Some e | _ => None end.
Definition buys_nothing {A} (m : seam_m A) : Prop := ∀ s res s', m s = (res, s') → ∃ new, bought_nothing s (error_of res) s' new.

Lemma nothing_intro {A} s (res : result failure A) s' : s'.(sm_log) = s.(sm_log) → s'.(sm_ledger) = s.(sm_ledger) →
  s'.(sm_calls) = s.(sm_calls) → s'.(sm_llm) = s.(sm_llm) → (∀ e, error_of res = Some e → e.(se_may_have_billed) = true) →
  ∃ new, bought_nothing s (error_of res) s' new.
Proof.
  intros H1 H2 H3 H4 H5. exists []. split; [|done|done|intros e He; left; by apply H5].
  unfold logs. rewrite app_nil_r. split_and!; [done|done|lia|done].
Qed.
Lemma nothing_sret {A} (a : A) : buys_nothing (sret a).
Proof. intros s res s' [= <- <-]. by apply nothing_intro. Qed.
Lemma nothing_srefuse {A} e : e.(se_may_have_billed) = true → buys_nothing (@srefuse A e).
Proof. intros He s res s' [= <- <-]. apply nothing_intro; [done..|]. by intros e' [= <-]. Qed.
Lemma nothing_crash {A} f : match f with Classified _ => False | _ => True end → buys_nothing (@sraise A f).
Proof. intros Hf s res s' [= <- <-]. apply nothing_intro; [done..|]. by destruct f. Qed.
Lemma nothing_read_clock : buys_nothing (read_clock env).
Proof. intros s res s' [= <- <-]. by apply nothing_intro. Qed.
Lemma nothing_set_files files : buys_nothing (set_files files).
Proof. intros s res s' [= <- <-]. by apply nothing_intro. Qed.
Lemma nothing_get_files : buys_nothing get_files.
Proof. intros s res s' [= <- <-]. by apply nothing_intro. Qed.
Lemma nothing_bind {A B} (m : seam_m A) (f : A → seam_m B) : buys_nothing m → (∀ a, buys_nothing (f a)) → buys_nothing (sbind m f).
Proof.
  intros Hm Hf s res s' [(e & Ha & ->)|(a & s1 & Ha & Hb)]%sbind_cases.
  - destruct (Hm _ _ _ Ha) as (new & Hn). exists new. destruct Hn. by split.
  - destruct (Hm _ _ _ Ha) as (new1 & [Hl1 Hm1 Hn1 _]), (Hf a _ _ _ Hb) as (new2 & [Hl2 Hm2 Hn2 He2]).
    exists (new1 ++ new2). split; [by eapply logs_trans|congruence|by rewrite select_app, Hn1, Hn2|].
    intros e [?|[?|[Hc Hno]]]%He2; [by auto..|]. right. right. destruct Hl1 as (_ & _ & Hc1 & HF). split; [lia|].
    intros request [Hin|Hin]%elem_of_app; [|by eapply Hno]. rewrite Forall_forall in HF. specialize (HF _ Hin). cbn in HF. lia.
Qed.

Lemma nothing_poll_call q path : buys_nothing (broker_call env q REPLICATE_GENERATE "GET" path JNull).
Proof.
  intros s res s' (new & [Hl (Hm & _ & Hc) Hme _ _ Herr])%broker_call_ok. exists new. split; [done|done| |].
  - apply select_none. intros [n e] Hin. destruct e as [| | |request|]; try done. cbn. by rewrite (Hme _ _ Hin).
  - destruct res as [|[e| |]]; try done. intros e' [= <-]. destruct (Herr e eq_refl) as [_ [?|[?|Hno]]]; [by auto..|].
    right. right. split; [rewrite Hc; lia|]. intros request. apply Hno.
Qed.
#[local] Hint Resolve nothing_sret nothing_srefuse nothing_crash nothing_read_clock nothing_set_files nothing_get_files nothing_poll_call : nothing.
Ltac nothing := repeat first [ solve [eauto with nothing] | apply nothing_bind; [|intros ?] | case_match ].

Lemma nothing_poll polls q prediction_id deadline payload : buys_nothing (poll env polls q prediction_id deadline payload).
Proof. revert payload. induction polls as [|polls IH]; intros payload; cbn [poll]; nothing. Qed.
Lemma nothing_discard {A} destination f : match f with Classified e => e.(se_may_have_billed) = true | _ => True end → buys_nothing (@discard env A destination f).
Proof. intros Hf. unfold discard. nothing. Qed.
Lemma transport_billed cause : se_may_have_billed (after_billable_work (from_transport cause)) = true.
Proof. unfold from_transport. by case_bool_decide. Qed.
Lemma nothing_stream_failed {A} destination e : buys_nothing (@stream_failed env A destination e).
Proof. unfold stream_failed. apply nothing_discard. destruct (is_http_error e); [apply transport_billed|done]. Qed.
Lemma chunks_failed room n chunks m f : write_chunks room n chunks = (m, Some f) →
  f = Crash ∨ f = Classified (SeamRefused "artifact_too_large").
Proof. revert n. induction chunks as [|c chunks IH]; intros n; cbn [write_chunks]; [done|]. repeat case_match; [by intros [= _ <-]; right|by intros [= _ <-]; left|apply IH]. Qed.
Lemma nothing_chunks {A} room n chunks m why f destination : write_chunks room n chunks = (m, why) → why = Some f → buys_nothing (@discard env A destination f).
Proof. intros Hw ->. apply nothing_discard. by destruct (chunks_failed _ _ _ _ _ Hw) as [-> | ->]. Qed.
#[local] Hint Resolve nothing_poll nothing_discard nothing_stream_failed nothing_chunks : nothing.
Lemma nothing_download url destination : buys_nothing (download_artifact env url destination).
Proof.
  unfold download_artifact. repeat first [ solve [eauto with nothing] | apply nothing_discard; done | apply nothing_bind; [|intros ?] | case_match ].
Qed.
#[local] Hint Resolve nothing_download : nothing.
Lemma nothing_finish polls q destination payload : buys_nothing (finish_prediction env polls q destination payload).
Proof. unfold finish_prediction. nothing. Qed.

(** *** The purchase *)

(** The purchases of a computation, and the results after which there are none. *)
Definition buys {A} (free : result failure A → Prop) s (res : result failure A) s' : Prop :=
  ∃ new, logs s s' new ∧ s'.(sm_llm) = s.(sm_llm) ∧ (length (select purchase new) ≤ 1)%nat ∧ (free res → select purchase new = []).
Definition refunds {A} (res : result failure A) : Prop := ∃ e, res = Err (Classified e) ∧ e.(se_may_have_billed) = false.
Definition client_refused (res : result failure CallResult) : Prop := ∃ a, res = Ok a ∧ billable_status a.(rt_status) = false.

Lemma buys_weaken {A B} (p : result failure A → Prop) (p' : result failure B → Prop) s res res' s' :
  buys p s res s' → (p' res' → p res) → buys p' s res' s'.
Proof. intros (new & H1 & H2 & H3 & H4) Hp. exists new. split_and!; auto. Qed.
Lemma creation_call q cap path body s res s' : broker_call env q cap "POST" path body s = (res, s') →
  buys (λ res, refunds res ∨ client_refused res) s res s'.
Proof.
  intros (new & [Hl (Hm & _ & _) _ Hone Hok Herr])%broker_call_ok. exists new. split_and!; [done..|].
  intros [(e & -> & He)|(a & -> & Ha)]; [by apply (Herr e)|]. specialize (Hok a eq_refl). destruct (select purchase new); [done|].
  by rewrite Hok in Ha.
Qed.

Lemma create_cases retries q s res s' : create_prediction env retries q s = (res, s') → buys refunds s res s'.
Proof.
  revert s. induction retries as [|retries IH]; intros s; cbn [create_prediction];
    intros [(e & Hc%creation_call & ->)|(a & s1 & Hc%creation_call & Hr)]%sbind_cases;
    try (eapply buys_weaken; [exact Hc|]; intros (e' & [= ->] & He); left; by exists e');
    (assert (Hend : ∀ res0, (res0, s1) = (res, s') → (refunds res0 → billable_status a.(rt_status) = false) → buys refunds s res s') by
       (intros res0 [= -> <-] Hfree; eapply buys_weaken; [exact Hc|]; intros Hb; right; exists a; auto));
    (destruct (rt_body a); try (by apply (Hend _ Hr); intros (e & [= <-] & ?)));
    (destruct (rt_ok a); [by apply (Hend _ Hr); intros (e & [=] & _)|]);
    cbv zeta in Hr;
    (assert (Hgive : (if (400 <=? rt_status a) && (rt_status a <? 500) then srefuse (SeamRefusedUnbilled "prediction_rejected")
          else srefuse (SeamUnknown "prediction_upstream_error")) s1 = (res, s') → buys refunds s res s') by
       (destruct ((400 <=? rt_status a) && (rt_status a <? 500)) eqn:Hs; intros Hg; apply (Hend _ Hg); intros (e & [= <-] & ?); [|done];
        unfold billable_status; by rewrite Hs));
    case_bool_decide as Hretry; auto.
  apply IH in Hr as (new' & Hl' & Hm' & Hone' & Herr'). destruct Hc as (new & Hl & Hm & _ & Hnone).
  assert (select purchase new = []) as Hn.
  { apply Hnone. right. exists a. split; [done|]. apply elem_of_cons in Hretry as [E|E%list_elem_of_singleton]; by rewrite E. }
  exists (new ++ new'). rewrite select_app, Hn. split_and!; [by eapply logs_trans|congruence|done|done].
Qed.

(** What a handler of a paid capability tells the seam: it buys at most once; a failure that
    says absence, or refunds, was not a purchase, unless the broker refused its last call. *)
Record paid_run s (res : result failure dict) s' (new : list (nat * event)) : Prop := {
  pr_logs : logs s s' new;
  pr_one : (purchases s s' ≤ 1)%nat;
  pr_absent e : res = Err (Classified e) → e.(se_outcome) = OUTCOME_UNAVAILABLE → e.(se_may_have_billed) = false ∧ purchases s s' = 0%nat;
  pr_free e : res = Err (Classified e) → e.(se_may_have_billed) = false → purchases s s' = 0%nat ∨ refused_here s s' new;
}.

Lemma purchases_log s s' new : logs s s' new → s'.(sm_llm) = s.(sm_llm) → purchases s s' = length (select purchase new).
Proof.
  intros (Hl & _) Hm. unfold purchases. rewrite Hl, Hm, drop_app_length, drop_ge by done. cbn. lia.
Qed.

(** An absence claims that nothing was billed. *)
Definition consistent (e : SeamError) : Prop := e.(se_outcome) = OUTCOME_UNAVAILABLE → e.(se_may_have_billed) = false.
Definition fails_consistently {A} (m : seam_m A) : Prop := ∀ s e s', m s = (Err (Classified e), s') → consistent e.
Lemma consistent_bind {A B} (m : seam_m A) (f : A → seam_m B) : fails_consistently m → (∀ a, fails_consistently (f a)) → fails_consistently (sbind m f).
Proof. intros Hm Hf s e s' [(e' & Ha & [= <-])|(a & s1 & _ & Hb)]%sbind_cases; [by eapply Hm|by eapply Hf]. Qed.
Lemma consistent_refuse {A} e : consistent e → fails_consistently (@srefuse A e).
Proof. by intros He s e' s' [= <- _]. Qed.
Lemma consistent_ret {A} (a : A) : fails_consistently (sret a).
Proof. by intros s e s'. Qed.
Lemma denial_consistent cause d : consistent (from_broker_denial cause d).
Proof. unfold from_broker_denial, from_transport, consistent. by repeat case_match. Qed.
Lemma consistent_broker_call q cap method path body : fails_consistently (broker_call env q cap method path body).
Proof.
  intros s e s'. unfold broker_call, brokered. destruct (tn_db_opens _); cbn [negb]; [|done].
  destruct (call _ _ _ _ _ _ _ _ _ _ _ _ _) as [[a|[d|exc]] w]; [done| |done]. intros [= <- _]. apply denial_consistent.
Qed.
Lemma create_consistent retries q : fails_consistently (create_prediction env retries q).
Proof.
  induction retries as [|retries IH]; cbn [create_prediction]; (apply consistent_bind; [apply consistent_broker_call|]); intros a;
    repeat case_match; auto using consistent_ret; by apply consistent_refuse.
Qed.

Lemma artifact_path_err v i a e : artifact_path v i a = Err e → e.(se_may_have_billed) = true ∧ e.(se_outcome) ≠ OUTCOME_UNAVAILABLE.
Proof. unfold artifact_path. repeat case_match; try done; by intros [= <-]. Qed.
Lemma contained_err c r e : contained env c r = Err (Classified e) → e.(se_may_have_billed) = true ∧ e.(se_outcome) ≠ OUTCOME_UNAVAILABLE.
Proof. unfold contained. repeat case_match; try done; by intros [= <-]. Qed.
Lemma after_billed e : se_outcome (after_billable_work e) ≠ OUTCOME_UNAVAILABLE
  ∧ (se_may_have_billed (after_billable_work e) = false → se_may_have_billed e = false ∧ se_outcome e ≠ OUTCOME_UNAVAILABLE).
Proof. unfold after_billable_work. destruct (se_outcome e) eqn:E; rewrite ?E; done. Qed.

Lemma replicate_ok polls q s res s' : run_replicate_generate env polls q s = (res, s') → ∃ new, paid_run s res s' new.
Proof.
  unfold run_replicate_generate.
  assert (Hpre : ∀ f, (∀ e, f = Classified e → e.(se_may_have_billed) = true ∧ e.(se_outcome) ≠ OUTCOME_UNAVAILABLE) →
    ∃ new, paid_run s (Err f) s new).
  { intros f He. exists []. assert (purchases s s = 0%nat) as Hp by by rewrite (purchases_log s s []) by (done || apply logs_refl).
    split; [apply logs_refl|lia|intros e [= ->] Hu; by destruct (He e eq_refl)|by left]. }
  intros [(f & Ha & ->)|(path & s1 & Ha & Hr)]%sbind_cases; unfold slift in Ha;
    destruct (artifact_path _ _ _) as [p|e0] eqn:Hpath; try done; injection Ha as <- <-.
  { apply Hpre. intros e [= <-]. by eapply artifact_path_err. }
  apply sbind_cases in Hr as [(f & [= Ha <-] & ->)|(destination & s2 & [= _ <-] & Hr)].
  { apply Hpre. intros e ->. by eapply contained_err. }
  apply sbind_cases in Hr as [(f & Hc & ->)|(payload & s2 & Hc & Hr)].
  { pose proof (create_consistent (CREATION_RETRIES - 1) q s) as Hcons. apply create_cases in Hc as Hb. destruct Hb as (new & Hl & Hm & Hone & Hfree).
    assert (Hzero : ∀ e, f = Classified e → e.(se_may_have_billed) = false → purchases s s' = 0%nat).
    { intros e -> He. rewrite (purchases_log _ _ _ Hl Hm), Hfree; [done|by exists e]. }
    exists new. split; [done|by rewrite (purchases_log _ _ _ Hl Hm)| |intros e [= ->] He; left; by apply (Hzero e)].
    intros e [= ->] Hu. specialize (Hcons _ _ Hc Hu). split; [done|]. by apply (Hzero e). }
  apply create_cases in Hc as (new & Hl & Hm & Hone & _). unfold billable_scope in Hr.
  destruct (finish_prediction _ _ _ _ _ s2) as [r s3] eqn:Hf. apply nothing_finish in Hf as (new' & [Hl' Hm' Hn' He']).
  assert (s' = s3 ∧ ∀ e, res = Err (Classified e) → ∃ e0, e = after_billable_work e0 ∧ error_of r = Some e0) as [-> Herr].
  { destruct r as [|[e1| |]]; injection Hr as <- <-; (split; [done|]); intros e He; try done. injection He as <-. by exists e1. }
  pose proof (logs_trans _ _ _ _ _ Hl Hl') as Hlog. assert (sm_llm s3 = sm_llm s) as Hm3 by congruence.
  exists (new ++ new'). split; [done|rewrite (purchases_log _ _ _ Hlog Hm3); by rewrite select_app, Hn', app_nil_r|..].
  - intros e (e0 & -> & _)%Herr Hu. by destruct (after_billed e0).
  - intros e (e0 & -> & He0)%Herr Hfree. right. apply after_billed in Hfree as [Hfree Hu].
    destruct (He' _ He0) as [?|[?|[Hc Hno]]]; [congruence|done|]. destruct Hl as (_ & _ & Hc1 & HF). split; [lia|].
    intros request [Hin|Hin]%elem_of_app; [|by eapply Hno]. rewrite Forall_forall in HF. specialize (HF _ Hin). cbn in HF. lia.
Qed.

(** *** Short calls *)

Definition budget_refusal (e : llm_error) : bool := match e with LLMBudgetExceeded | LLMBudgetUnknown => true | _ => false end.
(** The failures of a computation are not refusals of the guard. *)
Definition unguarded {A} (m : result llm_error A) : Prop := ∀ e, m = Err e → budget_refusal e = false.
Lemma unguarded_bind {A B} (m : result llm_error A) (f : A → result llm_error B) : unguarded m → (∀ a, unguarded (f a)) → unguarded (m ≫= f).
Proof. intros Hm Hf e. destruct m as [a|e0]; [apply Hf|]. intros [= <-]. by apply Hm. Qed.
Lemma unguarded_ok {A} (a : A) : unguarded (Ok a).
Proof. by intros e. Qed.
Lemma unguarded_err {A} e : budget_refusal e = false → unguarded (@Err llm_error A e).
Proof. by intros He e' [= <-]. Qed.
Lemma unguarded_map_err {E A} exc (m : result E A) : unguarded (map_err (λ _, Crashed exc) m).
Proof. intros e. destruct m; [done|]. by intros [= <-]. Qed.
#[local] Hint Resolve unguarded_ok unguarded_err unguarded_map_err unguarded_bind : unguarded.
Ltac unguarded := repeat first [ solve [auto with unguarded] | apply unguarded_bind; [|intros ?] | case_match ].

Lemma arith_unguarded rnd fot on_int on_float a b : unguarded (arith rnd fot on_int on_float a b).
Proof. unfold arith. unguarded. Qed.
Lemma rate_unguarded entry key : unguarded (rate_of entry key).
Proof. unfold rate_of. unguarded. Qed.
#[local] Hint Resolve arith_unguarded rate_unguarded : unguarded.
Lemma cost_unguarded rnd fot cfg model p c : unguarded (estimated_cost rnd fot cfg model p c).
Proof. unfold estimated_cost, rates_for, per_million. unguarded. Qed.
Lemma reply_unguarded loads answer : unguarded (response ← response_of loads answer; tokens ← usage_tokens response; content ← message_content response; Ok (tokens, content)).
Proof. unfold response_of, usage_tokens, message_content. unguarded. Qed.

Lemma once_unguarded rnd fot loads dumps clock http writable cl payload model purpose st :
  unguarded (execute_once rnd fot loads dumps clock http writable cl payload model purpose st).1.
Proof.
  unfold execute_once. destruct (cl_base_url cl); try (by apply unguarded_err).
  destruct (_ ≫= _) as [[tokens content]|e0] eqn:Hr; [|intros e [= <-]; by eapply reply_unguarded].
  unfold record_spend. destruct (estimated_cost _ _ _ _ _ _) as [cost|e0] eqn:Hcost; [by destruct (writable _); cbn; unguarded|].
  intros e [= <-]. by eapply cost_unguarded.
Qed.

Lemma purchases_refl s : purchases s s = 0%nat.
Proof. by rewrite (purchases_log s s []) by (done || apply logs_refl). Qed.
Lemma logs_llm s st : logs s (s <| sm_llm := st |>) [].
Proof. unfold logs. cbn. rewrite app_nil_r. split_and!; [done|done|lia|done]. Qed.

(** What the handler makes of the client's failures. *)
Definition model_failure (e : llm_error) : failure :=
  match e with
  | LLMBudgetExceeded | LLMBudgetUnknown => Classified (SeamRefusedUnbilled "budget_exceeded")
  | LLMTransport cause => Classified (from_llm_transport cause)
  | LLMInvalidResponse | LLMClientError => Classified (SeamRefused "model_refused")
  | Crashed _ => Crash
  end.
Lemma model_failure_free e x : model_failure e = Classified x →
  consistent x ∧ (x.(se_may_have_billed) = false → budget_refusal e = true ∨ ∃ reason, e = LLMTransport (FromUrl reason) ∧ unreached_reason reason = true).
Proof.
  destruct e as [| |[code|[]|]| | |]; intros [= <-]; split; try done; cbn; auto; intros _; right; by eexists.
Qed.

Lemma model_ok q s res s' : run_model_complete env q s = (res, s') → paid_run s res s' [].
Proof.
  unfold run_model_complete. destruct (guard_config _) as [cfg|e0].
  2: { intros [= <- <-]. split; [apply logs_refl|by rewrite purchases_refl; lia|done..]. }
  unfold complete. cbn [cl_retry_transport short_call_client]. cbn [attempts_left].
  match goal with |- context [check_budget ?a ?b ?c ?d ?e ?f ?g ?h] => destruct (check_budget a b c d e f g h) as [u|e1] end.
  2: { intros [= <- <-]. assert (purchases s (s <| sm_llm := s.(sm_llm) |>) = 0%nat) as Hp by by destruct s; apply purchases_refl.
       split; [apply logs_llm|lia| |by left]. intros x He Hu. split; [|done].
       assert (Classified x = model_failure e1) as Hx by by destruct e1; injection He as <-.
       by apply (model_failure_free e1 x). }
  match goal with |- context [execute_once ?a ?b ?c ?d ?e ?f ?g ?h ?i ?j ?k ?l] => pose proof (once_unguarded a b c d e f g h i j k l) as Hun;
    destruct (execute_once a b c d e f g h i j k l) as [r st] eqn:Ho end. cbn [fst] in Hun.
  assert (Hr : match r with Err (LLMTransport _) | _ => (r, st) end = (r, st)) by by destruct r as [|[]]. rewrite Hr. clear Hr.
  intros [= <- <-].
  assert (Herr : ∀ x, match r with Ok c => @Ok failure dict [] | Err e => Err (model_failure e) end = Err (Classified x) →
    consistent x ∧ (x.(se_may_have_billed) = false → ∃ reason, r = Err (LLMTransport (FromUrl reason)) ∧ unreached_reason reason = true)).
  { destruct r as [c|e1]; [done|]. intros x [= Hx]. apply model_failure_free in Hx as [Hc Hf]. split; [done|]. intros Hb.
    destruct (Hf Hb) as [Hbad|(reason & -> & ?)]; [by rewrite (Hun e1 eq_refl) in Hbad|by exists reason]. }
  assert (Hcount : (purchases s (s <| sm_llm := st |>) ≤ 1)%nat
    ∧ ∀ reason, r = Err (LLMTransport (FromUrl reason)) → unreached_reason reason = true → purchases s (s <| sm_llm := st |>) = 0%nat).
  { assert (purchases s (s <| sm_llm := st |>) = model_purchases (length s.(sm_llm).(ll_sent)) (drop (length s.(sm_llm).(ll_sent)) st.(ll_sent))) as ->.
    { unfold purchases. cbn. by rewrite drop_ge. }
    eapply once_cases in Ho as [[-> (exc & ->)]|(Hs & _ & Hresp)].
    - rewrite drop_ge by done. split; [cbn; lia|done].
    - rewrite Hs, drop_app_length. clear Hs. match goal with |- context [[?p]] => set (payload := p) in * end.
      unfold model_purchases. cbn [imap]. rewrite Nat.add_0_r. split.
      + cbn. destruct (model_purchase _ _); cbn; lia.
      + intros reason -> Hreason. cbn. unfold model_purchase. by rewrite (Hresp _ eq_refl), Hreason. }
  assert (Hshape : ∀ x, match r with
      | Ok c => Ok [("text", c.(cm_content)); ("cost", last_call ("loop:" +:+ q.(sq_instance_id) +:+ ":" +:+ arg_text "purpose" q.(sq_args)) c)]
      | Err (LLMBudgetExceeded | LLMBudgetUnknown) => Err (Classified (SeamRefusedUnbilled "budget_exceeded"))
      | Err (LLMTransport cause) => Err (Classified (from_llm_transport cause))
      | Err (LLMInvalidResponse | LLMClientError) => Err (Classified (SeamRefused "model_refused"))
      | Err (Crashed _) => Err Crash
      end = Err (Classified x) → match r with Ok c => @Ok failure dict [] | Err e => Err (model_failure e) end = Err (Classified x)) by by destruct r as [|[]].
  destruct Hcount as [H1 H0]. split; [apply logs_llm|done|..].
  - intros x Hx%Hshape Hu. destruct (Herr x Hx) as [Hc Hf]. split; [by apply Hc|]. destruct (Hf (Hc Hu)) as (reason & Hr & ?). by eapply H0.
  - intros x Hx%Hshape Hb. left. destruct (Herr x Hx) as [_ Hf]. destruct (Hf Hb) as (reason & Hr & ?). by eapply H0.
Qed.

(** ** A request *)

(** A request of an instance for a capability that every gate lets through. *)
Record let_through polls (payload : dict) (i c : string) (capability : ParentCapability) (args : dict) : Prop := {
  ad_instance : match_line INSTANCE_RE i = true;
  ad_known : dict_get c (CAPABILITIES env polls) = Some capability;
  ad_granted : c ∈ granted_capabilities i;
  ad_auto : capability.(pc_action_class) ∈ AUTO_CLASSES;
  ad_args : ∃ raw, dict_get "args" payload = Some (JDict raw) ∧ validate_args env.(sv_float_repr) capability.(pc_args) raw = Ok args;
}.
Lemma gates_Ok polls payload i c capability args : gates env polls payload i c = Some (Ok (capability, args)) →
  let_through polls payload i c capability args.
Proof.
  unfold gates. destruct (py_int _) as [v|]; [|done]. intros [= H]. revert H.
  destruct (v =? 1); cbn [negb]; [|done]. destruct (match_line INSTANCE_RE i) eqn:Hi; cbn [negb]; [|done].
  destruct (match_line CAPABILITY_RE c); cbn [negb]; [|done]. destruct (dict_get c _) as [cap|] eqn:Hc; [|done].
  case_bool_decide as Hg; cbn [negb]; [|done]. case_bool_decide as Ha; cbn [negb]; [|done].
  destruct (dict_get "args" payload) as [[| | | | | |raw]|] eqn:Hraw; try done. intros (x & Hx & [= <- <-])%bind_Ok.
  split; try done. by exists raw.
Qed.

(** Whatever an instance is granted is paid for, so all its effects run under a reservation. *)
Lemma granted_paid i c : c ∈ granted_capabilities i → c ∈ PAID_CAPABILITIES.
Proof.
  unfold granted_capabilities, INSTANCE_CAPABILITIES, dict_get. cbn. repeat case_match; cbn; set_solver.
Qed.
Lemma granted_run polls payload i c capability args : let_through polls payload i c capability args →
  ∀ q s res s', capability.(pc_run) q s = (res, s') → ∃ new, paid_run s res s' new.
Proof.
  intros [_ Hk Hg%granted_paid _ _] q s res s' Hr. apply elem_of_cons in Hg as [->|Hg%list_elem_of_singleton].
  - injection Hk as <-. by eapply replicate_ok.
  - subst c. injection Hk as <-. exists []. by eapply model_ok.
Qed.

(** Two states that differ in the ledger and in audit rows only. *)
Definition effects_of s := (s.(sm_log), s.(sm_llm), s.(sm_files), s.(sm_calls)).
Lemma audit_effects db i c reason decision allowed s :
  effects_of (audit_seam_outcome env db i c reason decision allowed s) = effects_of s
  ∧ (audit_seam_outcome env db i c reason decision allowed s).(sm_ledger) = s.(sm_ledger).
Proof. unfold audit_seam_outcome. by repeat case_match. Qed.
Lemma purchases_effects s s1 s2 : effects_of s1 = effects_of s2 → purchases s s1 = purchases s s2.
Proof. unfold effects_of, purchases. by intros [= -> -> _ _]. Qed.
Lemma refused_effects s s1 s2 new : effects_of s1 = effects_of s2 → refused_here s s1 new → refused_here s s2 new.
Proof. unfold effects_of, refused_here. by intros [= _ _ _ ->]. Qed.

Abbreviation exec_env := (LoopBudget.exec env.(sv_rnd) env.(sv_quotient) env.(sv_sql_sum) env.(sv_budget)).
Abbreviation run_env := (LoopBudget.run env.(sv_rnd) env.(sv_quotient) env.(sv_sql_sum) env.(sv_budget)).
Abbreviation reserve_env := (reserve env.(sv_rnd) env.(sv_quotient) env.(sv_sql_sum) env.(sv_budget) env.(sv_time) env.(sv_reservation_id)).

(** The ledger after a disposal, which its database may not take. *)
Abbreviation disposed c d := (ledger_after env d (exec_env c d)).

(** A handler that returns, and an answer that carries a result. *)
Definition is_ok {A} (res : result failure A) : bool := match res with Ok _ => true | Err _ => false end.
Definition delivers (a : option Answer) : bool :=
  match a with Some x => match x.(an_result) with JDict _ => true | _ => false end | None => false end.

(** The outcome an answer reports. *)
Definition reported (res : result failure dict) : option outcome :=
  match res with
  | Ok _ => Some OUTCOME_OK
  | Err (Classified e) => Some e.(se_outcome)
  | Err Crash => Some OUTCOME_UNKNOWN
  | Err OutOfPolls => None
  end.
(** The disposal a result asks for. *)
Definition disposal_of (id : string) (res : result failure dict) (c : loop_call) : Prop :=
  (c = Release id ∧ refunds res) ∨ ((∃ a quality usage, c = Settle id a quality usage) ∧ ¬ refunds res).

Lemma model_cost q s res s' : run_model_complete env q s = (Ok res, s') → ∃ purpose (x : Completion), dict_get "cost" res = Some (last_call purpose x).
Proof.
  unfold run_model_complete. destruct (guard_config _); [|done]. destruct (complete _ _ _ _ _ _ _ _ _ _ _ _) as [[x|[]] st]; try done.
  intros [= <- _]. by do 2 eexists.
Qed.
Lemma granted_cost polls payload i c capability args q s res s' : let_through polls payload i c capability args →
  capability.(pc_run) q s = (Ok res, s') → is_Some (extract_cost_from_result env c res).
Proof.
  intros [_ Hk Hg%granted_paid _ _]. apply elem_of_cons in Hg as [->|Hg%list_elem_of_singleton].
  - intros _. by eexists.
  - subst c. injection Hk as <-. intros (purpose & x & Hx)%model_cost. unfold extract_cost_from_result. rewrite Hx. by eexists.
Qed.

(** What becomes of an admitted request: the handler runs, the other processes work on the
    ledger meanwhile, and the reservation is disposed of as the result says. *)
Lemma perform_cases polls payload capability args r q s a s' d :
  let_through polls payload q.(sq_instance_id) q.(sq_capability) capability args → s.(sm_ledger) = Some d →
  perform env capability (Some r) q s = (a, s') →
  ∃ res s1, capability.(pc_run) q s = (res, s1) ∧ effects_of s' = effects_of s1 ∧ (an_outcome <$> a = reported res ∧ delivers a = is_ok res)
  ∧ (is_Some a → ∃ c, disposal_of r.(rv_id) res c ∧ s'.(sm_ledger) = Some (disposed c (run_env env.(sv_others) d)))
  ∧ (a = None → s'.(sm_ledger) = Some (run_env env.(sv_others) d)).
Proof.
  intros Had Hd. unfold perform. destruct (pc_run capability q s) as [res s1] eqn:Hr. cbv zeta.
  destruct (granted_run _ _ _ _ _ _ Had _ _ _ _ Hr) as (new & [(_ & Hled & _) _ _ _]).
  set (s2 := s1 <| sm_ledger := _ |>). assert (s2.(sm_ledger) = Some (run_env env.(sv_others) d)) as H2 by (cbn; by rewrite Hled, Hd).
  assert (effects_of s2 = effects_of s1) as He2 by done.
  destruct res as [out|[e| |]].
  - set (s3 := if bool_decide _ then _ else s2). assert (s3.(sm_ledger) = s2.(sm_ledger) ∧ effects_of s3 = effects_of s1) as [H3 He3].
    { unfold s3. destruct (bool_decide _); [|done]. destruct (audit_effects (sq_db_path q) (sq_instance_id q) (sq_capability q) "" "allowed" true s2) as [-> ->]. done. }
    unfold settle_actual. rewrite H3, H2. rewrite bool_decide_eq_true_2 by (eapply granted_paid, ad_granted, Had).
    destruct (granted_cost _ _ _ _ _ _ _ _ _ _ Had Hr) as [[actual quality] ->]. intros [= <- <-]. eexists _, _. split; [done|].
    split; [done|]. split; [done|]. split; [|done]. intros _. eexists (Settle _ _ _ _). split; [|done]. right. split; [by do 3 eexists|].
    by intros (e & [=] & _).
  - unfold dispose_reservation. rewrite H2. set (s3 := s2 <| sm_ledger := _ |>).
    set (s4 := if bool_decide _ then _ else s3). assert (s4.(sm_ledger) = s3.(sm_ledger) ∧ effects_of s4 = effects_of s1) as [H4 He4].
    { unfold s4. destruct (bool_decide _); [|done].
      destruct (audit_effects (sq_db_path q) (sq_instance_id q) (sq_capability q) (se_reason e) (outcome_value (se_outcome e)) false s3) as [-> ->]. done. }
    intros [= <- <-]. eexists _, _. split; [done|]. split; [done|]. split; [done|]. split; [|done]. intros _. rewrite H4. unfold s3.
    destruct (se_may_have_billed e) eqn:Hb; cbn [sm_ledger].
    + eexists (Settle _ _ _ _). split; [|done]. right. split; [by do 3 eexists|]. intros (e' & [= <-] & He'). congruence.
    + exists (Release (rv_id r)). split; [|done]. left. split; [done|]. by exists e.
  - unfold dispose_reservation. rewrite H2. set (s3 := s2 <| sm_ledger := _ |>). intros [= <- <-].
    destruct (audit_effects (sq_db_path q) (sq_instance_id q) (sq_capability q) "handler_error" "error" false s3) as [-> ->].
    eexists _, _. split; [done|]. split; [done|]. split; [done|]. split; [|done]. intros _. eexists (Settle _ _ _ _). split; [|done].
    right. split; [by do 3 eexists|]. by intros (e & [=] & _).
  - intros [= <- <-]. eexists _, _. split; [done|]. split; [done|]. split; [done|]. split; [by intros []|done].
Qed.

Definition instance_of (payload : dict) : string := text_or_empty env (dict_get "instance" payload).
Definition capability_of (payload : dict) : string := text_or_empty env (dict_get "capability" payload).
Definition estimate_of (payload : dict) : option float := Some (Fin (estimate_cost_for_capability (capability_of payload))).

(** The reservation of an admitted request. *)
Record admitted polls (payload : dict) (db_path : string) s (r : Reservation) (d1 : ledger) : Prop := {
  am_request : ∃ capability args, let_through polls payload (instance_of payload) (capability_of payload) capability args
                 ∧ (db_path ≠ "" ∨ capability.(pc_broker_capability) = "");
  am_ledger : ∃ d, s.(sm_ledger) = Some d
                ∧ reserve_env (instance_of payload) (capability_of payload) (estimate_of payload) None d = (Ok r, d1);
}.
(** A request ran: its handler, and what became of the ledger. *)
Record ran polls (payload : dict) (db_path : string) s (a : option Answer) s' (r : Reservation) (d1 : ledger) : Prop := {
  rn_admitted : admitted polls payload db_path s r d1;
  rn_run : ∃ capability args q s0 s1 res new, let_through polls payload (instance_of payload) (capability_of payload) capability args
      ∧ effects_of s0 = effects_of s ∧ (s0.(sm_reads) = s.(sm_reads) ∧ env.(sv_var_dir) = Some q.(sq_var_dir) ∧ q.(sq_instance_id) = instance_of payload) ∧ capability.(pc_run) q s0 = (res, s1)
      ∧ paid_run s0 res s1 new ∧ effects_of s' = effects_of s1
      ∧ (an_outcome <$> a = reported res ∧ delivers a = is_ok res)
      ∧ (is_Some a → ∃ c, disposal_of r.(rv_id) res c ∧ s'.(sm_ledger) = Some (disposed c (run_env env.(sv_others) d1)))
      ∧ (a = None → s'.(sm_ledger) = Some (run_env env.(sv_others) d1));
}.
Definition turned_away (payload : dict) s s' : Prop :=
  effects_of s' = effects_of s
  ∧ (s'.(sm_ledger) = s.(sm_ledger)
     ∨ ∃ d e d1, s.(sm_ledger) = Some d ∧ reserve_env (instance_of payload) (capability_of payload) (estimate_of payload) None d = (Err e, d1)
         ∧ s'.(sm_ledger) = Some d1).

(** Why a request that made no reservation has no answer. *)
Definition unanswerable polls (payload : dict) s : Prop :=
  gates env polls payload (instance_of payload) (capability_of payload) = None
  ∨ ∃ d e d1, s.(sm_ledger) = Some d ∧ reserve_env (instance_of payload) (capability_of payload) (estimate_of payload) None d = (Err e, d1)
      ∧ ∀ rf, e ≠ BudgetRefused rf.

Lemma execute_cases polls payload db_path s a s' : execute env polls payload db_path s = (a, s') →
  (turned_away payload s s' ∧ delivers a = false ∧ (a = None → unanswerable polls payload s)) ∨ ∃ r d1, ran polls payload db_path s a s' r d1.
Proof.
  unfold execute. fold (instance_of payload) (capability_of payload). set (i := instance_of payload). set (c := capability_of payload). cbv zeta.
  assert (Haudit : ∀ i c reason decision a0, (Some a0, audit_seam_outcome env db_path i c reason decision false s) = (a, s') →
    delivers (Some a0) = false → turned_away payload s s' ∧ delivers a = false ∧ (a = None → unanswerable polls payload s)).
  { intros i' c' reason decision a0 [= <- <-] Hno. destruct (audit_effects db_path i' c' reason decision false s) as [H1 H2]. split; [|done]. split; [done|by left]. }
  destruct (gates _ _ _ _ _) as [[[capability args]|e]|] eqn:Hg; [|intros H; left; by eapply Haudit|intros [= <- <-]; left; split; [split; [done|by left]|split; [done|by left]]].
  apply gates_Ok in Hg as Had. pose proof (granted_paid _ _ (ad_granted _ _ _ _ _ _ Had)) as Hpaid.
  destruct (bool_decide (db_path = "") && _) eqn:Hdb; [intros [= <- <-]; left; split; [split; [done|by left]|done]|].
  destruct (sv_var_dir env) as [var_dir|] eqn:Hvar; [|intros H; left; by eapply Haudit].
  unfold reserve_budget. destruct (sm_ledger s) as [d|] eqn:Hd.
  2: { rewrite Hd, bool_decide_eq_true_2 by done. intros H. left. by eapply Haudit. }
  rewrite bool_decide_eq_true_2 by done. fold (estimate_of payload).
  destruct (reserve _ _ _ _ _ _ _ _ _ _ d) as [[r|e] d1] eqn:Hres; cbn [mbind result_mbind].
  2: { assert (Haway : ∀ s2, effects_of s2 = effects_of s → s2.(sm_ledger) = Some d1 → turned_away payload s s2).
       { intros s2 H1 H2. split; [done|]. right. by exists d, e, d1. }
       intros H. left. set (s2 := s <| sm_ledger := Some d1 |>) in H.
       destruct e as [rf| | | |]; injection H as <- <-; (split; [|first [done|split; [done|intros _; right; by eexists _, _, _]]]); try (by apply Haway).
       destruct (audit_effects db_path i c rf.(rf_reason) "refused" false s2) as [H1 H2]. by apply Haway. }
  intros H. right. exists r, d1.
  set (s0 := s <| sm_ledger := Some d1 |>) in *. set (q := mkSeamRequest _ _ _ _ _) in *.
  assert (Had' : let_through polls payload q.(sq_instance_id) q.(sq_capability) capability args) by exact Had.
  assert (Hp : perform env capability (Some r) q s0 = (a, s')) by exact H.
  split.
  - split; [|by exists d]. exists capability, args. split; [done|].
    case_bool_decide; [right|by left]. by case_bool_decide.
  - destruct (perform_cases _ _ _ _ _ _ s0 _ _ d1 Had' eq_refl Hp) as (res & s1 & Hr & He & [Ha Hdel] & Hl & Hn).
    destruct (granted_run _ _ _ _ _ _ Had' _ _ _ _ Hr) as (new & Hrun). exists capability, args, q, s0, s1, res, new. split_and!; done.
Qed.

(** ** Theorems *)

(** C5: Nothing without a grant: a request either leaves the outside alone (no broker call, no model call, no file), whatever it says and whatever is wrong with it, or its instance is granted the capability in the source, the capability is of a class that needs no human, the arguments satisfy the schema, the audit store is bound unless the capability has no broker, and the ledger admitted a reservation of the estimate. *)
Theorem no_effect_ungranted polls payload db_path s a s' :
  execute env polls payload db_path s = (a, s') →
  effects_of s' = effects_of s ∨ ∃ r d1, admitted polls payload db_path s r d1.
Proof.
  intros [[[He _] _]|(r & d1 & [Hr _])]%execute_cases; [by left|]. right. by exists r, d1.
Qed.

Lemma purchases_ran polls payload db_path s a s' r d1 : ran polls payload db_path s a s' r d1 →
  ∃ res new, (purchases s s' ≤ 1)%nat ∧ an_outcome <$> a = reported res
  ∧ (∀ e, res = Err (Classified e) → (e.(se_outcome) = OUTCOME_UNAVAILABLE → e.(se_may_have_billed) = false ∧ purchases s s' = 0%nat)
       ∧ (e.(se_may_have_billed) = false → purchases s s' = 0%nat ∨ refused_here s s' new))
  ∧ s'.(sm_log) = s.(sm_log) ++ new
  ∧ (is_Some a → ∃ c, disposal_of r.(rv_id) res c ∧ s'.(sm_ledger) = Some (disposed c (run_env env.(sv_others) d1))).
Proof.
  intros [_ (capability & args & q & s0 & s1 & res & new & _ & H0 & _ & _ & [Hl Hone Habs Hfree] & H1 & [Ha _] & Hc & _)].
  assert (purchases s s' = purchases s0 s1) as ->.
  { rewrite (purchases_effects _ _ _ H1). unfold effects_of, purchases in *. by injection H0 as -> -> _ _. }
  exists res, new. split_and!; [done|done| |..].
  - intros e He. split; [by apply Habs|]. intros [?|Href]%(Hfree e He); [by left|right].
    apply (refused_effects s s1 s' new (eq_sym H1)). unfold effects_of, refused_here in *. by injection H0 as _ _ _ <-.
  - destruct Hl as (Hl & _). unfold effects_of in *. injection H0 as <- _ _ _. by injection H1 as -> _ _ _.
  - done.
Qed.

(** C20: A request buys at most one thing, whatever it retries, polls or downloads, and whatever the provider answers. *)
Theorem one_purchase polls payload db_path s a s' :
  execute env polls payload db_path s = (a, s') → (purchases s s' ≤ 1)%nat.
Proof.
  intros [[[He _] _]|(r & d1 & (res & new & H & _)%purchases_ran)]%execute_cases; [|done].
  rewrite (purchases_effects _ _ _ He), purchases_refl. lia.
Qed.

(** C4: Absence is proved: the answer "unavailable", after which the worker frees its idempotency claim and may ask again, is given only when nothing can have been bought. *)
Theorem absence_is_proved polls payload db_path s a s' :
  execute env polls payload db_path s = (Some a, s') → a.(an_outcome) = OUTCOME_UNAVAILABLE → purchases s s' = 0%nat.
Proof.
  intros [[[He _] _]|(r & d1 & (res & new & _ & Ha & Herr & _)%purchases_ran)]%execute_cases Hu.
  - by rewrite (purchases_effects _ _ _ He), purchases_refl.
  - destruct res as [|[e| |]]; cbn in Ha; try congruence. apply (Herr e eq_refl). congruence.
Qed.

(** The other processes leave a reservation to its request; their sweeps may expire it. *)
Definition leaves_alone (id : string) (c : loop_call) : Prop :=
  match c with Sweep _ => True | Admit _ _ _ _ _ _ => True | Settle i _ _ _ | Release i => i ≠ id end.
Lemma others_row id d tr r : ledger_ok d → find_reservation id d = Some r → Forall (leaves_alone id) tr →
  ∃ r', find_reservation id (run_env tr d) = Some r' ∧ (r' = r ∨ r' = charge_expired r).
Proof.
  intros Hd Hf Htr. assert (∃ r', find_reservation id d = Some r' ∧ (r' = r ∨ r' = charge_expired r)) as Hex by eauto. clear Hf.
  revert d Hd Hex. induction Htr as [|c tr Hc _ IH]; intros d Hd (r0 & Hf & Hr0); [by exists r0|].
  apply (IH (exec_env c d)); [by apply exec_keeps_ok|].
  assert (Hsame : find_reservation id (exec_env c d) = Some r0 → ∃ r', find_reservation id (exec_env c d) = Some r' ∧ (r' = r ∨ r' = charge_expired r))
    by (intros ?; by exists r0).
  destruct c as [now|now i inst cap est ttl|i x y z|i]; cbn [LoopBudget.exec] in *.
  - rewrite sweep_find, Hf. eexists. split; [done|]. destruct (expired now r0) eqn:He; [|done]. destruct Hr0 as [->| ->]; [by right|by left].
  - apply Hsame. destruct (admit_cases env.(sv_rnd) env.(sv_quotient) env.(sv_sql_sum) env.(sv_budget) now i inst cap est ttl d) as [[e ->]|[r1 ->]]; [done|].
    by apply find_app_Some.
  - apply Hsame. destruct (settle i x y z d) as [res d'] eqn:Hs. destruct (settle_cases _ _ _ _ _ _ _ Hs) as [[-> _]|(r1 & Hf1 & _ & _ & ->)]; [done|].
    rewrite <-Hf. apply set_row_other; [by destruct (find_reservation_Some _ _ _ Hf1)|done].
  - apply Hsame. destruct (release i d) as [res d'] eqn:Hs. destruct (release_cases _ _ _ _ Hs) as [[-> _]|(r1 & Hf1 & _ & _ & ->)]; [done|].
    rewrite <-Hf. apply set_row_other; [by destruct (find_reservation_Some _ _ _ Hf1)|done].
Qed.

(** The row of a disposed reservation, of which only the release of an open one is free. *)
Lemma disposal_row c id res d r0 r : disposal_of id res c → r.(rv_state) = STATE_OPEN → find_reservation id d = Some r0 →
  r0 = r ∨ r0 = charge_expired r →
  ∃ r', find_reservation id (exec_env c d) = Some r' ∧ same_identity r r' ∧ r'.(rv_state) ≠ STATE_OPEN
    ∧ (r'.(rv_state) = STATE_RELEASED → refunds res).
Proof.
  intros Hc Ho Hf Hr0. destruct (find_reservation_Some _ _ _ Hf) as [_ Hid]. destruct Hr0 as [->| ->].
  - destruct Hc as [[-> Href]|[(x & y & z & ->) _]]; cbn [LoopBudget.exec].
    + destruct (release id d) as [o d'] eqn:Hs. unfold release, write in Hs. rewrite Hf, Ho in Hs. injection Hs as _ <-.
      eexists. split; [by apply (set_row_find id d r)|]. done.
    + destruct (settle id x y z d) as [o d'] eqn:Hs. destruct (settle_cases _ _ _ _ _ _ _ Hs) as [[-> Hok]|(r1 & Hf1 & _ & _ & ->)].
      * exfalso. unfold settle, write in Hs. rewrite Hf, Ho in Hs. destruct (resolved _ _ _ _) as [usd quality]. injection Hs as Hs1 Hs2.
        destruct (Hok _ (eq_sym Hs1)) as [E1 _]. rewrite Hf in E1. injection E1 as E1. by rewrite E1 in Ho.
      * assert (r1 = r) as -> by congruence. eexists. split; [by apply (set_row_find id d r)|]. done.
  - assert (find_reservation id (exec_env c d) = Some (charge_expired r)) as ->.
    { destruct Hc as [[-> _]|[(x & y & z & ->) _]]; cbn [LoopBudget.exec]; unfold release, settle, write; by rewrite Hf. }
    eexists. split; [done|]. done.
Qed.

(** The row an admission leaves. *)
Lemma reserve_row i c est d r d1 : ledger_ok d → reserve_env i c est None d = (Ok r, d1) →
  ledger_ok d1 ∧ r.(rv_id) = env.(sv_reservation_id) ∧ r.(rv_state) = STATE_OPEN ∧ find_reservation env.(sv_reservation_id) d1 = Some r.
Proof.
  intros Hd Hres. set (d2 := (reclaim_expired env.(sv_time) d).2).
  assert (ledger_ok d2) as Hok2 by (eapply evolves_ok; [by apply sweep_evolves|done]).
  apply (admit_Ok env.(sv_rnd) env.(sv_quotient) env.(sv_sql_sum) env.(sv_budget)) in Hres as Hadm. fold d2 in Hadm.
  destruct Hadm as (x & e & _ & _ & _ & _ & Hr & Hd1 & Hnone & _).
  assert (r.(rv_id) = env.(sv_reservation_id)) as Hid by by rewrite Hr. split_and!; [|done|by rewrite Hr|].
  - pose proof (exec_keeps_ok env.(sv_rnd) env.(sv_quotient) env.(sv_sql_sum) env.(sv_budget) (Admit env.(sv_time) env.(sv_reservation_id) i c est None) d2 Hok2) as Hok.
    cbn [LoopBudget.exec] in Hok. unfold reserve in Hres. fold d2 in Hres. by rewrite Hres in Hok.
  - rewrite Hd1. unfold find_reservation in *. clear -Hnone Hid. induction d2 as [|y l IH]; cbn in *.
    + unfold reservation_is. by rewrite bool_decide_eq_true_2.
    + destruct (reservation_is _ y); [done|by apply IH].
Qed.

(** C10: Every reservation is disposed of: a request that answers has either made none (the ledger is as before, up to a sweep), or its row is in the ledger, with the identity and the maximum of the reservation, and not open: settled, charged in full by a sweep, or released.  It stays open only where the database failed at the disposal, which the seam logs and swallows; then the next sweep after its expiry charges it in full.  A release means that nothing was bought, or that the broker refused the last call of the request before sending it.  The other processes are assumed to leave the row of this request to it: they reserve, settle and release their own, and sweep. *)
Theorem reservation_disposed polls payload db_path s ans s' d :
  ledger_ok d → s.(sm_ledger) = Some d → Forall (leaves_alone env.(sv_reservation_id)) env.(sv_others) →
  execute env polls payload db_path s = (Some ans, s') →
  turned_away payload s s'
  ∨ ∃ r d1 d' r', admitted polls payload db_path s r d1 ∧ s'.(sm_ledger) = Some d' ∧ find_reservation env.(sv_reservation_id) d' = Some r'
      ∧ same_identity r r'
      ∧ (r'.(rv_state) ≠ STATE_OPEN
         ∨ env.(sv_disposes) = false ∧ r' = r
           ∧ ∀ now, expired now r = true → find_reservation env.(sv_reservation_id) (reclaim_expired now d').2 = Some (charge_expired r))
      ∧ (r'.(rv_state) = STATE_RELEASED → purchases s s' = 0%nat ∨ ∃ new, s'.(sm_log) = s.(sm_log) ++ new ∧ refused_here s s' new).
Proof.
  intros Hd Hs Hoth [[? _]|(r & d1 & Hran)]%execute_cases; [by left|]. right. pose proof (rn_admitted _ _ _ _ _ _ _ _ Hran) as Had.
  destruct (purchases_ran _ _ _ _ _ _ _ _ Hran) as (res & new & _ & Ha & Herr & Hlog & (c & Hc & Hl)); [done|].
  destruct (am_ledger _ _ _ _ _ _ Had) as (d0 & Hd0 & Hres). assert (d0 = d) as -> by congruence.
  destruct (reserve_row _ _ _ _ _ _ Hd Hres) as (Hok1 & Hid & Hopen & Hf).
  destruct (others_row _ _ _ _ Hok1 Hf Hoth) as (r0 & Hf0 & Hr0). rewrite Hid in Hc. unfold ledger_after in Hl. destruct (sv_disposes env).
  - destruct (disposal_row _ _ _ _ _ _ Hc Hopen Hf0 Hr0) as (r' & Hf' & Hsame & Hst & Hrel).
    exists r, d1, (exec_env c (run_env env.(sv_others) d1)), r'. split_and!; try done; [by left|]. intros (e0 & -> & He0)%Hrel.
    destruct (Herr e0 eq_refl) as [_ Hfree]. destruct (Hfree He0) as [|Href]; [by left|]. right. by exists new.
  - exists r, d1, (run_env env.(sv_others) d1), r0. split; [done|]. split; [done|]. split; [done|].
    destruct Hr0 as [->| ->]; [|by split_and!; [|left|]]. split_and!; [done| |by rewrite Hopen].
    right. split_and!; [done..|]. intros now He. rewrite sweep_find, Hf0; cbn. by rewrite He.
Qed.

(** The ledger after a request: what its transactions and those of the others make of it. *)
Lemma execute_ledger polls payload db_path s a s' d : execute env polls payload db_path s = (a, s') → s.(sm_ledger) = Some d →
  ∃ tr, s'.(sm_ledger) = Some (run_env tr d).
Proof.
  set (reserving := [Sweep env.(sv_time); Admit env.(sv_time) env.(sv_reservation_id) (instance_of payload) (capability_of payload) (estimate_of payload) None]).
  assert (Hres : ∀ o d1, reserve_env (instance_of payload) (capability_of payload) (estimate_of payload) None d = (o, d1) → d1 = run_env reserving d).
  { intros o d1 H. unfold reserving. rewrite <-reserve_transactions. by rewrite H. }
  assert (Happ : ∀ t1 t2, run_env (t1 ++ t2) d = run_env t2 (run_env t1 d)) by (intros; apply foldl_app).
  intros [[[_ [->|(d0 & e & d1 & Hd0 & H & ->)]] _]|(r & d1 & [[_ (d0 & Hd0 & H)] (capability & args & q & s0 & s1 & res & new & _ & _ & _ & _ & _ & _ & _ & Hsome & Hnone)])]%execute_cases Hd.
  - by exists [].
  - assert (d0 = d) as -> by congruence. exists reserving. f_equal. by eapply Hres.
  - assert (d0 = d) as -> by congruence. rewrite (Hres _ _ H) in *. destruct a as [ans|].
    + destruct Hsome as (c & _ & Hl); [done|]. unfold ledger_after in Hl.
      exists (reserving ++ env.(sv_others) ++ if sv_disposes env then [c] else []). rewrite Hl, Happ. f_equal.
      unfold LoopBudget.run. rewrite foldl_app. by destruct (sv_disposes env).
    + exists (reserving ++ env.(sv_others)). by rewrite (Hnone eq_refl), Happ.
Qed.
(** ** An answer *)

Definition answers {A} (m : seam_m A) : Prop := ∀ s s', m s ≠ (Err OutOfPolls, s').
Definition keeps_clock {A} (m : seam_m A) : Prop := ∀ s res s', m s = (res, s') → s'.(sm_reads) = s.(sm_reads).
Lemma answers_bind {A B} (m : seam_m A) (f : A → seam_m B) : answers m → (∀ a, answers (f a)) → answers (sbind m f).
Proof. intros Hm Hf s s' [(e & Ha & [= <-])|(a & s1 & _ & Hb)]%sbind_cases; [by eapply Hm|by eapply Hf]. Qed.
Lemma clock_bind {A B} (m : seam_m A) (f : A → seam_m B) : keeps_clock m → (∀ a, keeps_clock (f a)) → keeps_clock (sbind m f).
Proof.
  intros Hm Hf s res s' [(e & Ha & _)|(a & s1 & Ha & Hb)]%sbind_cases; [by eapply Hm|]. rewrite (Hf _ _ _ _ Hb). by eapply Hm.
Qed.
Lemma answers_broker_call q cap method path body : answers (broker_call env q cap method path body) ∧ keeps_clock (broker_call env q cap method path body).
Proof.
  split; intros s; [intros s'|intros res s']; unfold broker_call, brokered; (destruct (tn_db_opens _); cbn [negb]; [|by try intros [= <- <-]]);
    destruct (call _ _ _ _ _ _ _ _ _ _ _ _ _) as [[a|[d|exc]] w]; try done; by intros [= <- <-].
Qed.
Lemma answers_create retries q : answers (create_prediction env retries q) ∧ keeps_clock (create_prediction env retries q).
Proof.
  induction retries as [|retries [IH1 IH2]]; cbn [create_prediction]; (split; [apply answers_bind|apply clock_bind]);
    try apply answers_broker_call; intros a; repeat case_match; try done; by intros ? ? ? [= <- <-].
Qed.
Lemma answers_download url destination : answers (download_artifact env url destination).
Proof.
  assert (∀ f : failure, f ≠ OutOfPolls → answers (@discard env Z destination f)) as Hdiscard by (by intros f Hf s0 s0' [= Hf' _]).
  unfold download_artifact, stream_failed. repeat first
    [ apply Hdiscard; by try case_match
    | match goal with H : write_chunks _ _ _ = (_, Some _) |- answers (discard _ _ _) => apply Hdiscard; by destruct (chunks_failed _ _ _ _ _ H) as [-> | ->] end
    | apply answers_bind; [|intros ?] | case_match | by intros ? ? ].
Qed.

(** A poll that uses up its bound has read the clock that often before the deadline. *)
Lemma poll_bound polls q id deadline payload s s' : poll env polls q id deadline payload s = (Err OutOfPolls, s') →
  ∀ j, (j < polls)%nat → (env.(sv_monotonic) (s.(sm_reads) + j) <= deadline)%Q.
Proof.
  revert payload s. induction polls as [|polls IH]; intros payload s; cbn [poll]; [lia|]. case_bool_decide; [done|].
  intros [(e & [=] & _)|(now & s1 & [= <- <-] & Hr)]%sbind_cases. destruct (Qle_bool _ deadline) eqn:Hle; cbn [negb] in Hr; [|done].
  apply sbind_cases in Hr as [(e & Ha & [= <-])|(a & s2 & Ha & Hr)]; [by destruct (proj1 (answers_broker_call _ _ _ _ _) _ _ Ha)|].
  destruct (rt_body a) eqn:Hb; try done. intros [|j] Hj; [rewrite Nat.add_0_r; by apply Qle_bool_iff|].
  replace (sm_reads s + S j)%nat with (sm_reads s2 + j)%nat; [apply (IH _ _ Hr); lia|].
  rewrite (proj2 (answers_broker_call _ _ _ _ _) _ _ _ Ha). cbn. lia.
Qed.

(** The clock passes 150 seconds within so many of its readings. *)
Definition clock_advances polls (n : nat) : Prop :=
  ∃ j, (j < polls)%nat ∧ (env.(sv_monotonic) n + POLL_SECONDS < env.(sv_monotonic) (S n + j))%Q.

Lemma replicate_answers polls q s s' : clock_advances polls s.(sm_reads) → run_replicate_generate env polls q s ≠ (Err OutOfPolls, s').
Proof.
  intros (j & Hj & Hadv). unfold run_replicate_generate.
  intros [(e & Ha & [= <-])|(path & s1 & Ha & Hr)]%sbind_cases; unfold slift in Ha; destruct (artifact_path _ _ _); try done; injection Ha as <- <-.
  apply sbind_cases in Hr as [(e & [= Ha <-] & [= <-])|(destination & s2 & [= _ <-] & Hr)].
  { unfold contained in Ha. by repeat case_match. }
  apply sbind_cases in Hr as [(e & Ha & [= <-])|(payload & s2 & Ha & Hr)]; [by destruct (proj1 (answers_create _ _) _ _ Ha)|].
  apply (proj2 (answers_create _ _)) in Ha. unfold billable_scope in Hr. destruct (finish_prediction _ _ _ _ _ s2) as [[|[| |]] s3] eqn:Hf; try done.
  unfold finish_prediction in Hf. apply sbind_cases in Hf as [(e & [=] & _)|(start & s4 & [= <- <-] & Hf)].
  apply sbind_cases in Hf as [(e & Hp & [= <-])|(payload' & s5 & _ & Hf)].
  - specialize (poll_bound _ _ _ _ _ _ _ Hp j Hj) as Hle. cbn in Hle. rewrite Ha in Hle. by apply Qle_not_lt in Hle.
  - revert Hf. repeat case_match; try done. intros [(e & Hd & [= <-])|(b & s6 & _ & Hf)]%sbind_cases; [by destruct (answers_download _ _ _ _ Hd)|done].
Qed.
Lemma model_answers q s s' : run_model_complete env q s ≠ (Err OutOfPolls, s').
Proof.
  unfold run_model_complete. destruct (guard_config _); [|done]. by destruct (complete _ _ _ _ _ _ _ _ _ _ _ _) as [[|[]] st].
Qed.

(** A request is answered: once the clock passes 150 seconds within the bound on the polls, the handler ends, and an answer is missing only where the protocol version is not a number or the ledger cannot insert the reservation. *)
Theorem execute_answers polls payload db_path s s' :
  clock_advances polls s.(sm_reads) → execute env polls payload db_path s = (None, s') →
  gates env polls payload (instance_of payload) (capability_of payload) = None
  ∨ ∃ d e d1, s.(sm_ledger) = Some d ∧ reserve_env (instance_of payload) (capability_of payload) (estimate_of payload) None d = (Err e, d1)
      ∧ ∀ rf, e ≠ BudgetRefused rf.
Proof.
  intros Hadv [[_ [_ Hwhy]]|(r & d1 & [_ (capability & args & q & s0 & s1 & res & new & Had & _ & [Hreads _] & Hr & _ & _ & [Ha _] & _)])]%execute_cases; [by apply Hwhy|].
  exfalso. assert (res = Err OutOfPolls) as -> by by destruct res as [|[]]. rewrite <-Hreads in Hadv.
  destruct Had as [_ Hk Hg%granted_paid _ _]. revert Hk. apply elem_of_cons in Hg as [->|Hg%list_elem_of_singleton]; [|rewrite Hg]; intros [= <-].
  - by eapply replicate_answers.
  - by eapply model_answers.
Qed.
(** ** Artifacts *)

Definition keeps_files {A} (m : seam_m A) : Prop := ∀ s res s', m s = (res, s') → s'.(sm_files) = s.(sm_files).
Lemma files_bind {A B} (m : seam_m A) (f : A → seam_m B) : keeps_files m → (∀ a, keeps_files (f a)) → keeps_files (sbind m f).
Proof.
  intros Hm Hf s res s' [(e & Ha & _)|(a & s1 & Ha & Hb)]%sbind_cases; [by eapply Hm|]. rewrite (Hf _ _ _ _ Hb). by eapply Hm.
Qed.
Lemma files_broker_call q cap method path body : keeps_files (broker_call env q cap method path body).
Proof. intros s res s' (new & [_ (_ & H & _) _ _ _ _])%broker_call_ok. done. Qed.
Lemma files_create retries q : keeps_files (create_prediction env retries q).
Proof.
  induction retries as [|retries IH]; cbn [create_prediction]; (apply files_bind; [apply files_broker_call|]);
    intros a; repeat case_match; try done; by intros ? ? ? [= <- <-].
Qed.
Lemma files_poll polls q id deadline payload : keeps_files (poll env polls q id deadline payload).
Proof.
  revert payload. induction polls as [|polls IH]; intros payload; cbn [poll]; (case_match; [by intros ? ? ? [= <- <-]|]); [by intros ? ? ? [= <- <-]|].
  apply files_bind; [by intros ? ? ? [= <- <-]|]. intros now. case_match; [by intros ? ? ? [= <- <-]|].
  apply files_bind; [apply files_broker_call|]. intros a. case_match; auto; by intros ? ? ? [= <- <-].
Qed.

(** A whole artifact: the stream of an https download from an allowed host ended, and all of
    it, not empty and within the bound, is the file. *)
Definition whole_artifact (written : Z) : Prop := ∃ url host status chunks,
  env.(sv_url) url = Some ("https", host) ∧ artifact_host_allowed (lower host) = true
  ∧ env.(sv_stream) url = Streamed status chunks EndOfStream ∧ status < 300
  ∧ written = foldr Z.add 0 chunks ∧ written ≠ 0 ∧ written ≤ MAX_ARTIFACT_BYTES.
(** What a request makes of the files, by whether it delivers its artifact: they are as
    before, or without the partial file, or with the whole artifact in the place of the
    destination.  A partial file stays only on a disk that cannot unlink or move it. *)
Inductive file_change (destination : string) (files : list (string * Z)) : bool → list (string * Z) → Prop :=
  | untouched : file_change destination files false files
  | cleaned : file_change destination files false (remove_file (part_name destination) files)
  | replaced written : whole_artifact written →
      file_change destination files true (dict_set destination written (remove_file (part_name destination) files))
  | left_behind written : env.(sv_disk).(dk_unlinks) = false ∨ env.(sv_disk).(dk_replaces) = false →
      file_change destination files false (dict_set (part_name destination) written files).

Lemma remove_set path n files : remove_file path (dict_set path n files) = remove_file path files.
Proof.
  unfold remove_file, dict_set. destruct (dict_mem path files).
  - induction files as [|[k v] files IH]; [done|]. cbn. destruct (decide (k = path)) as [->|Hk].
    + rewrite (bool_decide_eq_true_2 (path = path)) by done. cbn. by rewrite bool_decide_eq_true_2.
    + rewrite (bool_decide_eq_false_2 (k = path)) by done. cbn. by rewrite bool_decide_eq_false_2, IH.
  - rewrite List.filter_app. cbn. rewrite bool_decide_eq_true_2 by done. apply app_nil_r.
Qed.
Lemma write_chunks_whole room acc chunks n : acc ≤ MAX_ARTIFACT_BYTES → write_chunks room acc chunks = (n, None) →
  n = acc + foldr Z.add 0 chunks ∧ n ≤ MAX_ARTIFACT_BYTES.
Proof.
  revert acc. induction chunks as [|c chunks IH]; intros acc Hacc; cbn [write_chunks foldr]; [intros [= <-]; lia|].
  destruct (Z.ltb_spec MAX_ARTIFACT_BYTES (acc + c)); [done|]. destruct (_ <? _); [done|]. intros [-> Hn]%IH; lia.
Qed.
Lemma files_download url destination s res s' : download_artifact env url destination s = (res, s') →
  file_change destination s.(sm_files) (is_ok res) s'.(sm_files).
Proof.
  assert (Hdiscard : ∀ f s0, s0.(sm_files) = s.(sm_files) ∨ (∃ n, s0.(sm_files) = dict_set (part_name destination) n s.(sm_files)) →
    discard env destination f s0 = (res, s') → file_change destination s.(sm_files) (is_ok res) s'.(sm_files)).
  { intros f s0 Hs0 [= <- <-]. cbn. destruct (dk_unlinks _) eqn:Hu; destruct Hs0 as [->|[n ->]]; rewrite ?remove_set; constructor. by left. }
  unfold download_artifact. destruct (sv_url env url) as [[scheme host]|] eqn:Hurl; [|intros [= <- <-]; constructor].
  case_bool_decide as Hs; cbn [negb orb]; [|intros [= <- <-]; constructor]. subst scheme.
  destruct (artifact_host_allowed _) eqn:Hh; cbn [negb]; [|intros [= <- <-]; constructor]. cbv zeta.
  destruct (sv_stream env url) as [e|status chunks ending] eqn:Hst; [apply Hdiscard; by left|].
  destruct (Z.leb_spec 400 status); [apply Hdiscard; by left|]. destruct (Z.leb_spec 300 status); [apply Hdiscard; by left|].
  destruct (dk_opens _); cbn [negb]; [|apply Hdiscard; by left]. unfold sbind at 1. cbn [get_files].
  destruct (write_chunks _ 0 chunks) as [n why] eqn:Hw. unfold sbind at 1. cbn [set_files]. set (s1 := s <| sm_files := _ |>).
  assert (Hs1 : s1.(sm_files) = s.(sm_files) ∨ ∃ n, s1.(sm_files) = dict_set (part_name destination) n s.(sm_files)) by by right; eexists.
  destruct why as [f|]; [by apply Hdiscard|]. destruct ending as [|e|]; [|by apply Hdiscard..].
  destruct (Z.eqb_spec n 0); [by apply Hdiscard|]. destruct (dk_replaces _) eqn:Hrep; cbn [negb].
  - intros [= <- <-]. cbn [is_ok sm_files]. unfold s1. cbn [sm_files]. rewrite remove_set. constructor.
    apply write_chunks_whole in Hw as [-> Hn]; [|done]. by exists url, host, status, chunks.
  - intros [= <- <-]. cbn. constructor. by right.
Qed.

Lemma files_finish polls q destination payload s res s' : finish_prediction env polls q destination payload s = (res, s') →
  file_change destination s.(sm_files) (is_ok res) s'.(sm_files).
Proof.
  unfold finish_prediction. intros [(e & [=] & _)|(start & s4 & [= <- <-] & Hf)]%sbind_cases.
  apply sbind_cases in Hf as [(e & Hp & ->)|(payload' & s5 & Hp & Hf)]; apply files_poll in Hp; cbn in Hp; rewrite <-Hp; [constructor|].
  revert Hf. destruct (negb _); [intros [= <- <-]; constructor|]. destruct (output_urls payload'); [intros [= <- <-]; constructor|].
  by intros [(e & Hd%files_download & ->)|(b & s6 & Hd%files_download & [= <- <-])]%sbind_cases.
Qed.
Lemma files_replicate polls q s res s' : run_replicate_generate env polls q s = (res, s') → (s'.(sm_files) = s.(sm_files) ∧ is_ok res = false)
  ∨ ∃ path destination, artifact_path q.(sq_var_dir) q.(sq_instance_id) (arg_text "artifact_name" q.(sq_args)) = Ok path
      ∧ contained env path (artifact_root q.(sq_var_dir) q.(sq_instance_id)) = Ok destination
      ∧ file_change destination s.(sm_files) (is_ok res) s'.(sm_files).
Proof.
  unfold run_replicate_generate.
  intros [(e & Ha & ->)|(path & s1 & Ha & Hr)]%sbind_cases; unfold slift in Ha; destruct (artifact_path _ _ _) as [p|e0] eqn:Hpath; try done; injection Ha as <- <-; [by left|].
  apply sbind_cases in Hr as [(e & [= _ <-] & ->)|(destination & s2 & [= Hdest <-] & Hr)]; [by left|].
  apply sbind_cases in Hr as [(e & Ha & ->)|(payload & s2 & Ha & Hr)]; apply files_create in Ha; [by left|].
  unfold billable_scope in Hr. destruct (finish_prediction _ _ _ _ _ s2) as [r s3] eqn:Hf.
  assert (s' = s3 ∧ is_ok res = is_ok r) as [-> ->] by (destruct r as [|[]]; by injection Hr as <- <-).
  apply files_finish in Hf. rewrite <-Ha. right. by exists p, destination.
Qed.

Lemma files_model q : keeps_files (run_model_complete env q).
Proof.
  intros s res s'. unfold run_model_complete. destruct (guard_config _); [|by intros [= _ <-]].
  destruct (complete _ _ _ _ _ _ _ _ _ _ _ _). by intros [= _ <-].
Qed.

(** C24: Artifacts are whole and confined: the only files a request touches are the destination of its artifact and the partial file beside it; the destination is the real path of a valid name below the artifact root of the instance, which contains it.  A request for a generation answers with a result exactly when the destination holds all the bytes, not zero and at most 32 MiB, of a download that ended, from an allowed host over https; otherwise the destination is as it was.  Neither leaves a partial file, however much of it had been written when the stream broke, grew too large or the disk filled, unless the disk fails to unlink it or to move it. *)
Theorem artifacts_whole polls payload db_path s a s' :
  execute env polls payload db_path s = (a, s') →
  (s'.(sm_files) = s.(sm_files) ∧ (delivers a = true → capability_of payload = MODEL_COMPLETE))
  ∨ ∃ var_dir name path destination, env.(sv_var_dir) = Some var_dir ∧ match_line ARTIFACT_NAME_RE name = true
      ∧ match_line INSTANCE_RE (instance_of payload) = true
      ∧ path = artifact_root var_dir (instance_of payload) +:+ "/" +:+ name
      ∧ contained env path (artifact_root var_dir (instance_of payload)) = Ok destination
      ∧ file_change destination s.(sm_files) (delivers a) s'.(sm_files).
Proof.
  intros [[[He _] [-> _]]|(r & d1 & [_ (capability & args & q & s0 & s1 & res & new & Had & H0 & (_ & Hvar & Hi) & Hr & _ & H1 & [_ Ha] & _)])]%execute_cases.
  { left. unfold effects_of in He. split; [by injection He|done]. }
  assert (s0.(sm_files) = s.(sm_files) ∧ s'.(sm_files) = s1.(sm_files)) as [E0 E1].
  { unfold effects_of in *. injection H0 as _ _ -> _. by injection H1. }
  rewrite E1, <-E0. destruct Had as [Hinst Hk Hg%granted_paid _ _]. revert Hk. apply elem_of_cons in Hg as [->|Hg%list_elem_of_singleton].
  - intros [= <-]. rewrite Ha. apply files_replicate in Hr as [[? ->]|(path & destination & Hp & Hd & Hf)]; [by left|]. right. rewrite Hi in *.
    unfold artifact_path in Hp. destruct (match_line ARTIFACT_NAME_RE _) eqn:Hn; cbn [negb] in Hp; [|done]. rewrite Hinst in Hp. injection Hp as <-.
    by eexists _, _, _, destination.
  - rewrite Hg. intros [= <-]. left. split; [by eapply files_model|done].
Qed.
End seam.

(** ** Many requests *)

Section many.
Context (rnd : Q → float) (quotient : Q → Q) (sql_sum : list Q → float) (cfg : LoopConfig) (delta eps : Q).
Context (sound : sound_rounding delta eps rnd sql_sum).

(** Requests that share the configuration of the ledger. *)
Definition shares (env : SeamEnv) : Prop :=
  env.(sv_rnd) = rnd ∧ env.(sv_quotient) = quotient ∧ env.(sv_sql_sum) = sql_sum ∧ env.(sv_budget) = cfg.
Definition serve polls (requests : list (SeamEnv * (dict * string))) (s : Seam) : Seam :=
  foldl (λ s r, (execute r.1 polls r.2.1 r.2.2 s).2) s requests.

Lemma serve_ledger polls requests s d : Forall (λ r, shares r.1) requests → s.(sm_ledger) = Some d →
  ∃ tr, (serve polls requests s).(sm_ledger) = Some (run rnd quotient sql_sum cfg tr d).
Proof.
  intros HF. revert s d. induction HF as [|[env [payload db]] requests (H1 & H2 & H3 & H4) _ IH]; intros s d Hs; [by exists []|].
  cbn [serve foldl fst snd]. destruct (execute env polls payload db s) as [a s'] eqn:He.
  destruct (execute_ledger _ _ _ _ _ _ _ _ He Hs) as (t1 & Hs'). cbn [fst snd] in *. subst. destruct (IH _ _ Hs') as (t2 & Ht2).
  exists (t1 ++ t2). unfold serve in Ht2. rewrite Ht2. f_equal. symmetry. apply foldl_app.
Qed.

(** The seam keeps the daily caps: whatever requests the workers send, in any order, whatever each of them is answered, costs or fails with, and whatever other processes do to the ledger meanwhile, the money held or charged within the reserved maxima for the reservations of one UTC day stays under the cap of each instance and under the global ceiling. *)
Theorem seam_keeps_caps polls requests s day :
  Forall (λ r, shares r.1) requests → s.(sm_ledger) = Some [] →
  ∃ d, (serve polls requests s).(sm_ledger) = Some d ∧ under_caps quotient cfg delta eps day d.
Proof.
  intros HF Hs. destruct (serve_ledger polls requests s [] HF Hs) as (tr & Hd). eexists. split; [exact Hd|]. by apply run_caps.
Qed.
End many.

(** ** Witnesses and examples *)

Definition sx_root : string := "/v/loops/artifacts/render_probe".
(** Every path exists and is where it says. *)
Definition sx_fs : FileSystem := {|
  fs_lstat := λ _, LPresent; fs_stat := λ p, Some (if bool_decide (p = sx_root) then (1, 1) else (2, 2)); fs_realpath := Some;
  fs_abspath := id; fs_expanduser := Some
|}.
Definition sx_capability : Capability := fx_capability "replicate.generate" "replicate" SANDBOXED_CREATION
  (mkHttp "https://api.replicate.com/v1" ["GET"; "POST"] ["/models/"; "/predictions/"] None "bearer:REPLICATE_API_TOKEN" []).
Definition sx_registry : ConnectorRegistry :=
  mkRegistry 1 [("mail", mkGroup "Mail" false)]
    [("replicate", mkConnector "replicate" "Replicate" "mail" ["REPLICATE_API_TOKEN"] [("replicate.generate", sx_capability)])].
Definition sx_machine (send : Outgoing → option Response) : Machine := mkMachine
  (λ _, "t") (λ _, "") false (λ _, false) fl_zero (λ _ _ _, None) 7 id id (λ _, "") (λ s _, s)
  send true (λ _, true) "c1" "r1" 3 (λ _ _, "d") id.
Definition sx_caps : CapDb :=
  mkCapDb [mkStanding "loop:render_probe" "replicate.generate" "1" "owner" "" (Some "read") (Some "50") None None None] [] [] [].
(** The outside as the scenarios need it: what the provider answers, how a request without an
    answer failed, whether the grant is revoked after the first call, what the artifact's
    URL delivers, the disk, and whether the ledger takes the disposal. *)
Definition sx_outside (send : Outgoing → option Response) (cause : http_exception) (revoked : bool)
    (artifact : stream) (disk : Disk) (disposes : bool) : SeamEnv := mkSeamEnv
  (Some sx_registry) fx_rnd fx_read fx_repr fx_sha fx_mail fx_iso
  (λ n, mkTurn (sx_machine send) "5" "5" (λ d, if revoked && (0 <? n)%nat then d <| cd_grants := [] |> else d) true cause)
  (λ n, inject_Z (Z.of_nat n)) (mkNetLib (λ _, None) (λ _ _ _ _, "") (λ _ _, None) (λ _, None)) (λ _ _, None) (λ _ _, true) (λ _ _, None) (λ s, (s, 0)) id
  [] (λ _, None) (λ _, "") (λ _, "2026-08-01T00") (λ _ _, OsError) (λ _, true) (λ _, true)
  sx_fs true (λ u, if bool_decide (u = "u") then Some ("https", "x.replicate.delivery") else None) (λ _, artifact) disk (Some "/v")
  default_config lb_quotient (λ l, Fin (Qsum l)) 90000 "a" [Sweep 90001] disposes true "5".
Definition sx_disk : Disk := mkDisk true 1000 true true.
Definition sx_env send cause revoked : SeamEnv := sx_outside send cause revoked (Streamed 200 [5; 6] EndOfStream) sx_disk true.
Definition sx_payload : dict :=
  [("v", JInt 1); ("instance", JStr "render_probe"); ("capability", JStr "replicate.generate");
   ("args", JDict [("model", JStr "black-forest-labs/flux-dev"); ("prompt", JStr "a clock"); ("artifact_name", JStr "a.png")])].
Definition sx_seam : Seam := mkSeam (mkWorld (Some sx_caps) [] []) (mkLlm None []) (Some []) [] 0 0 [].
Abbreviation sx_run env := (execute env 3 sx_payload "/db" sx_seam).
Lemma sx_split polls env : execute env polls sx_payload "/db" sx_seam
  = ((execute env polls sx_payload "/db" sx_seam).1, (execute env polls sx_payload "/db" sx_seam).2).
Proof. apply surjective_pairing. Qed.
Definition sx_prediction (status : string) (_ : Outgoing) : option Response :=
  Some (mkResponse 201 (Some (JDict [("id", JStr "p1"); ("status", JStr status); ("output", JList [JStr "u"])])) "").
Definition sx_good : SeamEnv := sx_env (sx_prediction "succeeded") ReadTimeout false.
Definition sx_unreached : SeamEnv := sx_env (λ _, None) ConnectError false.
Definition sx_revoked : SeamEnv := sx_env (sx_prediction "starting") ReadTimeout true.

Lemma no_effect_ungranted_witness :
  (sx_run sx_good).2.(sm_files) = [("/v/loops/artifacts/render_probe/a.png", 11)]
  ∧ ∃ r d1, admitted sx_good 3 sx_payload "/db" sx_seam r d1.
Proof.
  split; [by vm_compute|].
  destruct (no_effect_ungranted sx_good 3 sx_payload "/db" sx_seam (sx_run sx_good).1 (sx_run sx_good).2) as [H|H].
  - exact (sx_split 3 sx_good).
  - exfalso. vm_compute in H. discriminate H.
  - exact H.
Defined.

Lemma one_purchase_witness : purchases sx_good sx_seam (sx_run sx_good).2 = 1%nat ∧ (purchases sx_good sx_seam (sx_run sx_good).2 ≤ 1)%nat.
Proof.
  split; [by vm_compute|].
  apply (one_purchase sx_good 3 sx_payload "/db" sx_seam (sx_run sx_good).1 (sx_run sx_good).2 (sx_split 3 sx_good)).
Defined.

Lemma absence_is_proved_witness :
  ∃ a s', sx_run sx_unreached = (Some a, s') ∧ a.(an_reason) = "transport_unreached" ∧ purchases sx_unreached sx_seam s' = 0%nat.
Proof.
  destruct (sx_run sx_unreached) as [[a|] s'] eqn:H; [|vm_compute in H; discriminate]. exists a, s'. split; [done|].
  assert (a = answer OUTCOME_UNAVAILABLE "transport_unreached") as Ha by (vm_compute in H; by injection H as <- _).
  split; [by rewrite Ha|]. apply (absence_is_proved sx_unreached 3 sx_payload "/db" sx_seam a s'); [exact H|by rewrite Ha].
Defined.

Lemma reservation_disposed_witness :
  ∃ d' r', (sx_run sx_unreached).2.(sm_ledger) = Some d' ∧ find_reservation "a" d' = Some r' ∧ r'.(rv_state) ≠ STATE_OPEN.
Proof.
  destruct (sx_run sx_unreached) as [[a|] s'] eqn:H; [|vm_compute in H; discriminate].
  destruct (reservation_disposed sx_unreached 3 sx_payload "/db" sx_seam a s' []) as [[He _]|(r & d1 & d' & r' & _ & Hd & Hf & _ & Hs & _)].
  - apply empty_ok.
  - reflexivity.
  - by repeat constructor.
  - exact H.
  - exfalso. vm_compute in H. injection H as _ <-. vm_compute in He. discriminate He.
  - exists d', r'. split; [exact Hd|]. split; [exact Hf|destruct Hs as [Hs|[Hs _]]; [exact Hs|discriminate Hs]].
Defined.

Lemma execute_answers_witness : clock_advances sx_good 200 0 ∧ (execute sx_good 200 sx_payload "/db" sx_seam).1 ≠ None.
Proof.
  assert (clock_advances sx_good 200 0) as Hclock by (exists 199%nat; split; [lia|by vm_compute]). split; [done|]. intros Hnone.
  destruct (execute_answers sx_good 200 sx_payload "/db" sx_seam (execute sx_good 200 sx_payload "/db" sx_seam).2) as [H|(d & e & d1 & Hd & H & He)].
  - exact Hclock.
  - rewrite <-Hnone. exact (sx_split 200 sx_good).
  - assert (match gates sx_good 200 sx_payload (instance_of sx_good sx_payload) (capability_of sx_good sx_payload) with None => false | Some _ => true end = true) as Hg by by vm_compute.
    by rewrite H in Hg.
  - injection Hd as <-. vm_compute in H. discriminate H.
Defined.

Lemma artifacts_whole_witness :
  ∃ destination, (sx_run sx_good).2.(sm_files) = [(destination, 11)] ∧ file_change sx_good destination [] true (sx_run sx_good).2.(sm_files).
Proof.
  exists "/v/loops/artifacts/render_probe/a.png". split; [by vm_compute|].
  destruct (artifacts_whole sx_good 3 sx_payload "/db" sx_seam (sx_run sx_good).1 (sx_run sx_good).2)
    as [[H _]|(var_dir & name & path & destination & _ & _ & _ & _ & _ & H)].
  - exact (sx_split 3 sx_good).
  - exfalso. vm_compute in H. discriminate H.
  - enough (destination = "/v/loops/artifacts/render_probe/a.png") as <- by exact H.
    assert (Hd : ∀ d ok fs, file_change sx_good d [] ok fs → fs = [("/v/loops/artifacts/render_probe/a.png", 11)] → ok = true →
      d = "/v/loops/artifacts/render_probe/a.png") by (intros d ok fs [| |n _|n _]; try done; cbn; congruence).
    apply (Hd _ _ _ H); by vm_compute.
Defined.

Lemma seam_keeps_caps_witness :
  let requests := [(sx_good, (sx_payload, "/db")); (sx_unreached, (sx_payload, "/db"))] in
  ∃ d, (serve 3 requests sx_seam).(sm_ledger) = Some d ∧ under_caps lb_quotient default_config 0 0 86400 d.
Proof.
  cbv zeta. apply (seam_keeps_caps fx_rnd lb_quotient (λ l, Fin (Qsum l)) default_config 0 0 exact_sound).
  - repeat constructor.
  - reflexivity.
Defined.

(** A prediction whose poll the broker refuses here is bought and refunded: the refusal is not
    converted, because it carries no absence, and its flag says that nothing was billed. *)
Example refused_poll_refunds :
  let '(a, s') := sx_run sx_revoked in
  a = Some (answer OUTCOME_REFUSED "not_granted") ∧ purchases sx_revoked sx_seam s' = 1%nat
  ∧ map rv_state (default [] s'.(sm_ledger)) = [STATE_RELEASED].
Proof. by vm_compute. Qed.
(** A stream that breaks half way and one that outgrows the disk leave no file; on a disk
    that cannot unlink, the partial file stays. *)
Example broken_stream_leaves_nothing :
  let run artifact disk := sx_run (sx_outside (sx_prediction "succeeded") ReadTimeout false artifact disk true) in
  (run (Streamed 200 [5; 6] (StreamBroken ConnectError)) sx_disk).1 = Some (answer OUTCOME_REFUSED "transport_unreached")
  ∧ (run (Streamed 200 [5; 6] (StreamBroken ConnectError)) sx_disk).2.(sm_files) = []
  ∧ (run (Streamed 200 [5; 6] EndOfStream) (mkDisk true 7 true true)).2.(sm_files) = []
  ∧ (run (Streamed 200 [5; 6] EndOfStream) (mkDisk true 7 false true)).2.(sm_files) = [("/v/loops/artifacts/render_probe/.a.png.part", 5)]
  ∧ (run (Streamed 200 [5; 6] EndOfStream) (mkDisk true 1000 true false)).2.(sm_files) = [("/v/loops/artifacts/render_probe/.a.png.part", 11)].
Proof. by vm_compute. Qed.
(** A disposal that the database refuses leaves the hold open. *)
Example hold_survives_failed_disposal :
  let '(a, s') := sx_run (sx_outside (sx_prediction "succeeded") ReadTimeout false (Streamed 200 [5; 6] EndOfStream) sx_disk false) in
  an_outcome <$> a = Some OUTCOME_OK ∧ map rv_state (default [] s'.(sm_ledger)) = [STATE_OPEN].
Proof. by vm_compute. Qed.
(** A version that is not a number raises out of [execute]. *)
Example bad_version_raises : (execute sx_good 3 [("v", JStr "one")] "/db" sx_seam).1 = None.
Proof. by vm_compute. Qed.
(** A name that ends in a newline is a valid artifact name. *)
Example newline_name_accepted : match_line ARTIFACT_NAME_RE (String.append "a.png" (String newline "")) = true.
Proof. by vm_compute. Qed.
