(* ===== verification/JsonText.v ===== *)
(** * JsonText: the text of [json.dumps]

    [json.dumps(value, sort_keys=True, ensure_ascii=False, separators=...)] is the print
    of the value whose dictionaries are sorted.  The digits of a finite float are a
    parameter with the three laws of [repr].  The text determines the value, so a digest
    of the text covers every member of it. *)

From Stdlib Require Import Ascii QArith.
From stdpp Require Import pretty.
From S2P Require Import Prelude PyString PyJson.
Open Scope Z_scope.

(** [repr] of a finite float, and what is known of it. *)
Class FloatText := fin_repr : Q → string.
Class FloatTextLaws `{FloatText} : Prop := {
  fin_repr_chars q : forallb_str (λ c, is_digit c || has_char c "+-.e") (fin_repr q) = true;
  fin_repr_mark q : existsb_str (λ c, has_char c ".e") (fin_repr q) = true;
  fin_repr_inj p q : fin_repr p = fin_repr q → (p == q)%Q;
}.

Section text.
Context `{FloatText}.

Definition float_text (x : float) : string :=
  match x with
  | Fin q => fin_repr q
  | Inf n => if n then "-Infinity" else "Infinity"
  | NaN => "NaN"
  end.

(** [repr] of a float, and [str] of a value. *)
Definition float_repr (x : float) : string :=
  match x with Fin q => fin_repr q | Inf n => if n then "-inf" else "inf" | NaN => "nan" end.
Definition text_of (v : json) : string := py_str float_repr v.

(** The escape of one character inside quotes. *)
Definition json_escape (c : ascii) : string :=
  if Ascii.eqb c dquote || Ascii.eqb c backslash then String backslash (String c "")
  else match code c with
       | 8 => String backslash "b" | 9 => String backslash "t" | 10 => String backslash "n"
       | 12 => String backslash "f" | 13 => String backslash "r"
       | n => if (n <? 32)%nat
              then String backslash ("u00" +:+ String (hex_digit (n / 16)) (String (hex_digit (n mod 16)) ""))
              else String c ""
       end%nat.
Definition json_quote (s : string) : string :=
  String dquote (concat_map_str json_escape s +:+ String dquote "").

Fixpoint json_text (item_sep key_sep : string) (v : json) : string :=
  match v with
  | JNull => "null"
  | JBool b => if b then "true" else "false"
  | JInt n => pretty n
  | JFloat x => float_text x
  | JStr s => json_quote s
  | JList l => "[" +:+ join item_sep (map (json_text item_sep key_sep) l) +:+ "]"
  | JDict l =>
      "{" +:+ join item_sep (map (λ p, json_quote p.1 +:+ key_sep +:+ json_text item_sep key_sep p.2) l) +:+ "}"
  end.

Fixpoint sort_keys (v : json) : json :=
  match v with
  | JList l => JList (map sort_keys l)
  | JDict l => JDict (sort_by fst (map (λ p, (p.1, sort_keys p.2)) l))
  | v => v
  end.

Definition compact_text : json → string := json_text "," ":".
Definition dumps_compact (v : json) : string := compact_text (sort_keys v).
Definition dumps_spaced (v : json) : string := json_text ", " ": " (sort_keys v).
End text.

(** [dict(value or {})].  The items of a list are pairs: lists, texts of two characters or
    dictionaries of two keys.  A pair whose key is not a text is outside the data of this library. *)
Definition pair_of (v : json) : result cast_error (string * json) :=
  match v with
  | JList [JStr k; v] => Ok (k, v)
  | JStr (String a (String b "")) => Ok (String a "", JStr (String b ""))
  | JDict [(a, _); (b, _)] => Ok (a, JStr b)
  | JList _ | JStr _ | JDict _ => Err ValueError
  | _ => Err TypeError
  end.
Definition py_dict (v : option json) : result cast_error dict :=
  match v with
  | None => Ok []
  | Some v =>
      if negb (truthy v) then Ok []
      else match v with
           | JDict d => Ok d
           | JList l => pairs ← traverse pair_of l; Ok (foldl (λ d p, dict_set p.1 p.2 d) [] pairs)
           | JStr _ => Err ValueError
           | _ => Err TypeError
           end
  end.

(** The length of the UTF-8 encoding. *)
Fixpoint utf8_len (s : string) : Z :=
  match s with "" => 0 | String c s => (if (code c <? 128)%nat then 1 else 2) + utf8_len s end.

(** Floats by value: two representations of one rational are one number. *)
Definition red_float (x : float) : float := match x with Fin q => Fin (Qred q) | x => x end.
Fixpoint reduced (v : json) : json :=
  match v with
  | JFloat x => JFloat (red_float x)
  | JList l => JList (map reduced l)
  | JDict l => JDict (map (λ p, (p.1, reduced p.2)) l)
  | v => v
  end.

(** ** Induction over values *)

Section json_induction.
Context (P : json → Prop).
Hypothesis (Hnull : P JNull) (Hbool : ∀ b, P (JBool b)) (Hint : ∀ n, P (JInt n)) (Hfloat : ∀ x, P (JFloat x))
  (Hstr : ∀ s, P (JStr s)) (Hlist : ∀ l, Forall P l → P (JList l))
  (Hdict : ∀ l, Forall (λ p : string * json, P p.2) l → P (JDict l)).

Fixpoint json_induction (v : json) : P v :=
  match v with
  | JNull => Hnull | JBool b => Hbool b | JInt n => Hint n | JFloat x => Hfloat x | JStr s => Hstr s
  | JList l => Hlist l ((fix go l : Forall P l :=
      match l with [] => List.Forall_nil _ | v :: l => List.Forall_cons _ _ _ (json_induction v) (go l) end) l)
  | JDict l => Hdict l ((fix go l : Forall (λ p : string * json, P p.2) l :=
      match l with [] => List.Forall_nil _ | p :: l => List.Forall_cons _ _ _ (json_induction p.2) (go l) end) l)
  end.
End json_induction.

(** ** Quoted strings can be cut again *)

Definition all_codes : list ascii := map ascii_of_nat (seq 0 256).
Lemma all_codes_spec c : c ∈ all_codes.
Proof.
  apply list_elem_of_fmap. exists (nat_of_ascii c). rewrite elem_of_seq.
  pose proof (nat_ascii_bounded c). split; [by rewrite ascii_nat_embedding|lia].
Qed.

Fixpoint is_prefix (p s : string) : bool :=
  match p, s with
  | "", _ => true
  | String c p, String d s => Ascii.eqb c d && is_prefix p s
  | _, _ => false
  end.

Lemma escape_code_check :
  forallb (λ c, negb (is_prefix (String dquote "") (json_escape c)) &&
    forallb (λ d, Ascii.eqb c d || negb (is_prefix (json_escape c) (json_escape d))) all_codes) all_codes = true.
Proof. by vm_compute. Qed.

Lemma escape_prefix c d : is_prefix (json_escape c) (json_escape d) = true → c = d.
Proof.
  pose proof escape_code_check as Hall. rewrite forallb_forall in Hall.
  specialize (Hall c (proj1 (list_elem_of_In _ _) (all_codes_spec c))). apply andb_true_iff in Hall as [_ Hall].
  rewrite forallb_forall in Hall. specialize (Hall d (proj1 (list_elem_of_In _ _) (all_codes_spec d))).
  intros Hp. rewrite Hp, orb_false_r in Hall. by apply Ascii.eqb_eq.
Qed.

Lemma escape_head c : ∃ e t, json_escape c = String e t ∧ e ≠ dquote.
Proof.
  pose proof escape_code_check as Hall. rewrite forallb_forall in Hall.
  specialize (Hall c (proj1 (list_elem_of_In _ _) (all_codes_spec c))). apply andb_true_iff in Hall as [Hq _].
  destruct (json_escape c) as [|e t] eqn:E.
  - unfold json_escape in E. repeat case_match; done.
  - exists e, t. split; [done|]. intros ->. by cbn in Hq.
Qed.

Lemma app_prefix (p q r s : string) : p +:+ r = q +:+ s → is_prefix p q = true ∨ is_prefix q p = true.
Proof.
  revert q. induction p as [|c p IH]; intros [|d q] Heq; simpl; auto.
  injection Heq as -> Heq. rewrite Ascii.eqb_refl. by apply IH.
Qed.

Lemma string_app_inv_l (p r s : string) : p +:+ r = p +:+ s → r = s.
Proof. induction p as [|c p IH]; [done|]. intros [= Heq]. auto. Qed.

Lemma quoted_inj s t r u :
  concat_map_str json_escape s +:+ String dquote r = concat_map_str json_escape t +:+ String dquote u →
  s = t ∧ r = u.
Proof.
  revert t. induction s as [|c s IH]; intros [|d t]; cbn [concat_map_str]; autorewrite with pystr; intros Heq.
  - by injection Heq.
  - destruct (escape_head d) as (e & x & Hd & He). rewrite Hd in Heq. by injection Heq.
  - destruct (escape_head c) as (e & x & Hc & He). rewrite Hc in Heq. by injection Heq.
  - assert (c = d) as <-.
    { destruct (app_prefix _ _ _ _ Heq) as [Hp|Hp]; apply escape_prefix in Hp; done. }
    apply string_app_inv_l in Heq. by destruct (IH _ Heq) as [-> ->].
Qed.

Lemma json_quote_inj s t r u : json_quote s +:+ r = json_quote t +:+ u → s = t ∧ r = u.
Proof.
  unfold json_quote. autorewrite with pystr. intros [= Heq]. revert Heq. autorewrite with pystr.
  apply quoted_inj.
Qed.

(** ** Sequences of items can be cut again *)

(** What follows a value: the end of the text, a comma or a closing bracket. *)
Definition number_char (c : ascii) : bool := is_digit c || has_char c "+-.eNaInfity".
Definition ends (r : string) : Prop := match r with "" => True | String c _ => number_char c = false end.

Lemma forallb_str_cons p c s : forallb_str p (String c s) = p c && forallb_str p s.
Proof. unfold forallb_str. cbn. by destruct (p c), (existsb_str _ s). Qed.

Lemma number_cut p q r s :
  forallb_str number_char p = true → forallb_str number_char q = true → ends r → ends s →
  p +:+ r = q +:+ s → p = q ∧ r = s.
Proof.
  revert q. induction p as [|c p IH]; intros [|d q]; rewrite ?forallb_str_cons, ?andb_true_iff;
    intros Hp Hq Hr Hs Heq.
  - done.
  - assert (r = String d (q +:+ s)) as -> by exact Heq. cbn in Hr. destruct Hq. congruence.
  - assert (s = String c (p +:+ r)) as -> by (symmetry; exact Heq). cbn in Hs. destruct Hp. congruence.
  - injection Heq as -> Heq. by destruct (IH q) as [-> ->]; naive_solver.
Qed.

Section items.
Context {A B : Type} (f : A → string) (g : A → B) (close : ascii).
Hypothesis (Hclose : number_char close = false) (Hcomma : close ≠ ","%char).

Definition cuts (x : A) : Prop := ∀ y r s, ends r → ends s → f x +:+ r = f y +:+ s → g x = g y ∧ r = s.
Definition more (l : list A) : string := String.concat "" (map (λ x, String "," (f x)) l).

Lemma join_more x l : join "," (map f (x :: l)) = f x +:+ more l.
Proof.
  revert x. induction l as [|y l IH]; intros x; [by autorewrite with pystr|].
  change (map f (x :: y :: l)) with (f x :: f y :: map f l). rewrite join_cons2.
  change (f y :: map f l) with (map f (y :: l)). rewrite IH. unfold more. cbn [map].
  rewrite concat_cons. by autorewrite with pystr.
Qed.

Lemma more_ends l r : ends (more l +:+ String close r).
Proof. destruct l; [done|]. unfold more. cbn [map]. rewrite concat_cons. done. Qed.

Lemma more_inj l m r s :
  Forall cuts l → more l +:+ String close r = more m +:+ String close s → map g l = map g m ∧ r = s.
Proof.
  intros Hl. revert m. induction Hl as [|x l Hx Hl IH]; intros [|y m] Heq.
  - by injection Heq.
  - exfalso. unfold more in Heq. cbn [map] in Heq. rewrite concat_cons in Heq. by injection Heq.
  - exfalso. unfold more in Heq. cbn [map] in Heq. rewrite concat_cons in Heq. by injection Heq.
  - unfold more in Heq. cbn [map] in Heq. rewrite !concat_cons in Heq. fold (more l) (more m) in Heq.
    rewrite !string_app_assoc in Heq. injection Heq as Heq.
    apply Hx in Heq as [Hg Heq]; [|apply more_ends..]. apply IH in Heq as [Hm ->]. cbn. by rewrite Hg, Hm.
Qed.

Lemma items_inj l m r s :
  Forall cuts l → (∀ x r s, f x +:+ r ≠ String close s) →
  join "," (map f l) +:+ String close r = join "," (map f m) +:+ String close s → map g l = map g m ∧ r = s.
Proof.
  intros Hl Hf Heq. destruct l as [|x l], m as [|y m]; rewrite ?join_more, ?string_app_assoc in Heq.
  - by injection Heq.
  - by symmetry in Heq; apply Hf in Heq.
  - by apply Hf in Heq.
  - apply Forall_cons in Hl as [Hx Hl]. apply Hx in Heq as [Hg Heq]; [|apply more_ends..].
    apply more_inj in Heq as [Hm ->]; [|done]. cbn. by rewrite Hg, Hm.
Qed.
End items.

(** ** Values can be cut again *)

(** The first character tells the kind of a value; numbers share theirs. *)
Definition head_kind (c : ascii) : nat :=
  if Ascii.eqb c "n" then 0 else if Ascii.eqb c "t" then 1 else if Ascii.eqb c "f" then 2
  else if Ascii.eqb c dquote then 3 else if Ascii.eqb c "[" then 4 else if Ascii.eqb c "{" then 5
  else if Ascii.eqb c "]" || Ascii.eqb c "}" then 7 else 6.
Definition value_kind (v : json) : nat :=
  match v with
  | JNull => 0 | JBool true => 1 | JBool false => 2 | JStr _ => 3 | JList _ => 4 | JDict _ => 5
  | JInt _ | JFloat _ => 6
  end.

Section injective.
Context `{FloatTextLaws}.

Lemma forallb_str_impl p q s : (∀ c, p c = true → q c = true) → forallb_str p s = true → forallb_str q s = true.
Proof.
  intros Hpq. induction s as [|c s IH]; [done|]. rewrite !forallb_str_cons, !andb_true_iff. naive_solver.
Qed.
Lemma forallb_str_existsb p q s : forallb_str p s = true → (∀ c, p c = true → q c = false) → existsb_str q s = false.
Proof.
  intros Hp Hpq. induction s as [|c s IH]; [done|]. rewrite forallb_str_cons in Hp.
  apply andb_true_iff in Hp as [Hc Hs]. cbn. by rewrite (Hpq c Hc), IH.
Qed.

Definition int_char (c : ascii) : bool := is_digit c || Ascii.eqb c "-".

Lemma pretty_go_chars x s : forallb_str int_char s = true → forallb_str int_char (pretty_N_go x s) = true.
Proof.
  revert s. induction (N.lt_wf_0 x) as [x _ IH]; intros s Hs.
  destruct (decide (x = 0)%N) as [->|Hx]; [by rewrite pretty_N_go_0|].
  rewrite pretty_N_go_step by lia. apply IH; [apply N.div_lt; lia|].
  rewrite forallb_str_cons, Hs. unfold int_char. by rewrite pretty_char_digit.
Qed.

Lemma pretty_Z_chars (n : Z) : forallb_str int_char (pretty n) = true ∧ pretty n ≠ "".
Proof.
  assert (∀ m : N, forallb_str int_char (pretty m) = true ∧ pretty m ≠ "") as HN.
  { intros m. unfold pretty, pretty_N. case_decide as Hm; [done|]. split; [by apply pretty_go_chars|].
    rewrite pretty_N_go_step by lia. generalize (m `div` 10)%N, (pretty_N_char (m `mod` 10)). intros x c.
    assert (∀ s, s ≠ "" → pretty_N_go x s ≠ "") as Hgo; [|by apply Hgo].
    induction (N.lt_wf_0 x) as [x _ IH]; intros s Hs.
    destruct (decide (x = 0)%N) as [->|Hx]; [by rewrite pretty_N_go_0|].
    rewrite pretty_N_go_step by lia. apply IH; [apply N.div_lt; lia|done]. }
  destruct n as [|p|p]; [done|apply HN|]. split; [|done].
  change (pretty (Z.neg p)) with (String "-" (pretty (N.pos p))). rewrite forallb_str_cons. apply HN.
Qed.

Lemma float_text_chars x : forallb_str number_char (float_text x) = true ∧ float_text x ≠ "".
Proof.
  destruct x as [q|[]|]; [|done..]. cbn. split.
  - apply forallb_str_impl with (2 := fin_repr_chars q). intros c. unfold number_char.
    rewrite !orb_true_iff. intros [Hc|Hc]; [by left|right]. unfold has_char in *. cbn in *.
    rewrite !orb_true_iff in *. naive_solver.
  - intros E. pose proof (fin_repr_mark q) as Hm. by rewrite E in Hm.
Qed.

Definition is_mark (c : ascii) : bool := has_char c ".eNI".
Lemma float_text_mark x : existsb_str is_mark (float_text x) = true.
Proof.
  destruct x as [q|[]|]; [|done..]. cbn. pose proof (fin_repr_mark q) as Hm.
  induction (fin_repr q) as [|c s IH]; [done|]. cbn in *. rewrite orb_true_iff in *.
  destruct Hm as [Hm|Hm]; [left|by right; apply IH]. unfold is_mark, has_char in *. cbn in *.
  rewrite !orb_true_iff in *. naive_solver.
Qed.

Lemma number_head_check :
  forallb (λ c, negb (is_digit c || has_char c "+-.eNI") || bool_decide (head_kind c = 6%nat)) all_codes = true.
Proof. by vm_compute. Qed.
Lemma number_head c : is_digit c || has_char c "+-.eNI" = true → head_kind c = 6%nat.
Proof.
  intros Hc. pose proof number_head_check as Hall. rewrite forallb_forall in Hall.
  specialize (Hall c (proj1 (list_elem_of_In _ _) (all_codes_spec c))). rewrite Hc in Hall.
  by apply bool_decide_eq_true in Hall.
Qed.

Lemma value_head v : ∃ c t, compact_text v = String c t ∧ head_kind c = value_kind v.
Proof.
  assert (∀ p s, forallb_str p s = true → s ≠ "" → (∀ c, p c = true → is_digit c || has_char c "+-.eNI" = true) →
    ∃ c t, s = String c t ∧ head_kind c = 6%nat) as Hnum.
  { intros p [|c s] Hp Hs Hall; [done|]. rewrite forallb_str_cons, andb_true_iff in Hp.
    exists c, s. split; [done|]. apply number_head, Hall, Hp. }
  destruct v as [|[]|n|[q|[]|]|s|l|l]; try (by repeat eexists).
  - destruct (pretty_Z_chars n) as [Hc Hn]. apply (Hnum int_char); [done..|].
    intros c. unfold int_char. rewrite !orb_true_iff. intros [Hd| ->%Ascii.eqb_eq]; [by left|by right].
  - destruct (float_text_chars (Fin q)) as [_ Hn]. apply (Hnum _ _ (fin_repr_chars q)); [done|].
    intros c. rewrite !orb_true_iff. intros [Hd|Hd]; [by left|right]. unfold has_char in *. cbn in *.
    rewrite !orb_true_iff in *. naive_solver.
Qed.

Lemma value_kind_eq a b r s : compact_text a +:+ r = compact_text b +:+ s → value_kind a = value_kind b.
Proof.
  destruct (value_head a) as (c & x & Ha & <-), (value_head b) as (d & y & Hb & <-). rewrite Ha, Hb.
  intros Heq. by injection Heq as ->.
Qed.

Lemma value_not_close c r s v : head_kind c = 7%nat → compact_text v +:+ r ≠ String c s.
Proof.
  intros Hc Heq. destruct (value_head v) as (d & x & Hv & Hd). rewrite Hv in Heq. injection Heq as -> _.
  rewrite Hc in Hd. by destruct v as [|[]|?|?|?|?|?].
Qed.

Lemma int_not_float (n : Z) x : pretty n ≠ float_text x.
Proof.
  intros Heq. pose proof (float_text_mark x) as Hm. rewrite <-Heq in Hm.
  rewrite (forallb_str_existsb int_char is_mark) in Hm; [done|apply pretty_Z_chars|].
  intros c. unfold int_char. rewrite orb_true_iff. intros [Hd| ->%Ascii.eqb_eq]; [|done].
  unfold is_mark, has_char. cbn. rewrite !orb_false_iff, !(Ascii.eqb_neq c). split_and!; try done; by intros ->.
Qed.

Lemma float_text_inj x y : float_text x = float_text y → red_float x = red_float y.
Proof.
  assert (∀ q s, fin_repr q = s → existsb_str (λ c, has_char c "NI") s = false) as Hfin.
  { intros q s <-. apply (forallb_str_existsb _ _ _ (fin_repr_chars q)). intros c. rewrite orb_true_iff.
    intros [Hd|Hd]; unfold has_char in *; cbn in *; rewrite ?orb_true_iff in *;
      rewrite !orb_false_iff, !(Ascii.eqb_neq c); (split_and!; [..|done]); intros ->; done || naive_solver. }
  destruct x as [p|[]|], y as [q|[]|]; cbn; try done; intros Heq.
  - f_equal. by apply Qred_complete, fin_repr_inj.
  - by specialize (Hfin _ _ Heq).
  - by specialize (Hfin _ _ Heq).
  - by specialize (Hfin _ _ Heq).
  - by specialize (Hfin _ _ (eq_sym Heq)).
  - by specialize (Hfin _ _ (eq_sym Heq)).
  - by specialize (Hfin _ _ (eq_sym Heq)).
Qed.

Lemma number_text_chars v : value_kind v = 6%nat → forallb_str number_char (compact_text v) = true.
Proof.
  destruct v as [|[]|n|x|?|?|?]; try done; intros _; [|apply float_text_chars].
  apply forallb_str_impl with (2 := proj1 (pretty_Z_chars n)). intros c. unfold int_char, number_char.
  rewrite !orb_true_iff. intros [Hd| ->%Ascii.eqb_eq]; [by left|by right].
Qed.

Lemma compact_cuts a : cuts compact_text reduced a.
Proof.
  induction a as [|b|n|x|t|l IH|l IH] using json_induction; intros b' r s Hr Hs Heq;
    pose proof (value_kind_eq _ _ _ _ Heq) as Hk.
  - destruct b' as [|[]|?|?|?|?|?]; try done. by apply string_app_inv_l in Heq.
  - destruct b, b' as [|[]|?|?|?|?|?]; try done; by apply (string_app_inv_l) in Heq.
  - destruct b' as [|[]|m|y|?|?|?]; try done;
      (apply number_cut in Heq as [Heq ->]; [|by apply number_text_chars..|done|done]).
    + change (pretty n = pretty m) in Heq. apply (inj pretty) in Heq as ->. done.
    + by apply int_not_float in Heq.
  - destruct b' as [|[]|m|y|?|?|?]; try done;
      (apply number_cut in Heq as [Heq ->]; [|by apply number_text_chars..|done|done]).
    + by apply symmetry, int_not_float in Heq.
    + cbn. by rewrite (float_text_inj _ _ Heq).
  - destruct b' as [|[]|?|?|u|?|?]; try done. by apply json_quote_inj in Heq as [-> ->].
  - destruct b' as [|[]|?|?|?|m|?]; try done. unfold compact_text in Heq. cbn in Heq.
    rewrite !string_app_assoc in Heq. apply (string_app_inv_l "[") in Heq.
    apply (items_inj _ reduced) in Heq as [Hm ->]; try done; [by cbn; rewrite Hm|].
    intros v u w. by apply value_not_close.
  - destruct b' as [|[]|?|?|?|?|m]; try done. unfold compact_text in Heq. cbn in Heq.
    rewrite !string_app_assoc in Heq. apply (string_app_inv_l "{") in Heq.
    apply (items_inj _ (λ p, (p.1, reduced p.2))) in Heq as [Hm ->]; try done; [by cbn; rewrite Hm|].
    eapply Forall_impl; [exact IH|]. intros [k v] Hv [k' v'] u w Hu Hw E. cbn in *.
    rewrite !string_app_assoc in E. apply json_quote_inj in E as [-> E]. apply (string_app_inv_l ":") in E.
    apply Hv in E as [-> ->]; done.
Qed.

(** The compact text of a value determines it, floats by their values. *)
Lemma compact_text_inj a b : compact_text a = compact_text b → reduced a = reduced b.
Proof.
  intros Heq. apply (compact_cuts a b "" ""); [done..|]. by rewrite !string_app_nil_r.
Qed.

Lemma dumps_compact_inj a b : dumps_compact a = dumps_compact b → reduced (sort_keys a) = reduced (sort_keys b).
Proof. apply compact_text_inj. Qed.
End injective.

(** ** Equality up to the order of members and the form of floats *)

Definition canon (v : json) : json := reduced (sort_keys v).

Lemma dict_get_elem_of {A} key (v : A) l : NoDup (map fst l) → dict_get key l = Some v ↔ (key, v) ∈ l.
Proof.
  intros Hnd. induction l as [|[k w] l IH]; [unfold dict_get; simpl; split; [done|set_solver]|].
  apply NoDup_cons in Hnd as [Hk Hnd]. rewrite dict_get_cons. case_bool_decide as E.
  - subst k. split; [intros [= ->]; set_solver|]. rewrite elem_of_cons. intros [[= ->]|Hin]; [done|].
    exfalso. apply Hk. apply list_elem_of_fmap. by exists (key, v).
  - rewrite IH, elem_of_cons by done. naive_solver.
Qed.

Lemma dict_get_perm {A} key (l m : list (string * A)) :
  NoDup (map fst l) → l ≡ₚ m → dict_get key l = dict_get key m.
Proof.
  intros Hl Hlm. assert (NoDup (map fst m)) as Hm by (by rewrite <-Hlm).
  destruct (dict_get key m) as [v|] eqn:E.
  - apply dict_get_elem_of in E; [|done]. apply dict_get_elem_of; [done|]. by rewrite Hlm.
  - destruct (dict_get key l) as [v|] eqn:E'; [|done]. apply dict_get_elem_of in E'; [|done].
    rewrite Hlm in E'. apply (dict_get_elem_of key v) in E'; [|done]. congruence.
Qed.

Lemma dict_get_map {A B} (f : A → B) key l :
  dict_get key (map (λ p : string * A, (p.1, f p.2)) l) = f <$> dict_get key l.
Proof.
  induction l as [|[k v] l IH]; [done|]. cbn [map fst snd]. rewrite !dict_get_cons, IH. by case_bool_decide.
Qed.

Lemma canon_dict_get a b key :
  NoDup (map fst a) → NoDup (map fst b) → canon (JDict a) = canon (JDict b) →
  canon <$> dict_get key a = canon <$> dict_get key b.
Proof.
  assert (∀ l, NoDup (map fst l) → ∃ m, canon (JDict l) = JDict m ∧ dict_get key m = canon <$> dict_get key l) as Hget.
  { intros l Hnd. eexists. split; [done|]. cbn. rewrite dict_get_map.
    rewrite <-(dict_get_perm key (map (λ p, (p.1, sort_keys p.2)) l)); [|by rewrite map_map|by rewrite sort_by_perm].
    rewrite dict_get_map. by destruct (dict_get key l). }
  intros Ha Hb Heq. destruct (Hget a Ha) as (ma & Ea & <-), (Hget b Hb) as (mb & Eb & <-). congruence.
Qed.

Lemma canon_member a b key x y :
  NoDup (map fst a) → NoDup (map fst b) → canon (JDict a) = canon (JDict b) →
  dict_get key a = Some x → dict_get key b = Some y → canon x = canon y.
Proof. intros Ha Hb Heq Hx Hy. pose proof (canon_dict_get a b key Ha Hb Heq) as E. rewrite Hx, Hy in E. by injection E. Qed.

(** The keys of a literal dictionary differ. *)
Ltac literal_keys := apply (bool_decide_unpack _); by vm_compute.

Lemma canon_list l m : canon (JList l) = canon (JList m) → map canon l = map canon m.
Proof. unfold canon. cbn. rewrite !map_map. by intros [= ?]. Qed.

(** A rendering that has the laws: the reduced fraction with a dot. *)
Definition plain_fin : FloatText := λ q, pretty (Qnum (Qred q)) +:+ String "." (pretty (Z.pos (Qden (Qred q)))).

Lemma forallb_str_app p s t : forallb_str p (s +:+ t) = forallb_str p s && forallb_str p t.
Proof.
  induction s as [|c s IH]; [done|]. rewrite string_app_cons, !forallb_str_cons, IH. by rewrite andb_assoc.
Qed.

Lemma plain_fin_laws : @FloatTextLaws plain_fin.
Proof.
  assert (∀ n : Z, forallb_str (λ c, is_digit c || has_char c "+-.e") (pretty n) = true) as Hn.
  { intros n. apply forallb_str_impl with (2 := proj1 (pretty_Z_chars n)). intros c. unfold int_char.
    rewrite !orb_true_iff. intros [Hd| ->%Ascii.eqb_eq]; [by left|by right]. }
  assert (∀ n : Z, has_char "." (pretty n) = false) as Hdot.
  { intros n. apply (forallb_str_existsb int_char); [apply pretty_Z_chars|].
    intros c. unfold int_char. rewrite orb_true_iff. intros [Hd| ->%Ascii.eqb_eq]; [|done].
    apply Ascii.eqb_neq. by intros <-. }
  split; unfold fin_repr, plain_fin.
  - intros q. by rewrite forallb_str_app, Hn, forallb_str_cons, Hn.
  - intros q. rewrite existsb_str_app. apply orb_true_iff. by right.
  - intros p q Heq. apply app_sep_inj in Heq as [E1 E2]; [|apply Hdot..].
    apply (inj (pretty (A := Z))) in E1. apply (inj (pretty (A := Z))) in E2. injection E2 as E2.
    rewrite <-(Qred_correct p), <-(Qred_correct q). unfold Qeq. by rewrite E1, E2.
Qed.
