(* ===== verification/Lease.v ===== *)
(** * Lease: [omniagentos/lease/models.py], [config.py], [issue.py], [validate.py], [rlimits.py]

    An autonomy lease is the signed record of what one launched process may do.  This
    file has its data, the resolution of its settings, issuing, validation and the
    resource limits of the child.  Every read of the clock and of the generation counter
    first lets the other threads run: [lw_schedule] holds what they do.  HMAC-SHA256, the
    file system and the digits of a float are parameters.  A field that validation tests
    for its type is a [json] value. *)

From Stdlib Require Import Ascii QArith.
From stdpp Require Import pretty.
From S2P Require Import Prelude PyString PyPath PyJson JsonText Records.
Open Scope Z_scope.

(** What the package reads of the process and the machine. *)
Class LeaseHost := {
  lh_fin :: FloatText;
  lh_rnd : Q → float;
  lh_float_of_text : string → option float;
  (** [os.path.realpath]; it raises [ValueError] on an embedded null. *)
  lh_realpath : string → result () string;
  (** HMAC-SHA256 in hexadecimal: key, message. *)
  lh_hmac : string → string → string;
  lh_signing_key : string;
  lh_token_hex : nat → string;
  lh_getenv : string → option string;
  (** [configs/lease.yaml] of the checkout, and a file read and parsed as YAML. *)
  lh_repo_config : string;
  lh_load : string → result () json;
  lh_has_cpu : bool;
  lh_has_nproc : bool;
}.

(** ** Data *)

Definition LEASE_VERSION : Z := 1.

Record LeaseSubject := mkSubject { su_run_id : json; su_task_id : json; su_session_id : json }.
Record LeaseCeilings := mkCeilings { ce_cpu_s : json; ce_rss_mb : json; ce_max_procs : json; ce_wall_s : json }.
Record Lease := mkLease {
  l_lease_id : json;
  l_subject : LeaseSubject;
  l_issued_at : json;
  l_expires_at : json;
  l_generation : json;
  l_fs_read_roots : list json;
  l_fs_write_roots : list json;
  l_net_mode : json;
  l_net_allow_domains : list json;
  l_net_allow_ports : list json;
  l_capabilities : list json;
  l_credential_handles : list json;
  l_ceilings : LeaseCeilings;
  l_auto_run_effect_classes : list json;
  l_approval_required_classes : list json;
  l_version : json;
  l_signature : string;
}.
#[export] Instance Lease_rebuild : Rebuild Lease := λ l,
  mkLease l.(l_lease_id) l.(l_subject) l.(l_issued_at) l.(l_expires_at) l.(l_generation) l.(l_fs_read_roots)
    l.(l_fs_write_roots) l.(l_net_mode) l.(l_net_allow_domains) l.(l_net_allow_ports) l.(l_capabilities)
    l.(l_credential_handles) l.(l_ceilings) l.(l_auto_run_effect_classes) l.(l_approval_required_classes)
    l.(l_version) l.(l_signature).

(** The mode of the subsystem. *)
Inductive LeaseMode := LeaseOff | LeaseShadow | LeaseEnforce.
#[export] Instance LeaseMode_eq_dec : EqDecision LeaseMode.
Proof. solve_decision. Defined.

(** Why [validate_lease] refuses: the prefixes of its messages. *)
Inductive invalid_reason :=
  | BadVersion | BadId | BadSubject | BadTimestamps | BadRoots | BadNetPolicy | BadCeiling (name : string)
  | BadNetPorts | BadSignature | BadGeneration | NotYetValid | Expired.
Inductive lease_exn := LeaseInvalid (r : invalid_reason) | Raised (e : cast_error).

(** ** Effects *)

(** The clock, the generation counter of the process, what the other threads do before
    each of the next reads (the clock they leave and how often they bump), and the number
    of random tokens drawn. *)
Record LeaseWorld := mkLeaseWorld {
  lw_now : float;
  lw_generation : Z;
  lw_schedule : list (float * nat);
  lw_tokens : nat;
}.

Definition lease_m (A : Type) : Type := op LeaseWorld lease_exn A.
Definition lret {A} (a : A) : lease_m A := λ w, (Ok a, w).
Definition lraise {A} (e : lease_exn) : lease_m A := λ w, (Err e, w).
Definition llift {A} (m : result cast_error A) : lease_m A := λ w, (map_err Raised m, w).
Definition lbind {A B} (m : lease_m A) (f : A → lease_m B) : lease_m B := λ w,
  match m w with (Ok a, w') => f a w' | (Err e, w') => (Err e, w') end.
Declare Scope lease_scope.
Notation "'let>' x ':=' m 'in' k" := (lbind m (λ x, k))
  (at level 10, x binder, m at level 100, k at level 200) : lease_scope.
Open Scope lease_scope.

Definition elapse (w : LeaseWorld) : LeaseWorld :=
  match w.(lw_schedule) with
  | [] => w
  | (now, bumps) :: rest => mkLeaseWorld now (w.(lw_generation) + Z.of_nat bumps) rest w.(lw_tokens)
  end.
Definition time_time : lease_m float := λ w, let w := elapse w in (Ok w.(lw_now), w).
Definition current_generation : lease_m Z := λ w, let w := elapse w in (Ok w.(lw_generation), w).
Definition bump_generation : lease_m Z := λ w,
  let w := elapse w in
  let w := mkLeaseWorld w.(lw_now) (w.(lw_generation) + 1) w.(lw_schedule) w.(lw_tokens) in
  (Ok w.(lw_generation), w).

Section lease.
Context `{LeaseHost}.

Definition new_lease_id : lease_m string := λ w,
  (Ok ("lse_" +:+ lh_token_hex w.(lw_tokens)), mkLeaseWorld w.(lw_now) w.(lw_generation) w.(lw_schedule) (S w.(lw_tokens))).

(** ** The signed payload *)

Definition net_policy (l : Lease) : result cast_error json :=
  if json_eq l.(l_net_mode) (JStr "proxy") then
    ports ← traverse py_int l.(l_net_allow_ports);
    Ok (JDict [("proxy", JList l.(l_net_allow_domains)); ("ports", JList (map JInt ports))])
  else Ok l.(l_net_mode).

Definition lease_payload (l : Lease) : result cast_error dict :=
  policy ← net_policy l;
  Ok [("version", l.(l_version));
      ("lease_id", l.(l_lease_id));
      ("subject", JDict [("run_id", l.(l_subject).(su_run_id)); ("task_id", l.(l_subject).(su_task_id));
                         ("session_id", l.(l_subject).(su_session_id))]);
      ("issued_at", l.(l_issued_at));
      ("expires_at", l.(l_expires_at));
      ("generation", l.(l_generation));
      ("fs_read_roots", JList l.(l_fs_read_roots));
      ("fs_write_roots", JList l.(l_fs_write_roots));
      ("net_policy", policy);
      ("capabilities", JList l.(l_capabilities));
      ("credential_handles", JList l.(l_credential_handles));
      ("ceilings", JDict [("cpu_s", l.(l_ceilings).(ce_cpu_s)); ("rss_mb", l.(l_ceilings).(ce_rss_mb));
                          ("max_procs", l.(l_ceilings).(ce_max_procs)); ("wall_s", l.(l_ceilings).(ce_wall_s))]);
      ("auto_run_effect_classes", JList l.(l_auto_run_effect_classes));
      ("approval_required_classes", JList l.(l_approval_required_classes))].

Definition canonical_payload (l : Lease) : result cast_error string :=
  payload ← lease_payload l; Ok (dumps_compact (JDict payload)).
Definition lease_signature (l : Lease) : result cast_error string :=
  lh_hmac lh_signing_key <$> canonical_payload l.
Definition sign_lease (l : Lease) : result cast_error Lease :=
  signature ← lease_signature l; Ok (l <| l_signature := signature |>).

(** [hmac.compare_digest] on texts: [TypeError] unless both are ASCII. *)
Definition is_ascii (s : string) : bool := forallb_str (λ c, (code c <? 128)%nat) s.
Definition compare_digest (a b : string) : result cast_error bool :=
  if is_ascii a && is_ascii b then Ok (bool_decide (a = b)) else Err TypeError.
Definition signature_matches (l : Lease) : result cast_error bool :=
  if bool_decide (l.(l_signature) = "") then Ok false
  else signature ← lease_signature l; compare_digest l.(l_signature) signature.

Definition lease_record (l : Lease) : result cast_error dict :=
  payload ← lease_payload l; signed ← signature_matches l; Ok (dict_set "signed" (JBool signed) payload).

(** ** Settings *)

Definition lease_mode_value (m : LeaseMode) : string :=
  match m with LeaseOff => "off" | LeaseShadow => "shadow" | LeaseEnforce => "enforce" end.
Definition LEASE_MODES : list LeaseMode := [LeaseOff; LeaseShadow; LeaseEnforce].

Definition LEASE_ENV : string := "OMNIAGENTOS_AUTONOMY_LEASE".
Definition LEASE_TTL_ENV : string := "OMNIAGENTOS_LEASE_TTL_S".
Definition CONFIG_ENV : string := "OMNIAGENTOS_LEASE_CONFIG".
Definition DEFAULT_TTL_S : float := fl_int 3600.
Definition NET_POLICIES : list string := ["open"; "deny"; "proxy"].
Definition DEFAULT_NET_POLICY : string := "open".
Definition TRUTHY : list string := ["1"; "true"; "yes"; "on"].
Definition FALSY : list string := ["0"; "false"; "no"; "off"].

(** [str(Path(text))] for an override, the checkout's own path otherwise. *)
Definition pure_path (text : string) : string :=
  let parts := List.filter (λ p, negb (bool_decide (p = "" ∨ p = "."))) (split "/" text) in
  let root := if startswith "//" text && negb (startswith "///" text) then "//"
              else if startswith "/" text then "/" else "" in
  let path := root +:+ join "/" parts in
  if bool_decide (path = "") then "." else path.
Definition lease_config_path : string :=
  match lh_getenv CONFIG_ENV with
  | Some (String _ _ as override) => pure_path override
  | _ => lh_repo_config
  end.
Definition lease_config : dict :=
  match lh_load lease_config_path with Ok (JDict d) => d | _ => [] end.
Definition lease_section : dict :=
  match dict_get "autonomy_lease" lease_config with Some (JDict d) => d | _ => [] end.
Definition section_value (key : string) : json := default JNull (dict_get key lease_section).

Definition coerce_mode (value : json) : option LeaseMode :=
  match value with
  | JNull => None
  | JBool b => Some (if b then LeaseEnforce else LeaseOff)
  | _ =>
      let text := lower (strip (text_of value)) in
      if bool_decide (text = "") then None
      else match List.find (λ m, bool_decide (lease_mode_value m = text)) LEASE_MODES with
           | Some m => Some m
           | None => if bool_decide (text ∈ TRUTHY) then Some LeaseEnforce
                     else if bool_decide (text ∈ FALSY) then Some LeaseOff else None
           end
  end.
Definition env_value (name : string) : json := match lh_getenv name with Some s => JStr s | None => JNull end.
Definition lease_mode : LeaseMode :=
  match coerce_mode (env_value LEASE_ENV) with
  | Some m => m
  | None => default LeaseOff (coerce_mode (section_value "mode"))
  end.
Definition lease_enabled : bool := negb (bool_decide (lease_mode = LeaseOff)).

(** [float(value)] catches [TypeError] and [ValueError] only. *)
Definition positive_float (value : json) : result cast_error (option float) :=
  match value with
  | JNull | JBool _ => Ok None
  | _ =>
      match py_float lh_rnd lh_float_of_text value with
      | Ok x => Ok (if fl_le x fl_zero || is_nan x then None else Some x)
      | Err OverflowError => Err OverflowError
      | Err _ => Ok None
      end
  end.
Definition lease_ttl_s : result cast_error float :=
  from_env ← positive_float (env_value LEASE_TTL_ENV);
  match from_env with
  | Some x => Ok x
  | None => from_config ← positive_float (section_value "ttl_seconds"); Ok (default DEFAULT_TTL_S from_config)
  end.
Definition CEILING_KEYS : list string := ["cpu_s"; "rss_mb"; "max_procs"; "wall_s"].
Definition lease_ceilings : result cast_error (list (string * float)) :=
  let ceilings := match section_value "ceilings" with JDict d => d | _ => [] end in
  traverse (λ key, parsed ← positive_float (default JNull (dict_get key ceilings));
                   Ok (key, default fl_zero parsed)) CEILING_KEYS.

Definition net_section : option dict := match section_value "net" with JDict d => Some d | _ => None end.
Definition lease_net_policy : string :=
  match net_section ≫= dict_get "default_policy" with
  | Some (JStr s) => let policy := lower (strip s) in
                     if bool_decide (policy ∈ NET_POLICIES) then policy else DEFAULT_NET_POLICY
  | _ => DEFAULT_NET_POLICY
  end.

(** The loops that keep the first of equal entries. *)
Definition keep_new {A} `{EqDecision A} (kept : list A) (x : A) : list A :=
  if bool_decide (x ∈ kept) then kept else kept ++ [x].
Definition unique {A} `{EqDecision A} (l : list A) : list A := foldl keep_new [] l.
Definition nonempty (s : string) : bool := negb (bool_decide (s = "")).
Definition clean_domains (l : list string) : list string :=
  unique (List.filter nonempty (map (λ d, lower (strip d)) l)).
Definition clean_ports (l : list json) : result cast_error (list Z) :=
  ports ← traverse (λ item, match py_int item with
                            | Ok v => Ok (if (1 <=? v) && (v <=? 65535) then Some v else None)
                            | Err OverflowError => Err OverflowError
                            | Err _ => Ok None
                            end) l;
  Ok (unique (omap id ports)).

Definition lease_allowed_domains : list string :=
  match net_section ≫= dict_get "allow_domains" with
  | Some (JList l) => clean_domains (omap (λ v, match v with JStr s => Some s | _ => None end) l)
  | _ => []
  end.
Definition lease_proxy_ports : result cast_error (list Z) :=
  match net_section ≫= dict_get "allow_ports" with
  | Some (JList l) => ports ← clean_ports l; Ok (if bool_decide (ports = []) then [443] else ports)
  | _ => Ok [443]
  end.

(** ** Issuing *)

Record IssueArgs := mkIssueArgs {
  ia_run_id : string;
  ia_task_id : string;
  ia_session_id : string;
  ia_workspace_dir : string;
  ia_fs_write_roots : list string;
  ia_fs_read_roots : list string;
  ia_provider : option string;
  ia_timeout_ms : option Z;
  ia_env_groups : list string;
  ia_capabilities : list string;
  ia_credential_handles : list string;
  ia_net_mode : option string;
  ia_net_allow_domains : option (list string);
  ia_net_allow_ports : option (list json);
  ia_ttl_s : option float;
  ia_now : option float;
  ia_generation : option Z;
}.

(** [timeout_ms / 1000.0] when the timeout is given and positive. *)
Definition timeout_seconds (a : IssueArgs) : result cast_error (option float) :=
  match a.(ia_timeout_ms) with
  | Some t => if 0 <? t then x ← py_float lh_rnd lh_float_of_text (JInt t); Ok (Some (fl_div lh_rnd x 1000)) else Ok None
  | None => Ok None
  end.
Definition py_max2 (a b : float) : float := if fl_lt a b then b else a.

Definition issued_ceilings (timeout : option float) : result cast_error LeaseCeilings :=
  configured ← lease_ceilings;
  let ceiling key := default fl_zero (dict_get key configured) in
  let wall_s := match timeout with
                | Some t => py_min (if fl_lt fl_zero (ceiling "wall_s") then ceiling "wall_s" else Inf false) [t]
                | None => ceiling "wall_s"
                end in
  max_procs ← py_int (JFloat (ceiling "max_procs"));
  Ok (mkCeilings (JFloat (ceiling "cpu_s")) (JFloat (ceiling "rss_mb")) (JInt max_procs) (JFloat wall_s)).

Definition effective_ttl (base_ttl : float) (wall_s : json) (timeout : option float) : float :=
  let wall := match wall_s with JFloat x => x | _ => fl_zero end in
  let ttl := if fl_lt fl_zero wall then py_min base_ttl [wall] else base_ttl in
  let ttl := match timeout with Some t => py_min ttl [t] | None => ttl end in
  py_max2 ttl (fl_int 1).

Definition clean_roots (roots : list string) : result cast_error (list string) :=
  resolved ← traverse (λ r, map_err (λ _, ValueError) (lh_realpath r)) (List.filter nonempty roots);
  Ok (unique (List.filter nonempty resolved)).

Definition issued_net_mode (a : IssueArgs) : string :=
  let mode := default lease_net_policy a.(ia_net_mode) in
  if bool_decide (mode ∈ NET_POLICIES) then mode else "open".
Definition issued_domains (a : IssueArgs) : list string :=
  if bool_decide (issued_net_mode a = "proxy")
  then clean_domains (default lease_allowed_domains a.(ia_net_allow_domains)) else [].
Definition issued_ports (a : IssueArgs) : result cast_error (list Z) :=
  if bool_decide (issued_net_mode a = "proxy")
  then match a.(ia_net_allow_ports) with
       | Some l => clean_ports l
       | None => ports ← lease_proxy_ports; clean_ports (map JInt ports)
       end
  else Ok [].
Definition issued_capabilities (a : IssueArgs) : list string :=
  let provider := match a.(ia_provider) with
                  | Some p => if nonempty (strip p) then ["provider:" +:+ strip p] else []
                  | None => []
                  end in
  unique (List.filter nonempty (a.(ia_capabilities) ++ provider)).
Definition issued_handles (a : IssueArgs) : list string :=
  unique (List.filter nonempty
    (a.(ia_credential_handles) ++ map (λ g, "env-group:" +:+ g) (List.filter nonempty a.(ia_env_groups)))).

Definition strs (l : list string) : list json := map JStr l.

Definition issue_lease (a : IssueArgs) : lease_m Lease :=
  let> issued_at := match a.(ia_now) with Some t => lret t | None => time_time end in
  let> base_ttl := match a.(ia_ttl_s) with Some t => lret t | None => llift lease_ttl_s end in
  let> timeout := llift (timeout_seconds a) in
  let> ceilings := llift (issued_ceilings timeout) in
  let expires_at := fl_add lh_rnd issued_at (effective_ttl base_ttl ceilings.(ce_wall_s) timeout) in
  let> write_roots := llift (clean_roots ((if nonempty a.(ia_workspace_dir) then [a.(ia_workspace_dir)] else [])
                                          ++ a.(ia_fs_write_roots))) in
  let> read_roots := llift (clean_roots a.(ia_fs_read_roots)) in
  let> ports := llift (issued_ports a) in
  let> generation := match a.(ia_generation) with Some g => lret g | None => current_generation end in
  let> lease_id := new_lease_id in
  llift (sign_lease (mkLease (JStr lease_id)
    (mkSubject (JStr a.(ia_run_id)) (JStr a.(ia_task_id)) (JStr a.(ia_session_id)))
    (JFloat issued_at) (JFloat expires_at) (JInt generation) (strs read_roots) (strs write_roots)
    (JStr (issued_net_mode a)) (strs (issued_domains a)) (map JInt ports)
    (strs (issued_capabilities a)) (strs (issued_handles a)) ceilings [] [] (JInt LEASE_VERSION) "")).

(** ** Validation *)

Definition CLOCK_SKEW_S : float := fl_int 60.
Definition NET_MODES : list string := NET_POLICIES.

(** A number that is no [bool], and [math.isfinite] of it. *)
Definition strict_number (v : json) : option float :=
  match v with JInt n => Some (fl_int n) | JFloat x => Some x | _ => None end.
Definition py_isfinite (v : json) : result cast_error bool :=
  x ← py_float lh_rnd lh_float_of_text v;
  Ok match x with Fin _ => true | _ => false end.

Definition usable_time (v : json) : result cast_error bool :=
  match strict_number v with
  | Some x => if fl_le x fl_zero then Ok false else py_isfinite v
  | None => Ok false
  end.
Definition usable_root (v : json) : bool := match v with JStr s => nonempty s && isabs s | _ => false end.
Definition usable_ceiling (v : json) : result cast_error bool :=
  match strict_number v with
  | Some x => finite ← py_isfinite v; Ok (finite && negb (fl_lt x fl_zero))
  | None => Ok false
  end.
Definition usable_port (v : json) : bool := match v with JInt n => (1 <=? n) && (n <=? 65535) | _ => false end.
Definition is_nonempty_str (v : json) : bool := match v with JStr s => nonempty s | _ => false end.
Definition names_domain (v : json) : bool := match v with JStr s => nonempty (strip s) | _ => false end.

Definition require (r : invalid_reason) (ok : result cast_error bool) : result lease_exn () :=
  match ok with
  | Ok true => Ok ()
  | Ok false => Err (LeaseInvalid r)
  | Err e => Err (Raised e)
  end.

(** The checks 1 to 6c: what the lease says, whoever signed it. *)
Definition later_than (a b : json) : bool :=
  match strict_number a, strict_number b with Some x, Some y => fl_lt y x | _, _ => false end.
Definition is_empty {A} (l : list A) : bool := match l with [] => true | _ => false end.
Definition validate_form (l : Lease) : result lease_exn () :=
  let proxied := json_eq l.(l_net_mode) (JStr "proxy") in
  let ceiling name get := require (BadCeiling name) (usable_ceiling (get l.(l_ceilings))) in
  _ ← require BadVersion (Ok (json_eq l.(l_version) (JInt LEASE_VERSION)));
  _ ← require BadId (Ok (is_nonempty_str l.(l_lease_id)));
  _ ← require BadSubject (Ok (is_nonempty_str l.(l_subject).(su_run_id)));
  _ ← require BadTimestamps (usable_time l.(l_issued_at));
  _ ← require BadTimestamps (usable_time l.(l_expires_at));
  _ ← require BadTimestamps (Ok (later_than l.(l_expires_at) l.(l_issued_at)));
  _ ← require BadRoots (Ok (forallb usable_root l.(l_fs_read_roots)));
  _ ← require BadRoots (Ok (forallb usable_root l.(l_fs_write_roots)));
  _ ← require BadNetPolicy (Ok (existsb (λ m, json_eq l.(l_net_mode) (JStr m)) NET_MODES));
  _ ← require BadNetPolicy (Ok (if proxied then existsb names_domain l.(l_net_allow_domains)
                                else is_empty l.(l_net_allow_domains)));
  _ ← ceiling "cpu_s" ce_cpu_s;
  _ ← ceiling "rss_mb" ce_rss_mb;
  _ ← ceiling "max_procs" ce_max_procs;
  _ ← ceiling "wall_s" ce_wall_s;
  require BadNetPorts (Ok (if proxied then negb (is_empty l.(l_net_allow_ports)) && forallb usable_port l.(l_net_allow_ports)
                           else is_empty l.(l_net_allow_ports))).

Definition time_of (v : json) : float := default NaN (strict_number v).
Definition lcheck (m : result lease_exn ()) : lease_m () := λ w, (m, w).
Definition validate_lease (l : Lease) (now : option float) : lease_m () :=
  let> now := match now with Some t => lret t | None => time_time end in
  let> _ := lcheck (validate_form l) in
  let> _ := lcheck (require BadSignature (signature_matches l)) in
  let> active := current_generation in
  let> _ := lcheck (require BadGeneration (Ok (json_eq l.(l_generation) (JInt active)))) in
  let> _ := lcheck (require NotYetValid
              (Ok (negb (fl_lt (fl_add lh_rnd now CLOCK_SKEW_S) (time_of l.(l_issued_at)))))) in
  lcheck (require Expired (Ok (negb (fl_le (time_of l.(l_expires_at)) now)))).

Definition lease_is_valid (l : Lease) (now : option float) : lease_m bool := λ w,
  match validate_lease l now w with
  | (Ok _, w') => (Ok true, w')
  | (Err (LeaseInvalid _), w') => (Ok false, w')
  | (Err e, w') => (Err e, w')
  end.

Definition fl_neg (x : float) : float := match x with Fin q => Fin (- q) | Inf n => Inf (negb n) | NaN => NaN end.
Definition remaining_seconds (l : Lease) (now : option float) : lease_m float :=
  let> now := match now with Some t => lret t | None => time_time end in
  lret (py_max2 fl_zero (fl_add lh_rnd (time_of l.(l_expires_at)) (fl_neg now))).

(** ** Resource limits of the child *)

Inductive rlimit := RLIMIT_CPU | RLIMIT_NPROC.
#[local] Instance rlimit_eq_dec : EqDecision rlimit.
Proof. solve_decision. Defined.
Definition rlimit_name (r : rlimit) : string := match r with RLIMIT_CPU => "RLIMIT_CPU" | RLIMIT_NPROC => "RLIMIT_NPROC" end.

(** [value > 0] *)
Definition is_positive (v : json) : result cast_error bool :=
  match number_of v with Some x => Ok (fl_lt fl_zero x) | None => Err TypeError end.

Definition rlimit_plan (c : LeaseCeilings) : result cast_error (list (rlimit * Z * Z)) :=
  cpu ← is_positive c.(ce_cpu_s);
  cpu_rows ← (if cpu && lh_has_cpu then soft ← py_int c.(ce_cpu_s); Ok [(RLIMIT_CPU, soft, soft + 5)] else Ok []);
  procs ← is_positive c.(ce_max_procs);
  proc_rows ← (if procs && lh_has_nproc then limit ← py_int c.(ce_max_procs); Ok [(RLIMIT_NPROC, limit, limit)] else Ok []);
  Ok (cpu_rows ++ proc_rows).

Definition report_limit (v : json) (has : bool) (requested unsupported : json → result cast_error string) : result cast_error string :=
  asked ← is_positive v;
  if (asked : bool) then (if has then requested v else unsupported v) else Ok "unset".
Definition not_enforced (v why : string) : string := "declared " +:+ v +:+ ", NOT enforced (" +:+ why +:+ ")".
Definition limit_report (c : LeaseCeilings) : result cast_error (list (string * string)) :=
  cpu ← report_limit c.(ce_cpu_s) lh_has_cpu
    (λ v, soft ← py_int v; Ok ("RLIMIT_CPU requested soft=" +:+ pretty soft +:+ " hard=" +:+ pretty (soft + 5)))
    (λ v, Ok (not_enforced (text_of v) "RLIMIT_CPU unsupported on this platform"));
  rss ← report_limit c.(ce_rss_mb) true
    (λ v, mb ← py_int v; Ok (not_enforced (pretty mb) "macOS RLIMIT_RSS aliases RLIMIT_AS")) (λ _, Ok "");
  procs ← report_limit c.(ce_max_procs) lh_has_nproc
    (λ v, n ← py_int v; Ok ("RLIMIT_NPROC requested soft=" +:+ pretty n +:+ " hard=" +:+ pretty n))
    (λ v, Ok (not_enforced (text_of v) "RLIMIT_NPROC unsupported on this platform"));
  wall ← report_limit c.(ce_wall_s) true (λ _, Ok "enforced by the caller's timeout path") (λ _, Ok "");
  Ok [("cpu_s", cpu); ("rss_mb", rss); ("max_procs", procs); ("wall_s", wall)].

(** [make_preexec]: [None] when nothing is planned. *)
Definition make_preexec (c : LeaseCeilings) : result cast_error (option (list (rlimit * Z * Z))) :=
  plan ← rlimit_plan c;
  Ok match plan with [] => None | _ => Some plan end.
End lease.

(** The soft and hard limits of a process; [None] is [RLIM_INFINITY]. *)
Abbreviation limits := (rlimit → option Z * option Z)%type.
Definition at_most (n : Z) (bound : option Z) : Z := match bound with Some b => Z.min n b | None => n end.

(** One step of the closure: [readable] and [accepted] say whether [getrlimit] and
    [setrlimit] succeed; a failure is swallowed. *)
Definition apply_limit (readable : rlimit → bool) (accepted : rlimit → Z → Z → bool) (lim : limits)
    (row : rlimit * Z * Z) : limits :=
  let '(r, soft, hard) := row in
  if negb (readable r) then lim
  else
    let '(cur_soft, cur_hard) := lim r in
    let effective_hard := at_most hard cur_hard in
    let effective_soft := Z.min (at_most soft cur_soft) effective_hard in
    if accepted r effective_soft effective_hard
    then λ r', match r, r' with
               | RLIMIT_CPU, RLIMIT_CPU | RLIMIT_NPROC, RLIMIT_NPROC => (Some effective_soft, Some effective_hard)
               | _, _ => lim r'
               end
    else lim.
Definition preexec (readable : rlimit → bool) (accepted : rlimit → Z → Z → bool) (plan : list (rlimit * Z * Z))
    (lim : limits) : limits := foldl (apply_limit readable accepted) lim plan.
