(* ===== verification/LeaseProxy.v ===== *)
(** * LeaseProxy: [omniagentos/lease/proxy.py]

    The allowlisting CONNECT proxy a leased process reaches the network through: the
    reading of domains, the decision on one request, the slots and counters, and the
    start and stop of the listener.  A client is the bytes it sends (code points up to
    255) and whether it then closes or stalls; the relay of an accepted tunnel, which
    copies bytes, is not modelled.  Two code points leave the range of one character
    under [casefold]: 223, which becomes two letters here too, and 181, which no domain
    may hold before or after. *)

From Stdlib Require Import Ascii.
From stdpp Require Import pretty.
From S2P Require Import Prelude PyString PyJson JsonText Records.
Open Scope Z_scope.

Definition DEFAULT_ALLOWED_PORTS : list Z := [443].

(** ** Domains *)

Definition full_casefold : string → string :=
  concat_map_str (λ c, if (code c =? 223)%nat then "ss" else String (lower_char c) "").
Definition is_domain_char (c : ascii) : bool := is_lower c || is_digit c || has_char c "-._*".
Fixpoint drop_last (s : string) : string :=
  match s with "" => "" | String _ "" => "" | String c s => String c (drop_last s) end.

Definition normalize_domain (value : string) : string :=
  let val := full_casefold (strip value) in
  let val := if endswith "." val then drop_last val else val in
  if bool_decide (val = "") || negb (forallb_str is_domain_char val) then "" else val.

Definition pattern_covers (norm_host norm_pat : string) : bool :=
  bool_decide (norm_host = norm_pat)
  || (startswith "*." norm_pat
      && (let remainder := drop_str 2 norm_pat in
          bool_decide (norm_host = remainder) || endswith ("." +:+ remainder) norm_host)).
Definition domain_allowed (host : string) (patterns : list string) : bool :=
  let norm_host := normalize_domain host in
  if bool_decide (norm_host = "") || has_char "*" norm_host then false
  else existsb (λ pat, let norm_pat := normalize_domain pat in
                       negb (bool_decide (norm_pat = "")) && pattern_covers norm_host norm_pat) patterns.

Definition proxy_env (url : string) : list (string * string) :=
  [("HTTP_PROXY", url); ("HTTPS_PROXY", url); ("http_proxy", url); ("https_proxy", url);
   ("ALL_PROXY", url); ("all_proxy", url); ("NO_PROXY", ""); ("no_proxy", "")].

(** ** Reading a request *)

Record ProxyClient := mkProxyClient { cl_bytes : string; cl_closes : bool }.

(** [rfile.readline(limit)]: up to the limit or past a newline; [None] is the timeout of
    a client that stalls.  The rest of the bytes is returned. *)
Fixpoint readline (limit : nat) (closes : bool) (s : string) : option (string * string) :=
  match limit with
  | O => Some ("", s)
  | S limit =>
      match s with
      | "" => if closes then Some ("", "") else None
      | String c s' =>
          if (code c =? 10)%nat then Some (String c "", s')
          else '(line, rest) ← readline limit closes s'; Some (String c line, rest)
      end
  end.
Definition MAX_LINE : Z := 8192.
Definition MAX_HEADERS : Z := 32768.
Definition CRLF : string := String (ascii_of_nat 13) (String (ascii_of_nat 10) "").
Definition LF : string := String (ascii_of_nat 10) "".
Definition len (s : string) : Z := Z.of_nat (String.length s).

Inductive headers := HeadersEnd | HeadersTooLong | HeadersStall.
(** The loop over the header lines; a line takes at least one byte, so a budget of one
    more than the bytes left never runs out. *)
Fixpoint drain (fuel : nat) (closes : bool) (total : Z) (s : string) : headers :=
  match fuel with
  | O => HeadersStall
  | S fuel =>
      match readline (Z.to_nat 8193) closes s with
      | None => HeadersStall
      | Some (line, rest) =>
          if MAX_LINE <? len line then HeadersTooLong
          else if MAX_HEADERS <? total + len line then HeadersTooLong
          else if bool_decide (line = CRLF ∨ line = LF ∨ line = "") then HeadersEnd
          else drain fuel closes (total + len line) rest
      end
  end.

(** [target.rpartition(":")] and the cut at the first closing bracket. *)
Fixpoint rpartition_colon (s : string) : option (string * string) :=
  match s with
  | "" => None
  | String c s' =>
      match rpartition_colon s' with
      | Some (before, after) => Some (String c before, after)
      | None => if Ascii.eqb c ":" then Some ("", s') else None
      end
  end.
Fixpoint cut_bracket (s : string) : option (string * string) :=
  match s with
  | "" => None
  | String c s' => if Ascii.eqb c "]" then Some ("", s')
                   else '(before, after) ← cut_bracket s'; Some (String c before, after)
  end.

(** The host to connect to, the host to check and the text of the port. *)
Definition parse_target (target : string) : option (string * string * string) :=
  if startswith "[" target then
    '(conn_host, remainder) ← cut_bracket (drop_str 1 target);
    if startswith ":" remainder then Some (conn_host, "[" +:+ conn_host +:+ "]", drop_str 1 remainder) else None
  else '(host, port_str) ← rpartition_colon target; Some (host, host, port_str).
Definition parse_port (port_str : string) : option Z :=
  match int_of_text port_str with
  | Some port => if (1 <=? port) && (port <=? 65535) then Some port else None
  | None => None
  end.

(** ** The proxy *)

Record ProxyStats := mkStats { st_allowed : Z; st_denied : Z; st_failed : Z; st_rejected : Z }.
#[export] Instance ProxyStats_rebuild : Rebuild ProxyStats := λ s,
  mkStats s.(st_allowed) s.(st_denied) s.(st_failed) s.(st_rejected).
Record AllowlistProxy := mkProxy {
  px_allowed_domains : list string;
  px_allowed_ports : list Z;
  px_slots : nat;
  px_stats : ProxyStats;
  px_server : option Z;
}.
#[export] Instance AllowlistProxy_rebuild : Rebuild AllowlistProxy := λ p,
  mkProxy p.(px_allowed_domains) p.(px_allowed_ports) p.(px_slots) p.(px_stats) p.(px_server).
Definition MAX_CONNECTIONS : nat := 64.
Definition new_proxy (domains : list string) (ports : list Z) (max_connections : nat) : AllowlistProxy :=
  mkProxy domains ports max_connections (mkStats 0 0 0 0) None.

Definition proxy_port (p : AllowlistProxy) : Z := default 0 p.(px_server).
Definition proxy_url (p : AllowlistProxy) : string := "http://127.0.0.1:" +:+ pretty (proxy_port p).
(** [start]: the kernel gives a port, or [OSError]. *)
Definition start (bound : option Z) (p : AllowlistProxy) : option Z * AllowlistProxy :=
  match p.(px_server) with
  | Some port => (Some port, p)
  | None => match bound with Some port => (Some port, p <| px_server := Some port |>) | None => (None, p) end
  end.
Definition stop (p : AllowlistProxy) : AllowlistProxy := p <| px_server := None |>.

(** What the client gets: nothing, a short response, or a tunnel to a host and port. *)
Inductive reply :=
  | Silent
  | Respond (code_ : Z) (text : string)
  | Tunnel (host : string) (port : Z).

Definition respond (code_ : Z) (reason body : string) : reply :=
  Respond code_ ("HTTP/1.1 " +:+ pretty code_ +:+ " " +:+ reason +:+ CRLF +:+ "Connection: close" +:+ CRLF
    +:+ "Content-Type: text/plain; charset=utf-8" +:+ CRLF
    +:+ "Content-Length: " +:+ pretty (utf8_len body) +:+ CRLF +:+ CRLF +:+ body).
Definition send_error (code_ : Z) (message : string) : reply :=
  respond code_ message (pretty code_ +:+ " " +:+ message).
Definition bad_request : reply := send_error 400 "Bad Request".

Definition count_denied (p : AllowlistProxy) : AllowlistProxy :=
  p <| px_stats := p.(px_stats) <| st_denied := p.(px_stats).(st_denied) + 1 |> |>.
Definition count_failed (p : AllowlistProxy) : AllowlistProxy :=
  p <| px_stats := p.(px_stats) <| st_failed := p.(px_stats).(st_failed) + 1 |> |>.
Definition count_allowed (p : AllowlistProxy) : AllowlistProxy :=
  p <| px_stats := p.(px_stats) <| st_allowed := p.(px_stats).(st_allowed) + 1 |> |>.
Definition count_rejected (p : AllowlistProxy) : AllowlistProxy :=
  p <| px_stats := p.(px_stats) <| st_rejected := p.(px_stats).(st_rejected) + 1 |> |>.

(** [socket.create_connection]: a name that cannot be encoded raises [ValueError], which
    the handler swallows without an answer. *)
Inductive connection := Connected | ConnectFails | NameInvalid.

(** Steps 5 to 9: the target, the policy and the connection. *)
Definition decide_target (connects : string → Z → connection) (target : string) (p : AllowlistProxy) : reply * AllowlistProxy :=
  match parse_target target with
  | None => (bad_request, p)
  | Some (conn_host, check_host, port_str) =>
      match parse_port port_str with
      | Some port =>
          if negb (bool_decide (port ∈ p.(px_allowed_ports))) || negb (domain_allowed check_host p.(px_allowed_domains))
          then (respond 403 "Forbidden" ("Forbidden: " +:+ target +:+ LF), count_denied p)
          else match connects conn_host port with
               | Connected => (Tunnel conn_host port, count_allowed p)
               | ConnectFails => (respond 502 "Bad Gateway" "502 Bad Gateway", count_failed p)
               | NameInvalid => (Silent, p)
               end
      | None => (respond 403 "Forbidden" ("Forbidden: " +:+ target +:+ LF), count_denied p)
      end
  end.

(** Steps 1 to 4. *)
Definition serve (connects : string → Z → connection) (cl : ProxyClient) (p : AllowlistProxy) : reply * AllowlistProxy :=
  match readline (Z.to_nat 8193) cl.(cl_closes) cl.(cl_bytes) with
  | None => (Silent, p)
  | Some (request_line, rest) =>
      if MAX_LINE <? len request_line then (bad_request, p)
      else if bool_decide (request_line = "") then (Silent, p)
      else match drain (S (String.length rest)) cl.(cl_closes) (len request_line) rest with
      | HeadersStall => (Silent, p)
      | HeadersTooLong => (bad_request, p)
      | HeadersEnd =>
          match split_space (strip request_line) with
          | [method; target; _] =>
              if bool_decide (method = "CONNECT") then decide_target connects target p
              else (send_error 405 "Method Not Allowed", p)
          | _ => (bad_request, p)
          end
      end
  end.

(** [handle] takes a slot before it reads; [finish] gives it back when the connection ends. *)
Definition handle (connects : string → Z → connection) (cl : ProxyClient) (p : AllowlistProxy) : reply * bool * AllowlistProxy :=
  match p.(px_slots) with
  | O => (respond 503 "Service Unavailable" "503 Service Unavailable", false, count_rejected p)
  | S free => let '(r, p) := serve connects cl (p <| px_slots := free |>) in (r, true, p)
  end.
Definition finish (p : AllowlistProxy) : AllowlistProxy := p <| px_slots := S p.(px_slots) |>.

(** The traffic a running proxy sees: connections that arrive, and held ones that end.
    The number of held connections goes along. *)
Inductive traffic := Arrives (cl : ProxyClient) (connects : string → Z → connection) | Ends.
Definition traffic_step (st : AllowlistProxy * nat * list reply) (t : traffic) : AllowlistProxy * nat * list reply :=
  let '(p, held, replies) := st in
  match t with
  | Arrives cl connects =>
      let '(r, took, p) := handle connects cl p in (p, if took then S held else held, replies ++ [r])
  | Ends => match held with S n => (finish p, n, replies) | O => st end
  end.
Definition run_traffic (p : AllowlistProxy) (l : list traffic) : AllowlistProxy * nat * list reply :=
  foldl traffic_step (p, O, []) l.
