(* ===== verification/LeaseLaunch.v ===== *)
(** * LeaseLaunch: [omniagentos/lease/record.py], [seam.py] and their caller in [adapters/common.py]

    The audit trail of leases, the plan of a leased launch, its confirmation at the spawn
    and the part of [CliAdapter._invoke] that uses them.  Of a refusal the reason is kept,
    not its text; the row of the trail has the reason's prefix.  The sandbox, the files,
    the listener and the process are parameters. *)

From Stdlib Require Import Ascii QArith.
From stdpp Require Import pretty.
From S2P Require Import Prelude PyString PyPath PyJson JsonText Records Lease LeaseProxy.
Open Scope Z_scope.

(** What one append meets: [mkdir], [lstat] of the parent, [open], [fstat], the attempts at
    the lock, the writes (the bytes taken, or [OSError]), [fsync], and the wall clock's text. *)
Record Disk := mkDisk {
  dk_mkdir : bool;
  dk_parent_is_dir : bool;
  dk_open : bool;
  dk_regular : bool;
  dk_has_fcntl : bool;
  dk_flock : nat → bool;
  dk_write : nat → option Z;
  dk_fsync : bool;
  dk_recorded_at : string;
}.

(** Starting the listener: bound and serving, [OSError], or bound but without its thread. *)
Inductive start_outcome := Started (port : Z) | BindFails | ThreadFails (port : Z).

Class LaunchEnv := {
  le_host :: LeaseHost;
  le_wrap_available : list string → string → bool;
  le_month : float → result cast_error string;
  le_default_ledger_dir : string;
  le_disk : nat → Disk;
  le_start : nat → start_outcome;
  le_adapter_roots : list string;
  le_popen : bool;
}.

(** [la_files] are the ledger files, [la_open] the ports on which a proxy listens. *)
Record Launch := mkLaunch {
  la_lease : LeaseWorld;
  la_files : list (string * string);
  la_appends : nat;
  la_starts : nat;
  la_open : list Z;
}.
#[export] Instance Launch_rebuild : Rebuild Launch := λ s,
  mkLaunch s.(la_lease) s.(la_files) s.(la_appends) s.(la_starts) s.(la_open).

Inductive launch_exn := FromLease (e : lease_exn) | RuntimeError.
Definition launch_m (A : Type) : Type := op Launch launch_exn A.
Definition pret {A} (a : A) : launch_m A := λ s, (Ok a, s).
Definition pbind {A B} (m : launch_m A) (f : A → launch_m B) : launch_m B := λ s,
  match m s with (Ok a, s') => f a s' | (Err e, s') => (Err e, s') end.
(** [try: m except Exception: ...] *)
Definition attempt {A} (m : launch_m A) : launch_m (result launch_exn A) := λ s,
  let '(r, s') := m s in (Ok r, s').
Definition on_lease {A} (m : lease_m A) : launch_m A := λ s,
  let '(r, w) := m s.(la_lease) in (map_err FromLease r, s <| la_lease := w |>).
Definition plift {A} (m : result cast_error A) : launch_m A := λ s, (map_err (FromLease ∘ Raised) m, s).
Declare Scope launch_scope.
Notation "'let+' x ':=' m 'in' k" := (pbind m (λ x, k))
  (at level 10, x binder, m at level 100, k at level 200) : launch_scope.
Open Scope launch_scope.

(** ** The audit trail *)

Definition LEASE_LEDGER_PREFIX : string := "leases".
Definition MAX_RECORD_BYTES : Z := 64 * 1024.
Definition LOCK_ATTEMPTS : nat := 20.

(** UTF-8 of code points up to 255. *)
Definition utf8 : string → string :=
  concat_map_str (λ c, let n := code c in
    if (n <? 128)%nat then String c ""
    else String (ascii_of_nat (192 + n / 64)) (String (ascii_of_nat (128 + n mod 64)) "")).

Section launch.
Context `{LaunchEnv}.

Definition lease_ledger_dir : string :=
  match section_value "ledger_dir" with
  | JStr s => if nonempty (strip s) then strip s else le_default_ledger_dir
  | _ => le_default_ledger_dir
  end.
Definition lease_ledger_path (month : string) : string :=
  pure_path (lease_ledger_dir +:+ "/" +:+ LEASE_LEDGER_PREFIX +:+ "-" +:+ month +:+ ".jsonl").

Definition reduced_keys : list string :=
  ["version"; "lease_id"; "subject"; "issued_at"; "expires_at"; "generation"; "signed"; "event"; "mode"; "recorded_at"].
Definition lease_line (l : Lease) (event : string) (mode : LeaseMode) (recorded_at : string) (extra : dict) :
    result cast_error string :=
  record ← lease_record l;
  let payload := dict_update (dict_update record
    [("event", JStr event); ("mode", JStr (lease_mode_value mode)); ("recorded_at", JStr recorded_at)]) extra in
  let line := dumps_spaced (JDict payload) +:+ LF in
  Ok (if MAX_RECORD_BYTES <? utf8_len line
      then dumps_spaced (JDict (map (λ k, (k, default JNull (dict_get k payload))) reduced_keys
                                ++ [("truncated", JBool true)])) +:+ LF
      else line).

(** The write loop: the bytes in the file afterwards, and whether it completed.  Every
    write that makes progress takes a byte, so as many turns as bytes are enough. *)
Fixpoint write_all (fuel : nat) (writes : nat → option Z) (turn : nat) (payload content : string) : string * bool :=
  match payload with
  | "" => (content, true)
  | _ =>
      match fuel with
      | O => (content, false)
      | S fuel =>
          match writes turn with
          | Some n =>
              if n <=? 0 then (content, false)
              else let k := Z.to_nat n in
                   write_all fuel writes (S turn) (drop_str k payload)
                     (content +:+ String.substring 0 (Nat.min k (String.length payload)) payload)
          | None => (content, false)
          end
      end
  end.

Definition file_content (path : string) (files : list (string * string)) : string := default "" (dict_get path files).
Definition locked_within (flock : nat → bool) : bool := existsb flock (seq 0 LOCK_ATTEMPTS).

Definition next_append : launch_m Disk := λ s, (Ok (le_disk s.(la_appends)), s <| la_appends := S s.(la_appends) |>).
Definition set_file (path content : string) : launch_m () := λ s,
  (Ok (), s <| la_files := dict_set path content s.(la_files) |>).
Definition read_file (path : string) : launch_m string := λ s, (Ok (file_content path s.(la_files)), s).

Definition append_lease_record (l : Lease) (event : string) (mode : LeaseMode) (extra : dict) : launch_m string :=
  let+ d := next_append in
  let+ now := on_lease time_time in
  match le_month now with
  | Err OverflowError => plift (Err OverflowError)
  | Err _ => pret ""
  | Ok month =>
      let path := lease_ledger_path month in
      if negb d.(dk_mkdir) || negb d.(dk_parent_is_dir) then pret ""
      else match lease_line l event mode d.(dk_recorded_at) extra with
      | Err OverflowError => plift (Err OverflowError)
      | Err _ => pret ""
      | Ok line =>
          if negb d.(dk_open) then pret ""
          else
            let+ content := read_file path in
            let+ _ := set_file path content in
            if negb d.(dk_regular) || (d.(dk_has_fcntl) && negb (locked_within d.(dk_flock))) then pret ""
            else
              let payload := utf8 line in
              let '(content, complete) := write_all (String.length payload) d.(dk_write) 0 payload content in
              let+ _ := set_file path content in
              pret (if complete && d.(dk_fsync) then path else "")
      end
  end.

(** ** The plan of a launch *)

Inductive refusal :=
  | IssuanceFailed (e : launch_exn)
  | LeaseRejected (r : invalid_reason)
  | WrapNotEngaged
  | ProxyFailed
  | RejectedAtSpawn (r : invalid_reason)
  | ExpiredAtSpawn.
Definition invalid_prefix (r : invalid_reason) : string :=
  match r with
  | BadVersion => "lease_version" | BadId => "lease_id" | BadSubject => "lease_subject"
  | BadTimestamps => "lease_timestamps" | BadRoots => "lease_roots" | BadNetPolicy => "lease_net_policy"
  | BadCeiling _ => "lease_ceilings" | BadNetPorts => "lease_net_ports" | BadSignature => "lease_signature"
  | BadGeneration => "lease_generation" | NotYetValid => "lease_not_yet_valid" | Expired => "lease_expired"
  end.

Record LaunchPlan := mkPlan {
  lp_mode : LeaseMode;
  lp_lease : option Lease;
  lp_refusal : option refusal;
  lp_write_roots : option (list json);
  lp_timeout_ms : option Z;
  lp_net_mode : json;
  lp_net_loopback_ports : list Z;
  lp_write_deny_literals : list string;
  lp_env_additions : list (string * string);
  lp_preexec_fn : option (list (rlimit * Z * Z));
  lp_proxy : option AllowlistProxy;
}.
Definition no_op_plan (mode : LeaseMode) : LaunchPlan :=
  mkPlan mode None None None None (JStr "open") [] [] [] None None.
Definition refused_plan (mode : LeaseMode) (l : option Lease) (r : refusal) : LaunchPlan :=
  mkPlan mode l (Some r) None None (JStr "open") [] [] [] None None.

Definition lease_active : bool := lease_enabled.

(** [_record]: whatever the append raises is swallowed. *)
Definition record_event (l : Lease) (event : string) (mode : LeaseMode) (extra : dict) : launch_m () :=
  let+ _ := attempt (append_lease_record l event mode extra) in pret ().
Definition refused_row (reason : string) : dict := [("reason", JStr reason)].

Record LaunchArgs := mkLaunchArgs {
  pa_provider : string;
  pa_argv : list string;
  pa_working_dir : string;
  pa_workspace_writable : bool;
  pa_write_roots : list string;
  pa_timeout_ms : Z;
  pa_run_id : string;
  pa_task_id : string;
  pa_session_id : string;
  pa_env_groups : list string;
}.
Definition issue_args (a : LaunchArgs) : IssueArgs :=
  mkIssueArgs (if nonempty a.(pa_run_id) then a.(pa_run_id) else "run_unknown") a.(pa_task_id) a.(pa_session_id)
    (if a.(pa_workspace_writable) then a.(pa_working_dir) else "") a.(pa_write_roots) [] (Some a.(pa_provider))
    (Some a.(pa_timeout_ms)) a.(pa_env_groups) [] [] None None None None None None.

(** [int(remaining_seconds(lease) * 1000)] *)
Definition fl_mul (x : float) (n : positive) : float :=
  match x with Fin q => lh_rnd (q * inject_Z (Zpos n))%Q | x => x end.
Definition remaining_ms (l : Lease) : launch_m Z :=
  let+ remaining := on_lease (remaining_seconds l None) in
  plift (py_int (JFloat (fl_mul remaining 1000))).

Definition start_proxy (l : Lease) : launch_m (option AllowlistProxy) := λ s,
  let strings := omap (λ v, match v with JStr d => Some d | _ => None end) l.(l_net_allow_domains) in
  let ports := omap (λ v, match v with JInt p => Some p | _ => None end) l.(l_net_allow_ports) in
  let fresh := new_proxy strings ports MAX_CONNECTIONS in
  let s' := s <| la_starts := S s.(la_starts) |> in
  match le_start s.(la_starts) with
  | Started port => (Ok (Some (start (Some port) fresh).2), s' <| la_open := port :: s'.(la_open) |>)
  | BindFails => (Ok None, s')
  | ThreadFails port => (Err RuntimeError, s' <| la_open := port :: s'.(la_open) |>)
  end.

Definition limits_row (report : list (string * string)) : json := JDict (map (λ p, (p.1, JStr p.2)) report).

(** The enforcing half: the lease is valid, and drives the launch. *)
Definition enforce_plan (a : LaunchArgs) (l : Lease) (report : list (string * string)) : launch_m LaunchPlan :=
  if negb (le_wrap_available a.(pa_argv) a.(pa_working_dir)) then
    let+ _ := record_event l "refused" LeaseEnforce (refused_row "the OS sandbox wrap would not engage") in
    pret (refused_plan LeaseEnforce (Some l) WrapNotEngaged)
  else
    let+ remaining := remaining_ms l in
    let+ preexec_fn := plift (make_preexec l.(l_ceilings)) in
    let timeout := Z.max 1 (Z.min a.(pa_timeout_ms) remaining) in
    let proxied := json_eq l.(l_net_mode) (JStr "proxy") in
    let+ proxy := (if proxied then start_proxy l else pret None) in
    match proxy, proxied with
    | None, true =>
        let+ _ := record_event l "refused" LeaseEnforce (refused_row "egress proxy failed to start") in
        pret (refused_plan LeaseEnforce (Some l) ProxyFailed)
    | _, _ =>
        let ports := match proxy with Some p => [proxy_port p] | None => [] end in
        let env := match proxy with Some p => proxy_env (proxy_url p) | None => [] end in
        let+ _ := record_event l "issued" LeaseEnforce
          [("enforced", JBool true); ("limits", limits_row report);
           ("workspace_writable", JBool a.(pa_workspace_writable)); ("timeout_ms", JInt timeout);
           ("net_mode", l.(l_net_mode)); ("proxy_port", JInt (hd 0 ports))] in
        pret (mkPlan LeaseEnforce (Some l) None (Some l.(l_fs_write_roots)) (Some timeout) l.(l_net_mode) ports
                [lease_config_path] env preexec_fn proxy)
    end.

Definition plan_launch (a : LaunchArgs) : launch_m LaunchPlan :=
  let mode := lease_mode in
  let enforcing := bool_decide (mode = LeaseEnforce) in
  if bool_decide (mode = LeaseOff) then pret (no_op_plan LeaseOff)
  else
    let+ issued := attempt (on_lease (issue_lease (issue_args a))) in
    match issued with
    | Err e => pret (if enforcing then refused_plan mode None (IssuanceFailed e) else no_op_plan mode)
    | Ok l =>
        let+ checked := attempt (on_lease (validate_lease l None)) in
        match checked with
        | Err (FromLease (LeaseInvalid r)) =>
            let+ _ := record_event l "refused" mode (refused_row (invalid_prefix r)) in
            pret (if enforcing then refused_plan mode (Some l) (LeaseRejected r) else no_op_plan mode)
        | Err e => λ s, (Err e, s)
        | Ok _ =>
            let+ report := plift (limit_report l.(l_ceilings)) in
            if enforcing then enforce_plan a l report
            else
              let+ _ := record_event l "issued" mode
                [("enforced", JBool false); ("limits", limits_row report);
                 ("workspace_writable", JBool a.(pa_workspace_writable))] in
              pret (no_op_plan mode)
        end
    end.

(** ** At the spawn *)

Definition confirm_at_spawn (p : LaunchPlan) : launch_m (option refusal * option Z) :=
  match p.(lp_lease), p.(lp_mode) with
  | Some l, LeaseEnforce =>
      let+ checked := attempt (on_lease (validate_lease l None)) in
      match checked with
      | Err (FromLease (LeaseInvalid r)) =>
          let+ _ := record_event l "refused" p.(lp_mode) (refused_row ("at-spawn: " +:+ invalid_prefix r)) in
          pret (Some (RejectedAtSpawn r), None)
      | Err e => λ s, (Err e, s)
      | Ok _ =>
          let+ remaining := remaining_ms l in
          if remaining <=? 0 then
            let+ _ := record_event l "refused" p.(lp_mode) (refused_row "the lease expired while the launch was being prepared") in
            pret (Some ExpiredAtSpawn, None)
          else pret (None, Some (Z.max 1 (Z.min (default remaining p.(lp_timeout_ms)) remaining)))
      end
  | _, _ => pret (None, None)
  end.

(** [close_plan]: the plan's proxy stops listening. *)
Definition close_plan (p : LaunchPlan) : launch_m () := λ s,
  match p.(lp_proxy) with
  | Some px => (Ok (), s <| la_open := List.filter (λ port, negb (port =? proxy_port px)) s.(la_open) |>)
  | None => (Ok (), s)
  end.

(** ** The caller: the launch of one command *)

Record Invoke := mkInvoke {
  iv_provider : string;
  iv_command : list string;
  iv_working_dir : string;
  iv_timeout_ms : Z;
  iv_extra_write_roots : list string;
  iv_sandbox_level : string;
  iv_run_id : string;
  iv_task_id : string;
  iv_session_id : string;
}.
(** What the child is started with. *)
Record Spawn := mkSpawn {
  sp_command : list string;
  sp_granted : list string;
  sp_workspace_writable : bool;
  sp_write_roots_override : option (list json);
  sp_net_mode : json;
  sp_net_loopback_ports : list Z;
  sp_write_deny_literals : list string;
  sp_env_additions : list (string * string);
  sp_preexec : option (list (rlimit * Z * Z));
  sp_timeout_ms : Z;
}.
Inductive invocation := Refused (r : refusal) | Failed | Spawned (sp : Spawn).

Definition granted_roots (i : Invoke) : list string :=
  if bool_decide (i.(iv_sandbox_level) = "workspace_write") then i.(iv_extra_write_roots) else [].
Definition launch_args (i : Invoke) : LaunchArgs :=
  mkLaunchArgs i.(iv_provider) i.(iv_command) i.(iv_working_dir)
    (bool_decide (i.(iv_sandbox_level) = "workspace_write")) (le_adapter_roots ++ granted_roots i) i.(iv_timeout_ms)
    i.(iv_run_id) i.(iv_task_id) i.(iv_session_id) [].

(** The launch as it was before there were leases. *)
Definition plain_spawn (i : Invoke) : Spawn :=
  mkSpawn i.(iv_command) (granted_roots i) (bool_decide (i.(iv_sandbox_level) = "workspace_write"))
    None (JStr "open") [] [] [] None i.(iv_timeout_ms).
Definition planned_spawn (i : Invoke) (p : LaunchPlan) : Spawn :=
  mkSpawn i.(iv_command) (granted_roots i) (bool_decide (i.(iv_sandbox_level) = "workspace_write"))
    p.(lp_write_roots) p.(lp_net_mode) p.(lp_net_loopback_ports) p.(lp_write_deny_literals)
    p.(lp_env_additions) p.(lp_preexec_fn) (default i.(iv_timeout_ms) p.(lp_timeout_ms)).
Definition with_deadline (sp : Spawn) (deadline : option Z) : Spawn :=
  mkSpawn sp.(sp_command) sp.(sp_granted) sp.(sp_workspace_writable) sp.(sp_write_roots_override) sp.(sp_net_mode)
    sp.(sp_net_loopback_ports) sp.(sp_write_deny_literals) sp.(sp_env_additions) sp.(sp_preexec)
    (default sp.(sp_timeout_ms) deadline).
Definition popen (sp : Spawn) : invocation := if le_popen then Spawned sp else Failed.

(** [finally: close_plan(plan)] *)
Definition closing {A} (p : LaunchPlan) (m : launch_m A) : launch_m A := λ s,
  let '(r, s') := m s in (r, (close_plan p s').2).

Definition invoke (i : Invoke) : launch_m invocation :=
  if lease_active then
    let+ plan := plan_launch (launch_args i) in
    closing plan
      (match plan.(lp_refusal) with
       | Some r => pret (Refused r)
       | None =>
           let+ confirmed := confirm_at_spawn plan in
           match confirmed with
           | (Some r, _) => pret (Refused r)
           | (None, deadline) => pret (popen (with_deadline (planned_spawn i plan) deadline))
           end
       end)
  else pret (popen (plain_spawn i)).
End launch.
