(* ===== verification/LeaseSpec.v ===== *)
(** * LeaseSpec: theorems about leases and about the limits of the child

    Validation is characterized; a generation that was left behind never validates again;
    the signature covers every field; resource limits only tighten; an issued lease
    validates until it expires. *)

From Stdlib Require Import Ascii QArith.
From stdpp Require Import pretty.
From S2P Require Import Prelude PyString PyPath PyJson JsonText Records Lease.
Open Scope Z_scope.

(** ** The world only moves forward *)

Definition forward (w w' : LeaseWorld) : Prop :=
  w.(lw_generation) ≤ w'.(lw_generation) ∧ (w.(lw_tokens) ≤ w'.(lw_tokens))%nat.
Definition advances {A} (m : lease_m A) : Prop := ∀ w, forward w (m w).2.

#[export] Instance forward_preorder : PreOrder forward.
Proof. split; [intros w; split; lia|]. intros w1 w2 w3 [] []. split; lia. Qed.

Lemma forward_elapse w : forward w (elapse w).
Proof. unfold elapse. destruct w as [n g [|[t k] rest] c]; split; cbn; lia. Qed.

Section advances.
Context `{LeaseHost}.

Lemma advances_ret {A} (a : A) : advances (lret a).
Proof. intros w. done. Qed.
Lemma advances_pure {A} (r : result lease_exn A) : advances (λ w, (r, w)).
Proof. intros w. done. Qed.
Lemma advances_lift {A} (r : result cast_error A) : advances (llift r).
Proof. intros w. done. Qed.
Lemma advances_check r : advances (lcheck r).
Proof. intros w. done. Qed.
Lemma advances_bind {A B} (m : lease_m A) (f : A → lease_m B) :
  advances m → (∀ a, advances (f a)) → advances (lbind m f).
Proof.
  intros Hm Hf w. unfold lbind. specialize (Hm w). destruct (m w) as [[a|e] w']; [|done].
  etrans; [exact Hm|]. apply Hf.
Qed.
Lemma advances_time : advances time_time.
Proof. intros w. apply forward_elapse. Qed.
Lemma advances_generation : advances current_generation.
Proof. intros w. apply forward_elapse. Qed.
Lemma advances_bump : advances bump_generation.
Proof. intros w. unfold bump_generation. destruct (forward_elapse w). split; cbn; lia. Qed.
Lemma advances_id : advances new_lease_id.
Proof. intros w. split; cbn; lia. Qed.
End advances.

Create HintDb lease.
#[export] Hint Resolve advances_ret advances_pure advances_lift advances_check advances_time advances_generation
  advances_bump advances_id : lease.
Ltac advance := repeat first
  [ apply advances_bind; [|intros ?] | progress eauto with lease | case_match ].

(** What any thread of the process may do with leases. *)
Inductive lease_call :=
  | CallBump | CallTime | CallGeneration
  | CallIssue (a : IssueArgs) | CallValidate (l : Lease) (now : option float) | CallRemaining (l : Lease).

Section calls.
Context `{LeaseHost}.

Definition lease_call_step (w : LeaseWorld) (c : lease_call) : LeaseWorld :=
  match c with
  | CallBump => (bump_generation w).2
  | CallTime => (time_time w).2
  | CallGeneration => (current_generation w).2
  | CallIssue a => (issue_lease a w).2
  | CallValidate l now => (validate_lease l now w).2
  | CallRemaining l => (remaining_seconds l None w).2
  end.
Definition run_lease_calls (w : LeaseWorld) (l : list lease_call) : LeaseWorld := foldl lease_call_step w l.

Lemma advances_issue a : advances (issue_lease a).
Proof. unfold issue_lease. advance. Qed.
Lemma advances_validate l now : advances (validate_lease l now).
Proof. unfold validate_lease. advance. Qed.
Lemma advances_remaining l now : advances (remaining_seconds l now).
Proof. unfold remaining_seconds. advance. Qed.

Lemma run_lease_calls_forward w l : forward w (run_lease_calls w l).
Proof.
  revert w. induction l as [|c l IH]; intros w; [done|]. etrans; [|apply (IH (lease_call_step w c))].
  destruct c; cbn [lease_call_step]; [apply advances_bump|apply advances_time|apply advances_generation
    |apply advances_issue|apply advances_validate|apply advances_remaining].
Qed.

(** ** What validation accepts *)

Lemma require_true r m : require r m = Ok () ↔ m = Ok true.
Proof. by destruct m as [[]|]. Qed.

Lemma validate_lease_Ok l now w w' :
  validate_lease l now w = (Ok (), w') →
  ∃ t w0, match now with Some t' => t = t' ∧ w0 = w | None => time_time w = (Ok t, w0) end ∧
    validate_form l = Ok () ∧ signature_matches l = Ok true ∧
    w' = elapse w0 ∧ json_eq l.(l_generation) (JInt w'.(lw_generation)) = true ∧
    fl_lt (fl_add lh_rnd t CLOCK_SKEW_S) (time_of l.(l_issued_at)) = false ∧
    fl_le (time_of l.(l_expires_at)) t = false.
Proof.
  unfold validate_lease, lbind, lcheck, lret.
  destruct now as [t|]; cbn [fst snd].
  all: intros Hv; eexists _, _; (split; [done|]).
  all: destruct (validate_form l) as [[]|] eqn:Ef; [|done].
  all: destruct (require BadSignature _) as [[]|] eqn:Es; [|done]; apply require_true in Es.
  all: unfold current_generation in Hv; cbn -[elapse require] in Hv.
  all: destruct (require BadGeneration _) as [[]|] eqn:Eg; [|done]; apply require_true in Eg; injection Eg as Eg.
  all: destruct (require NotYetValid _) as [[]|] eqn:En; [|done]; apply require_true in En; injection En as En%negb_true_iff.
  all: destruct (require Expired _) as [[]|] eqn:Ee; [|done]; apply require_true in Ee; injection Ee as Ee%negb_true_iff.
  all: by injection Hv as <-.
Qed.

Lemma validate_lease_order l now w :
  validate_form l = Ok () → signature_matches l = Ok false →
  (validate_lease l now w).1 = Err (LeaseInvalid BadSignature).
Proof.
  intros Hf Hs. unfold validate_lease, lbind, lcheck, lret. rewrite Hf, Hs. by destruct now.
Qed.

(** *** Well-formed leases *)

Definition number_is (v : json) (q : Q) : Prop := strict_number v = Some (Fin q).
Definition signed_policy (l : Lease) : Prop :=
  (l.(l_net_mode) = JStr "proxy" ∧ (∃ d, JStr d ∈ l.(l_net_allow_domains) ∧ strip d ≠ "") ∧
     l.(l_net_allow_ports) ≠ [] ∧ ∀ p, p ∈ l.(l_net_allow_ports) → ∃ n, p = JInt n ∧ 1 ≤ n ≤ 65535) ∨
  ((l.(l_net_mode) = JStr "open" ∨ l.(l_net_mode) = JStr "deny") ∧
     l.(l_net_allow_domains) = [] ∧ l.(l_net_allow_ports) = []).
Record well_formed (l : Lease) : Prop := {
  wf_version : json_eq l.(l_version) (JInt LEASE_VERSION) = true;
  wf_id : ∃ s, l.(l_lease_id) = JStr s ∧ s ≠ "";
  wf_run : ∃ s, l.(l_subject).(su_run_id) = JStr s ∧ s ≠ "";
  wf_window : ∃ i e, number_is l.(l_issued_at) i ∧ number_is l.(l_expires_at) e ∧ (0 < i)%Q ∧ (i < e)%Q;
  wf_roots : ∀ r, r ∈ l.(l_fs_read_roots) ++ l.(l_fs_write_roots) → ∃ p, r = JStr p ∧ isabs p = true;
  wf_policy : signed_policy l;
  wf_ceilings : ∀ v, v ∈ [l.(l_ceilings).(ce_cpu_s); l.(l_ceilings).(ce_rss_mb); l.(l_ceilings).(ce_max_procs);
                          l.(l_ceilings).(ce_wall_s)] → ∃ q, number_is v q ∧ (0 <= q)%Q;
}.

Lemma bind_require_Ok r m (k : () → result lease_exn ()) :
  (require r m ≫= k) = Ok () ↔ m = Ok true ∧ k () = Ok ().
Proof. rewrite bind_Ok. setoid_rewrite <-(require_true r m). split; [intros ([] & ? & ?)|]; eauto. Qed.

Lemma finite_number v x : strict_number v = Some x → py_isfinite v = Ok true → ∃ q, x = Fin q.
Proof.
  destruct v; intros [= <-]; [by eexists|]. unfold py_isfinite. cbn. by destruct x0 as [q| |]; eauto.
Qed.

Lemma usable_time_Ok v : usable_time v = Ok true → ∃ q, number_is v q ∧ (0 < q)%Q.
Proof.
  unfold usable_time, number_is. destruct (strict_number v) as [x|] eqn:E; [|done].
  destruct (fl_le x fl_zero) eqn:El; [done|]. intros Hf. destruct (finite_number _ _ E Hf) as [q ->].
  exists q. split; [done|]. unfold fl_le in El. apply orb_false_iff in El as [El Ez]. cbn in *.
  apply negb_false_iff, Qle_bool_iff in El. apply Qeq_bool_neq in Ez.
  apply Qle_lteq in El as [?|El]; [done|]. by destruct Ez.
Qed.

Lemma usable_ceiling_Ok v : usable_ceiling v = Ok true → ∃ q, number_is v q ∧ (0 <= q)%Q.
Proof.
  unfold usable_ceiling, number_is. destruct (strict_number v) as [x|] eqn:E; [|done].
  destruct (py_isfinite v) as [[]|] eqn:Hf; [|done..]. destruct (finite_number _ _ E Hf) as [q ->].
  intros [= Hq%negb_true_iff]. exists q. split; [done|]. cbn in Hq. by apply negb_false_iff, Qle_bool_iff in Hq.
Qed.

Lemma json_eq_str v t : json_eq v (JStr t) = true ↔ v = JStr t.
Proof.
  split; [|by intros ->; cbn; apply bool_decide_eq_true].
  by destruct v; cbn; try done; intros ->%bool_decide_eq_true.
Qed.

Lemma is_empty_true {A} (l : list A) : is_empty l = true ↔ l = [].
Proof. by destruct l. Qed.
Lemma nonempty_true s : nonempty s = true ↔ s ≠ "".
Proof. unfold nonempty. by rewrite negb_true_iff, bool_decide_eq_false. Qed.

Lemma nonempty_str_true v : is_nonempty_str v = true → ∃ s, v = JStr s ∧ s ≠ "".
Proof. destruct v; cbn; try done. rewrite nonempty_true. eauto. Qed.

Lemma validate_form_wf l : validate_form l = Ok () → well_formed l.
Proof.
  unfold validate_form. rewrite !bind_require_Ok, require_true.
  intros ([= Hv] & [= Hid] & [= Hrun] & Hi & He & [= Hlt] & [= Hrr] & [= Hwr] & [= Hmode] & [= Hdom]
    & Hcpu & Hrss & Hprocs & Hwall & [= Hports]).
  apply usable_time_Ok in Hi as (i & Hi & Hi0). apply usable_time_Ok in He as (e & He & _).
  split; auto using nonempty_str_true.
  - exists i, e. split_and!; try done. unfold later_than in Hlt. rewrite Hi, He in Hlt. cbn in Hlt.
    apply negb_true_iff in Hlt. apply Qnot_le_lt. intros Hle%Qle_bool_iff. congruence.
  - intros r Hr. assert (usable_root r = true) as Hu.
    { rewrite forallb_forall in Hrr, Hwr. apply elem_of_app in Hr as [Hr|Hr]; apply list_elem_of_In in Hr; auto. }
    destruct r; try done. cbn in Hu. apply andb_true_iff in Hu as [_ Hu]. eauto.
  - destruct (json_eq l.(l_net_mode) (JStr "proxy")) eqn:Ep.
    + left. apply json_eq_str in Ep. apply andb_true_iff in Hports as [Hne Hall].
      apply existsb_exists in Hdom as (d & Hd & Hn). apply list_elem_of_In in Hd. split_and!; [done|..].
      * destruct d; try done. apply nonempty_true in Hn. eauto.
      * intros E. by rewrite E in Hne.
      * intros p Hp. rewrite forallb_forall in Hall. apply list_elem_of_In, Hall in Hp. destruct p; try done.
        cbn in Hp. apply andb_true_iff in Hp as [?%Z.leb_le ?%Z.leb_le]. eauto.
    + right. apply is_empty_true in Hdom, Hports. split; [|done].
      apply orb_true_iff in Hmode as [Hm%json_eq_str|Hmode]; [auto|].
      apply orb_true_iff in Hmode as [Hm%json_eq_str|Hm]; [auto|done].
  - intros v Hv'. rewrite !elem_of_cons, elem_of_nil in Hv'.
    destruct Hv' as [->|[->|[->|[->|[]]]]]; by apply usable_ceiling_Ok.
Qed.
End calls.

(** ** The signature covers the lease *)

(** Two leases grant the same: every field but the signature, floats by their values. *)
Record same_terms (l m : Lease) : Prop := {
  st_version : canon l.(l_version) = canon m.(l_version);
  st_id : canon l.(l_lease_id) = canon m.(l_lease_id);
  st_run_id : canon l.(l_subject).(su_run_id) = canon m.(l_subject).(su_run_id);
  st_task_id : canon l.(l_subject).(su_task_id) = canon m.(l_subject).(su_task_id);
  st_session_id : canon l.(l_subject).(su_session_id) = canon m.(l_subject).(su_session_id);
  st_issued_at : canon l.(l_issued_at) = canon m.(l_issued_at);
  st_expires_at : canon l.(l_expires_at) = canon m.(l_expires_at);
  st_generation : canon l.(l_generation) = canon m.(l_generation);
  st_read_roots : map canon l.(l_fs_read_roots) = map canon m.(l_fs_read_roots);
  st_write_roots : map canon l.(l_fs_write_roots) = map canon m.(l_fs_write_roots);
  st_net_mode : l.(l_net_mode) = m.(l_net_mode);
  st_domains : map canon l.(l_net_allow_domains) = map canon m.(l_net_allow_domains);
  st_ports : l.(l_net_allow_ports) = m.(l_net_allow_ports);
  st_capabilities : map canon l.(l_capabilities) = map canon m.(l_capabilities);
  st_handles : map canon l.(l_credential_handles) = map canon m.(l_credential_handles);
  st_cpu_s : canon l.(l_ceilings).(ce_cpu_s) = canon m.(l_ceilings).(ce_cpu_s);
  st_rss_mb : canon l.(l_ceilings).(ce_rss_mb) = canon m.(l_ceilings).(ce_rss_mb);
  st_max_procs : canon l.(l_ceilings).(ce_max_procs) = canon m.(l_ceilings).(ce_max_procs);
  st_wall_s : canon l.(l_ceilings).(ce_wall_s) = canon m.(l_ceilings).(ce_wall_s);
  st_auto_run : map canon l.(l_auto_run_effect_classes) = map canon m.(l_auto_run_effect_classes);
  st_approval : map canon l.(l_approval_required_classes) = map canon m.(l_approval_required_classes);
}.

Section signature.
Context `{LeaseHost, !FloatTextLaws}.

Definition payload_with (l : Lease) (policy : json) : dict :=
  [("version", l.(l_version)); ("lease_id", l.(l_lease_id));
   ("subject", JDict [("run_id", l.(l_subject).(su_run_id)); ("task_id", l.(l_subject).(su_task_id));
                      ("session_id", l.(l_subject).(su_session_id))]);
   ("issued_at", l.(l_issued_at)); ("expires_at", l.(l_expires_at)); ("generation", l.(l_generation));
   ("fs_read_roots", JList l.(l_fs_read_roots)); ("fs_write_roots", JList l.(l_fs_write_roots));
   ("net_policy", policy); ("capabilities", JList l.(l_capabilities));
   ("credential_handles", JList l.(l_credential_handles));
   ("ceilings", JDict [("cpu_s", l.(l_ceilings).(ce_cpu_s)); ("rss_mb", l.(l_ceilings).(ce_rss_mb));
                       ("max_procs", l.(l_ceilings).(ce_max_procs)); ("wall_s", l.(l_ceilings).(ce_wall_s))]);
   ("auto_run_effect_classes", JList l.(l_auto_run_effect_classes));
   ("approval_required_classes", JList l.(l_approval_required_classes))].

Lemma lease_payload_Ok l p : lease_payload l = Ok p ↔ ∃ policy, net_policy l = Ok policy ∧ p = payload_with l policy.
Proof. unfold lease_payload. rewrite bind_Ok. naive_solver. Qed.

Lemma payload_keys l p : NoDup (map fst (payload_with l p)).
Proof. literal_keys. Qed.

Lemma payload_inj l m p q :
  canon (JDict (payload_with l p)) = canon (JDict (payload_with m q)) →
  canon p = canon q ∧
  (l.(l_net_mode) = m.(l_net_mode) → map canon l.(l_net_allow_domains) = map canon m.(l_net_allow_domains) →
   l.(l_net_allow_ports) = m.(l_net_allow_ports) → same_terms l m).
Proof.
  intros Heq.
  assert (∀ key x y, dict_get key (payload_with l p) = Some x → dict_get key (payload_with m q) = Some y →
    canon x = canon y) as Hget by (intros key x y; by apply canon_member; [apply payload_keys..|]).
  pose proof (Hget "subject" _ _ eq_refl eq_refl) as Hsub. pose proof (Hget "ceilings" _ _ eq_refl eq_refl) as Hcei.
  split; [by apply (Hget "net_policy")|]. intros. split; try done.
  all: try (first [by apply (Hget "version")|by apply (Hget "lease_id")|by apply (Hget "issued_at")
    |by apply (Hget "expires_at")|by apply (Hget "generation")]).
  all: try (apply canon_list; first [by apply (Hget "fs_read_roots")|by apply (Hget "fs_write_roots")
    |by apply (Hget "capabilities")|by apply (Hget "credential_handles")
    |by apply (Hget "auto_run_effect_classes")|by apply (Hget "approval_required_classes")]).
  all: first [eapply (canon_member _ _ "run_id" _ _ _ _ Hsub eq_refl eq_refl)
    |eapply (canon_member _ _ "task_id" _ _ _ _ Hsub eq_refl eq_refl)|eapply (canon_member _ _ "session_id" _ _ _ _ Hsub eq_refl eq_refl)
    |eapply (canon_member _ _ "cpu_s" _ _ _ _ Hcei eq_refl eq_refl)|eapply (canon_member _ _ "rss_mb" _ _ _ _ Hcei eq_refl eq_refl)
    |eapply (canon_member _ _ "max_procs" _ _ _ _ Hcei eq_refl eq_refl)|eapply (canon_member _ _ "wall_s" _ _ _ _ Hcei eq_refl eq_refl)].
  Unshelve. all: literal_keys.
Qed.

(** The policy of a lease whose signature covers everything. *)
Definition policy_shape (l : Lease) : Prop :=
  (l.(l_net_mode) = JStr "proxy" ∧ ∃ ports, l.(l_net_allow_ports) = map JInt ports) ∨
  (∃ mode, l.(l_net_mode) = JStr mode ∧ mode ≠ "proxy" ∧ l.(l_net_allow_domains) = [] ∧ l.(l_net_allow_ports) = []).

Lemma ints_of l : (∀ p, p ∈ l → ∃ n, p = JInt n) → ∃ ports, l = map JInt ports.
Proof.
  induction l as [|p l IH]; intros Hl; [by exists []|].
  destruct (Hl p) as [n ->]; [set_solver|]. destruct IH as [ports ->]; [set_solver|]. by exists (n :: ports).
Qed.

Lemma well_formed_shape l : well_formed l → policy_shape l.
Proof.
  intros Hwf. destruct (wf_policy _ Hwf) as [(Hm & _ & _ & Hp)|([Hm|Hm] & Hd & Hp)].
  - left. split; [done|]. apply ints_of. intros p Hin. destruct (Hp p Hin) as (n & -> & _). eauto.
  - right. by exists "open".
  - right. by exists "deny".
Qed.

Lemma traverse_py_int ports : traverse py_int (map JInt ports) = Ok ports.
Proof. induction ports as [|p ports IH]; [done|]. cbn in *. by rewrite IH. Qed.

Lemma net_policy_shape l p :
  policy_shape l → net_policy l = Ok p →
  (∃ ports, l.(l_net_mode) = JStr "proxy" ∧ l.(l_net_allow_ports) = map JInt ports ∧
     p = JDict [("proxy", JList l.(l_net_allow_domains)); ("ports", JList (map JInt ports))]) ∨
  (∃ mode, l.(l_net_mode) = JStr mode ∧ mode ≠ "proxy" ∧ l.(l_net_allow_domains) = [] ∧ l.(l_net_allow_ports) = [] ∧
     p = JStr mode).
Proof.
  unfold net_policy. intros [[Hm [ports Hp]]|(mode & Hm & Hne & Hd & Hp)].
  - rewrite (proj2 (json_eq_str _ _) Hm), Hp, traverse_py_int. intros [= <-]. left. by exists ports.
  - destruct (json_eq _ _) eqn:E; [apply json_eq_str in E; congruence|]. rewrite Hm. intros [= <-]. right. by exists mode.
Qed.

Lemma canon_ints ports : map canon (map JInt ports) = map JInt ports.
Proof. by rewrite map_map. Qed.

Lemma policy_inj l m p q :
  policy_shape l → policy_shape m → net_policy l = Ok p → net_policy m = Ok q → canon p = canon q →
  l.(l_net_mode) = m.(l_net_mode) ∧ map canon l.(l_net_allow_domains) = map canon m.(l_net_allow_domains) ∧
  l.(l_net_allow_ports) = m.(l_net_allow_ports).
Proof.
  intros Hl Hm Hp Hq Heq.
  destruct (net_policy_shape _ _ Hl Hp) as [(lp & Lm & Lp & ->)|(lm & Lm & _ & Ld & Lp & ->)],
    (net_policy_shape _ _ Hm Hq) as [(mp & Mm & Mp & ->)|(mm & Mm & _ & Md & Mp & ->)].
  - assert (canon (JList l.(l_net_allow_domains)) = canon (JList m.(l_net_allow_domains))) as Hd.
    { eapply (canon_member _ _ "proxy" _ _ _ _ Heq eq_refl eq_refl). Unshelve. all: literal_keys. }
    assert (canon (JList (map JInt lp)) = canon (JList (map JInt mp))) as Hports.
    { eapply (canon_member _ _ "ports" _ _ _ _ Heq eq_refl eq_refl). Unshelve. all: literal_keys. }
    apply canon_list in Hd, Hports. rewrite !canon_ints in Hports. split_and!; congruence.
  - done.
  - done.
  - injection Heq as ->. by rewrite Lm, Mm, Ld, Md, Lp, Mp.
Qed.

Lemma compare_digest_true a b : compare_digest a b = Ok true → a = b.
Proof. unfold compare_digest. destruct (_ && _); [|done]. by intros [= ?%bool_decide_eq_true]. Qed.

Lemma signature_matches_true l :
  signature_matches l = Ok true → ∃ text, canonical_payload l = Ok text ∧ l.(l_signature) = lh_hmac lh_signing_key text.
Proof.
  unfold signature_matches, lease_signature. case_bool_decide; [done|].
  destruct (canonical_payload l) as [text|]; [|done]. cbn. intros Hc%compare_digest_true. eauto.
Qed.

Lemma canonical_payload_Ok l text :
  canonical_payload l = Ok text ↔ ∃ p, net_policy l = Ok p ∧ text = dumps_compact (JDict (payload_with l p)).
Proof.
  unfold canonical_payload. rewrite bind_Ok. setoid_rewrite lease_payload_Ok. naive_solver.
Qed.

(** The text that is signed determines the lease. *)
Lemma same_text l m text :
  policy_shape l → policy_shape m → canonical_payload l = Ok text → canonical_payload m = Ok text → same_terms l m.
Proof.
  intros Hl Hm (p & Hp & ->)%canonical_payload_Ok (q & Hq & Heq)%canonical_payload_Ok.
  apply dumps_compact_inj in Heq. fold (canon (JDict (payload_with l p))) (canon (JDict (payload_with m q))) in Heq.
  destruct (payload_inj _ _ _ _ Heq) as [Hpq Hsame]. destruct (policy_inj _ _ _ _ Hl Hm Hp Hq Hpq) as (? & ? & ?). auto.
Qed.

(** ** What issuing builds *)

Lemma issue_lease_Ok a w l w' :
  issue_lease a w = (Ok l, w') →
  ∃ issued_at base_ttl timeout ceilings write_roots read_roots ports generation id unsigned,
    match a.(ia_now) with Some t => issued_at = t | None => issued_at = (elapse w).(lw_now) end ∧
    match a.(ia_ttl_s) with Some t => base_ttl = t | None => lease_ttl_s = Ok base_ttl end ∧
    timeout_seconds a = Ok timeout ∧ issued_ceilings timeout = Ok ceilings ∧
    clean_roots ((if nonempty a.(ia_workspace_dir) then [a.(ia_workspace_dir)] else []) ++ a.(ia_fs_write_roots)) = Ok write_roots ∧
    clean_roots a.(ia_fs_read_roots) = Ok read_roots ∧ issued_ports a = Ok ports ∧
    match a.(ia_generation) with Some g => generation = g | None => generation = w'.(lw_generation) end ∧
    unsigned = mkLease (JStr id)
      (mkSubject (JStr a.(ia_run_id)) (JStr a.(ia_task_id)) (JStr a.(ia_session_id)))
      (JFloat issued_at) (JFloat (fl_add lh_rnd issued_at (effective_ttl base_ttl ceilings.(ce_wall_s) timeout)))
      (JInt generation) (strs read_roots) (strs write_roots)
      (JStr (issued_net_mode a)) (strs (issued_domains a)) (map JInt ports)
      (strs (issued_capabilities a)) (strs (issued_handles a)) ceilings [] [] (JInt LEASE_VERSION) "" ∧
    id ≠ "" ∧ sign_lease unsigned = Ok l.
Proof.
  unfold issue_lease, lbind, llift, lret, new_lease_id, current_generation, time_time. intros Hi.
  destruct a.(ia_now) as [t|]; cbn [fst snd map_err] in Hi; destruct a.(ia_ttl_s) as [t'|]; cbn [map_err] in Hi;
    repeat (match type of Hi with context [map_err Raised ?m] =>
      let E := fresh "E" in destruct m as [?|] eqn:E; cbn [map_err] in Hi; [|done] end);
    destruct a.(ia_generation) as [g|]; cbn -[sign_lease elapse] in Hi;
    match type of Hi with context [map_err Raised (sign_lease ?u)] =>
      destruct (sign_lease u) as [l'|] eqn:Es; [|done] end;
    injection Hi as -> <-; eexists _, _, _, _, _, _, _, _, _, _; (split_and!; try exact Es; done).
Qed.

Lemma sign_lease_Ok l l' :
  sign_lease l = Ok l' ↔ ∃ text, canonical_payload l = Ok text ∧ l' = l <| l_signature := lh_hmac lh_signing_key text |>.
Proof.
  unfold sign_lease, lease_signature. destruct (canonical_payload l) as [text|]; cbn; [|naive_solver].
  split; [intros [= <-]; eauto|]. by intros (? & [= <-] & ->).
Qed.

Lemma canonical_unsigned l signature : canonical_payload (l <| l_signature := signature |>) = canonical_payload l.
Proof. done. Qed.

Lemma issued_shape a w l w' :
  issue_lease a w = (Ok l, w') →
  policy_shape l ∧ ∃ text, canonical_payload l = Ok text ∧ l.(l_signature) = lh_hmac lh_signing_key text.
Proof.
  intros (i & t & to & ce & wr & rr & ports & g & id & u & _ & _ & _ & _ & _ & _ & Hports & _ & -> & _ & Hs)%issue_lease_Ok.
  apply sign_lease_Ok in Hs as (text & Ht & ->). split; [|exists text; split; [exact Ht|done]].
  unfold issued_ports in Hports. unfold policy_shape, issued_domains. cbn. case_bool_decide as Hm.
  - left. rewrite Hm. split; [done|by exists ports].
  - right. injection Hports as <-. by exists (issued_net_mode a).
Qed.

(** Two different texts with the same digest under the key of the process. *)
Definition digest_collision (x y : string) : Prop := x ≠ y ∧ lh_hmac lh_signing_key x = lh_hmac lh_signing_key y.

(** C17: The signature covers the whole lease.  When a lease validates and carries the signature of a lease this process issued, then either it grants exactly what was issued (identity, window, generation, roots, network policy with its domains and ports, capabilities, handles, ceilings and effect classes), or the signed texts of the two leases are two different texts with the same HMAC: widening any field after issuing takes a collision of the digest.  Nothing is assumed about the digest itself; of the library's number texts, that they determine the number. *)
Theorem signature_covers_lease a w l w1 m now w2 w3 :
  issue_lease a w = (Ok l, w1) → validate_lease m now w2 = (Ok (), w3) → m.(l_signature) = l.(l_signature) →
  same_terms l m ∨
  ∃ tl tm, canonical_payload l = Ok tl ∧ canonical_payload m = Ok tm ∧ digest_collision tl tm.
Proof.
  intros Hi Hv Hs. apply issued_shape in Hi as (Hl & tl & Htl & Sl).
  apply validate_lease_Ok in Hv as (t & w0 & _ & Hf & Hm & _).
  apply signature_matches_true in Hm as (tm & Htm & Sm).
  destruct (decide (tl = tm)) as [<-|Hne].
  - left. apply (same_text l m tl); [done|by apply well_formed_shape, validate_form_wf|done|done].
  - right. exists tl, tm. split_and!; [done..|]. split; [done|]. by rewrite <-Sl, <-Sm.
Qed.
End signature.

(** ** Revocation *)

Section revocation.
Context `{LeaseHost}.

(** Revocation is permanent.  Once the counter of the process has passed the generation of a lease, no sequence of issuing, validating, reading and bumping by any thread makes that lease validate again, at whatever time it is checked. *)
Theorem revoked_lease_dead l g w calls now :
  l.(l_generation) = JInt g → g < w.(lw_generation) →
  (validate_lease l now (run_lease_calls w calls)).1 ≠ Ok ().
Proof.
  intros Hg Hlt Hv. destruct (validate_lease l now (run_lease_calls w calls)) as [r w'] eqn:E. cbn in Hv. subst r.
  pose proof (run_lease_calls_forward w calls) as [Hf _]. pose proof (advances_validate l now (run_lease_calls w calls)) as [Hf' _].
  rewrite E in Hf'. cbn in Hf'. apply validate_lease_Ok in E as (t & w0 & _ & _ & _ & _ & He & _).
  rewrite Hg in He. cbn in He. apply Qeq_bool_iff in He. unfold Qeq in He. cbn in He. lia.
Qed.

(** An issued lease is dead after the next bump, whoever bumps. *)
Lemma bump_revokes_issued a w l w1 calls now w2 :
  issue_lease a w = (Ok l, w1) → a.(ia_generation) = None →
  w2 = run_lease_calls w1 calls → w1.(lw_generation) < w2.(lw_generation) → (validate_lease l now w2).1 ≠ Ok ().
Proof.
  intros Hi Hg -> Hlt. apply issue_lease_Ok in Hi as
    (i & t & to & ce & wr & rr & ports & g & id & u & _ & _ & _ & _ & _ & _ & _ & Hgen & -> & _ & Hs).
  rewrite Hg in Hgen. subst g. apply sign_lease_Ok in Hs as (text & _ & ->).
  apply (revoked_lease_dead _ w1.(lw_generation) _ [] now); done.
Qed.
End revocation.

(** ** Resource limits *)

(** [None] is no bound. *)
Definition bound_le (a b : option Z) : Prop :=
  match a, b with _, None => True | Some x, Some y => x ≤ y | None, Some _ => False end.
Definition tighter (a b : option Z * option Z) : Prop := bound_le a.1 b.1 ∧ bound_le a.2 b.2.

#[export] Instance bound_le_preorder : PreOrder bound_le.
Proof. split; [intros [x|]; cbn; lia|]. intros [x|] [y|] [z|]; cbn; lia. Qed.
#[export] Instance tighter_preorder : PreOrder tighter.
Proof. split; [by intros []|]. intros a b c [] []. by split; etrans. Qed.

Lemma apply_limit_tighter readable accepted lim row r : tighter (apply_limit readable accepted lim row r) (lim r).
Proof.
  destruct row as [[r' soft] hard]. unfold apply_limit. destruct (negb (readable r')); [done|].
  destruct (lim r') as [cs ch] eqn:E. destruct (accepted _ _ _); [|done].
  destruct r', r; try done; rewrite E; split; cbn; unfold at_most; destruct cs, ch; cbn; lia.
Qed.

Lemma preexec_tighter readable accepted plan lim r : tighter (preexec readable accepted plan lim r) (lim r).
Proof.
  revert lim. induction plan as [|row plan IH]; intros lim; [done|].
  etrans; [apply (IH (apply_limit readable accepted lim row))|apply apply_limit_tighter].
Qed.

Lemma apply_limit_applies readable accepted lim r soft hard :
  readable r = true → (∀ s h, accepted r s h = true) →
  tighter (apply_limit readable accepted lim (r, soft, hard) r) (Some soft, Some hard).
Proof.
  intros Hr Ha. unfold apply_limit. rewrite Hr. destruct (lim r) as [cs ch]. rewrite Ha.
  destruct r; split; cbn; unfold at_most; destruct cs, ch; cbn; lia.
Qed.

(** C36: The limits a child runs under only tighten.  Whatever limits it inherits, finite or not, and whichever calls the kernel refuses, the closure leaves soft and hard limits at or below the inherited ones; where the kernel lets it read and set a limit, the result is also at or below what the lease asks for, and no soft limit ends above its hard one. *)
Theorem limits_only_tighten readable accepted plan lim r soft hard :
  tighter (preexec readable accepted plan lim r) (lim r) ∧
  ((r, soft, hard) ∈ plan → readable r = true → (∀ s h, accepted r s h = true) →
   tighter (preexec readable accepted plan lim r) (Some soft, Some hard) ∧
   bound_le (preexec readable accepted plan lim r).1 (preexec readable accepted plan lim r).2).
Proof.
  split; [apply preexec_tighter|]. intros Hin Hr Ha.
  assert (∀ plan lim, bound_le (lim r).1 (lim r).2 →
    bound_le (preexec readable accepted plan lim r).1 (preexec readable accepted plan lim r).2) as Hkeep.
  { clear. induction plan as [|[[r' s] h] plan IH]; intros lim Hl; [done|]. apply (IH (apply_limit _ _ _ _)).
    unfold apply_limit. destruct (negb _); [done|]. destruct (lim r') as [cs ch]. destruct (accepted _ _ _); [|done].
    destruct r', r; try done; cbn; lia. }
  revert lim. induction plan as [|row plan IH]; intros lim; [set_solver|]. apply elem_of_cons in Hin as [<-|Hin].
  - split.
    + etrans; [apply (preexec_tighter _ _ plan (apply_limit readable accepted lim _))|by apply apply_limit_applies].
    + apply (Hkeep plan (apply_limit readable accepted lim _)). unfold apply_limit. rewrite Hr.
      destruct (lim r) as [cs ch]. rewrite Ha. destruct r; cbn; lia.
  - by apply (IH Hin (apply_limit readable accepted lim row)).
Qed.

(** ** Lists without repetition *)

Lemma elem_of_keep_new {A} `{EqDecision A} (kept l : list A) x : x ∈ foldl keep_new kept l ↔ x ∈ kept ∨ x ∈ l.
Proof.
  revert kept. induction l as [|y l IH]; intros kept; cbn; [set_solver|]. rewrite IH. unfold keep_new.
  case_bool_decide; set_solver.
Qed.
Lemma elem_of_unique {A} `{EqDecision A} (l : list A) x : x ∈ unique l ↔ x ∈ l.
Proof. unfold unique. rewrite elem_of_keep_new. set_solver. Qed.
Lemma NoDup_unique {A} `{EqDecision A} (l : list A) : NoDup (unique l).
Proof.
  unfold unique. assert (NoDup (@nil A)) as Hnil by constructor. revert Hnil. generalize (@nil A) as kept.
  induction l as [|y l IH]; intros kept Hk; cbn; [done|]. apply IH. unfold keep_new. case_bool_decide; [done|].
  apply NoDup_app. split_and!; [done| |apply NoDup_singleton]. set_solver.
Qed.

(** ** An issued lease is accepted *)

Definition BIG : Q := inject_Z (2 ^ 40).

Section issued.
Context `{LeaseHost}.
(** What the theorem relies on: a real path is absolute, a hexadecimal digest is not empty
    and ASCII, and doubles of ordinary size add and convert without loss of order. *)
Hypothesis realpath_absolute : ∀ r p, lh_realpath r = Ok p → isabs p = true.
Hypothesis digest_text : ∀ k m, lh_hmac k m ≠ "" ∧ is_ascii (lh_hmac k m) = true.
Hypothesis sum_of_ordinary : ∀ x t, (0 < x)%Q → (x <= BIG)%Q → (1 <= t)%Q → (t <= BIG)%Q →
  ∃ s, lh_rnd (x + t) = Fin s ∧ (x < s)%Q.
Hypothesis int_of_ordinary : ∀ n : Z, (0 <= inject_Z n)%Q → (inject_Z n <= BIG)%Q → ∃ s, lh_rnd (inject_Z n) = Fin s.

(** A request and a configuration of ordinary size, issued at [i]. *)
Record ordinary (a : IssueArgs) (i : Q) : Prop := {
  or_run : a.(ia_run_id) ≠ "";
  or_now : a.(ia_now) = Some (Fin i) ∧ (0 < i)%Q ∧ (i <= BIG)%Q;
  or_ttl : ∃ t, match a.(ia_ttl_s) with Some x => x = Fin t | None => lease_ttl_s = Ok (Fin t) end ∧ (t <= BIG)%Q;
  or_timeout : ∀ x, timeout_seconds a = Ok (Some x) → ∃ q, x = Fin q ∧ (0 <= q)%Q;
  or_ceilings : ∃ c r p w, lease_ceilings = Ok [("cpu_s", Fin c); ("rss_mb", Fin r); ("max_procs", Fin p); ("wall_s", Fin w)] ∧
    (0 <= c)%Q ∧ (0 <= r)%Q ∧ (0 <= p)%Q ∧ (p <= BIG)%Q ∧ (0 <= w)%Q;
  or_proxy : issued_net_mode a = "proxy" → issued_domains a ≠ [] ∧ issued_ports a ≠ Ok [];
}.

Lemma fl_lt_Fin x y : fl_lt (Fin x) (Fin y) = true ↔ (x < y)%Q.
Proof.
  cbn. rewrite negb_true_iff. split.
  - intros Hn. apply Qnot_le_lt. intros Hle%Qle_bool_iff. congruence.
  - intros Hlt. apply not_true_is_false. intros Hle%Qle_bool_iff. by apply Qlt_not_le in Hlt.
Qed.
Lemma fl_lt_Fin_false x y : fl_lt (Fin x) (Fin y) = false ↔ (y <= x)%Q.
Proof.
  rewrite <-not_true_iff_false, fl_lt_Fin. split; [apply Qnot_lt_le|]. intros Hle Hlt. by apply Qlt_not_le in Hlt.
Qed.
Lemma fl_le_Fin_false x y : fl_le (Fin x) (Fin y) = false ↔ (y < x)%Q.
Proof.
  unfold fl_le. rewrite orb_false_iff, fl_lt_Fin_false. cbn. split.
  - intros [Hle Hne%Qeq_bool_neq]. apply Qle_lteq in Hle as [?|E]; [done|]. by destruct Hne.
  - intros Hlt. split; [by apply Qlt_le_weak|]. apply not_true_is_false. intros E%Qeq_bool_iff. rewrite E in Hlt.
    by apply Qlt_irrefl in Hlt.
Qed.

Lemma py_min_below b x : ∃ y, py_min (Fin b) [x] = y ∧ (y = Inf true ∨ ∃ q, y = Fin q ∧ (q <= b)%Q).
Proof.
  eexists. split; [done|]. cbn -[fl_lt]. destruct (fl_lt x (Fin b)) eqn:E.
  - destruct x as [q|[]|]; [|by left|done..]. right. exists q. split; [done|]. by apply Qlt_le_weak, fl_lt_Fin.
  - right. exists b. split; [done|apply Qle_refl].
Qed.

Lemma effective_ttl_bounds b wall timeout :
  (b <= BIG)%Q → ∃ t, effective_ttl (Fin b) wall timeout = Fin t ∧ (1 <= t)%Q ∧ (t <= BIG)%Q.
Proof.
  intros Hb.
  assert (∀ y, y = Inf true ∨ (∃ q, y = Fin q ∧ (q <= BIG)%Q) →
    ∃ t, py_max2 y (fl_int 1) = Fin t ∧ (1 <= t)%Q ∧ (t <= BIG)%Q) as Hmax.
  { intros y [->|(q & -> & Hq)]; [by exists (inject_Z 1)|]. unfold py_max2, fl_int.
    destruct (fl_lt (Fin q) (Fin (inject_Z 1))) eqn:E; [by exists (inject_Z 1)|]. apply fl_lt_Fin_false in E. by exists q. }
  assert (∀ y x, y = Inf true ∨ (∃ q, y = Fin q ∧ (q <= BIG)%Q) →
    py_min y [x] = Inf true ∨ ∃ q, py_min y [x] = Fin q ∧ (q <= BIG)%Q) as Hmin.
  { intros y x [->|(q & -> & Hq)]; [left; by destruct x as [?|[]|]|].
    destruct (py_min_below q x) as (z & -> & [?|(r & -> & Hr)]); [by left|]. right. exists r. split; [done|].
    by apply (Qle_trans _ q). }
  unfold effective_ttl. apply Hmax.
  assert (∀ y, y = Inf true ∨ (∃ q, y = Fin q ∧ (q <= BIG)%Q) →
    match timeout with Some t => py_min y [t] | None => y end = Inf true ∨
    ∃ q, match timeout with Some t => py_min y [t] | None => y end = Fin q ∧ (q <= BIG)%Q) as Ht.
  { intros y Hy. destruct timeout; auto. }
  apply Ht. destruct (fl_lt fl_zero _); [apply Hmin|]; right; by exists b.
Qed.

Lemma inject_nonneg n : 0 ≤ n → (0 <= inject_Z n)%Q.
Proof. intros Hn. change (inject_Z 0 <= inject_Z n)%Q. by rewrite <-Zle_Qle. Qed.

Lemma usable_ceiling_Fin q : (0 <= q)%Q → usable_ceiling (JFloat (Fin q)) = Ok true.
Proof.
  intros Hq. unfold usable_ceiling. change (strict_number (JFloat (Fin q))) with (Some (Fin q)).
  cbn -[fl_lt]. f_equal. apply negb_true_iff. by apply (fl_lt_Fin_false q 0).
Qed.
Lemma usable_ceiling_int n : 0 ≤ n → (inject_Z n <= BIG)%Q → usable_ceiling (JInt n) = Ok true.
Proof.
  intros Hn Hb. unfold usable_ceiling. change (strict_number (JInt n)) with (Some (Fin (inject_Z n))).
  unfold py_isfinite. cbn -[fl_lt inject_Z]. destruct (int_of_ordinary n) as [s Hs]; [by apply inject_nonneg|done|].
  rewrite Hs. cbn -[fl_lt inject_Z]. f_equal. apply negb_true_iff. apply (fl_lt_Fin_false _ 0). by apply inject_nonneg.
Qed.
Lemma usable_time_Fin q : (0 < q)%Q → usable_time (JFloat (Fin q)) = Ok true.
Proof.
  intros Hq. unfold usable_time. change (strict_number (JFloat (Fin q))) with (Some (Fin q)).
  cbn -[fl_le]. change fl_zero with (Fin 0). by rewrite (proj2 (fl_le_Fin_false q 0) Hq).
Qed.

Lemma clean_roots_usable roots l :
  clean_roots roots = Ok l → forallb usable_root (strs l) = true.
Proof.
  unfold clean_roots. rewrite bind_Ok. intros (resolved & Hr & [= <-]).
  apply forallb_forall. intros v (p & <- & Hp)%in_map_iff.
  apply list_elem_of_In, elem_of_unique, list_elem_of_In, filter_In in Hp as [Hp Hne].
  cbn. rewrite Hne. apply traverse_Ok in Hr. apply list_elem_of_In in Hp.
  apply list_elem_of_lookup in Hp as [k Hk]. destruct (Forall2_lookup_r _ _ _ _ _ Hr Hk) as (r & _ & E).
  destruct (lh_realpath r) as [p'|] eqn:Er; [|done]. injection E as ->. by apply realpath_absolute in Er.
Qed.

Lemma clean_ports_usable l ports : clean_ports l = Ok ports → forallb usable_port (map JInt ports) = true.
Proof.
  unfold clean_ports. rewrite bind_Ok. intros (parsed & Hp & [= <-]).
  apply forallb_forall. intros v (n & <- & Hn)%in_map_iff.
  apply list_elem_of_In, elem_of_unique, list_elem_of_omap in Hn as (o & Ho & Hn). cbn in Hn. subst o.
  apply traverse_Ok in Hp. apply list_elem_of_lookup in Ho as [k Hk].
  destruct (Forall2_lookup_r _ _ _ _ _ Hp Hk) as (item & _ & E). cbn.
  destruct (py_int item) as [m|[]]; [|done..]. destruct ((1 <=? m) && (m <=? 65535)) eqn:Em; [|done].
  by injection E as ->.
Qed.

Lemma issued_ports_usable a ports : issued_ports a = Ok ports → forallb usable_port (map JInt ports) = true.
Proof.
  unfold issued_ports. case_bool_decide; [|by intros [= <-]].
  destruct a.(ia_net_allow_ports); [apply clean_ports_usable|].
  rewrite bind_Ok. intros (? & _ & Hc). by apply clean_ports_usable in Hc.
Qed.

Lemma lower_not_space c : is_space c = false → is_space (lower_char c) = false.
Proof.
  assert (forallb (λ c, is_space c || negb (is_space (lower_char c))) all_codes = true) as Hall by by vm_compute.
  rewrite forallb_forall in Hall. specialize (Hall c (proj1 (list_elem_of_In _ _) (all_codes_spec c))).
  intros Hc. rewrite Hc in Hall. by apply negb_true_iff in Hall.
Qed.

Lemma lstrip_head p s c s' : lstrip_by p s = String c s' → p c = false.
Proof. induction s as [|d s IH]; cbn; [done|]. destruct (p d) eqn:E; [exact IH|]. by intros [= <- _]. Qed.
Lemma rstrip_first p c s : p c = false → ∃ s', rstrip_by p (String c s) = String c s'.
Proof. intros Hc. cbn. destruct (rstrip_by p s); rewrite ?Hc; eauto. Qed.

Lemma strip_lower_strip s : lower (strip s) ≠ "" → strip (lower (strip s)) ≠ "".
Proof.
  unfold strip at 1 3, strip_by. intros Hne. destruct (lstrip_by is_space s) as [|c t] eqn:E; [done|].
  pose proof (lstrip_head _ _ _ _ E) as Hc. destruct (rstrip_first is_space c t Hc) as [u ->].
  unfold lower. cbn [map_str]. unfold strip, strip_by.
  rewrite lstrip_by_id; [|intros d x [= <- _]; by apply lower_not_space].
  by destruct (rstrip_first is_space (lower_char c) (map_str lower_char u) (lower_not_space _ Hc)) as [v ->].
Qed.

Lemma issued_domains_named a : issued_domains a ≠ [] → existsb names_domain (strs (issued_domains a)) = true.
Proof.
  intros Hne. destruct (issued_domains a) as [|d l] eqn:E; [done|]. apply existsb_exists. exists (JStr d).
  split; [by left|]. cbn. apply nonempty_true.
  assert (d ∈ issued_domains a) as Hd by (rewrite E; set_solver). unfold issued_domains in Hd.
  case_bool_decide; [|set_solver]. unfold clean_domains in Hd. apply elem_of_unique, list_elem_of_In, filter_In in Hd as [Hd Hn].
  apply in_map_iff in Hd as (x & <- & _). apply nonempty_true in Hn. by apply strip_lower_strip.
Qed.

Lemma issued_mode a : issued_net_mode a ∈ NET_MODES.
Proof. unfold issued_net_mode. case_bool_decide; [done|]. apply list_elem_of_here. Qed.

Lemma py_min_nonneg x y : (0 <= y)%Q → (∀ q, x = Fin q → (0 <= q)%Q) → x ≠ NaN → x ≠ Inf true →
  ∃ q, py_min x [Fin y] = Fin q ∧ (0 <= q)%Q.
Proof.
  intros Hy Hx Hn Hi. cbn -[fl_lt]. destruct (fl_lt (Fin y) x) eqn:E; [by exists y|].
  destruct x as [q|[]|]; [|done..]. exists q. split; [done|]. by apply Hx.
Qed.

Lemma issued_ceilings_usable a i timeout c :
  ordinary a i → timeout_seconds a = Ok timeout → issued_ceilings timeout = Ok c →
  usable_ceiling c.(ce_cpu_s) = Ok true ∧ usable_ceiling c.(ce_rss_mb) = Ok true ∧
  usable_ceiling c.(ce_max_procs) = Ok true ∧ usable_ceiling c.(ce_wall_s) = Ok true.
Proof.
  intros Hor Ht. destruct (or_ceilings _ _ Hor) as (cc & r & p & w & Hc & Hc0 & Hr & Hp & Hpb & Hw).
  unfold issued_ceilings. rewrite Hc. cbn -[fl_lt py_min truncate fl_zero].
  intros [= <-]. cbn -[fl_lt py_min truncate usable_ceiling fl_zero].
  split_and!; [by apply usable_ceiling_Fin..| |].
  - assert (truncate p = Qround.Qfloor p) as Ep.
    { unfold truncate. by rewrite (proj2 (Qle_bool_iff 0 p) Hp). }
    rewrite Ep. apply usable_ceiling_int.
    + change 0 with (Qround.Qfloor (inject_Z 0)). by apply Qround.Qfloor_resp_le.
    + apply Qle_trans with p; [apply Qround.Qfloor_le|done].
  - destruct timeout as [t|]; [|by apply usable_ceiling_Fin].
    destruct (or_timeout _ _ Hor t Ht) as (y & -> & Hy).
    change (usable_ceiling (JFloat (py_min (if fl_lt fl_zero (Fin w) then Fin w else Inf false) [Fin y])) = Ok true).
    destruct (py_min_nonneg (if fl_lt fl_zero (Fin w) then Fin w else Inf false) y Hy) as (q & -> & Hq);
      [by destruct (fl_lt _ _); intros ? [= <-]|by destruct (fl_lt _ _)..|]. by apply usable_ceiling_Fin.
Qed.

Lemma issued_form a i w l w1 :
  ordinary a i → issue_lease a w = (Ok l, w1) →
  ∃ e id, id ≠ "" ∧ l.(l_issued_at) = JFloat (Fin i) ∧ l.(l_expires_at) = JFloat (Fin e) ∧ (i < e)%Q ∧
    validate_form l = Ok () ∧ signature_matches l = Ok true.
Proof.
  intros Hor (at_ & t & to & ce & wr & rr & ports & g & id & u & Hat & Httl & Hto & Hce & Hwr & Hrr & Hports & _ & -> & Hid & Hs)%issue_lease_Ok.
  destruct (or_now _ _ Hor) as (Hn & Hi0 & HiB). rewrite Hn in Hat. subst at_.
  destruct (or_ttl _ _ Hor) as (b & Hb & HbB).
  assert (t = Fin b) as -> by (destruct a.(ia_ttl_s); congruence).
  destruct (effective_ttl_bounds b ce.(ce_wall_s) to HbB) as (d & Hd & Hd1 & HdB).
  destruct (sum_of_ordinary i d) as (e & He & Hie); [done..|].
  apply sign_lease_Ok in Hs as (text & Htext & ->). exists e, id. cbn -[validate_form signature_matches].
  rewrite Hd. cbn -[validate_form signature_matches]. rewrite He. split_and!; [done..| |].
  - destruct (issued_ceilings_usable _ _ _ _ Hor Hto Hce) as (H1 & H2 & H3 & H4).
    unfold validate_form. rewrite !bind_require_Ok, require_true. cbn -[usable_time usable_ceiling later_than fl_add].
    split_and!; try done.
    + f_equal. by apply nonempty_true.
    + f_equal. apply nonempty_true, Hor.
    + by apply usable_time_Fin.
    + apply usable_time_Fin. by apply (Qlt_trans _ i).
    + unfold later_than. cbn -[fl_lt]. f_equal. by apply fl_lt_Fin.
    + f_equal. by eapply clean_roots_usable.
    + f_equal. by eapply clean_roots_usable.
    + f_equal. pose proof (issued_mode a) as Hm. unfold NET_MODES, NET_POLICIES in Hm.
      rewrite !elem_of_cons, elem_of_nil in Hm. by destruct Hm as [->|[->|[->|[]]]].
    + f_equal. case_bool_decide as Em; [apply issued_domains_named; by apply (or_proxy _ _ Hor)|].
      unfold issued_domains. by rewrite bool_decide_eq_false_2.
    + f_equal. case_bool_decide as Em.
      * apply andb_true_iff. split; [|by eapply issued_ports_usable].
        destruct (or_proxy _ _ Hor Em) as [_ Hp]. by destruct ports.
      * unfold issued_ports in Hports. rewrite bool_decide_eq_false_2 in Hports by done. by injection Hports as <-.
  - unfold signature_matches. cbn -[lease_signature]. rewrite bool_decide_eq_false_2 by apply digest_text.
    unfold lease_signature. rewrite canonical_unsigned. rewrite Hd in Htext. cbn [fl_add] in Htext. rewrite He in Htext.
    rewrite Htext. cbn. unfold compare_digest. rewrite (proj2 (digest_text _ _)). cbn. by rewrite bool_decide_eq_true_2.
Qed.

(** Issuing meets what validation asks.  A lease issued for an ordinary request expires after it was issued; from then until it expires it validates, as long as its generation is current, and from its expiry on it is refused as expired, without any grace. *)
Theorem issued_lease_validates a i w l w1 t w2 :
  ordinary a i → issue_lease a w = (Ok l, w1) → (i <= t)%Q → (t <= BIG)%Q →
  l.(l_generation) = JInt (elapse w2).(lw_generation) →
  ∃ e, l.(l_expires_at) = JFloat (Fin e) ∧ (i < e)%Q ∧
    validate_lease l (Some (Fin t)) w2
    = (if Qle_bool e t then Err (LeaseInvalid Expired) else Ok (), elapse w2).
Proof.
  intros Hor Hi Hit HtB Hg. destruct (issued_form _ _ _ _ _ Hor Hi) as (e & id & _ & Hia & He & Hie & Hf & Hs).
  exists e. split_and!; [done..|]. destruct (or_now _ _ Hor) as (_ & Hi0 & _).
  destruct (sum_of_ordinary t (inject_Z 60)) as (s & Hsum & Hts); [by apply (Qlt_le_trans _ i)|done..|].
  unfold validate_lease, lbind, lcheck, lret, current_generation. rewrite Hf, Hs. cbn -[elapse json_eq fl_lt fl_le].
  rewrite Hg, Hia, He. cbn -[elapse fl_lt fl_le CLOCK_SKEW_S].
  rewrite (proj2 (Qeq_bool_iff _ _) (Qeq_refl _)). cbn -[elapse fl_lt fl_le].
  rewrite Hsum, (proj2 (fl_lt_Fin_false s i)); [|apply Qle_trans with t; [done|by apply Qlt_le_weak]].
  destruct (Qle_bool e t) eqn:E; cbn -[elapse fl_le].
  - assert (fl_le (Fin e) (Fin t) = true) as ->; [|done]. apply not_false_iff_true. rewrite fl_le_Fin_false.
    apply Qle_bool_iff in E. by intros ?%Qlt_not_le.
  - rewrite (proj2 (fl_le_Fin_false e t)); [done|]. apply Qnot_le_lt. intros Hle%Qle_bool_iff. congruence.
Qed.
End issued.

(** ** A small host *)

Definition toy_host (hmac : string → string → string) (settings : dict) : LeaseHost := {|
  lh_fin := plain_fin;
  lh_rnd := Fin;
  lh_float_of_text := λ _, None;
  lh_realpath := λ p, Ok (if isabs p then p else "/cwd/" +:+ p);
  lh_hmac := hmac;
  lh_signing_key := "key";
  lh_token_hex := λ _, "00";
  lh_getenv := λ _, None;
  lh_repo_config := "/repo/configs/lease.yaml";
  lh_load := λ _, Ok (JDict [("autonomy_lease", JDict settings)]);
  lh_has_cpu := true;
  lh_has_nproc := true;
|}.
Definition toy_args : IssueArgs :=
  mkIssueArgs "run_1" "task_1" "" "/work" ["/state"; "/work"] [] (Some "codex") (Some 5000) ["github"] ["shell"] []
    (Some "proxy") (Some ["api.example.com"]) (Some [JInt 443]) None (Some (Fin 100)) None.
Definition toy_world : LeaseWorld := mkLeaseWorld (Fin 100) 1 [] 0.
Definition no_lease : Lease :=
  mkLease JNull (mkSubject JNull JNull JNull) JNull JNull JNull [] [] JNull [] [] [] [] (mkCeilings JNull JNull JNull JNull)
    [] [] JNull "".
Definition issued_by (host : LeaseHost) (a : IssueArgs) (w : LeaseWorld) : Lease :=
  match (issue_lease a w).1 with Ok l => l | Err _ => no_lease end.

(** A checksum of key and message, and one digest for all. *)
Definition checksum (k m : string) : string :=
  pretty (foldl (λ h c, (h * 31 + Z.of_nat (code c)) mod 2 ^ 64) 7 (String.list_ascii_of_string (k +:+ m))).
Definition checked_host : LeaseHost := toy_host checksum [].
Definition flat_host : LeaseHost := toy_host (λ _ _, "5f") [].

Lemma signature_covers_lease_witness :
  let l := issued_by checked_host toy_args toy_world in
  let m := l <| l_issued_at := JFloat (Fin (200 # 2)) |> in
  l ≠ m ∧ same_terms l m.
Proof.
  intros l m. split; [by vm_compute|].
  destruct (@signature_covers_lease checked_host plain_fin_laws toy_args toy_world l
    (mkLeaseWorld (Fin 100) 1 [] 1) m (Some (Fin 101)) toy_world toy_world) as [H|(tl & tm & Htl & Htm & Hne & _)].
  - vm_compute. reflexivity.
  - vm_compute. reflexivity.
  - vm_compute. reflexivity.
  - exact H.
  - exfalso. apply Hne. assert (@canonical_payload checked_host l = @canonical_payload checked_host m) as E by (vm_compute; reflexivity).
    rewrite Htl, Htm in E. injection E as E. exact E.
Defined.

(** Under a digest that maps everything to one value a widened lease does validate: the collision is what it takes. *)
Example flat_digest_covers_nothing :
  let l := issued_by flat_host toy_args toy_world in
  let m := l <| l_fs_write_roots := [JStr "/"] |> in
  (@validate_lease flat_host m (Some (Fin 101)) toy_world).1 = Ok () ∧ m.(l_signature) = l.(l_signature).
Proof. by vm_compute. Qed.

Lemma revoked_lease_dead_witness :
  let l := issued_by flat_host toy_args toy_world in
  (@validate_lease flat_host l (Some (Fin 101)) toy_world).1 = Ok () ∧
  (@validate_lease flat_host l (Some (Fin 101)) (@run_lease_calls flat_host (bump_generation toy_world).2 [CallTime; CallBump])).1 ≠ Ok ().
Proof.
  intros l. split; [by vm_compute|]. apply (@revoked_lease_dead flat_host l 1); by vm_compute.
Defined.

Lemma limits_only_tighten_witness :
  let lim : limits := λ r, match r with RLIMIT_CPU => (Some 100, Some 1000) | RLIMIT_NPROC => (None, None) end in
  let lim' := preexec (λ _, true) (λ _ _ _, true) [(RLIMIT_CPU, 1800, 1805); (RLIMIT_NPROC, 64, 64)] lim in
  lim' RLIMIT_CPU = (Some 100, Some 1000) ∧ lim' RLIMIT_NPROC = (Some 64, Some 64) ∧
  tighter (lim' RLIMIT_NPROC) (Some 64, Some 64).
Proof.
  intros lim lim'. split_and!; [done|done|].
  apply (limits_only_tighten (λ _, true) (λ _ _ _, true) [(RLIMIT_CPU, 1800, 1805); (RLIMIT_NPROC, 64, 64)] lim RLIMIT_NPROC 64 64);
    [set_solver|done|done].
Defined.

Lemma toy_ordinary : @ordinary flat_host toy_args 100.
Proof.
  split; try done.
  - exists (inject_Z 3600). by split; vm_compute.
  - intros x. vm_compute. intros [= <-]. eexists. by split; vm_compute.
  - exists 0%Q, 0%Q, 0%Q, 0%Q. by split_and!; vm_compute.
Qed.

Lemma issued_lease_validates_witness :
  let l := issued_by flat_host toy_args toy_world in
  ∃ e, l.(l_expires_at) = JFloat (Fin e) ∧ (100 < e)%Q ∧
    @validate_lease flat_host l (Some (Fin 104)) toy_world = (Ok (), toy_world).
Proof.
  intros l.
  destruct (@issued_lease_validates flat_host) with (a := toy_args) (i := 100%Q) (w := toy_world) (l := l)
    (w1 := mkLeaseWorld (Fin 100) 1 [] 1) (t := 104%Q) (w2 := toy_world) as (e & He & Hlt & Hv).
  - intros r p [= <-]. by destruct (isabs r) eqn:E.
  - by intros k m.
  - intros x t Hx _ Ht _. exists (x + t)%Q. split; [done|]. rewrite <-(Qplus_0_r x) at 1. apply Qplus_lt_r.
    by apply (Qlt_le_trans _ 1).
  - intros n _ _. by eexists.
  - exact toy_ordinary.
  - vm_compute. reflexivity.
  - done.
  - done.
  - vm_compute. reflexivity.
  - exists e. split_and!; [done..|]. rewrite Hv. f_equal. vm_compute in He. injection He as <-. by vm_compute.
Defined.

(** A ceiling the file spells as an integer beyond the doubles escapes the settings, which
    are documented never to raise, and an infinite port escapes the list of ports. *)
Definition small_doubles : Q → float := λ q, if Qle_bool (2 ^ 1024) q then Inf false else Fin q.
Definition double_host (settings : dict) : LeaseHost :=
  let h := toy_host (λ _ _, "5f") settings in
  {| lh_fin := h.(lh_fin); lh_rnd := small_doubles; lh_float_of_text := h.(lh_float_of_text); lh_realpath := h.(lh_realpath);
     lh_hmac := h.(lh_hmac); lh_signing_key := h.(lh_signing_key); lh_token_hex := h.(lh_token_hex); lh_getenv := h.(lh_getenv);
     lh_repo_config := h.(lh_repo_config); lh_load := h.(lh_load); lh_has_cpu := true; lh_has_nproc := true |}.
Example huge_ceiling_raises :
  @lease_ceilings (double_host [("ceilings", JDict [("cpu_s", JInt (10 ^ 400))])]) = Err OverflowError.
Proof. by vm_compute. Qed.
Example infinite_port_raises :
  @lease_proxy_ports (double_host [("net", JDict [("allow_ports", JList [JFloat (Inf false)])])]) = Err OverflowError.
Proof. by vm_compute. Qed.

(** A ceiling of half a process is configured, positive, and leaves no limit at all. *)
Example half_process_is_unlimited :
  let host := double_host [("ceilings", JDict [("max_procs", JFloat (Fin (1 # 2)))])] in
  @issued_ceilings host None = Ok (mkCeilings (JFloat (Fin 0)) (JFloat (Fin 0)) (JInt 0) (JFloat (Fin 0))).
Proof. by vm_compute. Qed.

(** The floor of one second lets a lease outlive the time budget of its process. *)
Example lease_outlives_budget :
  let a := mkIssueArgs "r" "" "" "/w" [] [] None (Some 200) [] [] [] None None None None (Some (Fin 100)) None in
  (issued_by flat_host a toy_world).(l_expires_at) = JFloat (Fin 101).
Proof. by vm_compute. Qed.
