(* ===== verification/LeaseLaunchSpec.v ===== *)
(** * LeaseLaunchSpec: theorems about leased launches, their audit trail and their proxy *)

From Stdlib Require Import Ascii QArith.
From stdpp Require Import pretty.
From S2P Require Import Prelude PyString PyPath PyJson JsonText Records Lease LeaseProxy LeaseLaunch LeaseSpec.
Open Scope Z_scope.

Section run.
Context `{LaunchEnv}.

Lemma pbind_Ok {A B} (m : launch_m A) (f : A → launch_m B) s b s' :
  pbind m f s = (Ok b, s') ↔ ∃ a s1, m s = (Ok a, s1) ∧ f a s1 = (Ok b, s').
Proof. unfold pbind. destruct (m s) as [[a|e] s1]; naive_solver. Qed.
Lemma on_lease_Ok {A} (m : lease_m A) s a s' :
  on_lease m s = (Ok a, s') ↔ ∃ w, m s.(la_lease) = (Ok a, w) ∧ s' = s <| la_lease := w |>.
Proof. unfold on_lease. destruct (m s.(la_lease)) as [[x|e] w]; naive_solver. Qed.
Lemma attempt_Ok {A} (m : launch_m A) s r s' : attempt m s = (Ok r, s') → m s = (r, s').
Proof. unfold attempt. destruct (m s). naive_solver. Qed.
Lemma plift_Ok {A} (m : result cast_error A) s a s' : plift m s = (Ok a, s') ↔ m = Ok a ∧ s' = s.
Proof. unfold plift. destruct m; naive_solver. Qed.

(** ** The clock goes on, the listeners stay *)

(** What every step of a launch keeps, apart from starting and closing the proxy. *)
Definition quiet (s s' : Launch) : Prop :=
  forward s.(la_lease) s'.(la_lease) ∧ s'.(la_open) = s.(la_open) ∧ s'.(la_starts) = s.(la_starts).
#[export] Instance quiet_preorder : PreOrder quiet.
Proof. split; [by intros s; split_and!|]. intros s1 s2 s3 (? & ? & ?) (? & ? & ?). split_and!; [by etrans|congruence..]. Qed.
Definition quietly {A} (m : launch_m A) : Prop := ∀ s, quiet s (m s).2.

Lemma quietly_ret {A} (a : A) : quietly (pret a).
Proof. intros s. done. Qed.
Lemma quietly_raise {A} e : quietly (λ s, (@Err launch_exn A e, s)).
Proof. intros s. done. Qed.
Lemma quietly_lift {A} (m : result cast_error A) : quietly (plift m).
Proof. intros s. done. Qed.
Lemma quietly_bind {A B} (m : launch_m A) (f : A → launch_m B) : quietly m → (∀ a, quietly (f a)) → quietly (pbind m f).
Proof.
  intros Hm Hf s. unfold pbind. specialize (Hm s). destruct (m s) as [[a|e] s']; [|done].
  etrans; [exact Hm|]. apply Hf.
Qed.
Lemma quietly_attempt {A} (m : launch_m A) : quietly m → quietly (attempt m).
Proof. intros Hm s. unfold attempt. specialize (Hm s). by destruct (m s). Qed.
Lemma quietly_lease {A} (m : lease_m A) : advances m → quietly (on_lease m).
Proof. intros Hm s. unfold on_lease. specialize (Hm s.(la_lease)). by destruct (m s.(la_lease)). Qed.
Lemma quietly_append : quietly next_append.
Proof. intros s. done. Qed.
Lemma quietly_file path content : quietly (set_file path content).
Proof. intros s. done. Qed.
Lemma quietly_read path : quietly (read_file path).
Proof. intros s. done. Qed.
End run.

Create HintDb launch.
#[export] Hint Resolve quietly_ret quietly_raise quietly_lift quietly_attempt quietly_lease quietly_append quietly_file
  quietly_read advances_time advances_issue advances_validate advances_remaining : launch.
Ltac quieten := repeat first
  [ solve [eauto with launch] | apply quietly_bind; [|intros ?] | case_match ].

Lemma quietly_append_record `{LaunchEnv} l event mode extra : quietly (append_lease_record l event mode extra).
Proof. unfold append_lease_record. quieten. Qed.
#[export] Hint Resolve quietly_append_record : launch.
Lemma quietly_record `{LaunchEnv} l event mode extra : quietly (record_event l event mode extra).
Proof. unfold record_event. quieten. Qed.
Lemma quietly_remaining `{LaunchEnv} l : quietly (remaining_ms l).
Proof. unfold remaining_ms. quieten. Qed.
#[export] Hint Resolve quietly_record quietly_remaining : launch.
Lemma quietly_confirm `{LaunchEnv} p : quietly (confirm_at_spawn p).
Proof. unfold confirm_at_spawn. quieten. Qed.

Lemma record_event_Ok `{LaunchEnv} l event mode extra s :
  ∃ s', record_event l event mode extra s = (Ok (), s') ∧ quiet s s'.
Proof.
  exists (record_event l event mode extra s).2. split; [|apply quietly_record].
  unfold record_event, pbind, attempt. by destruct (append_lease_record _ _ _ _ _).
Qed.

Lemma record_then `{LaunchEnv} {A} l event mode extra (k : () → launch_m A) s r s' :
  (let+ u := record_event l event mode extra in k u) s = (r, s') → ∃ s1, quiet s s1 ∧ k () s1 = (r, s').
Proof.
  destruct (record_event_Ok l event mode extra s) as (s1 & E & Hq). unfold pbind at 1. rewrite E. eauto.
Qed.

(** ** What a plan is *)

Section plans.
Context `{LaunchEnv}.

(** The plan a launch is driven by under enforcement. *)
Record driven_by (a : LaunchArgs) (l : Lease) (p : LaunchPlan) : Prop := {
  db_mode : p.(lp_mode) = LeaseEnforce;
  db_lease : p.(lp_lease) = Some l;
  db_roots : p.(lp_write_roots) = Some l.(l_fs_write_roots);
  db_net : p.(lp_net_mode) = l.(l_net_mode);
  db_denies : p.(lp_write_deny_literals) = [lease_config_path];
  db_limits : make_preexec l.(l_ceilings) = Ok p.(lp_preexec_fn);
  db_timeout : ∃ t, p.(lp_timeout_ms) = Some t ∧ 1 ≤ t ∧ t ≤ Z.max 1 a.(pa_timeout_ms);
  db_wrap : le_wrap_available a.(pa_argv) a.(pa_working_dir) = true;
  db_proxy : match p.(lp_proxy) with
             | Some px => p.(lp_net_loopback_ports) = [proxy_port px] ∧ p.(lp_env_additions) = proxy_env (proxy_url px)
             | None => p.(lp_net_loopback_ports) = [] ∧ p.(lp_env_additions) = [] ∧ l.(l_net_mode) ≠ JStr "proxy"
             end;
}.

(** The listener a plan leaves behind is its own. *)
Definition leaves_open (s s' : Launch) (p : LaunchPlan) : Prop :=
  s'.(la_open) = match p.(lp_proxy) with Some px => proxy_port px :: s.(la_open) | None => s.(la_open) end.

Lemma start_proxy_cases l s r s' :
  start_proxy l s = (r, s') →
  s'.(la_lease) = s.(la_lease) ∧
  match r with
  | Ok (Some px) => s'.(la_open) = proxy_port px :: s.(la_open)
  | Ok None => s'.(la_open) = s.(la_open)
  | Err e => e = RuntimeError
  end.
Proof. unfold start_proxy. destruct (le_start _); intros [= <- <-]; done. Qed.

Lemma enforce_plan_Ok a l report s p s' :
  enforce_plan a l report s = (Ok p, s') →
  forward s.(la_lease) s'.(la_lease) ∧ leaves_open s s' p ∧
  ((∃ r, p = refused_plan LeaseEnforce (Some l) r) ∨ (p.(lp_refusal) = None ∧ driven_by a l p)).
Proof.
  unfold enforce_plan. destruct (le_wrap_available _ _) eqn:Ew; cbn [negb].
  2: { intros (s1 & (Hf & Ho & _) & [= <- <-])%record_then. split_and!; [done..|]. left. by eexists. }
  intros (remaining & s1 & Hr & (limits & s2 & (Hl & ->)%plift_Ok & (px & s3 & Hp & Hk)%pbind_Ok)%pbind_Ok)%pbind_Ok.
  pose proof (quietly_remaining l s) as (Hf1 & Ho1 & _). rewrite Hr in Hf1, Ho1. cbn in Hf1, Ho1.
  destruct (json_eq l.(l_net_mode) (JStr "proxy")) eqn:Em.
  - destruct (start_proxy_cases _ _ _ _ Hp) as [El Eo]. destruct px as [px|].
    + apply record_then in Hk as (s4 & (Hf & Ho & _) & [= <- <-]).
      split_and!; [by rewrite <-El in Hf1; etrans|unfold leaves_open; cbn; congruence|]. right. split; [done|].
      split; try done. eexists. split; [done|]. split; lia.
    + apply record_then in Hk as (s4 & (Hf & Ho & _) & [= <- <-]).
      split_and!; [by rewrite <-El in Hf1; etrans|unfold leaves_open; cbn; congruence|]. left. by eexists.
  - injection Hp as <- <-. apply record_then in Hk as (s4 & (Hf & Ho & _) & [= <- <-]).
    split_and!; [by etrans|unfold leaves_open; cbn; congruence|]. right. split; [done|]. split; try done.
    + eexists. split; [done|]. split; lia.
    + cbn. split_and!; [done..|]. intros E. by rewrite (proj2 (json_eq_str _ _) E) in Em.
Qed.

Lemma plan_launch_enforcing a s p s' :
  lease_mode = LeaseEnforce → plan_launch a s = (Ok p, s') →
  forward s.(la_lease) s'.(la_lease) ∧ leaves_open s s' p ∧
  ((∃ l r, p = refused_plan LeaseEnforce l r) ∨
   (p.(lp_refusal) = None ∧ ∃ l, (issue_lease (issue_args a) s.(la_lease)).1 = Ok l ∧ driven_by a l p)).
Proof.
  intros Hm. unfold plan_launch. rewrite Hm. cbn [bool_decide decide_rel].
  rewrite bool_decide_eq_false_2, bool_decide_eq_true_2 by done.
  intros (issued & s1 & Hi & Hk)%pbind_Ok. apply attempt_Ok in Hi.
  pose proof (quietly_lease _ (advances_issue (issue_args a)) s) as Hq1.
  rewrite Hi in Hq1. destruct Hq1 as (Hf1 & Ho1 & _). cbn in Hf1, Ho1.
  destruct issued as [l|e]; [|injection Hk as <- <-; split_and!; [done..|]; left; eauto].
  assert ((issue_lease (issue_args a) s.(la_lease)).1 = Ok l) as Hl.
  { apply on_lease_Ok in Hi as (w & -> & _). done. }
  apply pbind_Ok in Hk as (checked & s2 & Hc & Hk). apply attempt_Ok in Hc.
  pose proof (quietly_lease _ (advances_validate l None) s1) as Hq2.
  rewrite Hc in Hq2. destruct Hq2 as (Hf2 & Ho2 & _). cbn in Hf2, Ho2.
  destruct checked as [[]|[[r|e]|]]; [|..|done|done].
  - apply pbind_Ok in Hk as (report & s3 & (Hr & ->)%plift_Ok & Hk).
    apply enforce_plan_Ok in Hk as (Hf & Ho & Hcases). split_and!.
    + etrans; [exact Hf1|]. by etrans.
    + unfold leaves_open in *. by rewrite Ho, Ho2, Ho1.
    + destruct Hcases as [[r ->]|[Hn Hd]]; [left; eauto|right; eauto].
  - apply record_then in Hk as (s3 & (Hf & Ho & _) & [= <- <-]). split_and!.
    + etrans; [exact Hf1|]. by etrans.
    + unfold leaves_open. cbn. congruence.
    + left. eauto.
Qed.

Lemma confirm_Ok p l s d s' :
  p.(lp_lease) = Some l → p.(lp_mode) = LeaseEnforce → confirm_at_spawn p s = (Ok (None, d), s') →
  ∃ w1 rest, validate_lease l None s.(la_lease) = (Ok (), w1) ∧ forward w1 s'.(la_lease) ∧
    remaining_seconds l None w1 = (Ok rest, s'.(la_lease)) ∧
    ∃ ms, py_int (JFloat (fl_mul rest 1000)) = Ok ms ∧ 0 < ms ∧
      d = Some (Z.max 1 (Z.min (default ms p.(lp_timeout_ms)) ms)).
Proof.
  intros Hl Hm. unfold confirm_at_spawn. rewrite Hl, Hm.
  intros (checked & s1 & Hc%attempt_Ok & Hk)%pbind_Ok.
  destruct checked as [[]|[[r|e]|]]; [|by apply record_then in Hk as (? & _ & [= ])|done|done].
  apply on_lease_Ok in Hc as (w1 & Hc & ->).
  apply pbind_Ok in Hk as (ms & s2 & Hr & Hk). unfold remaining_ms in Hr.
  apply pbind_Ok in Hr as (rest & s3 & (w2 & Hr & ->)%on_lease_Ok & (Hms & ->)%plift_Ok).
  destruct (ms <=? 0) eqn:E; [by apply record_then in Hk as (? & _ & [= ])|]. apply Z.leb_gt in E.
  injection Hk as <- <-. pose proof (advances_remaining l None w1) as Hf. exists w1, rest.
  change ((_ <| la_lease := w1 |>).(la_lease)) with w1 in Hr. rewrite Hr in Hf. by split_and!; [..|exists ms].
Qed.

(** C6: A process starts under enforcement only with its lease alive.  However the clock moves, whoever bumps the generation and whatever the disk and the listener do meanwhile: when the caller starts the process, a lease was issued for this very launch, and after all preparation, at a time [t] read then, the lease was well formed; its signature was the HMAC of its whole signed text under the key of the process; its generation was the current one; [t] was before its expiry and no more than the allowed skew of sixty seconds before its issue; and afterwards it had time left.  The process runs in the write roots and the network mode of the lease, cannot write the file that configures leases, gets the lease's resource limits, and its timeout is at least one millisecond, at most the one requested and at most what the lease has left. *)
Theorem spawn_is_authorized i s sp s' :
  lease_mode = LeaseEnforce → 1 ≤ i.(iv_timeout_ms) → invoke i s = (Ok (Spawned sp), s') →
  ∃ l w w0 t w1 rest ms text,
    (issue_lease (issue_args (launch_args i)) s.(la_lease)).1 = Ok l ∧
    forward s.(la_lease) w ∧ time_time w = (Ok t, w0) ∧ w1 = elapse w0 ∧
    well_formed l ∧
    canonical_payload l = Ok text ∧ l.(l_signature) = lh_hmac lh_signing_key text ∧
    json_eq l.(l_generation) (JInt w1.(lw_generation)) = true ∧
    fl_le (time_of l.(l_expires_at)) t = false ∧
    fl_lt (fl_add lh_rnd t (fl_int 60)) (time_of l.(l_issued_at)) = false ∧
    remaining_seconds l None w1 = (Ok rest, s'.(la_lease)) ∧ py_int (JFloat (fl_mul rest 1000)) = Ok ms ∧
    1 ≤ sp.(sp_timeout_ms) ∧ sp.(sp_timeout_ms) ≤ ms ∧ sp.(sp_timeout_ms) ≤ i.(iv_timeout_ms) ∧
    sp.(sp_command) = i.(iv_command) ∧ le_wrap_available i.(iv_command) i.(iv_working_dir) = true ∧
    sp.(sp_write_roots_override) = Some l.(l_fs_write_roots) ∧ sp.(sp_net_mode) = l.(l_net_mode) ∧
    sp.(sp_write_deny_literals) = [lease_config_path] ∧ make_preexec l.(l_ceilings) = Ok sp.(sp_preexec) ∧
    (l.(l_net_mode) = JStr "proxy" → ∃ port url, sp.(sp_net_loopback_ports) = [port] ∧ sp.(sp_env_additions) = proxy_env url).
Proof.
  intros Hm Ht. unfold invoke, lease_active, lease_enabled. rewrite Hm, bool_decide_eq_false_2 by done. cbn [negb].
  intros (plan & s1 & Hp & Hk)%pbind_Ok.
  destruct (plan_launch_enforcing _ _ _ _ Hm Hp) as (Hf & _ & [(l & r & ->)|(Hn & l & Hl & Hd)]); [done|].
  unfold closing in Hk. rewrite Hn in Hk.
  match type of Hk with (let '(_, _) := ?m s1 in _) = _ => destruct (m s1) as [res s2] eqn:E end.
  injection Hk as -> Es'. apply pbind_Ok in E as ([[r|] d] & s3 & Hc & E); [done|].
  destruct (confirm_Ok _ _ _ _ _ (db_lease _ _ _ Hd) (db_mode _ _ _ Hd) Hc) as (w1 & rest & Hv & _ & Hr & ms & Hms & Hpos & ->).
  apply validate_lease_Ok in Hv as (t & w0 & Hnow & Hform & (text & Htext & Hsig)%signature_matches_true & -> & Hgen & Hskew & Hexp).
  unfold popen in E. destruct le_popen; [|done]. injection E as <- <-.
  assert (s'.(la_lease) = s3.(la_lease)) as El by (rewrite <-Es'; unfold close_plan; by destruct plan.(lp_proxy)).
  destruct (db_timeout _ _ _ Hd) as (tm & Et & Ht1 & Htmax). cbn in Htmax.
  exists l, s1.(la_lease), w0, t, (elapse w0), rest, ms, text. cbn -[fl_le fl_lt fl_add]. rewrite Et, El. cbn -[fl_le fl_lt fl_add].
  split_and!; try done; try lia; try apply Hd; try apply (db_roots _ _ _ Hd); try apply (db_wrap _ _ _ Hd).
  - by apply validate_form_wf.
  - intros Hpx. pose proof (db_proxy _ _ _ Hd) as Hdp. destruct plan.(lp_proxy) as [px|]; [|by destruct Hdp as (_ & _ & [])].
    destruct Hdp as [-> ->]. eauto.
Qed.
End plans.

(** ** Without enforcement nothing changes *)

Section inert.
Context `{LaunchEnv}.
(** A hexadecimal digest is ASCII and not empty; the whole part of a configured double is
    a double. *)
Hypothesis digest_text : ∀ k m, lh_hmac k m ≠ "" ∧ is_ascii (lh_hmac k m) = true.
Hypothesis whole_doubles : ∀ c q, lease_ceilings = Ok c → dict_get "max_procs" c = Some (Fin q) →
  ∃ x, lh_rnd (inject_Z (truncate q)) = Fin x.

Definition settled (r : result lease_exn ()) : Prop := ∀ e, r ≠ Err (Raised e).

Lemma settled_require r m (k : () → result lease_exn ()) :
  (∃ b, m = Ok b) → settled (k ()) → settled (require r m ≫= k).
Proof. intros [[] ->] Hk; [exact Hk|]. by intros e. Qed.
Lemma settled_last r m : (∃ b, m = Ok b) → settled (require r m).
Proof. by intros [[] ->] e. Qed.

Definition settles {A} (m : lease_m A) : Prop := ∀ w e, (m w).1 ≠ Err (Raised e).
Lemma settled_bind {A B} (m : lease_m A) (f : A → lease_m B) :
  settles m → (∀ a, settles (f a)) → settles (lbind m f).
Proof.
  intros Hm Hf w. unfold lbind. specialize (Hm w). destruct (m w) as [[a|e] w']; [apply Hf|].
  intros e' [= ->]. by apply (Hm e').
Qed.
Lemma settled_check r : settled r → settles (lcheck r).
Proof. by intros Hr w. Qed.

Lemma usable_time_float x : ∃ b, usable_time (JFloat x) = Ok b.
Proof. unfold usable_time. cbn -[fl_le]. destruct (fl_le x fl_zero); eauto. Qed.
Lemma usable_ceiling_float x : ∃ b, usable_ceiling (JFloat x) = Ok b.
Proof. unfold usable_ceiling. cbn. eauto. Qed.

Lemma issued_ceilings_shape timeout c :
  issued_ceilings timeout = Ok c →
  ∃ cpu rss procs wall, c = mkCeilings (JFloat cpu) (JFloat rss) (JInt procs) (JFloat wall) ∧
    ∃ x, lh_rnd (inject_Z procs) = Fin x.
Proof.
  unfold issued_ceilings. destruct lease_ceilings as [configured|] eqn:Ec; [|done].
  cbn -[py_int py_min fl_lt]. destruct (py_int (JFloat (default fl_zero (dict_get "max_procs" configured)))) as [n|] eqn:Ep; [|done].
  cbn -[py_min fl_lt]. intros [= <-]. eexists _, _, n, _. split; [done|].
  destruct (dict_get "max_procs" configured) as [[q| |]|] eqn:Eg; cbn in Ep; try done.
  - injection Ep as <-. by apply (whole_doubles configured).
  - injection Ep as <-. unfold lease_ceilings in Ec. apply traverse_Ok in Ec.
    exfalso. revert Ec Eg. unfold CEILING_KEYS. intros Hall.
    do 4 (apply Forall2_cons_inv_l in Hall as ([? ?] & ? & ? & Hall & ->)). apply Forall2_nil_inv_l in Hall as ->.
    repeat match goal with
    | E : (positive_float ?v ≫= _) = Ok _ |- _ => destruct (positive_float v) as [?|]; [cbn in E; injection E as <- <-|done]
    end. done.
Qed.

Lemma issued_validation_settles a w l w' now w2 :
  issue_lease a w = (Ok l, w') → settled (validate_lease l now w2).1.
Proof.
  intros (i & t & to & ce & wr & rr & ports & g & id & u & _ & _ & _ & Hce & _ & _ & Hports & _ & -> & _ & Hs)%issue_lease_Ok.
  apply issued_ceilings_shape in Hce as (cpu & rss & procs & wall & -> & x & Hx).
  apply sign_lease_Ok in Hs as (text & Ht & ->).
  match goal with |- settled (validate_lease ?m _ _).1 => set (l := m) end.
  assert (settled (validate_form l)) as Hf.
  { unfold validate_form. repeat (apply settled_require; [first [by eexists|apply usable_time_float|apply usable_ceiling_float|idtac]|]);
      [|apply settled_last; by eexists].
    unfold usable_ceiling, py_isfinite. cbn -[inject_Z]. rewrite Hx. cbn. by eexists. }
  assert (∃ b, signature_matches l = Ok b) as [b Hb].
  { unfold signature_matches, lease_signature. subst l. rewrite canonical_unsigned, Ht. cbn.
    rewrite bool_decide_eq_false_2 by apply digest_text. unfold compare_digest.
    rewrite (proj2 (digest_text _ _)). cbn. eauto. }
  assert (settles (validate_lease l now)) as Hs; [|exact (Hs w2)]. unfold validate_lease.
  repeat first
    [ apply settled_bind; [|intros ?] | apply settled_check | exact Hf | by destruct now
    | rewrite Hb; by apply settled_last; eexists | apply settled_last; by eexists | by intros ? ].
Qed.

Lemma number_int v q : number_is v q → is_positive v = Ok (fl_lt fl_zero (Fin q)) ∧ ∃ n, py_int v = Ok n.
Proof. by destruct v as [| |n|x| | |]; try done; intros [= E]; subst; split; eauto. Qed.

Lemma limit_report_Ok c :
  (∀ v, v ∈ [c.(ce_cpu_s); c.(ce_rss_mb); c.(ce_max_procs); c.(ce_wall_s)] → ∃ q, number_is v q ∧ (0 <= q)%Q) →
  ∃ report, limit_report c = Ok report.
Proof.
  intros Hc.
  assert (∀ v has f g, v ∈ [c.(ce_cpu_s); c.(ce_rss_mb); c.(ce_max_procs); c.(ce_wall_s)] →
    (∀ n, py_int v = Ok n → ∃ t, f v = Ok t) → (∃ t, g v = Ok t) → ∃ t, report_limit v has f g = Ok t) as Hrep.
  { intros v has f g Hv Hf [t Hg]. destruct (Hc v Hv) as (q & Hq & _). destruct (number_int v q Hq) as [Hp [n Hn]].
    unfold report_limit. rewrite Hp. destruct (Hf n Hn) as [u Hu]. cbn -[fl_lt]. rewrite Hu, Hg.
    destruct (fl_lt _ _), has; eauto. }
  unfold limit_report.
  do 3 match goal with |- ∃ r, report_limit ?v ?has ?f ?g ≫= _ = _ =>
    destruct (Hrep v has f g) as [? ->]; [set_solver|by intros n ->; eexists|by eexists|]; cbn [mbind result_mbind] end.
  match goal with |- ∃ r, report_limit ?v ?has ?f ?g ≫= _ = _ =>
    destruct (Hrep v has f g) as [? ->]; [set_solver|by eexists..|] end.
  by eexists.
Qed.

Lemma shadow_plan a s : lease_mode = LeaseShadow → ∃ s', plan_launch a s = (Ok (no_op_plan LeaseShadow), s') ∧ quiet s s'.
Proof.
  intros Hm. unfold plan_launch. rewrite Hm, !bool_decide_eq_false_2 by done.
  pose proof (quietly_lease _ (advances_issue (issue_args a)) s) as Hq1.
  unfold pbind at 1, attempt at 1. destruct (on_lease _ s) as [[l|e] s1] eqn:Ei; [|by exists s1].
  apply on_lease_Ok in Ei as (w & Ei & Es1).
  unfold pbind at 1, attempt. pose proof (quietly_lease _ (advances_validate l None) s1) as Hq2.
  destruct (on_lease (validate_lease l None) s1) as [[[]|[[r|e]|]] s2] eqn:Ev; cbn in Hq1, Hq2.
  - apply on_lease_Ok in Ev as (w2 & Ev & _). apply validate_lease_Ok in Ev as (t & w0 & _ & Hf & _).
    destruct (limit_report_Ok _ (wf_ceilings _ (validate_form_wf _ Hf))) as [report Hr].
    unfold pbind at 1, plift. rewrite Hr. cbn [map_err].
    match goal with |- ∃ s', (let+ u := record_event ?l ?e ?m ?x in _) _ = _ ∧ _ =>
      destruct (record_event_Ok l e m x s2) as (s3 & E & Hq3) end.
    exists s3. unfold pbind. rewrite E. split; [done|]. etrans; [exact Hq1|]. by etrans.
  - match goal with |- ∃ s', (let+ u := record_event ?l ?e ?m ?x in _) _ = _ ∧ _ =>
      destruct (record_event_Ok l e m x s2) as (s3 & E & Hq3) end.
    exists s3. unfold pbind. rewrite E. split; [done|]. etrans; [exact Hq1|]. by etrans.
  - exfalso. unfold on_lease in Ev. pose proof (issued_validation_settles _ _ _ _ None s1.(la_lease) Ei e) as Hs.
    destruct (validate_lease l None s1.(la_lease)) as [[[]|e'] w']; cbn in *; congruence.
  - unfold on_lease in Ev. destruct (validate_lease l None s1.(la_lease)) as [[[]|e'] w']; cbn in *; congruence.
Qed.

(** C35: Off and shadow leave every launch as it was.  Unless the mode is enforce, the caller starts exactly the process it would have started without leases, with the same roots, network mode, environment, limits and timeout, whatever happens to issuing, to validation, to the generation and to the ledger, and no proxy is left behind. *)
Theorem inert_unless_enforcing i s :
  lease_mode ≠ LeaseEnforce → ∃ s', invoke i s = (Ok (popen (plain_spawn i)), s') ∧ s'.(la_open) = s.(la_open).
Proof.
  intros Hm. unfold invoke, lease_active, lease_enabled. destruct lease_mode eqn:E; [|..|done].
  - rewrite bool_decide_eq_true_2 by done. by exists s.
  - rewrite bool_decide_eq_false_2 by done. destruct (shadow_plan (launch_args i) s E) as (s1 & Hp & _ & Ho & _).
    exists s1. unfold pbind at 1. cbn [negb]. by rewrite Hp.
Qed.
End inert.

(** ** Listeners *)

Section listeners.
Context `{LaunchEnv}.

(** A step that ends with a plan leaves only the plan's listener. *)
Definition opens (m : launch_m LaunchPlan) : Prop := ∀ s,
  match m s with
  | (Ok p, s') => leaves_open s s' p
  | (Err RuntimeError, _) => True
  | (Err _, s') => s'.(la_open) = s.(la_open)
  end.

Lemma opens_bind {A} (m : launch_m A) (f : A → launch_m LaunchPlan) :
  quietly m → (∀ a, opens (f a)) → opens (pbind m f).
Proof.
  intros Hm Hf s. unfold pbind. specialize (Hm s). destruct (m s) as [[a|e] s1]; destruct Hm as (_ & Ho & _); cbn in Ho.
  - specialize (Hf a s1). unfold leaves_open in *. rewrite Ho in Hf. exact Hf.
  - by destruct e.
Qed.
Lemma opens_ret p : p.(lp_proxy) = None → opens (pret p).
Proof. intros Hp s. unfold leaves_open. cbn. by rewrite Hp. Qed.
Lemma opens_raise e : opens (λ s, (Err e, s)).
Proof. intros s. by destruct e. Qed.

Lemma opens_enforce a l report : opens (enforce_plan a l report).
Proof.
  unfold enforce_plan. destruct (negb _).
  { apply opens_bind; [eauto with launch|]. intros _. by apply opens_ret. }
  apply opens_bind; [eauto with launch|]. intros remaining. apply opens_bind; [eauto with launch|]. intros limits.
  assert (∀ s s0 p event extra, s.(la_open) = match p.(lp_proxy) with Some px => proxy_port px :: s0.(la_open) | None => s0.(la_open) end →
    match (let+ _ := record_event l event LeaseEnforce extra in pret p) s with
    | (Ok p, s') => leaves_open s0 s' p
    | (Err RuntimeError, _) => True
    | (Err _, s') => s'.(la_open) = s0.(la_open)
    end) as Hrec.
  { intros s s0 p event extra Hs. destruct (record_event_Ok l event LeaseEnforce extra s) as (s2 & E & _ & Ho & _).
    unfold pbind. rewrite E. unfold leaves_open. cbn. by rewrite Ho. }
  destruct (json_eq _ _); intros s; [|by apply Hrec].
  unfold pbind at 1. destruct (start_proxy l s) as [r s1] eqn:Es.
  destruct (start_proxy_cases _ _ _ _ Es) as [_ Ho]. destruct r as [[px|]|e]; [by apply Hrec..|by rewrite Ho].
Qed.

Lemma opens_plan a : opens (plan_launch a).
Proof.
  pose proof opens_enforce. unfold plan_launch. case_bool_decide; [by apply opens_ret|].
  apply opens_bind; [eauto with launch|]. intros [l|e]; [|apply opens_ret; by case_bool_decide].
  apply opens_bind; [eauto with launch|]. intros [u|[[r|e]|]]; [|..|apply opens_raise|apply opens_raise].
  - apply opens_bind; [eauto with launch|]. intros report. case_bool_decide; [done|].
    apply opens_bind; [eauto with launch|]. intros _. by apply opens_ret.
  - apply opens_bind; [eauto with launch|]. intros _. apply opens_ret. by case_bool_decide.
Qed.

(** A launch leaves no listener behind.  However a launch ends, with a process, a refusal or an exception, the ports that are open afterwards were open before, except when the listener is bound and its thread cannot be started. *)
Theorem no_listener_left i s r s' port :
  invoke i s = (r, s') → r ≠ Err RuntimeError → port ∈ s'.(la_open) → port ∈ s.(la_open).
Proof.
  intros Hi Hr Hport. unfold invoke in Hi. destruct lease_active; [|by injection Hi as <- <-].
  unfold pbind at 1 in Hi. pose proof (opens_plan (launch_args i) s) as Hp.
  destruct (plan_launch (launch_args i) s) as [[p|e] s1]; [|by injection Hi as <- <-; destruct e; [rewrite <-Hp|]].
  assert (∀ m : launch_m invocation, quietly m → closing p m s1 = (r, s') → port ∈ s.(la_open)) as Hclose.
  { intros m Hm E. unfold closing in E. specialize (Hm s1). destruct (m s1) as [r2 s2]. destruct Hm as (_ & Ho & _). cbn in Ho.
    injection E as _ <-. unfold leaves_open in Hp. unfold close_plan in Hport. destruct p.(lp_proxy) as [px|]; cbn in Hport.
    - apply list_elem_of_In, filter_In in Hport as [Hin Hne]. apply negb_true_iff, Z.eqb_neq in Hne.
      apply list_elem_of_In in Hin. rewrite Ho, Hp in Hin. apply elem_of_cons in Hin as [?|?]; done.
    - by rewrite Ho, Hp in Hport. }
  eapply Hclose; [|exact Hi]. pose proof (quietly_confirm p). quieten.
Qed.
End listeners.

(** ** The audit trail *)

Section trail.
Context `{LaunchEnv}.

Lemma substring_drop k s : String.substring 0 (Nat.min k (String.length s)) s +:+ drop_str k s = s.
Proof.
  revert k. induction s as [|c s IH]; intros [|k]; [done..|]. cbn. rewrite string_app_cons. f_equal. apply IH.
Qed.
Lemma drop_str_length k s : String.length (drop_str k s) = (String.length s - k)%nat.
Proof. revert k. induction s as [|c s IH]; intros [|k]; [done..|]. cbn. apply IH. Qed.

(** The write loop appends a prefix; it stops early only at a write that makes no progress. *)
Lemma write_all_spec fuel writes turn payload content c b :
  (String.length payload ≤ fuel)%nat → write_all fuel writes turn payload content = (c, b) →
  ∃ pre post, payload = pre +:+ post ∧ c = content +:+ pre ∧
    if b then post = "" else ∃ n, writes n = None ∨ ∃ k, writes n = Some k ∧ k ≤ 0.
Proof.
  revert turn payload content. induction fuel as [|fuel IH]; intros turn payload content Hf.
  - destruct payload; [|cbn in Hf; lia]. intros [= <- <-]. exists "", "". by rewrite (string_app_nil_r content).
  - destruct payload as [|a payload]; [intros [= <- <-]; exists "", ""; by rewrite (string_app_nil_r content)|].
    cbn [write_all]. destruct (writes turn) as [n|] eqn:Ew.
    + destruct (n <=? 0) eqn:En.
      { intros [= <- <-]. exists "", (String a payload). rewrite (string_app_nil_r content). split_and!; [done..|]. exists turn.
        right. exists n. split; [done|]. by apply Z.leb_le. }
      apply Z.leb_gt in En. intros Hw. apply IH in Hw as (pre & post & Hp & -> & Hb).
      * eexists (_ +:+ pre), post. split_and!; [| |exact Hb].
        -- rewrite string_app_assoc, <-Hp. symmetry. apply substring_drop.
        -- by rewrite string_app_assoc.
      * rewrite drop_str_length. cbn in Hf |- *. lia.
    + intros [= <- <-]. exists "", (String a payload). rewrite (string_app_nil_r content). split_and!; [done..|]. exists turn. by left.
Qed.

Lemma file_content_set path c files other :
  file_content other (dict_set path c files) = if bool_decide (other = path) then c else file_content other files.
Proof. unfold file_content. rewrite dict_get_set. by case_bool_decide. Qed.

(** What an append may do: [added] goes to the end of one file. *)
Definition appends (row : string → Prop) (s s' : Launch) (path added : string) : Prop :=
  (∀ other, file_content other s'.(la_files)
            = file_content other s.(la_files) +:+ (if bool_decide (other = path) then added else "")) ∧
  (added = "" ∨ ∃ line rest, row line ∧ utf8 line = added +:+ rest).

Lemma appends_nothing row s s' : s'.(la_files) = s.(la_files) → appends row s s' "" "".
Proof. intros Hf. split; [|by left]. intros other. rewrite Hf. by destruct (bool_decide _); rewrite string_app_nil_r. Qed.

Lemma appends_set row s s' path added :
  s'.(la_files) = dict_set path (file_content path s.(la_files) +:+ added) s.(la_files) →
  (added = "" ∨ ∃ line rest, row line ∧ utf8 line = added +:+ rest) → appends row s s' path added.
Proof.
  intros Hf Hadd. split; [|done]. intros other. rewrite Hf, file_content_set. case_bool_decide as E; [by subst|].
  by rewrite string_app_nil_r.
Qed.

(** A row reaches the trail whole or the caller is not told that it did.  An append changes no file but one; to that one it adds a beginning of the row of this lease and event, encoded in UTF-8; when it reports a path, the file at that path got the whole row and nothing else, and the row was flushed to the disk. *)
Theorem ledger_rows_whole l event mode extra s r s' :
  append_lease_record l event mode extra s = (r, s') →
  let d := le_disk s.(la_appends) in
  let row line := lease_line l event mode d.(dk_recorded_at) extra = Ok line in
  ∃ path added, appends row s s' path added ∧
    ∀ p, r = Ok p → p ≠ "" → p = path ∧ d.(dk_fsync) = true ∧ ∃ line, row line ∧ added = utf8 line.
Proof.
  intros Ha d row. unfold append_lease_record in Ha. unfold pbind at 1, next_append in Ha. fold d in Ha.
  set (s0 := s <| la_appends := S s.(la_appends) |>) in Ha.
  unfold pbind at 1, on_lease, time_time in Ha. cbn [map_err] in Ha.
  set (s1 := s0 <| la_lease := elapse s0.(la_lease) |>) in Ha.
  assert (∀ e, (r, s') = (e, s1) → (∀ p, e = Ok p → p = "") → ∃ path added, appends row s s' path added ∧
    ∀ p, r = Ok p → p ≠ "" → p = path ∧ d.(dk_fsync) = true ∧ ∃ line, row line ∧ added = utf8 line) as Hquit.
  { intros e [= -> ->] He. exists "", "". split; [by apply appends_nothing|]. intros p Hp Hne. by rewrite (He p Hp) in Hne. }
  destruct (le_month _) as [month|[]]; [|by eapply Hquit; [symmetry; exact Ha|intros p [= <-]]..].
  destruct (negb d.(dk_mkdir) || _); [by eapply Hquit; [symmetry; exact Ha|intros p [= <-]]|].
  destruct (lease_line l event mode d.(dk_recorded_at) extra) as [line|[]] eqn:El;
    [|by eapply Hquit; [symmetry; exact Ha|intros p [= <-]]..].
  destruct (negb d.(dk_open)); [by eapply Hquit; [symmetry; exact Ha|intros p [= <-]]|].
  unfold pbind at 1, read_file in Ha. unfold pbind at 1, set_file at 1 in Ha.
  set (path := lease_ledger_path month) in Ha. set (old := file_content path s1.(la_files)) in Ha.
  destruct (negb d.(dk_regular) || _).
  { injection Ha as <- <-. exists path, "". split; [|by intros p [= <-]].
    apply appends_set; [|by left]. cbn. by rewrite string_app_nil_r. }
  destruct (write_all _ _ _ _ _) as [content complete] eqn:Ew. unfold pbind, set_file in Ha. injection Ha as <- <-.
  apply write_all_spec in Ew as (pre & post & Hp & -> & Hb); [|done].
  exists path, pre. split.
  - split; [|right; by exists line, post]. intros other. cbn -[file_content]. rewrite !file_content_set.
    case_bool_decide as E; [by subst|]. by rewrite string_app_nil_r.
  - intros p [= <-] Hne. destruct complete; [|done]. cbn in *. destruct d.(dk_fsync); [|done]. split_and!; [done..|].
    exists line. split; [done|]. subst post. by rewrite string_app_nil_r in Hp.
Qed.

(** The trail is no oracle for signatures.  The row of an event is the same for any two signatures of a lease that are both right or both wrong: beyond that bit, nothing of the signature or the key reaches the file. *)
Theorem trail_hides_signature l sig1 sig2 event mode at_ extra :
  signature_matches (l <| l_signature := sig1 |>) = signature_matches (l <| l_signature := sig2 |>) →
  lease_line (l <| l_signature := sig1 |>) event mode at_ extra = lease_line (l <| l_signature := sig2 |>) event mode at_ extra.
Proof. intros Hs. unfold lease_line, lease_record. rewrite Hs. done. Qed.
End trail.

(** ** A small machine *)

Definition good_disk : Disk := mkDisk true true true true true (λ n, bool_decide (n = 3%nat)) (λ _, Some 1000) true "2026-01-01T00:00:00+00:00".
Definition toy_env (hmac : string → string → string) (settings : dict) (starts : start_outcome) : LaunchEnv := {|
  le_host := toy_host hmac settings;
  le_wrap_available := λ _ _, true;
  le_month := λ _, Ok "202601";
  le_default_ledger_dir := "/ledger";
  le_disk := λ _, good_disk;
  le_start := λ _, starts;
  le_adapter_roots := ["/state"];
  le_popen := true;
|}.
Definition flat (_ _ : string) : string := "5f".
Definition proxied : dict :=
  [("mode", JStr "enforce");
   ("net", JDict [("default_policy", JStr "proxy"); ("allow_domains", JList [JStr "*.Example.com"])])].
Definition toy_invoke : Invoke := mkInvoke "codex" ["codex"; "exec"] "/work" 5000 [] "workspace_write" "run_1" "" "".
(** The clock advances by a second at each reading. *)
Definition toy_start : Launch :=
  mkLaunch (mkLeaseWorld (Fin 100) 1 [(Fin 100, O); (Fin 100, O); (Fin 101, O); (Fin 101, O); (Fin 102, O); (Fin 102, O); (Fin 103, O)] O) [] O O [].

Lemma spawn_is_authorized_witness :
  let env := toy_env flat proxied (Started 4000) in
  ∃ sp s', @invoke env toy_invoke toy_start = (Ok (Spawned sp), s') ∧ s'.(la_open) = [] ∧
    sp.(sp_net_loopback_ports) = [4000] ∧ 1 ≤ sp.(sp_timeout_ms) ≤ 5000.
Proof.
  intros env.
  assert (∃ sp s', @invoke env toy_invoke toy_start = (Ok (Spawned sp), s') ∧ s'.(la_open) = [] ∧
    sp.(sp_net_loopback_ports) = [4000]) as (sp & s' & Hi & Ho & Hp).
  { destruct (@invoke env toy_invoke toy_start) as [[[r| |sp]|e] s'] eqn:E;
      [vm_compute in E; congruence..| |vm_compute in E; congruence].
    exists sp, s'. split; [done|]. vm_compute in E. injection E as <- <-. done. }
  exists sp, s'. split_and!; [done..| |].
  - destruct (@spawn_is_authorized env toy_invoke toy_start sp s') as
      (l & w & w0 & t & w1 & rest & ms & text & _ & _ & _ & _ & _ & _ & _ & _ & _ & _ & _ & _ & H1 & _);
      [by vm_compute|by vm_compute|exact Hi|exact H1].
  - destruct (@spawn_is_authorized env toy_invoke toy_start sp s') as
      (l & w & w0 & t & w1 & rest & ms & text & _ & _ & _ & _ & _ & _ & _ & _ & _ & _ & _ & _ & _ & _ & H1 & _);
      [by vm_compute|by vm_compute|exact Hi|exact H1].
Defined.

Lemma inert_unless_enforcing_witness :
  let env := toy_env flat [("mode", JStr "shadow"); ("ceilings", JDict [("max_procs", JInt 8)])] BindFails in
  ∃ s', @invoke env toy_invoke toy_start = (Ok (Spawned (plain_spawn toy_invoke)), s') ∧ s'.(la_open) = [].
Proof.
  intros env. apply (@inert_unless_enforcing env); [done| |by vm_compute].
  intros c q _ _. by eexists.
Defined.

Lemma no_listener_left_witness :
  let env := toy_env flat proxied (Started 4000) in
  ¬ (4000 ∈ (@invoke env toy_invoke toy_start).2.(la_open)).
Proof.
  intros env Hin. destruct (@invoke env toy_invoke toy_start) as [r s'] eqn:E.
  assert (4000 ∈ toy_start.(la_open)) as Hbad; [|by apply elem_of_nil in Hbad].
  apply (@no_listener_left env toy_invoke toy_start r s' 4000 E); [|exact Hin].
  intros ->. vm_compute in E. congruence.
Defined.

Lemma ledger_rows_whole_witness :
  let env := toy_env flat proxied (Started 4000) in
  let l := issued_by flat_host toy_args toy_world in
  let s' := (@append_lease_record env l "issued" LeaseEnforce [] toy_start).2 in
  ∃ line, @lease_line env l "issued" LeaseEnforce "2026-01-01T00:00:00+00:00" [] = Ok line ∧
    file_content "/ledger/leases-202601.jsonl" s'.(la_files) = utf8 line.
Proof.
  intros env l s'. destruct (@append_lease_record env l "issued" LeaseEnforce [] toy_start) as [r s1] eqn:E.
  destruct (@ledger_rows_whole env l "issued" LeaseEnforce [] toy_start r s1 E) as (path & added & [Hfiles _] & Hr).
  destruct (Hr "/ledger/leases-202601.jsonl") as (<- & _ & line & Hline & ->);
    [by vm_compute in E; injection E as <- _|done|].
  exists line. split; [exact Hline|]. change s' with s1.
  rewrite Hfiles. by rewrite bool_decide_eq_true_2.
Defined.

(** The listener is bound but its thread cannot start: the exception leaves the planner,
    which is documented never to raise, and the port stays open. *)
Example thread_failure_escapes :
  let env := toy_env flat proxied (ThreadFails 4000) in
  let '(r, s') := @invoke env toy_invoke toy_start in r = Err RuntimeError ∧ s'.(la_open) = [4000].
Proof. by vm_compute. Qed.

(** A bump while the launch is prepared stops it at the spawn. *)
Example bump_stops_launch :
  let env := toy_env flat [("mode", JStr "enforce")] BindFails in
  let start := mkLaunch (mkLeaseWorld (Fin 100) 1 [(Fin 100, O); (Fin 100, O); (Fin 100, O); (Fin 101, O); (Fin 102, 1%nat)] O) [] O O [] in
  (@invoke env toy_invoke start).1 = Ok (Refused (RejectedAtSpawn BadGeneration)).
Proof. by vm_compute. Qed.
