(* ===== verification/LeaseProxySpec.v ===== *)
(** * LeaseProxySpec: the allowlisting proxy confines its client *)

From Stdlib Require Import Ascii.
From S2P Require Import Prelude PyString PyJson JsonText Records LeaseProxy.
Open Scope Z_scope.

Lemma startswith_true p s : startswith p s = true ↔ s = p +:+ drop_str (String.length p) s.
Proof.
  revert s. induction p as [|c p IH]; intros [|d s]; cbn; try done.
  rewrite andb_true_iff, Ascii.eqb_eq, IH, string_app_cons. split; [by intros [-> <-]|].
  intros [= -> E]. by rewrite <-E.
Qed.
Lemma endswith_true t s : endswith t s = true ↔ ∃ p, s = p +:+ t.
Proof.
  induction s as [|c s IH]; cbn [endswith].
  - rewrite orb_false_r, bool_decide_eq_true. split; [by intros ->; exists ""|]. intros [[|? ?] E]; [done|done].
  - rewrite orb_true_iff, bool_decide_eq_true, IH. split.
    + intros [->|[p ->]]; [by exists ""|by exists (String c p)].
    + intros [[|d p] E]; [by left|right]. injection E as -> ->. by exists p.
Qed.

(** ** Domains *)

(** A pattern covers a host: the normal forms are equal, or the pattern is a wildcard and
    the host is the domain below it or one of its subdomains. *)
Definition covered (host pat : string) : Prop :=
  let h := normalize_domain host in
  let p := normalize_domain pat in
  h ≠ "" ∧ has_char "*" h = false ∧ p ≠ "" ∧
  (h = p ∨ ∃ rest, p = "*." +:+ rest ∧ (h = rest ∨ ∃ sub, h = sub +:+ "." +:+ rest)).

Lemma pattern_covers_true h p :
  pattern_covers h p = true ↔ h = p ∨ ∃ rest, p = "*." +:+ rest ∧ (h = rest ∨ ∃ sub, h = sub +:+ "." +:+ rest).
Proof.
  unfold pattern_covers. rewrite orb_true_iff, andb_true_iff, orb_true_iff, !bool_decide_eq_true, startswith_true, endswith_true.
  cbn [String.length]. split.
  - intros [?|[Hp Hh]]; [by left|right]. eauto.
  - intros [?|(rest & -> & Hh)]; [by left|right]. done.
Qed.

Lemma domain_allowed_true host pats : domain_allowed host pats = true ↔ ∃ pat, pat ∈ pats ∧ covered host pat.
Proof.
  unfold domain_allowed, covered. case_bool_decide as Hh; [split; [done|naive_solver]|].
  destruct (has_char "*" (normalize_domain host)) eqn:Es; cbn [orb]; [split; [done|naive_solver]|].
  rewrite existsb_exists. setoid_rewrite andb_true_iff. setoid_rewrite negb_true_iff.
  setoid_rewrite bool_decide_eq_false. setoid_rewrite pattern_covers_true. setoid_rewrite <-list_elem_of_In. naive_solver.
Qed.

(** A domain in normal form holds letters, digits, dots, hyphens, underscores and stars. *)
Lemma normalize_domain_chars s : forallb_str is_domain_char (normalize_domain s) = true.
Proof. unfold normalize_domain. destruct (bool_decide _ || _) eqn:E; [done|]. bool_prop. done. Qed.

Lemma strip_first c s : is_space c = false → ∃ t, strip (String c s) = String c t.
Proof.
  intros Hc. unfold strip, strip_by. rewrite lstrip_by_id by (intros d x [= <- _]; done).
  cbn. destruct (rstrip_by is_space s); rewrite ?Hc; eauto.
Qed.

(** An address in brackets is no domain. *)
Lemma bracket_normalizes s : normalize_domain (String "[" s) = "".
Proof.
  unfold normalize_domain. destruct (strip_first "[" s) as [t ->]; [done|].
  assert (full_casefold (String "[" t) = String "[" (full_casefold t)) as -> by done.
  generalize (full_casefold t) as u. intros u. destruct (endswith "." (String "[" u)) eqn:E; [|done].
  destruct u; [by vm_compute in E|done].
Qed.

(** ** A tunnel *)

Lemma decide_target_tunnel connects target p host port p' :
  decide_target connects target p = (Tunnel host port, p') →
  port ∈ p.(px_allowed_ports) ∧ 1 ≤ port ≤ 65535 ∧ connects host port = Connected ∧
  (∃ pat, pat ∈ p.(px_allowed_domains) ∧ covered host pat) ∧ p' = count_allowed p.
Proof.
  unfold decide_target. destruct (parse_target target) as [[[conn check] ps]|] eqn:Et; [|done].
  destruct (parse_port ps) as [n|] eqn:Ep; [|done].
  case_bool_decide as Hport; [|done]. destruct (domain_allowed check _) eqn:Ed; [|done]. cbn [negb orb].
  destruct (connects conn n) eqn:Ec; [|done..]. intros [= <- <- <-].
  apply domain_allowed_true in Ed. split_and!; [done| | |done| |done].
  1,2: unfold parse_port in Ep; destruct (int_of_text ps) as [m|]; [|done];
    destruct ((1 <=? m) && (m <=? 65535)) eqn:Em; [|done]; injection Ep as ->; bool_prop; lia.
  assert (conn = check ∨ ∃ s, check = String "[" s) as [->|[s ->]]; [|done|].
  - unfold parse_target in Et. destruct (startswith "[" target).
    + right. destruct (cut_bracket _) as [[a b]|]; cbn [mbind option_bind] in Et; [|done]. destruct (startswith ":" b); [|done].
      injection Et as -> <- _. by eexists.
    + left. destruct (rpartition_colon target) as [[a b]|]; cbn [mbind option_bind] in Et; [|done]. by injection Et as -> -> _.
  - exfalso. destruct Ed as (pat & _ & Hne & _). by rewrite bracket_normalizes in Hne.
Qed.

Definition is_tunnel (r : reply) : bool := match r with Tunnel _ _ => true | _ => false end.
Definition has_code (n : Z) (r : reply) : bool := match r with Respond c _ => c =? n | _ => false end.

Lemma serve_tunnel connects cl p host port p' :
  serve connects cl p = (Tunnel host port, p') →
  ∃ line rest target version, readline (Z.to_nat 8193) cl.(cl_closes) cl.(cl_bytes) = Some (line, rest) ∧
    split_space (strip line) = ["CONNECT"; target; version] ∧ decide_target connects target p = (Tunnel host port, p').
Proof.
  unfold serve. destruct (readline _ _ _) as [[line rest]|] eqn:Er; [|done].
  destruct (MAX_LINE <? _); [done|]. case_bool_decide; [done|]. destruct (drain _ _ _ _); [|done..].
  destruct (split_space (strip line)) as [|m [|target [|v [|? ?]]]] eqn:Es; try done.
  case_bool_decide as Hm; [|done]. subst m. intros Hd. by exists line, rest, target, v.
Qed.

(** C19: The proxy tunnels to allowed domains and ports only.  Whatever bytes a client sends and however names resolve, a tunnel is opened only to a port the lease lists, between 1 and 65535, and to a host that a pattern of the lease covers, by equality or as a subdomain of a wildcard; the host connected to is the host that was checked, and the request was CONNECT. *)
Theorem proxy_confines connects cl p host port p' :
  serve connects cl p = (Tunnel host port, p') →
  port ∈ p.(px_allowed_ports) ∧ 1 ≤ port ≤ 65535 ∧ connects host port = Connected ∧
  (∃ pat, pat ∈ p.(px_allowed_domains) ∧ covered host pat) ∧
  ∃ line rest target version, readline (Z.to_nat 8193) cl.(cl_closes) cl.(cl_bytes) = Some (line, rest) ∧
    split_space (strip line) = ["CONNECT"; target; version].
Proof.
  intros (line & rest & target & v & Hr & Hs & Hd)%serve_tunnel.
  destruct (decide_target_tunnel _ _ _ _ _ _ Hd) as (? & ? & ? & ? & _). split_and!; try done; try lia.
  by exists line, rest, target, v.
Qed.

(** ** Slots and counters *)

(** One answer and what it does to the proxy. *)
Definition books (p : AllowlistProxy) (r : reply) (p' : AllowlistProxy) : Prop :=
  p'.(px_slots) = p.(px_slots) ∧ p'.(px_allowed_domains) = p.(px_allowed_domains) ∧
  p'.(px_allowed_ports) = p.(px_allowed_ports) ∧ p'.(px_stats).(st_rejected) = p.(px_stats).(st_rejected) ∧
  p'.(px_stats).(st_allowed) = p.(px_stats).(st_allowed) + (if is_tunnel r then 1 else 0) ∧
  p'.(px_stats).(st_denied) = p.(px_stats).(st_denied) + (if has_code 403 r then 1 else 0) ∧
  p'.(px_stats).(st_failed) = p.(px_stats).(st_failed) + (if has_code 502 r then 1 else 0) ∧ has_code 503 r = false.

Lemma books_silent p : books p Silent p.
Proof. unfold books, has_code, is_tunnel. split_and!; lia || done. Qed.
Lemma books_respond p n text : n ≠ 403 → n ≠ 502 → n ≠ 503 → books p (Respond n text) p.
Proof.
  intros H1 H2 H3. unfold books, has_code, is_tunnel. rewrite !(proj2 (Z.eqb_neq n _)) by done.
  split_and!; lia || done.
Qed.
Lemma books_denied p text : books p (Respond 403 text) (count_denied p).
Proof. unfold books, has_code, is_tunnel. cbn [Z.eqb Pos.eqb]. split_and!; done || (cbn; lia). Qed.
Lemma books_failed p text : books p (Respond 502 text) (count_failed p).
Proof. unfold books, has_code, is_tunnel. cbn [Z.eqb Pos.eqb]. split_and!; done || (cbn; lia). Qed.
Lemma books_allowed p host port : books p (Tunnel host port) (count_allowed p).
Proof. unfold books, has_code, is_tunnel. split_and!; done || (cbn; lia). Qed.

Lemma serve_keeps connects cl p r p' : serve connects cl p = (r, p') → books p r p'.
Proof.
  unfold serve, bad_request, send_error, respond.
  destruct (readline _ _ _) as [[line rest]|]; [|intros [= <- <-]; apply books_silent].
  destruct (MAX_LINE <? _); [intros [= <- <-]; by apply books_respond|].
  destruct (bool_decide _); [intros [= <- <-]; apply books_silent|].
  destruct (drain _ _ _ _); [|intros [= <- <-]; by apply books_respond|intros [= <- <-]; apply books_silent].
  destruct (split_space (strip line)) as [|m [|target [|v [|? ?]]]]; try (intros [= <- <-]; by apply books_respond).
  destruct (bool_decide _); [|intros [= <- <-]; by apply books_respond].
  unfold decide_target, bad_request, send_error, respond.
  destruct (parse_target target) as [[[conn check] ps]|]; [|intros [= <- <-]; by apply books_respond].
  destruct (parse_port ps) as [n|]; [|intros [= <- <-]; apply books_denied].
  destruct (_ || _); [intros [= <- <-]; apply books_denied|].
  destruct (connects conn n); intros [= <- <-]; [apply books_allowed|apply books_failed|apply books_silent].
Qed.

Definition count_replies (f : reply → bool) (l : list reply) : Z := Z.of_nat (length (List.filter f l)).
Lemma count_replies_snoc f l r : count_replies f (l ++ [r]) = count_replies f l + (if f r then 1 else 0).
Proof. unfold count_replies. rewrite List.filter_app, length_app. cbn. destruct (f r); cbn; lia. Qed.

Record proxy_ok (domains : list string) (ports : list Z) (max : nat) (st : AllowlistProxy * nat * list reply) : Prop := {
  po_domains : st.1.1.(px_allowed_domains) = domains;
  po_ports : st.1.1.(px_allowed_ports) = ports;
  po_slots : (st.1.1.(px_slots) + st.1.2 = max)%nat;
  po_allowed : st.1.1.(px_stats).(st_allowed) = count_replies is_tunnel st.2;
  po_denied : st.1.1.(px_stats).(st_denied) = count_replies (has_code 403) st.2;
  po_failed : st.1.1.(px_stats).(st_failed) = count_replies (has_code 502) st.2;
  po_rejected : st.1.1.(px_stats).(st_rejected) = count_replies (has_code 503) st.2;
  po_tunnels : ∀ host port, Tunnel host port ∈ st.2 →
    port ∈ ports ∧ 1 ≤ port ≤ 65535 ∧ ∃ pat, pat ∈ domains ∧ covered host pat;
}.

Lemma proxy_ok_step domains ports max st t :
  proxy_ok domains ports max st → proxy_ok domains ports max (traffic_step st t).
Proof.
  destruct st as [[p held] replies]. intros [Hd Hp Hs Ha Hde Hf Hr Ht]. cbn in *. destruct t as [cl connects|]; cbn.
  - unfold handle. destruct p.(px_slots) as [|free] eqn:Efree.
    + unfold respond. match goal with |- context [Respond 503 ?t] => generalize t; intros text end.
      split; cbn; rewrite ?count_replies_snoc; cbn; try done; try lia.
      intros host port [?|Hx%list_elem_of_singleton]%elem_of_app; [auto|done].
    + destruct (serve connects cl (p <| px_slots := free |>)) as [r p'] eqn:Es.
      destruct (serve_keeps _ _ _ _ _ Es) as (Ks & Kd & Kp & Kr & Ka & Kde & Kf & K3). cbn in *.
      split; cbn; rewrite ?count_replies_snoc, ?K3; try congruence; try lia.
      intros host port [?|Hx%list_elem_of_singleton]%elem_of_app; [auto|]. subst r.
      destruct (serve_tunnel _ _ _ _ _ _ Es) as (? & ? & ? & ? & _ & _ & Hdec).
      destruct (decide_target_tunnel _ _ _ _ _ _ Hdec) as (H1 & H2 & _ & H3 & _). cbn in *. rewrite Hd in H3. rewrite Hp in H1.
      exact (conj H1 (conj H2 H3)).
  - destruct held as [|n]; [by split|]. split; cbn; try done; lia.
Qed.

(** The proxy keeps its books.  Under any sequence of arriving and ending connections, free slots and held connections add up to the limit, so no more than the limit are served at once; the four counters are the numbers of tunnels, denials, failures and rejections answered; and every tunnel ever opened went to an allowed port and a covered host. *)
Theorem proxy_books_balance domains ports max l :
  proxy_ok domains ports max (run_traffic (new_proxy domains ports max) l).
Proof.
  unfold run_traffic. assert (proxy_ok domains ports max (new_proxy domains ports max, O, [])) as Hok.
  { split; cbn; try done; try lia. all: by intros ?? ?%elem_of_nil. }
  revert Hok. generalize (new_proxy domains ports max, O, @nil reply) as st.
  induction l as [|t l IH]; intros st Hok; [done|]. apply IH. by apply proxy_ok_step.
Qed.

(** ** The header loop ends *)

Lemma readline_rest n closes s line rest :
  readline n closes s = Some (line, rest) → (String.length line + String.length rest = String.length s)%nat.
Proof.
  revert s line rest. induction n as [|n IH]; intros s line rest; [by intros [= <- <-]|]. destruct s as [|c s]; cbn.
  - destruct closes; [|done]. by intros [= <- <-].
  - destruct (_ =? _)%nat; [by intros [= <- <-]|].
    destruct (readline n closes s) as [[l r]|] eqn:E; cbn; [|done]. intros [= <- <-]. cbn. by rewrite (IH _ _ _ E).
Qed.

(** Any budget above the number of bytes left gives the same answer: the loop ends by itself. *)
Lemma drain_enough f1 f2 closes total s :
  (String.length s < f1)%nat → (String.length s < f2)%nat → drain f1 closes total s = drain f2 closes total s.
Proof.
  revert f2 total s. induction f1 as [|f1 IH]; intros [|f2] total s H1 H2; try lia. cbn [drain].
  destruct (readline _ closes s) as [[line rest]|] eqn:E; [|done]. apply readline_rest in E.
  destruct (MAX_LINE <? _); [done|]. destruct (MAX_HEADERS <? _); [done|].
  case_bool_decide as Hl; [done|]. assert (line ≠ "") by naive_solver.
  destruct line; [done|]. cbn in E. apply IH; lia.
Qed.

(** ** Requests *)

Definition request (target : string) : ProxyClient :=
  mkProxyClient ("CONNECT " +:+ target +:+ " HTTP/1.1" +:+ CRLF +:+ "Host: x" +:+ CRLF +:+ CRLF) false.
Definition reachable (_ : string) (_ : Z) : connection := Connected.
Definition toy_proxy : AllowlistProxy := new_proxy ["*.example.com"] [443] 2.

Lemma proxy_confines_witness :
  serve reachable (request "API.Example.com.:443") toy_proxy = (Tunnel "API.Example.com." 443, count_allowed toy_proxy) ∧
  ∃ pat, pat ∈ ["*.example.com"] ∧ covered "API.Example.com." pat.
Proof.
  assert (serve reachable (request "API.Example.com.:443") toy_proxy = (Tunnel "API.Example.com." 443, count_allowed toy_proxy)) as E
    by by vm_compute.
  split; [exact E|]. by apply proxy_confines in E as (_ & _ & _ & Hpat & _).
Defined.

(** The bare domain of a wildcard and a foreign domain with the same ending. *)
Example wildcard_border :
  domain_allowed "example.com" ["*.example.com"] = true ∧ domain_allowed "badexample.com" ["*.example.com"] = false ∧
  domain_allowed "api.example.com" ["example.com"] = false.
Proof. by vm_compute. Qed.

(** The documentation says that normalizing strips a leading star and dot; it does not. *)
Example wildcard_kept : normalize_domain " *.Example.com. " = "*.example.com".
Proof. by vm_compute. Qed.

(** Address literals in brackets are parsed, and refused under every list. *)
Example bracket_refused :
  (serve reachable (request "[::1]:443") (new_proxy ["[::1]"; "::1"] [443] 2)).1
  = respond 403 "Forbidden" ("Forbidden: [::1]:443" +:+ LF).
Proof. by vm_compute. Qed.
