(* ===== verification/TaskContract.v ===== *)
(** * TaskContract: [omniagentos/taskcontract/models.py] and [store.py]

    A task contract read from and written to a mapping, its identity, and the store that
    adopts contracts and moves them through the lifecycle of [StateMachines].  SHA-256 and
    the text of a float are parameters.  A JSON column is the value its text reads back
    as: the dumped value with its keys sorted.  The store commits every statement by itself:
    a call is a [cursor] that moves from statement to statement, and several stores on one
    database are the interleaving of their statements. *)

From Stdlib Require Import Ascii QArith.
From S2P Require Import Prelude PyString PyJson JsonText Records StateMachines.
Open Scope Z_scope.

Class ContractHost := {
  ch_fin :: FloatText;
  ch_rnd : Q → float;
  ch_float_of_text : string → option float;
  ch_sha256 : string → string;
}.

(** ** Data *)

Inductive RiskClass := R0 | R1 | R2 | R3.
#[export] Instance RiskClass_eq_dec : EqDecision RiskClass.
Proof. solve_decision. Defined.
Definition risk_value (r : RiskClass) : string := match r with R0 => "R0" | R1 => "R1" | R2 => "R2" | R3 => "R3" end.
Definition risk_class (text : string) : option RiskClass :=
  List.find (λ r, bool_decide (risk_value r = text)) [R0; R1; R2; R3].

Record AcceptanceCriterion := mkCriterion { ac_id : string; ac_condition : string; ac_evidence_required : bool }.
Record Budgets := mkBudgets {
  bu_max_tokens : option Z;
  bu_max_cost_usd : option float;
  bu_max_wall_seconds : option Z;
  bu_max_tool_calls : option Z;
}.
Record LeaseFields := mkLeaseFields {
  lf_lease_id : option string;
  lf_holder : option string;
  lf_expires_at : option string;
  lf_generation : Z;
}.
Record Gate := mkGate {
  ga_command : string;
  ga_cwd : option string;
  ga_timeout_s : Z;
  ga_expected_exit : Z;
  ga_thresholds : dict;
  ga_blocking : bool;
}.
Record TaskContract := mkContract {
  tc_objective : string;
  tc_acceptance_criteria : list AcceptanceCriterion;
  tc_read_set : list string;
  tc_write_set : list string;
  tc_risk_class : RiskClass;
  tc_budgets : Budgets;
  tc_lease : LeaseFields;
  tc_task_id : option string;
  tc_lineage_id : option string;
  tc_version : Z;
  tc_metadata : dict;
  tc_out_of_scope_paths : list string;
  tc_non_goals : list string;
  tc_security_requirements : list string;
  tc_performance_requirements : list string;
  tc_retry_limit : option Z;
  tc_escalation_path : option string;
  tc_handoff_role : option string;
  tc_gates : list Gate;
}.
#[export] Instance TaskContract_rebuild : Rebuild TaskContract := λ c,
  mkContract c.(tc_objective) c.(tc_acceptance_criteria) c.(tc_read_set) c.(tc_write_set) c.(tc_risk_class)
    c.(tc_budgets) c.(tc_lease) c.(tc_task_id) c.(tc_lineage_id) c.(tc_version) c.(tc_metadata)
    c.(tc_out_of_scope_paths) c.(tc_non_goals) c.(tc_security_requirements) c.(tc_performance_requirements)
    c.(tc_retry_limit) c.(tc_escalation_path) c.(tc_handoff_role) c.(tc_gates).

(** The messages of [TaskContractError]; a cast that raises its own exception. *)
Inductive tc_error :=
  | ObjectiveEmpty | CriteriaNotList | CriterionIdEmpty | CriterionConditionEmpty (id : string) | NoCriterion
  | CriterionIdsRepeat | InvalidRisk | VersionBelowOne | GatesNotList | GateCommandEmpty | SetNotList
  | JsonNotObject | BodyDoesNotRehash | InvalidInitialState | InitialStateRefused
  | Lifecycle (e : contract_error)
  | Cast (e : cast_error)
  | KeyError (id : string) | IntegrityError | RowMissing.

(** ** Writing *)

Definition opt_json {A} (f : A → json) (o : option A) : json := match o with Some a => f a | None => JNull end.
Definition strs (l : list string) : json := JList (map JStr l).

Definition criterion_to_dict (c : AcceptanceCriterion) : dict :=
  [("id", JStr c.(ac_id)); ("condition", JStr c.(ac_condition)); ("evidence_required", JBool c.(ac_evidence_required))].
Definition budgets_to_dict (b : Budgets) : dict :=
  [("max_tokens", opt_json JInt b.(bu_max_tokens)); ("max_cost_usd", opt_json JFloat b.(bu_max_cost_usd));
   ("max_wall_seconds", opt_json JInt b.(bu_max_wall_seconds)); ("max_tool_calls", opt_json JInt b.(bu_max_tool_calls))].
Definition lease_to_dict (l : LeaseFields) : dict :=
  [("lease_id", opt_json JStr l.(lf_lease_id)); ("holder", opt_json JStr l.(lf_holder));
   ("expires_at", opt_json JStr l.(lf_expires_at)); ("generation", JInt l.(lf_generation))].
Definition gate_to_dict (g : Gate) : dict :=
  [("command", JStr g.(ga_command)); ("cwd", opt_json JStr g.(ga_cwd)); ("timeout_s", JInt g.(ga_timeout_s));
   ("expected_exit", JInt g.(ga_expected_exit)); ("thresholds", JDict g.(ga_thresholds)); ("blocking", JBool g.(ga_blocking))].

(** The members every contract has before and after [lease], and those it has when set. *)
Definition fixed_members (c : TaskContract) : dict :=
  [("objective", JStr c.(tc_objective));
   ("acceptance_criteria", JList (map (λ a, JDict (criterion_to_dict a)) c.(tc_acceptance_criteria)));
   ("read_set", strs c.(tc_read_set)); ("write_set", strs c.(tc_write_set));
   ("risk_class", JStr (risk_value c.(tc_risk_class))); ("budgets", JDict (budgets_to_dict c.(tc_budgets)))].
Definition identity_members (c : TaskContract) : dict :=
  [("task_id", opt_json JStr c.(tc_task_id)); ("lineage_id", opt_json JStr c.(tc_lineage_id));
   ("version", JInt c.(tc_version)); ("metadata", JDict c.(tc_metadata))].
Definition when_some {A} (key : string) (f : A → json) (o : option A) : dict :=
  match o with Some a => [(key, f a)] | None => [] end.
Definition when_any {A} (key : string) (f : list A → json) (l : list A) : dict :=
  match l with [] => [] | _ => [(key, f l)] end.
Definition optional_members (c : TaskContract) : dict :=
  when_any "out_of_scope_paths" strs c.(tc_out_of_scope_paths)
  ++ when_any "non_goals" strs c.(tc_non_goals)
  ++ when_any "security_requirements" strs c.(tc_security_requirements)
  ++ when_any "performance_requirements" strs c.(tc_performance_requirements)
  ++ when_some "retry_limit" JInt c.(tc_retry_limit)
  ++ when_some "escalation_path" JStr c.(tc_escalation_path)
  ++ when_some "handoff_role" JStr c.(tc_handoff_role)
  ++ when_any "gates" (λ l, JList (map (λ g, JDict (gate_to_dict g)) l)) c.(tc_gates).

Definition to_dict (c : TaskContract) : dict :=
  fixed_members c ++ [("lease", JDict (lease_to_dict c.(tc_lease)))] ++ identity_members c ++ optional_members c.
(** [data.pop("lease")] *)
Definition hash_payload (c : TaskContract) : dict :=
  List.filter (λ p, negb (bool_decide (p.1 = "lease"))) (to_dict c).

Section models.
Context `{ContractHost}.

Definition contract_hash (c : TaskContract) : string := ch_sha256 (dumps_compact (JDict (hash_payload c))).
Definition to_json (c : TaskContract) : string := dumps_compact (JDict (to_dict c)).

(** ** Reading *)

Definition cast {A} (m : result cast_error A) : result tc_error A := map_err Cast m.
(** [str(raw.get(key) or "").strip()] *)
Definition text_member (raw : dict) (key : string) : string :=
  match dict_get key raw with Some v => if truthy v then strip (text_of v) else "" | None => "" end.
Definition opt_str (v : option json) : option string :=
  match v with
  | None | Some JNull => None
  | Some v => let text := strip (text_of v) in if bool_decide (text = "") then None else Some text
  end.
Definition opt_int (v : option json) : result tc_error (option Z) :=
  match v with None | Some JNull => Ok None | Some v => n ← cast (py_int v); Ok (Some n) end.
Definition opt_float (v : option json) : result tc_error (option float) :=
  match v with None | Some JNull => Ok None | Some v => x ← cast (py_float ch_rnd ch_float_of_text v); Ok (Some x) end.

Definition as_dict (v : option json) : result tc_error dict := cast (py_dict v).

Definition criterion_from_dict (raw : dict) : result tc_error AcceptanceCriterion :=
  let cid := text_member raw "id" in
  let condition := text_member raw "condition" in
  if bool_decide (cid = "") then Err CriterionIdEmpty
  else if bool_decide (condition = "") then Err (CriterionConditionEmpty cid)
  else
    let evidence := match dict_get "evidence_required" raw with
                    | None => true
                    | Some (JStr s) => negb (bool_decide (strip s = ""))
                    | Some v => truthy v
                    end in
    Ok (mkCriterion cid condition evidence).

Definition budgets_from_dict (raw : dict) : result tc_error Budgets :=
  max_tokens ← opt_int (dict_get "max_tokens" raw);
  max_cost_usd ← opt_float (dict_get "max_cost_usd" raw);
  max_wall_seconds ← opt_int (dict_get "max_wall_seconds" raw);
  max_tool_calls ← opt_int (dict_get "max_tool_calls" raw);
  Ok (mkBudgets max_tokens max_cost_usd max_wall_seconds max_tool_calls).
Definition lease_from_dict (raw : dict) : result tc_error LeaseFields :=
  generation ← (match dict_get "generation" raw with
                | None | Some JNull => Ok 0
                | Some v => cast (py_int v)
                end);
  Ok (mkLeaseFields (opt_str (dict_get "lease_id" raw)) (opt_str (dict_get "holder" raw))
        (opt_str (dict_get "expires_at" raw)) generation).

Definition int_member (raw : dict) (key : string) (absent : Z) : result tc_error Z :=
  match dict_get key raw with None => Ok absent | Some v => cast (py_int v) end.
Definition gate_from_dict (raw : dict) : result tc_error Gate :=
  let cmd := text_member raw "command" in
  if bool_decide (cmd = "") then Err GateCommandEmpty
  else
    timeout_s ← int_member raw "timeout_s" 600;
    expected_exit ← int_member raw "expected_exit" 0;
    thresholds ← as_dict (dict_get "thresholds" raw);
    Ok (mkGate cmd (opt_str (dict_get "cwd" raw)) timeout_s expected_exit thresholds
          (match dict_get "blocking" raw with None => true | Some v => truthy v end)).

(** [data.get(key) or []], which has to be a list. *)
Definition list_member (e : tc_error) (raw : dict) (key : string) : result tc_error (list json) :=
  match dict_get key raw with
  | None => Ok []
  | Some v => if negb (truthy v) then Ok [] else match v with JList l => Ok l | _ => Err e end
  end.
Definition mappings (l : list json) : list dict := omap (λ v, match v with JDict d => Some d | _ => None end) l.
Definition normalize_path_set (raw : dict) (key : string) : result tc_error (list string) :=
  items ← list_member SetNotList raw key;
  Ok (List.filter (λ s, negb (bool_decide (s = ""))) (map (λ v, strip (text_of v)) items)).

Definition BUDGET_KEYS : list string := ["max_tokens"; "max_cost_usd"; "max_wall_seconds"; "max_tool_calls"].
Definition budgets_raw (data : dict) : dict :=
  match dict_get "budgets" data with
  | Some (JDict d) => d
  | _ => omap (λ k, (λ v, (k, v)) <$> dict_get k data) BUDGET_KEYS
  end.
Definition lease_raw (data : dict) : dict := match dict_get "lease" data with Some (JDict d) => d | _ => [] end.
Definition risk_text (data : dict) : string :=
  match dict_get "risk_class" data with Some v => if truthy v then text_of v else "R1" | None => "R1" end.
Definition version_of (data : dict) : result tc_error Z :=
  match dict_get "version" data with
  | Some v => if truthy v then cast (py_int v) else Ok 1
  | None => Ok 1
  end.

Definition from_dict (data : dict) : result tc_error TaskContract :=
  let objective := text_member data "objective" in
  if bool_decide (objective = "") then Err ObjectiveEmpty
  else
    criteria_raw ← list_member CriteriaNotList data "acceptance_criteria";
    criteria ← traverse criterion_from_dict (mappings criteria_raw);
    if bool_decide (criteria = []) then Err NoCriterion
    else if negb (bool_decide (NoDup (map ac_id criteria))) then Err CriterionIdsRepeat
    else match risk_class (risk_text data) with
    | None => Err InvalidRisk
    | Some risk =>
        version ← version_of data;
        if version <? 1 then Err VersionBelowOne
        else
          gates_raw ← list_member GatesNotList data "gates";
          gates ← traverse gate_from_dict (mappings gates_raw);
          read_set ← normalize_path_set data "read_set";
          write_set ← normalize_path_set data "write_set";
          budgets ← budgets_from_dict (budgets_raw data);
          lease ← lease_from_dict (lease_raw data);
          metadata ← as_dict (dict_get "metadata" data);
          out_of_scope ← normalize_path_set data "out_of_scope_paths";
          non_goals ← normalize_path_set data "non_goals";
          security ← normalize_path_set data "security_requirements";
          performance ← normalize_path_set data "performance_requirements";
          retry_limit ← opt_int (dict_get "retry_limit" data);
          Ok (mkContract objective criteria read_set write_set risk budgets lease (opt_str (dict_get "task_id" data))
                (opt_str (dict_get "lineage_id" data)) version metadata out_of_scope non_goals security performance
                retry_limit (opt_str (dict_get "escalation_path" data)) (opt_str (dict_get "handoff_role" data)) gates)
    end.
(** [from_json] of a text that was read as [data]. *)
Definition from_json (data : json) : result tc_error TaskContract :=
  match data with JDict d => from_dict d | _ => Err JsonNotObject end.
End models.

(** ** The store *)

Record ContractRow := mkContractRow {
  cr_id : string;
  cr_contract_hash : string;
  cr_state : string;
  cr_lane : string;
  cr_ref_id : option string;
  cr_task_id : option string;
  cr_lineage_id : option string;
  cr_version : Z;
  cr_body : json;
  cr_metadata : json;
  cr_created_at : string;
  cr_updated_at : string;
}.
#[export] Instance ContractRow_rebuild : Rebuild ContractRow := λ r,
  mkContractRow r.(cr_id) r.(cr_contract_hash) r.(cr_state) r.(cr_lane) r.(cr_ref_id) r.(cr_task_id) r.(cr_lineage_id)
    r.(cr_version) r.(cr_body) r.(cr_metadata) r.(cr_created_at) r.(cr_updated_at).
Record TransitionRow := mkTransitionRow {
  tr_id : string;
  tr_contract_id : string;
  tr_contract_hash : string;
  tr_from_state : string;
  tr_to_state : string;
  tr_reason : string;
  tr_actor : string;
  tr_evidence : json;
  tr_created_at : string;
}.
Record ContractDb := mkContractDb { cd_contracts : list ContractRow; cd_transitions : list TransitionRow }.

Definition contract_op (A : Type) : Type := op ContractDb tc_error A.

(** The clock and the identifiers of one call. *)
Record Stamp := mkStamp { sp_now : string; sp_contract_id : string; sp_transition_id : string }.

(** What the caller hands over: a contract object, or a mapping to read one from. *)
Inductive given := Contract (c : TaskContract) | Mapping (data : dict).

(** [json.loads(json.dumps(value, sort_keys=True))] *)
Definition stored (v : json) : json := sort_keys v.
Definition body_dict (r : ContractRow) : dict := match r.(cr_body) with JDict d => d | _ => [] end.

Section store.
Context `{ContractHost}.

Definition with_id (contract_id : string) (r : ContractRow) : bool := bool_decide (r.(cr_id) = contract_id).
Definition same_ref (a b : option string) : bool := bool_decide (default "" a = default "" b).
Definition adopted_as (digest lane : string) (ref_id : option string) (r : ContractRow) : bool :=
  bool_decide (r.(cr_contract_hash) = digest) && bool_decide (r.(cr_lane) = lane) && same_ref r.(cr_ref_id) ref_id.

(** The contract object of a hand-over, checked against its own body. *)
Definition accept (g : given) : result tc_error (TaskContract * string * dict) :=
  tc ← match g with Contract c => Ok c | Mapping d => from_dict d end;
  let digest := contract_hash tc in
  let body := to_dict tc in
  reread ← from_dict body;
  if bool_decide (contract_hash reread = digest) then Ok (tc, digest, body) else Err BodyDoesNotRehash.
Definition initial (initial_state : string) : result tc_error ContractState :=
  match contract_state initial_state with
  | None => Err InvalidInitialState
  | Some s => if bool_decide (s ∈ [CDraft; CAdopted]) then Ok s else Err InitialStateRefused
  end.

(** The primary key, and [UNIQUE(contract_hash, lane, ref_id)], under which two null references differ. *)
Definition clashes (r r' : ContractRow) : bool :=
  with_id r.(cr_id) r'
  || bool_decide (r'.(cr_contract_hash) = r.(cr_contract_hash)) && bool_decide (r'.(cr_lane) = r.(cr_lane))
     && match r'.(cr_ref_id), r.(cr_ref_id) with Some a, Some b => bool_decide (a = b) | _, _ => false end.
Definition insert_contract (r : ContractRow) : contract_op () := λ db,
  if existsb (clashes r) db.(cd_contracts) then (Err IntegrityError, db)
  else (Ok (), mkContractDb (db.(cd_contracts) ++ [r]) db.(cd_transitions)).
Definition insert_transition (t : TransitionRow) : contract_op () := λ db,
  if existsb (λ t', bool_decide (t'.(tr_id) = t.(tr_id))) db.(cd_transitions) then (Err IntegrityError, db)
  else (Ok (), mkContractDb db.(cd_contracts) (db.(cd_transitions) ++ [t])).

(** The connection is in autocommit mode and no call begins a transaction: each statement is committed
    by itself.  A cursor is a call between two of its statements, or at its end. *)
Inductive cursor :=
  | WriteContract (row : ContractRow) (log : TransitionRow)
  | WriteState (contract_id state now : string) (log : TransitionRow)
  | WriteLog (contract_id : string) (log : TransitionRow)
  | ReadBack (contract_id : string)
  | Answered (row : ContractRow).

(** [adopt] up to its first write: the checks and the first [SELECT]. *)
Definition adopt_select (g : given) (lane : string) (ref_id : option string) (actor : string) (metadata : dict)
    (initial_state : string) (st : Stamp) (db : ContractDb) : result tc_error cursor :=
  lane_n ← map_err Lifecycle (assert_supported_lane lane);
  accepted ← accept g;
  state ← initial initial_state;
  let '(tc, digest, body) := accepted in
  Ok match List.find (adopted_as digest lane_n ref_id) db.(cd_contracts) with
     | Some existing => Answered existing
     | None =>
         WriteContract
           (mkContractRow st.(sp_contract_id) digest (contract_value state) lane_n ref_id tc.(tc_task_id)
              tc.(tc_lineage_id) tc.(tc_version) (stored (JDict body)) (stored (JDict metadata)) st.(sp_now) st.(sp_now))
           (mkTransitionRow st.(sp_transition_id) st.(sp_contract_id) digest (contract_value CDraft)
              (contract_value state) "adopt" actor
              (stored (JDict [("lane", JStr lane_n); ("ref_id", opt_json JStr ref_id)])) st.(sp_now))
     end.

Definition rehash (r : ContractRow) : result tc_error string :=
  tc ← from_dict (body_dict r); Ok (contract_hash tc).
Definition set_state (contract_id state now : string) (db : ContractDb) : ContractDb :=
  mkContractDb (update_where (with_id contract_id) (λ r, r <| cr_state := state |> <| cr_updated_at := now |>) db.(cd_contracts))
    db.(cd_transitions).

(** [transition] up to its [UPDATE]. *)
Definition transition_select (contract_id to_state reason actor : string) (evidence : dict) (expected_hash : option string)
    (st : Stamp) (db : ContractDb) : result tc_error cursor :=
  match List.find (with_id contract_id) db.(cd_contracts) with
  | None => Err (KeyError contract_id)
  | Some row =>
      let current := row.(cr_state) in
      let digest := row.(cr_contract_hash) in
      recomputed ← rehash row;
      if negb (bool_decide (recomputed = digest)) then Err BodyDoesNotRehash
      else
        dst ← map_err Lifecycle (validate_transition current to_state (Some digest) (Some (default digest expected_hash)));
        Ok (if bool_decide (current = contract_value dst) then Answered row
            else WriteState contract_id (contract_value dst) st.(sp_now)
                   (mkTransitionRow st.(sp_transition_id) contract_id digest current (contract_value dst)
                      reason actor (stored (JDict evidence)) st.(sp_now)))
  end.

(** The next statement of a call. *)
Definition statement (c : cursor) : contract_op cursor := λ db,
  match c with
  | WriteContract row log =>
      match insert_contract row db with (Ok _, db) => (Ok (WriteLog row.(cr_id) log), db) | (Err e, db) => (Err e, db) end
  | WriteState contract_id state now log => (Ok (WriteLog contract_id log), set_state contract_id state now db)
  | WriteLog contract_id log =>
      match insert_transition log db with (Ok _, db) => (Ok (ReadBack contract_id), db) | (Err e, db) => (Err e, db) end
  | ReadBack contract_id =>
      match List.find (with_id contract_id) db.(cd_contracts) with
      | Some row => (Ok (Answered row), db)
      | None => (Err RowMissing, db)
      end
  | Answered row => (Ok (Answered row), db)
  end.
(** No call has more than three statements after its [SELECT]. *)
Fixpoint statements (n : nat) (c : cursor) : contract_op cursor := λ db,
  match n with
  | O => (Ok c, db)
  | S n => match statement c db with (Ok c', db') => statements n c' db' | (Err e, db') => (Err e, db') end
  end.
(** A call whose statements nothing comes between. *)
Definition completed (selected : ContractDb → result tc_error cursor) : contract_op ContractRow := λ db,
  match selected db with
  | Err e => (Err e, db)
  | Ok c => match statements 3 c db with
            | (Ok (Answered row), db') => (Ok row, db')
            | (Ok _, db') => (Err RowMissing, db')
            | (Err e, db') => (Err e, db')
            end
  end.
Definition adopt (g : given) (lane : string) (ref_id : option string) (actor : string) (metadata : dict)
    (initial_state : string) (st : Stamp) : contract_op ContractRow :=
  completed (adopt_select g lane ref_id actor metadata initial_state st).
Definition transition (contract_id to_state reason actor : string) (evidence : dict) (expected_hash : option string)
    (st : Stamp) : contract_op ContractRow :=
  completed (transition_select contract_id to_state reason actor evidence expected_hash st).

(** ** Queries *)

Definition get (contract_id : string) (db : ContractDb) : option ContractRow :=
  List.find (with_id contract_id) db.(cd_contracts).
(** [ORDER BY updated_at DESC]: among equals the later row comes first. *)
Definition newest_first (l : list ContractRow) : list ContractRow := rev (sort_by cr_updated_at l).
Definition get_by_hash (contract_hash : string) (lane ref_id : option string) (db : ContractDb) : result tc_error (option ContractRow) :=
  match lane with
  | Some lane =>
      lane_n ← map_err Lifecycle (assert_supported_lane lane);
      Ok (head (newest_first (select (adopted_as contract_hash lane_n ref_id) db.(cd_contracts))))
  | None =>
      Ok (head (newest_first (select (λ r, bool_decide (r.(cr_contract_hash) = contract_hash)) db.(cd_contracts))))
  end.
Definition list_for_ref (lane ref_id : string) (db : ContractDb) : result tc_error (list ContractRow) :=
  lane_n ← map_err Lifecycle (assert_supported_lane lane);
  Ok (newest_first (select (λ r, bool_decide (r.(cr_lane) = lane_n) && bool_decide (r.(cr_ref_id) = Some ref_id)) db.(cd_contracts))).
Definition list_transitions (contract_id : string) (db : ContractDb) : list TransitionRow :=
  sort_by tr_created_at (select (λ t, bool_decide (t.(tr_contract_id) = contract_id)) db.(cd_transitions)).
Definition assert_hash_identity (contract_id : string) (db : ContractDb) : result tc_error string :=
  match get contract_id db with
  | None => Err (KeyError contract_id)
  | Some r => recomputed ← rehash r;
              if bool_decide (recomputed = r.(cr_contract_hash)) then Ok recomputed else Err BodyDoesNotRehash
  end.

(** ** Calls *)

Inductive contract_call :=
  | CallAdopt (g : given) (lane : string) (ref_id : option string) (actor : string) (metadata : dict) (initial_state : string) (st : Stamp)
  | CallTransition (contract_id to_state reason actor : string) (evidence : dict) (expected_hash : option string) (st : Stamp).
Definition contract_call_step (db : ContractDb) (c : contract_call) : ContractDb :=
  match c with
  | CallAdopt g lane ref_id actor metadata initial_state st => (adopt g lane ref_id actor metadata initial_state st db).2
  | CallTransition id to_state reason actor evidence expected_hash st =>
      (transition id to_state reason actor evidence expected_hash st db).2
  end.
Definition run_contract_calls (db : ContractDb) (l : list contract_call) : ContractDb := foldl contract_call_step db l.

(** ** Several stores on one database *)

(** A store serializes its own calls by its lock; the stores of other processes, or of other threads with a
    connection of their own, come in between any two statements. *)
Definition call_select (c : contract_call) : ContractDb → result tc_error cursor :=
  match c with
  | CallAdopt g lane ref_id actor metadata initial_state st => adopt_select g lane ref_id actor metadata initial_state st
  | CallTransition id to_state reason actor evidence expected_hash st =>
      transition_select id to_state reason actor evidence expected_hash st
  end.

(** A store starts a call, runs its next statement, or ends it there: the process dies or the database raises. *)
Inductive store_event := Begins (store : nat) (c : contract_call) | Runs (store : nat) | Ends (store : nat).
(** [sm_lost] are the log rows of calls that ended between their first write and the row. *)
Record Stores := mkStores { sm_db : ContractDb; sm_running : list (nat * cursor); sm_lost : list TransitionRow }.

Definition of_store (i : nat) (p : nat * cursor) : bool := (p.1 =? i)%nat.
Definition others (i : nat) (l : list (nat * cursor)) : list (nat * cursor) := List.filter (λ p, negb (of_store i p)) l.
(** The log row a call still owes for what it wrote. *)
Definition owed (c : cursor) : list TransitionRow := match c with WriteLog _ log => [log] | _ => [] end.
Definition settled_cursor (c : cursor) : bool := match c with Answered _ => true | _ => false end.

Definition store_step (s : Stores) (e : store_event) : Stores :=
  match e with
  | Begins i c =>
      if existsb (of_store i) s.(sm_running) then s
      else match call_select c s.(sm_db) with
           | Err _ => s
           | Ok c => if settled_cursor c then s else mkStores s.(sm_db) ((i, c) :: s.(sm_running)) s.(sm_lost)
           end
  | Runs i =>
      match List.find (of_store i) s.(sm_running) with
      | None => s
      | Some (_, c) =>
          match statement c s.(sm_db) with
          | (Ok c', db) => mkStores db (if settled_cursor c' then others i s.(sm_running) else (i, c') :: others i s.(sm_running)) s.(sm_lost)
          | (Err _, db) => mkStores db (others i s.(sm_running)) (owed c ++ s.(sm_lost))
          end
      end
  | Ends i =>
      match List.find (of_store i) s.(sm_running) with
      | None => s
      | Some (_, c) => mkStores s.(sm_db) (others i s.(sm_running)) (owed c ++ s.(sm_lost))
      end
  end.
Definition run_stores (s : Stores) (l : list store_event) : Stores := foldl store_step s l.
End store.
