(* ===== verification/TaskContractSpec.v ===== *)
(** * TaskContractSpec: theorems about task contracts and their store *)

From Stdlib Require Import Ascii QArith.
From S2P Require Import Prelude PyString PyJson JsonText Records StateMachines TaskContract.
Open Scope Z_scope.

(** ** Stripped texts *)

Lemma rstrip_by_idem p s : rstrip_by p (rstrip_by p s) = rstrip_by p s.
Proof.
  induction s as [|c s IH]; [done|]. cbn. destruct (rstrip_by p s) as [|d t] eqn:E.
  - destruct (p c) eqn:Ec; [done|]. cbn. by rewrite Ec.
  - change (rstrip_by p (String c (String d t))) with
      (match rstrip_by p (String d t) with "" => if p c then "" else String c "" | r => String c r end).
    by rewrite IH.
Qed.
Lemma lstrip_by_head p s c t : lstrip_by p s = String c t → p c = false.
Proof. induction s as [|d s IH]; cbn; [done|]. destruct (p d) eqn:E; [exact IH|]. by intros [= <- _]. Qed.
Lemma rstrip_by_head p s c t : rstrip_by p s = String c t → ∃ u, s = String c u.
Proof.
  destruct s as [|d s]; cbn; [done|]. destruct (rstrip_by p s); [destruct (p d); [done|]|]; intros [= -> _]; eauto.
Qed.
Lemma strip_idem s : strip (strip s) = strip s.
Proof.
  unfold strip, strip_by. rewrite lstrip_by_id; [apply rstrip_by_idem|].
  intros c t Ht. apply rstrip_by_head in Ht as [u Hu]. by apply lstrip_by_head in Hu.
Qed.

Definition tidy (s : string) : Prop := strip s = s ∧ s ≠ "".
Lemma tidy_strip s : strip s ≠ "" → tidy (strip s).
Proof. split; [apply strip_idem|done]. Qed.

(** ** Rearranged values *)

(** A function that rearranges the members of dictionaries and nothing else. *)
Record layout (g : json → json) : Prop := {
  lay_scalar v : match v with JList _ | JDict _ => False | _ => True end → g v = v;
  lay_list l : g (JList l) = JList (map g l);
  lay_dict l : ∃ m, g (JDict l) = JDict m ∧ (NoDup (map fst l) → ∀ k, dict_get k m = g <$> dict_get k l) ∧ (m = [] ↔ l = []);
}.

Lemma layout_id : layout id.
Proof.
  split; [done|by intros l; rewrite map_id|]. intros l. exists l. split_and!; [done| |done].
  intros _ k. by destruct (dict_get k l).
Qed.

Lemma layout_sort : layout sort_keys.
Proof.
  split; [by intros []|done|]. intros l. eexists. split_and!; [done| |].
  - intros Hnd k. rewrite <-(dict_get_perm k (map (λ p, (p.1, sort_keys p.2)) l)); [|by rewrite map_map|by rewrite sort_by_perm].
    apply dict_get_map.
  - split; [|by intros ->]. intros E. apply (f_equal length) in E. rewrite sort_by_perm, length_map in E.
    by apply length_zero_iff_nil.
Qed.

Section layouts.
Context (g : json → json) (Hg : layout g).

Definition entries (d : dict) : dict := match g (JDict d) with JDict m => m | _ => [] end.

Lemma entries_spec d : g (JDict d) = JDict (entries d) ∧ (NoDup (map fst d) → ∀ k, dict_get k (entries d) = g <$> dict_get k d) ∧
  (entries d = [] ↔ d = []).
Proof. unfold entries. destruct (lay_dict _ Hg d) as (m & -> & ?). done. Qed.
Lemma layout_dict d : g (JDict d) = JDict (entries d).
Proof. apply entries_spec. Qed.

Lemma layout_strs l : g (strs l) = strs l.
Proof.
  unfold strs. rewrite (lay_list _ Hg). f_equal. rewrite map_map. apply map_ext. intros s. by apply (lay_scalar _ Hg).
Qed.
Lemma layout_opt {A} (f : A → json) o : (∀ a, g (f a) = f a) → g (opt_json f o) = opt_json f o.
Proof. intros Hf. destruct o; [apply Hf|by apply (lay_scalar _ Hg)]. Qed.
Lemma layout_str s : g (JStr s) = JStr s.
Proof. by apply (lay_scalar _ Hg). Qed.
Lemma layout_int n : g (JInt n) = JInt n.
Proof. by apply (lay_scalar _ Hg). Qed.
Lemma layout_bool b : g (JBool b) = JBool b.
Proof. by apply (lay_scalar _ Hg). Qed.
Lemma layout_float x : g (JFloat x) = JFloat x.
Proof. by apply (lay_scalar _ Hg). Qed.
Lemma layout_null : g JNull = JNull.
Proof. by apply (lay_scalar _ Hg). Qed.

Definition relayout_gate (a : Gate) : Gate :=
  mkGate a.(ga_command) a.(ga_cwd) a.(ga_timeout_s) a.(ga_expected_exit) (entries a.(ga_thresholds)) a.(ga_blocking).
Definition relayout (c : TaskContract) : TaskContract :=
  c <| tc_metadata := entries c.(tc_metadata) |> <| tc_gates := map relayout_gate c.(tc_gates) |>.
End layouts.

(** ** What reading yields *)

Definition tidy_opt (o : option string) : Prop := ∀ s, o = Some s → tidy s.
Record normal_gate (a : Gate) : Prop := { ng_command : tidy a.(ga_command); ng_cwd : tidy_opt a.(ga_cwd) }.
Record normal (c : TaskContract) : Prop := {
  no_objective : tidy c.(tc_objective);
  no_criteria : c.(tc_acceptance_criteria) ≠ [];
  no_criterion : ∀ a, a ∈ c.(tc_acceptance_criteria) → tidy a.(ac_id) ∧ tidy a.(ac_condition);
  no_ids : NoDup (map ac_id c.(tc_acceptance_criteria));
  no_sets : ∀ s, s ∈ c.(tc_read_set) ++ c.(tc_write_set) ++ c.(tc_out_of_scope_paths) ++ c.(tc_non_goals)
                  ++ c.(tc_security_requirements) ++ c.(tc_performance_requirements) → tidy s;
  no_lease : tidy_opt c.(tc_lease).(lf_lease_id) ∧ tidy_opt c.(tc_lease).(lf_holder) ∧ tidy_opt c.(tc_lease).(lf_expires_at);
  no_ids_opt : tidy_opt c.(tc_task_id) ∧ tidy_opt c.(tc_lineage_id) ∧ tidy_opt c.(tc_escalation_path) ∧ tidy_opt c.(tc_handoff_role);
  no_version : 1 ≤ c.(tc_version);
  no_gates : ∀ a, a ∈ c.(tc_gates) → normal_gate a;
}.

Section reading.
Context `{ContractHost}.

Lemma text_member_tidy raw key : text_member raw key ≠ "" → tidy (text_member raw key).
Proof.
  unfold text_member. destruct (dict_get key raw) as [v|]; [|done]. destruct (truthy v); [|done]. apply tidy_strip.
Qed.
Lemma opt_str_tidy v : tidy_opt (opt_str v).
Proof.
  intros s. destruct v as [v|]; [|done]. assert (opt_str (Some v) = None ∨ ∃ t, opt_str (Some v) = (if bool_decide (strip t = "") then None else Some (strip t))) as [->|[t ->]]; [|done|].
  { destruct v; [by left|right; by eexists..]. }
  case_bool_decide as Ht; [done|]. intros [= <-]. by apply tidy_strip.
Qed.
Lemma path_set_tidy raw key l s : normalize_path_set raw key = Ok l → s ∈ l → tidy s.
Proof.
  unfold normalize_path_set. rewrite bind_Ok. intros (items & _ & [= <-]) Hs.
  apply list_elem_of_In, filter_In in Hs as [Hs Hne]. apply in_map_iff in Hs as (v & <- & _).
  apply negb_true_iff, bool_decide_eq_false in Hne. by apply tidy_strip.
Qed.
Lemma criterion_tidy raw a : criterion_from_dict raw = Ok a → tidy a.(ac_id) ∧ tidy a.(ac_condition).
Proof.
  unfold criterion_from_dict. case_bool_decide; [done|]. case_bool_decide; [done|]. intros [= <-].
  split; by apply text_member_tidy.
Qed.
Lemma gate_normal raw a : gate_from_dict raw = Ok a → normal_gate a.
Proof.
  unfold gate_from_dict. case_bool_decide; [done|]. rewrite bind_Ok. intros (t & _ & Hk). rewrite bind_Ok in Hk.
  destruct Hk as (x & _ & Hk). rewrite bind_Ok in Hk. destruct Hk as (th & _ & [= <-]).
  split; cbn; [by apply text_member_tidy|apply opt_str_tidy].
Qed.

Lemma traverse_each {A B} (f : A → result tc_error B) (P : B → Prop) l k :
  traverse f l = Ok k → (∀ x y, f x = Ok y → P y) → ∀ y, y ∈ k → P y.
Proof.
  intros Ht Hf y Hy. apply traverse_Ok in Ht. apply list_elem_of_lookup in Hy as [i Hi].
  destruct (Forall2_lookup_r _ _ _ _ _ Ht Hi) as (x & _ & E). by apply (Hf x).
Qed.

Lemma from_dict_normal d c : from_dict d = Ok c → normal c.
Proof.
  unfold from_dict. case_bool_decide as Hobj; [done|].
  rewrite bind_Ok; intros (craw & _ & Hk). rewrite bind_Ok in Hk; destruct Hk as (criteria & Hcr & Hk).
  case_bool_decide as Hne; [done|]. case_bool_decide as Hnd; [|done]. cbn [negb] in Hk.
  destruct (risk_class _) as [risk|]; [|done].
  rewrite bind_Ok in Hk; destruct Hk as (version & _ & Hk). destruct (version <? 1) eqn:Ev; [done|]. apply Z.ltb_ge in Ev.
  repeat (rewrite bind_Ok in Hk; let x := fresh "x" in let E := fresh "E" in destruct Hk as (x & E & Hk)).
  injection Hk as <-. split; cbn; try done.
  - by apply text_member_tidy.
  - by apply (traverse_each _ _ _ _ Hcr), criterion_tidy.
  - intros s. rewrite !elem_of_app. intros Hs.
    repeat (destruct Hs as [Hs|Hs]; [eapply path_set_tidy; [|exact Hs]; eassumption|]).
    eapply path_set_tidy; [|exact Hs]; eassumption.
  - unfold lease_from_dict in *. 
    match goal with E : (_ ≫= _) = Ok ?l |- context [lf_lease_id ?l] => rewrite bind_Ok in E; destruct E as (? & _ & [= <-]) end.
    split_and!; apply opt_str_tidy.
  - split_and!; apply opt_str_tidy.
  - match goal with E : traverse gate_from_dict _ = Ok _ |- _ => by apply (traverse_each _ _ _ _ E), gate_normal end.
Qed.

(** ** Members of a written contract *)

Lemma dict_get_when_some {A} k key (f : A → json) o :
  dict_get k (when_some key f o) = if bool_decide (key = k) then f <$> o else None.
Proof. destruct o; cbn [when_some]; [rewrite dict_get_cons|]; by case_bool_decide. Qed.
Lemma dict_get_when_any {A} k key (f : list A → json) l :
  dict_get k (when_any key f l) = if bool_decide (key = k) then match l with [] => None | _ => Some (f l) end else None.
Proof. destruct l; cbn [when_any]; [|rewrite dict_get_cons]; by case_bool_decide. Qed.
Lemma dict_get_nil {A} k : dict_get (A := A) k [] = None.
Proof. done. Qed.
End reading.

(** Look a literal key up in a written dictionary. *)
Ltac literal_lookup :=
  unfold to_dict, fixed_members, identity_members, optional_members, criterion_to_dict, gate_to_dict, budgets_to_dict,
    lease_to_dict;
  rewrite ?dict_get_app, ?dict_get_when_some, ?dict_get_when_any, ?dict_get_cons, ?dict_get_nil;
  repeat match goal with
  | |- context [@bool_decide (?a = ?b) ?i] =>
      let v := eval vm_compute in (@bool_decide (a = b) i) in change (@bool_decide (a = b) i) with v; cbv iota
  end.

Ltac literal_member := literal_lookup; by repeat case_match.

Section members.
Context `{ContractHost} (g : json → json) (Hg : layout g) (d e : dict).
Hypothesis (Hd : ∀ k, dict_get k d = g <$> dict_get k e).

Lemma text_back k s : dict_get k e = Some (JStr s) → tidy s → text_member d k = s.
Proof.
  intros He [Hs Hne]. unfold text_member. rewrite Hd, He. cbn [fmap option_fmap option_map]. rewrite layout_str by done.
  cbn [truthy]. rewrite bool_decide_eq_false_2 by done. exact Hs.
Qed.
Lemma opt_str_back k o : dict_get k e = Some (opt_json JStr o) ∨ dict_get k e = JStr <$> o → tidy_opt o →
  opt_str (dict_get k d) = o.
Proof.
  intros He Ho. rewrite Hd. destruct He as [-> | ->]; destruct o as [s|]; cbn [opt_json fmap option_fmap option_map];
    rewrite ?layout_str, ?layout_null by done; try done; cbn [opt_str];
    destruct (Ho s eq_refl) as [Hs Hne]; change (text_of (JStr s)) with s; rewrite Hs; by rewrite bool_decide_eq_false_2.
Qed.
Lemma opt_int_back k o : dict_get k e = Some (opt_json JInt o) ∨ dict_get k e = JInt <$> o →
  opt_int (dict_get k d) = Ok o.
Proof.
  intros He. rewrite Hd. destruct He as [-> | ->]; destruct o as [n|]; cbn [opt_json fmap option_fmap option_map];
    by rewrite ?layout_int, ?layout_null by done.
Qed.
Lemma opt_float_back k o : dict_get k e = Some (opt_json JFloat o) → opt_float (dict_get k d) = Ok o.
Proof.
  intros He. rewrite Hd, He. destruct o as [x|]; cbn [opt_json fmap option_fmap option_map];
    by rewrite ?layout_float, ?layout_null by done.
Qed.
Lemma int_back k n a : dict_get k e = Some (JInt n) → int_member d k a = Ok n.
Proof. intros He. unfold int_member. rewrite Hd, He. cbn [fmap option_fmap option_map]. by rewrite layout_int. Qed.
Lemma dict_back k m : dict_get k e = Some (JDict m) → as_dict (dict_get k d) = Ok (entries g m).
Proof.
  intros He. rewrite Hd, He. cbn [fmap option_fmap option_map]. rewrite layout_dict by done. cbn.
  by destruct (entries g m).
Qed.
Lemma list_back err k l : dict_get k e = Some (JList l) ∨ dict_get k e = match l with [] => None | _ => Some (JList l) end →
  list_member err d k = Ok (map g l).
Proof.
  intros He. unfold list_member. rewrite Hd. destruct He as [-> | ->]; destruct l as [|v l];
    cbn [fmap option_fmap option_map]; rewrite ?(lay_list _ Hg) by done; done.
Qed.
Lemma path_set_back k l : dict_get k e = Some (strs l) ∨ dict_get k e = match l with [] => None | _ => Some (strs l) end →
  (∀ s, s ∈ l → tidy s) → normalize_path_set d k = Ok l.
Proof.
  intros He Hl. unfold normalize_path_set. rewrite (list_back SetNotList k (map JStr l)); [|by destruct l].
  cbn [mbind result_mbind]. f_equal. rewrite !map_map. clear He. induction l as [|s l IH]; [done|]. cbn [map List.filter].
  rewrite layout_str by done. change (text_of (JStr s)) with s. destruct (Hl s) as [Hs Hne]; [by left|].
  rewrite Hs, bool_decide_eq_false_2 by done. cbn [negb]. f_equal. apply IH. intros t Ht. apply Hl. by right.
Qed.
End members.

Lemma entries_id m : entries id m = m.
Proof. done. Qed.

Section back.
Context `{ContractHost} (g : json → json) (Hg : layout g).

Lemma entries_get l k : NoDup (map fst l) → dict_get k (entries g l) = g <$> dict_get k l.
Proof. intros. by apply entries_spec. Qed.

Lemma criterion_back a : tidy a.(ac_id) → tidy a.(ac_condition) →
  criterion_from_dict (entries g (criterion_to_dict a)) = Ok a.
Proof.
  intros Hi Hc. assert (∀ k, dict_get k (entries g (criterion_to_dict a)) = g <$> dict_get k (criterion_to_dict a)) as Hd.
  { intros k. apply entries_get. literal_keys. }
  unfold criterion_from_dict.
  rewrite (text_back g Hg _ _ Hd "id" a.(ac_id)) by (done || by literal_lookup).
  rewrite (text_back g Hg _ _ Hd "condition" a.(ac_condition)) by (done || by literal_lookup).
  destruct Hi as [_ Hi], Hc as [_ Hc]. rewrite !bool_decide_eq_false_2 by done. rewrite Hd. literal_lookup.
  cbn [fmap option_fmap option_map]. rewrite layout_bool by done. by destruct a.
Qed.

Lemma gate_back a : normal_gate a → gate_from_dict (entries g (gate_to_dict a)) = Ok (relayout_gate g a).
Proof.
  intros [Hc Hw]. assert (∀ k, dict_get k (entries g (gate_to_dict a)) = g <$> dict_get k (gate_to_dict a)) as Hd.
  { intros k. apply entries_get. literal_keys. }
  unfold gate_from_dict. rewrite (text_back g Hg _ _ Hd "command" a.(ga_command)) by (done || by literal_lookup).
  rewrite bool_decide_eq_false_2 by apply Hc.
  rewrite (int_back g Hg _ _ Hd "timeout_s" a.(ga_timeout_s)) by by literal_lookup.
  rewrite (int_back g Hg _ _ Hd "expected_exit" a.(ga_expected_exit)) by by literal_lookup.
  rewrite (dict_back g Hg _ _ Hd "thresholds" a.(ga_thresholds)) by by literal_lookup.
  rewrite (opt_str_back g Hg _ _ Hd "cwd" a.(ga_cwd)) by (done || by (left; literal_lookup)).
  cbn [mbind result_mbind]. rewrite Hd. literal_lookup. cbn [fmap option_fmap option_map]. by rewrite layout_bool.
Qed.

Lemma budgets_back b : budgets_from_dict (entries g (budgets_to_dict b)) = Ok b.
Proof.
  assert (∀ k, dict_get k (entries g (budgets_to_dict b)) = g <$> dict_get k (budgets_to_dict b)) as Hd.
  { intros k. apply entries_get. literal_keys. }
  unfold budgets_from_dict.
  rewrite (opt_int_back g Hg _ _ Hd "max_tokens" b.(bu_max_tokens)) by (left; by literal_lookup).
  rewrite (opt_float_back g Hg _ _ Hd "max_cost_usd" b.(bu_max_cost_usd)) by by literal_lookup.
  rewrite (opt_int_back g Hg _ _ Hd "max_wall_seconds" b.(bu_max_wall_seconds)) by (left; by literal_lookup).
  rewrite (opt_int_back g Hg _ _ Hd "max_tool_calls" b.(bu_max_tool_calls)) by (left; by literal_lookup).
  by destruct b.
Qed.

Lemma lease_back l : tidy_opt l.(lf_lease_id) → tidy_opt l.(lf_holder) → tidy_opt l.(lf_expires_at) →
  lease_from_dict (entries g (lease_to_dict l)) = Ok l.
Proof.
  intros Hi Hh He. assert (∀ k, dict_get k (entries g (lease_to_dict l)) = g <$> dict_get k (lease_to_dict l)) as Hd.
  { intros k. apply entries_get. literal_keys. }
  unfold lease_from_dict.
  rewrite (opt_str_back g Hg _ _ Hd "lease_id" l.(lf_lease_id)) by (done || by (left; literal_lookup)).
  rewrite (opt_str_back g Hg _ _ Hd "holder" l.(lf_holder)) by (done || by (left; literal_lookup)).
  rewrite (opt_str_back g Hg _ _ Hd "expires_at" l.(lf_expires_at)) by (done || by (left; literal_lookup)).
  rewrite Hd. literal_lookup. cbn [fmap option_fmap option_map]. rewrite layout_int by done. by destruct l.
Qed.

Lemma mappings_back {A} (f : A → dict) l :
  mappings (map g (map (λ a, JDict (f a)) l)) = map (λ a, entries g (f a)) l.
Proof. unfold mappings. induction l as [|a l IH]; [done|]. cbn [map omap list_omap]. by rewrite layout_dict, IH. Qed.

Lemma mappings_written {A} (f : A → dict) l : mappings (map (λ a, JDict (f a)) l) = map f l.
Proof. unfold mappings. induction l as [|a l IH]; [done|]. cbn [map omap list_omap]. by rewrite IH. Qed.

Lemma traverse_back {A} (f : A → dict) (h : dict → result tc_error A) (m : A → A) l :
  (∀ a, a ∈ l → h (entries g (f a)) = Ok (m a)) → traverse h (map (λ a, entries g (f a)) l) = Ok (map m l).
Proof.
  intros Hh. apply traverse_Ok, Forall2_fmap_l, Forall2_fmap_r, Forall_Forall2_diag, Forall_forall. exact Hh.
Qed.

Section whole.
Context (d : dict) (c : TaskContract) (Hc : normal c) (Hd : ∀ k, dict_get k d = g <$> dict_get k (to_dict c)).

Lemma risk_back : risk_class (risk_text d) = Some c.(tc_risk_class).
Proof.
  unfold risk_text. rewrite Hd. literal_lookup. cbn [fmap option_fmap option_map]. rewrite layout_str by done.
  by destruct (tc_risk_class c).
Qed.
Lemma version_back : version_of d = Ok c.(tc_version).
Proof.
  unfold version_of. rewrite Hd. literal_lookup. cbn [fmap option_fmap option_map]. rewrite layout_int by done.
  pose proof (no_version _ Hc) as Hv. by destruct (tc_version c).
Qed.
Lemma criteria_back : ∃ l, list_member CriteriaNotList d "acceptance_criteria" = Ok l ∧
  traverse criterion_from_dict (mappings l) = Ok c.(tc_acceptance_criteria).
Proof.
  eexists. split; [apply (list_back g Hg _ _ Hd); left; literal_lookup; reflexivity|].
  rewrite mappings_back, (traverse_back criterion_to_dict criterion_from_dict id), map_id; [done|].
  intros a Ha. by apply criterion_back; apply (no_criterion _ Hc).
Qed.
Lemma gates_back : ∃ l, list_member GatesNotList d "gates" = Ok l ∧
  traverse gate_from_dict (mappings l) = Ok (map (relayout_gate g) c.(tc_gates)).
Proof.
  eexists. split.
  - apply (list_back g Hg _ _ Hd) with (l := map (λ a, JDict (gate_to_dict a)) c.(tc_gates)). right. literal_lookup.
    by destruct (tc_gates c).
  - rewrite mappings_back. apply traverse_back. intros a Ha. by apply gate_back, (no_gates _ Hc).
Qed.
Lemma budgets_member_back : budgets_from_dict (budgets_raw d) = Ok c.(tc_budgets).
Proof.
  unfold budgets_raw. rewrite Hd. literal_lookup. cbn [fmap option_fmap option_map]. rewrite layout_dict by done.
  apply budgets_back.
Qed.
Lemma lease_member_back : lease_from_dict (lease_raw d) = Ok c.(tc_lease).
Proof.
  unfold lease_raw. rewrite Hd. literal_lookup. cbn [fmap option_fmap option_map]. rewrite layout_dict by done.
  by apply lease_back; apply (no_lease _ Hc).
Qed.

Lemma read_written : from_dict d = Ok (relayout g c).
Proof.
  pose proof (no_sets _ Hc) as Hsets. repeat setoid_rewrite elem_of_app in Hsets.
  destruct (no_ids_opt _ Hc) as (Ho1 & Ho2 & Ho3 & Ho4), criteria_back as (l & El & Et), gates_back as (m & Em & Eg).
  unfold from_dict. rewrite (text_back g Hg _ _ Hd "objective" c.(tc_objective)) by (apply Hc || by literal_lookup).
  rewrite bool_decide_eq_false_2, El by apply Hc. cbn [mbind result_mbind]. rewrite Et. cbn [mbind result_mbind].
  rewrite (bool_decide_eq_false_2 (tc_acceptance_criteria c = [])), bool_decide_eq_true_2, risk_back, version_back by apply Hc.
  cbn [negb mbind result_mbind]. destruct (Z.ltb_spec (tc_version c) 1); [pose proof (no_version _ Hc); lia|].
  rewrite Em. cbn [mbind result_mbind]. rewrite Eg, budgets_member_back, lease_member_back. cbn [mbind result_mbind].
  rewrite (path_set_back g Hg _ _ Hd "read_set" c.(tc_read_set)) by (auto || by (left; literal_lookup)).
  rewrite (path_set_back g Hg _ _ Hd "write_set" c.(tc_write_set)) by (auto || by (left; literal_lookup)).
  rewrite (path_set_back g Hg _ _ Hd "out_of_scope_paths" c.(tc_out_of_scope_paths)) by (auto 10 || by (right; literal_member)).
  rewrite (path_set_back g Hg _ _ Hd "non_goals" c.(tc_non_goals)) by (auto 10 || by (right; literal_member)).
  rewrite (path_set_back g Hg _ _ Hd "security_requirements" c.(tc_security_requirements))
    by (auto 10 || by (right; literal_member)).
  rewrite (path_set_back g Hg _ _ Hd "performance_requirements" c.(tc_performance_requirements))
    by (auto 10 || by (right; literal_member)).
  rewrite (dict_back g Hg _ _ Hd "metadata" c.(tc_metadata)) by by literal_lookup.
  rewrite (opt_int_back g Hg _ _ Hd "retry_limit" c.(tc_retry_limit)) by (right; literal_member).
  cbn [mbind result_mbind].
  rewrite (opt_str_back g Hg _ _ Hd "task_id" c.(tc_task_id)) by (done || by (left; literal_lookup)).
  rewrite (opt_str_back g Hg _ _ Hd "lineage_id" c.(tc_lineage_id)) by (done || by (left; literal_lookup)).
  rewrite (opt_str_back g Hg _ _ Hd "escalation_path" c.(tc_escalation_path)) by (done || by (right; literal_member)).
  by rewrite (opt_str_back g Hg _ _ Hd "handoff_role" c.(tc_handoff_role)) by (done || by (right; literal_member)).
Qed.
End whole.
(** A body is read the same in any layout: no member that is shown as text is a container. *)
Section same.
Context (e d : dict) (Hd : ∀ k, dict_get k d = g <$> dict_get k e).
Lemma same_member k : (∀ v, dict_get k e = Some v → g v = v) → dict_get k d = dict_get k e.
Proof. intros Hv. rewrite Hd. destruct (dict_get k e) as [v|]; [|done]. cbn. by rewrite Hv. Qed.
End same.

Ltac fixed_member :=
  let v := fresh "v" in intros v; literal_lookup; unfold opt_json;
  intros; repeat case_match; simplify_eq;
  repeat match goal with E : _ <$> _ = Some _ |- _ => apply fmap_Some in E as (? & _ & ->) end;
  first [apply layout_str | apply layout_int | apply layout_float | apply layout_bool | apply layout_null | apply layout_strs]; exact Hg.

Lemma criterion_same a :
  criterion_from_dict (entries g (criterion_to_dict a)) = criterion_from_dict (criterion_to_dict a).
Proof.
  assert (∀ k, dict_get k (entries g (criterion_to_dict a)) = g <$> dict_get k (criterion_to_dict a)) as Hd.
  { intros k. apply entries_get. literal_keys. }
  pose proof (same_member _ _ Hd) as Hs. unfold criterion_from_dict, text_member.
  rewrite (Hs "id"), (Hs "condition"), (Hs "evidence_required"); [done|fixed_member..].
Qed.
Lemma budgets_same b : budgets_from_dict (entries g (budgets_to_dict b)) = budgets_from_dict (budgets_to_dict b).
Proof.
  assert (∀ k, dict_get k (entries g (budgets_to_dict b)) = g <$> dict_get k (budgets_to_dict b)) as Hd.
  { intros k. apply entries_get. literal_keys. }
  pose proof (same_member _ _ Hd) as Hs. unfold budgets_from_dict.
  rewrite (Hs "max_tokens"), (Hs "max_cost_usd"), (Hs "max_wall_seconds"), (Hs "max_tool_calls"); [done|fixed_member..].
Qed.
Lemma lease_same l : lease_from_dict (entries g (lease_to_dict l)) = lease_from_dict (lease_to_dict l).
Proof.
  assert (∀ k, dict_get k (entries g (lease_to_dict l)) = g <$> dict_get k (lease_to_dict l)) as Hd.
  { intros k. apply entries_get. literal_keys. }
  pose proof (same_member _ _ Hd) as Hs. unfold lease_from_dict.
  rewrite (Hs "lease_id"), (Hs "holder"), (Hs "expires_at"), (Hs "generation"); [done|fixed_member..].
Qed.
Lemma gate_same a :
  gate_from_dict (entries g (gate_to_dict a)) = relayout_gate g <$> gate_from_dict (gate_to_dict a).
Proof.
  assert (∀ k, dict_get k (entries g (gate_to_dict a)) = g <$> dict_get k (gate_to_dict a)) as Hd.
  { intros k. apply entries_get. literal_keys. }
  pose proof (same_member _ _ Hd) as Hs. unfold gate_from_dict, text_member, int_member.
  rewrite (Hs "command"), (Hs "timeout_s"), (Hs "expected_exit"), (Hs "cwd"), (Hs "blocking"); [|fixed_member..].
  rewrite (dict_back g Hg _ _ Hd "thresholds" a.(ga_thresholds)) by by literal_lookup.
  rewrite (dict_back id layout_id _ (gate_to_dict a)) with (m := a.(ga_thresholds)) (k := "thresholds");
    [|intros k; by destruct (dict_get k _)|by literal_lookup].
  rewrite entries_id. case_bool_decide; [done|].
  do 2 (match goal with |- context [?m ≫= _] => destruct m end; [|done]). done.
Qed.

Section whole.
Context (d : dict) (c : TaskContract) (Hd : ∀ k, dict_get k d = g <$> dict_get k (to_dict c)).
Let Hs := same_member (to_dict c) d Hd.

Lemma list_written err k l : dict_get k (to_dict c) = Some (JList l) ∨ dict_get k (to_dict c) = match l with [] => None | _ => Some (JList l) end →
  list_member err d k = Ok (map g l) ∧ list_member err (to_dict c) k = Ok l.
Proof.
  intros Hl. split; [by apply (list_back g Hg _ _ Hd)|].
  rewrite <-(map_id l). apply (list_back id layout_id _ (to_dict c)); [|done]. intros k'. by destruct (dict_get k' _).
Qed.

Lemma path_set_same k : (∀ v, dict_get k (to_dict c) = Some v → g v = v) → normalize_path_set d k = normalize_path_set (to_dict c) k.
Proof. intros Hk. unfold normalize_path_set, list_member. by rewrite (Hs k Hk). Qed.
Lemma opt_int_same k : (∀ v, dict_get k (to_dict c) = Some v → g v = v) → opt_int (dict_get k d) = opt_int (dict_get k (to_dict c)).
Proof. intros Hk. by rewrite (Hs k Hk). Qed.
Lemma budgets_member_same : budgets_from_dict (budgets_raw d) = budgets_from_dict (budgets_raw (to_dict c)).
Proof.
  unfold budgets_raw. rewrite Hd. literal_lookup. cbn [fmap option_fmap option_map]. rewrite layout_dict by done.
  apply budgets_same.
Qed.
Lemma lease_member_same : lease_from_dict (lease_raw d) = lease_from_dict (lease_raw (to_dict c)).
Proof.
  unfold lease_raw. rewrite Hd. literal_lookup. cbn [fmap option_fmap option_map]. rewrite layout_dict by done.
  apply lease_same.
Qed.
Lemma metadata_written : as_dict (dict_get "metadata" d) = Ok (entries g c.(tc_metadata)) ∧
  as_dict (dict_get "metadata" (to_dict c)) = Ok c.(tc_metadata).
Proof.
  split; [apply (dict_back g Hg _ _ Hd); by literal_lookup|].
  apply (dict_back id layout_id _ (to_dict c)); [intros k; by destruct (dict_get k _)|by literal_lookup].
Qed.
Lemma criteria_same : ∃ l m, list_member CriteriaNotList d "acceptance_criteria" = Ok l ∧
  list_member CriteriaNotList (to_dict c) "acceptance_criteria" = Ok m ∧
  traverse criterion_from_dict (mappings l) = traverse criterion_from_dict (mappings m).
Proof.
  destruct (list_written CriteriaNotList "acceptance_criteria" (map (λ a, JDict (criterion_to_dict a)) (tc_acceptance_criteria c)))
    as [-> ->]; [left; by literal_lookup|]. do 2 eexists. split_and!; [done..|].
  rewrite mappings_back, mappings_written. induction (tc_acceptance_criteria c) as [|a l IH]; [done|].
  cbn [map traverse]. by rewrite criterion_same, IH.
Qed.
Lemma gates_same : ∃ l m, list_member GatesNotList d "gates" = Ok l ∧
  list_member GatesNotList (to_dict c) "gates" = Ok m ∧
  traverse gate_from_dict (mappings l) = map (relayout_gate g) <$> traverse gate_from_dict (mappings m).
Proof.
  destruct (list_written GatesNotList "gates" (map (λ a, JDict (gate_to_dict a)) (tc_gates c)))
    as [-> ->]; [right; literal_lookup; by destruct (tc_gates c)|]. do 2 eexists. split_and!; [done..|].
  rewrite mappings_back, mappings_written. induction (tc_gates c) as [|a l IH]; [done|].
  cbn [map traverse]. rewrite gate_same, IH. destruct (gate_from_dict _); [|done]. cbn [mbind result_mbind fmap result_fmap].
  destruct (traverse gate_from_dict (map gate_to_dict l)); done.
Qed.

Lemma from_dict_same : from_dict d = relayout g <$> from_dict (to_dict c).
Proof.
  destruct criteria_same as (l & l' & El & El' & Et), gates_same as (m & m' & Em & Em' & Eg), metadata_written as [Ed Ed'].
  unfold from_dict, text_member, risk_text, version_of.
  rewrite El, El', Em, Em', Ed, Ed', budgets_member_same, lease_member_same. cbn [mbind result_mbind]. rewrite Et, Eg.
  rewrite (Hs "objective"), (Hs "risk_class"), (Hs "version"), (Hs "task_id"), (Hs "lineage_id"), (Hs "escalation_path"),
    (Hs "handoff_role"), (opt_int_same "retry_limit"), (path_set_same "read_set"), (path_set_same "write_set"),
    (path_set_same "out_of_scope_paths"), (path_set_same "non_goals"), (path_set_same "security_requirements"),
    (path_set_same "performance_requirements"); [|fixed_member..].
  case_bool_decide; [done|]. destruct (traverse criterion_from_dict (mappings l')); [|done]. cbn [mbind result_mbind].
  case_bool_decide; [done|]. case_bool_decide; [|done]. cbn [negb]. destruct (risk_class _); [|done].
  match goal with |- (?m ≫= _) = _ => destruct m as [v|] end; [|done]. cbn [mbind result_mbind]. destruct (v <? 1); [done|].
  destruct (traverse gate_from_dict (mappings m')); [|done]. cbn [mbind result_mbind fmap result_fmap].
  repeat (match goal with |- context [?m ≫= _] => destruct m; [|done] end; cbn [mbind result_mbind]).
  done.
Qed.
End whole.
End back.

(** ** Sorted values *)

Lemma sort_keys_idem v : sort_keys (sort_keys v) = sort_keys v.
Proof.
  induction v as [| | | | |l IH|l IH] using json_induction; [done..| |].
  - cbn. f_equal. rewrite map_map. apply map_ext_in. rewrite Forall_forall in IH. intros a Ha. by apply IH, list_elem_of_In.
  - change (JDict (sort_by fst (map (λ p, (p.1, sort_keys p.2)) (sort_by fst (map (λ p, (p.1, sort_keys p.2)) l))))
      = JDict (sort_by fst (map (λ p, (p.1, sort_keys p.2)) l))).
    f_equal. rewrite !(sort_by_map (λ p : string * json, (p.1, sort_keys p.2)) fst fst) by done.
    rewrite map_map. cbn. rewrite sort_by_id; [|apply sort_by_sorted].
    apply map_ext_in. intros p Hp. cbn. f_equal. rewrite Forall_forall in IH. apply IH.
    by apply (elem_of_sort_by fst), list_elem_of_In.
Qed.

Lemma relayout_id c : relayout id c = c.
Proof.
  unfold relayout. rewrite entries_id, (map_ext (relayout_gate id) id), map_id by (by intros []). by destruct c.
Qed.

Lemma sort_keys_dict m : sort_keys (JDict m) = JDict (sort_by fst (map (λ p, (p.1, sort_keys p.2)) m)).
Proof. done. Qed.
Lemma sort_keys_entries m : sort_keys (JDict (entries sort_keys m)) = sort_keys (JDict m).
Proof. rewrite <-(layout_dict sort_keys layout_sort m). apply sort_keys_idem. Qed.
Lemma sort_keys_ext (l m : dict) :
  map (λ p, (p.1, sort_keys p.2)) l = map (λ p, (p.1, sort_keys p.2)) m → sort_keys (JDict l) = sort_keys (JDict m).
Proof. rewrite !sort_keys_dict. by intros ->. Qed.

(** ** The identity of a contract *)

#[local] Instance Gate_rebuild : Rebuild Gate := λ a,
  mkGate a.(ga_command) a.(ga_cwd) a.(ga_timeout_s) a.(ga_expected_exit) a.(ga_thresholds) a.(ga_blocking).
#[local] Instance Budgets_rebuild : Rebuild Budgets := λ b,
  mkBudgets b.(bu_max_tokens) b.(bu_max_cost_usd) b.(bu_max_wall_seconds) b.(bu_max_tool_calls).

Section identity.
Context `{ContractHost}.

Lemma gate_relayout a :
  sort_keys (JDict (gate_to_dict (relayout_gate sort_keys a))) = sort_keys (JDict (gate_to_dict a)).
Proof.
  apply sort_keys_ext. unfold gate_to_dict, relayout_gate. cbn [map fst snd ga_command ga_cwd ga_timeout_s ga_expected_exit ga_thresholds ga_blocking].
  by rewrite sort_keys_entries.
Qed.
Lemma gates_relayout l :
  map (λ p, (p.1, sort_keys p.2)) (when_any "gates" (λ l, JList (map (λ g, JDict (gate_to_dict g)) l)) (map (relayout_gate sort_keys) l))
  = map (λ p, (p.1, sort_keys p.2)) (when_any "gates" (λ l, JList (map (λ g, JDict (gate_to_dict g)) l)) l).
Proof.
  destruct l as [|a l]; [done|]. cbn [map when_any fst snd].
  change (sort_keys (JList ?x)) with (JList (map sort_keys x)). do 3 f_equal. cbn [map]. rewrite gate_relayout, !map_map.
  f_equal. apply map_ext, gate_relayout.
Qed.
Lemma to_dict_relayout c :
  map (λ p, (p.1, sort_keys p.2)) (to_dict (relayout sort_keys c)) = map (λ p, (p.1, sort_keys p.2)) (to_dict c).
Proof.
  unfold to_dict, optional_members. rewrite !map_app.
  change (tc_gates (relayout sort_keys c)) with (map (relayout_gate sort_keys) (tc_gates c)). rewrite gates_relayout.
  f_equal. f_equal. f_equal. unfold identity_members.
  change (tc_metadata (relayout sort_keys c)) with (entries sort_keys (tc_metadata c)). cbn [map fst snd].
  by rewrite sort_keys_entries.
Qed.
Lemma filter_keys (f : json → json) (p : string → bool) (l : dict) :
  map (λ x, (x.1, f x.2)) (List.filter (λ x, p x.1) l) = List.filter (λ x, p x.1) (map (λ x, (x.1, f x.2)) l).
Proof. induction l as [|x l IH]; [done|]. cbn. destruct (p x.1); cbn; by rewrite IH. Qed.
Lemma hash_relayout c : contract_hash (relayout sort_keys c) = contract_hash c.
Proof.
  unfold contract_hash, dumps_compact. do 2 f_equal. apply sort_keys_ext. unfold hash_payload.
  pose proof (λ l, filter_keys sort_keys (λ k : string, negb (bool_decide (k = "lease"))) l) as Hf. cbv beta in Hf.
  by rewrite !Hf, to_dict_relayout.
Qed.

Lemma when_some_keys {A} key (f : A → json) o : sublist (map fst (when_some key f o)) [key].
Proof. destruct o; cbn; repeat constructor. Qed.
Lemma when_any_keys {A} key (f : list A → json) l : sublist (map fst (when_any key f l)) [key].
Proof. destruct l; cbn; repeat constructor. Qed.
Lemma to_dict_keys c : NoDup (map fst (to_dict c)).
Proof.
  eapply sublist_NoDup with (l2 := map fst (fixed_members c) ++ ["lease"] ++ map fst (identity_members c)
    ++ ["out_of_scope_paths"] ++ ["non_goals"] ++ ["security_requirements"] ++ ["performance_requirements"]
    ++ ["retry_limit"] ++ ["escalation_path"] ++ ["handoff_role"] ++ ["gates"]); [literal_keys|].
  unfold to_dict, optional_members. rewrite !map_app.
  repeat (apply sublist_app; [apply when_some_keys || apply when_any_keys || done|]). apply when_any_keys.
Qed.
Lemma hash_payload_keys c : NoDup (map fst (hash_payload c)).
Proof. apply (NoDup_map_select fst _ (to_dict c)), to_dict_keys. Qed.
Lemma hash_payload_get c k : k ≠ "lease" → dict_get k (hash_payload c) = dict_get k (to_dict c).
Proof.
  intros Hk. unfold hash_payload. induction (to_dict c) as [|[k' v] l IH]; [done|]. cbn [List.filter fst].
  rewrite dict_get_cons. case_bool_decide as E; cbn [negb]; [subst k'; rewrite IH; by case_bool_decide|].
  rewrite dict_get_cons. by rewrite IH.
Qed.

Lemma reread_stored c r : from_dict (to_dict c) = Ok r →
  from_dict (entries sort_keys (to_dict c)) = Ok (relayout sort_keys r).
Proof.
  intros Hr. rewrite (from_dict_same sort_keys layout_sort _ c), Hr; [done|].
  intros k. apply entries_get; [apply layout_sort|apply to_dict_keys].
Qed.

(** What [adopt] is handed is hashed and written; reading what was written gives the hash. *)
Lemma accept_spec a c digest body : accept a = Ok (c, digest, body) →
  digest = contract_hash c ∧ body = to_dict c ∧
  ∃ r, from_dict (entries sort_keys (to_dict c)) = Ok r ∧ contract_hash r = digest.
Proof.
  unfold accept. rewrite bind_Ok. intros (c' & _ & Hk). rewrite bind_Ok in Hk. destruct Hk as (r & Hr & Hk).
  case_bool_decide as E; [|done]. injection Hk as <- <- <-. split_and!; [done..|]. exists (relayout sort_keys r).
  split; [by apply reread_stored|]. by rewrite hash_relayout.
Qed.

(** C22: reading and writing agree.  A contract that was read is read back from what it writes, unchanged; read back from
    its stored body, whose keys are sorted, it has the same hash; and [adopt]'s own check of the body accepts it. *)
Theorem contract_roundtrip d c :
  from_dict d = Ok c →
  from_dict (to_dict c) = Ok c ∧
  (∃ c', from_json (stored (JDict (to_dict c))) = Ok c' ∧ contract_hash c' = contract_hash c) ∧
  accept (Contract c) = Ok (c, contract_hash c, to_dict c) ∧ accept (Mapping d) = Ok (c, contract_hash c, to_dict c).
Proof.
  intros Hr. assert (from_dict (to_dict c) = Ok c) as Hback.
  { rewrite (read_written id layout_id (to_dict c) c (from_dict_normal d c Hr)), relayout_id; [done|].
    intros k. by destruct (dict_get k _). }
  split_and!; [done| |unfold accept..].
  - exists (relayout sort_keys c). split; [|apply hash_relayout]. unfold stored. rewrite (layout_dict sort_keys layout_sort).
    by apply reread_stored.
  - cbn [mbind result_mbind]. rewrite Hback. cbn [mbind result_mbind]. by rewrite bool_decide_eq_true_2.
  - rewrite Hr. cbn [mbind result_mbind]. rewrite Hback. cbn [mbind result_mbind]. by rewrite bool_decide_eq_true_2.
Qed.

(** ** What the hash covers *)

Definition intent_gate (f : json → json) (a : Gate) : Gate := a <| ga_thresholds := entries f a.(ga_thresholds) |>.
Definition intent_budgets (f : json → json) (b : Budgets) : Budgets :=
  b <| bu_max_cost_usd := (λ x, match f (JFloat x) with JFloat y => y | _ => x end) <$> b.(bu_max_cost_usd) |>.
(** A contract without its lease, its values brought to a common form by [f]. *)
Definition intent (f : json → json) (c : TaskContract) : TaskContract :=
  c <| tc_lease := mkLeaseFields None None None 0 |> <| tc_budgets := intent_budgets f c.(tc_budgets) |>
    <| tc_metadata := entries f c.(tc_metadata) |> <| tc_gates := map (intent_gate f) c.(tc_gates) |>.

Lemma hash_ignores_lease c l : contract_hash (c <| tc_lease := l |>) = contract_hash c.
Proof. unfold contract_hash, hash_payload, to_dict. by rewrite !List.filter_app. Qed.
Lemma hash_intent c : contract_hash (intent sort_keys c) = contract_hash c.
Proof.
  set (l := mkLeaseFields None None None 0). rewrite <-(hash_ignores_lease c l), <-(hash_relayout (c <| tc_lease := l |>)).
  f_equal. destruct c as [? ? ? ? ? [? [x|] ? ?]]; reflexivity.
Qed.

Lemma canon_str s t : canon (JStr s) = canon (JStr t) → s = t.
Proof. by intros [= ?]. Qed.
Lemma canon_int m n : canon (JInt m) = canon (JInt n) → m = n.
Proof. by intros [= ?]. Qed.
Lemma canon_opt {A B} (f : A → json) (h : A → B) o o' : (∀ a, canon (f a) ≠ JNull) →
  (∀ a b, canon (f a) = canon (f b) → h a = h b) → canon (opt_json f o) = canon (opt_json f o') → h <$> o = h <$> o'.
Proof.
  intros Hn Hf. destruct o as [a|], o' as [b|]; cbn [opt_json fmap option_fmap option_map]; intros E; [| | |done].
  - f_equal. by apply Hf.
  - by destruct (Hn a).
  - symmetry in E. by destruct (Hn b).
Qed.
Lemma canon_opt_str o o' : canon (opt_json JStr o) = canon (opt_json JStr o') → o = o'.
Proof. intros E. apply (canon_opt JStr id) in E; [by rewrite !option_fmap_id in E|done|apply canon_str]. Qed.
Lemma canon_opt_int o o' : canon (opt_json JInt o) = canon (opt_json JInt o') → o = o'.
Proof. intros E. apply (canon_opt JInt id) in E; [by rewrite !option_fmap_id in E|done|apply canon_int]. Qed.
Lemma canon_each {A B} (f : A → json) (h : A → B) l m : (∀ a b, canon (f a) = canon (f b) → h a = h b) →
  canon (JList (map f l)) = canon (JList (map f m)) → map h l = map h m.
Proof.
  intros Hf E%canon_list. rewrite !map_map in E. revert m E. induction l as [|a l IH]; intros [|b m]; [done..|].
  intros [= E1 E2]. cbn. f_equal; [by apply Hf|by apply IH].
Qed.
Lemma canon_strs l m : canon (strs l) = canon (strs m) → l = m.
Proof. intros E. apply (canon_each JStr id) in E; [by rewrite !map_id in E|apply canon_str]. Qed.

Lemma canon_some x y : canon <$> Some x = canon <$> Some y → canon x = canon y.
Proof. by intros [= ?]. Qed.
(** The member [key] of two dictionaries that are one up to [canon]. *)
Ltac same_member Ha Hx Hy key lem :=
  let E := fresh "E" in
  pose proof (canon_dict_get _ _ key Hx Hy Ha) as E; revert E; literal_lookup; intros E; apply lem in E.

Lemma criterion_keys a : NoDup (map fst (criterion_to_dict a)).
Proof. literal_keys. Qed.
Lemma budgets_keys b : NoDup (map fst (budgets_to_dict b)).
Proof. literal_keys. Qed.
Lemma gate_keys a : NoDup (map fst (gate_to_dict a)).
Proof. literal_keys. Qed.

Lemma canon_criterion a b : canon (JDict (criterion_to_dict a)) = canon (JDict (criterion_to_dict b)) → a = b.
Proof.
  intros Ha. pose proof (criterion_keys a) as Hx. pose proof (criterion_keys b) as Hy.
  same_member Ha Hx Hy "id" canon_some. same_member Ha Hx Hy "condition" canon_some.
  same_member Ha Hx Hy "evidence_required" canon_some. apply canon_str in E, E0. injection E1 as E1.
  destruct a, b; cbn in *. by subst.
Qed.
Lemma canon_budgets a b : canon (JDict (budgets_to_dict a)) = canon (JDict (budgets_to_dict b)) →
  intent_budgets canon a = intent_budgets canon b.
Proof.
  intros Ha. pose proof (budgets_keys a) as Hx. pose proof (budgets_keys b) as Hy.
  same_member Ha Hx Hy "max_tokens" canon_some. same_member Ha Hx Hy "max_cost_usd" canon_some.
  same_member Ha Hx Hy "max_wall_seconds" canon_some. same_member Ha Hx Hy "max_tool_calls" canon_some.
  apply canon_opt_int in E, E1, E2. apply (canon_opt JFloat red_float) in E0; [|done|by intros ?? [= ?]].
  destruct a as [m x w t], b as [m' x' w' t'].
  cbn [bu_max_tokens bu_max_cost_usd bu_max_wall_seconds bu_max_tool_calls] in *. subst.
  change (mkBudgets m' (red_float <$> x) w' t' = mkBudgets m' (red_float <$> x') w' t'). by rewrite E0.
Qed.
Lemma canon_entries l m : canon (JDict l) = canon (JDict m) → entries canon l = entries canon m.
Proof. unfold entries. by intros ->. Qed.
Lemma canon_gate a b : canon (JDict (gate_to_dict a)) = canon (JDict (gate_to_dict b)) → intent_gate canon a = intent_gate canon b.
Proof.
  intros Ha. pose proof (gate_keys a) as Hx. pose proof (gate_keys b) as Hy.
  same_member Ha Hx Hy "command" canon_some. same_member Ha Hx Hy "cwd" canon_some. same_member Ha Hx Hy "timeout_s" canon_some.
  same_member Ha Hx Hy "expected_exit" canon_some. same_member Ha Hx Hy "thresholds" canon_some.
  same_member Ha Hx Hy "blocking" canon_some.
  apply canon_str in E. apply canon_opt_str in E0. apply canon_int in E1, E2. apply canon_entries in E3. injection E4 as E4.
  destruct a as [? ? ? ? th ?], b as [? ? ? ? th' ?]. cbn in E, E0, E1, E2, E4. subst.
  change (entries canon th = entries canon th') in E3. unfold intent_gate.
  change (mkGate ga_command0 ga_cwd0 ga_timeout_s0 ga_expected_exit0 (entries canon th) ga_blocking0
    = mkGate ga_command0 ga_cwd0 ga_timeout_s0 ga_expected_exit0 (entries canon th') ga_blocking0). by rewrite E3.
Qed.

Lemma option_eta {A} (o : option A) : match o with Some v => Some v | None => None end = o.
Proof. by destruct o. Qed.
Lemma canon_when_any {A B} (f : list A → json) (h : list A → list B) l m : h [] = [] → (∀ a l, h (a :: l) ≠ []) →
  (canon (f l) = canon (f m) → h l = h m) →
  canon <$> match l with [] => None | _ => Some (f l) end = canon <$> match m with [] => None | _ => Some (f m) end → h l = h m.
Proof.
  intros Hn Hc Hf. destruct l as [|a l], m as [|b m]; [done..|]. intros E. apply Hf. by injection E.
Qed.
Lemma canon_when_strs l m :
  canon <$> match l with [] => None | _ => Some (strs l) end = canon <$> match m with [] => None | _ => Some (strs m) end → l = m.
Proof. apply (canon_when_any strs id); [done..|apply canon_strs]. Qed.
Lemma canon_when_str (o o' : option string) : canon <$> (JStr <$> o) = canon <$> (JStr <$> o') → o = o'.
Proof. destruct o, o'; [intros [= ->]| | |]; done. Qed.
Lemma canon_when_int (o o' : option Z) : canon <$> (JInt <$> o) = canon <$> (JInt <$> o') → o = o'.
Proof. destruct o, o'; [intros [= ->]| | |]; done. Qed.

(** One member of two contracts whose hashed parts are the same up to [canon]. *)
Ltac hashed Hm key lem :=
  let E := fresh "E" in
  pose proof (Hm key ltac:(done)) as E; revert E; literal_lookup; rewrite ?option_eta; intros E; apply lem in E.

Lemma canon_intent a b : canon (JDict (hash_payload a)) = canon (JDict (hash_payload b)) → intent canon a = intent canon b.
Proof.
  intros Ha.
  assert (∀ k, k ≠ "lease" → canon <$> dict_get k (to_dict a) = canon <$> dict_get k (to_dict b)) as Hm.
  { intros k Hk. rewrite <-!hash_payload_get by done. by apply canon_dict_get; [apply hash_payload_keys..|]. }
  hashed Hm "objective" canon_some. apply canon_str in E.
  hashed Hm "acceptance_criteria" canon_some.
  hashed Hm "read_set" canon_some. apply canon_strs in E1.
  hashed Hm "write_set" canon_some. apply canon_strs in E2.
  hashed Hm "risk_class" canon_some. apply canon_str in E3.
  hashed Hm "budgets" canon_some. apply canon_budgets in E4.
  hashed Hm "task_id" canon_some. apply canon_opt_str in E5.
  hashed Hm "lineage_id" canon_some. apply canon_opt_str in E6.
  hashed Hm "version" canon_some. apply canon_int in E7.
  hashed Hm "metadata" canon_some. apply canon_entries in E8.
  hashed Hm "out_of_scope_paths" canon_when_strs.
  hashed Hm "non_goals" canon_when_strs.
  hashed Hm "security_requirements" canon_when_strs.
  hashed Hm "performance_requirements" canon_when_strs.
  hashed Hm "retry_limit" canon_when_int.
  hashed Hm "escalation_path" canon_when_str.
  hashed Hm "handoff_role" canon_when_str.
  apply (canon_each (λ a, JDict (criterion_to_dict a)) id) in E0; [|apply canon_criterion]. rewrite !map_id in E0.
  pose proof (Hm "gates" ltac:(done)) as E16. revert E16. literal_lookup. intros E16.
  apply (canon_when_any (λ l, JList (map (λ g, JDict (gate_to_dict g)) l)) (map (intent_gate canon))) in E16;
    [|done..|intros Hg; by apply (canon_each (λ a, JDict (gate_to_dict a)) (intent_gate canon)) in Hg; [|apply canon_gate]].
  assert (tc_risk_class a = tc_risk_class b) as E3' by (revert E3; by do 2 destruct (tc_risk_class _)).
  unfold intent. rewrite E4, E8, E16. destruct a, b. cbn in E, E0, E1, E2, E3', E5, E6, E7, E9, E10, E11, E12, E13, E14, E15.
  by subst.
Qed.

(** C23: the hash is the intent.  Contracts that differ in their lease and in the order of keys only have one hash; and when
    SHA-256 does not collide, contracts of one hash agree in every other member, floats and nested keys by value. *)
Theorem hash_is_intent `{!FloatTextLaws} a b :
  (intent sort_keys a = intent sort_keys b → contract_hash a = contract_hash b) ∧
  (Inj (=) (=) ch_sha256 → contract_hash a = contract_hash b → intent canon a = intent canon b).
Proof.
  split.
  - intros E. by rewrite <-(hash_intent a), <-(hash_intent b), E.
  - intros Hinj E%Hinj%dumps_compact_inj. by apply canon_intent.
Qed.
End identity.

(** ** A host to run with *)

#[local] Instance toy_contract_host : ContractHost :=
  { ch_fin := plain_fin; ch_rnd := Fin; ch_float_of_text := λ _, None; ch_sha256 := id }.

Definition toy_mapping : dict :=
  [("objective", JStr " ship it "); ("metadata", JDict [("z", JInt 1); ("a", JNull)]);
   ("acceptance_criteria", JList [JDict [("id", JStr "a1"); ("condition", JStr "tests pass")]; JStr "ignored"]);
   ("write_set", JList [JStr "src/ "; JStr " "]); ("max_cost_usd", JFloat (Fin (5 # 2)));
   ("lease", JDict [("holder", JStr "w1"); ("generation", JStr "3")]);
   ("gates", JList [JDict [("command", JStr "make"); ("thresholds", JDict [("y", JInt 2); ("x", JInt 1)])]])].
Definition toy_contract : TaskContract :=
  mkContract "ship it" [mkCriterion "a1" "tests pass" true] [] ["src/"] R1
    (mkBudgets None (Some (Fin (5 # 2))) None None) (mkLeaseFields None (Some "w1") None 3) None None 1
    [("z", JInt 1); ("a", JNull)] [] [] [] [] None None None [mkGate "make" None 600 0 [("y", JInt 2); ("x", JInt 1)] true].

Example toy_read : from_dict toy_mapping = Ok toy_contract.
Proof. vm_compute. reflexivity. Qed.
(** The members are checked in this order: a bad risk hides a bad version. *)
Example risk_before_version :
  from_dict (dict_update toy_mapping [("risk_class", JStr "r1"); ("version", JInt (-1))]) = Err InvalidRisk.
Proof. vm_compute. reflexivity. Qed.
(** A version of zero is not set, so it is 1; a negative one is refused. *)
Example version_zero_is_one : tc_version <$> from_dict (dict_update toy_mapping [("version", JInt 0)]) = Ok 1.
Proof. vm_compute. reflexivity. Qed.
(** A version that is no number leaves through the cast, not as a contract error. *)
Example version_text_raises : from_dict (dict_update toy_mapping [("version", JStr "two")]) = Err (Cast ValueError).
Proof. vm_compute. reflexivity. Qed.

Example contract_roundtrip_witness :
  from_dict toy_mapping = Ok toy_contract ∧ from_dict (to_dict toy_contract) = Ok toy_contract.
Proof.
  assert (from_dict toy_mapping = Ok toy_contract) as Hr by (vm_compute; reflexivity).
  split; [exact Hr|]. apply (contract_roundtrip toy_mapping toy_contract Hr).
Defined.

Example hash_is_intent_witness :
  let other := toy_contract <| tc_lease := mkLeaseFields None None None 9 |> in
  contract_hash toy_contract = contract_hash other ∧ intent canon toy_contract = intent canon other.
Proof.
  intros other. destruct (@hash_is_intent toy_contract_host plain_fin_laws toy_contract other) as [Ha Hb].
  assert (contract_hash toy_contract = contract_hash other) as E by (apply Ha; vm_compute; reflexivity).
  split; [exact E|]. apply Hb; [intros x y Hxy; exact Hxy|exact E].
Defined.
(** A different objective is a different hash. *)
Example objective_is_hashed : contract_hash (toy_contract <| tc_objective := "ship" |>) ≠ contract_hash toy_contract.
Proof. vm_compute. discriminate. Qed.
