(* ===== verification/ContractStoreSpec.v ===== *)
(** * ContractStoreSpec: theorems about the store of task contracts

    The invariants of the two tables over every interleaving of the statements of several
    stores, what [adopt] and [transition] do on each branch when nothing comes between
    their statements, and the refinement of the lifecycle of [StateMachines] by the rows a
    contract leaves in the transition log.  The examples are two races of two stores. *)

From Stdlib Require Import Ascii QArith.
From S2P Require Import Prelude PyString PyJson JsonText Records StateMachines TaskContract TaskContractSpec.
Open Scope Z_scope.

(** ** The log of one contract *)

Definition trail (contract_id : string) (db : ContractDb) : list TransitionRow :=
  select (λ t, bool_decide (t.(tr_contract_id) = contract_id)) db.(cd_transitions).

(** The rows of a log, in the order they were written, and the states they lead through, the last one first. *)
Inductive log_path : list TransitionRow → list ContractState → Prop :=
  | log_start : log_path [] [CDraft]
  | log_row l t s d visited :
      log_path l (s :: visited) → t.(tr_from_state) = contract_value s → t.(tr_to_state) = contract_value d →
      contract_step s d → log_path (l ++ [t]) (d :: s :: visited).

Lemma log_path_history l visited : log_path l visited → history visited.
Proof. induction 1; by constructor. Qed.

Section store.
Context `{ContractHost}.

Definition adoption_key (r : ContractRow) : string * string * string :=
  (r.(cr_contract_hash), r.(cr_lane), default "" r.(cr_ref_id)).

Record row_ok (db : ContractDb) (r : ContractRow) : Prop := {
  ro_rehash : rehash r = Ok r.(cr_contract_hash);
  ro_lane : r.(cr_lane) ∈ SUPPORTED_LANES;
  ro_hash t : t ∈ trail r.(cr_id) db → t.(tr_contract_hash) = r.(cr_contract_hash);
  ro_path : ∃ s visited, log_path (trail r.(cr_id) db) (s :: visited) ∧ r.(cr_state) = contract_value s;
}.
Record store_ok (db : ContractDb) : Prop := {
  so_ids : NoDup (map cr_id db.(cd_contracts));
  so_keys : NoDup (map adoption_key db.(cd_contracts));
  so_rows r : r ∈ db.(cd_contracts) → row_ok db r;
  so_logged t : t ∈ db.(cd_transitions) → t.(tr_contract_id) ∈ map cr_id db.(cd_contracts);
}.
(** No row carries an identifier of the stamp. *)
Definition unused (st : Stamp) (db : ContractDb) : Prop :=
  (sp_contract_id st ∉ map cr_id (cd_contracts db)) ∧ (sp_transition_id st ∉ map tr_id (cd_transitions db)).

Lemma existsb_in {A} (f : A → string) x l : existsb (λ a, bool_decide (f a = x)) l = bool_decide (x ∈ map f l).
Proof.
  induction l as [|a l IH]; [done|]. cbn. rewrite IH.
  destruct (decide (f a = x)) as [<-|Hn].
  - rewrite (bool_decide_eq_true_2 (f a = f a)) by done. symmetry. apply bool_decide_eq_true_2. by left.
  - rewrite (bool_decide_eq_false_2 (f a = x)) by done. cbn. apply bool_decide_ext. rewrite elem_of_cons. naive_solver.
Qed.
Lemma find_id r id l : List.find (with_id id) l = Some r → r ∈ l ∧ r.(cr_id) = id.
Proof. intros [Hr Hi]%find_some. by apply list_elem_of_In in Hr; apply bool_decide_eq_true in Hi. Qed.
Lemma find_by_id r l : NoDup (map cr_id l) → r ∈ l → List.find (with_id r.(cr_id)) l = Some r.
Proof.
  induction l as [|x l IH]; [by intros _ ?%not_elem_of_nil|]. cbn. intros [Hx Hnd]%NoDup_cons [<-|Hr]%elem_of_cons.
  - unfold with_id. by rewrite bool_decide_eq_true_2.
  - unfold with_id. rewrite bool_decide_eq_false_2; [by apply IH|]. intros E. apply Hx. rewrite E. by apply list_elem_of_fmap_2.
Qed.
Lemma adopted_as_key r digest lane ref_id :
  adopted_as digest lane ref_id r = true ↔ adoption_key r = (digest, lane, default "" ref_id).
Proof.
  unfold adopted_as, same_ref, adoption_key. rewrite !andb_true_iff, !bool_decide_eq_true. split; [intros [[-> ->] ->]; done|].
  by intros [= -> -> ->].
Qed.

Lemma trail_snoc id db rows t :
  trail id (mkContractDb rows (db.(cd_transitions) ++ [t])) =
  trail id db ++ (if bool_decide (t.(tr_contract_id) = id) then [t] else []).
Proof. unfold trail, select. cbn. rewrite List.filter_app. cbn. by case_bool_decide. Qed.
Lemma trail_none id db : store_ok db → id ∉ map cr_id db.(cd_contracts) → trail id db = [].
Proof.
  intros Hok Hid. destruct (trail id db) as [|t l] eqn:E; [done|]. exfalso. apply Hid.
  assert (t ∈ trail id db) as [Ht Hi]%elem_of_select by (rewrite E; by left). apply bool_decide_eq_true in Hi. subst.
  by apply so_logged.
Qed.

(** *** The calls without collisions of identifiers *)

Definition adopt_checks (g : given) (lane initial_state : string) :=
  lane_n ← map_err Lifecycle (assert_supported_lane lane);
  accepted ← accept g;
  state ← initial initial_state;
  Ok (lane_n, accepted, state).
Definition new_row (lane_n : string) (ref_id : option string) (tc : TaskContract) (digest : string) (body metadata : dict)
    (state : ContractState) (st : Stamp) : ContractRow :=
  mkContractRow st.(sp_contract_id) digest (contract_value state) lane_n ref_id tc.(tc_task_id)
    tc.(tc_lineage_id) tc.(tc_version) (stored (JDict body)) (stored (JDict metadata)) st.(sp_now) st.(sp_now).
Definition adopt_log (lane_n : string) (ref_id : option string) (digest actor : string) (state : ContractState) (st : Stamp) : TransitionRow :=
  mkTransitionRow st.(sp_transition_id) st.(sp_contract_id) digest (contract_value CDraft) (contract_value state) "adopt" actor
    (stored (JDict [("lane", JStr lane_n); ("ref_id", opt_json JStr ref_id)])) st.(sp_now).

Lemma insert_transition_fresh t db : t.(tr_id) ∉ map tr_id db.(cd_transitions) →
  insert_transition t db = (Ok (), mkContractDb db.(cd_contracts) (db.(cd_transitions) ++ [t])).
Proof. intros Ht. unfold insert_transition. by rewrite (existsb_in tr_id), bool_decide_eq_false_2. Qed.
Lemma adopt_select_eq g lane ref_id actor metadata initial_state st db :
  adopt_select g lane ref_id actor metadata initial_state st db =
  checked ← adopt_checks g lane initial_state;
  let '(lane_n, (tc, digest, body), state) := checked in
  Ok match List.find (adopted_as digest lane_n ref_id) db.(cd_contracts) with
     | Some existing => Answered existing
     | None => WriteContract (new_row lane_n ref_id tc digest body metadata state st) (adopt_log lane_n ref_id digest actor state st)
     end.
Proof.
  unfold adopt_select, adopt_checks. destruct (map_err _ _); [|done]. cbn [mbind result_mbind].
  destruct (accept g) as [[[tc digest] body]|]; [|done]. cbn [mbind result_mbind]. by destruct (initial initial_state) as [x|e].
Qed.
Lemma no_clash lane_n ref_id tc digest body metadata state st l :
  List.find (adopted_as digest lane_n ref_id) l = None → sp_contract_id st ∉ map cr_id l →
  existsb (clashes (new_row lane_n ref_id tc digest body metadata state st)) l = false.
Proof.
  intros Hf Hid. apply not_true_iff_false. intros (r & Hr & Hc)%existsb_exists.
  pose proof (find_none _ _ Hf r Hr) as Ha. unfold clashes, with_id in Hc. cbn in Hc.
  apply orb_true_iff in Hc as [Hc%bool_decide_eq_true|Hc].
  - apply Hid. rewrite <-Hc. apply list_elem_of_fmap_2. by apply list_elem_of_In.
  - apply not_true_iff_false in Ha. apply Ha. unfold adopted_as, same_ref. apply andb_true_iff in Hc as [-> Hc]. cbn.
    by destruct (cr_ref_id r), ref_id.
Qed.
Lemma clashes_id r l : existsb (clashes r) l = false → r.(cr_id) ∉ map cr_id l.
Proof.
  intros Hf (x & E & Hx)%list_elem_of_fmap. apply not_true_iff_false in Hf. apply Hf, existsb_exists. exists x.
  split; [by apply list_elem_of_In|]. unfold clashes, with_id. by rewrite bool_decide_eq_true_2.
Qed.
Lemma find_last_id r l : r.(cr_id) ∉ map cr_id l → List.find (with_id r.(cr_id)) (l ++ [r]) = Some r.
Proof.
  intros Hr. assert (∀ x, x ∈ l → with_id r.(cr_id) x = false) as Hl.
  { intros x Hx. unfold with_id. apply bool_decide_eq_false. intros E. apply Hr. rewrite <-E. by apply list_elem_of_fmap_2. }
  induction l as [|x l IH]; cbn; [unfold with_id; by rewrite bool_decide_eq_true_2|].
  rewrite Hl by (by left). apply IH; [|intros; apply Hl; by right]. intros Hin. apply Hr. by right.
Qed.

Lemma adopt_eq g lane ref_id actor metadata initial_state st db : unused st db →
  adopt g lane ref_id actor metadata initial_state st db =
  match adopt_checks g lane initial_state with
  | Err e => (Err e, db)
  | Ok (lane_n, (tc, digest, body), state) =>
      match List.find (adopted_as digest lane_n ref_id) db.(cd_contracts) with
      | Some existing => (Ok existing, db)
      | None =>
          let row := new_row lane_n ref_id tc digest body metadata state st in
          (Ok row, mkContractDb (db.(cd_contracts) ++ [row]) (db.(cd_transitions) ++ [adopt_log lane_n ref_id digest actor state st]))
      end
  end.
Proof.
  intros [Hc Ht]. unfold adopt, completed. rewrite adopt_select_eq.
  destruct (adopt_checks _ _ _) as [[[lane_n [[tc digest] body]] state]|e]; [|done]. cbn [mbind result_mbind].
  destruct (List.find _ _) eqn:Ef; [done|]. cbn [statements statement]. unfold insert_contract.
  rewrite no_clash by done. cbn -[List.find insert_transition].
  rewrite insert_transition_fresh by done. cbn -[List.find].
  pose proof (find_last_id (new_row lane_n ref_id tc digest body metadata state st) _ Hc) as E.
  change (cr_id _) with (sp_contract_id st) in E. by rewrite E.
Qed.

Definition moved (dst : ContractState) (st : Stamp) (row : ContractRow) : ContractRow :=
  row <| cr_state := contract_value dst |> <| cr_updated_at := st.(sp_now) |>.
Definition move_log (row : ContractRow) (dst : ContractState) (reason actor : string) (evidence : dict) (st : Stamp) : TransitionRow :=
  mkTransitionRow st.(sp_transition_id) row.(cr_id) row.(cr_contract_hash) row.(cr_state) (contract_value dst)
    reason actor (stored (JDict evidence)) st.(sp_now).

Lemma find_moved id dst st l row : List.find (with_id id) l = Some row →
  List.find (with_id id) (update_where (with_id id) (moved dst st) l) = Some (moved dst st row).
Proof.
  induction l as [|x l IH]; [done|]. cbn. destruct (with_id id x) eqn:E.
  - intros [= ->]. change (with_id id (moved dst st row)) with (with_id id row). by rewrite E.
  - rewrite E. exact IH.
Qed.

Lemma transition_eq contract_id to_state reason actor evidence expected_hash st db : store_ok db → unused st db →
  transition contract_id to_state reason actor evidence expected_hash st db =
  match List.find (with_id contract_id) db.(cd_contracts) with
  | None => (Err (KeyError contract_id), db)
  | Some row =>
      match validate_transition row.(cr_state) to_state (Some row.(cr_contract_hash))
              (Some (default row.(cr_contract_hash) expected_hash)) with
      | Err e => (Err (Lifecycle e), db)
      | Ok dst =>
          if bool_decide (row.(cr_state) = contract_value dst) then (Ok row, db)
          else (Ok (moved dst st row),
                mkContractDb (update_where (with_id contract_id) (moved dst st) db.(cd_contracts))
                  (db.(cd_transitions) ++ [move_log row dst reason actor evidence st]))
      end
  end.
Proof.
  intros Hok [_ Ht]. unfold transition, completed, transition_select. destruct (List.find _ _) as [row|] eqn:Ef; [|done].
  apply find_id in Ef as Hrow. destruct Hrow as [Hrow Hid]. rewrite (ro_rehash _ _ (so_rows _ Hok row Hrow)).
  cbn [mbind result_mbind]. rewrite bool_decide_eq_true_2 by done. cbn [negb].
  destruct (validate_transition _ _ _ _) as [dst|e]; [|done]. cbn [map_err mbind result_mbind]. case_bool_decide; [done|].
  cbn -[set_state List.find insert_transition]. rewrite insert_transition_fresh by done. cbn -[set_state List.find].
  pose proof (find_moved contract_id dst st _ _ Ef) as Hm. unfold moved at 1 in Hm.
  change (cd_contracts (set_state contract_id (contract_value dst) (sp_now st) db)) with
    (update_where (with_id contract_id) (moved dst st) (cd_contracts db)). rewrite find_moved with (1 := Ef).
  unfold move_log. by rewrite Hid.
Qed.

(** *** The invariant *)

Lemma store_ok_empty : store_ok (mkContractDb [] []).
Proof. split; cbn; [constructor..|by intros ? ?%not_elem_of_nil|by intros ? ?%not_elem_of_nil]. Qed.

Lemma contract_value_inj s t : contract_value s = contract_value t → s = t.
Proof. intros E. pose proof (contract_state_value s) as Hs. rewrite E, contract_state_value in Hs. by injection Hs. Qed.

Lemma initial_step text s : initial text = Ok s → contract_step CDraft s.
Proof.
  unfold initial. destruct (contract_state text) as [t|]; [|done]. case_bool_decide as Ht; [|done]. intros [= <-].
  apply contract_step_spec. set_solver.
Qed.

Lemma adopt_checks_Ok g lane init lane_n tc digest body s : adopt_checks g lane init = Ok (lane_n, (tc, digest, body), s) →
  lane_n ∈ SUPPORTED_LANES ∧ contract_step CDraft s ∧ accept g = Ok (tc, digest, body).
Proof.
  unfold adopt_checks. rewrite bind_Ok. intros (l & Hl & Hk). rewrite bind_Ok in Hk. destruct Hk as (a & Ha & Hk).
  rewrite bind_Ok in Hk. destruct Hk as (s' & Hs & [= <- -> <-]). split_and!; [|by eapply initial_step|done].
  unfold assert_supported_lane in Hl. case_bool_decide; [done|]. case_bool_decide; [|done]. by injection Hl as <-.
Qed.

Lemma row_ok_log db db' r : trail r.(cr_id) db' = trail r.(cr_id) db → row_ok db r → row_ok db' r.
Proof. intros E [? ? Hh Hp]. split; [done|done|intros t; rewrite E; apply Hh|by rewrite E]. Qed.

Lemma adopt_ok g lane ref_id actor metadata initial_state st db : store_ok db → unused st db →
  store_ok (adopt g lane ref_id actor metadata initial_state st db).2.
Proof.
  intros Hok Hst. rewrite adopt_eq by done. destruct (adopt_checks _ _ _) as [[[lane_n [[tc digest] body]] state]|e] eqn:Ec; [|done].
  destruct (List.find _ _) as [ex|] eqn:Ef; [done|]. apply adopt_checks_Ok in Ec as (Hlane & Hstep & Hacc).
  apply accept_spec in Hacc as (-> & -> & r & Hr & Hhash). destruct Hst as [Hc _]. cbn [fst snd].
  set (row := new_row _ _ _ _ _ _ _ _). split; cbn [cd_contracts cd_transitions].
  - rewrite map_app. apply NoDup_app. split_and!; [apply so_ids, Hok| |apply NoDup_singleton].
    intros x Hx ->%list_elem_of_singleton. done.
  - rewrite map_app. apply NoDup_app. split_and!; [apply so_keys, Hok| |apply NoDup_singleton].
    intros x (x' & -> & Hx')%list_elem_of_fmap Ex%list_elem_of_singleton.
    apply list_elem_of_In in Hx'. pose proof (find_none _ _ Ef _ Hx') as Hn.
    apply not_true_iff_false in Hn. apply Hn, adopted_as_key, Ex.
  - intros x [Hx|Hx]%elem_of_app.
    + apply (row_ok_log db); [|by apply so_rows]. rewrite trail_snoc. cbn [tr_contract_id adopt_log].
      rewrite bool_decide_eq_false_2, app_nil_r; [done|]. intros E. apply Hc. rewrite E. by apply list_elem_of_fmap_2.
    + apply list_elem_of_singleton in Hx as ->. pose proof (trail_none _ _ Hok Hc) as Hnone.
      assert (trail (cr_id row) (mkContractDb (cd_contracts db ++ [row]) (cd_transitions db ++ [adopt_log lane_n ref_id (contract_hash tc) actor state st]))
        = [adopt_log lane_n ref_id (contract_hash tc) actor state st]) as Et.
      { rewrite trail_snoc. cbn [cr_id row new_row tr_contract_id adopt_log]. by rewrite Hnone, bool_decide_eq_true_2. }
      split; [|done|rewrite Et..].
      * unfold rehash, body_dict. cbn [cr_body row new_row]. unfold stored. rewrite (layout_dict sort_keys layout_sort), Hr.
        cbn. by rewrite Hhash.
      * by intros t ->%list_elem_of_singleton.
      * exists state, [CDraft]. split; [|done]. by apply (log_row [] _ CDraft state []); [constructor|..].
  - intros t [Ht|Ht]%elem_of_app; rewrite map_app, elem_of_app; [left; by apply so_logged|right].
    apply list_elem_of_singleton in Ht as ->. by left.
Qed.

Lemma validate_step cur to_state digest expected dst s : cur = contract_value s →
  validate_transition cur to_state digest expected = Ok dst → contract_step s dst.
Proof.
  intros ->. unfold validate_transition. rewrite contract_state_value. destruct (contract_state to_state) as [t|]; [|done].
  case_match; [done|]. rewrite contract_step_spec. case_bool_decide; [intros [= <-]; by left|].
  case_bool_decide; [intros [= <-]; by right|done].
Qed.

Lemma moved_kept {A} (f : ContractRow → A) p dst st l : (∀ r, f (moved dst st r) = f r) →
  map f (update_where p (moved dst st) l) = map f l.
Proof. intros Hf. by apply update_where_map. Qed.

Lemma transition_ok contract_id to_state reason actor evidence expected_hash st db : store_ok db → unused st db →
  store_ok (transition contract_id to_state reason actor evidence expected_hash st db).2.
Proof.
  intros Hok Hst. rewrite transition_eq by done. destruct (List.find _ _) as [row|] eqn:Ef; [|done].
  destruct (validate_transition _ _ _ _) as [dst|] eqn:Ev; [|done]. case_bool_decide; [done|].
  apply find_id in Ef as [Hrow <-]. cbn [snd]. pose proof (so_rows _ Hok row Hrow) as [_ _ Hhash (s & visited & Hp & Hs)].
  split; cbn [cd_contracts cd_transitions].
  - rewrite moved_kept by done. apply so_ids, Hok.
  - rewrite moved_kept by done. apply so_keys, Hok.
  - intros x (x' & Hx' & ->)%elem_of_update_where. destruct (with_id (cr_id row) x') eqn:Ei.
    + unfold with_id in Ei. apply bool_decide_eq_true in Ei.
      assert (x' = row) as ->.
      { pose proof (find_by_id _ _ (so_ids _ Hok) Hx') as E1. pose proof (find_by_id _ _ (so_ids _ Hok) Hrow) as E2. congruence. }
      assert (trail (cr_id row) (mkContractDb (update_where (with_id (cr_id row)) (moved dst st) (cd_contracts db))
        (cd_transitions db ++ [move_log row dst reason actor evidence st])) = trail (cr_id row) db ++ [move_log row dst reason actor evidence st]) as Et.
      { rewrite trail_snoc. cbn [move_log tr_contract_id]. by rewrite bool_decide_eq_true_2. }
      destruct (so_rows _ Hok row Hrow) as [Hre Hl _ _].
      split; [exact Hre|exact Hl|change (cr_id (moved dst st row)) with (cr_id row); rewrite Et..].
      * intros t [Ht| ->%list_elem_of_singleton]%elem_of_app; [by apply Hhash|done].
      * exists dst, (s :: visited). split; [|done]. apply log_row; [done..|]. by eapply validate_step.
    + apply (row_ok_log db); [|by apply so_rows]. rewrite trail_snoc. cbn [move_log tr_contract_id].
      unfold with_id in Ei. apply bool_decide_eq_false in Ei. by rewrite bool_decide_eq_false_2, app_nil_r by congruence.
  - intros t [Ht|Ht]%elem_of_app; rewrite moved_kept by done; [by apply so_logged|].
    apply list_elem_of_singleton in Ht as ->. by apply (list_elem_of_fmap_2 cr_id).
Qed.

(** *** Sequences of calls *)

Definition stamp_of (c : contract_call) : Stamp :=
  match c with CallAdopt _ _ _ _ _ _ st => st | CallTransition _ _ _ _ _ _ st => st end.
(** The identifiers drawn for a list of calls differ. *)
Definition fresh_stamps (l : list contract_call) : Prop :=
  NoDup (map (λ c, sp_contract_id (stamp_of c)) l) ∧ NoDup (map (λ c, sp_transition_id (stamp_of c)) l).

Definition apart (st st' : Stamp) : Prop :=
  sp_contract_id st ≠ sp_contract_id st' ∧ sp_transition_id st ≠ sp_transition_id st'.

Lemma unused_snoc st db rows t (x : list ContractRow) :
  unused st db → map cr_id rows = map cr_id db.(cd_contracts) ++ map cr_id x →
  sp_contract_id st ∉ map cr_id x → sp_transition_id st ≠ tr_id t → unused st (mkContractDb rows (db.(cd_transitions) ++ [t])).
Proof.
  intros [Hc Ht] Hr Hx Hn. unfold unused. cbn [cd_contracts cd_transitions].
  rewrite Hr, map_app. split; rewrite elem_of_app; [tauto|]. cbn [map]. rewrite list_elem_of_singleton. tauto.
Qed.

Lemma step_ok db c : store_ok db → unused (stamp_of c) db → store_ok (contract_call_step db c) ∧
  ∀ st, apart st (stamp_of c) → unused st db → unused st (contract_call_step db c).
Proof.
  intros Hok Hst. destruct c as [g lane ref_id actor metadata init st0|id to_state reason actor evidence expected st0]; cbn [contract_call_step stamp_of] in *.
  - split; [by apply adopt_ok|]. intros st [Hc Ht] Hu. rewrite adopt_eq by done.
    destruct (adopt_checks _ _ _) as [[[lane_n [[tc digest] body]] state]|]; [|done].
    destruct (List.find _ _); [done|]. apply (unused_snoc st db _ _ [new_row lane_n ref_id tc digest body metadata state st0]); [done|by rewrite map_app| |done].
    cbn [map]. by rewrite list_elem_of_singleton.
  - split; [by apply transition_ok|]. intros st [Hc Ht] Hu. rewrite transition_eq by done.
    destruct (List.find _ _) as [row|]; [|done]. destruct (validate_transition _ _ _ _); [|done]. case_bool_decide; [done|].
    apply (unused_snoc st db _ _ []); [done| | |done]; [|by apply not_elem_of_nil].
    by rewrite moved_kept, app_nil_r.
Qed.

Lemma calls_ok l db : fresh_stamps l → store_ok db → (∀ c, c ∈ l → unused (stamp_of c) db) → store_ok (run_contract_calls db l).
Proof.
  revert db. induction l as [|c l IH]; intros db [Hc Ht] Hok Hu; [done|]. cbn [map] in Hc, Ht.
  apply NoDup_cons in Hc as [Hc1 Hc], Ht as [Ht1 Ht].
  destruct (step_ok db c Hok) as [Hok' Hkeep]; [apply Hu; by left|]. cbn. apply IH; [by split|done|].
  intros c' Hc'. apply Hkeep; [|apply Hu; by right]. split; intros E.
  - apply Hc1. rewrite <-E. by apply (list_elem_of_fmap_2 (λ c, sp_contract_id (stamp_of c))).
  - apply Ht1. rewrite <-E. by apply (list_elem_of_fmap_2 (λ c, sp_transition_id (stamp_of c))).
Qed.
Lemma reached_ok l : fresh_stamps l → store_ok (run_contract_calls (mkContractDb [] []) l).
Proof. intros Hl. apply calls_ok; [done|apply store_ok_empty|]. intros c _. split; apply not_elem_of_nil. Qed.

(** *** Several stores on one database *)

Definition empty_stores : Stores := mkStores (mkContractDb [] []) [] [].

(** No call begins while another is between its statements. *)
Fixpoint serialized (s : Stores) (l : list store_event) : Prop :=
  match l with
  | [] => True
  | e :: l => (if e is Begins _ _ then s.(sm_running) = [] else True) ∧ serialized (store_step s e) l
  end.

Definition of_contract (id : string) (l : list TransitionRow) : list TransitionRow :=
  select (λ t, bool_decide (t.(tr_contract_id) = id)) l.
(** The log rows the calls in progress still owe a contract, and those that were never written. *)
Definition owing (id : string) (s : Stores) : list TransitionRow := of_contract id (concat (map (λ p, owed p.2) s.(sm_running))).
Definition lost (id : string) (s : Stores) : list TransitionRow := of_contract id s.(sm_lost).

(** The columns of [UNIQUE(contract_hash, lane, ref_id)], none for a null reference. *)
Definition unique_key (r : ContractRow) : option (string * string * string) :=
  (λ ref, (r.(cr_contract_hash), r.(cr_lane), ref)) <$> r.(cr_ref_id).

Definition row_sound (r : ContractRow) : Prop :=
  rehash r = Ok r.(cr_contract_hash) ∧ r.(cr_lane) ∈ SUPPORTED_LANES ∧ ∃ s, r.(cr_state) = contract_value s.
Definition allowed_row (t : TransitionRow) : Prop :=
  ∃ a b, t.(tr_from_state) = contract_value a ∧ t.(tr_to_state) = contract_value b ∧ contract_step a b.
Definition log_sound (db : ContractDb) (t : TransitionRow) : Prop :=
  allowed_row t ∧ ∃ r, r ∈ db.(cd_contracts) ∧ r.(cr_id) = t.(tr_contract_id) ∧ r.(cr_contract_hash) = t.(tr_contract_hash).
Definition cursor_sound (db : ContractDb) (c : cursor) : Prop :=
  match c with
  | WriteContract row log =>
      row_sound row ∧ allowed_row log ∧ log.(tr_contract_id) = row.(cr_id) ∧ log.(tr_contract_hash) = row.(cr_contract_hash)
      ∧ log.(tr_from_state) = contract_value CDraft ∧ log.(tr_to_state) = row.(cr_state)
  | WriteState id state _ log => log_sound db log ∧ log.(tr_contract_id) = id ∧ log.(tr_to_state) = state
  | WriteLog id log => log_sound db log ∧ log.(tr_contract_id) = id
  | ReadBack _ | Answered _ => True
  end.

Record stores_ok (s : Stores) : Prop := {
  ss_ids : NoDup (map cr_id s.(sm_db).(cd_contracts));
  ss_unique : NoDup (omap unique_key s.(sm_db).(cd_contracts));
  ss_rows r : r ∈ s.(sm_db).(cd_contracts) → row_sound r;
  ss_log t : t ∈ s.(sm_db).(cd_transitions) → log_sound s.(sm_db) t;
  ss_lost t : t ∈ s.(sm_lost) → log_sound s.(sm_db) t;
  ss_running p : p ∈ s.(sm_running) → cursor_sound s.(sm_db) p.2;
}.

(** A database that has grown: the contracts are there, with their identity. *)
Definition grows (db db' : ContractDb) : Prop :=
  ∀ r, r ∈ db.(cd_contracts) → ∃ r', r' ∈ db'.(cd_contracts) ∧ r'.(cr_id) = r.(cr_id) ∧ r'.(cr_contract_hash) = r.(cr_contract_hash).
Lemma log_sound_grows db db' t : grows db db' → log_sound db t → log_sound db' t.
Proof.
  intros Hg (Ha & r & Hr & Hid & Hh). split; [done|]. destruct (Hg r Hr) as (r' & Hr' & E1 & E2).
  exists r'. split_and!; [done|congruence..].
Qed.
Lemma cursor_sound_grows db db' c : grows db db' → cursor_sound db c → cursor_sound db' c.
Proof. intros Hg. destruct c; cbn; try done; intros [? ?]; (split; [by eapply log_sound_grows|done]). Qed.
Lemma grows_refl db : grows db db.
Proof. intros r Hr. by exists r. Qed.
Lemma grows_log db t : grows db (mkContractDb db.(cd_contracts) (db.(cd_transitions) ++ [t])).
Proof. intros r Hr. by exists r. Qed.

Lemma of_contract_app id l k : of_contract id (l ++ k) = of_contract id l ++ of_contract id k.
Proof. unfold of_contract, select. apply List.filter_app. Qed.

Lemma row_sound_state r r' : rehash r' = rehash r → r'.(cr_contract_hash) = r.(cr_contract_hash) → r'.(cr_lane) = r.(cr_lane) →
  (∃ s, r'.(cr_state) = contract_value s) → row_sound r → row_sound r'.
Proof. intros E1 E2 E3 Hs (? & ? & _). unfold row_sound. by rewrite E1, E2, E3. Qed.

(** *** What a call selects *)

Lemma adopt_selected g lane ref_id actor metadata init st db c :
  adopt_select g lane ref_id actor metadata init st db = Ok c →
  cursor_sound db c ∧ settled_cursor c || (if c is WriteContract row _ then
    negb (bool_decide (adoption_key row ∈ map adoption_key db.(cd_contracts))) else false) = true.
Proof.
  rewrite adopt_select_eq, bind_Ok. intros ([[lane_n [[tc digest] body]] state] & Hc & [= <-]).
  destruct (List.find _ _) as [ex|] eqn:Ef; [done|]. apply adopt_checks_Ok in Hc as (Hlane & Hstep & Hacc).
  apply accept_spec in Hacc as (-> & -> & r & Hr & Hhash). split.
  - cbn [cursor_sound]. split_and!; try done.
    + split_and!; [|done|by exists state]. unfold rehash, body_dict. cbn [cr_body new_row].
      unfold stored. rewrite (layout_dict sort_keys layout_sort), Hr. cbn. by rewrite Hhash.
    + by exists CDraft, state.
  - cbn. apply negb_true_iff, bool_decide_eq_false. intros (x & E & Hx)%list_elem_of_fmap.
    apply list_elem_of_In in Hx. pose proof (find_none _ _ Ef x Hx) as Hn. apply not_true_iff_false in Hn.
    by apply Hn, adopted_as_key.
Qed.

(** The contract a transition found, which leads on to its target. *)
Definition leads (db : ContractDb) (c : cursor) : Prop :=
  match c with
  | WriteState id state _ log => ∃ r s d, r ∈ db.(cd_contracts) ∧ r.(cr_id) = id ∧ r.(cr_state) = contract_value s
      ∧ log.(tr_from_state) = contract_value s ∧ state = contract_value d ∧ contract_step s d
  | _ => True
  end.
Lemma transition_selected id to_state reason actor evidence expected st db c : (∀ r, r ∈ db.(cd_contracts) → row_sound r) →
  transition_select id to_state reason actor evidence expected st db = Ok c →
  cursor_sound db c ∧ leads db c ∧ (if c is WriteContract _ _ then False else True) ∧ owed c = [].
Proof.
  intros Hrows. unfold transition_select. destruct (List.find _ _) as [r|] eqn:Ef; [|done]. apply find_id in Ef as [Hr <-].
  destruct (Hrows r Hr) as (Hre & _ & s & Hs). rewrite Hre. cbn [mbind result_mbind]. rewrite bool_decide_eq_true_2 by done. cbn [negb].
  destruct (validate_transition _ _ _ _) as [d|] eqn:Ev; [|done]. pose proof (validate_step _ _ _ _ _ _ Hs Ev) as Hstep.
  cbn [map_err mbind result_mbind]. intros [= <-]. case_bool_decide; [done|]. split_and!; [|by exists r, s, d|done..].
  cbn. split_and!; [|done|done]. split; [by exists s, d|]. by exists r.
Qed.

(** *** One statement *)

Record db_sound (db : ContractDb) : Prop := {
  ds_ids : NoDup (map cr_id db.(cd_contracts));
  ds_unique : NoDup (omap unique_key db.(cd_contracts));
  ds_rows r : r ∈ db.(cd_contracts) → row_sound r;
  ds_log t : t ∈ db.(cd_transitions) → log_sound db t;
}.
Lemma stores_db s : stores_ok s → db_sound s.(sm_db).
Proof. intros [? ? ? ? _ _]. by split. Qed.

Lemma no_clash_unique r l : existsb (clashes r) l = false → ∀ k, unique_key r = Some k → k ∉ omap unique_key l.
Proof.
  intros Hf k Hk (x & Hx & E)%list_elem_of_omap. apply not_true_iff_false in Hf. apply Hf, existsb_exists. exists x.
  split; [by apply list_elem_of_In|]. unfold clashes, unique_key in *.
  destruct (cr_ref_id x) as [a|], (cr_ref_id r) as [b|]; try done. cbn in Hk, E. injection Hk as <-. injection E as -> -> ->.
  rewrite !bool_decide_eq_true_2 by done. by rewrite orb_true_r.
Qed.
Lemma omap_snoc {A B} (f : A → option B) l x : omap f (l ++ [x]) = omap f l ++ (if f x is Some y then [y] else []).
Proof. rewrite omap_app. cbn. by destruct (f x). Qed.

Lemma insert_contract_sound row log db db' : db_sound db → cursor_sound db (WriteContract row log) →
  insert_contract row db = (Ok (), db') →
  db_sound db' ∧ grows db db' ∧ log_sound db' log ∧ row.(cr_id) ∉ map cr_id db.(cd_contracts)
  ∧ db' = mkContractDb (db.(cd_contracts) ++ [row]) db.(cd_transitions).
Proof.
  intros Hdb (Hrow & Ha & Hid & Hh & _). unfold insert_contract. destruct (existsb _ _) eqn:Ec; [done|]. intros [= <-].
  assert (grows db (mkContractDb (cd_contracts db ++ [row]) (cd_transitions db))) as Hg.
  { intros r Hr. exists r. split_and!; [|done..]. apply elem_of_app. by left. }
  split_and!; [|done|..|by apply clashes_id|done].
  - split; cbn.
    + rewrite map_app. apply NoDup_app. split_and!; [apply Hdb| |apply NoDup_singleton].
      intros x Hx ->%list_elem_of_singleton. by apply (clashes_id _ _ Ec).
    + rewrite omap_snoc. apply NoDup_app. split_and!; [apply Hdb| |case_match; [apply NoDup_singleton|constructor]].
      intros x Hx Hx'. destruct (unique_key row) as [k|] eqn:Ek; [|by apply not_elem_of_nil in Hx'].
      apply list_elem_of_singleton in Hx' as ->. by apply (no_clash_unique _ _ Ec k Ek).
    + intros r [Hr| ->%list_elem_of_singleton]%elem_of_app; [by apply Hdb|done].
    + intros t Ht. eapply log_sound_grows; [exact Hg|]. by apply Hdb.
  - split; [done|]. exists row. split_and!; [|done..]. apply elem_of_app. right. by left.
Qed.

Lemma set_state_sound id state now log db : db_sound db → cursor_sound db (WriteState id state now log) →
  db_sound (set_state id state now db) ∧ grows db (set_state id state now db).
Proof.
  intros Hdb ((Ha & _) & _ & Hto).
  assert (grows db (set_state id state now db)) as Hg.
  { intros r Hr. eexists. split; [apply elem_of_update_where; by exists r|]. by destruct (with_id id r). }
  split; [|done]. split; cbn.
  - rewrite update_where_map by done. apply Hdb.
  - assert (omap unique_key (update_where (with_id id) (λ r, r <| cr_state := state |> <| cr_updated_at := now |>) (cd_contracts db))
      = omap unique_key (cd_contracts db)) as ->; [|apply Hdb].
    unfold update_where. induction (cd_contracts db) as [|r l IH]; [done|]. cbn in *. rewrite IH. by destruct (with_id id r).
  - intros r (r0 & Hr & ->)%elem_of_update_where. destruct (with_id id r0); [|by apply Hdb].
    apply (row_sound_state r0); [done..| |by apply Hdb]. destruct Ha as (a & b & _ & Hb & _). exists b. cbn. congruence.
  - intros t Ht. eapply log_sound_grows; [exact Hg|]. by apply Hdb.
Qed.

Lemma statement_sound c db r db' : db_sound db → cursor_sound db c → statement c db = (r, db') →
  db_sound db' ∧ grows db db' ∧ match r with Ok c' => cursor_sound db' c' | Err _ => db' = db end.
Proof.
  intros Hdb Hc. destruct c as [row log|id state now log|id log|id|row]; cbn [statement].
  - destruct (insert_contract row db) as [[[]|e] db1] eqn:Ei.
    + destruct (insert_contract_sound _ _ _ _ Hdb Hc Ei) as (H1 & H2 & H3 & _). intros [= <- <-]. split_and!; try done.
      by destruct Hc as (_ & _ & ? & _).
    + unfold insert_contract in Ei. destruct (existsb _ _); [|done]. injection Ei as <- <-. intros [= <- <-].
      split_and!; [done|apply grows_refl|done].
  - intros [= <- <-]. destruct (set_state_sound _ _ _ _ _ Hdb Hc) as [H1 H2]. destruct Hc as (Hl & Hid & _).
    split_and!; [done..|]. split; [by apply (log_sound_grows db)|done].
  - unfold insert_transition. destruct (existsb _ _); intros [= <- <-]; [split_and!; [done|apply grows_refl|done]|].
    pose proof (grows_log db log) as Hg. split_and!; [|done|done]. destruct Hdb as [? ? ? Hlog]. split; cbn; try done.
    intros t [Ht| ->%list_elem_of_singleton]%elem_of_app; (eapply log_sound_grows; [exact Hg|]); [by apply Hlog|apply Hc].
  - destruct (List.find _ _); intros [= <- <-]; (split_and!; [done|apply grows_refl|done]).
  - intros [= <- <-]. split_and!; [done|apply grows_refl|done].
Qed.

Lemma elem_of_others p i l : p ∈ others i l → p ∈ l.
Proof. unfold others. intros Hp%list_elem_of_In%filter_In. apply list_elem_of_In, Hp. Qed.
Lemma find_of_store i l p : List.find (of_store i) l = Some p → p ∈ l ∧ p.1 = i.
Proof. intros [Hp Hi]%find_some. split; [by apply list_elem_of_In|]. by apply Nat.eqb_eq. Qed.

Lemma call_selected s c cur : db_sound s → call_select c s = Ok cur → cursor_sound s cur ∧ leads s cur ∧
  (if cur is WriteContract row _ then adoption_key row ∉ map adoption_key s.(cd_contracts) else True) ∧ owed cur = [].
Proof.
  intros Hs. destruct c; cbn [call_select].
  - intros Ha. apply adopt_selected in Ha as [Hc Hk]. destruct cur; cbn in Hk; try done.
    split_and!; [exact Hc|done| |done]. by apply negb_true_iff, bool_decide_eq_false in Hk.
  - intros Ht. apply transition_selected in Ht as (Hc & Hl & Hn & Ho); [|apply Hs]. by destruct cur.
Qed.

Lemma owed_sound db c : cursor_sound db c → ∀ t, t ∈ owed c → log_sound db t.
Proof. destruct c; cbn; try (intros _ t Ht; by apply not_elem_of_nil in Ht). by intros [Hl _] t ->%list_elem_of_singleton. Qed.

Lemma store_step_ok s e : stores_ok s → stores_ok (store_step s e).
Proof.
  intros Hs. pose proof (stores_db s Hs) as Hdb. destruct e as [i c|i|i]; cbn [store_step].
  - destruct (existsb _ _); [done|]. destruct (call_select c (sm_db s)) as [cur|] eqn:Ec; [|done].
    destruct (settled_cursor cur); [done|]. apply call_selected in Ec as (Hc & _); [|done]. destruct Hs. split; try done.
    intros p [->|Hp]%elem_of_cons; [done|auto].
  - destruct (List.find _ _) as [[j c]|] eqn:Ef; [|done]. apply find_of_store in Ef as [Hin _].
    pose proof (ss_running _ Hs _ Hin) as Hc. cbn in Hc. destruct (statement c (sm_db s)) as [[c'|e] db'] eqn:Est.
    + destruct (statement_sound _ _ _ _ Hdb Hc Est) as ([? ? ? ?] & Hg & Hc'). split; try done.
      * intros t Ht. eapply log_sound_grows; [exact Hg|]. by apply (ss_lost _ Hs).
      * intros p Hp. assert (p ∈ others i (sm_running s) ∨ p = (i, c')) as [Ho| ->].
        { cbn in Hp. destruct (settled_cursor c'); [by left|]. apply elem_of_cons in Hp as [->|?]; auto. }
        -- eapply cursor_sound_grows; [exact Hg|]. apply (ss_running _ Hs). by eapply elem_of_others.
        -- done.
    + destruct (statement_sound _ _ _ _ Hdb Hc Est) as (_ & _ & ->). destruct Hs. split; try done.
      * intros t [Ht|Ht]%elem_of_app; [by eapply owed_sound|auto].
      * intros p Hp. eauto using elem_of_others.
  - destruct (List.find _ _) as [[j c]|] eqn:Ef; [|done]. apply find_of_store in Ef as [Hin _].
    pose proof (ss_running _ Hs _ Hin) as Hc. destruct Hs. split; try done.
    + intros t [Ht|Ht]%elem_of_app; [by eapply owed_sound|auto].
    + intros p Hp. eauto using elem_of_others.
Qed.
Lemma empty_stores_ok : stores_ok empty_stores.
Proof. split; cbn; first [by intros ? ?%not_elem_of_nil|constructor]. Qed.

(** *** One call at a time *)

(** The log of a contract, what calls in progress owe it and what was never written, against its state. *)
Definition accounted (db : ContractDb) (pending missing : list TransitionRow) (r : ContractRow) : Prop :=
  ∃ base s visited, log_path (base ++ of_contract r.(cr_id) pending) (s :: visited) ∧ r.(cr_state) = contract_value s ∧
    trail r.(cr_id) db `sublist_of` base ∧ base ≡ₚ trail r.(cr_id) db ++ of_contract r.(cr_id) missing.

Lemma of_contract_here t : of_contract t.(tr_contract_id) [t] = [t].
Proof. unfold of_contract, select. cbn. by rewrite bool_decide_eq_true_2. Qed.
Lemma of_contract_other id t : t.(tr_contract_id) ≠ id → of_contract id [t] = [].
Proof. intros Hn. unfold of_contract, select. cbn. by rewrite bool_decide_eq_false_2. Qed.

(** A call that ends early leaves its row unwritten. *)
Lemma accounted_dropped db pending missing r : accounted db pending missing r → accounted db [] (pending ++ missing) r.
Proof.
  intros (base & s & visited & Hp & Hs & Hsub & Hperm). exists (base ++ of_contract r.(cr_id) pending), s, visited.
  split_and!; [by rewrite app_nil_r|done|by apply sublist_inserts_r|]. rewrite of_contract_app, Hperm, <-app_assoc.
  by rewrite (Permutation_app_comm (of_contract _ pending)).
Qed.
Lemma accounted_written db log missing r :
  accounted db [log] missing r → accounted (mkContractDb db.(cd_contracts) (db.(cd_transitions) ++ [log])) [] missing r.
Proof.
  intros (base & s & visited & Hp & Hs & Hsub & Hperm). destruct (decide (log.(tr_contract_id) = r.(cr_id))) as [E|E].
  - rewrite <-E, of_contract_here in *. exists (base ++ [log]), s, visited. rewrite app_nil_r, <-E, trail_snoc, bool_decide_eq_true_2 by done.
    split_and!; [done|done|by apply sublist_app|]. rewrite Hperm, <-!app_assoc.
    by rewrite (Permutation_app_comm (of_contract _ missing)).
  - rewrite of_contract_other in Hp by done. exists base, s, visited.
    rewrite trail_snoc, bool_decide_eq_false_2 by done. change (of_contract _ []) with (@nil TransitionRow) in *. by rewrite !app_nil_r in *.
Qed.
Lemma accounted_same db db' log missing r :
  db'.(cd_transitions) = db.(cd_transitions) → log.(tr_contract_id) ≠ r.(cr_id) → accounted db [] missing r → accounted db' [log] missing r.
Proof. intros E Hn Ha. unfold accounted, trail in *. rewrite of_contract_other, E by done. exact Ha. Qed.
Lemma accounted_moved db db' log missing r s d now :
  db'.(cd_transitions) = db.(cd_transitions) → log.(tr_contract_id) = r.(cr_id) → r.(cr_state) = contract_value s →
  log.(tr_from_state) = contract_value s → log.(tr_to_state) = contract_value d → contract_step s d →
  accounted db [] missing r → accounted db' [log] missing (r <| cr_state := contract_value d |> <| cr_updated_at := now |>).
Proof.
  intros E Hid Hs Hfrom Hto Hstep (base & s' & visited & Hp & Hs' & Hsub & Hperm). rewrite app_nil_r in Hp.
  assert (s' = s) as -> by (apply contract_value_inj; congruence).
  exists base, d, (s :: visited). unfold trail. cbn -[of_contract]. rewrite E, <-Hid, of_contract_here, Hid.
  split_and!; [|done..]. by apply log_row.
Qed.
Lemma accounted_new db' log missing r d :
  trail r.(cr_id) db' = [] → of_contract r.(cr_id) missing = [] → log.(tr_contract_id) = r.(cr_id) →
  log.(tr_from_state) = contract_value CDraft → log.(tr_to_state) = contract_value d → r.(cr_state) = contract_value d →
  contract_step CDraft d → accounted db' [log] missing r.
Proof.
  intros Et Em Hid Hfrom Hto Hs Hstep. exists [], d, [CDraft]. rewrite Et, Em, <-Hid, of_contract_here. split_and!; [|done..].
  apply (log_row [] log CDraft d []); [constructor|done..].
Qed.

Definition pending (s : Stores) : list TransitionRow := concat (map (λ p, owed p.2) s.(sm_running)).
Record serial_ok (s : Stores) : Prop := {
  so_all : stores_ok s;
  so_adopted : NoDup (map adoption_key s.(sm_db).(cd_contracts));
  so_alone : s.(sm_running) = [] ∨ ∃ i c, s.(sm_running) = [(i, c)] ∧ leads s.(sm_db) c ∧
    (if c is WriteContract row _ then adoption_key row ∉ map adoption_key s.(sm_db).(cd_contracts) else True);
  so_accounted r : r ∈ s.(sm_db).(cd_contracts) → accounted s.(sm_db) (pending s) s.(sm_lost) r;
}.

Lemma not_in_log id l db : (∀ t, t ∈ l → log_sound db t) → id ∉ map cr_id db.(cd_contracts) → of_contract id l = [].
Proof.
  intros Hl Hid. apply select_none. intros t Ht. apply bool_decide_eq_false. intros E.
  destruct (Hl t Ht) as (_ & r & Hr & Hri & _). apply Hid. rewrite <-E, <-Hri. by apply list_elem_of_fmap_2.
Qed.

Lemma serial_begins s i c : serial_ok s → s.(sm_running) = [] → serial_ok (store_step s (Begins i c)).
Proof.
  intros Hs Hr. pose proof (store_step_ok s (Begins i c) (so_all _ Hs)) as Hall. cbn [store_step] in *. rewrite Hr in *. cbn [existsb] in *.
  destruct (call_select c (sm_db s)) as [cur|] eqn:Ec; [|done]. destruct (settled_cursor cur); [done|].
  apply call_selected in Ec as (_ & Hl & Hk & Ho); [|by apply stores_db, Hs].
  split; [done|apply Hs|right; by exists i, cur|]. intros r Hrow. unfold pending. cbn. rewrite Ho.
  destruct (so_accounted _ Hs r Hrow) as (base & x & y & Hp). exists base, x, y. unfold pending in Hp. by rewrite Hr in Hp.
Qed.

Lemma serial_runs s i : serial_ok s → serial_ok (store_step s (Runs i)).
Proof.
  intros Hs. pose proof (store_step_ok s (Runs i) (so_all _ Hs)) as Hall. cbn [store_step] in *.
  destruct (List.find _ _) as [[j c]|] eqn:Ef; [|done]. apply find_of_store in Ef as [Hin Hj]. cbn in Hj. subst j.
  destruct (so_alone _ Hs) as [Hr|(j & c' & Hr & Hl & Hk)]; [by rewrite Hr in Hin; apply not_elem_of_nil in Hin|].
  rewrite Hr in Hin. apply list_elem_of_singleton in Hin. injection Hin as <- <-.
  pose proof (ss_running _ (so_all _ Hs) (i, c) ltac:(rewrite Hr; by left)) as Hc. cbn [snd] in Hc.
  pose proof (stores_db _ (so_all _ Hs)) as Hdb.
  assert (others i (sm_running s) = []) as Ho by (rewrite Hr; unfold others, of_store; cbn; by rewrite Nat.eqb_refl).
  assert (pending s = owed c) as Hp by (unfold pending; rewrite Hr; cbn; by rewrite app_nil_r).
  pose proof (so_accounted _ Hs) as Hacc. rewrite Hp in Hacc. rewrite Ho in *.
  destruct (statement c (sm_db s)) as [[c1|e] db1] eqn:Est.
  2: { destruct (statement_sound _ _ _ _ Hdb Hc Est) as (_ & _ & ->). split; [done|apply Hs|by left|].
       intros r Hr'. by apply accounted_dropped, Hacc. }
  destruct c as [row log|id state now log|id log|id|row]; cbn [statement] in Est.
  - destruct (insert_contract row (sm_db s)) as [[[]|] db2] eqn:Ei; [|done]. injection Est as <- <-.
    destruct (insert_contract_sound _ _ _ _ Hdb Hc Ei) as (_ & _ & _ & Hfresh & ->).
    destruct Hc as (Hrow & Ha & Hid & Hh & Hfrom & Hto). cbn [settled_cursor] in *. split; [done|..].
    + cbn. rewrite map_app. apply NoDup_app. split_and!; [apply Hs| |apply NoDup_singleton].
      by intros x Hx ->%list_elem_of_singleton.
    + right. by exists i, (WriteLog row.(cr_id) log).
    + intros r. cbn -[accounted]. intros [Hr'| ->%list_elem_of_singleton]%elem_of_app.
      * eapply accounted_same; [done| |by apply Hacc]. rewrite Hid. intros E. apply Hfresh. rewrite E. by apply list_elem_of_fmap_2.
      * destruct Ha as (a & b & Ea & Eb & Hstep). assert (a = CDraft) as -> by (apply contract_value_inj; congruence).
        apply (accounted_new _ log _ row b); try congruence; try done.
        -- by apply (not_in_log row.(cr_id) _ (sm_db s)); [apply Hdb|].
        -- by apply (not_in_log row.(cr_id) _ (sm_db s)); [apply Hs|].
  - injection Est as <- <-. destruct Hl as (r0 & s0 & d & Hr0 & Hid0 & Hs0 & Hfrom & -> & Hstep).
    destruct Hc as (_ & Hid & Hto). cbn [settled_cursor] in *. split; [done|..].
    + cbn. rewrite update_where_map by done. apply Hs.
    + right. by exists i, (WriteLog id log).
    + intros r. cbn -[accounted update_where]. intros (r1 & Hr1 & ->)%elem_of_update_where.
      destruct (with_id id r1) eqn:Ei.
      * unfold with_id in Ei. apply bool_decide_eq_true in Ei.
        assert (r1 = r0) as ->.
        { pose proof (find_by_id _ _ (ds_ids _ Hdb) Hr1) as E1. pose proof (find_by_id _ _ (ds_ids _ Hdb) Hr0) as E2. congruence. }
        eapply (accounted_moved (sm_db s)); try done; [congruence|by apply Hacc].
      * unfold with_id in Ei. apply bool_decide_eq_false in Ei. eapply (accounted_same (sm_db s)); [done|congruence|by apply Hacc].
  - unfold insert_transition in Est. destruct (existsb _ _); [done|]. injection Est as <- <-. cbn [settled_cursor] in *.
    split; [done|apply Hs|right; by exists i, (ReadBack id)|]. intros r Hr'. by apply accounted_written, Hacc.
  - destruct (List.find _ _) as [row|]; [|done]. injection Est as <- <-. cbn [settled_cursor] in *.
    split; [done|apply Hs|by left|exact Hacc].
  - injection Est as <- <-. cbn [settled_cursor] in *. split; [done|apply Hs|by left|exact Hacc].
Qed.

Lemma serial_ends s i : serial_ok s → serial_ok (store_step s (Ends i)).
Proof.
  intros Hs. pose proof (store_step_ok s (Ends i) (so_all _ Hs)) as Hall. cbn [store_step] in *.
  destruct (List.find _ _) as [[j c]|] eqn:Ef; [|done]. apply find_of_store in Ef as [Hin Hj]. cbn in Hj. subst j.
  destruct (so_alone _ Hs) as [Hr|(j & c' & Hr & _)]; [by rewrite Hr in Hin; apply not_elem_of_nil in Hin|].
  rewrite Hr in Hin. apply list_elem_of_singleton in Hin. injection Hin as <- <-.
  assert (others i (sm_running s) = []) as Ho by (rewrite Hr; unfold others, of_store; cbn; by rewrite Nat.eqb_refl).
  assert (pending s = owed c) as Hp by (unfold pending; rewrite Hr; cbn; by rewrite app_nil_r).
  rewrite Ho in *. split; [done|apply Hs|by left|]. intros r Hr'. change (pending _) with (@nil TransitionRow).
  apply accounted_dropped. rewrite <-Hp. by apply Hs.
Qed.

Lemma stores_run_ok l s : stores_ok s → stores_ok (run_stores s l).
Proof. revert s. induction l as [|e l IH]; intros s Hs; [done|]. by apply IH, store_step_ok. Qed.
Lemma serial_run_ok l s : serialized s l → serial_ok s → serial_ok (run_stores s l).
Proof.
  revert s. induction l as [|e l IH]; intros s; [done|]. intros [He Hl] Hs. apply IH; [done|].
  destruct e; [by apply serial_begins|by apply serial_runs|by apply serial_ends].
Qed.
Lemma empty_serial_ok : serial_ok empty_stores.
Proof. split; [apply empty_stores_ok|constructor|by left|by intros ? ?%not_elem_of_nil]. Qed.

Lemma sublist_full {A} (l k : list A) : l `sublist_of` k → (length k ≤ length l)%nat → l = k.
Proof.
  induction 1 as [|x l k Hs IH|x l k Hs IH]; cbn; intros Hle; [done|f_equal; apply IH; lia|].
  apply sublist_length in Hs. lia.
Qed.

(** C11: The stored contract is the one adopted, and its log is a history of it.  The calls are taken apart into their statements, each committed by itself.
    Whatever stores run on the database, however their statements interleave, and wherever a call ends because its process dies or the database raises:
    identifiers, and identity, lane and non-null reference together, are unique; every row re-hashes to its ledger identity and sits in a supported lane;
    every log row belongs to a contract, carries its identity and is an allowed step.  If moreover no call begins while another one is between its
    statements (as with the calls of one store, which its lock serializes): identity, lane and reference together are unique even when the reference is
    null; and the log of a contract, in its order, is contained in a path of allowed steps from draft to the contract's state, so that a contract being
    verified or verified was adopted and active before; what is missing from the log are exactly the rows of the calls that ended between their two
    writes and of the call that is there now, so without such a call the log is that path. *)
Theorem store_refines_lifecycle l :
  let s := run_stores empty_stores l in
  let db := s.(sm_db) in
  (NoDup (map cr_id db.(cd_contracts)) ∧ NoDup (omap unique_key db.(cd_contracts))) ∧
  (∀ r, r ∈ db.(cd_contracts) →
     assert_hash_identity r.(cr_id) db = Ok r.(cr_contract_hash) ∧ r.(cr_lane) ∈ SUPPORTED_LANES) ∧
  (∀ t, t ∈ db.(cd_transitions) → ∃ r a b,
     r ∈ db.(cd_contracts) ∧ r.(cr_id) = t.(tr_contract_id) ∧ r.(cr_contract_hash) = t.(tr_contract_hash) ∧
     t.(tr_from_state) = contract_value a ∧ t.(tr_to_state) = contract_value b ∧ contract_step a b) ∧
  (serialized empty_stores l →
     NoDup (map adoption_key db.(cd_contracts)) ∧
     ∀ r, r ∈ db.(cd_contracts) → ∃ base st visited,
       log_path (base ++ owing r.(cr_id) s) (st :: visited) ∧ history (st :: visited) ∧ r.(cr_state) = contract_value st ∧
       (st = CVerified ∨ st = CVerifying → CAdopted ∈ visited ∧ CActive ∈ visited) ∧
       trail r.(cr_id) db `sublist_of` base ∧ base ≡ₚ trail r.(cr_id) db ++ lost r.(cr_id) s ∧
       (lost r.(cr_id) s = [] → base = trail r.(cr_id) db)).
Proof.
  intros s db. pose proof (stores_run_ok l _ empty_stores_ok) as Hok. fold s in Hok. split_and!; [apply Hok|apply Hok|..].
  - intros r Hr. destruct (ss_rows _ Hok r Hr) as (Hre & Hlane & _). split; [|done]. unfold assert_hash_identity, get.
    fold db in Hok. pose proof (find_by_id _ _ (ss_ids _ Hok) Hr) as E. fold db in E. rewrite E, Hre. cbn. by rewrite bool_decide_eq_true_2.
  - intros t Ht. destruct (ss_log _ Hok t Ht) as ((a & b & Ha & Hb & Hst) & r & Hr & Hid & Hh). by exists r, a, b.
  - intros Hser. pose proof (serial_run_ok l _ Hser empty_serial_ok) as Hs. fold s in Hs. split; [apply Hs|].
    intros r Hr. destruct (so_accounted _ Hs r Hr) as (base & st & visited & Hp & Hst & Hsub & Hperm).
    pose proof (log_path_history _ _ Hp) as Hhist. exists base, st, visited. split_and!; try done.
    + intros Hv. pose proof (history_inv _ Hhist) as [Ha Hb]. split.
      * assert (CAdopted ∈ st :: visited) as [<-|?]%elem_of_cons by (apply Ha; naive_solver); [naive_solver|done].
      * assert (CActive ∈ st :: visited) as [<-|?]%elem_of_cons by (apply Hb; naive_solver); [naive_solver|done].
    + intros Hl. change (of_contract (cr_id r) (sm_lost s)) with (lost (cr_id r) s) in Hperm. rewrite Hl, app_nil_r in Hperm.
      symmetry. apply sublist_full; [done|]. by rewrite Hperm.
Qed.

(** a transition happens exactly when it may.  A call answers a row when the contract exists, the step is in the table
    and the hash that was expected, if any, is the contract's; the state and the time of that one row change and one log
    row is added, or nothing at all when the contract is there already.  Otherwise the call raises and changes nothing. *)
Theorem transition_exact l contract_id to_state reason actor evidence expected_hash st :
  fresh_stamps l →
  let db := run_contract_calls (mkContractDb [] []) l in
  unused st db →
  match transition contract_id to_state reason actor evidence expected_hash st db with
  | (Ok r', db') => ∃ r dst,
      r ∈ db.(cd_contracts) ∧ r.(cr_id) = contract_id ∧ can_transition r.(cr_state) to_state = true ∧
      contract_state to_state = Some dst ∧ (∀ h, expected_hash = Some h → h = r.(cr_contract_hash)) ∧
      (r.(cr_state) = contract_value dst ∧ r' = r ∧ db' = db ∨
       r.(cr_state) ≠ contract_value dst ∧ r' = moved dst st r ∧
       db' = mkContractDb (update_where (with_id contract_id) (moved dst st) db.(cd_contracts))
               (db.(cd_transitions) ++ [move_log r dst reason actor evidence st]))
  | (Err _, db') => db' = db ∧ ∀ r, r ∈ db.(cd_contracts) → r.(cr_id) = contract_id →
      can_transition r.(cr_state) to_state = false ∨ ∃ h, expected_hash = Some h ∧ h ≠ r.(cr_contract_hash)
  end.
Proof.
  intros Hl db Hst. pose proof (reached_ok l Hl) as Hok. fold db in Hok. rewrite transition_eq by done.
  destruct (List.find _ _) as [row|] eqn:Ef.
  - apply find_id in Ef as [Hrow Hid]. destruct (validate_transition _ _ _ _) as [dst|e] eqn:Ev.
    + apply validate_transition_exact in Ev as (Hcan & Hdst & Hh).
      assert (∀ h, expected_hash = Some h → h = cr_contract_hash row) as Hexp by (intros h ->; by apply Hh).
      case_bool_decide; exists row, dst; naive_solver.
    + split; [done|]. intros r Hr Hri.
      assert (r = row) as ->.
      { pose proof (find_by_id _ _ (so_ids _ Hok) Hr) as E1. pose proof (find_by_id _ _ (so_ids _ Hok) Hrow) as E2. congruence. }
      destruct (can_transition (cr_state row) to_state) eqn:Ec; [right|by left].
      destruct (decide (default (cr_contract_hash row) expected_hash = cr_contract_hash row)) as [Hd|Hd].
      * unfold can_transition in Ec. destruct (contract_state (cr_state row)) eqn:Es; [|done].
        destruct (contract_state to_state) as [dst|] eqn:Et; [|done]. exfalso.
        assert (validate_transition (cr_state row) to_state (Some (cr_contract_hash row))
          (Some (default (cr_contract_hash row) expected_hash)) = Ok dst) as Hv; [|congruence].
        apply validate_transition_exact. unfold can_transition. rewrite Es, Et. split_and!; [done..|]. by intros ? ? [= <-] [= <-].
      * destruct expected_hash as [h|]; [|done]. by exists h.
  - split; [done|]. intros r Hr Hri. pose proof (find_by_id _ _ (so_ids _ Hok) Hr) as E. rewrite Hri in E. congruence.
Qed.

(** *** Adoption *)

Definition same_adoption (r r' : ContractRow) : Prop :=
  r.(cr_id) = r'.(cr_id) ∧ r.(cr_contract_hash) = r'.(cr_contract_hash) ∧ r.(cr_lane) = r'.(cr_lane) ∧
  r.(cr_ref_id) = r'.(cr_ref_id) ∧ r.(cr_body) = r'.(cr_body) ∧ r.(cr_metadata) = r'.(cr_metadata).

Lemma find_snoc {A} (p : A → bool) l m x : List.find p l = Some x → List.find p (l ++ m) = Some x.
Proof. induction l as [|y l IH]; [done|]. cbn. by destruct (p y). Qed.
Lemma find_snoc_new {A} (p : A → bool) l x : List.find p l = None → p x = true → List.find p (l ++ [x]) = Some x.
Proof. intros Hl Hx. induction l as [|y l IH]; cbn in *; [by rewrite Hx|]. by destruct (p y); [|apply IH]. Qed.

Lemma adopt_found g lane ref_id actor metadata init st db r db' :
  adopt g lane ref_id actor metadata init st db = (Ok r, db') →
  List.find (adopted_as r.(cr_contract_hash) r.(cr_lane) ref_id) db'.(cd_contracts) = Some r.
Proof.
  unfold adopt, completed. rewrite adopt_select_eq.
  destruct (adopt_checks _ _ _) as [[[lane_n [[tc digest] body]] state]|]; [|done]. cbn [mbind result_mbind].
  destruct (List.find _ _) as [ex|] eqn:Ef.
  - intros [= -> ->]. assert (adopted_as digest lane_n ref_id r = true) as Ha by (by apply find_some in Ef as [_ ?]).
    apply adopted_as_key in Ha. unfold adoption_key in Ha. injection Ha as -> -> _. done.
  - cbn [statements statement]. unfold insert_contract. destruct (existsb _ _) eqn:Ec; [done|].
    cbn -[List.find insert_transition new_row]. unfold insert_transition. destruct (existsb _ (cd_transitions _)); [done|].
    cbn -[List.find new_row]. set (row := new_row _ _ _ _ _ _ _ _) in *.
    pose proof (find_last_id row _ (clashes_id _ _ Ec)) as E. rewrite E.
    intros [= <- <-]. apply find_snoc_new; [done|]. by apply adopted_as_key.
Qed.

Lemma find_updated p id v n l r : (∀ x, p (x <| cr_state := v |> <| cr_updated_at := n |>) = p x) →
  List.find p l = Some r →
  ∃ r', List.find p (update_where (with_id id) (λ x, x <| cr_state := v |> <| cr_updated_at := n |>) l) = Some r' ∧ same_adoption r r'.
Proof.
  intros Hp. induction l as [|x l IH]; [done|]. cbn [List.find update_where map].
  destruct (p x) eqn:E.
  - intros [= ->]. exists (if with_id id r then r <| cr_state := v |> <| cr_updated_at := n |> else r).
    split; [|by destruct (with_id id r)]. destruct (with_id id r); cbv beta; by rewrite ?Hp, E.
  - intros Hf. destruct (IH Hf) as (r' & Hr' & Hs). exists r'. split; [|done].
    destruct (with_id id x); cbv beta; by rewrite ?Hp, E.
Qed.

Lemma step_keeps_adoption digest lane ref_id r db c : List.find (adopted_as digest lane ref_id) db.(cd_contracts) = Some r →
  ∃ r', List.find (adopted_as digest lane ref_id) (contract_call_step db c).(cd_contracts) = Some r' ∧ same_adoption r r'.
Proof.
  intros Hf. destruct c as [g lane' ref_id' actor metadata init st|id to_state reason actor evidence expected st]; cbn [contract_call_step].
  - unfold adopt, completed. rewrite adopt_select_eq.
    destruct (adopt_checks _ _ _) as [[[lane_n [[tc dg] body]] state]|]; [|by exists r]. cbn [mbind result_mbind].
    destruct (List.find (adopted_as dg lane_n ref_id') _); [by exists r|].
    exists r. split; [|done]. cbn [statements statement]. unfold insert_contract. destruct (existsb _ _); [done|].
    cbn -[List.find insert_transition new_row]. unfold insert_transition. destruct (existsb _ (cd_transitions _)); [by apply find_snoc|].
    cbn -[List.find new_row]. destruct (List.find (with_id _) _); by apply find_snoc.
  - unfold transition, completed, transition_select. destruct (List.find (with_id id) _) as [row|]; [|by exists r].
    destruct (rehash row); [|by exists r]. cbn [mbind result_mbind]. destruct (negb _); [by exists r|].
    destruct (map_err _ _) as [dst|]; [|by exists r]. cbn [mbind result_mbind]. case_bool_decide; [by exists r|].
    destruct (find_updated (adopted_as digest lane ref_id) id (contract_value dst) (sp_now st) _ r (λ _, eq_refl) Hf) as (r' & Hr' & Hs).
    exists r'. split; [|done]. cbn -[List.find insert_transition set_state]. unfold insert_transition.
    destruct (existsb _ (cd_transitions _)); [done|]. cbn -[List.find set_state]. by destruct (List.find (with_id id) _).
Qed.

Lemma run_keeps_adoption digest lane ref_id l r db : List.find (adopted_as digest lane ref_id) db.(cd_contracts) = Some r →
  ∃ r', List.find (adopted_as digest lane ref_id) (run_contract_calls db l).(cd_contracts) = Some r' ∧ same_adoption r r'.
Proof.
  revert db r. induction l as [|c l IH]; intros db r Hf; [by exists r|].
  destruct (step_keeps_adoption _ _ _ _ _ c Hf) as (r1 & Hf1 & Hs1). destruct (IH _ _ Hf1) as (r2 & Hf2 & Hs2).
  exists r2. split; [exact Hf2|]. unfold same_adoption in *. naive_solver congruence.
Qed.

(** adoption is permanent.  Once a contract was adopted for a lane and a reference, adopting the same intent there again,
    whatever calls were made in between and whatever state it is in by then, answers that same row and writes nothing. *)
Theorem adoption_is_permanent g lane ref_id actor metadata init st db r db' l
    g2 lane2 ref2 actor2 metadata2 init2 st2 tc body s2 :
  adopt g lane ref_id actor metadata init st db = (Ok r, db') →
  let later := run_contract_calls db' l in
  assert_supported_lane lane2 = Ok r.(cr_lane) → accept g2 = Ok (tc, r.(cr_contract_hash), body) →
  initial init2 = Ok s2 → default "" ref2 = default "" ref_id →
  ∃ r', adopt g2 lane2 ref2 actor2 metadata2 init2 st2 later = (Ok r', later) ∧ same_adoption r r'.
Proof.
  intros Ha later Hlane Hacc Hinit Href. apply adopt_found in Ha.
  destruct (run_keeps_adoption _ _ _ l r db' Ha) as (r' & Hf & Hs). fold later in Hf.
  exists r'. split; [|done]. unfold adopt, completed. rewrite adopt_select_eq. unfold adopt_checks.
  rewrite Hlane. cbn [map_err mbind result_mbind]. rewrite Hacc. cbn [mbind result_mbind].
  rewrite Hinit. cbn [mbind result_mbind].
  assert (adopted_as (cr_contract_hash r) (cr_lane r) ref2 = adopted_as (cr_contract_hash r) (cr_lane r) ref_id) as ->.
  { unfold adopted_as, same_ref. by rewrite Href. }
  by rewrite Hf.
Qed.
End store.

(** ** Witnesses *)

#[local] Existing Instance toy_contract_host.

Definition toy_stamp (c t now : string) : Stamp := mkStamp now c t.
Definition adopt_toy (lease : LeaseFields) (st : Stamp) : contract_call :=
  CallAdopt (Contract (toy_contract <| tc_lease := lease |>)) " Runner " (Some "run-1") "system" [] "adopted" st.
Definition move_toy (to_state : string) (st : Stamp) : contract_call := CallTransition "tct_1" to_state "" "system" [] None st.
Definition toy_calls : list contract_call :=
  [adopt_toy (mkLeaseFields None None None 0) (toy_stamp "tct_1" "tcx_1" "01"); move_toy "active" (toy_stamp "tct_2" "tcx_2" "02");
   adopt_toy (mkLeaseFields None None None 7) (toy_stamp "tct_3" "tcx_3" "03"); move_toy "closed" (toy_stamp "tct_4" "tcx_4" "04")].
#[local] Notation toy_db := (run_contract_calls (mkContractDb [] []) toy_calls).

Lemma toy_stamps : fresh_stamps toy_calls.
Proof. split; apply (bool_decide_unpack _); by vm_compute. Qed.

(** Store 0 adopts and activates; store 1 closes but dies before its log row; store 0 adopts again. *)
Definition whole (i : nat) (c : contract_call) : list store_event := [Begins i c; Runs i; Runs i; Runs i].
Definition toy_events : list store_event :=
  whole 0 (adopt_toy (mkLeaseFields None None None 0) (toy_stamp "tct_1" "tcx_1" "01"))
  ++ whole 0 (move_toy "active" (toy_stamp "tct_2" "tcx_2" "02"))
  ++ [Begins 1 (move_toy "closed" (toy_stamp "tct_4" "tcx_4" "04")); Runs 1; Ends 1]
  ++ whole 0 (adopt_toy (mkLeaseFields None None None 7) (toy_stamp "tct_3" "tcx_3" "03")).
Example store_refines_lifecycle_witness :
  let s := run_stores empty_stores toy_events in
  map tr_to_state s.(sm_lost) = ["closed"] ∧
  ∃ r base st visited, r ∈ s.(sm_db).(cd_contracts) ∧ r.(cr_state) = "closed" ∧
    log_path (base ++ owing r.(cr_id) s) (st :: visited) ∧ base ≡ₚ trail r.(cr_id) s.(sm_db) ++ lost r.(cr_id) s.
Proof.
  intros s. split; [by vm_compute|]. destruct (store_refines_lifecycle toy_events) as (_ & _ & _ & Hser).
  destruct Hser as [_ Hr]; [by vm_compute|]. fold s in Hr.
  destruct (cd_contracts (sm_db s)) as [|r l] eqn:E; [exfalso; revert E; vm_compute; discriminate|].
  destruct (Hr r) as (base & st & visited & Hp & _ & _ & _ & _ & Hperm & _); [left|].
  exists r, base, st, visited. split; [left|]. split; [|by split].
  assert (map cr_state (cd_contracts (sm_db s)) = ["closed"]) as Ec by (vm_compute; reflexivity).
  rewrite E in Ec. injection Ec as Ec _. exact Ec.
Defined.

(** Two stores move one contract at once: the closed contract is being verified again, and its log is no path. *)
Example race_reopens_contract :
  let s := run_stores empty_stores
    (whole 0 (adopt_toy (mkLeaseFields None None None 0) (toy_stamp "tct_1" "tcx_1" "01"))
     ++ whole 0 (move_toy "active" (toy_stamp "tct_2" "tcx_2" "02"))
     ++ [Begins 1 (move_toy "closed" (toy_stamp "tct_3" "tcx_3" "03"));
         Begins 2 (move_toy "verifying" (toy_stamp "tct_4" "tcx_4" "04")); Runs 1; Runs 1; Runs 1; Runs 2; Runs 2; Runs 2]) in
  map cr_state s.(sm_db).(cd_contracts) = ["verifying"] ∧
  map (λ t, (t.(tr_from_state), t.(tr_to_state))) (list_transitions "tct_1" s.(sm_db))
  = [("draft", "adopted"); ("adopted", "active"); ("active", "closed"); ("active", "verifying")] ∧
  can_transition "closed" "verifying" = false.
Proof. by vm_compute. Qed.
(** Two stores adopt the same intent without a reference at once: it is adopted twice. *)
Example race_adopts_twice :
  let adopt_at i c t := Begins i (CallAdopt (Contract toy_contract) "test" None "system" [] "adopted" (toy_stamp c t "01")) in
  let s := run_stores empty_stores ([adopt_at 1%nat "tct_1" "tcx_1"; adopt_at 2%nat "tct_2" "tcx_2"; Runs 1; Runs 2]) in
  map adoption_key s.(sm_db).(cd_contracts) = (λ k, [k; k]) (hd ("", "", "") (map adoption_key s.(sm_db).(cd_contracts)))
  ∧ length s.(sm_db).(cd_contracts) = 2%nat.
Proof. by vm_compute. Qed.

Example toy_db_rows : map (λ r, (r.(cr_id), r.(cr_state), r.(cr_lane))) toy_db.(cd_contracts) = [("tct_1", "closed", "runner")]
  ∧ map (λ t, (t.(tr_from_state), t.(tr_to_state))) (list_transitions "tct_1" toy_db)
    = [("draft", "adopted"); ("adopted", "active"); ("active", "closed")].
Proof. vm_compute. done. Qed.

Example transition_exact_witness :
  (transition "tct_1" "active" "" "system" [] None (toy_stamp "tct_5" "tcx_5" "05") toy_db).2 = toy_db.
Proof.
  assert (unused (toy_stamp "tct_5" "tcx_5" "05") toy_db) as Hu.
  { split; apply (bool_decide_unpack _); by vm_compute. }
  pose proof (transition_exact toy_calls "tct_1" "active" "" "system" [] None _ toy_stamps Hu) as Ht.
  destruct (transition "tct_1" "active" "" "system" [] None _ _) as [[r'|e] db'] eqn:E; [|exact (proj1 Ht)].
  exfalso. apply (f_equal (λ p, is_ok p.1)) in E. revert E. vm_compute. discriminate.
Defined.

Example adoption_is_permanent_witness :
  let out := adopt (Mapping toy_mapping) "runner" (Some "r") "system" [] "adopted" (toy_stamp "tct_1" "tcx_1" "01") (mkContractDb [] []) in
  let later := run_contract_calls out.2 [move_toy "active" (toy_stamp "tct_2" "tcx_2" "02")] in
  ∃ r', adopt (Contract toy_contract) "RUNNER" (Some "r") "w" [] "draft" (toy_stamp "tct_3" "tcx_3" "03") later = (Ok r', later).
Proof.
  intros out later. destruct out as [[r|e] db'] eqn:E; [|exfalso; apply (f_equal (λ p, is_ok p.1)) in E; revert E; vm_compute; discriminate].
  assert (assert_supported_lane "RUNNER" = Ok r.(cr_lane)) as Hl.
  { assert (out.1 = Ok r) as Er by (by rewrite E). revert Er. vm_compute. by intros [= <-]. }
  assert (accept (Contract toy_contract) = Ok (toy_contract, r.(cr_contract_hash), to_dict toy_contract)) as Ha.
  { assert (out.1 = Ok r) as Er by (by rewrite E). revert Er. vm_compute. by intros [= <-]. }
  destruct (adoption_is_permanent _ _ _ _ _ _ _ _ _ _ [move_toy "active" (toy_stamp "tct_2" "tcx_2" "02")] (Contract toy_contract)
    "RUNNER" (Some "r") "w" [] "draft" (toy_stamp "tct_3" "tcx_3" "03") _ _ CDraft E Hl Ha eq_refl eq_refl) as (r' & Hr' & _).
  by exists r'.
Defined.

(** Adopting as a draft writes a log row from draft to draft. *)
Example draft_adoption_logged :
  map (λ t, (t.(tr_from_state), t.(tr_to_state)))
    (adopt (Contract toy_contract) "test" None "system" [] "draft" (toy_stamp "tct_1" "tcx_1" "01") (mkContractDb [] [])).2.(cd_transitions)
  = [("draft", "draft")].
Proof. vm_compute. reflexivity. Qed.
(** No reference and an empty one are one adoption. *)
Example empty_reference_is_none :
  let db := run_contract_calls (mkContractDb [] [])
    [CallAdopt (Contract toy_contract) "test" None "system" [] "adopted" (toy_stamp "tct_1" "tcx_1" "01");
     CallAdopt (Contract toy_contract) "test" (Some "") "system" [] "adopted" (toy_stamp "tct_2" "tcx_2" "02")] in
  map cr_id db.(cd_contracts) = ["tct_1"].
Proof. vm_compute. reflexivity. Qed.
