(* ===== verification/FanIn.v ===== *)
(** * FanIn: [omniagentos/fanin/types.py], [normalize.py] and [adjudicate.py]

    Parallel candidates collapse to one outcome: normalization by content hash, ranking,
    the six modes, the criteria, and the synthesis that keeps conflicts, with the switch
    between it and the plain merge.  SHA-256, the digits of a float and the rounding of a
    large integer are parameters.  A content is a JSON value.  What Python's
    sort makes of a list with a NaN among its keys depends on its algorithm and is a
    parameter too, of which only the documented is known: it keeps the elements. *)

From Stdlib Require Import Ascii QArith Qcanon.
From stdpp Require Import pretty.
From S2P Require Import Prelude PyString PyRegex PyJson JsonText Records.
Open Scope Z_scope.

#[export] Program Instance Qc_ord : PyOrd Qc := {| py_cmp := Qccompare |}.
Next Obligation. intros x y. rewrite <-Qceq_alt. done. Qed.
Next Obligation. intros x y. unfold Qccompare. by rewrite Qcompare_antisym. Qed.
Next Obligation.
  intros x y z. rewrite <-!Qclt_alt. apply Qclt_trans.
Qed.

(** ** Data *)

Inductive FanInMode := UNION | SELECT_BEST | SYNTHESIZE | ADJUDICATE | INTEGRATE | REJECT_REPLAN.
#[export] Instance FanInMode_eq_dec : EqDecision FanInMode.
Proof. solve_decision. Defined.
Definition mode_value (m : FanInMode) : string :=
  match m with
  | UNION => "union" | SELECT_BEST => "select_best" | SYNTHESIZE => "synthesize" | ADJUDICATE => "adjudicate"
  | INTEGRATE => "integrate" | REJECT_REPLAN => "reject_replan"
  end.
Definition fan_in_mode (text : string) : option FanInMode :=
  List.find (λ m, bool_decide (mode_value m = text)) [UNION; SELECT_BEST; SYNTHESIZE; ADJUDICATE; INTEGRATE; REJECT_REPLAN].

Record Candidate := mkCandidate {
  ca_id : string;
  ca_content : json;
  ca_score : option float;
  ca_confidence : option float;
  ca_source : string;
  ca_metadata : dict;
}.
Record NormalizedCandidate := mkNormalized {
  nc_id : string;
  nc_content : json;
  nc_content_hash : string;
  nc_score : option float;
  nc_confidence : option float;
  nc_source : string;
  nc_metadata : dict;
}.
Record FanInResult := mkFanIn {
  fr_mode : FanInMode;
  fr_selected : list NormalizedCandidate;
  fr_rejected : list NormalizedCandidate;
  fr_decision : string;
  fr_rationale : string;
  fr_evidence : dict;
  fr_needs_replan : bool;
}.
Class FanHost := {
  fh_fin :: FloatText;
  fh_rnd : Q → float;
  fh_float_of_text : string → option float;
  fh_sha256 : string → string;
  fh_nan_sort : list NormalizedCandidate → list NormalizedCandidate;
  fh_nan_sort_perm l : fh_nan_sort l ≡ₚ l;
}.

(** A producer's output: an object, a mapping, or something else. *)
Inductive raw_candidate := Object (c : Candidate) | RawMapping (d : dict) | Other.

Inductive fan_error :=
  | NoSuchMode (text : string)
  | EmptyId | NotACandidate | NoId | NoContent
  | MergeEscalationExhausted (attempts : Z) (reason : string)
  | FanCast (e : cast_error).

Definition opt_float_json (x : option float) : json := match x with Some x => JFloat x | None => JNull end.
Definition normalized_to_dict (c : NormalizedCandidate) : dict :=
  [("id", JStr c.(nc_id)); ("content", c.(nc_content)); ("content_hash", JStr c.(nc_content_hash));
   ("score", opt_float_json c.(nc_score)); ("confidence", opt_float_json c.(nc_confidence));
   ("source", JStr c.(nc_source)); ("metadata", JDict c.(nc_metadata))].
Definition result_to_dict (r : FanInResult) : dict :=
  [("mode", JStr (mode_value r.(fr_mode))); ("selected", JList (map (λ c, JDict (normalized_to_dict c)) r.(fr_selected)));
   ("rejected", JList (map (λ c, JDict (normalized_to_dict c)) r.(fr_rejected))); ("decision", JStr r.(fr_decision));
   ("rationale", JStr r.(fr_rationale)); ("evidence", JDict r.(fr_evidence)); ("needs_replan", JBool r.(fr_needs_replan))].

Section fan_in.
Context `{FanHost}.

(** ** Normalization *)

Definition canonical_json (v : json) : string := dumps_compact v.
Definition content_hash (content : json) : string := fh_sha256 (canonical_json content).

(** [raw.get(a) or raw.get(b) or ... or ""] *)
Fixpoint first_truthy (raw : dict) (keys : list string) : json :=
  match keys with
  | [] => JStr ""
  | k :: keys => match dict_get k raw with Some v => if truthy v then v else first_truthy raw keys | None => first_truthy raw keys end
  end.
(** [float(v) if isinstance(v, (int, float)) else None] *)
Definition opt_number (v : option json) : result fan_error (option float) :=
  match v with
  | Some ((JBool _ | JInt _ | JFloat _) as v) => x ← map_err FanCast (py_float fh_rnd fh_float_of_text v); Ok (Some x)
  | _ => Ok None
  end.
(** [raw["content"] if "content" in raw else raw["body"]] *)
Definition content_of (raw : dict) : option json :=
  match dict_get "content" raw with Some v => Some v | None => dict_get "body" raw end.

Definition as_candidate (raw : raw_candidate) : result fan_error Candidate :=
  match raw with
  | Object c => if bool_decide (strip c.(ca_id) = "") then Err EmptyId else Ok c
  | Other => Err NotACandidate
  | RawMapping raw =>
      if negb (dict_mem "id" raw || dict_mem "ref" raw || dict_mem "artifact_ref" raw) then Err NoId
      else match content_of raw with
      | None => Err NoContent
      | Some content =>
          let cid := strip (text_of (first_truthy raw ["id"; "ref"; "artifact_ref"])) in
          if bool_decide (cid = "") then Err EmptyId
          else
            score ← opt_number (dict_get "score" raw);
            confidence ← opt_number (dict_get "confidence" raw);
            metadata ← map_err FanCast (py_dict (dict_get "metadata" raw));
            Ok (mkCandidate cid content score confidence (text_of (first_truthy raw ["source"])) metadata)
      end
  end.

Definition normalized (c : Candidate) : NormalizedCandidate :=
  mkNormalized c.(ca_id) c.(ca_content) (content_hash c.(ca_content)) c.(ca_score) c.(ca_confidence) c.(ca_source) c.(ca_metadata).
Fixpoint normalize_from (seen : list string) (candidates : list raw_candidate) : result fan_error (list NormalizedCandidate) :=
  match candidates with
  | [] => Ok []
  | raw :: rest =>
      cand ← as_candidate raw;
      let n := normalized cand in
      if bool_decide (n.(nc_content_hash) ∈ seen) then normalize_from seen rest
      else out ← normalize_from (n.(nc_content_hash) :: seen) rest; Ok (n :: out)
  end.
Definition normalize_candidates : list raw_candidate → result fan_error (list NormalizedCandidate) := normalize_from [].

(** ** Ranking *)

Definition fl_opp (x : float) : float := match x with Fin q => Fin (- q) | Inf n => Inf (negb n) | NaN => NaN end.
(** The place of a float in the order of floats. *)
Definition fl_place (x : float) : Z * Qc :=
  match x with Inf true => (0, 0%Qc) | Fin q => (1, Q2Qc q) | Inf false => (2, 0%Qc) | NaN => (3, 0%Qc) end.
Definition rank_key (c : NormalizedCandidate) : Z * (Z * Qc) * (Z * (Z * Qc)) * string :=
  let part (x : option float) := match x with Some x => (0, fl_place (fl_opp x)) | None => (1, fl_place (Fin 0)) end in
  (part c.(nc_score), part c.(nc_confidence), c.(nc_content_hash)).
Definition nan_key (c : NormalizedCandidate) : bool :=
  let nan (x : option float) := match x with Some x => is_nan x | None => false end in nan c.(nc_score) || nan c.(nc_confidence).
Definition rank (l : list NormalizedCandidate) : list NormalizedCandidate :=
  if existsb nan_key l then fh_nan_sort l else sort_by rank_key l.

(** ** Selecting *)

Definition ids (l : list NormalizedCandidate) : json := JList (map (λ c, JStr c.(nc_id)) l).
Definition empty_result (mode : FanInMode) (needs_replan : bool) : FanInResult :=
  mkFanIn mode [] [] "no_candidates" "No valid candidates after normalization." [("count", JInt 0)] needs_replan.
(** [ranked[0]] of an empty list would raise; every caller has a candidate. *)
Definition select_best (best : NormalizedCandidate) (others : list NormalizedCandidate) (mode : FanInMode)
    (decision rationale : string) (evidence : dict) : FanInResult :=
  mkFanIn mode [best] others decision rationale
    (dict_update [("winner_id", JStr best.(nc_id)); ("winner_score", opt_float_json best.(nc_score));
                  ("winner_hash", JStr best.(nc_content_hash))] evidence) false.

Definition contents (l : list NormalizedCandidate) : option (list dict) :=
  foldr (λ c acc, match c.(nc_content), acc with JDict d, Some ds => Some (d :: ds) | _, _ => None end) (Some []) l.
Definition synthesized (best : NormalizedCandidate) (ranked : list NormalizedCandidate) (merged : dict) : NormalizedCandidate :=
  mkNormalized ("synth:" +:+ take_str 16 (content_hash (JStr (join "|" (map nc_content_hash ranked))))) (JDict merged)
    (content_hash (JDict merged)) best.(nc_score) best.(nc_confidence) "synthesize" [("source_ids", ids ranked)].
Definition fallback_select (best : NormalizedCandidate) (others : list NormalizedCandidate) : FanInResult :=
  select_best best others SYNTHESIZE "synthesize_fallback_select"
    "Not all contents are dicts; fell back to SELECT_BEST ranking." [].
Definition key_list (l : list string) : json := JList (map JStr (sort_by (λ k, k) l)).

(** [_synthesize]: lowest rank first, so that the highest wins. *)
Definition synthesize (best : NormalizedCandidate) (others : list NormalizedCandidate) : FanInResult :=
  let ranked := best :: others in
  match contents ranked with
  | None => fallback_select best others
  | Some ds =>
      let merged := foldl dict_update [] (rev ds) in
      mkFanIn SYNTHESIZE [synthesized best ranked merged] ranked "synthesize"
        ("Shallow-merged " +:+ pretty (length ranked) +:+ " dict candidates (higher score wins on key collision).")
        [("source_ids", ids ranked); ("merged_keys", key_list (map fst merged))] false
  end.

(** ** Criteria *)

Definition score_at_least (threshold : float) (c : NormalizedCandidate) : bool :=
  match c.(nc_score) with Some x => fl_le threshold x | None => false end.
Definition prefers (field : string) (c : NormalizedCandidate) : bool :=
  match c.(nc_content) with JDict d => match dict_get field d with Some v => truthy v | None => false end | _ => false end.
Definition clear_winner (pool : list NormalizedCandidate) : bool :=
  match pool with
  | top :: second :: _ =>
      match top.(nc_score), second.(nc_score) with Some x, Some y => fl_lt y x | _, _ => false end
  | _ => true
  end.
Definition reject_replan (pool : list NormalizedCandidate) (rationale : string) (evidence : dict) : FanInResult :=
  mkFanIn ADJUDICATE [] pool "reject_replan" rationale evidence true.

(** The lower bound of the score.  Two candidates that were kept apart by their hashes are not equal, so the ones that
    are not among the kept are the ones below the bound. *)
Definition apply_min_score (criteria : dict) (pool : list NormalizedCandidate) (evidence : dict) :
    result fan_error (list NormalizedCandidate * dict + FanInResult) :=
  threshold ← opt_number (dict_get "min_score" criteria);
  match threshold with
  | None => Ok (inl (pool, evidence))
  | Some t =>
      let kept := List.filter (score_at_least t) pool in
      let evidence := dict_set "filtered_out" (ids (List.filter (λ c, negb (score_at_least t c)) pool))
                        (dict_set "min_score" (JFloat t) evidence) in
      match kept with
      | [] => Ok (inr (reject_replan pool ("No candidate met min_score=" +:+ float_repr t +:+ ".") evidence))
      | _ => Ok (inl (rank kept, evidence))
      end
  end.
Definition apply_prefer (criteria : dict) (pool : list NormalizedCandidate) (evidence : dict) : list NormalizedCandidate * dict :=
  match dict_get "prefer_field" criteria with
  | Some (JStr (String _ _ as field)) =>
      match List.filter (prefers field) pool with
      | [] => (pool, evidence)
      | preferred => (rank preferred, dict_set "preferred_ids" (ids preferred) (dict_set "prefer_field" (JStr field) evidence))
      end
  | _ => (pool, evidence)
  end.
Definition distinct_hashes (pool : list NormalizedCandidate) : nat := length (remove_dups (map nc_content_hash pool)).
Definition apply_agreement (criteria : dict) (pool : list NormalizedCandidate) (evidence : dict) : dict + FanInResult :=
  if match dict_get "require_agreement" criteria with Some v => truthy v | None => false end then
    let evidence := dict_set "distinct_hashes" (JInt (Z.of_nat (distinct_hashes pool)))
                      (dict_set "require_agreement" (JBool true) evidence) in
    if (1 <? Z.of_nat (distinct_hashes pool)) && negb (clear_winner pool)
    then inr (reject_replan pool "Candidates disagree and no strict score winner under require_agreement." evidence)
    else inl evidence
  else inl evidence.

Definition adjudicate_with_criteria (ranked : list NormalizedCandidate) (criteria : dict) : result fan_error FanInResult :=
  bounded ← apply_min_score criteria ranked [("criteria", JDict criteria)];
  match bounded with
  | inr r => Ok r
  | inl (pool, evidence) =>
      let '(pool, evidence) := apply_prefer criteria pool evidence in
      match apply_agreement criteria pool evidence with
      | inr r => Ok r
      | inl evidence =>
          match pool with
          | best :: others =>
              Ok (select_best best others ADJUDICATE "adjudicated"
                    "Adjudicated by deterministic score/confidence ranking under criteria." evidence)
          | [] => Err (FanCast ValueError)
          end
      end
  end.

(** ** The synthesis that keeps conflicts *)

Definition SECOND_SYNTHESIS_WORD_THRESHOLD : Z := 3000.
Definition get_merge_budget (param_budget : option Z) (env_val : option string) : Z :=
  match param_budget, env_val with
  | Some n, _ => n
  | None, Some text => default 3 (int_of_text text)
  | None, None => 3
  end.

Fixpoint count_words (v : json) : Z :=
  let words (text : string) := Z.of_nat (length (split_space text)) in
  match v with
  | JNull => 0
  | JStr s => words s
  | JDict l => foldr (λ p n, words p.1 + count_words p.2 + n) 0 l
  | JList l => foldr (λ v n, count_words v + n) 0 l
  | v => words (text_of v)
  end.
Definition aggregate_word_count (l : list json) : Z := foldr (λ v n, count_words v + n) 0 l.
Definition raw_content (raw : raw_candidate) : json :=
  match raw with Object c => c.(ca_content) | RawMapping d => default JNull (content_of d) | Other => JNull end.

(** Who says what about a key: rank, identifier, value. *)
Definition values_of (k : string) (ranked : list NormalizedCandidate) : list (Z * string * json) :=
  omap (λ p, match p.2.(nc_content) with
             | JDict d => (λ v, (Z.of_nat p.1, p.2.(nc_id), v)) <$> dict_get k d
             | _ => None
             end) (imap pair ranked).
Definition all_keys (ds : list dict) : list string := sort_by (λ k, k) (remove_dups (concat (map (map fst) ds))).
Definition in_conflict (l : list (Z * string * json)) : bool :=
  match l with [] => false | first :: rest => existsb (λ p, negb (json_eq p.2 first.2)) rest end.
Definition claim_of (p : Z * string * json) : json :=
  let '(rank_idx, id, v) := p in
  JDict [("worker_id", JStr id); ("candidate_id", JStr id); ("rank", JInt rank_idx); ("value", v)].
Definition merged_value (l : list (Z * string * json)) : json :=
  let first_val := match l with (_, _, v) :: _ => v | [] => JNull end in
  if in_conflict l then JDict [("primary", first_val); ("conflict", JBool true); ("candidates", JList (map claim_of l))]
  else first_val.

Definition budget_reason (conflicts budget : Z) : string :=
  "Number of conflicting keys (" +:+ pretty conflicts +:+ ") exceeds budget (" +:+ pretty budget +:+ ").".
(** One pass; [None] when a content is not a dictionary. *)
Definition merge_pass (best : NormalizedCandidate) (others : list NormalizedCandidate) (merge_budget : Z) :
    result fan_error (option FanInResult) :=
  let ranked := best :: others in
  match contents ranked with
  | None => Ok None
  | Some ds =>
      let keys := all_keys ds in
      let conflicting := List.filter (λ k, in_conflict (values_of k ranked)) keys in
      let n := Z.of_nat (length conflicting) in
      if merge_budget <? n then Err (MergeEscalationExhausted n (budget_reason n merge_budget))
      else
        let merged := map (λ k, (k, merged_value (values_of k ranked))) keys in
        Ok (Some (mkFanIn SYNTHESIZE [synthesized best ranked merged] ranked "synthesize"
          ("Conflict-preserving merged " +:+ pretty (length ranked) +:+ " dict candidates.")
          [("source_ids", ids ranked); ("merged_keys", key_list keys); ("conflicting_keys", key_list conflicting);
           ("escalated", JBool false); ("second_synthesis_triggered", JBool false)] false))
  end.
Definition run_conflict_preserving_synthesis (best : NormalizedCandidate) (others : list NormalizedCandidate)
    (merge_budget word_count : Z) : result fan_error FanInResult :=
  first ← merge_pass best others merge_budget;
  match first with
  | None => Ok (fallback_select best others)
  | Some r =>
      if word_count <? SECOND_SYNTHESIS_WORD_THRESHOLD then Ok r
      else match r.(fr_selected) with
      | synth :: _ =>
          second ← merge_pass synth [] merge_budget;
          let r := default (fallback_select synth []) second in
          Ok (mkFanIn r.(fr_mode) r.(fr_selected) r.(fr_rejected) r.(fr_decision) r.(fr_rationale)
                (dict_update r.(fr_evidence) [("second_synthesis_triggered", JBool true); ("original_word_count", JInt word_count)])
                r.(fr_needs_replan))
      | [] => Ok r
      end
  end.

(** ** [adjudicate] *)

(** [_LAST_SYNTHESIS_EVIDENCE] *)
Record LastSynthesis := mkLast { ls_evidence : dict; ls_content : json; ls_result : option FanInResult }.
Record FanEnv := mkFanEnv { fe_synthesis_mode : option string; fe_merge_budget : option string }.
Definition synthesis_mode (env : FanEnv) : string := lower (default "off" env.(fe_synthesis_mode)).

Definition adjudicate_synthesize (env : FanEnv) (candidates : list raw_candidate) (best : NormalizedCandidate)
    (others : list NormalizedCandidate) (merge_budget : option Z) (last : option LastSynthesis) :
    result fan_error FanInResult * option LastSynthesis :=
  let mode := synthesis_mode env in
  if negb (bool_decide (mode = "shadow") || bool_decide (mode = "enforce")) then (Ok (synthesize best others), last)
  else
    let words := aggregate_word_count (map raw_content candidates) in
    let budget := get_merge_budget merge_budget env.(fe_merge_budget) in
    match run_conflict_preserving_synthesis best others budget words with
    | Err (MergeEscalationExhausted n reason) =>
        if bool_decide (mode = "enforce") then (Err (MergeEscalationExhausted n reason), last)
        else (Ok (synthesize best others),
              Some (mkLast [("escalated", JBool true); ("attempts", JInt n); ("reason", JStr reason)] JNull None))
    | Err e => (Err e, last)
    | Ok r =>
        (Ok (if bool_decide (mode = "shadow") then synthesize best others else r),
         Some (mkLast r.(fr_evidence) (match r.(fr_selected) with c :: _ => c.(nc_content) | [] => JNull end) (Some r)))
    end.

Definition repr_score (x : option float) : string := match x with Some x => float_repr x | None => "None" end.
Definition adjudicate (env : FanEnv) (candidates : list raw_candidate) (criteria : option dict) (mode : string)
    (merge_budget : option Z) (last : option LastSynthesis) : result fan_error FanInResult * option LastSynthesis :=
  match fan_in_mode mode with
  | None => (Err (NoSuchMode mode), last)
  | Some mode =>
      match normalize_candidates candidates with
      | Err e => (Err e, last)
      | Ok normalized =>
          match rank normalized with
          | [] => (Ok (empty_result mode (bool_decide (mode ∈ [REJECT_REPLAN; ADJUDICATE]))), last)
          | (best :: others) as ranked =>
              let n := length normalized in
              match mode with
              | UNION =>
                  (Ok (mkFanIn UNION normalized [] "union" ("Union of " +:+ pretty n +:+ " unique candidates.")
                         [("ids", ids normalized)] false), last)
              | SELECT_BEST =>
                  (Ok (select_best best others SELECT_BEST "selected"
                         ("Selected " +:+ repr best.(nc_id) +:+ " by score/confidence/hash ranking (score="
                          +:+ repr_score best.(nc_score) +:+ ").") []), last)
              | SYNTHESIZE => adjudicate_synthesize env candidates best others merge_budget last
              | ADJUDICATE =>
                  match criteria with
                  | Some (_ :: _ as criteria) => (adjudicate_with_criteria ranked criteria, last)
                  | _ => (Ok (select_best best others ADJUDICATE "adjudicated"
                                "Default ADJUDICATE without criteria equals SELECT_BEST." []), last)
                  end
              | INTEGRATE =>
                  (Ok (mkFanIn INTEGRATE normalized [] "integrate"
                         ("Integration plan over " +:+ pretty n +:+ " candidates by score rank.")
                         [("integration_order", ids ranked); ("ids", ids normalized)] false), last)
              | REJECT_REPLAN =>
                  (Ok (mkFanIn REJECT_REPLAN [] normalized "reject_replan"
                         "Explicit REJECT_REPLAN: all candidates rejected; replan required."
                         [("rejected_ids", ids normalized)] true), last)
              end
          end
      end
  end.
End fan_in.
