(* ===== verification/FanInSpec.v ===== *)
(** * FanInSpec: theorems about fan-in

    The ranking does not depend on the order in which candidates arrive; a winner is a
    best admissible candidate; the synthesis loses no value; shadow mode changes nothing. *)

From Stdlib Require Import Ascii QArith Qcanon.
From S2P Require Import Prelude PyString PyJson JsonText FanIn.
Open Scope Z_scope.

Section fan_in.
Context `{FanHost}.

(** ** Normalization *)

(** The first candidate of each hash. *)
Fixpoint first_of (seen : list string) (l : list NormalizedCandidate) : list NormalizedCandidate :=
  match l with
  | [] => []
  | n :: l => if bool_decide (n.(nc_content_hash) ∈ seen) then first_of seen l else n :: first_of (n.(nc_content_hash) :: seen) l
  end.

Lemma normalize_eq l : normalize_candidates l = (λ cs, first_of [] (map normalized cs)) <$> traverse as_candidate l.
Proof.
  unfold normalize_candidates. generalize (@nil string) as seen. induction l as [|raw l IH]; intros seen; [done|].
  cbn [normalize_from traverse]. destruct (as_candidate raw) as [c|e]; [|done]. cbn [mbind result_mbind].
  cbn [map first_of] in *. case_bool_decide as Hs.
  - rewrite IH. destruct (traverse as_candidate l); [|done]. cbn. by rewrite bool_decide_eq_true_2.
  - rewrite IH. destruct (traverse as_candidate l); [|done]. cbn. by rewrite bool_decide_eq_false_2.
Qed.

Lemma first_of_spec seen l n : n ∈ first_of seen l → n ∈ l ∧ n.(nc_content_hash) ∉ seen.
Proof.
  revert seen. induction l as [|x l IH]; intros seen; cbn; [by intros ?%not_elem_of_nil|]. case_bool_decide as Hx.
  - intros [? ?]%IH. split; [by right|done].
  - intros [->|[Hn Hs]%IH]%elem_of_cons; [split; [by left|done]|]. split; [by right|]. intros Hs'. apply Hs. by right.
Qed.
Lemma first_of_distinct seen l : NoDup (map nc_content_hash (first_of seen l)).
Proof.
  revert seen. induction l as [|x l IH]; intros seen; cbn; [constructor|]. case_bool_decide; [done|]. cbn.
  apply NoDup_cons. split; [|done]. intros (y & Hy & Hin)%list_elem_of_fmap. apply first_of_spec in Hin as [_ Hin].
  apply Hin. rewrite Hy. by left.
Qed.
Lemma first_of_all seen l : NoDup (map nc_content_hash l) → (∀ n, n ∈ l → n.(nc_content_hash) ∉ seen) → first_of seen l = l.
Proof.
  revert seen. induction l as [|x l IH]; intros seen Hnd Hs; cbn; [done|]. apply NoDup_cons in Hnd as [Hx Hnd].
  rewrite bool_decide_eq_false_2 by (apply Hs; by left). f_equal. apply IH; [done|].
  intros n Hn [E|Hin]%elem_of_cons; [|by apply (Hs n); [right|]]. apply Hx. rewrite <-E. by apply list_elem_of_fmap_2.
Qed.

Lemma normalized_distinct l out : normalize_candidates l = Ok out → NoDup (map nc_content_hash out).
Proof. rewrite normalize_eq. destruct (traverse as_candidate l); [|done]. intros [= <-]. apply first_of_distinct. Qed.

Lemma rank_keys l : NoDup (map nc_content_hash l) → NoDup (map rank_key l).
Proof.
  intros Hnd. apply (NoDup_fmap_1 snd). change (NoDup (map snd (map rank_key l))). by rewrite map_map.
Qed.
(** No score and no confidence is NaN. *)
Definition no_nan (l : list NormalizedCandidate) : Prop := ∀ c, c ∈ l → nan_key c = false.
Lemma rank_plain l : no_nan l → rank l = sort_by rank_key l.
Proof.
  intros Hn. unfold rank. destruct (existsb nan_key l) eqn:E; [|done]. apply existsb_exists in E as (c & Hc%list_elem_of_In & Hx).
  by rewrite (Hn c Hc) in Hx.
Qed.
Lemma rank_perm l : rank l ≡ₚ l.
Proof. unfold rank. destruct (existsb _ _); [apply fh_nan_sort_perm|apply sort_by_perm]. Qed.
Lemma rank_order l l' : NoDup (map nc_content_hash l) → no_nan l → l ≡ₚ l' → rank l = rank l'.
Proof.
  intros Hnd Hn Hp. rewrite !rank_plain; [by apply sort_by_order; [apply rank_keys|]| |done]. intros c. rewrite <-Hp. apply Hn.
Qed.

(** ** The order of arrival *)

Lemma traverse_perm {A B} (f : A → result fan_error B) l l' k : l ≡ₚ l' → traverse f l = Ok k →
  ∃ k', traverse f l' = Ok k' ∧ k ≡ₚ k'.
Proof.
  intros Hp Hk%traverse_Ok. destruct (Permutation_Forall2 Hp Hk) as (k' & Hk' & Hf). exists k'. by rewrite traverse_Ok.
Qed.
Lemma words_perm l l' : l ≡ₚ l' → aggregate_word_count l = aggregate_word_count l'.
Proof. intros Hp. unfold aggregate_word_count. induction Hp; cbn; lia. Qed.

Definition numbered (cs : list Candidate) : Prop :=
  ∀ c x, c ∈ cs → c.(ca_score) = Some x ∨ c.(ca_confidence) = Some x → is_nan x = false.

Lemma numbered_no_nan cs : numbered cs → no_nan (map normalized cs).
Proof.
  intros Hn c (x & -> & Hx)%list_elem_of_fmap. unfold nan_key. cbn. apply orb_false_iff. split; case_match; try done; eapply Hn; eauto.
Qed.

(** C33: the outcome does not depend on the order of arrival.  When no two contents have one hash and no score or confidence
    is NaN, selecting, synthesizing and adjudicating answer the same for every order of the candidates, evidence and
    escalations included. *)
Theorem outcome_ignores_order env l l' cs criteria mode budget last :
  l ≡ₚ l' → traverse as_candidate l = Ok cs → NoDup (map (λ c, content_hash c.(ca_content)) cs) → numbered cs →
  mode ∈ ["select_best"; "synthesize"; "adjudicate"] →
  adjudicate env l' criteria mode budget last = adjudicate env l criteria mode budget last.
Proof.
  intros Hp Hcs Hnd Hnum Hmode. destruct (traverse_perm _ _ _ _ Hp Hcs) as (cs' & Hcs' & Hpc).
  unfold adjudicate. rewrite !normalize_eq, Hcs, Hcs'. cbn [fmap result_fmap].
  assert (∀ k, k ≡ₚ cs → first_of [] (map normalized k) = map normalized k) as Hall.
  { intros k Hk. apply first_of_all; [|by intros ? _ ?%not_elem_of_nil]. rewrite map_map. cbn. by rewrite Hk. }
  rewrite !Hall by done. rewrite (rank_order (map normalized cs') (map normalized cs));
    [|by rewrite map_map, <-Hpc|apply numbered_no_nan; intros c x; rewrite <-Hpc; apply Hnum|by rewrite Hpc].
  assert (aggregate_word_count (map raw_content l') = aggregate_word_count (map raw_content l)) as Hw
    by (apply words_perm; by rewrite Hp).
  repeat (apply elem_of_cons in Hmode as [->|Hmode]; [destruct (rank _) as [|best others]; [done|]|]);
    [done| |done|by apply not_elem_of_nil in Hmode].
  change (adjudicate_synthesize env l' best others budget last = adjudicate_synthesize env l best others budget last).
  unfold adjudicate_synthesize. by rewrite Hw.
Qed.

(** ** The modes of the synthesis *)

Lemma merge_pass_error best others budget e : merge_pass best others budget = Err e →
  ∃ n, e = MergeEscalationExhausted n (budget_reason n budget) ∧ budget < n.
Proof.
  unfold merge_pass. destruct (contents _); [|done]. destruct (Z.ltb_spec budget (Z.of_nat (length (List.filter (λ k, in_conflict (values_of k (best :: others))) (all_keys l)))));
    [|done]. intros [= <-]. by eexists.
Qed.
Lemma synthesis_error best others budget words e : run_conflict_preserving_synthesis best others budget words = Err e →
  ∃ n, e = MergeEscalationExhausted n (budget_reason n budget) ∧ budget < n.
Proof.
  unfold run_conflict_preserving_synthesis. destruct (merge_pass best others budget) as [[r|]|e'] eqn:E1; cbn [mbind result_mbind]; [|done|].
  - destruct (words <? _); [done|]. destruct (fr_selected r); [done|].
    destruct (merge_pass n [] budget) eqn:E2; [done|]. intros [= ->]. by eapply merge_pass_error.
  - intros [= ->]. by eapply merge_pass_error.
Qed.

Definition with_mode (mode : option string) (env : FanEnv) : FanEnv := mkFanEnv mode env.(fe_merge_budget).

(** the shadow is inert.  With the switch in shadow the answer, or the exception, is the one of the plain merge, whatever
    the candidates; what the other synthesis did is recorded on the side. *)
Theorem shadow_is_inert env candidates criteria mode budget last :
  (adjudicate (with_mode (Some "Shadow") env) candidates criteria mode budget last).1 =
  (adjudicate (with_mode None env) candidates criteria mode budget last).1 ∧
  (adjudicate (with_mode None env) candidates criteria mode budget last).2 = last.
Proof.
  unfold adjudicate. destruct (fan_in_mode mode) as [m|]; [|done]. destruct (normalize_candidates candidates) as [l|]; [|done].
  destruct (rank l) as [|best others]; [done|]. destruct m; try done; [|destruct criteria as [[|? ?]|]; done].
  unfold adjudicate_synthesize. cbn [fst snd]. split; [|done].
  change (synthesis_mode (with_mode (Some "Shadow") env)) with "shadow". change (synthesis_mode (with_mode None env)) with "off".
  cbn [negb orb bool_decide]. 
  destruct (run_conflict_preserving_synthesis _ _ _ _) as [r|e] eqn:E; [done|].
  apply synthesis_error in E as (n & -> & _). done.
Qed.

(** ** What the synthesis keeps *)

Lemma contents_spec ranked ds : contents ranked = Some ds ↔ Forall2 (λ c d, c.(nc_content) = JDict d) ranked ds.
Proof.
  revert ds. induction ranked as [|c l IH]; intros ds; cbn.
  - split; [intros [= <-]; constructor|by intros ->%Forall2_nil_inv_l].
  - change (foldr _ (Some []) l) with (contents l). split.
    + destruct (nc_content c) eqn:E; try done. destruct (contents l) as [k|]; [|done]. intros [= <-]. constructor; [done|]. by apply IH.
    + intros (d & k & E & Hk & ->)%Forall2_cons_inv_l. apply IH in Hk. by rewrite E, Hk.
Qed.
Lemma values_of_spec i id v k ranked : (i, id, v) ∈ values_of k ranked ↔
  ∃ n c d, i = Z.of_nat n ∧ ranked !! n = Some c ∧ id = c.(nc_id) ∧ c.(nc_content) = JDict d ∧ dict_get k d = Some v.
Proof.
  unfold values_of. rewrite list_elem_of_omap. split.
  - intros ([n c] & Hin & Hv). apply list_elem_of_lookup in Hin as [m Hm]. rewrite list_lookup_imap in Hm.
    destruct (ranked !! m) as [c'|] eqn:E; [|done]. injection Hm as -> ->. cbn in Hv.
    destruct (nc_content c) as [| | | | | |d] eqn:Ec; try done. destruct (dict_get k d) as [w|] eqn:Ed; [|done].
    injection Hv as <- <- <-. by exists n, c, d.
  - intros (n & c & d & -> & Hn & -> & Hc & Hd). exists (n, c). split; [|cbn; by rewrite Hc, Hd].
    apply list_elem_of_lookup. exists n. by rewrite list_lookup_imap, Hn.
Qed.
Lemma all_keys_spec k ds : k ∈ all_keys ds ↔ ∃ d, d ∈ ds ∧ k ∈ map fst d.
Proof.
  unfold all_keys. rewrite elem_of_sort_by, elem_of_remove_dups, list_elem_of_In, in_concat. split.
  - intros (l & (d & <- & Hd)%in_map_iff & Hk). exists d. by rewrite !list_elem_of_In.
  - intros (d & Hd & Hk). exists (map fst d). rewrite <-!list_elem_of_In. split; [by apply list_elem_of_fmap_2|done].
Qed.
Lemma all_keys_distinct ds : NoDup (all_keys ds).
Proof. unfold all_keys. rewrite sort_by_perm. apply NoDup_remove_dups. Qed.
Lemma dict_get_keys {A} (f : string → A) keys k :
  dict_get k (map (λ k, (k, f k)) keys) = if bool_decide (k ∈ keys) then Some (f k) else None.
Proof.
  induction keys as [|x l IH]; [by rewrite bool_decide_eq_false_2 by apply not_elem_of_nil|]. cbn [map].
  rewrite dict_get_cons, IH. destruct (decide (x = k)) as [<-|Hn].
  - rewrite !bool_decide_eq_true_2; [done|by left|done].
  - rewrite (bool_decide_eq_false_2 (x = k)) by done.
    rewrite (bool_decide_ext (k ∈ x :: l) (k ∈ l)); [done|]. rewrite elem_of_cons. naive_solver.
Qed.
Lemma dict_get_key {A} k (v : A) l : dict_get k l = Some v → k ∈ map fst l.
Proof.
  induction l as [|[k' w] l IH]; [done|]. rewrite dict_get_cons. case_bool_decide as E; [subst; by left|]. right. by apply IH.
Qed.

Definition merged_content (ds : list dict) (ranked : list NormalizedCandidate) : dict :=
  map (λ k, (k, merged_value (values_of k ranked))) (all_keys ds).
Definition conflicts (ds : list dict) (ranked : list NormalizedCandidate) : list string :=
  List.filter (λ k, in_conflict (values_of k ranked)) (all_keys ds).

Lemma merge_pass_Ok best others budget ds : contents (best :: others) = Some ds →
  match merge_pass best others budget with
  | Ok r => Z.of_nat (length (conflicts ds (best :: others))) ≤ budget ∧ ∃ r', r = Some r' ∧
      r'.(fr_selected) = [synthesized best (best :: others) (merged_content ds (best :: others))] ∧
      r'.(fr_rejected) = best :: others ∧
      dict_get "conflicting_keys" r'.(fr_evidence) = Some (key_list (conflicts ds (best :: others)))
  | Err e => budget < Z.of_nat (length (conflicts ds (best :: others)))
  end.
Proof.
  intros Hds. unfold merge_pass. rewrite Hds. fold (conflicts ds (best :: others)).
  destruct (Z.ltb_spec budget (Z.of_nat (length (conflicts ds (best :: others))))) as [Hlt|Hle]; [done|].
  split; [done|]. eexists. split_and!; [done..|]. cbn [fr_evidence]. by rewrite !dict_get_cons.
Qed.

Lemma remove_dups_id (l : list string) : NoDup l → remove_dups l = l.
Proof.
  induction 1 as [|x l Hx _ IH]; [done|]. cbn. rewrite IH. case_match; [by exfalso|done].
Qed.
Lemma filter_none {A} (p : A → bool) l : (∀ x, x ∈ l → p x = false) → List.filter p l = [].
Proof.
  induction l as [|x l IH]; intros Hp; [done|]. cbn. rewrite (Hp x) by by left. apply IH. intros y Hy. apply Hp. by right.
Qed.
(** A second pass over one merged candidate. *)
Lemma second_pass_same synth ds ranked : synth.(nc_content) = JDict (merged_content ds ranked) →
  contents [synth] = Some [merged_content ds ranked] ∧ merged_content [merged_content ds ranked] [synth] = merged_content ds ranked ∧
  conflicts [merged_content ds ranked] [synth] = [].
Proof.
  intros Hs. set (m := merged_content ds ranked) in *. split; [cbn; by rewrite Hs|].
  assert (map fst m = all_keys ds) as Hk by (unfold m, merged_content; rewrite map_map; apply map_id).
  assert (all_keys [m] = map fst m) as Hkeys.
  { unfold all_keys at 1. cbn [map concat]. rewrite app_nil_r, Hk, remove_dups_id by apply all_keys_distinct.
    apply sort_by_id, sort_by_sorted. }
  assert (∀ k v, (k, v) ∈ m → values_of k [synth] = [(0, synth.(nc_id), v)]) as Hval.
  { intros k v Hin. unfold values_of. cbn. rewrite Hs.
    assert (NoDup (map fst m)) as Hnd by (rewrite Hk; apply all_keys_distinct).
    by rewrite (proj2 (dict_get_elem_of k v m Hnd) Hin). }
  split.
  - unfold merged_content at 1. rewrite Hkeys, map_map. rewrite <-(map_id m) at 2. apply map_ext_in. intros [k v] Hin.
    cbn [fst snd]. by rewrite (Hval k v) by by apply list_elem_of_In.
  - unfold conflicts. rewrite Hkeys. apply filter_none. intros k Hin. apply list_elem_of_fmap in Hin as ([k' v] & -> & Hin).
    cbn [fst]. by rewrite (Hval k' v).
Qed.

(** The result of the synthesis: the first pass, or over the threshold the pass over its result. *)
Lemma synthesis_Ok best others budget words ds : contents (best :: others) = Some ds →
  let ranked := best :: others in
  let synth := synthesized best ranked (merged_content ds ranked) in
  match run_conflict_preserving_synthesis best others budget words with
  | Ok r => Z.of_nat (length (conflicts ds ranked)) ≤ budget ∧
      (∃ s, r.(fr_selected) = [s] ∧ s.(nc_content) = JDict (merged_content ds ranked)) ∧
      (words < SECOND_SYNTHESIS_WORD_THRESHOLD → r.(fr_rejected) = ranked ∧
         dict_get "conflicting_keys" r.(fr_evidence) = Some (key_list (conflicts ds ranked))) ∧
      (SECOND_SYNTHESIS_WORD_THRESHOLD ≤ words → r.(fr_rejected) = [synth] ∧
         dict_get "conflicting_keys" r.(fr_evidence) = Some (JList []))
  | Err _ => budget < Z.of_nat (length (conflicts ds ranked))
  end.
Proof.
  intros Hds ranked synth. unfold run_conflict_preserving_synthesis. pose proof (merge_pass_Ok best others budget ds Hds) as Hp.
  fold ranked in Hp. destruct (merge_pass best others budget) as [o|e]; [|exact Hp]. cbn [mbind result_mbind].
  destruct Hp as (Hn & r & -> & Hsel & Hrej & Hev). fold synth in Hsel.
  destruct (Z.ltb_spec words SECOND_SYNTHESIS_WORD_THRESHOLD) as [Hw|Hw].
  { split_and!; [done|by exists synth|done|lia]. }
  rewrite Hsel. destruct (second_pass_same synth ds ranked eq_refl) as (Hc & Hm & Hno).
  pose proof (merge_pass_Ok synth [] budget _ Hc) as H2. rewrite Hm, Hno in H2.
  destruct (merge_pass synth [] budget) as [o2|e2]; [|cbn in H2; lia]. destruct H2 as (_ & r2 & -> & Hsel2 & Hrej2 & Hev2).
  cbn [mbind result_mbind default from_option id fr_selected fr_rejected fr_evidence]. split_and!; [done| |lia|].
  - eexists. split; [exact Hsel2|done].
  - intros _. split; [exact Hrej2|]. unfold dict_update. cbn [foldl fst snd]. rewrite !dict_get_set. exact Hev2.
Qed.

(** C32: the synthesis loses nothing.  With dictionaries as contents it fails exactly when more keys are in conflict than the
    budget allows; otherwise its one candidate has the keys of all of them, and what any candidate says of a key is the
    value there, equals it, or is listed with the candidate's rank and identifier in a record of the conflict. *)
Theorem synthesis_loses_nothing best others budget words ds :
  contents (best :: others) = Some ds →
  match run_conflict_preserving_synthesis best others budget words with
  | Err _ => budget < Z.of_nat (length (conflicts ds (best :: others)))
  | Ok r =>
      Z.of_nat (length (conflicts ds (best :: others))) ≤ budget ∧
      ∃ s m, r.(fr_selected) = [s] ∧ s.(nc_content) = JDict m ∧
        (∀ k, is_Some (dict_get k m) ↔ ∃ d, d ∈ ds ∧ k ∈ map fst d) ∧
        ∀ n c d k v, (best :: others) !! n = Some c → c.(nc_content) = JDict d → dict_get k d = Some v →
          ∃ x, dict_get k m = Some x ∧
            (x = v ∨ json_eq v x = true ∨ ∃ first claims,
               x = JDict [("primary", first); ("conflict", JBool true); ("candidates", JList claims)] ∧
               claim_of (Z.of_nat n, c.(nc_id), v) ∈ claims)
  end.
Proof.
  intros Hds. pose proof (synthesis_Ok best others budget words ds Hds) as Hr.
  destruct (run_conflict_preserving_synthesis _ _ _ _) as [r|e]; [|exact Hr]. destruct Hr as (Hn & (s & Hs & Hm) & _).
  split; [done|]. exists s, (merged_content ds (best :: others)). split_and!; [done..| |].
  - intros k. unfold merged_content. rewrite dict_get_keys, <-all_keys_spec. case_bool_decide as Hk.
    + split; [done|by eexists].
    + split; [by intros [? ?]|done].
  - intros n c d k v Hc Hcont Hv. unfold merged_content. rewrite dict_get_keys.
    assert (k ∈ all_keys ds) as Hk.
    { apply all_keys_spec. apply contents_spec in Hds. destruct (Forall2_lookup_l _ _ _ _ _ Hds Hc) as (d' & Hd' & E).
      assert (d' = d) as -> by congruence. exists d. split; [by apply list_elem_of_lookup; exists n|by eapply dict_get_key]. }
    rewrite bool_decide_eq_true_2 by done. eexists. split; [done|].
    assert ((Z.of_nat n, nc_id c, v) ∈ values_of k (best :: others)) as Hin by (apply values_of_spec; by exists n, c, d).
    unfold merged_value. destruct (in_conflict _) eqn:Ec.
    + right; right. do 2 eexists. split; [done|]. by apply list_elem_of_fmap_2.
    + destruct (values_of k (best :: others)) as [|[[i id] x] rest]; [by apply not_elem_of_nil in Hin|].
      apply elem_of_cons in Hin as [[= _ _ ->]|Hin]; [by left|]. right; left. cbn in Ec.
      apply list_elem_of_In in Hin. destruct (json_eq v x) eqn:Ev; [done|]. exfalso.
      apply not_true_iff_false in Ec. apply Ec, existsb_exists. exists (Z.of_nat n, nc_id c, v). split; [exact Hin|].
      cbn. by rewrite Ev.
Qed.

(** ** Winners *)

Definition meets_min (criteria : dict) (c : NormalizedCandidate) : bool :=
  match opt_number (dict_get "min_score" criteria) with Ok (Some t) => score_at_least t c | _ => true end.
Definition preferred (criteria : dict) (c : NormalizedCandidate) : bool :=
  match dict_get "prefer_field" criteria with Some (JStr (String _ _ as field)) => prefers field c | _ => true end.
Definition must_agree (criteria : dict) : bool :=
  match dict_get "require_agreement" criteria with Some v => truthy v | None => false end.

Lemma filter_elem {A} (p : A → bool) l x : x ∈ List.filter p l ↔ x ∈ l ∧ p x = true.
Proof. rewrite !list_elem_of_In. apply filter_In. Qed.
Lemma rank_elem c l : c ∈ rank l ↔ c ∈ l.
Proof. by rewrite rank_perm. Qed.

(** A list of candidates in rank order, apart by hash. *)
Record ranked (l : list NormalizedCandidate) : Prop := {
  rk_sorted : sorted_by rank_key l;
  rk_distinct : NoDup (map nc_content_hash l);
  rk_numbers : no_nan l;
}.
Lemma rank_ranked l : NoDup (map nc_content_hash l) → no_nan l → ranked (rank l).
Proof.
  intros Hnd Hn. split; [rewrite rank_plain by done; apply sort_by_sorted|by rewrite rank_perm|]. intros c. rewrite rank_perm. apply Hn.
Qed.
Lemma filter_ranked p l : ranked l → ranked (rank (List.filter p l)).
Proof.
  intros [_ Hnd Hn]. apply rank_ranked; [by apply (NoDup_map_select nc_content_hash p)|]. intros c [Hc _]%filter_elem. by apply Hn.
Qed.

Lemma min_score_Ok criteria pool evidence : ranked pool → pool ≠ [] →
  match apply_min_score criteria pool evidence with
  | Ok (inl (kept, _)) => ranked kept ∧ kept ≠ [] ∧ ∀ c, c ∈ kept ↔ c ∈ pool ∧ meets_min criteria c = true
  | Ok (inr r) => r.(fr_selected) = [] ∧ r.(fr_needs_replan) = true ∧ ∀ c, c ∈ pool → meets_min criteria c = false
  | Err _ => True
  end.
Proof.
  intros Hs Hne. unfold apply_min_score, meets_min. destruct (opt_number _) as [[t|]|]; [|by split_and!; [| |naive_solver]|done].
  cbn [mbind result_mbind]. destruct (List.filter (score_at_least t) pool) as [|k kept] eqn:E.
  - split_and!; [done..|]. intros c Hc. apply not_true_iff_false. intros Ht.
    assert (c ∈ List.filter (score_at_least t) pool) as Hin by by apply filter_elem. rewrite E in Hin. by apply not_elem_of_nil in Hin.
  - split_and!; [rewrite <-E; by apply filter_ranked| |].
    + intros Hr. assert (k ∈ rank (k :: kept)) as Hin by (apply rank_elem; by left). rewrite Hr in Hin. by apply not_elem_of_nil in Hin.
    + intros c. by rewrite rank_elem, <-E, filter_elem.
Qed.

Lemma prefer_spec criteria pool evidence : ranked pool → pool ≠ [] →
  let pool' := (apply_prefer criteria pool evidence).1 in
  ranked pool' ∧ pool' ≠ [] ∧
  ∀ c, c ∈ pool' ↔ c ∈ pool ∧ ∀ c', c' ∈ pool → preferred criteria c' = true → preferred criteria c = true.
Proof.
  intros Hs Hne. unfold apply_prefer, preferred. destruct (dict_get _ _) as [[| | | |[|a f]| |]|]; try (by split_and!; [| |naive_solver]).
  destruct (List.filter (prefers (String a f)) pool) as [|k l] eqn:E.
  - split_and!; [done..|]. intros c. split; [|by intros [? _]]. intros Hc. split; [done|]. intros c' Hc' Hp. exfalso.
    assert (c' ∈ List.filter (prefers (String a f)) pool) as Hin by by apply filter_elem. rewrite E in Hin. by apply not_elem_of_nil in Hin.
  - cbn [fst]. assert (∀ c, c ∈ rank (k :: l) ↔ c ∈ pool ∧ prefers (String a f) c = true) as Hin by (intros c; by rewrite rank_elem, <-E, filter_elem).
    assert (k ∈ rank (k :: l)) as Hk by (apply rank_elem; by left).
    split_and!; [rewrite <-E; by apply filter_ranked|intros Hr; rewrite Hr in Hk; by apply not_elem_of_nil in Hk|].
    intros c. rewrite Hin. split; [by intros [? ?]|]. intros [Hc Hp]. split; [done|]. apply Hin in Hk as [Hk1 Hk2]. by apply (Hp k).
Qed.

Lemma place_le x y : is_nan x = false → is_nan y = false →
  py_le (fl_place (fl_opp x)) (fl_place (fl_opp y)) = true → fl_le y x = true.
Proof.
  destruct x as [p|[]|], y as [q|[]|]; try done. intros _ _. cbn [fl_opp fl_place]. rewrite py_le_snd. intros Hle.
  assert (Q2Qc (- p) <= Q2Qc (- q))%Qc as Hq.
  { apply Qcle_alt. intros E. unfold py_le in Hle. change (py_cmp (Q2Qc (- p)) (Q2Qc (- q))) with (Q2Qc (- p) ?= Q2Qc (- q))%Qc in Hle.
    by rewrite E in Hle. }
  unfold Qcle, Q2Qc, this in Hq. rewrite !Qred_correct in Hq. apply Qopp_le_compat in Hq. rewrite !Qopp_involutive in Hq.
  unfold fl_le, fl_lt, fl_eq. destruct (Qle_bool p q) eqn:E; [|done]. apply Qle_bool_iff in E. cbn. apply Qeq_bool_iff.
  by apply Qle_antisym.
Qed.
Lemma fl_le_lt z y x : fl_le z y = true → fl_lt y x = true → fl_lt z x = true.
Proof.
  unfold fl_le. rewrite orb_true_iff. destruct x as [p|[]|], y as [q|[]|], z as [r|[]|]; cbn; try done; try (intros [?|?]; done).
  rewrite !negb_true_iff. intros Hzy Hyx. apply not_true_iff_false in Hyx. rewrite Qle_bool_iff in Hyx.
  apply not_true_iff_false. rewrite Qle_bool_iff. intros Hxz. apply Hyx. destruct Hzy as [Hzy|Hzy].
  - apply not_true_iff_false in Hzy. rewrite Qle_bool_iff in Hzy. apply Qnot_le_lt in Hzy. eapply Qle_trans; [exact Hxz|]. by apply Qlt_le_weak.
  - apply Qeq_bool_iff in Hzy. by rewrite <-Hzy.
Qed.

Lemma no_nan_score l c x : no_nan l → c ∈ l → c.(nc_score) = Some x → is_nan x = false.
Proof. intros Hn Hc Hx. specialize (Hn c Hc). unfold nan_key in Hn. rewrite Hx in Hn. by apply orb_false_iff in Hn as [? _]. Qed.

Lemma score_order c d x y : is_nan x = false → is_nan y = false → c.(nc_score) = Some x → d.(nc_score) = Some y →
  py_le (rank_key c) (rank_key d) = true → fl_le y x = true.
Proof.
  intros Hx Hy Hc Hd Hle. apply py_le_fst in Hle. apply py_le_fst in Hle. rewrite Hc, Hd in Hle.
  rewrite py_le_snd in Hle. by apply place_le.
Qed.

Lemma agreement_inl criteria pool evidence evidence' best others : pool = best :: others → ranked pool → no_nan pool → apply_agreement criteria pool evidence = inl evidence' → must_agree criteria = true →
  ∀ c, c ∈ others → ∃ x, best.(nc_score) = Some x ∧ ∀ y, c.(nc_score) = Some y → fl_lt y x = true.
Proof.
  intros Hp [Hs Hnd _] Hnan Ha Hm c Hc. unfold apply_agreement in Ha. fold (must_agree criteria) in Ha. rewrite Hm in Ha.
  subst pool. destruct others as [|second rest]; [by apply not_elem_of_nil in Hc|].
  assert (1 < Z.of_nat (distinct_hashes (best :: second :: rest))) as Hd.
  { unfold distinct_hashes. rewrite remove_dups_id by done. cbn. lia. }
  apply Z.ltb_lt in Hd. rewrite Hd in Ha. cbn [andb] in Ha. destruct (clear_winner _) eqn:Ew; [|done]. clear Ha Hd Hm.
  unfold clear_winner in Ew. destruct (nc_score best) as [x|] eqn:Ex; [|done]. destruct (nc_score second) as [y|] eqn:Ey; [|done].
  exists x. split; [done|]. intros z Hz. apply fl_le_lt with y; [|done].
  apply sorted_by_cons in Hs as [_ Hs]. apply sorted_by_cons in Hs as [Hs _].
  assert (is_nan y = false) as Hny by (apply (no_nan_score _ second _ Hnan); [right; left|done]).
  assert (is_nan z = false) as Hnz by (apply (no_nan_score _ c _ Hnan); [by right|done]).
  apply elem_of_cons in Hc as [->|Hc].
  - assert (z = y) as -> by congruence. unfold fl_le, fl_eq. destruct y as [q|n|]; [|by destruct n|done].
    rewrite orb_true_iff. right. apply Qeq_bool_iff. reflexivity.
  - by apply (score_order second c y z); [..|apply Hs].
Qed.

Lemma agreement_inr criteria pool evidence r : apply_agreement criteria pool evidence = inr r →
  r.(fr_selected) = [] ∧ r.(fr_needs_replan) = true.
Proof. unfold apply_agreement. fold (must_agree criteria). destruct (must_agree criteria); [|done]. destruct (_ && _); [|done]. by intros [= <-]. Qed.

(** C34: an adjudicated winner is a best admissible candidate.  When no score and no confidence is NaN, for which Python's
    sort has no order, and no two candidates have one hash, the answer under criteria is a replan without a selection, or
    one winner that meets the minimum, has the preferred field if any candidate that meets the minimum has it, comes first
    by score, confidence and hash among those like it, and, when agreement is required, has a score strictly above theirs. *)
Theorem adjudicated_winner out criteria r :
  out ≠ [] → NoDup (map nc_content_hash out) → no_nan out →
  adjudicate_with_criteria (rank out) criteria = Ok r →
  (r.(fr_selected) = [] ∧ r.(fr_needs_replan) = true) ∨
  ∃ w, r.(fr_selected) = [w] ∧ r.(fr_needs_replan) = false ∧ w ∈ out ∧ meets_min criteria w = true ∧
    ∀ c, c ∈ out → meets_min criteria c = true →
      (preferred criteria c = true → preferred criteria w = true) ∧
      (preferred criteria c = preferred criteria w →
         py_le (rank_key w) (rank_key c) = true ∧
         (must_agree criteria = true → c ≠ w → ∃ x, w.(nc_score) = Some x ∧ ∀ y, c.(nc_score) = Some y → fl_lt y x = true)).
Proof.
  intros Hne Hnd Hnan. assert (rank out ≠ []) as Hr.
  { intros E. pose proof (rank_perm out) as Hp. rewrite E in Hp. apply Hne. by apply Permutation_nil in Hp. }
  unfold adjudicate_with_criteria. pose proof (min_score_Ok criteria (rank out) [("criteria", JDict criteria)] (rank_ranked _ Hnd Hnan) Hr) as Hmin.
  destruct (apply_min_score _ _ _) as [[[pool ev]|r']|]; [| |done]; cbn [mbind result_mbind].
  2: { intros [= ->]. left. by destruct Hmin as (? & ? & _). }
  destruct Hmin as (Hs & Hpne & Hpool). pose proof (prefer_spec criteria pool ev Hs Hpne) as Hpref. cbn in Hpref.
  destruct (apply_prefer criteria pool ev) as [pool' ev']. cbn [fst] in Hpref. destruct Hpref as (Hs' & Hne' & Hpool').
  destruct (apply_agreement criteria pool' ev') as [ev2|r'] eqn:Ea; [|intros [= <-]; left; by apply agreement_inr in Ea].
  destruct pool' as [|w others] eqn:Ep; [done|]. intros [= <-]. right. exists w.
  assert (∀ c, c ∈ pool ↔ c ∈ out ∧ meets_min criteria c = true) as Hp by (intros c; by rewrite Hpool, rank_elem).
  assert (w ∈ w :: others) as Hw by left. apply Hpool' in Hw as [Hw1 Hw2]. apply Hp in Hw1 as Hw3. destruct Hw3 as [Hwo Hwm].
  split_and!; [done..|]. intros c Hc Hcm. assert (c ∈ pool) as Hcp by by apply Hp.
  split; [by apply Hw2|]. intros Heq.
  assert (c ∈ w :: others) as Hin.
  { apply Hpool'. split; [done|]. intros c' Hc' Hpc'. rewrite Heq. by apply (Hw2 c'). }
  split.
  - apply elem_of_cons in Hin as [->|Hin]; [apply py_le_refl|]. destruct Hs' as [Hs' _ _]. apply sorted_by_cons in Hs' as [Hs' _]. by apply Hs'.
  - intros Hm Hcw. apply elem_of_cons in Hin as [->|Hin]; [done|].
    apply (agreement_inl criteria (w :: others) ev' ev2 w others); [done..| |done|done|done].
    intros d Hd. apply Hnan. apply Hpool' in Hd as [Hd _]. by apply Hp in Hd as [? _].
Qed.

(** ** The plain merge *)

Lemma dict_get_update k (a b : dict) : NoDup (map fst b) →
  dict_get k (dict_update a b) = match dict_get k b with Some v => Some v | None => dict_get k a end.
Proof.
  unfold dict_update. revert a. induction b as [|[k' v] b IH]; intros a Hnd; [done|]. apply NoDup_cons in Hnd as [Hk' Hnd].
  cbn [foldl fst snd]. rewrite IH, dict_get_set, dict_get_cons by done. case_bool_decide as E; [subst|].
  - rewrite bool_decide_eq_true_2 by done. destruct (dict_get k' b) eqn:Eb; [|done]. exfalso. apply Hk'. by eapply dict_get_key.
  - rewrite bool_decide_eq_false_2 by done. by destruct (dict_get k b).
Qed.

(** the plain merge takes the best candidate's word.  With dictionaries as contents the merged value of a key is the one of
    the first candidate, by rank, that has the key. *)
Theorem plain_merge_by_rank best others ds :
  contents (best :: others) = Some ds → (∀ d, d ∈ ds → NoDup (map fst d)) →
  ∃ s m, (synthesize best others).(fr_selected) = [s] ∧ s.(nc_content) = JDict m ∧
    ∀ k, dict_get k m = head (omap (dict_get k) ds).
Proof.
  intros Hds Hnd. unfold synthesize. rewrite Hds. do 2 eexists. split_and!; [done..|]. intros k. clear Hds.
  induction ds as [|d ds IH]; [done|]. cbn [rev]. rewrite foldl_app. cbn [foldl].
  rewrite dict_get_update by (apply Hnd; by left). rewrite IH by (intros d' Hd'; apply Hnd; by right).
  cbn [omap list_omap]. by destruct (dict_get k d).
Qed.
End fan_in.

(** ** Runs *)

#[local] Instance toy_fan_host : FanHost :=
  { fh_fin := plain_fin; fh_rnd := Fin; fh_float_of_text := λ _, None; fh_sha256 := id;
    fh_nan_sort := id; fh_nan_sort_perm := λ l, Permutation_refl l }.

Definition toy_candidate (id : string) (score : Q) (content : json) : Candidate := mkCandidate id content (Some (Fin score)) None "" [].
Definition toy_a : Candidate := toy_candidate "a" (9 # 10) (JDict [("x", JInt 1); ("y", JInt 2)]).
Definition toy_b : Candidate := toy_candidate "b" (1 # 2) (JDict [("x", JInt 7); ("z", JInt 3)]).
Definition enforce : FanEnv := mkFanEnv (Some "enforce") None.

Example outcome_ignores_order_witness :
  adjudicate enforce [Object toy_b; Object toy_a] None "synthesize" None None
  = adjudicate enforce [Object toy_a; Object toy_b] None "synthesize" None None.
Proof.
  apply (outcome_ignores_order enforce [Object toy_a; Object toy_b] [Object toy_b; Object toy_a] [toy_a; toy_b]).
  - apply Permutation_swap.
  - vm_compute. reflexivity.
  - apply (bool_decide_unpack _). vm_compute. exact I.
  - intros c x [->|[->|?%not_elem_of_nil]%elem_of_cons]%elem_of_cons; [| |done]; by intros [[= <-]|[=]].
  - apply elem_of_cons. right. apply elem_of_cons. by left.
Defined.

Definition toy_ranked : list NormalizedCandidate := [normalized toy_a; normalized toy_b].
Example synthesis_loses_nothing_witness :
  match run_conflict_preserving_synthesis (normalized toy_a) [normalized toy_b] 3 6 with
  | Ok r => ∃ s m, r.(fr_selected) = [s] ∧ s.(nc_content) = JDict m
  | Err _ => False
  end.
Proof.
  assert (contents toy_ranked = Some [[("x", JInt 1); ("y", JInt 2)]; [("x", JInt 7); ("z", JInt 3)]]) as Hc by (vm_compute; reflexivity).
  pose proof (synthesis_loses_nothing (normalized toy_a) [normalized toy_b] 3 6 _ Hc) as Hs.
  destruct (run_conflict_preserving_synthesis _ _ _ _) as [r|e] eqn:E.
  - destruct Hs as (_ & s & m & H1 & H2 & _). by exists s, m.
  - apply (f_equal is_ok) in E. revert E. vm_compute. discriminate.
Defined.
(** What the merged content looks like. *)
Example toy_conflict :
  (λ r, map nc_content r.(fr_selected)) <$> run_conflict_preserving_synthesis (normalized toy_a) [normalized toy_b] 3 6
  = Ok [JDict [("x", JDict [("primary", JInt 1); ("conflict", JBool true);
          ("candidates", JList [JDict [("worker_id", JStr "a"); ("candidate_id", JStr "a"); ("rank", JInt 0); ("value", JInt 1)];
                                JDict [("worker_id", JStr "b"); ("candidate_id", JStr "b"); ("rank", JInt 1); ("value", JInt 7)]])]);
        ("y", JInt 2); ("z", JInt 3)]].
Proof. vm_compute. reflexivity. Qed.

Example adjudicated_winner_witness :
  match adjudicate_with_criteria (rank toy_ranked) [("min_score", JFloat (Fin (1 # 4)))] with
  | Ok r => r.(fr_needs_replan) = true ∨ ∃ w, r.(fr_selected) = [w]
  | Err _ => False
  end.
Proof.
  destruct (adjudicate_with_criteria (rank toy_ranked) [("min_score", JFloat (Fin (1 # 4)))]) as [r|e] eqn:E.
  - destruct (adjudicated_winner toy_ranked [("min_score", JFloat (Fin (1 # 4)))] r) as [[_ Hr]|(w & Hw & _)];
      [done| | |exact E|by left|right; by exists w].
    + apply (bool_decide_unpack _). vm_compute. exact I.
    + by intros c [->|[->|?%not_elem_of_nil]%elem_of_cons]%elem_of_cons.
  - apply (f_equal is_ok) in E. revert E. vm_compute. discriminate.
Defined.

Example plain_merge_by_rank_witness :
  ∃ s m, (synthesize (normalized toy_a) [normalized toy_b]).(fr_selected) = [s] ∧ s.(nc_content) = JDict m ∧
    dict_get "x" m = Some (JInt 1).
Proof.
  destruct (plain_merge_by_rank (normalized toy_a) [normalized toy_b] [[("x", JInt 1); ("y", JInt 2)]; [("x", JInt 7); ("z", JInt 3)]])
    as (s & m & Hs & Hm & Hk).
  - vm_compute. reflexivity.
  - intros d [->|[->|?%not_elem_of_nil]%elem_of_cons]%elem_of_cons; [| |done]; literal_keys.
  - exists s, m. split; [exact Hs|split; [exact Hm|]]. rewrite Hk. reflexivity.
Defined.

(** From 3000 words on the synthesis runs once more over its own result, and the evidence no longer names the keys in
    conflict nor the candidates it came from. *)
Example second_pass_forgets :
  let evidence words := (λ r, (dict_get "conflicting_keys" r.(fr_evidence), map nc_id r.(fr_rejected)))
    <$> run_conflict_preserving_synthesis (normalized toy_a) [normalized toy_b] 3 words in
  evidence 2999 = Ok (Some (JList [JStr "x"]), ["a"; "b"]) ∧
  ∃ id, evidence 3000 = Ok (Some (JList []), [id]).
Proof. split; [vm_compute; reflexivity|]. eexists. vm_compute. reflexivity. Qed.
(** A candidate below the minimum is neither selected nor rejected. *)
Example filtered_is_nowhere :
  (λ r, (map nc_id r.(fr_selected), map nc_id r.(fr_rejected))) <$>
    adjudicate_with_criteria (rank toy_ranked) [("min_score", JFloat (Fin (3 # 4)))] = Ok (["a"], []).
Proof. vm_compute. reflexivity. Qed.

(** With a NaN among the scores the winner need not be the best: where the sort leaves the
    candidates as they come, as CPython's does here, the first of 1, NaN and 5 wins. *)
Example nan_score_hides_the_best :
  let score id x := mkNormalized id (JDict []) id (Some x) None "" [] in
  match adjudicate_with_criteria (rank [score "a" (Fin 1); score "b" NaN; score "c" (Fin 5)]) [("must_agree", JBool false)] with
  | Ok r => map nc_id r.(fr_selected) = ["a"]
  | Err _ => False
  end.
Proof. by vm_compute. Qed.
